(* ===== verification/_CoqProject ===== *)
-Q . S2P
Prelude.v
ServicePolicy.v
MonitorRow.v
Heartbeats.v
Effective.v
Aggregate.v
Reduce.v
ReduceExt.v
Materialize.v
ServiceRepair.v
ServiceIngest.v
ServiceReach.v
ServiceWatermark.v
ServiceWrites.v
ServiceSeal.v
ServiceSystem.v
ServiceLiveness.v
GoFloat.v
Outbox.v
OutboxFacts.v
OutboxLiveness.v
Sla.v
Report.v
GoString.v
ExpectedRuns.v
ExpectedRunFacts.v
MonitorState.v
MonitorStateFacts.v
Pipeline.v
Gate.v
GateDecision.v
GateStore.v
OnCall.v
Incidents.v
IncidentFacts.v
IncidentDelivery.v
ServiceAlert.v
IncidentRefine.v
Delegation.v
DelegationFacts.v
Interact.v
Dispatch.v
DispatchFacts.v
Coverage.v
Dependencies.v
DependencyFacts.v
Escalation.v
EscalationFacts.v
BurnEval.v
BurnFacts.v
GoBase64.v
ChangeText.v
Changes.v
ChangeCompare.v
ChangeFacts.v
CompareFacts.v
ServiceGraph.v
GraphFacts.v
ServiceImpact.v
ImpactWalk.v
ImpactFacts.v
ImpactLinks.v
CredSettings.v
CredFacts.v
GoTime.v
EvalSemantics.v
EvalFacts.v
