(* ===== verification/Prelude.v ===== *)
(** * Cerbix: the reliability core, verified

    Cerbix is a monitoring server written in Go.  Probes produce heartbeats; heartbeats of the
    monitors a _service_ is made of are folded, minute by minute, into exact durations (the
    reliability evaluator) which are sealed and repaired; reports quote an availability and an
    error budget over the sealed durations; a deployment gate turns a report, the burn latches
    and the incidents into ALLOW, WARN or BLOCK; the live signal and the sealed burn signal page
    people through an outbox of events, and the members of a service stay silent while the
    service answers for them.  This library models that chain, function by function, and proves
    what makes each link correct.  All paths below are relative to src/internal.

    ** Parts, and the file that models each

    Shared:
    - [Prelude] (this file): Go's [int64] (as [Z] with explicit wrap-around), instants and
      durations of package [time], the error monad [result] with its [let!] notation,
      [sort.Search], generic lemmas on lists, counting and sums, measures of instants, and
      transition systems ([system], [sys_reachable]) with their invariant rule.  The hint
      database [cerbix] and the tactics used everywhere are here.
    - [GoFloat]: [float64] as IEEE 754 binary64, executable, without axioms.
    - [GoString]: Go strings as byte lists (trimming, UTF-8 lengths, hexadecimal).
    - [Interact]: programs that call their environment, for code whose calls matter.

    Measuring:
    - [ServicePolicy] (domain/service.go, the types of domain/monitor.go): the declaration of
      a service, its defaults and its validator, the freshness deadline of a member, the
      canonical bucket arithmetic.
    - [Effective] (reliability/effective.go): the state of one member at an instant, and the
      instants at which it can change.  [Aggregate] (reliability/aggregate.go): the census of
      one instant and its verdict ([StateAt]).  [Reduce] (reliability/reduce.go): the reducer
      of a bucket, its conservation checks, its provenance.  [ReduceExt]: the reducer reads the
      members' states and nothing else.
    - [MonitorRow], [Heartbeats]: the rows of [monitors] and [heartbeats], and the class
      [ServiceSink], what the services promise about every heartbeat that was inserted.
    - [ExpectedRuns], [ExpectedRunFacts] (domain/expectedrun.go, store/expectedruns.go,
      store/monitorschedule.go): the ledger of due windows.
    - [MonitorState], [MonitorStateFacts] (store/monitors.go): the transactions that write a
      monitor's live status, proved against [ServiceSink].
    - [Materialize] (store/servicematerialize.go), [ServiceRepair] (store/servicerepair.go),
      [ServiceIngest] (store/serviceingest.go): the forward driver, the repair ranges and
      their workers, the ingest mark.  [ServiceReach], [ServiceWatermark], [ServiceWrites],
      [ServiceSeal], [ServiceSystem], [ServiceLiveness]: the lemmas and the composition of the
      three as one system.  [Pipeline] instantiates [ServiceSink] with that system.

    Reporting and gating:
    - [Sla] (sla/sla.go, domain/sla.go, domain/serviceburn.go): windows, budgets, burn rules
      and the HOLD matrix of one rule.
    - [Report] (store/servicereport.go, store/serviceburnmath.go,
      store/gateallwindowsreport.go): the withholding rule and the two report paths over the
      rows of one snapshot.
    - [Gate] (domain/gate.go): the policy document, the decision algebra, the status of an
      override, decision identifiers.  [GateDecision] (store/gatedecision.go): one decision,
      from the snapshot to the record.  [GateStore] (store/gatepolicy.go,
      projectgatepolicy.go, gateoverride.go, gate.go): the policy generations and the override
      slot as tables, the transactions as functions, and their interleavings as a step relation.

    Alerting:
    - [OnCall] (domain/escalation.go, the routing of store/servicealerteval.go): escalation
      records, the rotation, the recipients of an alert.
    - [ServiceAlert] (domain/servicealert.go, store/servicealerteval.go,
      servicealertlifecycle.go, servicealertpolicy.go, alertdelegation.go,
      serviceincidents.go): the edge rule and the live signal of one service.
    - [BurnEval], [BurnFacts] (store/serviceburneval.go and the burn half of the files above):
      the sealed signal, a latch per rule of a target.
    - [Incidents], [IncidentFacts] (domain/incident.go, store/incidents.go,
      serviceincidents.go, incidentcontext.go): the rows of an incident and the transactions
      that write them.  [IncidentRefine]: the incident half of [ServiceAlert] is what these
      transactions do.
    - [Outbox], [OutboxFacts], [OutboxLiveness] (store/outbox.go, the loop of
      outbox/outbox.go): the table of queued events and the workers that drain it.
      [IncidentDelivery]: incidents and workers over one database.
    - [Dispatch], [DispatchFacts] (outbox/outbox.go, notify/notify.go): what delivering an
      event does, topic by topic, as programs over the worker's calls.
    - [Delegation], [DelegationFacts] (store/alertdelegation.go, servicealertstate.go): when a
      service answers for a monitor.  [Coverage]: the alert writers beside the worker whose
      deliveries arm the delegation.
    - [Dependencies], [DependencyFacts] (store/dependencies.go, fileprovider/validate.go): the
      dependency graph of monitors and the two writers that check it.
    - [Escalation], [EscalationFacts] (store/escalation.go): the pass that climbs the ladders
      of open incidents.

    Changes:
    - [ChangeText] (domain/change.go): the vocabulary of changes, the validators of their
      texts over code points, the order of phases, the note of an incident.  [GoBase64]: the
      encodings a page cursor uses, with their round trips.
    - [Changes] (store/change.go): the phases recorded for a service, the timeline and its
      cursor, the links to incidents, retention.  [ChangeCompare] (the series and the comparison
      of store/servicereport.go): the figures before and after a change.  [ChangeFacts],
      [CompareFacts]: what they promise.

    The graph of services:
    - [ServiceGraph] (store/servicegraph.go, the create and the delete of store/services.go,
      migration 00080): the edges under their token, the checks of an edit, creation with edges
      and deletion.  [GraphFacts]: the bound on chains.
    - [ServiceImpact] (store/serviceimpact.go, domain/serviceimpact.go): the walk from an
      incident's services, the candidates of an attempt and its links, the note, the read.
      [ImpactWalk]: the walk is the set of canonical paths.  [ImpactFacts], [ImpactLinks]: what a
      plan holds and what an attempt records.

    Settings:
    - [CredSettings], [CredFacts] (domain/credsettings.go and the binding keys of
      syntheticbindings.go, canarycanonical.go, canaryexec.go): the registry of per-type settings,
      normalization, validation, and what binds an execution.
    - [EvalSemantics], [EvalFacts] (domain/execsemantics.go): what an evaluation epoch snapshots
      of a monitor, its canonical encoding and its hash; [GoTime] has the text of an instant.

    The components call each other as the code does: [Reduce] calls [Aggregate] which calls
    [Effective]; [Materialize] calls [Reduce]; [GateDecision] calls [Report], [Sla] and [Gate];
    [BurnEval] calls [Report], [Sla] and [OnCall]; [ChangeCompare] calls [Report];
    [ServiceImpact] walks the edges of [ServiceGraph]; [Dispatch] asks the questions [Delegation]
    and [Dependencies] answer; [Escalation] enqueues the steps [Dispatch] delivers.  Where a
    client needs a promise only, it is a class: [ServiceSink] (heartbeats), [Payload] and
    [IncidentPayload] (what the outbox reads of an event), [Wire] (decoding a payload).

    ** What the theorems show

    - Measuring.  The reducer _refines_ the point evaluator: every duration is the measure of
      the set of instants with that verdict ([Reduce_refines_StateAt]).  Aggregation never turns
      an exclusion into a failure.  Sealed numbers are accounted for: a sealed bucket is what
      the evidence says, or a range that will recompute it is queued, or the observation that
      changed it was not one of this service's ([sealed_numbers_are_accounted]); the result path
      keeps that ([results_keep_numbers_accounted]); a repair completes and is exact
      ([repair_completes_exactly]); the watermark covers no hole.
    - The result path.  The live status is a function of the applied results
      ([live_status_from_history]), the transition log a refinement of a simple machine
      ([status_log_announces]); the ledger never forgets a window or moves a verdict back.
    - Reports and the gate.  An availability is quoted exactly when the window is continuous, of
      one revision and decidable ([availability_quoted_iff]); the gate fails closed
      ([gate_algebra_fails_closed], [allow_iff_positively_clear]), its freshness horizon is
      sound, and a service has one open override.
    - Alerts.  Both signals refine the log their recipients see ([announcements_refine_the_log],
      [burn_announcements_refine_the_log]); a burn page is evidenced by two quotable windows and
      every rule of a slice is judged ([burn_pages_are_evidenced], [slice_is_judged]); a
      persistent outage is announced.
    - Incidents.  The timeline is the incident's history and only moves forward, resolved is
      final, one incident per anchor is open, and nobody hears an event of an incident before the
      earlier ones were accepted ([incident_story_is_told_in_order]).
    - Delivery.  What is due is delivered and a failing event dies at its tenth failure; an onset
      is credited by a real delivery or condemned, and a delegated alert is withheld only when the
      service that owns it was heard ([withheld_alert_was_answered]).
    - Changes.  A change is its start, its end, or both in order, under any interleaving
      ([change_is_one_story]); recording twice is recording once; every link goes back to a phase
      known by the opening, and a correlation links all of them; a client that follows the
      cursors reads each change once ([timeline_is_read_once]); retention takes whole changes; a
      side of the comparison is what the sealed rows of its range say
      ([comparison_refines_the_record]).
    - Graph and ladder.  Edits keep cycles up to ten levels out, the bundle check accepts exactly
      the acyclic declarations, an outage has an announced root within those bounds; a ladder
      fires its elapsed rungs in order, for confirmed outages only.
    - Services and impact.  Every reachable graph of services has chains of at most ten edges and
      no cycle, whichever edits, creations and deletions led to it, and an edit is refused for its
      shape only when it would break that ([service_chains_are_short], [graph_edit_is_exact]); so
      the walk, cut off at ten levels, finds every dependency, with the same canonical path from
      both ends ([walk_finds_every_dependency]).  A recorded link is true of the graph and of the
      incidents that were open when it was inserted ([impact_links_are_true]), does not depend on
      which of two incidents was correlated last ([impact_is_symmetric]), and a redelivery adds
      none ([redelivery_links_nothing]).
    - Settings.  A prepared configuration is a fixed point that binds the same execution
      ([prepared_settings_are_canonical]), a default may be stated or left out
      ([defaults_may_be_left_out]), and the flat keys of bindings parse back.  The snapshot of a
      monitor reads its evaluation fields and no secret ([semantics_read_no_secret]), and its hash
      tells every change of it ([snapshot_hash_tells_changes]).
    The corners where the code does not do what it says are examples beside the theorems
    (races of a late row with the frontier, an unlocked incident note, a burn sequence that
    restarts, twelve monitors that blame each other, and others).

    ** Transactions and interleaving

    A transaction is a function of the tables it reads, and systems of several writers interleave
    whole transactions; [Err] is a rollback.  That is faithful where the code takes row locks or a
    serializable snapshot before it decides, which the models follow; where it does not, the race
    is either a step of its own ([GateStore] splits the creation of an override at its unlocked
    read) or an example that runs the two halves apart (the examples of [ServiceSystem] and
    [IncidentDelivery]).  Clocks are arguments: [now()] is the transaction's start,
    [statement_timestamp()] the statement's, and instants read under a row lock do not go back.
    Identifiers the database generates are arguments, assumed fresh where a theorem needs it.

    Scope of the composed systems: in [ServiceSystem] definitions and maintenance windows are
    fixed during a run, except declarations that take effect at or after the frontier; in
    [DependencyFacts] the edges change through the edit and the deletion of a monitor; between two
    passes of the ladder anything may change but how far an open incident has climbed, its service
    and its frozen ladder; [burn_step] has every writer of the burn tables named in its file; in
    [change_system] incidents, decisions and services move freely ([change_moves]) but no writer
    alters an incident's project, service or opening, or removes its note; in [graph_system] the
    edges change through the edit, the creation and the deletion, and whatever the rest of the
    program writes of a service but its edges and its slug ([graph_moves]).

    ** Bounds, fuel and numbers

    [time.Duration] and the counters are [int64]: sums and products the code performs on them
    are [add64]/[mul64], and theorems that need no overflow state the range.  Instants are
    unbounded nanoseconds since Go's zero time.  [trimWith], [runeCount], [runes] and [search_loop]
    recurse on fuel equal to the length they consume, and each round consumes at least one
    element, so fuel never runs out.  The backoff loop has fuel 7, one more than the doublings
    its cap admits; the scan of the watermark has 1440 buckets, as the query's; [drain] and the
    bundle's [visit] are proved to need no more rounds than there are undelivered rows, and
    monitors plus one; [uvarintLoop] has the value's bits for rounds of
    seven; [climb] stops at [dependencyDepthCap], as the recursive query does.

    ** What is not modelled

    SQL text and the database itself.  [strconv.FormatFloat], SHA-256, random bytes, JSON
    decoding, the test for Unicode NFC, [url.Parse] and the collation of the database are
    parameters or classes.  Audit rows, metrics and log lines are left out.  Network
    probing, HTTP handling, rendering, AMQP, cryptography, partition retention and the process shell are
    out of scope: their behaviour is that of libraries and peers, or is catalogue work of
    PostgreSQL.  The write path of service definitions, the file provider's planner, status
    pages, the scheduler's loop and the administration of monitors and settings are not
    modelled. *)

From stdpp Require Export sorting base gmap strings list numbers.

Declare Scope cerbix_scope.
Delimit Scope cerbix_scope with cerbix.

#[global] Open Scope Z_scope.

(** ** Machine integers *)

(** [int64] bounds and two's-complement wrap-around. *)
Definition int64_min : Z := - 2 ^ 63.
Definition int64_max : Z := 2 ^ 63 - 1.

Definition wrap64 (z : Z) : Z := (z + 2 ^ 63) mod 2 ^ 64 - 2 ^ 63.

(** Addition of two [int64] values ([time.Duration] included), as Go performs it. *)
Definition add64 (a b : Z) : Z := wrap64 (a + b).
Definition mul64 (a b : Z) : Z := wrap64 (a * b).

(** ** Instants and durations of package [time]

    An instant is the number of nanoseconds since Go's zero time
    (0001-01-01T00:00:00Z); a duration is an [int64] number of nanoseconds. *)
Definition Time : Type := Z.
Definition Duration : Type := Z.

Definition Nanosecond : Duration := 1.
Definition Second : Duration := 1000000000.
Definition Minute : Duration := 60 * Second.
Definition Hour : Duration := 60 * Minute.

(** The Unix epoch on this scale. *)
Definition unixEpoch : Time := 62135596800 * Second.

Definition IsZero (t : Time) : bool := t =? 0.
Definition Before (t u : Time) : bool := t <? u.
Definition After (t u : Time) : bool := u <? t.
Definition Equal (t u : Time) : bool := t =? u.
Definition Add (t : Time) (d : Duration) : Time := t + d.

(** [Time.Sub] saturates at the [Duration] bounds. *)
Definition Sub (t u : Time) : Duration :=
  if t - u <? int64_min then int64_min
  else if int64_max <? t - u then int64_max
  else t - u.

(** [Time.UnixNano] is the low 64 bits of the distance to the epoch. *)
Definition UnixNano (t : Time) : Z := wrap64 (t - unixEpoch).

(** [Time.UnixMilli]: whole milliseconds since the epoch, rounded down. *)
Definition UnixMilli (t : Time) : Z := wrap64 ((t - unixEpoch) / 1000000).

(** [Time.Truncate] rounds down to a multiple of [d] since the zero time. *)
Definition Truncate (t : Time) (d : Duration) : Time :=
  if d <=? 0 then t else t - t mod d.

(** ** Errors as values *)
Inductive result (E A : Type) : Type :=
| Ok (a : A)
| Err (e : E).
Arguments Ok {E A} a.
Arguments Err {E A} e.

Definition rbind {E A B} (r : result E A) (k : A -> result E B) : result E B :=
  match r with Ok a => k a | Err e => Err e end.

Notation "'let!' x := c 'in' k" := (rbind c (fun x => k))
  (at level 200, x pattern, c at level 100, k at level 200,
   format "'[v' 'let!'  x  :=  c  'in' '/' k ']'") : cerbix_scope.
#[global] Open Scope cerbix_scope.

Definition is_ok {E A} (r : result E A) : bool :=
  match r with Ok _ => true | Err _ => false end.

(** The value of a result, for concrete runs. *)
Definition okOr {E A} (r : result E A) (d : A) : A := match r with Ok a => a | Err _ => d end.

(** A guard: the early [return err] of a Go function. *)
Definition refuse_if {E} (b : bool) (e : E) : result E unit :=
  if b then Err e else Ok tt.

(** ** Tactics *)

(** Case analysis on every [match]/[if] scrutinee of the goal, then of the
    hypotheses, closing the impossible branches. *)
Ltac break_goal :=
  repeat match goal with
  | |- context [match ?x with _ => _ end] => destruct x eqn:?
  | |- context [if ?x then _ else _] => destruct x eqn:?
  end.

Ltac break_hyp :=
  repeat match goal with
  | H : context [match ?x with _ => _ end] |- _ => destruct x eqn:?; try discriminate
  | H : context [if ?x then _ else _] |- _ => destruct x eqn:?; try discriminate
  end.

(** Boolean comparisons to propositions. *)
Ltac bool_facts :=
  repeat match goal with
  | H : (_ && _)%bool = true |- _ => apply andb_prop in H; destruct H
  | H : (_ || _)%bool = false |- _ => apply orb_false_elim in H; destruct H
  | H : negb _ = true |- _ => apply negb_true_iff in H
  | H : negb _ = false |- _ => apply negb_false_iff in H
  | H : (_ =? _) = true |- _ => apply Z.eqb_eq in H
  | H : (_ =? _) = false |- _ => apply Z.eqb_neq in H
  | H : (_ <? _) = true |- _ => apply Z.ltb_lt in H
  | H : (_ <? _) = false |- _ => apply Z.ltb_ge in H
  | H : (_ <=? _) = true |- _ => apply Z.leb_le in H
  | H : (_ <=? _) = false |- _ => apply Z.leb_gt in H
  end.

Create HintDb cerbix.

(** ** Results *)

Lemma okOr_ok {E A} (r : result E A) (d : A) : is_ok r = true -> r = Ok (okOr r d).
Proof. by destruct r. Qed.

Lemma refuse_if_Ok {E} b (e : E) : refuse_if b e = Ok tt <-> b = false.
Proof. destruct b; split; done. Qed.

Lemma rbind_unit_Ok {E} (r k : result E unit) :
  rbind r (fun _ => k) = Ok tt <-> r = Ok tt /\ k = Ok tt.
Proof. destruct r as [[]|]; simpl; naive_solver. Qed.

Lemma default_lookup {A} (m : gmap string A) k d : is_Some (m !! k) -> m !! k = Some (default d (m !! k)).
Proof. by intros [x ->]. Qed.

(** Decidable facts about closed values, by evaluation. *)
Ltac by_decision := match goal with |- ?Q => apply (bool_decide_eq_true_1 Q) end; vm_compute; reflexivity.

(** ** Lemmas on machine integers and time *)

Lemma wrap64_id z : int64_min <= z <= int64_max -> wrap64 z = z.
Proof. unfold wrap64, int64_min, int64_max. intros H. rewrite Z.mod_small; lia. Qed.

Lemma wrap64_range z : int64_min <= wrap64 z <= int64_max.
Proof.
  unfold wrap64, int64_min, int64_max.
  pose proof (Z.mod_pos_bound (z + 2 ^ 63) (2 ^ 64)). lia.
Qed.

(** [wrap64] is determined by the residue modulo [2^64]. *)
Lemma wrap64_cong a b : a mod 2 ^ 64 = b mod 2 ^ 64 -> wrap64 a = wrap64 b.
Proof.
  intros H. unfold wrap64. f_equal.
  rewrite (Z.add_mod a), (Z.add_mod b), H by lia. reflexivity.
Qed.

Lemma wrap64_residue a : wrap64 a mod 2 ^ 64 = a mod 2 ^ 64.
Proof.
  unfold wrap64. rewrite Zminus_mod, Z.mod_mod by lia.
  rewrite <- Zminus_mod. f_equal. lia.
Qed.

Lemma add64_wrap_l a b : add64 (wrap64 a) b = wrap64 (a + b).
Proof.
  unfold add64. apply wrap64_cong.
  rewrite Z.add_mod, wrap64_residue, <- Z.add_mod by lia. reflexivity.
Qed.

Lemma add64_wrap_r a b : add64 a (wrap64 b) = wrap64 (a + b).
Proof. unfold add64. rewrite Z.add_comm. rewrite Z.add_comm with (n := a). apply add64_wrap_l. Qed.

Lemma add64_add64 a b c : add64 (add64 a b) c = wrap64 (a + b + c).
Proof. unfold add64 at 2. apply add64_wrap_l. Qed.

(** A left-nested sum wraps once. *)
Lemma add64_sum4 a b c d : add64 (add64 (add64 a b) c) d = wrap64 (a + b + c + d).
Proof. rewrite (add64_add64 a b c). apply add64_wrap_l. Qed.

Lemma add64_sum5 a b c d e :
  add64 (add64 (add64 (add64 a b) c) d) e = wrap64 (a + b + c + d + e).
Proof. rewrite (add64_sum4 a b c d). apply add64_wrap_l. Qed.

Lemma wrap64_inj a b :
  Z.abs (a - b) < 2 ^ 64 -> wrap64 a = wrap64 b -> a = b.
Proof.
  intros Hd H.
  assert (a mod 2 ^ 64 = b mod 2 ^ 64) as Hm
    by (rewrite <- (wrap64_residue a), <- (wrap64_residue b), H; reflexivity).
  pose proof (Z.div_mod a (2 ^ 64)). pose proof (Z.div_mod b (2 ^ 64)).
  assert (a / 2 ^ 64 = b / 2 ^ 64) by nia. lia.
Qed.

Lemma Sub_exact t u : int64_min <= t - u <= int64_max -> Sub t u = t - u.
Proof. intros H. unfold Sub. break_goal; bool_facts; lia. Qed.

Lemma UnixNano_inj t u : Z.abs (t - u) < 2 ^ 64 -> UnixNano t = UnixNano u -> t = u.
Proof. unfold UnixNano. intros Hd H. apply wrap64_inj in H; lia. Qed.

(** ** [sort.Search]: the binary search of package [sort] *)

Fixpoint search_loop (fuel : nat) (f : nat -> bool) (i j : nat) : nat :=
  match fuel with
  | O => i
  | S fuel =>
    if Nat.ltb i j then
      let h := Nat.div2 (i + j) in
      if negb (f h) then search_loop fuel f (S h) j else search_loop fuel f i h
    else i
  end.

(** The loop halves [j - i], so [n] rounds are enough. *)
Definition sort_Search (n : nat) (f : nat -> bool) : nat := search_loop n f 0 n.

Lemma search_loop_spec fuel f i j :
  (i <= j)%nat -> (j - i <= fuel)%nat ->
  let r := search_loop fuel f i j in
  (i <= r <= j)%nat /\
  (r = i \/ f (r - 1)%nat = false) /\ (r = j \/ f r = true).
Proof.
  revert i j. induction fuel as [|fuel IH]; intros i j Hij Hf; simpl.
  - assert (i = j) by lia. subst. split; [lia|]. auto.
  - destruct (Nat.ltb_spec i j) as [Hlt|Hge]; [|split; [lia|]; split; [auto|left; lia]].
    rewrite Nat.div2_div.
    assert (i <= (i + j) / 2 < j)%nat as Hh.
    { split; [apply Nat.div_le_lower_bound; lia | apply Nat.div_lt_upper_bound; lia]. }
    set (h := ((i + j) / 2)%nat) in *.
    destruct (f h) eqn:Hfh; simpl.
    + destruct (IH i h) as (Hr & Hl & Hu); [lia..|].
      split; [lia|]. split; [done|]. destruct Hu as [Hu|Hu]; [|auto].
      right. by rewrite Hu.
    + destruct (IH (S h) j) as (Hr & Hl & Hu); [lia..|].
      split; [lia|]. split; [|done]. destruct Hl as [Hl|Hl]; [|auto].
      right. rewrite Hl. by replace (S h - 1)%nat with h by lia.
Qed.

(** Two predicates that agree below [n] give the same answer. *)
Lemma search_loop_ext fuel f g i j :
  (forall k, (k < j)%nat -> f k = g k) -> search_loop fuel f i j = search_loop fuel g i j.
Proof.
  revert i j. induction fuel as [|fuel IH]; intros i j Hfg; [done|]. simpl.
  destruct (Nat.ltb_spec i j) as [Hlt|]; [|done].
  rewrite Nat.div2_div.
  assert ((i + j) / 2 < j)%nat as Hh by (apply Nat.div_lt_upper_bound; lia).
  rewrite <- (Hfg _ Hh). destruct (negb _); apply IH; [done|].
  intros k Hk. apply Hfg. lia.
Qed.

Lemma sort_Search_ext n f g :
  (forall k, (k < n)%nat -> f k = g k) -> sort_Search n f = sort_Search n g.
Proof. apply search_loop_ext. Qed.

(** On a monotone predicate the search returns the first index that satisfies it. *)
Lemma sort_Search_first n f :
  (forall i j, (i <= j < n)%nat -> f i = true -> f j = true) ->
  let r := sort_Search n f in
  (r <= n)%nat /\ (forall i, (i < r)%nat -> f i = false) /\
  (forall i, (r <= i < n)%nat -> f i = true).
Proof.
  intros Hm. unfold sort_Search.
  destruct (search_loop_spec n f 0 n) as (Hr & Hl & Hu); [lia..|].
  set (r := search_loop n f 0 n) in *. split; [lia|]. split.
  - intros i Hi. destruct Hl as [Hl|Hl]; [lia|].
    destruct (f i) eqn:Hfi; [|done].
    rewrite (Hm i (r - 1)%nat) in Hl by (done || lia). done.
  - intros i Hi. destruct Hu as [Hu|Hu]; [lia|]. apply (Hm r); [lia|done].
Qed.

(** ** Lists *)

Lemma forallb_elem {A} (f : A -> bool) l : forallb f l = true <-> forall x, x ∈ l -> f x = true.
Proof. rewrite forallb_forall. by setoid_rewrite list_elem_of_In. Qed.

Lemma existsb_elem {A} (f : A -> bool) l : existsb f l = true <-> exists x, x ∈ l /\ f x = true.
Proof. rewrite existsb_exists. by setoid_rewrite list_elem_of_In. Qed.

Lemma elem_of_filter_b {A} (P : A -> bool) (l : list A) x :
  x ∈ List.filter P l <-> x ∈ l /\ P x = true.
Proof. rewrite !list_elem_of_In. apply List.filter_In. Qed.

Lemma filter_none_b {A} (P : A -> bool) (l : list A) :
  (forall x, x ∈ l -> P x = false) -> List.filter P l = [].
Proof.
  induction l as [|x l IH]; intros H; [done|]. simpl. rewrite (H x) by set_solver. apply IH. set_solver.
Qed.

Lemma filter_ext_elem {A} (P Q : A -> bool) (l : list A) :
  (forall x, x ∈ l -> P x = Q x) -> List.filter P l = List.filter Q l.
Proof.
  induction l as [|x l IH]; intros H; [done|]. simpl.
  rewrite (H x), IH by set_solver. done.
Qed.

Lemma filter_Permutation_b {A} (P : A -> bool) (l1 l2 : list A) :
  l1 ≡ₚ l2 -> List.filter P l1 ≡ₚ List.filter P l2.
Proof.
  induction 1; simpl; [done| | |by etrans].
  - destruct (P x); [by constructor|done].
  - destruct (P x), (P y); (done || by constructor).
Qed.

Lemma StronglySorted_lookup {A} (R : relation A) (l : list A) i j x y :
  StronglySorted R l -> l !! i = Some x -> l !! j = Some y -> (i < j)%nat -> R x y.
Proof.
  intros Hs. revert i j. induction Hs as [|z l Hs IH Hall]; intros i j Hi Hj Hij; [done|].
  destruct j as [|j]; [lia|]. destruct i as [|i]; simpl in *.
  - simplify_eq. rewrite Forall_forall in Hall. apply Hall, list_elem_of_In.
    by eapply list_elem_of_lookup_2.
  - eapply IH; eauto; lia.
Qed.

Lemma elem_of_flat_map {A B} (f : A -> list B) l y :
  y ∈ flat_map f l <-> exists x, x ∈ l /\ y ∈ f x.
Proof.
  rewrite list_elem_of_In, in_flat_map. by setoid_rewrite <- list_elem_of_In.
Qed.

Lemma existsb_ext_elem {A} (f g : A -> bool) (l : list A) :
  (forall x, x ∈ l -> f x = g x) -> existsb f l = existsb g l.
Proof.
  induction l as [|x l IH]; intros H; simpl; [done|].
  rewrite (H x), IH by set_solver. done.
Qed.

Lemma omap_total {A B} (f : A -> option B) (g : A -> B) (l : list A) :
  (forall x, x ∈ l -> f x = Some (g x)) -> omap f l = map g l.
Proof.
  induction l as [|x l IH]; intros H; [done|].
  cbn. rewrite (H x) by set_solver. f_equal. apply IH. set_solver.
Qed.

(** ** The best element *)

(** The greatest element of a list under a strict order, the first of equals. *)
Definition maxBy {A} (better : A -> A -> bool) (l : list A) : option A :=
  foldr (fun a acc => match acc with Some b => if better b a then Some b else Some a | None => Some a end)
        None l.

Section maxBy.
Context {A : Type} (better : A -> A -> bool).
Hypothesis better_trans : forall a b c, better a b = true -> better c b = false -> better a c = true.
Hypothesis better_asym : forall a b, better a b = true -> better b a = false.

Lemma maxBy_None l : maxBy better l = None <-> l = [].
Proof. destruct l; simpl; [done|]. split; [|done]. repeat case_match; done. Qed.

Lemma maxBy_Some l a : maxBy better l = Some a -> a ∈ l /\ forall b, b ∈ l -> better b a = false.
Proof.
  revert a. induction l as [|x l IH]; intros a; simpl; [done|]. fold (maxBy better l).
  destruct (maxBy better l) as [m|] eqn:E.
  - destruct (IH m eq_refl) as [Hm Hbest]. destruct (better m x) eqn:Hx; intros [= <-].
    + split; [set_solver|]. intros b [->|Hb]%elem_of_cons; [by apply better_asym|by apply Hbest].
    + split; [set_solver|]. intros b [->|Hb]%elem_of_cons.
      * destruct (better x x) eqn:Exx; [by rewrite (better_asym _ _ Exx) in Exx|done].
      * destruct (better b x) eqn:Hbx; [|done].
        pose proof (Hbest _ Hb) as Hn. by rewrite (better_trans _ _ _ Hbx Hx) in Hn.
  - apply maxBy_None in E as ->. intros [= <-]. split; [set_solver|].
    intros b [->|Hb]%elem_of_cons; [|set_solver].
    destruct (better x x) eqn:Exx; [by rewrite (better_asym _ _ Exx) in Exx|done].
Qed.
End maxBy.

(** ** Counting

    [count P l] is the number of elements of [l] that satisfy [P]. *)
Definition count {A} (P : A -> bool) (l : list A) : Z := Z.of_nat (length (List.filter P l)).

Section count.
Context {A : Type}.
Implicit Types (P Q : A -> bool) (l : list A).

Lemma count_nil P : count P [] = 0.
Proof. done. Qed.

Lemma count_cons P x l : count P (x :: l) = Z.b2z (P x) + count P l.
Proof. unfold count. simpl. destruct (P x); simpl; lia. Qed.

Lemma count_app P l1 l2 : count P (l1 ++ l2) = count P l1 + count P l2.
Proof. unfold count. rewrite List.filter_app, length_app. lia. Qed.

Lemma count_nonneg P l : 0 <= count P l.
Proof. unfold count. lia. Qed.

Lemma count_ext P Q l : (forall x, x ∈ l -> P x = Q x) -> count P l = count Q l.
Proof.
  induction l as [|x l IH]; intros H; [done|].
  rewrite !count_cons, (H x) by set_solver. rewrite IH; [done|set_solver].
Qed.

Lemma count_all P l : (forall x, x ∈ l -> P x = true) -> count P l = Z.of_nat (length l).
Proof.
  induction l as [|x l IH]; intros H; [done|].
  rewrite count_cons, (H x), IH by set_solver. simpl. lia.
Qed.

Lemma count_none P l : (forall x, x ∈ l -> P x = false) -> count P l = 0.
Proof.
  induction l as [|x l IH]; intros H; [done|].
  rewrite count_cons, (H x), IH by set_solver. done.
Qed.

Lemma count_pos P l x : x ∈ l -> P x = true -> 1 <= count P l.
Proof.
  induction l as [|y l IH]; intros Hx HP; [set_solver|]. rewrite count_cons.
  pose proof (count_nonneg P l). apply elem_of_cons in Hx as [->|Hx]; [rewrite HP; cbn; lia|].
  specialize (IH Hx HP). destruct (P y); cbn; lia.
Qed.

Lemma count_pos_iff P l : 0 < count P l <-> exists x, x ∈ l /\ P x = true.
Proof.
  split; [|intros (x & Hx & HP); pose proof (count_pos P l x Hx HP); lia].
  induction l as [|y l IH]; [rewrite count_nil; lia|]. rewrite count_cons. destruct (P y) eqn:E; [exists y; set_solver|].
  cbn. intros H. destruct IH as (x & Hx & ?); [lia|]. exists x. set_solver.
Qed.

Lemma count_le P Q l :
  (forall x, x ∈ l -> P x = true -> Q x = true) -> count P l <= count Q l.
Proof.
  induction l as [|x l IH]; intros H; [done|]. rewrite !count_cons.
  assert (count P l <= count Q l) by (apply IH; set_solver).
  pose proof (H x ltac:(set_solver)). destruct (P x), (Q x); simpl; naive_solver lia.
Qed.

Lemma count_Permutation P l1 l2 : l1 ≡ₚ l2 -> count P l1 = count P l2.
Proof. induction 1; rewrite ?count_cons in *; lia. Qed.

Lemma count_zero P l : count P l = 0 -> forall x, x ∈ l -> P x = false.
Proof.
  induction l as [|y l IH]; intros H x Hx; [set_solver|].
  rewrite count_cons in H. pose proof (count_nonneg P l).
  apply elem_of_cons in Hx as [->|Hx].
  - destruct (P y); simpl in *; [lia|done].
  - apply IH; [destruct (P y); simpl in *; lia|done].
Qed.

Lemma count_map_le P (f : A -> A) l :
  (forall x, P (f x) = true -> P x = true) -> count P (map f l) <= count P l.
Proof.
  intros Hf. induction l as [|x l IH]; cbn; [done|]. rewrite !count_cons.
  specialize (Hf x). destruct (P (f x)), (P x); cbn; first [lia|by specialize (Hf eq_refl)].
Qed.

Lemma existsb_count_zero (f : A -> bool) l : existsb f l = false <-> count f l = 0.
Proof.
  split.
  - intros H. apply count_none. intros x Hx. destruct (f x) eqn:E; [|done].
    rewrite <- H. symmetry. apply existsb_exists. exists x. by rewrite <- list_elem_of_In.
  - intros H. apply not_true_iff_false. rewrite existsb_exists. intros (x & Hx & Hf).
    by rewrite (count_zero f l H x) in Hf by by apply list_elem_of_In.
Qed.
End count.

(** [measure P a b] is the number of nanoseconds [t] of [a, b) with [P t]: the
    length of the set of instants where [P] holds. *)
Definition measure (P : Time -> bool) (a b : Time) : Z := count P (seqZ a (b - a)).

Lemma measure_split P a b c : a <= b <= c -> measure P a c = measure P a b + measure P b c.
Proof.
  intros H. unfold measure.
  replace (c - a) with ((b - a) + (c - b)) by lia.
  rewrite seqZ_app by lia. rewrite count_app.
  by replace (a + (b - a)) with b by lia.
Qed.

Lemma measure_const P a b v :
  a <= b -> (forall t, a <= t < b -> P t = v) -> measure P a b = if v then b - a else 0.
Proof.
  intros Hab H. unfold measure. destruct v.
  - rewrite count_all, length_seqZ by (intros x ?%elem_of_seqZ; apply H; lia). lia.
  - apply count_none. intros x ?%elem_of_seqZ. apply H. lia.
Qed.

Lemma measure_ext P Q a b : (forall t, a <= t < b -> P t = Q t) -> measure P a b = measure Q a b.
Proof. intros H. apply count_ext. intros x Hx%elem_of_seqZ. apply H. lia. Qed.

Lemma measure_nonneg P a b : 0 <= measure P a b.
Proof. apply count_nonneg. Qed.

Lemma measure_le P a b : a <= b -> measure P a b <= b - a.
Proof.
  intros Hab. rewrite <- (measure_const (fun _ => true) a b true) by done.
  apply count_le. done.
Qed.

(** Predicates of which exactly one holds at every instant partition the interval. *)
Lemma measure_partition (Ps : list (Time -> bool)) a b :
  a <= b ->
  (forall t, a <= t < b -> foldr Z.add 0 (map (fun P => Z.b2z (P t)) Ps) = 1) ->
  foldr Z.add 0 (map (fun P => measure P a b) Ps) = b - a.
Proof.
  intros Hab H. unfold measure.
  assert (forall l, (forall t, t ∈ l -> a <= t < b) ->
          foldr Z.add 0 (map (fun P => count P l) Ps) = Z.of_nat (length l)) as Hl.
  { induction l as [|t l IH]; intros Hin.
    { clear. induction Ps as [|P Ps IH]; simpl; [done|]. rewrite IH. done. }
    simpl length. rewrite Nat2Z.inj_succ, <- IH by set_solver.
    rewrite <- Z.add_1_l, <- (H t) by (apply Hin; set_solver).
    clear. induction Ps as [|P Ps IH]; simpl; [done|]. rewrite IH, count_cons. lia. }
  rewrite Hl, length_seqZ by (intros t ?%elem_of_seqZ; lia). lia.
Qed.

(** ** Sums over lists *)
Definition sumOf {A} (f : A -> Z) (l : list A) : Z := foldr Z.add 0 (map f l).

Section sumOf.
Context {A : Type}.
Implicit Types (f g : A -> Z) (l : list A).

Lemma sumOf_cons f x l : sumOf f (x :: l) = f x + sumOf f l.
Proof. done. Qed.

Lemma sumOf_Permutation f l1 l2 : l1 ≡ₚ l2 -> sumOf f l1 = sumOf f l2.
Proof. unfold sumOf. induction 1; cbn in *; lia. Qed.

Lemma sumOf_bounds f l lo hi :
  (forall x, x ∈ l -> lo <= f x <= hi) ->
  lo * Z.of_nat (length l) <= sumOf f l <= hi * Z.of_nat (length l).
Proof.
  induction l as [|x l IH]; intros H; [cbn; lia|]. rewrite sumOf_cons.
  pose proof (H x ltac:(set_solver)). specialize (IH ltac:(set_solver)). cbn [length]. lia.
Qed.

Lemma sumOf_add f g l : sumOf (fun x => f x + g x) l = sumOf f l + sumOf g l.
Proof. induction l as [|x l IH]; [done|]. rewrite !sumOf_cons, IH. lia. Qed.
End sumOf.

(** ** Keys and sorted lists *)
Lemma NoDup_omap_key {A B K} (key : A -> K) (key' : B -> K) (f : A -> option B) (l : list A) :
  (forall x y, f x = Some y -> key' y = key x) -> NoDup (map key l) -> NoDup (map key' (omap f l)).
Proof.
  intros Hf. induction l as [|x l IH]; cbn; [intros _; constructor|]. intros [Hni Hnd]%list.NoDup_cons.
  destruct (f x) as [y|] eqn:E; cbn; [|by apply IH]. apply list.NoDup_cons. split; [|by apply IH].
  intros (y' & Hy & (x' & Hx & Hfx)%list_elem_of_omap)%list_elem_of_fmap. apply Hni, list_elem_of_fmap.
  exists x'. split; [|done]. rewrite <- (Hf x y E), <- (Hf x' y' Hfx). exact Hy.
Qed.

(** A list without two equal keys is injective on its keys. *)
Lemma NoDup_map_inj {A B} (f : A -> B) l : NoDup (map f l) -> forall x y, x ∈ l -> y ∈ l -> f x = f y -> x = y.
Proof.
  induction l as [|z l IH]; cbn; [intros _ x y H; by apply not_elem_of_nil in H|]. intros [Hni Hnd]%list.NoDup_cons x y.
  intros [->|Hx]%elem_of_cons [->|Hy]%elem_of_cons E; [done|..|by apply IH]; destruct Hni; apply list_elem_of_fmap; by eexists.
Qed.

Lemma StronglySorted_app_inv {A} (R : A -> A -> Prop) l1 l2 :
  StronglySorted R (l1 ++ l2) -> StronglySorted R l2 /\ forall x y, x ∈ l1 -> y ∈ l2 -> R x y.
Proof.
  induction l1 as [|z l1 IH]; cbn; [intros H; split; [done|]; intros x y Hx; by apply not_elem_of_nil in Hx|].
  intros [H1 H2]%StronglySorted_inv. destruct (IH H1) as [H3 H4]. split; [done|]. intros x y [->|Hx]%elem_of_cons Hy; [|by apply H4].
  rewrite List.Forall_forall in H2. apply H2, list_elem_of_In, elem_of_app. by right.
Qed.

#[export] Hint Resolve count_nonneg measure_nonneg wrap64_range : cerbix.
#[export] Hint Rewrite @count_nil @count_cons @count_app : cerbix.

(** ** Transition systems

    The stateful components are systems: initial states and a step relation; a state is
    reachable by finitely many steps, and an invariant is proved once per step. *)
Record system (S : Type) := System { sys_init : S -> Prop; sys_step : relation S }.
Arguments System {S} _ _.
Arguments sys_init {S} _ _.
Arguments sys_step {S} _ _ _.

Definition sys_reachable {S} (m : system S) (s : S) : Prop :=
  exists s0, sys_init m s0 /\ rtc (sys_step m) s0 s.

Section invariant.
Context {S : Type} (m : system S).

Lemma invariant_steps (I : S -> Prop) s s' :
  (forall x y, sys_step m x y -> I x -> I y) -> rtc (sys_step m) s s' -> I s -> I s'.
Proof. intros Hstep. induction 1 as [|x y z Hs _ IH]; [done|]. intros Hx. by apply IH, (Hstep x). Qed.

Lemma invariant_rule (I : S -> Prop) :
  (forall s, sys_init m s -> I s) -> (forall x y, sys_step m x y -> I x -> I y) ->
  forall s, sys_reachable m s -> I s.
Proof. intros Hinit Hstep s (s0 & H0 & Hr). eapply invariant_steps; [exact Hstep|exact Hr|by apply Hinit]. Qed.

(** A system with more steps reaches at least as much. *)
Lemma reachable_mono (m' : system S) s :
  (forall x, sys_init m x -> sys_init m' x) -> (forall x y, sys_step m x y -> sys_step m' x y) ->
  sys_reachable m s -> sys_reachable m' s.
Proof.
  intros Hi Hs (s0 & H0 & Hr). exists s0. split; [by apply Hi|]. clear H0.
  induction Hr as [|x y z H _ IH]; [constructor|]. eapply rtc_l; [by apply Hs|exact IH].
Qed.
End invariant.
