(* ===== verification/ServicePolicy.v ===== *)
(** * Service policies ([internal/domain/service.go], [internal/domain/monitor.go])

    The declaration side of a service: the aggregation, region, missing-data,
    maintenance and freshness policies of a definition revision, the defaults
    [ApplyServicePolicyDefaults] fills in, the write-time validator
    [ValidateServicePolicies], the freshness deadline [ResolveStaleAfter] and the
    canonical bucket arithmetic.  A Go string type with named constants is an
    inductive with one constructor per constant and an [...Other] constructor for
    every other string (the empty string included). *)

From S2P Require Import Prelude.

(** ** Monitor types ([domain.MonitorType]) *)
Inductive MonitorType :=
| MonitorHTTP | MonitorTCP | MonitorICMP | MonitorDNS | MonitorTLS | MonitorGRPC
| MonitorComposite | MonitorPostgres | MonitorMySQL | MonitorRedis | MonitorPromQL
| MonitorRabbitMQ | MonitorWebSocket | MonitorSSH | MonitorSynthetic | MonitorAsyncCanary
| MonitorPush | MonitorTypeOther (s : string).

#[global] Instance MonitorType_eq_dec : EqDecision MonitorType.
Proof. solve_decision. Defined.

Definition MonitorType_Active (t : MonitorType) : bool :=
  match t with
  | MonitorHTTP | MonitorTCP | MonitorICMP | MonitorDNS | MonitorTLS | MonitorGRPC
  | MonitorComposite | MonitorPostgres | MonitorMySQL | MonitorRedis | MonitorPromQL
  | MonitorRabbitMQ | MonitorWebSocket | MonitorSSH | MonitorSynthetic
  | MonitorAsyncCanary => true
  | MonitorPush | MonitorTypeOther _ => false
  end.

Definition isPush (t : MonitorType) : bool := bool_decide (t = MonitorPush).

(** ** Policy records *)
Inductive AggMode := AggAll | AggAny | AggQuorum | AggOther (s : string).
Inductive RegionMode := RegionPer | RegionAny | RegionAll | RegionOther (s : string).
Inductive MissingDataPolicy :=
  MissingUnknown | MissingBad | MissingIgnore | MissingOther (s : string).
Inductive MaintenancePolicy := MaintenanceExclude | MaintenanceOther (s : string).

#[global] Instance AggMode_eq_dec : EqDecision AggMode.
Proof. solve_decision. Defined.
#[global] Instance RegionMode_eq_dec : EqDecision RegionMode.
Proof. solve_decision. Defined.
#[global] Instance MissingDataPolicy_eq_dec : EqDecision MissingDataPolicy.
Proof. solve_decision. Defined.
#[global] Instance MaintenancePolicy_eq_dec : EqDecision MaintenancePolicy.
Proof. solve_decision. Defined.

Record AggregationPolicy := {
  agg_Mode : AggMode;
  DegradedMin : Z;
  HealthyMin : Z;
}.

Record RegionAggregationPolicy := {
  reg_Mode : RegionMode;
  DegradedMinRegions : Z;
  HealthyMinRegions : Z;
}.

Record FreshnessPolicy := {
  ActiveMultiplier : Z;
  ActiveFloor : Duration;
}.

Record ServicePolicies := {
  Aggregation : AggregationPolicy;
  RegionAgg : RegionAggregationPolicy;
  MissingData : MissingDataPolicy;
  Maintenance : MaintenancePolicy;
  Freshness : FreshnessPolicy;
}.

(** ** Freshness *)
Definition DefaultFreshnessPolicy : FreshnessPolicy :=
  {| ActiveMultiplier := 3; ActiveFloor := 90 * Second |}.

Definition ResolveStaleAfter (f : FreshnessPolicy) (typ : MonitorType)
    (interval grace : Duration) : Duration :=
  if isPush typ then add64 interval grace
  else
    let d := mul64 (ActiveMultiplier f) interval in
    if d <? ActiveFloor f then ActiveFloor f else d.

(** ** Defaults *)

(** [maxDeclared], the loop over the declared cardinalities. *)
Definition maxDeclared (declaredPerRegion : gmap string Z) : Z :=
  map_fold (fun _ n acc => if acc <? n then n else acc) 0 declaredPerRegion.

Definition defaultRegion (r : RegionAggregationPolicy) (expectedRegions : Z)
    : RegionAggregationPolicy :=
  match reg_Mode r with
  | RegionOther "" | RegionPer =>
    {| reg_Mode := RegionPer;
       DegradedMinRegions := if DegradedMinRegions r =? 0 then 1 else DegradedMinRegions r;
       HealthyMinRegions :=
         if HealthyMinRegions r =? 0 then expectedRegions else HealthyMinRegions r |}
  | RegionAny => {| reg_Mode := RegionPer; DegradedMinRegions := 1; HealthyMinRegions := 1 |}
  | RegionAll =>
    {| reg_Mode := RegionPer; DegradedMinRegions := expectedRegions;
       HealthyMinRegions := expectedRegions |}
  | RegionOther _ => r
  end.

Definition defaultQuorum (a : AggregationPolicy) (declaredPerRegion : gmap string Z)
    : AggregationPolicy :=
  if bool_decide (agg_Mode a = AggQuorum) then
    {| agg_Mode := agg_Mode a;
       DegradedMin := if DegradedMin a =? 0 then 1 else DegradedMin a;
       HealthyMin := if HealthyMin a =? 0 then maxDeclared declaredPerRegion else HealthyMin a |}
  else a.

Definition ApplyServicePolicyDefaults (p : ServicePolicies)
    (declaredPerRegion : gmap string Z) (expectedRegions : Z) : ServicePolicies :=
  let mode := if bool_decide (agg_Mode (Aggregation p) = AggOther "") then AggAll
              else agg_Mode (Aggregation p) in
  let agg := {| agg_Mode := mode; DegradedMin := DegradedMin (Aggregation p);
                HealthyMin := HealthyMin (Aggregation p) |} in
  {| Aggregation := defaultQuorum agg declaredPerRegion;
     RegionAgg := defaultRegion (RegionAgg p) expectedRegions;
     MissingData := if bool_decide (MissingData p = MissingOther "") then MissingUnknown
                    else MissingData p;
     Maintenance := if bool_decide (Maintenance p = MaintenanceOther "") then MaintenanceExclude
                    else Maintenance p;
     Freshness := if (ActiveMultiplier (Freshness p) =? 0) && (ActiveFloor (Freshness p) =? 0)
                  then DefaultFreshnessPolicy else Freshness p |}.

(** ** Validation *)

(** The refusals of [ValidateServicePolicies], with the values each message names. *)
Inductive PolicyError :=
| NoMembersDeclared
| RegionDeclaresNone (region : string)
| DegradedMinTooSmall (v : Z)
| HealthyBelowDegraded (h d : Z)
| HealthyExceedsRegion (h declared : Z) (region : string)
| UnknownAggregationMode (m : AggMode)
| RegionModeNotNormalized (m : RegionMode)
| DegradedRegionsTooSmall (v : Z)
| HealthyRegionsBelowDegraded (h d : Z)
| HealthyRegionsExceedExpected (h expected : Z)
| UnknownMissingData (m : MissingDataPolicy)
| UnknownMaintenance (m : MaintenancePolicy).

(** The first entry of a region listing that fails a test, as the [range] loops
    with an early return find it.  Go leaves the order of a map iteration open; the
    listing of [map_to_list] is one of the possible orders. *)
Definition first_failing (bad : Z -> bool) (m : gmap string Z) : option (string * Z) :=
  head (List.filter (fun kv => bad kv.2) (map_to_list m)).

Definition validateAggregation (a : AggregationPolicy) (declaredPerRegion : gmap string Z)
    : result PolicyError unit :=
  match agg_Mode a with
  | AggAll | AggAny => Ok tt
  | AggQuorum =>
    let! _ := refuse_if (DegradedMin a <? 1) (DegradedMinTooSmall (DegradedMin a)) in
    let! _ := refuse_if (HealthyMin a <? DegradedMin a)
                (HealthyBelowDegraded (HealthyMin a) (DegradedMin a)) in
    match first_failing (fun declared => declared <? HealthyMin a) declaredPerRegion with
    | Some (region, declared) => Err (HealthyExceedsRegion (HealthyMin a) declared region)
    | None => Ok tt
    end
  | m => Err (UnknownAggregationMode m)
  end.

Definition validateRegion (r : RegionAggregationPolicy) (expectedRegions : Z)
    : result PolicyError unit :=
  let! _ := refuse_if (negb (bool_decide (reg_Mode r = RegionPer)))
              (RegionModeNotNormalized (reg_Mode r)) in
  let! _ := refuse_if (DegradedMinRegions r <? 1)
              (DegradedRegionsTooSmall (DegradedMinRegions r)) in
  let! _ := refuse_if (HealthyMinRegions r <? DegradedMinRegions r)
              (HealthyRegionsBelowDegraded (HealthyMinRegions r) (DegradedMinRegions r)) in
  refuse_if (expectedRegions <? HealthyMinRegions r)
    (HealthyRegionsExceedExpected (HealthyMinRegions r) expectedRegions).

Definition ValidateServicePolicies (p : ServicePolicies)
    (declaredPerRegion : gmap string Z) (expectedRegions : Z) : result PolicyError unit :=
  let! _ := refuse_if (bool_decide (size declaredPerRegion = 0%nat)) NoMembersDeclared in
  let! _ := match first_failing (fun declared => declared <? 1) declaredPerRegion with
            | Some (region, _) => Err (RegionDeclaresNone region)
            | None => Ok tt
            end in
  let! _ := validateAggregation (Aggregation p) declaredPerRegion in
  let! _ := validateRegion (RegionAgg p) expectedRegions in
  let! _ := match MissingData p with
            | MissingUnknown | MissingBad | MissingIgnore => Ok tt
            | m => Err (UnknownMissingData m)
            end in
  match Maintenance p with
  | MaintenanceExclude => Ok tt
  | m => Err (UnknownMaintenance m)
  end.

(** ** Canonical buckets *)
Definition CanonicalBucket : Duration := Minute.
Definition LateArrivalGrace : Duration := 2 * Minute.
Definition MinSealLag : Duration := LateArrivalGrace + CanonicalBucket + 2 * CanonicalBucket.
Definition MaxSealLag : Duration := 24 * Hour.

Definition CeilToBucket (t : Time) : Time :=
  let floored := Truncate t CanonicalBucket in
  if Equal floored t then t else Add floored CanonicalBucket.

Definition FloorToBucket (t : Time) : Time := Truncate t CanonicalBucket.

(** ** What a stored revision may rely on

    The declarative reading of the validator: the thresholds are ordered and
    satisfiable by the declared cardinality of every region. *)
Record policy_wf (p : ServicePolicies) (declared : gmap string Z) (expected : Z) : Prop := {
  wf_nonempty : declared <> ∅;
  wf_members : map_Forall (fun _ n => 1 <= n) declared;
  wf_aggregation :
    agg_Mode (Aggregation p) = AggAll \/ agg_Mode (Aggregation p) = AggAny \/
    (agg_Mode (Aggregation p) = AggQuorum /\
     1 <= DegradedMin (Aggregation p) <= HealthyMin (Aggregation p) /\
     map_Forall (fun _ n => HealthyMin (Aggregation p) <= n) declared);
  wf_region_mode : reg_Mode (RegionAgg p) = RegionPer;
  wf_region_thresholds :
    1 <= DegradedMinRegions (RegionAgg p) <= HealthyMinRegions (RegionAgg p)
    /\ HealthyMinRegions (RegionAgg p) <= expected;
  wf_missing : MissingData p = MissingUnknown \/ MissingData p = MissingBad \/
               MissingData p = MissingIgnore;
  wf_maintenance : Maintenance p = MaintenanceExclude;
}.

(** ** Helper lemmas *)

Lemma first_failing_None bad m :
  first_failing bad m = None <-> map_Forall (fun _ n => bad n = false) m.
Proof.
  unfold first_failing. rewrite head_None, map_Forall_to_list, Forall_forall.
  split.
  - intros H [k n] Hin. simpl. destruct (bad n) eqn:Hb; [|done].
    assert (In (k, n) (List.filter (λ kv, bad kv.2) (map_to_list m))) as Hf.
    { by apply List.filter_In. }
    rewrite H in Hf. destruct Hf.
  - intros H. destruct (List.filter _ _) as [|[k n] l] eqn:E; [done|].
    assert (In (k, n) (List.filter (λ kv, bad kv.2) (map_to_list m))) as Hf
      by (rewrite E; by left).
    apply List.filter_In in Hf as [Hin Hb].
    specialize (H _ Hin). simpl in *. congruence.
Qed.

Lemma first_failing_ltb k m :
  first_failing (fun n => n <? k) m = None <-> map_Forall (fun _ n => k <= n) m.
Proof.
  rewrite first_failing_None. unfold map_Forall. setoid_rewrite Z.ltb_ge. done.
Qed.

Lemma first_failing_Some bad m k n :
  first_failing bad m = Some (k, n) -> m !! k = Some n /\ bad n = true.
Proof.
  unfold first_failing. destruct (List.filter _ _) as [|x l] eqn:E; [done|].
  intros [= ->].
  assert (In (k, n) (List.filter (λ kv, bad kv.2) (map_to_list m))) as Hf by (rewrite E; by left).
  apply List.filter_In in Hf as [Hin Hb].
  by apply list_elem_of_In, elem_of_map_to_list in Hin.
Qed.

Lemma validateAggregation_Ok a m :
  validateAggregation a m = Ok tt <->
  agg_Mode a = AggAll \/ agg_Mode a = AggAny \/
  (agg_Mode a = AggQuorum /\ 1 <= DegradedMin a <= HealthyMin a /\
   map_Forall (fun _ n => HealthyMin a <= n) m).
Proof.
  unfold validateAggregation. destruct (agg_Mode a); [naive_solver..| |naive_solver].
  rewrite !rbind_unit_Ok, !refuse_if_Ok, !Z.ltb_ge, <- first_failing_ltb.
  destruct (first_failing _ _) as [[]|]; naive_solver.
Qed.

Lemma validateRegion_Ok r e :
  validateRegion r e = Ok tt <->
  reg_Mode r = RegionPer /\
  1 <= DegradedMinRegions r <= HealthyMinRegions r /\ HealthyMinRegions r <= e.
Proof.
  unfold validateRegion.
  rewrite !rbind_unit_Ok, !refuse_if_Ok, !Z.ltb_ge, negb_false_iff, bool_decide_eq_true.
  naive_solver.
Qed.

Lemma maxDeclared_const m n :
  m <> ∅ -> 0 <= n -> map_Forall (fun _ k => k = n) m -> maxDeclared m = n.
Proof.
  intros Hne Hn Hall.
  enough (m = ∅ /\ maxDeclared m = 0 \/ m <> ∅ /\ maxDeclared m = n) by naive_solver.
  unfold maxDeclared. clear Hne. revert Hall.
  apply (map_fold_weak_ind (fun r m => map_Forall (fun _ k => k = n) m ->
           m = ∅ /\ r = 0 \/ m <> ∅ /\ r = n)); [by left|].
  intros k x m' r Hfresh IH Hall.
  apply map_Forall_insert in Hall as [-> Hall]; [|done]. specialize (IH Hall).
  right. split; [by apply insert_non_empty|].
  destruct IH as [[_ ->]|[_ ->]]; break_goal; bool_facts; lia.
Qed.

Lemma defaultRegion_idem r e : 1 <= e -> defaultRegion (defaultRegion r e) e = defaultRegion r e.
Proof.
  intros He. destruct r as [mode d h].
  destruct mode as [| | |s]; try destruct s; unfold defaultRegion; simpl; try done;
    try (f_equal; repeat (case_match; bool_facts; simpl in *; try lia); done).
Qed.

Lemma defaultQuorum_idem a m : defaultQuorum (defaultQuorum a m) m = defaultQuorum a m.
Proof.
  destruct a as [mode d h]. unfold defaultQuorum. simpl.
  repeat (case_bool_decide; simpl in *; try done).
  f_equal; repeat (case_match; bool_facts; simpl in *; try lia).
Qed.

Lemma defaultQuorum_mode a m : agg_Mode (defaultQuorum a m) = agg_Mode a.
Proof. unfold defaultQuorum. by case_bool_decide. Qed.

Lemma restated_mode a :
  agg_Mode a <> AggOther "" ->
  {| agg_Mode := if bool_decide (agg_Mode a = AggOther "") then AggAll else agg_Mode a;
     DegradedMin := DegradedMin a; HealthyMin := HealthyMin a |} = a.
Proof. intros H. rewrite bool_decide_eq_false_2 by done. by destruct a. Qed.

Lemma ValidateServicePolicies_Ok p declared expected :
  ValidateServicePolicies p declared expected = Ok tt <-> policy_wf p declared expected.
Proof.
  unfold ValidateServicePolicies.
  rewrite !rbind_unit_Ok, refuse_if_Ok, bool_decide_eq_false, validateAggregation_Ok,
    validateRegion_Ok.
  assert (match first_failing (λ n, n <? 1) declared with
          | Some (region, _) => Err (RegionDeclaresNone region)
          | None => Ok tt
          end = Ok tt <-> map_Forall (λ _ n, 1 <= n) declared) as ->.
  { rewrite <- first_failing_ltb. destruct (first_failing _ _) as [[]|]; naive_solver. }
  rewrite map_size_empty_iff. split.
  - intros (Hne & Hmem & Hagg & (Hmode & Hthr) & Hmiss & Hmaint).
    split; [done..|by destruct (MissingData p); auto|by destruct (Maintenance p)].
  - intros [Hne Hmem Hagg Hmode Hthr Hmiss Hmaint].
    repeat split; try naive_solver; [by destruct Hmiss as [-> |[-> | ->]]|by rewrite Hmaint].
Qed.

(** ** Properties *)

(** [ValidateServicePolicies] accepts a policy exactly when it is well formed
    against the declared cardinalities: at least one region, every region declaring
    a member, ordered thresholds that every region (and the expected region count)
    can satisfy, a normalized region mode and known enumerations.  Every other
    policy is refused with an error. *)
Theorem ValidateServicePolicies_iff p declared expected :
  ValidateServicePolicies p declared expected = Ok tt <-> policy_wf p declared expected.
Proof. apply ValidateServicePolicies_Ok. Qed.

(** filling the defaults of a declaration a second time changes nothing, for any
    declared region set of positive size: the stored policy is a fixed point of
    [ApplyServicePolicyDefaults]. *)
Theorem ApplyServicePolicyDefaults_idempotent p declared expected (He : 1 <= expected) :
  ApplyServicePolicyDefaults (ApplyServicePolicyDefaults p declared expected) declared expected
  = ApplyServicePolicyDefaults p declared expected.
Proof.
  unfold ApplyServicePolicyDefaults. simpl.
  rewrite defaultRegion_idem by done. f_equal.
  - rewrite restated_mode.
    + apply defaultQuorum_idem.
    + rewrite defaultQuorum_mode. simpl. by case_bool_decide.
  - repeat case_bool_decide; done.
  - repeat case_bool_decide; done.
  - destruct (Freshness p) as [mu fl]; simpl.
    destruct (mu =? 0) eqn:Hmu, (fl =? 0) eqn:Hfl; simpl; rewrite ?Hmu, ?Hfl; done.
Qed.

Example ApplyServicePolicyDefaults_idempotent_witness :
  let p := {| Aggregation := {| agg_Mode := AggOther ""; DegradedMin := 0; HealthyMin := 0 |};
              RegionAgg := {| reg_Mode := RegionAll; DegradedMinRegions := 0; HealthyMinRegions := 0 |};
              MissingData := MissingOther ""; Maintenance := MaintenanceOther "";
              Freshness := {| ActiveMultiplier := 0; ActiveFloor := 0 |} |} in
  ApplyServicePolicyDefaults (ApplyServicePolicyDefaults p {["eu" := 2]} 1) {["eu" := 2]} 1
  = ApplyServicePolicyDefaults p {["eu" := 2]} 1.
Proof. intros p. apply (ApplyServicePolicyDefaults_idempotent p {["eu" := 2]} 1). lia. Defined.

(** a declaration that states no thresholds is accepted after defaulting: any mode
    but [quorum] stated (or none), any of the three region modes without thresholds
    (or none), known or omitted missing-data and maintenance policies, over a
    non-empty set of regions that each declare a member. *)
Theorem defaulted_policy_accepted p (declared : gmap string Z)
  (Hne : declared <> ∅) (Hmem : map_Forall (fun _ n => 1 <= n) declared)
  (Hagg : agg_Mode (Aggregation p) ∈ [AggOther ""; AggAll; AggAny])
  (Hreg : reg_Mode (RegionAgg p) ∈ [RegionOther ""; RegionPer; RegionAny; RegionAll])
  (Hthr : DegradedMinRegions (RegionAgg p) = 0 /\ HealthyMinRegions (RegionAgg p) = 0)
  (Hmiss : MissingData p ∈ [MissingOther ""; MissingUnknown; MissingBad; MissingIgnore])
  (Hmaint : Maintenance p ∈ [MaintenanceOther ""; MaintenanceExclude]) :
  ValidateServicePolicies
    (ApplyServicePolicyDefaults p declared (Z.of_nat (size declared)))
    declared (Z.of_nat (size declared)) = Ok tt.
Proof.
  assert (1 <= Z.of_nat (size declared)) as Hsz.
  { destruct (size declared) eqn:E; [|lia]. by apply map_size_empty_iff in E. }
  unfold ValidateServicePolicies, ApplyServicePolicyDefaults; simpl.
  rewrite !rbind_unit_Ok, refuse_if_Ok, bool_decide_eq_false, validateAggregation_Ok,
    validateRegion_Ok, map_size_empty_iff, defaultQuorum_mode; simpl.
  split; [done|]. split; [apply first_failing_ltb in Hmem; by rewrite Hmem|].
  split; [case_bool_decide; set_solver|]. split.
  { destruct Hthr as [Hd Hh], (RegionAgg p) as [mode d h]; simpl in *; subst.
    repeat (apply elem_of_cons in Hreg as [->|Hreg]; [simpl; lia|]). set_solver. }
  split.
  - repeat (apply elem_of_cons in Hmiss as [->|Hmiss]; [done|]). set_solver.
  - repeat (apply elem_of_cons in Hmaint as [->|Hmaint]; [done|]). set_solver.
Qed.

Example defaulted_policy_accepted_witness :
  let p := {| Aggregation := {| agg_Mode := AggOther ""; DegradedMin := 0; HealthyMin := 0 |};
              RegionAgg := {| reg_Mode := RegionOther ""; DegradedMinRegions := 0; HealthyMinRegions := 0 |};
              MissingData := MissingOther ""; Maintenance := MaintenanceOther "";
              Freshness := {| ActiveMultiplier := 0; ActiveFloor := 0 |} |} in
  let declared := {["eu" := 2; "us" := 1]} : gmap string Z in
  ValidateServicePolicies (ApplyServicePolicyDefaults p declared 2) declared 2 = Ok tt.
Proof.
  intros p declared. apply (defaulted_policy_accepted p declared).
  - done.
  - apply map_Forall_insert_2; [lia|]. by apply map_Forall_singleton.
  - left.
  - left.
  - done.
  - left.
  - left.
Defined.

(** the default [healthy_min] of a quorum (the largest declared region) is not
    always acceptable: when two regions declare different numbers of members, a
    quorum declaration that omits [healthy_min] is refused by the validator that
    runs right after the defaulting, naming a region whose declared count is below
    the defaulted threshold. *)
Theorem quorum_default_refused_on_uneven_regions p (declared : gmap string Z) expected big small nb ns
  (Hmode : agg_Mode (Aggregation p) = AggQuorum)
  (Hd : DegradedMin (Aggregation p) = 0) (Hh : HealthyMin (Aggregation p) = 0)
  (Hmem : map_Forall (fun _ n => 1 <= n) declared)
  (Hbig : declared !! big = Some nb) (Hsmall : declared !! small = Some ns) (Hlt : ns < nb) :
  exists region n,
    declared !! region = Some n /\ n < maxDeclared declared /\
    ValidateServicePolicies (ApplyServicePolicyDefaults p declared expected) declared expected
    = Err (HealthyExceedsRegion (maxDeclared declared) n region).
Proof.
  assert (forall r n, declared !! r = Some n -> n <= maxDeclared declared) as Hmax.
  { intros r n. unfold maxDeclared.
    apply (map_fold_weak_ind (fun acc m => m !! r = Some n -> n <= acc)); [by rewrite lookup_empty|].
    intros k x m acc Hk IH Hlk. destruct (decide (k = r)) as [->|].
    - rewrite lookup_insert_eq in Hlk. simplify_eq. break_goal; bool_facts; lia.
    - rewrite lookup_insert_ne in Hlk by done. specialize (IH Hlk). break_goal; bool_facts; lia. }
  pose proof (Hmax _ _ Hbig). pose proof (Hmem _ _ Hsmall) as Hs1. simpl in Hs1.
  destruct (first_failing (λ n, n <? maxDeclared declared) declared) as [[region n]|] eqn:Hff.
  2:{ apply first_failing_ltb in Hff. specialize (Hff _ _ Hsmall). simpl in Hff. lia. }
  exists region, n. apply first_failing_Some in Hff as Hreg.
  destruct Hreg as [Hreg ?%Z.ltb_lt]. split; [done|]. split; [done|].
  unfold ValidateServicePolicies.
  rewrite bool_decide_eq_false_2; [|intros ?%map_size_empty_iff; by subst]. simpl.
  apply first_failing_ltb in Hmem as ->. simpl.
  unfold validateAggregation, ApplyServicePolicyDefaults, defaultQuorum. simpl.
  rewrite Hmode, Hd, Hh. simpl.
  rewrite (proj2 (Z.ltb_ge (maxDeclared declared) 1)) by lia. simpl. by rewrite Hff.
Qed.

Example quorum_default_refused_witness :
  let p := {| Aggregation := {| agg_Mode := AggQuorum; DegradedMin := 0; HealthyMin := 0 |};
              RegionAgg := {| reg_Mode := RegionOther ""; DegradedMinRegions := 0; HealthyMinRegions := 0 |};
              MissingData := MissingOther ""; Maintenance := MaintenanceOther "";
              Freshness := {| ActiveMultiplier := 0; ActiveFloor := 0 |} |} in
  let declared := {["eu" := 2; "us" := 1]} : gmap string Z in
  exists region n,
    declared !! region = Some n /\ n < maxDeclared declared /\
    ValidateServicePolicies (ApplyServicePolicyDefaults p declared 2) declared 2
    = Err (HealthyExceedsRegion (maxDeclared declared) n region).
Proof.
  intros p declared.
  apply (quorum_default_refused_on_uneven_regions p declared 2 "eu" "us" 2 1).
  - done.
  - done.
  - done.
  - apply map_Forall_insert_2; [lia|]. by apply map_Forall_singleton.
  - reflexivity.
  - reflexivity.
  - lia.
Defined.

(** the freshness deadline of an active member is never below the policy's floor,
    even when the multiplication of the interval overflows [int64]; for a push member
    it is the product's own dead-man cutoff, interval plus grace, whenever that sum is
    representable. *)
Theorem ResolveStaleAfter_bounds f typ interval grace :
  (typ <> MonitorPush -> ActiveFloor f <= ResolveStaleAfter f typ interval grace) /\
  (typ = MonitorPush -> int64_min <= interval + grace <= int64_max ->
   ResolveStaleAfter f typ interval grace = interval + grace).
Proof.
  unfold ResolveStaleAfter, isPush. split.
  - intros Ht. rewrite bool_decide_eq_false_2 by done. break_goal; bool_facts; lia.
  - intros -> Hr. rewrite bool_decide_eq_true_2 by done. by apply wrap64_id.
Qed.

(** Bucket rounding is exact: the floor is the last canonical boundary at or
    before the instant, the ceiling the first at or after it, and they coincide
    exactly on a boundary. *)
Lemma bucket_bounds t :
  (CanonicalBucket | FloorToBucket t) /\ (CanonicalBucket | CeilToBucket t) /\
  FloorToBucket t <= t < FloorToBucket t + CanonicalBucket /\
  t <= CeilToBucket t < t + CanonicalBucket /\
  (FloorToBucket t = CeilToBucket t <-> (CanonicalBucket | t)).
Proof.
  unfold FloorToBucket, CeilToBucket, Truncate, Equal, Add.
  assert (CanonicalBucket <=? 0 = false) as -> by done.
  assert (0 < CanonicalBucket) as Hpos by done.
  pose proof (Z.mod_pos_bound t CanonicalBucket Hpos) as Hm.
  pose proof (Z.div_mod t CanonicalBucket ltac:(lia)) as Hd.
  set (q := t / CanonicalBucket) in *. set (m := t mod CanonicalBucket) in *.
  assert ((CanonicalBucket | t - m)) as Hf by (exists q; lia).
  assert ((CanonicalBucket | t) -> m = 0) as Hdiv by (intros; by apply Z.mod_divide; [lia|]).
  destruct (t - m =? t) eqn:E; bool_facts.
  - assert (m = 0) as Hm0 by lia. rewrite Hm0, Z.sub_0_r in *. split_and!; try done; lia.
  - split_and!; try done; try lia.
    + by apply Z.divide_add_r, Z.divide_refl.
    + split; [lia|]. intros ?%Hdiv. lia.
Qed.
