(* ===== verification/MonitorRow.v ===== *)
(** * The monitors table
    ([internal/domain/monitor.go], the columns of [monitors] and [maintenance_windows] the
    result and expected-run paths of [internal/store] read and write)

    One row of [monitors] with its live state, the confirmation phase, and the maintenance
    windows that cover an instant. *)

From S2P Require Import Prelude ServicePolicy.

(** ** PostgreSQL instants

    A [timestamptz] holds whole microseconds; a Go instant bound as a parameter is truncated. *)
Definition Microsecond : Duration := 1000.
Definition pgTime (t : Time) : Time := t - t mod Microsecond.

(** PostgreSQL's [LEAST(COALESCE(old, t), t)]. *)
Definition earliest (old : option Time) (t : Time) : option Time :=
  Some (match old with Some o => Z.min o t | None => t end).

(** ** Rows *)
Inductive MonitorStatus := StatusPending | StatusUp | StatusDown.

#[global] Instance MonitorStatus_eq_dec : EqDecision MonitorStatus.
Proof. solve_decision. Defined.

Record ProbeErrorNote := {
  pe_reason : string;
  pe_at : Time;
  pe_job_id : string;
}.

(** [domain.Monitor], with the columns the result path keeps beside it. *)
Record MonitorRow := {
  mo_project : string;
  mo_Type : MonitorType;
  mo_Enabled : bool;
  mo_IntervalSeconds : Z;
  mo_ConfirmIntervalSeconds : Z;
  mo_FailureThreshold : Z;
  mo_RenotifySeconds : Z;
  mo_EscalationPolicyID : option string;
  mo_Region : string;
  mo_execution_revision : Z;
  mo_Status : MonitorStatus;
  mo_ConsecutiveFailures : Z;
  mo_state_sequence : Z;
  mo_last_result_ts : option Time;
  mo_last_notified_at : option Time;
  mo_last_probe_error : option ProbeErrorNote;
  mo_push_armed_at : option Time;
  mo_created_at : Time;
}.

Definition ConfirmConfigured (m : MonitorRow) : bool :=
  (0 <? mo_ConfirmIntervalSeconds m) && (1 <? mo_FailureThreshold m)
  && negb (isPush (mo_Type m)) && negb (bool_decide (mo_Type m = MonitorComposite))
  && MonitorType_Active (mo_Type m).

Definition InConfirmPhase (m : MonitorRow) : bool :=
  ConfirmConfigured m && bool_decide (mo_Status m = StatusUp)
  && (0 <? mo_ConsecutiveFailures m) && (mo_ConsecutiveFailures m <? mo_FailureThreshold m).

(** [domain.StatusFor]. *)
Definition StatusFor (up : bool) : MonitorStatus := if up then StatusUp else StatusDown.

(** ** Maintenance windows *)
Record MaintenanceWindow := {
  mw_project : string;
  mw_monitor : option string;
  mw_StartsAt : Time;
  mw_EndsAt : Time;
  mw_CancelEffectiveAt : option Time;
}.

(** [maintEffectiveEnd]: [LEAST(ends_at, COALESCE(cancel_effective_at, ends_at))]. *)
Definition maintEffectiveEnd (w : MaintenanceWindow) : Time :=
  Z.min (mw_EndsAt w) (default (mw_EndsAt w) (mw_CancelEffectiveAt w)).

(** The window is active now and names this monitor, or names no monitor of its project. *)
Definition windowCovers (id project : string) (now : Time) (w : MaintenanceWindow) : bool :=
  (mw_StartsAt w <=? now) && (now <? maintEffectiveEnd w)
  && match mw_monitor w with
     | Some m => bool_decide (m = id)
     | None => bool_decide (mw_project w = project)
     end.

Definition inMaintenance (ws : list MaintenanceWindow) (id project : string) (now : Time) : bool :=
  existsb (windowCovers id project now) ws.

(** ** Lemmas *)
Lemma pgTime_idemp t : pgTime (pgTime t) = pgTime t.
Proof. unfold pgTime, Microsecond. pose proof (Z.mod_pos_bound t 1000). 
  replace ((t - t mod 1000) mod 1000) with 0; [lia|].
  rewrite Zminus_mod_idemp_r. by rewrite Z.sub_diag.
Qed.

Lemma pgTime_bounds t : pgTime t <= t < pgTime t + Microsecond.
Proof. unfold pgTime, Microsecond. pose proof (Z.mod_pos_bound t 1000). lia. Qed.

Lemma pgTime_mono t u : t <= u -> pgTime t <= pgTime u.
Proof. unfold pgTime, Microsecond. intros. Z.div_mod_to_equations. lia. Qed.

Lemma earliest_comm o t u : earliest (earliest o t) u = earliest (earliest o u) t.
Proof. unfold earliest. destruct o; f_equal; lia. Qed.

Lemma earliest_idemp o t : earliest (earliest o t) t = earliest o t.
Proof. unfold earliest. destruct o; f_equal; lia. Qed.

Lemma earliest_is_Some o t : is_Some (earliest o t).
Proof. by unfold earliest. Qed.

#[export] Hint Resolve earliest_is_Some pgTime_bounds : cerbix.
