(* ===== verification/Heartbeats.v ===== *)
(** * Heartbeats, and what the services promise about them
    (the [heartbeats] table written by [internal/store/monitors.go]; the interface between the
    result path and [internal/store/serviceingest.go])

    The table of observations, keyed by monitor and instant, and the class [ServiceSink]: the
    call every ingest path makes for a row it really inserted, with the promise that call
    keeps.  The result path is verified against the class; [ServiceIngest] implements it. *)

From S2P Require Import Prelude ServicePolicy MonitorRow.

Record HeartbeatRow := {
  hr_up : bool;
  hr_latency_ms : Z;
  hr_code : Z;
  hr_msg : string;
  hr_observed_at : option Time;
}.

Notation heartbeats := (gmap (string * Time) HeartbeatRow).

(** [INSERT INTO heartbeats ... ON CONFLICT (monitor_id, ts) DO NOTHING]: the table, and
    whether a row was written. *)
Definition insertHeartbeat (hs : heartbeats) (id : string) (ts : Time) (r : HeartbeatRow) : heartbeats * bool :=
  match hs !! (id, pgTime ts) with
  | Some _ => (hs, false)
  | None => (<[(id, pgTime ts) := r]> hs, true)
  end.

(** What a family of services keeps beside the heartbeats.  [noteHeartbeatForServices] runs in
    the ingesting transaction, after the insert; [None] is its error, which aborts the
    transaction.  [sink_sound hs s] is what the services promise of their facts while the
    table is [hs], and noting each inserted row preserves it. *)
Class ServiceSink (S : Type) := {
  noteHeartbeatForServices : Time -> heartbeats -> string -> Time -> S -> option S;
  sink_sound : heartbeats -> S -> Prop;
  sink_note now hs id ts r s s' :
    id <> "" -> IsZero ts = false -> hs !! (id, pgTime ts) = None -> sink_sound hs s ->
    noteHeartbeatForServices now (<[(id, pgTime ts) := r]> hs) id ts s = Some s' ->
    sink_sound (<[(id, pgTime ts) := r]> hs) s';
}.

(** ** Lemmas *)
Lemma insertHeartbeat_le hs id ts r : hs ⊆ (insertHeartbeat hs id ts r).1.
Proof.
  unfold insertHeartbeat. destruct (hs !! _) eqn:E; simpl; [done|].
  by apply insert_subseteq.
Qed.

Lemma insertHeartbeat_present hs id ts r : is_Some ((insertHeartbeat hs id ts r).1 !! (id, pgTime ts)).
Proof.
  unfold insertHeartbeat. destruct (hs !! _) eqn:E; simpl; [by eexists|].
  by rewrite lookup_insert_eq.
Qed.

Lemma insertHeartbeat_fresh hs id ts r hs' :
  insertHeartbeat hs id ts r = (hs', true) <->
  hs !! (id, pgTime ts) = None /\ hs' = <[(id, pgTime ts) := r]> hs.
Proof. unfold insertHeartbeat. destruct (hs !! _) eqn:E; naive_solver. Qed.

Lemma insertHeartbeat_dup hs id ts r hs' :
  insertHeartbeat hs id ts r = (hs', false) <-> is_Some (hs !! (id, pgTime ts)) /\ hs' = hs.
Proof. unfold insertHeartbeat. destruct (hs !! _) eqn:E; rewrite ?is_Some_alt; naive_solver. Qed.

#[export] Hint Resolve insertHeartbeat_le insertHeartbeat_present : cerbix.
