(* ===== verification/Effective.v ===== *)
(** * Member states and breakpoints
    ([internal/reliability/reliability.go], [internal/reliability/effective.go])

    A member of a service as its evaluation epoch snapshotted it, its sorted
    observation series, the state in force at an instant ([stateAt]) and the
    instants at which that state can change ([breakpoints]). *)

From S2P Require Import Prelude ServicePolicy.

(** ** Data *)
Inductive State := StateUnknown | StateGood | StateBad | StateExcluded.

#[global] Instance State_eq_dec : EqDecision State.
Proof. solve_decision. Defined.

(** [UnknownReason]; the empty string is [ReasonNone]. *)
Inductive UnknownReason := ReasonNone | ReasonNoObservation | ReasonStale.

Definition UnknownReason_string (r : UnknownReason) : string :=
  match r with
  | ReasonNone => ""
  | ReasonNoObservation => "no_observation"
  | ReasonStale => "stale"
  end.

Record Member := {
  m_MonitorID : string;
  m_Type : MonitorType;
  m_Region : string;
  m_Enabled : bool;
  m_StaleAfter : Duration;
  m_ArmedAt : Time;
}.

Record Observation := {
  o_MonitorID : string;
  o_Ts : Time;
  o_Up : bool;
}.

Record MaintenanceSpan := {
  sp_ID : string;
  sp_MonitorID : string;
  sp_From : Time;
  sp_To : Time;
}.

Definition covers (m : MaintenanceSpan) (monitorID : string) (t : Time) : bool :=
  if negb (bool_decide (sp_MonitorID m = "")) && negb (bool_decide (sp_MonitorID m = monitorID))
  then false
  else negb (Before t (sp_From m)) && Before t (sp_To m).

(** [memberSeries]: the snapshot plus the member's observations. *)
Record memberSeries := {
  s_Member : Member;
  s_obs : list Observation;
}.

(** ** Operations *)

(** The order of [sort.Slice] in [buildSeries]. *)
Definition obs_le (o1 o2 : Observation) : Prop := o_Ts o1 <= o_Ts o2.

#[global] Instance obs_le_dec o1 o2 : Decision (obs_le o1 o2).
Proof. unfold obs_le. apply _. Defined.

Definition groupObservations (obs : list Observation) : gmap string (list Observation) :=
  foldl (fun byID o => <[o_MonitorID o := default [] (byID !! o_MonitorID o) ++ [o]]> byID) ∅ obs.

Definition buildSeries (members : list Member) (obs : list Observation) : list memberSeries :=
  let byID := groupObservations obs in
  map (fun m => {| s_Member := m;
                   s_obs := merge_sort obs_le (default [] (byID !! m_MonitorID m)) |}) members.

(** The predicate [latestAt] searches with: observation [i] lies after [t]. *)
Definition obs_after (obs : list Observation) (t : Time) (i : nat) : bool :=
  match obs !! i with Some o => After (o_Ts o) t | None => true end.

Definition latestAt (s : memberSeries) (t : Time) : option Observation :=
  let idx := sort_Search (length (s_obs s)) (obs_after (s_obs s) t) in
  match idx with
  | O => None
  | S i => s_obs s !! i
  end.

Definition stateAt (s : memberSeries) (t : Time) (spans : list MaintenanceSpan)
    (maintenanceExcludes : bool) : State * UnknownReason :=
  let m := s_Member s in
  if negb (m_Enabled m) then (StateExcluded, ReasonNone)
  else if maintenanceExcludes && existsb (fun sp => covers sp (m_MonitorID m) t) spans
  then (StateExcluded, ReasonNone)
  else
    let latest :=
      match latestAt s t with
      | Some o =>
        if isPush (m_Type m) && negb (IsZero (m_ArmedAt m)) && Before (o_Ts o) (m_ArmedAt m)
        then None else Some o
      | None => None
      end in
    match latest with
    | None =>
      if isPush (m_Type m) && negb (IsZero (m_ArmedAt m))
         && negb (Before t (Add (m_ArmedAt m) (m_StaleAfter m)))
      then (StateBad, ReasonNone)
      else (StateUnknown, ReasonNoObservation)
    | Some o =>
      if negb (Before t (Add (o_Ts o) (m_StaleAfter m))) then
        if isPush (m_Type m) then (StateBad, ReasonNone) else (StateUnknown, ReasonStale)
      else if o_Up o then (StateGood, ReasonNone)
      else (StateBad, ReasonNone)
    end.

(** [add] of [breakpoints]: an instant outside the bucket or already seen (by its
    [UnixNano] key) is dropped. *)
Definition addPoint (start end_ : Time) (acc : gset Z * list Time) (t : Time)
    : gset Z * list Time :=
  let '(seen, out) := acc in
  if Before t start || negb (Before t end_) then (seen, out)
  else if bool_decide (UnixNano t ∈ seen) then (seen, out)
  else ({[UnixNano t]} ∪ seen, out ++ [t]).

(** The instants [breakpoints] offers for one member, in the order of the loop. *)
Definition seriesPoints (s : memberSeries) : list Time :=
  let m := s_Member s in
  flat_map (fun o => [o_Ts o; Add (o_Ts o) (m_StaleAfter m)]) (s_obs s)
  ++ (if isPush (m_Type m) && negb (IsZero (m_ArmedAt m))
      then [Add (m_ArmedAt m) (m_StaleAfter m)] else []).

Definition spanPoints (sp : MaintenanceSpan) : list Time := [sp_From sp; sp_To sp].

Definition candidates (series : list memberSeries) (spans : list MaintenanceSpan) : list Time :=
  flat_map seriesPoints series ++ flat_map spanPoints spans.

Definition breakpoints (series : list memberSeries) (spans : list MaintenanceSpan)
    (start end_ : Time) : list Time :=
  merge_sort Z.le
    (foldl (addPoint start end_) (∅, []) (start :: candidates series spans)).2.

(** ** The series of a member *)

Lemma groupObservations_lookup obs id :
  default [] (groupObservations obs !! id)
  = List.filter (fun o => bool_decide (o_MonitorID o = id)) obs.
Proof.
  unfold groupObservations.
  enough (forall acc, default [] (foldl (fun byID o =>
            <[o_MonitorID o := default [] (byID !! o_MonitorID o) ++ [o]]> byID) acc obs !! id)
          = default [] (acc !! id)
            ++ List.filter (fun o => bool_decide (o_MonitorID o = id)) obs) as H
    by (by rewrite H, lookup_empty).
  induction obs as [|o obs IH]; intros acc; simpl; [by rewrite app_nil_r|].
  rewrite IH. case_bool_decide as Hid.
  - subst. rewrite lookup_insert_eq. simpl. by rewrite <- app_assoc.
  - by rewrite lookup_insert_ne.
Qed.

#[global] Instance obs_le_total : Total obs_le.
Proof. intros o1 o2. unfold obs_le. lia. Qed.
#[global] Instance obs_le_trans : Transitive obs_le.
Proof. intros o1 o2 o3. unfold obs_le. lia. Qed.

(** [heartbeats] is unique on [(monitor_id, ts)]. *)
Definition unique_ts (obs : list Observation) : Prop :=
  forall o1 o2, o1 ∈ obs -> o2 ∈ obs -> o_MonitorID o1 = o_MonitorID o2 ->
    o_Ts o1 = o_Ts o2 -> o1 = o2.

(** The series does not depend on the order the observations arrive in. *)
Lemma buildSeries_Permutation members obs1 obs2 :
  unique_ts obs1 -> obs1 ≡ₚ obs2 -> buildSeries members obs1 = buildSeries members obs2.
Proof.
  intros Hu Hp. unfold buildSeries. apply map_ext. intros m. f_equal.
  rewrite !groupObservations_lookup.
  set (P := fun o => bool_decide (o_MonitorID o = m_MonitorID m)).
  apply (Sorted_unique_strong obs_le).
  - intros o1 o2 H1 H2 Hle1 Hle2. unfold obs_le in *.
    rewrite merge_sort_Permutation in H1, H2.
    apply elem_of_filter_b in H1 as [H1 Hid1%bool_decide_eq_true].
    apply elem_of_filter_b in H2 as [H2 Hid2%bool_decide_eq_true].
    rewrite <- Hp in H2. apply Hu; [done..|congruence|lia].
  - apply Sorted_merge_sort, _.
  - apply Sorted_merge_sort, _.
  - rewrite !merge_sort_Permutation. by apply filter_Permutation_b.
Qed.

Lemma buildSeries_sorted members obs s :
  s ∈ buildSeries members obs -> StronglySorted obs_le (s_obs s).
Proof.
  unfold buildSeries. intros (m & -> & _)%list_elem_of_fmap. simpl.
  apply StronglySorted_merge_sort; apply _.
Qed.

(** [latestAt] is sample-and-hold: the last observation at or before [t]. *)
Lemma latestAt_spec s t :
  StronglySorted obs_le (s_obs s) ->
  match latestAt s t with
  | Some o => o ∈ s_obs s /\ o_Ts o <= t /\
              forall o', o' ∈ s_obs s -> o_Ts o' <= t -> o_Ts o' <= o_Ts o
  | None => forall o', o' ∈ s_obs s -> t < o_Ts o'
  end.
Proof.
  intros Hs. unfold latestAt.
  destruct (sort_Search_first (length (s_obs s)) (obs_after (s_obs s) t)) as (Hle & Hlo & Hhi).
  { unfold obs_after. intros i j Hij Hi.
    destruct (s_obs s !! j) as [y|] eqn:Hj; [|done].
    destruct (s_obs s !! i) as [x|] eqn:Hx.
    2:{ apply lookup_ge_None in Hx. lia. }
    destruct (decide (i = j)) as [->|]; [by simplify_eq|].
    assert (obs_le x y) as Hxy by (eapply StronglySorted_lookup; eauto; lia).
    unfold After, obs_le in *. bool_facts. apply Z.ltb_lt. lia. }
  destruct (sort_Search _ _) as [|i] eqn:Hidx.
  - intros o' (k & Hk)%list_elem_of_lookup.
    assert (k < length (s_obs s))%nat by (by eapply lookup_lt_Some).
    specialize (Hhi k ltac:(lia)). unfold obs_after in Hhi. rewrite Hk in Hhi.
    unfold After in Hhi. by bool_facts.
  - destruct (s_obs s !! i) as [o|] eqn:Ho; [|apply lookup_ge_None in Ho; lia].
    pose proof (Hlo i ltac:(lia)) as Hi. unfold obs_after in Hi. rewrite Ho in Hi.
    unfold After in Hi. bool_facts.
    split; [by eapply list_elem_of_lookup_2|]. split; [done|].
    intros o' (k & Hk)%list_elem_of_lookup Ht.
    assert (k < length (s_obs s))%nat by (by eapply lookup_lt_Some).
    destruct (decide (k <= i)%nat) as [Hki|Hki].
    + destruct (decide (k = i)) as [->|]; [by simplify_eq|].
      assert (obs_le o' o) by (eapply StronglySorted_lookup; eauto; lia). done.
    + specialize (Hhi k ltac:(lia)). unfold obs_after in Hhi. rewrite Hk in Hhi.
      unfold After in Hhi. bool_facts. lia.
Qed.

(** ** Constancy between breakpoints

    The state of a member reads the clock only through comparisons with its
    candidate instants. *)
Definition same_side (t1 t2 : Time) (x : Time) : Prop := (t1 <? x) = (t2 <? x).

Lemma latestAt_same_side s t1 t2 :
  (forall o, o ∈ s_obs s -> same_side t1 t2 (o_Ts o)) -> latestAt s t1 = latestAt s t2.
Proof.
  intros H. unfold latestAt.
  rewrite (sort_Search_ext _ (obs_after (s_obs s) t1) (obs_after (s_obs s) t2)); [done|].
  intros k Hk. unfold obs_after, After.
  destruct (s_obs s !! k) as [o|] eqn:Ho; [|done].
  apply H. by eapply list_elem_of_lookup_2.
Qed.

Lemma latestAt_elem_of s t o : latestAt s t = Some o -> o ∈ s_obs s.
Proof.
  unfold latestAt. destruct (sort_Search _ _); [done|]. apply list_elem_of_lookup_2.
Qed.

Lemma covers_same_side sp id t1 t2 :
  same_side t1 t2 (sp_From sp) -> same_side t1 t2 (sp_To sp) -> covers sp id t1 = covers sp id t2.
Proof. unfold same_side, covers, Before. by intros -> ->. Qed.

Lemma stateAt_same_side s spans ex t1 t2 :
  (forall x, x ∈ seriesPoints s ++ flat_map spanPoints spans -> same_side t1 t2 x) ->
  stateAt s t1 spans ex = stateAt s t2 spans ex.
Proof.
  intros H. unfold stateAt.
  assert (existsb (fun sp => covers sp (m_MonitorID (s_Member s)) t1) spans
          = existsb (fun sp => covers sp (m_MonitorID (s_Member s)) t2) spans) as ->.
  { apply existsb_ext_elem. intros sp Hsp.
    apply covers_same_side; apply H, elem_of_app; right; apply elem_of_flat_map;
      exists sp; (split; [done|]); unfold spanPoints; rewrite !elem_of_cons; auto. }
  assert (forall o, o ∈ s_obs s -> same_side t1 t2 (o_Ts o)) as Hobs.
  { intros o Ho. apply H. unfold seriesPoints. rewrite !elem_of_app. left; left.
    apply elem_of_flat_map. exists o. split; [done|]. rewrite !elem_of_cons. auto. }
  rewrite (latestAt_same_side s t1 t2 Hobs).
  destruct (negb (m_Enabled _)); [done|]. destruct (_ && existsb _ _); [done|].
  assert (isPush (m_Type (s_Member s)) && negb (IsZero (m_ArmedAt (s_Member s))) = true ->
          same_side t1 t2 (Add (m_ArmedAt (s_Member s)) (m_StaleAfter (s_Member s)))) as Harm.
  { intros E. apply H. unfold seriesPoints. rewrite E, !elem_of_app, list_elem_of_singleton. auto. }
  assert (forall o, latestAt s t2 = Some o ->
          same_side t1 t2 (Add (o_Ts o) (m_StaleAfter (s_Member s)))) as Hdl.
  { intros o Ho%latestAt_elem_of. apply H. unfold seriesPoints. rewrite !elem_of_app. left; left.
    apply elem_of_flat_map. exists o. split; [done|]. rewrite !elem_of_cons. auto. }
  unfold same_side, Before in *.
  destruct (isPush _ && negb (IsZero _)) eqn:E; simpl; [rewrite (Harm eq_refl)|].
  all: destruct (latestAt s t2) as [o|]; [|done].
  all: pose proof (Hdl o eq_refl) as Hd; destruct (o_Ts o <? m_ArmedAt (s_Member s));
    simpl; rewrite ?Hd; done.
Qed.

(** ** The breakpoints of a bucket *)

Section breakpoints.
Context (start end_ : Time).
Hypothesis Hlen : start < end_ <= start + 2 ^ 64.

(** Inside a bucket shorter than [2^64] ns the [UnixNano] key identifies the instant. *)
Lemma bucket_key_inj t u :
  start <= t < end_ -> start <= u < end_ -> UnixNano t = UnixNano u -> t = u.
Proof. intros Ht Hu. apply UnixNano_inj. lia. Qed.

Definition points_inv (acc : gset Z * list Time) : Prop :=
  NoDup acc.2 /\ (forall t, t ∈ acc.2 -> start <= t < end_) /\
  acc.1 = list_to_set (map UnixNano acc.2).

Lemma addPoint_inv acc t : points_inv acc -> points_inv (addPoint start end_ acc t).
Proof.
  destruct acc as [seen out]. unfold points_inv, addPoint, Before. simpl.
  intros (Hnd & Hr & Hs). destruct (_ || _) eqn:E; [done|]. bool_facts.
  case_bool_decide as Hin; [done|]. simpl. split_and!.
  - apply list.NoDup_app. split; [done|]. split; [|apply NoDup_singleton].
    intros x Hx ->%list_elem_of_singleton. apply Hin. subst seen.
    apply elem_of_list_to_set, list_elem_of_fmap. eauto.
  - intros x [Hx| ->%list_elem_of_singleton]%elem_of_app; [auto|lia].
  - subst. rewrite map_app, list_to_set_app_L. simpl. set_solver.
Qed.

Lemma addPoint_elem_of acc t x :
  points_inv acc ->
  x ∈ (addPoint start end_ acc t).2 <-> x ∈ acc.2 \/ (x = t /\ start <= t < end_).
Proof.
  destruct acc as [seen out]. unfold points_inv, addPoint, Before. simpl.
  intros (Hnd & Hr & Hs). destruct (_ || _) eqn:E.
  - split; [auto|]. intros [|[-> Hx]]; [done|].
    apply orb_true_iff in E as [E|E]; bool_facts; lia.
  - bool_facts. case_bool_decide as Hin; simpl.
    + split; [auto|]. intros [|[-> Hx]]; [done|]. subst.
      apply elem_of_list_to_set, list_elem_of_fmap in Hin as (u & Hk & Hu).
      assert (t = u) as -> by (apply bucket_key_inj; auto). done.
    + rewrite elem_of_app, list_elem_of_singleton. naive_solver lia.
Qed.

Lemma foldl_addPoint l acc :
  points_inv acc ->
  points_inv (foldl (addPoint start end_) acc l) /\
  forall x, x ∈ (foldl (addPoint start end_) acc l).2 <->
            x ∈ acc.2 \/ (x ∈ l /\ start <= x < end_).
Proof.
  revert acc. induction l as [|t l IH]; intros acc Hacc; simpl.
  - split; [done|]. set_solver.
  - destruct (IH _ (addPoint_inv _ t Hacc)) as [Hinv Hel]. split; [done|].
    intros x. rewrite Hel, addPoint_elem_of by done. rewrite elem_of_cons. naive_solver.
Qed.

Lemma points_inv_empty : points_inv (∅, []).
Proof. split_and!; [constructor|set_solver|done]. Qed.

(** Exactly the candidates inside the bucket, and its start, are breakpoints. *)
Lemma elem_of_breakpoints series spans x :
  x ∈ breakpoints series spans start end_ <->
  (x = start \/ x ∈ candidates series spans) /\ start <= x < end_.
Proof.
  unfold breakpoints. rewrite merge_sort_Permutation.
  destruct (foldl_addPoint (start :: candidates series spans) _ points_inv_empty) as [_ ->].
  rewrite elem_of_cons. set_solver.
Qed.

(** They are strictly increasing. *)
Lemma breakpoints_sorted series spans :
  StronglySorted Z.lt (breakpoints series spans start end_).
Proof.
  unfold breakpoints.
  destruct (foldl_addPoint (start :: candidates series spans) _ points_inv_empty)
    as [(Hnd & _ & _) _].
  set (l := (foldl _ _ _).2) in *.
  assert (StronglySorted Z.le (merge_sort Z.le l)) as Hs
    by (apply StronglySorted_merge_sort; apply _).
  assert (NoDup (merge_sort Z.le l)) as Hnd' by (by rewrite merge_sort_Permutation).
  induction Hs as [|x l' Hs IH Hall]; [constructor|].
  apply list.NoDup_cons in Hnd' as [Hx Hnd']. constructor; [by apply IH|].
  rewrite Forall_forall in Hall |- *. intros y Hy. specialize (Hall y Hy).
  assert (x <> y) by (intros ->; by apply Hx, list_elem_of_In). lia.
Qed.

(** The first breakpoint is the start of the bucket. *)
Lemma breakpoints_head series spans :
  exists rest, breakpoints series spans start end_ = start :: rest.
Proof.
  pose proof (breakpoints_sorted series spans) as Hs.
  assert (start ∈ breakpoints series spans start end_) as Hin
    by (apply elem_of_breakpoints; split; [by left|lia]).
  destruct (breakpoints _ _ _ _) as [|x rest] eqn:E; [set_solver|].
  assert (x ∈ breakpoints series spans start end_) as [_ Hx]%elem_of_breakpoints
    by (rewrite E; set_solver).
  apply StronglySorted_inv in Hs as [_ Hall]. rewrite Forall_forall in Hall.
  apply elem_of_cons in Hin as [->|Hin%list_elem_of_In]; [eauto|].
  specialize (Hall _ Hin). lia.
Qed.
End breakpoints.
