(* ===== verification/Aggregate.v ===== *)
(** * Aggregation of member states
    ([internal/reliability/aggregate.go], [internal/reliability/reliability.go])

    The per-region census of one instant ([censusAt]), the verdict of one region
    ([aggregateRegion]), the combination of the regions ([aggregate]) and the point
    evaluator [StateAt]. *)

From S2P Require Import Prelude ServicePolicy Effective.

(** ** Data *)
Inductive Availability := AvailUnknown | AvailGood | AvailBad | AvailExcluded.
Inductive Health := HealthUnknown | HealthHealthy | HealthDegraded | HealthDown | HealthExcluded.

#[global] Instance Availability_eq_dec : EqDecision Availability.
Proof. solve_decision. Defined.
#[global] Instance Health_eq_dec : EqDecision Health.
Proof. solve_decision. Defined.

Record MemberCause := {
  mc_MonitorID : string;
  mc_Region : string;
  mc_Reason : UnknownReason;
}.

Record Weakened := {
  w_Region : string;
  w_Declared : Z;
  w_Eligible : Z;
  w_ExcludedDisabled : Z;
  w_ExcludedMaintenance : Z;
  w_Ignored : Z;
  w_DeclaredDegradedMin : Z;
  w_DeclaredHealthyMin : Z;
  w_EffectiveDegraded : Z;
  w_EffectiveHealthy : Z;
}.

Record Outcome := {
  o_Availability : Availability;
  o_Health : Health;
  o_Weakened : list Weakened;
}.

(** [tally]: one region's member census. *)
Record tally := {
  t_region : string;
  t_declared : Z;
  t_excludedDisabled : Z;
  t_excludedMaintenance : Z;
  t_ignored : Z;
  t_good : Z;
  t_bad : Z;
  t_unknown : Z;
  t_badCauses : list MemberCause;
  t_unknownCauses : list MemberCause;
  t_excludedCauses : list MemberCause;
}.

Definition eligible (t : tally) : Z :=
  t_declared t - t_excludedDisabled t - t_excludedMaintenance t - t_ignored t.

Definition excluded (t : tally) : Z := t_excludedDisabled t + t_excludedMaintenance t.

(** ** One region *)
Definition quorumWeakened (t : tally) (a : AggregationPolicy) (n : Z) : option Weakened :=
  let effDegraded := Z.min (DegradedMin a) n in
  let effHealthy := Z.min (HealthyMin a) n in
  if (effDegraded <? DegradedMin a) || (effHealthy <? HealthyMin a) then
    Some {| w_Region := t_region t; w_Declared := t_declared t; w_Eligible := n;
            w_ExcludedDisabled := t_excludedDisabled t;
            w_ExcludedMaintenance := t_excludedMaintenance t;
            w_Ignored := t_ignored t;
            w_DeclaredDegradedMin := DegradedMin a; w_DeclaredHealthyMin := HealthyMin a;
            w_EffectiveDegraded := effDegraded; w_EffectiveHealthy := effHealthy |}
  else None.

Definition aggregateRegion (t : tally) (p : ServicePolicies)
    : Availability * Health * option Weakened :=
  let n := eligible t in
  if n =? 0 then
    if 0 <? t_ignored t then (AvailUnknown, HealthUnknown, None)
    else if (excluded t =? t_declared t) && (0 <? t_declared t)
    then (AvailExcluded, HealthExcluded, None)
    else (AvailUnknown, HealthUnknown, None)
  else
    let g := t_good t in
    let b := t_bad t in
    let u := t_unknown t in
    match agg_Mode (Aggregation p) with
    | AggAll =>
      if 0 <? b then (AvailBad, HealthDown, None)
      else if 0 <? u then (AvailUnknown, HealthUnknown, None)
      else (AvailGood, HealthHealthy, None)
    | AggAny =>
      if 0 <? g then (AvailGood, HealthHealthy, None)
      else if b =? n then (AvailBad, HealthDown, None)
      else (AvailUnknown, HealthUnknown, None)
    | AggQuorum | AggOther _ =>
      let effDegraded := Z.min (DegradedMin (Aggregation p)) n in
      let effHealthy := Z.min (HealthyMin (Aggregation p)) n in
      let weak := quorumWeakened t (Aggregation p) n in
      if effDegraded <=? g then
        if effHealthy <=? g then (AvailGood, HealthHealthy, weak)
        else (AvailGood, HealthDegraded, weak)
      else if effDegraded <=? g + u then (AvailUnknown, HealthUnknown, weak)
      else (AvailBad, HealthDown, weak)
    end.

(** ** The regions of a service *)
Record regionResult := {
  r_availability : Availability;
  r_health : Health;
}.

(** The counters of the combination loop: regions that are good, unknown, healthy,
    and in scope. *)
Record regionCounts := { gr : Z; ur : Z; hr : Z; inR : Z }.

Definition countRegion (c : regionCounts) (r : regionResult) : regionCounts :=
  if bool_decide (r_availability r = AvailExcluded) then c
  else
    {| inR := inR c + 1;
       gr := gr c + Z.b2z (bool_decide (r_availability r = AvailGood));
       ur := ur c + Z.b2z (bool_decide (r_availability r = AvailUnknown));
       hr := hr c + Z.b2z (bool_decide (r_health r = HealthHealthy)) |}.

Definition countRegions (results : list regionResult) : regionCounts :=
  foldl countRegion {| gr := 0; ur := 0; hr := 0; inR := 0 |} results.

Definition aggregate (tallies : list tally) (p : ServicePolicies) : Outcome :=
  match tallies with
  | [] => {| o_Availability := AvailUnknown; o_Health := HealthUnknown; o_Weakened := [] |}
  | _ =>
    let verdicts := map (fun t => aggregateRegion t p) tallies in
    let weakened := omap (fun v => v.2) verdicts in
    let results := map (fun v => {| r_availability := v.1.1; r_health := v.1.2 |}) verdicts in
    if forallb (fun r => bool_decide (r_availability r = AvailExcluded)) results then
      {| o_Availability := AvailExcluded; o_Health := HealthExcluded; o_Weakened := weakened |}
    else
      let c := countRegions results in
      if inR c =? 0 then
        {| o_Availability := AvailUnknown; o_Health := HealthUnknown; o_Weakened := weakened |}
      else
        let effDegraded := Z.min (DegradedMinRegions (RegionAgg p)) (inR c) in
        let effHealthy := Z.min (HealthyMinRegions (RegionAgg p)) (inR c) in
        if effDegraded <=? gr c then
          if effHealthy <=? hr c then
            {| o_Availability := AvailGood; o_Health := HealthHealthy; o_Weakened := weakened |}
          else
            {| o_Availability := AvailGood; o_Health := HealthDegraded; o_Weakened := weakened |}
        else if effDegraded <=? gr c + ur c then
          {| o_Availability := AvailUnknown; o_Health := HealthUnknown; o_Weakened := weakened |}
        else
          {| o_Availability := AvailBad; o_Health := HealthDown; o_Weakened := weakened |}
  end.

(** ** The census of one instant *)
Definition newTally (region : string) : tally :=
  {| t_region := region; t_declared := 0; t_excludedDisabled := 0; t_excludedMaintenance := 0;
     t_ignored := 0; t_good := 0; t_bad := 0; t_unknown := 0;
     t_badCauses := []; t_unknownCauses := []; t_excludedCauses := [] |}.

Definition causeOf (s : memberSeries) (reason : UnknownReason) : MemberCause :=
  {| mc_MonitorID := m_MonitorID (s_Member s); mc_Region := m_Region (s_Member s);
     mc_Reason := reason |}.

(** The body of the member loop on the member's own tally. *)
Definition tallyMember (tl : tally) (s : memberSeries) (st : State * UnknownReason) : tally :=
  let declared := t_declared tl + 1 in
  match st.1 with
  | StateExcluded =>
    {| t_region := t_region tl; t_declared := declared;
       t_excludedDisabled :=
         if negb (m_Enabled (s_Member s)) then t_excludedDisabled tl + 1 else t_excludedDisabled tl;
       t_excludedMaintenance :=
         if negb (m_Enabled (s_Member s)) then t_excludedMaintenance tl
         else t_excludedMaintenance tl + 1;
       t_ignored := t_ignored tl; t_good := t_good tl; t_bad := t_bad tl; t_unknown := t_unknown tl;
       t_badCauses := t_badCauses tl; t_unknownCauses := t_unknownCauses tl;
       t_excludedCauses := t_excludedCauses tl ++ [causeOf s ReasonNone] |}
  | StateGood =>
    {| t_region := t_region tl; t_declared := declared;
       t_excludedDisabled := t_excludedDisabled tl; t_excludedMaintenance := t_excludedMaintenance tl;
       t_ignored := t_ignored tl; t_good := t_good tl + 1; t_bad := t_bad tl; t_unknown := t_unknown tl;
       t_badCauses := t_badCauses tl; t_unknownCauses := t_unknownCauses tl;
       t_excludedCauses := t_excludedCauses tl |}
  | StateBad =>
    {| t_region := t_region tl; t_declared := declared;
       t_excludedDisabled := t_excludedDisabled tl; t_excludedMaintenance := t_excludedMaintenance tl;
       t_ignored := t_ignored tl; t_good := t_good tl; t_bad := t_bad tl + 1; t_unknown := t_unknown tl;
       t_badCauses := t_badCauses tl ++ [causeOf s ReasonNone];
       t_unknownCauses := t_unknownCauses tl; t_excludedCauses := t_excludedCauses tl |}
  | StateUnknown =>
    {| t_region := t_region tl; t_declared := declared;
       t_excludedDisabled := t_excludedDisabled tl; t_excludedMaintenance := t_excludedMaintenance tl;
       t_ignored := t_ignored tl; t_good := t_good tl; t_bad := t_bad tl; t_unknown := t_unknown tl + 1;
       t_badCauses := t_badCauses tl;
       t_unknownCauses := t_unknownCauses tl ++ [causeOf s st.2];
       t_excludedCauses := t_excludedCauses tl |}
  end.

(** [byRegion], [order] and the pending [unknowns] of the loop.  The tallies are
    shared by reference in the code; here a pending member names its region's entry. *)
Record censusState := {
  byRegion : gmap string tally;
  order : list string;
  unknowns : list memberSeries;
}.

Definition initCensus : censusState := {| byRegion := ∅; order := []; unknowns := [] |}.

Definition censusStep (ex : bool) (spans : list MaintenanceSpan) (t : Time)
    (c : censusState) (s : memberSeries) : censusState :=
  let region := m_Region (s_Member s) in
  let known := byRegion c !! region in
  let tl := default (newTally region) known in
  let order' := match known with Some _ => order c | None => order c ++ [region] end in
  let st := stateAt s t spans ex in
  {| byRegion := <[region := tallyMember tl s st]> (byRegion c);
     order := order';
     unknowns := match st.1 with StateUnknown => unknowns c ++ [s] | _ => unknowns c end |}.

(** The missing-data policy applied to one pending member. *)
Definition missingAsBad (s : memberSeries) (tl : tally) : tally :=
  {| t_region := t_region tl; t_declared := t_declared tl;
     t_excludedDisabled := t_excludedDisabled tl; t_excludedMaintenance := t_excludedMaintenance tl;
     t_ignored := t_ignored tl; t_good := t_good tl; t_bad := t_bad tl + 1;
     t_unknown := t_unknown tl - 1;
     t_badCauses := t_badCauses tl ++ [causeOf s ReasonNone];
     t_unknownCauses := t_unknownCauses tl; t_excludedCauses := t_excludedCauses tl |}.

Definition missingIgnored (s : memberSeries) (tl : tally) : tally :=
  {| t_region := t_region tl; t_declared := t_declared tl;
     t_excludedDisabled := t_excludedDisabled tl; t_excludedMaintenance := t_excludedMaintenance tl;
     t_ignored := t_ignored tl + 1; t_good := t_good tl; t_bad := t_bad tl;
     t_unknown := t_unknown tl - 1;
     t_badCauses := t_badCauses tl; t_unknownCauses := t_unknownCauses tl;
     t_excludedCauses := t_excludedCauses tl |}.

Definition applyMissingData (p : MissingDataPolicy) (unknowns : list memberSeries)
    (byRegion : gmap string tally) : gmap string tally :=
  match p with
  | MissingBad =>
    foldl (fun m s => alter (missingAsBad s) (m_Region (s_Member s)) m) byRegion unknowns
  | MissingIgnore =>
    foldl (fun m s => alter (missingIgnored s) (m_Region (s_Member s)) m) byRegion unknowns
  | _ => byRegion
  end.

Definition maintenanceExcludes (p : ServicePolicies) : bool :=
  bool_decide (Maintenance p = MaintenanceExclude).

Definition censusAt (series : list memberSeries) (spans : list MaintenanceSpan)
    (p : ServicePolicies) (t : Time) : list tally :=
  let c := foldl (censusStep (maintenanceExcludes p) spans t) initCensus series in
  let regions := applyMissingData (MissingData p) (unknowns c) (byRegion c) in
  omap (fun region => regions !! region) (merge_sort String.le (order c)).

(** The point evaluator. *)
Definition StateAt (members : list Member) (observations : list Observation)
    (maintenance : list MaintenanceSpan) (p : ServicePolicies) (t : Time) : Outcome :=
  match members with
  | [] => {| o_Availability := AvailUnknown; o_Health := HealthUnknown; o_Weakened := [] |}
  | _ => aggregate (censusAt (buildSeries members observations) maintenance p t) p
  end.

(** ** Closed form of the census *)

Lemma foldl_alter_lookup {A B} (f : B -> A -> A) (key : B -> string) (l : list B)
    (m : gmap string A) r :
  foldl (fun m b => alter (f b) (key b) m) m l !! r
  = (fun a => foldl (fun a b => f b a) a (List.filter (fun b => bool_decide (key b = r)) l)) <$> m !! r.
Proof.
  revert m. induction l as [|b l IH]; intros m; simpl.
  - by destruct (m !! r).
  - rewrite IH. case_bool_decide as Hk; simpl.
    + subst. rewrite lookup_alter_eq. by destruct (m !! key b).
    + by rewrite lookup_alter_ne.
Qed.

Section census.
Context (ex : bool) (spans : list MaintenanceSpan) (t : Time).

Definition memberState (s : memberSeries) : State := (stateAt s t spans ex).1.

Definition inRegion (r : string) (s : memberSeries) : bool :=
  bool_decide (m_Region (s_Member s) = r).

Definition regionMembers (r : string) (l : list memberSeries) : list memberSeries :=
  List.filter (inRegion r) l.

Definition isState (st : State) (s : memberSeries) : bool := bool_decide (memberState s = st).

Definition regionTally (r : string) (ms : list memberSeries) : tally :=
  foldl (fun tl s => tallyMember tl s (stateAt s t spans ex)) (newTally r) ms.

Definition census (l : list memberSeries) : censusState :=
  foldl (censusStep ex spans t) initCensus l.

Lemma census_snoc l s : census (l ++ [s]) = censusStep ex spans t (census l) s.
Proof. unfold census. by rewrite foldl_app. Qed.

Lemma census_byRegion l r :
  byRegion (census l) !! r
  = match regionMembers r l with [] => None | ms => Some (regionTally r ms) end.
Proof.
  induction l as [|s l IH] using rev_ind; [apply lookup_empty|].
  rewrite census_snoc. unfold censusStep, regionMembers. simpl.
  rewrite List.filter_app. simpl. unfold inRegion at 2. case_bool_decide as Hr.
  - subst r. rewrite lookup_insert_eq, IH. unfold regionMembers.
    destruct (List.filter _ l) as [|s' ms] eqn:E; simpl; [done|].
    unfold regionTally. by rewrite app_comm_cons, foldl_app.
  - rewrite lookup_insert_ne, IH, app_nil_r by done. done.
Qed.

Lemma census_order l :
  NoDup (order (census l)) /\
  forall r, r ∈ order (census l) <-> is_Some (byRegion (census l) !! r).
Proof.
  induction l as [|s l [Hnd Hel]] using rev_ind.
  { simpl. split; [constructor|]. intros r. rewrite lookup_empty. split; [set_solver|by intros []]. }
  rewrite census_snoc. set (c := census l) in *.
  unfold censusStep. simpl. set (reg := m_Region (s_Member s)).
  destruct (byRegion c !! reg) as [tl|] eqn:E; simpl.
  - split; [done|]. intros r. rewrite Hel. destruct (decide (reg = r)) as [<-|].
    + rewrite lookup_insert_eq, E. naive_solver.
    + by rewrite lookup_insert_ne.
  - assert (reg ∉ order c) as Hni by (rewrite Hel, E; by intros []).
    split.
    + apply list.NoDup_app. split; [done|]. split; [set_solver|apply NoDup_singleton].
    + intros r. rewrite elem_of_app, list_elem_of_singleton, Hel.
      destruct (decide (reg = r)) as [<-|Hne].
      * rewrite lookup_insert_eq. naive_solver.
      * rewrite lookup_insert_ne by done. naive_solver.
Qed.

Lemma census_unknowns l : unknowns (census l) = List.filter (isState StateUnknown) l.
Proof.
  induction l as [|s l IH] using rev_ind; [done|].
  rewrite census_snoc, List.filter_app. simpl. rewrite IH.
  change (isState StateUnknown s) with (bool_decide ((stateAt s t spans ex).1 = StateUnknown)).
  destruct (stateAt s t spans ex).1; simpl; rewrite ?app_nil_r; done.
Qed.

(** The tally of a region counts its members by state. *)
Record tally_counts (r : string) (ms : list memberSeries) (tl : tally) : Prop := {
  tc_region : t_region tl = r;
  tc_declared : t_declared tl = Z.of_nat (length ms);
  tc_excluded : excluded tl = count (isState StateExcluded) ms;
  tc_ignored : t_ignored tl = 0;
  tc_good : t_good tl = count (isState StateGood) ms;
  tc_bad : t_bad tl = count (isState StateBad) ms;
  tc_unknown : t_unknown tl = count (isState StateUnknown) ms;
  tc_nonneg : 0 <= t_excludedDisabled tl /\ 0 <= t_excludedMaintenance tl;
}.

Lemma regionTally_counts r ms : tally_counts r ms (regionTally r ms).
Proof.
  unfold regionTally. induction ms as [|s ms [Hr Hd Hx Hi Hg Hb Hu Hn]] using rev_ind.
  { by split. }
  rewrite foldl_app. simpl. set (tl := foldl _ _ ms) in *.
  assert (forall st, isState st s = bool_decide ((stateAt s t spans ex).1 = st)) as Hst by done.
  unfold tallyMember, excluded in *.
  destruct ((stateAt s t spans ex).1) eqn:E; simpl;
    split; unfold excluded; simpl; rewrite ?count_app, ?length_app, ?count_cons, ?count_nil, ?Hst;
    simpl; try (destruct (m_Enabled (s_Member s)); simpl); try done; lia.
Qed.

Lemma state_partition (ms : list memberSeries) :
  Z.of_nat (length ms) = count (isState StateExcluded) ms + count (isState StateGood) ms
    + count (isState StateBad) ms + count (isState StateUnknown) ms.
Proof.
  induction ms as [|s ms IH]; [done|]. rewrite !count_cons. simpl.
  assert (Z.b2z (isState StateExcluded s) + Z.b2z (isState StateGood s)
          + Z.b2z (isState StateBad s) + Z.b2z (isState StateUnknown s) = 1) as H1.
  { unfold isState. by destruct (memberState s). }
  lia.
Qed.
End census.

(** ** The tallies [censusAt] returns *)
Section final.
Context (p : ServicePolicies) (spans : list MaintenanceSpan) (t : Time).
Notation ex := (maintenanceExcludes p).
Notation stateIs := (isState ex spans t).

Definition missingStep (tl : tally) (s : memberSeries) : tally :=
  match MissingData p with
  | MissingBad => missingAsBad s tl
  | MissingIgnore => missingIgnored s tl
  | _ => tl
  end.

Definition finalTally (series : list memberSeries) (r : string) : tally :=
  foldl missingStep (regionTally ex spans t r (regionMembers r series))
    (List.filter (inRegion r) (List.filter (stateIs StateUnknown) series)).

Lemma applyMissingData_lookup us m r :
  applyMissingData (MissingData p) us m !! r
  = (fun tl => foldl missingStep tl (List.filter (inRegion r) us)) <$> m !! r.
Proof.
  unfold applyMissingData, missingStep, inRegion.
  destruct (MissingData p); try apply foldl_alter_lookup.
  all: destruct (m !! r) as [tl|]; simpl; [f_equal|done].
  all: induction (List.filter _ us) as [|s' us' IH]; simpl; done.
Qed.

Lemma censusAt_tallies series :
  censusAt series spans p t
  = map (finalTally series) (merge_sort String.le (order (census ex spans t series))).
Proof.
  unfold censusAt. change (foldl _ _ series) with (census ex spans t series).
  cbv zeta.
  destruct (census_order ex spans t series) as [_ Hord].
  apply omap_total. intros r Hr. rewrite merge_sort_Permutation, Hord in Hr.
  destruct Hr as [tl Htl]. rewrite applyMissingData_lookup, Htl. simpl. f_equal.
  rewrite census_byRegion in Htl. unfold finalTally. rewrite census_unknowns. f_equal.
  by destruct (regionMembers r series); simplify_eq.
Qed.

(** [d = x + i + g + b + u], with the policy's disposition of the undecided members. *)
Record final_counts (r : string) (ms : list memberSeries) (tl : tally) : Prop := {
  fc_region : t_region tl = r;
  fc_declared : t_declared tl = Z.of_nat (length ms);
  fc_excluded : excluded tl = count (stateIs StateExcluded) ms;
  fc_good : t_good tl = count (stateIs StateGood) ms;
  fc_ignored : t_ignored tl =
    if bool_decide (MissingData p = MissingIgnore) then count (stateIs StateUnknown) ms else 0;
  fc_bad : t_bad tl = count (stateIs StateBad) ms +
    (if bool_decide (MissingData p = MissingBad) then count (stateIs StateUnknown) ms else 0);
  fc_unknown : t_unknown tl =
    if bool_decide (MissingData p = MissingBad) || bool_decide (MissingData p = MissingIgnore)
    then 0 else count (stateIs StateUnknown) ms;
  fc_nonneg : 0 <= t_excludedDisabled tl /\ 0 <= t_excludedMaintenance tl;
}.

Lemma foldl_missingStep us tl :
  let tl' := foldl missingStep tl us in
  t_region tl' = t_region tl /\ t_declared tl' = t_declared tl /\
  t_excludedDisabled tl' = t_excludedDisabled tl /\
  t_excludedMaintenance tl' = t_excludedMaintenance tl /\
  t_good tl' = t_good tl /\
  t_ignored tl' = t_ignored tl +
    (if bool_decide (MissingData p = MissingIgnore) then Z.of_nat (length us) else 0) /\
  t_bad tl' = t_bad tl +
    (if bool_decide (MissingData p = MissingBad) then Z.of_nat (length us) else 0) /\
  t_unknown tl' = t_unknown tl -
    (if bool_decide (MissingData p = MissingBad) || bool_decide (MissingData p = MissingIgnore)
     then Z.of_nat (length us) else 0).
Proof.
  revert tl. induction us as [|s us IH]; intros tl; simpl.
  { split_and!; try done; repeat case_bool_decide; simpl; lia. }
  destruct (IH (missingStep tl s)) as (H1 & H2 & H3 & H4 & H5 & H6 & H7 & H8).
  rewrite H1, H2, H3, H4, H5, H6, H7, H8. unfold missingStep.
  destruct (MissingData p); simpl; split_and!; try done; lia.
Qed.

Lemma filter_filter_length (P Q : memberSeries -> bool) l :
  Z.of_nat (length (List.filter P (List.filter Q l))) = count Q (List.filter P l).
Proof.
  induction l as [|x l IH]; [done|]. simpl.
  destruct (P x) eqn:HP, (Q x) eqn:HQ; simpl; rewrite ?HP, ?count_cons, ?HQ; simpl; lia.
Qed.

Lemma finalTally_counts series r :
  final_counts r (regionMembers r series) (finalTally series r).
Proof.
  unfold finalTally.
  pose proof (foldl_missingStep (List.filter (inRegion r) (List.filter (stateIs StateUnknown) series))
    (regionTally ex spans t r (regionMembers r series))) as (H1 & H2 & H3 & H4 & H5 & H6 & H7 & H8).
  rewrite filter_filter_length in H6, H7, H8.
  fold (regionMembers r series) in *.
  destruct (regionTally_counts ex spans t r (regionMembers r series))
    as [Hr Hd Hx Hi Hg Hb Hu Hn].
  split; unfold excluded in *; rewrite ?H1, ?H2, ?H3, ?H4, ?H5, ?H6, ?H7, ?H8; try lia; try done.
  destruct (bool_decide _ || bool_decide _); lia.
Qed.
End final.

(** ** Well-formed tallies *)

(** The census equation of one region and the sign of its counters. *)
Record tally_wf (tl : tally) : Prop := {
  tw_partition : t_declared tl
    = t_excludedDisabled tl + t_excludedMaintenance tl + t_ignored tl
      + t_good tl + t_bad tl + t_unknown tl;
  tw_nonneg : 0 <= t_excludedDisabled tl /\ 0 <= t_excludedMaintenance tl /\
    0 <= t_ignored tl /\ 0 <= t_good tl /\ 0 <= t_bad tl /\ 0 <= t_unknown tl;
  tw_declared : 1 <= t_declared tl;
}.

Lemma final_counts_wf p spans t r ms tl :
  ms <> [] -> final_counts p spans t r ms tl -> tally_wf tl.
Proof.
  intros Hne [_ Hd Hx Hg Hi Hb Hu [Hn1 Hn2]]. unfold excluded in Hx.
  pose proof (state_partition (maintenanceExcludes p) spans t ms) as Hpart.
  pose proof (count_nonneg (isState (maintenanceExcludes p) spans t StateExcluded) ms).
  pose proof (count_nonneg (isState (maintenanceExcludes p) spans t StateGood) ms).
  pose proof (count_nonneg (isState (maintenanceExcludes p) spans t StateBad) ms).
  pose proof (count_nonneg (isState (maintenanceExcludes p) spans t StateUnknown) ms).
  assert (1 <= Z.of_nat (length ms)) by (destruct ms; simpl; [done|lia]).
  destruct (MissingData p); simpl in *; split; lia.
Qed.

Lemma elem_of_censusAt series spans p t tl :
  tl ∈ censusAt series spans p t <->
  exists r, regionMembers r series <> [] /\ tl = finalTally p spans t series r.
Proof.
  rewrite censusAt_tallies. rewrite list_elem_of_fmap.
  setoid_rewrite merge_sort_Permutation.
  setoid_rewrite (proj2 (census_order (maintenanceExcludes p) spans t series)).
  setoid_rewrite census_byRegion. split.
  - intros (r & -> & [x Hx]). exists r. split; [|done]. by destruct (regionMembers r series).
  - intros (r & Hne & ->). exists r. split; [done|]. by destruct (regionMembers r series).
Qed.

Lemma censusAt_wf series spans p t : Forall tally_wf (censusAt series spans p t).
Proof.
  apply list.Forall_forall. intros tl (r & Hne & ->)%elem_of_censusAt.
  eapply final_counts_wf; [done|apply finalTally_counts].
Qed.

Lemma regionMembers_own series s :
  s ∈ series -> regionMembers (m_Region (s_Member s)) series <> [].
Proof.
  intros Hs E. assert (s ∈ regionMembers (m_Region (s_Member s)) series) as Hin.
  { apply elem_of_filter_b. split; [done|]. by apply bool_decide_eq_true. }
  rewrite E in Hin. set_solver.
Qed.

(** ** The two axes of an outcome *)

Definition axes_agree (a : Availability) (h : Health) : Prop :=
  match a, h with
  | AvailGood, (HealthHealthy | HealthDegraded)
  | AvailBad, HealthDown
  | AvailUnknown, HealthUnknown
  | AvailExcluded, HealthExcluded => True
  | _, _ => False
  end.

Lemma aggregateRegion_axes tl p :
  axes_agree (aggregateRegion tl p).1.1 (aggregateRegion tl p).1.2.
Proof. unfold aggregateRegion. break_goal; simpl; exact I. Qed.

Lemma aggregate_axes tallies p :
  axes_agree (o_Availability (aggregate tallies p)) (o_Health (aggregate tallies p)).
Proof. unfold aggregate. break_goal; simpl; exact I. Qed.

(** ** Region counters *)

Definition regionVerdict (p : ServicePolicies) (tl : tally) : regionResult :=
  {| r_availability := (aggregateRegion tl p).1.1; r_health := (aggregateRegion tl p).1.2 |}.

Lemma countRegions_eq results :
  let c := countRegions results in
  inR c = count (fun r => negb (bool_decide (r_availability r = AvailExcluded))) results /\
  gr c = count (fun r => bool_decide (r_availability r = AvailGood)) results /\
  ur c = count (fun r => bool_decide (r_availability r = AvailUnknown)) results /\
  hr c = count (fun r => negb (bool_decide (r_availability r = AvailExcluded))
                         && bool_decide (r_health r = HealthHealthy)) results.
Proof.
  unfold countRegions. induction results as [|r results IH] using rev_ind; [done|].
  rewrite foldl_app. simpl. set (c := foldl _ _ results) in *. simpl in IH.
  destruct IH as (H1 & H2 & H3 & H4). rewrite !count_app, !count_cons, !count_nil.
  unfold countRegion. case_bool_decide as E; simpl.
  - rewrite E. simpl. lia.
  - lia.
Qed.

(** What [aggregate] decides from the region verdicts. *)
Lemma aggregate_cases tallies p :
  tallies <> [] ->
  let results := map (regionVerdict p) tallies in
  let c := countRegions results in
  let out := aggregate tallies p in
  if forallb (fun r => bool_decide (r_availability r = AvailExcluded)) results then
    o_Availability out = AvailExcluded /\ o_Health out = HealthExcluded
  else
    let effDegraded := Z.min (DegradedMinRegions (RegionAgg p)) (inR c) in
    let effHealthy := Z.min (HealthyMinRegions (RegionAgg p)) (inR c) in
    1 <= inR c /\
    o_Availability out =
      (if effDegraded <=? gr c then AvailGood
       else if effDegraded <=? gr c + ur c then AvailUnknown else AvailBad) /\
    o_Health out =
      (if effDegraded <=? gr c then
         if effHealthy <=? hr c then HealthHealthy else HealthDegraded
       else if effDegraded <=? gr c + ur c then HealthUnknown else HealthDown).
Proof.
  intros Hne. cbv zeta.
  assert (map (fun v => {| r_availability := v.1.1; r_health := v.1.2 |})
            (map (fun t => aggregateRegion t p) tallies) = map (regionVerdict p) tallies) as Hres
    by (by rewrite map_map).
  unfold aggregate. destruct tallies as [|tl tallies]; [done|].
  rewrite Hres. clear Hres. set (results := map (regionVerdict p) (tl :: tallies)).
  destruct (forallb _ results) eqn:Hall; [done|].
  assert (1 <= inR (countRegions results)) as HinR.
  { destruct (countRegions_eq results) as (-> & _).
    enough (count (λ r, negb (bool_decide (r_availability r = AvailExcluded))) results <> 0)
      by (pose proof (count_nonneg (λ r, negb (bool_decide (r_availability r = AvailExcluded))) results); lia).
    intros Hz. assert (forallb (fun r => bool_decide (r_availability r = AvailExcluded)) results = true).
    { apply forallb_forall. intros r Hr%list_elem_of_In.
      pose proof (count_zero _ _ Hz r Hr) as Hn. by apply negb_false_iff in Hn. }
    congruence. }
  destruct (inR _ =? 0) eqn:E0; [bool_facts; lia|].
  cbv zeta. break_goal; done.
Qed.

(** ** Exclusion *)

Lemma aggregateRegion_excluded_iff p spans t r ms tl :
  ms <> [] -> final_counts p spans t r ms tl ->
  (aggregateRegion tl p).1.1 = AvailExcluded <->
  (forall s, s ∈ ms -> memberState (maintenanceExcludes p) spans t s = StateExcluded).
Proof.
  intros Hne Hfc. pose proof (final_counts_wf _ _ _ _ _ _ Hne Hfc) as [Hpart Hnn Hd1].
  destruct Hfc as [_ Hd Hx Hg Hi Hb Hu _].
  pose proof (state_partition (maintenanceExcludes p) spans t ms) as Hsp.
  set (st := isState (maintenanceExcludes p) spans t) in *.
  assert ((forall s, s ∈ ms -> memberState (maintenanceExcludes p) spans t s = StateExcluded)
          <-> count (st StateExcluded) ms = Z.of_nat (length ms)) as ->.
  { split.
    - intros H. apply count_all. intros s Hs. apply bool_decide_eq_true. by apply H.
    - intros H s Hs. assert (count (fun s => negb (st StateExcluded s)) ms = 0) as Hz.
      { clear -H. revert H. induction ms as [|x ms IH]; [done|]. rewrite !count_cons. simpl.
        pose proof (count_le (st StateExcluded) (fun _ => true) ms ltac:(done)) as Hle.
        rewrite (count_all (fun _ => true)) in Hle by done.
        destruct (st StateExcluded x); simpl; intros; [rewrite IH; lia|lia]. }
      pose proof (count_zero _ _ Hz s Hs) as Hn. apply negb_false_iff in Hn.
      by apply bool_decide_eq_true in Hn. }
  pose proof (count_nonneg (st StateUnknown) ms). pose proof (count_nonneg (st StateGood) ms).
  pose proof (count_nonneg (st StateBad) ms). unfold excluded in *.
  unfold aggregateRegion, eligible, excluded. cbv zeta.
  destruct (MissingData p); simpl in *;
    (split; [break_goal; intros; try discriminate; simpl in *; bool_facts; lia|]);
    intros Hall;
    repeat (match goal with |- context [if ?b then _ else _] =>
              let E := fresh in destruct b eqn:E; simpl; bool_facts; try lia end); try done;
    repeat (rewrite ?Bool.andb_false_iff in *; bool_facts); try naive_solver lia.
Qed.

(** Every tally of the census, by the member list of its region. *)
Lemma censusAt_Forall series spans p t (P : tally -> Prop) :
  (forall r, regionMembers r series <> [] -> P (finalTally p spans t series r)) ->
  Forall P (censusAt series spans p t).
Proof.
  intros H. apply list.Forall_forall. intros tl (r & Hne & ->)%elem_of_censusAt. by apply H.
Qed.

Lemma censusAt_nonempty series spans p t : series <> [] -> censusAt series spans p t <> [].
Proof.
  intros Hne E. destruct series as [|s series]; [done|].
  assert (finalTally p spans t (s :: series) (m_Region (s_Member s))
          ∈ censusAt (s :: series) spans p t) as Hin.
  { apply elem_of_censusAt. exists (m_Region (s_Member s)). split; [|done].
    apply regionMembers_own. set_solver. }
  rewrite E in Hin. set_solver.
Qed.

(** an interval is EXCLUDED exactly when every declared member is excluded by
    declaration at that instant (disabled, or inside a maintenance window that
    excludes): the missing-data policy [ignore] never launders unmeasured time into
    the excluded duration, whatever the aggregation mode and thresholds. *)
Theorem aggregate_excluded_iff series spans p t (Hne : series <> []) :
  o_Availability (aggregate (censusAt series spans p t) p) = AvailExcluded <->
  (forall s, s ∈ series -> memberState (maintenanceExcludes p) spans t s = StateExcluded).
Proof.
  pose proof (aggregate_cases (censusAt series spans p t) p (censusAt_nonempty _ _ _ _ Hne)) as Hc.
  cbv zeta in Hc.
  assert (forallb (fun r => bool_decide (r_availability r = AvailExcluded))
            (map (regionVerdict p) (censusAt series spans p t)) = true <->
          (forall s, s ∈ series -> memberState (maintenanceExcludes p) spans t s = StateExcluded))
    as Hiff.
  { rewrite forallb_forall. setoid_rewrite <- list_elem_of_In. split.
    - intros H s Hs. pose proof (regionMembers_own _ _ Hs) as Hrm.
      eapply aggregateRegion_excluded_iff; [exact Hrm|apply finalTally_counts| |].
      2:{ apply elem_of_filter_b. split; [done|]. by apply bool_decide_eq_true. }
      specialize (H (regionVerdict p (finalTally p spans t series (m_Region (s_Member s))))).
      apply bool_decide_eq_true in H; [done|].
      apply list_elem_of_fmap. eexists; split; [done|]. apply elem_of_censusAt. eauto.
    - intros H v (tl & -> & (r & Hrm & ->)%elem_of_censusAt)%list_elem_of_fmap.
      apply bool_decide_eq_true.
      eapply (aggregateRegion_excluded_iff p spans t r); [exact Hrm|apply finalTally_counts|].
      intros s [Hs _]%elem_of_filter_b. by apply H. }
  destruct (forallb _ _).
  - split; [intros _; by apply Hiff|intros _; apply Hc].
  - split; [|intros H; by apply Hiff in H].
    destruct Hc as (_ & -> & _). break_goal; done.
Qed.

(** ** Unanimity *)

(** A region whose eligible members are all good is GOOD and HEALTHY: the thresholds
    are clamped to the eligible cardinality. *)
Lemma aggregateRegion_all_good p tl :
  tally_wf tl -> t_bad tl = 0 -> t_unknown tl = 0 -> t_ignored tl = 0 -> 1 <= t_good tl ->
  (aggregateRegion tl p).1 = (AvailGood, HealthHealthy).
Proof.
  intros [Hp Hn Hd] Hb Hu Hi Hg. unfold aggregateRegion, eligible.
  break_goal; bool_facts; simpl; try done; lia.
Qed.

(** A region whose eligible members are all bad is BAD and DOWN under thresholds of at
    least one. *)
Lemma aggregateRegion_all_bad p tl :
  tally_wf tl -> t_good tl = 0 -> t_unknown tl = 0 -> t_ignored tl = 0 -> 1 <= t_bad tl ->
  (agg_Mode (Aggregation p) = AggAll \/ agg_Mode (Aggregation p) = AggAny \/
   1 <= DegradedMin (Aggregation p)) ->
  (aggregateRegion tl p).1 = (AvailBad, HealthDown).
Proof.
  intros [Hp Hn Hd] Hg Hu Hi Hb Hm. unfold aggregateRegion, eligible.
  break_goal; bool_facts; simpl; try done; try lia; naive_solver lia.
Qed.

Section unanimity.
Context (p : ServicePolicies) (spans : list MaintenanceSpan) (t : Time).
Context (series : list memberSeries).
Notation state := (memberState (maintenanceExcludes p) spans t).

(** When every member is [v] or excluded and some member is [v], every region is
    excluded or has only [v] members besides the excluded ones, and some region has
    a [v] member. *)
Lemma unanimous_counts v r :
  v <> StateExcluded ->
  (forall s, s ∈ series -> state s = v \/ state s = StateExcluded) ->
  forall w, w <> v -> w <> StateExcluded ->
  count (isState (maintenanceExcludes p) spans t w) (regionMembers r series) = 0.
Proof.
  intros Hv H w Hw Hwx. apply count_none. intros s [Hs _]%elem_of_filter_b.
  apply bool_decide_eq_false. destruct (H s Hs); congruence.
Qed.

Lemma region_excluded_or v r :
  v <> StateExcluded ->
  (forall s, s ∈ series -> state s = v \/ state s = StateExcluded) ->
  regionMembers r series <> [] ->
  (aggregateRegion (finalTally p spans t series r) p).1.1 = AvailExcluded \/
  1 <= count (isState (maintenanceExcludes p) spans t v) (regionMembers r series).
Proof.
  intros Hv H Hne.
  destruct (decide (count (isState (maintenanceExcludes p) spans t v) (regionMembers r series) = 0))
    as [Hz|Hz].
  - left. eapply aggregateRegion_excluded_iff; [exact Hne|apply finalTally_counts|].
    intros s Hs. pose proof (count_zero _ _ Hz s Hs) as Hn.
    apply bool_decide_eq_false in Hn. apply elem_of_filter_b in Hs as [Hs _].
    destruct (H s Hs); congruence.
  - right. pose proof (count_nonneg (isState (maintenanceExcludes p) spans t v) (regionMembers r series)). lia.
Qed.

(** The service verdict when every region is excluded or answers [(a, h)] and one
    does answer. *)
Lemma aggregate_unanimous a h :
  series <> [] ->
  Forall (fun tl => (aggregateRegion tl p).1.1 = AvailExcluded \/
                    (aggregateRegion tl p).1 = (a, h)) (censusAt series spans p t) ->
  Exists (fun tl => (aggregateRegion tl p).1 = (a, h)) (censusAt series spans p t) ->
  a <> AvailExcluded ->
  let results := map (regionVerdict p) (censusAt series spans p t) in
  let c := countRegions results in
  forallb (fun r => bool_decide (r_availability r = AvailExcluded)) results = false /\
  1 <= inR c /\
  gr c = (if bool_decide (a = AvailGood) then inR c else 0) /\
  ur c = (if bool_decide (a = AvailUnknown) then inR c else 0) /\
  hr c = (if bool_decide (h = HealthHealthy) then inR c else 0).
Proof.
  intros Hne Hall Hex Ha. cbv zeta.
  destruct (countRegions_eq (map (regionVerdict p) (censusAt series spans p t)))
    as (HR & HG & HU & HH).
  rewrite list.Forall_forall in Hall.
  assert (forall v, v ∈ map (regionVerdict p) (censusAt series spans p t) ->
          r_availability v = AvailExcluded \/ (r_availability v = a /\ r_health v = h)) as Hv.
  { intros v (tl & -> & Htl)%list_elem_of_fmap. simpl.
    destruct (Hall tl Htl) as [->| ->]; auto. }
  apply list.Exists_exists in Hex as (tl & Htl & Heq).
  assert (regionVerdict p tl ∈ map (regionVerdict p) (censusAt series spans p t)) as Hin
    by (apply list_elem_of_fmap; eauto).
  split; [|split; [|split_and!]].
  - apply not_true_is_false. intros Hf. rewrite forallb_forall in Hf.
    apply list_elem_of_In, Hf, bool_decide_eq_true in Hin. simpl in Hin.
    rewrite Heq in Hin. done.
  - rewrite HR. eapply count_pos; [exact Hin|]. simpl. rewrite Heq. simpl.
    by rewrite bool_decide_eq_false_2.
  - rewrite HG, HR. case_bool_decide.
    + apply count_ext. intros v [Hx|[Hx _]]%Hv; rewrite Hx; subst; done.
    + apply count_none. intros v [Hx|[Hx _]]%Hv; rewrite Hx; by apply bool_decide_eq_false.
  - rewrite HU, HR. case_bool_decide.
    + apply count_ext. intros v [Hx|[Hx _]]%Hv; rewrite Hx; subst; done.
    + apply count_none. intros v [Hx|[Hx _]]%Hv; rewrite Hx; by apply bool_decide_eq_false.
  - rewrite HH, HR. case_bool_decide.
    + apply count_ext. intros v [Hx|[Hx Hh]]%Hv; rewrite Hx; [done|]. rewrite Hh.
      rewrite (bool_decide_eq_true_2 (h = HealthHealthy)) by done. by rewrite andb_true_r.
    + apply count_none. intros v [Hx|[Hx Hh]]%Hv; rewrite Hx; [done|]. rewrite Hh.
      rewrite (bool_decide_eq_false_2 (h = HealthHealthy)) by done. by rewrite andb_false_r.
Qed.

Lemma unanimous_Exists v (Q : tally -> Prop) :
  (exists s, s ∈ series /\ state s = v) ->
  (forall r, regionMembers r series <> [] ->
     1 <= count (isState (maintenanceExcludes p) spans t v) (regionMembers r series) ->
     Q (finalTally p spans t series r)) ->
  Exists Q (censusAt series spans p t).
Proof.
  intros (s & Hs & Hst) HQ. apply list.Exists_exists.
  exists (finalTally p spans t series (m_Region (s_Member s))).
  pose proof (regionMembers_own _ _ Hs) as Hne. split.
  - apply elem_of_censusAt. eauto.
  - apply HQ; [done|]. eapply count_pos; [|apply bool_decide_eq_true; exact Hst].
    apply elem_of_filter_b. split; [done|]. by apply bool_decide_eq_true.
Qed.
End unanimity.

(** C8: an exclusion never manufactures a failure: when every member that is not excluded
    is good (and at least one is), the service is GOOD and HEALTHY under every
    aggregation mode and whatever thresholds were declared, because thresholds are
    clamped to the eligible members and regions. *)
Theorem exclusion_never_degrades p spans t series
  (Hall : forall s, s ∈ series -> memberState (maintenanceExcludes p) spans t s = StateGood \/
                                  memberState (maintenanceExcludes p) spans t s = StateExcluded)
  (Hsome : exists s, s ∈ series /\ memberState (maintenanceExcludes p) spans t s = StateGood) :
  o_Availability (aggregate (censusAt series spans p t) p) = AvailGood /\
  o_Health (aggregate (censusAt series spans p t) p) = HealthHealthy.
Proof.
  assert (series <> []) as Hne by (intros ->; destruct Hsome as (x & Hx & _); by apply not_elem_of_nil in Hx).
  assert (forall r, regionMembers r series <> [] ->
            1 <= count (isState (maintenanceExcludes p) spans t StateGood) (regionMembers r series) ->
            (aggregateRegion (finalTally p spans t series r) p).1 = (AvailGood, HealthHealthy)) as Hreg.
  { intros r Hr Hc. pose proof (finalTally_counts p spans t series r) as Hfc.
    pose proof (unanimous_counts p spans t series StateGood r ltac:(done) Hall StateUnknown ltac:(done) ltac:(done)) as Hu0.
    pose proof (unanimous_counts p spans t series StateGood r ltac:(done) Hall StateBad ltac:(done) ltac:(done)) as Hb0.
    apply aggregateRegion_all_good; [by eapply final_counts_wf|..];
      destruct Hfc as [_ _ _ Hg Hi Hb Hu _]; rewrite ?Hg, ?Hi, ?Hb, ?Hu, ?Hu0, ?Hb0;
      repeat case_match; lia. }
  destruct (aggregate_unanimous p spans t series AvailGood HealthHealthy) as (Hf & HR & HG & HU & HH);
    [done| | |done|].
  { apply censusAt_Forall. intros r Hr.
    destruct (region_excluded_or p spans t series StateGood r) as [|Hc]; [done..|by left|].
    right. by apply Hreg. }
  { apply (unanimous_Exists p spans t series StateGood); done. }
  pose proof (aggregate_cases _ p (censusAt_nonempty series spans p t Hne)) as Hc.
  cbv zeta in Hc. rewrite Hf in Hc. destruct Hc as (_ & -> & ->).
  simpl in *. rewrite HG, HH.
  rewrite !(proj2 (Z.leb_le _ _)) by lia. done.
Qed.

(** under a policy the validator accepts, a service none of whose measured members is
    good is never reported as serving: when every member is bad or excluded and at least
    one is bad, availability is BAD and health DOWN in every mode. *)
Theorem unanimous_failure_is_bad p declared expected spans t series
  (Hwf : policy_wf p declared expected)
  (Hall : forall s, s ∈ series -> memberState (maintenanceExcludes p) spans t s = StateBad \/
                                  memberState (maintenanceExcludes p) spans t s = StateExcluded)
  (Hsome : exists s, s ∈ series /\ memberState (maintenanceExcludes p) spans t s = StateBad) :
  o_Availability (aggregate (censusAt series spans p t) p) = AvailBad /\
  o_Health (aggregate (censusAt series spans p t) p) = HealthDown.
Proof.
  assert (series <> []) as Hne by (intros ->; destruct Hsome as (x & Hx & _); by apply not_elem_of_nil in Hx).
  destruct Hwf as [_ _ Hagg _ Hthr _ _].
  assert (forall r, regionMembers r series <> [] ->
            1 <= count (isState (maintenanceExcludes p) spans t StateBad) (regionMembers r series) ->
            (aggregateRegion (finalTally p spans t series r) p).1 = (AvailBad, HealthDown)) as Hreg.
  { intros r Hr Hc. pose proof (finalTally_counts p spans t series r) as Hfc.
    pose proof (unanimous_counts p spans t series StateBad r ltac:(done) Hall StateUnknown ltac:(done) ltac:(done)) as Hu0.
    pose proof (unanimous_counts p spans t series StateBad r ltac:(done) Hall StateGood ltac:(done) ltac:(done)) as Hg0.
    apply aggregateRegion_all_bad; [by eapply final_counts_wf|..|naive_solver lia];
      destruct Hfc as [_ _ _ Hg Hi Hb Hu _]; rewrite ?Hg, ?Hi, ?Hb, ?Hu, ?Hu0, ?Hg0;
      repeat case_match; lia. }
  destruct (aggregate_unanimous p spans t series AvailBad HealthDown) as (Hf & HR & HG & HU & HH);
    [done| | |done|].
  { apply censusAt_Forall. intros r Hr.
    destruct (region_excluded_or p spans t series StateBad r) as [|Hc]; [done..|by left|].
    right. by apply Hreg. }
  { apply (unanimous_Exists p spans t series StateBad); done. }
  pose proof (aggregate_cases _ p (censusAt_nonempty series spans p t Hne)) as Hc.
  cbv zeta in Hc. rewrite Hf in Hc. destruct Hc as (_ & -> & ->).
  simpl in *. rewrite HG, HU.
  rewrite !(proj2 (Z.leb_gt _ _)) by lia. done.
Qed.

(** ** Monotonicity *)

(** The order of the health axis; EXCLUDED is comparable only with itself. *)
Definition health_rank (h : Health) : Z :=
  match h with
  | HealthDown => 0 | HealthUnknown => 1 | HealthDegraded => 2 | HealthHealthy => 3
  | HealthExcluded => 4
  end.

Definition health_le (h1 h2 : Health) : Prop :=
  (h1 = HealthExcluded <-> h2 = HealthExcluded) /\ health_rank h1 <= health_rank h2.

(** [tally_le t1 t2]: the same region under the same exclusions, with at least as many
    members good, and at least as many good or undecided. *)
Record tally_le (t1 t2 : tally) : Prop := {
  tl_wf1 : tally_wf t1;
  tl_wf2 : tally_wf t2;
  tl_declared : t_declared t1 = t_declared t2;
  tl_excluded : excluded t1 = excluded t2;
  tl_ignored : t_ignored t1 = t_ignored t2;
  tl_good : t_good t1 <= t_good t2;
  tl_notbad : t_good t1 + t_unknown t1 <= t_good t2 + t_unknown t2;
}.

Lemma aggregateRegion_mono p t1 t2 :
  tally_le t1 t2 ->
  health_le (aggregateRegion t1 p).1.2 (aggregateRegion t2 p).1.2.
Proof.
  intros [[Hp1 Hn1 Hd1] [Hp2 Hn2 Hd2] Hd Hx Hi Hg Hgu]. unfold excluded in *.
  assert (eligible t1 = eligible t2) as He by (unfold eligible; lia).
  unfold aggregateRegion. rewrite <- He, <- Hi. unfold excluded. rewrite Hx, <- Hd.
  set (n := eligible t1) in *.
  assert (n = t_good t1 + t_bad t1 + t_unknown t1) as Hn by (unfold n, eligible; lia).
  assert (n = t_good t2 + t_bad t2 + t_unknown t2) as Hn' by (rewrite He; unfold eligible; lia).
  clearbody n. cbv zeta.
  destruct (n =? 0) eqn:E0.
  { break_goal; simpl; (split; [done|simpl; lia]). }
  destruct (agg_Mode (Aggregation p));
    break_goal; bool_facts; simpl; (split; [done|simpl; lia]).
Qed.

Lemma axes_excluded a h : axes_agree a h -> a = AvailExcluded <-> h = HealthExcluded.
Proof. by destruct a, h. Qed.

Lemma count_Forall2_le {A} (P Q : A -> bool) l1 l2 :
  Forall2 (fun x y => P x = true -> Q y = true) l1 l2 -> count P l1 <= count Q l2.
Proof.
  induction 1 as [|x y l1 l2 H _ IH]; [done|]. rewrite !count_cons.
  destruct (P x), (Q y); simpl; naive_solver lia.
Qed.

Lemma forallb_Forall2 {A B} (P : A -> bool) (Q : B -> bool) l1 l2 :
  Forall2 (fun x y => P x = Q y) l1 l2 -> forallb P l1 = forallb Q l2.
Proof. induction 1 as [|x y l1 l2 H _ IH]; simpl; [done|]. by rewrite H, IH. Qed.

Definition verdict_le (r1 r2 : regionResult) : Prop :=
  axes_agree (r_availability r1) (r_health r1) /\
  axes_agree (r_availability r2) (r_health r2) /\
  health_le (r_health r1) (r_health r2).

Lemma verdict_le_counts l1 l2 :
  Forall2 verdict_le l1 l2 ->
  let c1 := countRegions l1 in
  let c2 := countRegions l2 in
  forallb (fun r => bool_decide (r_availability r = AvailExcluded)) l1
  = forallb (fun r => bool_decide (r_availability r = AvailExcluded)) l2 /\
  inR c1 = inR c2 /\ gr c1 <= gr c2 /\ gr c1 + ur c1 <= gr c2 + ur c2 /\ hr c1 <= hr c2.
Proof.
  intros HF. cbv zeta.
  destruct (countRegions_eq l1) as (-> & -> & -> & ->).
  destruct (countRegions_eq l2) as (-> & -> & -> & ->).
  split; [|split; [|split_and!]].
  - apply forallb_Forall2. eapply list.Forall2_impl; [exact HF|].
    intros [a1 h1] [a2 h2] (H1 & H2 & [Hx Hr]). simpl in *.
    apply bool_decide_ext. rewrite (axes_excluded _ _ H1), (axes_excluded _ _ H2). done.
  - apply Z.le_antisymm; [|apply Forall2_flip in HF]; apply count_Forall2_le;
      (eapply list.Forall2_impl; [exact HF|]);
      intros [a1 h1] [a2 h2] (H1 & H2 & [Hx Hr]); simpl in *;
      rewrite !negb_true_iff, !bool_decide_eq_false;
      rewrite (axes_excluded _ _ H1), (axes_excluded _ _ H2); naive_solver.
  - apply count_Forall2_le. eapply list.Forall2_impl; [exact HF|].
    intros [[] []] [[] []] (H1 & H2 & [Hx Hr]); simpl in *; (done || lia || naive_solver).
  - enough (count (fun r => bool_decide (r_availability r = AvailGood)
                           || bool_decide (r_availability r = AvailUnknown)) l1
            <= count (fun r => bool_decide (r_availability r = AvailGood)
                           || bool_decide (r_availability r = AvailUnknown)) l2) as Hle.
    { assert (forall l, count (fun r => bool_decide (r_availability r = AvailGood)
                           || bool_decide (r_availability r = AvailUnknown)) l
              = count (fun r => bool_decide (r_availability r = AvailGood)) l
                + count (fun r => bool_decide (r_availability r = AvailUnknown)) l) as Hsum.
      { induction l as [|r l IH]; [done|]. rewrite !count_cons, IH.
        destruct (r_availability r); simpl; lia. }
      rewrite !Hsum in Hle. done. }
    apply count_Forall2_le. eapply list.Forall2_impl; [exact HF|].
    intros [[] []] [[] []] (H1 & H2 & [Hx Hr]); simpl in *; (done || lia || naive_solver).
  - apply count_Forall2_le. eapply list.Forall2_impl; [exact HF|].
    intros [[] []] [[] []] (H1 & H2 & [Hx Hr]); simpl in *; (done || lia || naive_solver).
Qed.

(** aggregation is monotone: replacing bad members by undecided ones, or undecided ones
    by good ones, under the same exclusions, never worsens the service's health (and
    never moves it into or out of EXCLUDED), in every aggregation mode and for any
    thresholds. *)
Theorem aggregate_monotone p ts1 ts2 (Hle : Forall2 tally_le ts1 ts2) :
  health_le (o_Health (aggregate ts1 p)) (o_Health (aggregate ts2 p)).
Proof.
  destruct (decide (ts1 = [])) as [->|Hne1].
  { apply Forall2_nil_inv_l in Hle as ->. split; [done|]. simpl. lia. }
  assert (ts2 <> []) as Hne2 by (intros ->; apply Forall2_nil_inv_r in Hle as ->; done).
  assert (Forall2 verdict_le (map (regionVerdict p) ts1) (map (regionVerdict p) ts2)) as Hv.
  { apply Forall2_fmap. eapply list.Forall2_impl; [exact Hle|]. intros t1 t2 H.
    split; [apply aggregateRegion_axes|]. split; [apply aggregateRegion_axes|].
    by apply aggregateRegion_mono. }
  apply verdict_le_counts in Hv as (Hf & HR & HG & HGU & HH).
  pose proof (aggregate_cases ts1 p Hne1) as Hc1. pose proof (aggregate_cases ts2 p Hne2) as Hc2.
  cbv zeta in *. rewrite <- Hf in Hc2. destruct (forallb _ _).
  - destruct Hc1 as [_ ->], Hc2 as [_ ->]. split; [done|lia].
  - destruct Hc1 as (_ & _ & ->), Hc2 as (_ & _ & ->). rewrite <- HR.
    break_goal; bool_facts; (split; [done|simpl; lia]).
Qed.

(** Every member belongs to exactly one of the listed regions. *)
Definition regionSizes (series : list memberSeries) (rs : list string) : list Z :=
  map (fun r => Z.of_nat (length (regionMembers r series))) rs.

Lemma regionSizes_cons s series rs :
  NoDup rs ->
  foldr Z.add 0 (regionSizes (s :: series) rs)
  = foldr Z.add 0 (regionSizes series rs)
    + Z.b2z (bool_decide (m_Region (s_Member s) ∈ rs)).
Proof.
  induction rs as [|r rs IH]; [done|]. intros [Hr Hrs]%list.NoDup_cons. simpl.
  rewrite (IH Hrs). unfold inRegion. destruct (decide (m_Region (s_Member s) = r)) as [<-|Hne].
  - rewrite (bool_decide_eq_true_2 (m_Region (s_Member s) = _)) by done.
    rewrite (bool_decide_eq_false_2 (m_Region (s_Member s) ∈ rs)) by done.
    rewrite bool_decide_eq_true_2 by set_solver. simpl. unfold regionMembers, inRegion. lia.
  - rewrite (bool_decide_eq_false_2 (m_Region (s_Member s) = r)) by done.
    rewrite (bool_decide_ext (m_Region (s_Member s) ∈ r :: rs) (m_Region (s_Member s) ∈ rs)) by set_solver.
    unfold regionMembers, inRegion. lia.
Qed.

Lemma regionSizes_sum series rs :
  NoDup rs -> (forall s, s ∈ series -> m_Region (s_Member s) ∈ rs) ->
  foldr Z.add 0 (regionSizes series rs) = Z.of_nat (length series).
Proof.
  intros Hrs Hcov. induction series as [|s series IH].
  - clear. induction rs as [|r rs IH]; [done|]. exact IH.
  - rewrite regionSizes_cons, IH by (set_solver || done).
    rewrite bool_decide_eq_true_2 by set_solver. simpl length. simpl Z.b2z. lia.
Qed.

(** the census equation of every region: the declared members split exactly into
    excluded, ignored, good, bad and undecided ones (no counter is negative), the
    regions are listed once each in sorted order, and the declared counts of the
    regions add up to the number of members. *)
Theorem censusAt_partition series spans p t :
  let tallies := censusAt series spans p t in
  Forall tally_wf tallies /\
  NoDup (map t_region tallies) /\
  Sorted String.le (map t_region tallies) /\
  foldr Z.add 0 (map t_declared tallies) = Z.of_nat (length series).
Proof.
  cbv zeta. split; [apply censusAt_wf|].
  destruct (census_order (maintenanceExcludes p) spans t series) as [Hnd Hord].
  rewrite censusAt_tallies, !map_map.
  set (rs := merge_sort String.le (order (census (maintenanceExcludes p) spans t series))).
  rewrite (map_ext (fun r => t_region (finalTally p spans t series r)) (fun r => r))
    by (intros r; apply finalTally_counts).
  rewrite (map_ext (fun r => t_declared (finalTally p spans t series r))
             (fun r => Z.of_nat (length (regionMembers r series))))
    by (intros r; apply (fc_declared _ _ _ _ _ _ (finalTally_counts p spans t series r))).
  rewrite map_id.
  assert (NoDup rs) as Hrs by (unfold rs; by rewrite merge_sort_Permutation).
  split; [done|]. split; [apply Sorted_merge_sort, _|].
  apply regionSizes_sum; [done|].
  intros s Hs. unfold rs. rewrite merge_sort_Permutation, Hord, census_byRegion.
  pose proof (regionMembers_own _ _ Hs). by destruct (regionMembers _ _).
Qed.

(** ** Witnesses *)
Definition demoMember (id region : string) (enabled : bool) : Member :=
  {| m_MonitorID := id; m_Type := MonitorHTTP; m_Region := region; m_Enabled := enabled;
     m_StaleAfter := 90 * Second; m_ArmedAt := 0 |}.

Definition demoObservation (id : string) (ts : Time) (up : bool) : Observation :=
  {| o_MonitorID := id; o_Ts := ts; o_Up := up |}.

Definition demoPolicy : ServicePolicies :=
  {| Aggregation := {| agg_Mode := AggQuorum; DegradedMin := 1; HealthyMin := 2 |};
     RegionAgg := {| reg_Mode := RegionPer; DegradedMinRegions := 1; HealthyMinRegions := 1 |};
     MissingData := MissingUnknown; Maintenance := MaintenanceExclude;
     Freshness := DefaultFreshnessPolicy |}.

(** Two members in one region, the second disabled; [up] is the first one's state. *)
Definition demoSeries (up : bool) : list memberSeries :=
  buildSeries [demoMember "a" "eu" true; demoMember "b" "eu" false]
    [demoObservation "a" (1000 * Second) up].

Example aggregate_excluded_iff_witness :
  o_Availability (aggregate (censusAt (demoSeries true) [] demoPolicy (1001 * Second)) demoPolicy)
    = AvailExcluded <->
  (forall s, s ∈ demoSeries true ->
     memberState (maintenanceExcludes demoPolicy) [] (1001 * Second) s = StateExcluded).
Proof. apply (aggregate_excluded_iff (demoSeries true)). discriminate. Defined.

Lemma demoSeries_states up s :
  s ∈ demoSeries up ->
  memberState (maintenanceExcludes demoPolicy) [] (1001 * Second) s
    = (if up then StateGood else StateBad) \/
  memberState (maintenanceExcludes demoPolicy) [] (1001 * Second) s = StateExcluded.
Proof.
  intros Hs. destruct up; repeat (apply elem_of_cons in Hs as [->|Hs]);
    try (by apply not_elem_of_nil in Hs); vm_compute; auto.
Qed.

Lemma demoSeries_decided up :
  exists s, s ∈ demoSeries up /\
    memberState (maintenanceExcludes demoPolicy) [] (1001 * Second) s
    = if up then StateGood else StateBad.
Proof. destruct up; eexists; (split; [left|vm_compute; reflexivity]). Qed.

Example exclusion_never_degrades_witness :
  o_Availability (aggregate (censusAt (demoSeries true) [] demoPolicy (1001 * Second)) demoPolicy)
    = AvailGood /\
  o_Health (aggregate (censusAt (demoSeries true) [] demoPolicy (1001 * Second)) demoPolicy)
    = HealthHealthy.
Proof.
  apply (exclusion_never_degrades demoPolicy [] (1001 * Second) (demoSeries true)).
  - apply (demoSeries_states true).
  - apply (demoSeries_decided true).
Defined.

Example unanimous_failure_is_bad_witness :
  o_Availability (aggregate (censusAt (demoSeries false) [] demoPolicy (1001 * Second)) demoPolicy)
    = AvailBad /\
  o_Health (aggregate (censusAt (demoSeries false) [] demoPolicy (1001 * Second)) demoPolicy)
    = HealthDown.
Proof.
  apply (unanimous_failure_is_bad demoPolicy {["eu" := 2]} 1 [] (1001 * Second) (demoSeries false)).
  - apply ValidateServicePolicies_Ok. vm_compute. reflexivity.
  - apply (demoSeries_states false).
  - apply (demoSeries_decided false).
Defined.

Definition demoTally (g b u : Z) : tally :=
  {| t_region := "eu"; t_declared := g + b + u; t_excludedDisabled := 0; t_excludedMaintenance := 0;
     t_ignored := 0; t_good := g; t_bad := b; t_unknown := u;
     t_badCauses := []; t_unknownCauses := []; t_excludedCauses := [] |}.

Example aggregate_monotone_witness :
  health_le (o_Health (aggregate [demoTally 1 1 0] demoPolicy))
            (o_Health (aggregate [demoTally 1 0 1] demoPolicy)).
Proof.
  apply (aggregate_monotone demoPolicy [demoTally 1 1 0] [demoTally 1 0 1]).
  constructor; [|constructor].
  split; try split; vm_compute; repeat split; discriminate || reflexivity.
Defined.
