(* ===== verification/Reduce.v ===== *)
(** * The bucket reducer
    ([internal/reliability/reduce.go], [internal/reliability/reliability.go])

    [Reduce] splits a canonical bucket at its breakpoints, aggregates once per
    sub-interval and accumulates the exact length of each into one bin of each axis,
    with a bounded provenance record.  The refinement theorem says that each duration
    is the measure of the set of instants at which the point evaluator [StateAt]
    answers that verdict. *)

From S2P Require Import Prelude ServicePolicy Effective Aggregate.

(** ** Data *)
Record Durations := {
  Good : Duration;
  Bad : Duration;
  Unknown : Duration;
  Excluded : Duration;
  Healthy : Duration;
  Degraded : Duration;
  Down : Duration;
  HealthUnknownD : Duration;
}.

Definition zeroDurations : Durations :=
  {| Good := 0; Bad := 0; Unknown := 0; Excluded := 0;
     Healthy := 0; Degraded := 0; Down := 0; HealthUnknownD := 0 |}.

Definition Total (d : Durations) : Duration :=
  add64 (add64 (add64 (Good d) (Bad d)) (Unknown d)) (Excluded d).

Definition HealthTotal (d : Durations) : Duration :=
  add64 (add64 (add64 (add64 (Healthy d) (Degraded d)) (Down d)) (HealthUnknownD d)) (Excluded d).

(** [Durations.add]: the availability switch, then the health switch. *)
Definition addAvail (d : Durations) (a : Availability) (span : Duration) : Durations :=
  let 'Build_Durations g b u x h dg dn hu := d in
  match a with
  | AvailGood => Build_Durations (add64 g span) b u x h dg dn hu
  | AvailBad => Build_Durations g (add64 b span) u x h dg dn hu
  | AvailExcluded => Build_Durations g b u (add64 x span) h dg dn hu
  | AvailUnknown => Build_Durations g b (add64 u span) x h dg dn hu
  end.

Definition addHealth (d : Durations) (v : Health) (span : Duration) : Durations :=
  let 'Build_Durations g b u x h dg dn hu := d in
  match v with
  | HealthHealthy => Build_Durations g b u x (add64 h span) dg dn hu
  | HealthDegraded => Build_Durations g b u x h (add64 dg span) dn hu
  | HealthDown => Build_Durations g b u x h dg (add64 dn span) hu
  | HealthExcluded => d
  | HealthUnknown => Build_Durations g b u x h dg dn (add64 hu span)
  end.

Definition Durations_add (d : Durations) (o : Outcome) (span : Duration) : Durations :=
  addHealth (addAvail d (o_Availability o) span) (o_Health o) span.

(** *** Provenance *)
Definition MaxCauses : nat := 8.

Definition causeKey (m : MemberCause) : string :=
  mc_MonitorID m +:+ "|" +:+ mc_Region m +:+ "|" +:+ UnknownReason_string (mc_Reason m).

(** [causeSet]; the three [seen] maps are sets of keys. *)
Record causeSet := {
  c_bad : list MemberCause;
  c_unknown : list MemberCause;
  c_excluded : list MemberCause;
  c_seenBad : gset string;
  c_seenUnknown : gset string;
  c_seenExcluded : gset string;
  c_overflow : Z;
}.

Definition newCauseSet : causeSet :=
  {| c_bad := []; c_unknown := []; c_excluded := [];
     c_seenBad := ∅; c_seenUnknown := ∅; c_seenExcluded := ∅; c_overflow := 0 |}.

(** One iteration of [causeSet.add], on the destination list, its seen set and the
    shared overflow counter. *)
Definition addCause (acc : list MemberCause * gset string * Z) (m : MemberCause)
    : list MemberCause * gset string * Z :=
  let '(dst, seen, overflow) := acc in
  let key := causeKey m in
  if bool_decide (key ∈ seen) then (dst, seen, overflow)
  else if Nat.leb MaxCauses (length dst) then (dst, {[key]} ∪ seen, overflow + 1)
  else (dst ++ [m], {[key]} ∪ seen, overflow).

Definition addCauses (dst : list MemberCause) (seen : gset string) (overflow : Z)
    (ms : list MemberCause) : list MemberCause * gset string * Z :=
  foldl addCause (dst, seen, overflow) ms.

Definition addBad (c : causeSet) (ms : list MemberCause) : causeSet :=
  let '(dst, seen, overflow) := addCauses (c_bad c) (c_seenBad c) (c_overflow c) ms in
  {| c_bad := dst; c_unknown := c_unknown c; c_excluded := c_excluded c;
     c_seenBad := seen; c_seenUnknown := c_seenUnknown c; c_seenExcluded := c_seenExcluded c;
     c_overflow := overflow |}.

Definition addUnknown (c : causeSet) (ms : list MemberCause) : causeSet :=
  let '(dst, seen, overflow) := addCauses (c_unknown c) (c_seenUnknown c) (c_overflow c) ms in
  {| c_bad := c_bad c; c_unknown := dst; c_excluded := c_excluded c;
     c_seenBad := c_seenBad c; c_seenUnknown := seen; c_seenExcluded := c_seenExcluded c;
     c_overflow := overflow |}.

Definition addExcluded (c : causeSet) (ms : list MemberCause) : causeSet :=
  let '(dst, seen, overflow) := addCauses (c_excluded c) (c_seenExcluded c) (c_overflow c) ms in
  {| c_bad := c_bad c; c_unknown := c_unknown c; c_excluded := dst;
     c_seenBad := c_seenBad c; c_seenUnknown := c_seenUnknown c; c_seenExcluded := seen;
     c_overflow := overflow |}.

(** The [switch out.Availability] of the loop body: the causes of this sub-interval. *)
Definition recordCauses (c : causeSet) (a : Availability) (tallies : list tally) : causeSet :=
  match a with
  | AvailBad => foldl (fun c tl => addBad c (t_badCauses tl)) c tallies
  | AvailUnknown => foldl (fun c tl => addUnknown c (t_unknownCauses tl)) c tallies
  | AvailExcluded => foldl (fun c tl => addExcluded c (t_excludedCauses tl)) c tallies
  | AvailGood => c
  end.

(** [mergeWeakened]: replace the first record of the same region when the new gap is
    wider, append when there is none. *)
Fixpoint mergeOne (acc : list Weakened) (w : Weakened) : list Weakened :=
  match acc with
  | [] => [w]
  | x :: acc' =>
    if negb (bool_decide (w_Region x = w_Region w)) then x :: mergeOne acc' w
    else if (w_EffectiveDegraded w <? w_EffectiveDegraded x)
            || (w_EffectiveHealthy w <? w_EffectiveHealthy x)
    then w :: acc'
    else x :: acc'
  end.

Definition mergeWeakened (acc ws : list Weakened) : list Weakened := foldl mergeOne acc ws.

Record Provenance := {
  p_Declared : Z;
  p_Bad : list MemberCause;
  p_Unknown : list MemberCause;
  p_Excluded : list MemberCause;
  p_Overflow : Z;
  p_Weakened : list Weakened;
}.

Record Input := {
  in_Start : Time;
  in_End : Time;
  in_Members : list Member;
  in_Observations : list Observation;
  in_Maintenance : list MaintenanceSpan;
  in_Policies : ServicePolicies;
}.

Record Bucket := {
  b_Start : Time;
  b_End : Time;
  b_Durations : Durations;
  b_Provenance : Provenance;
}.

Inductive ReduceError :=
| EndNotAfterStart (end_ start : Time)
| AvailabilityDoesNotConserve (got length : Duration)
| HealthDoesNotConserve (got length : Duration).

(** ** Operations *)
Record loopState := {
  l_durations : Durations;
  l_causes : causeSet;
  l_weakened : list Weakened;
}.

(** One iteration over a breakpoint [t] whose successor is [next]. *)
Definition reduceStep (series : list memberSeries) (inp : Input) (st : loopState)
    (t next : Time) : loopState :=
  let span := Sub next t in
  if span <=? 0 then st
  else
    let tallies := censusAt series (in_Maintenance inp) (in_Policies inp) t in
    let out := aggregate tallies (in_Policies inp) in
    {| l_durations := Durations_add (l_durations st) out span;
       l_causes := recordCauses (l_causes st) (o_Availability out) tallies;
       l_weakened := mergeWeakened (l_weakened st) (o_Weakened out) |}.

Fixpoint reduceLoop (series : list memberSeries) (inp : Input) (points : list Time)
    (st : loopState) : loopState :=
  match points with
  | [] => st
  | t :: rest =>
    let next := match rest with [] => in_End inp | n :: _ => n end in
    reduceLoop series inp rest (reduceStep series inp st t next)
  end.

Definition initLoop : loopState :=
  {| l_durations := zeroDurations; l_causes := newCauseSet; l_weakened := [] |}.

Definition Reduce (inp : Input) : result ReduceError Bucket :=
  if negb (After (in_End inp) (in_Start inp))
  then Err (EndNotAfterStart (in_End inp) (in_Start inp))
  else
    let length := Sub (in_End inp) (in_Start inp) in
    let declared := Z.of_nat (List.length (in_Members inp)) in
    match in_Members inp with
    | [] =>
      Ok {| b_Start := in_Start inp; b_End := in_End inp;
            b_Durations := {| Good := 0; Bad := 0; Unknown := length; Excluded := 0;
                              Healthy := 0; Degraded := 0; Down := 0; HealthUnknownD := length |};
            b_Provenance := {| p_Declared := declared; p_Bad := []; p_Unknown := [];
                               p_Excluded := []; p_Overflow := 0; p_Weakened := [] |} |}
    | _ =>
      let series := buildSeries (in_Members inp) (in_Observations inp) in
      let points := breakpoints series (in_Maintenance inp) (in_Start inp) (in_End inp) in
      let st := reduceLoop series inp points initLoop in
      let d := l_durations st in
      if negb (Total d =? length)
      then Err (AvailabilityDoesNotConserve (Total d) length)
      else if negb (HealthTotal d =? length)
      then Err (HealthDoesNotConserve (HealthTotal d) length)
      else
        let c := l_causes st in
        Ok {| b_Start := in_Start inp; b_End := in_End inp; b_Durations := d;
              b_Provenance := {| p_Declared := declared; p_Bad := c_bad c;
                                 p_Unknown := c_unknown c; p_Excluded := c_excluded c;
                                 p_Overflow := c_overflow c; p_Weakened := l_weakened st |} |}
    end.

(** ** The duration bins *)
Definition availField (a : Availability) (d : Durations) : Duration :=
  match a with
  | AvailGood => Good d | AvailBad => Bad d
  | AvailUnknown => Unknown d | AvailExcluded => Excluded d
  end.

(** The two axes share the excluded bin. *)
Definition healthField (h : Health) (d : Durations) : Duration :=
  match h with
  | HealthHealthy => Healthy d | HealthDegraded => Degraded d | HealthDown => Down d
  | HealthUnknown => HealthUnknownD d | HealthExcluded => Excluded d
  end.

Definition hasAvail (a : Availability) (o : Outcome) : bool := bool_decide (o_Availability o = a).
Definition hasHealth (h : Health) (o : Outcome) : bool := bool_decide (o_Health o = h).

Lemma Durations_add_avail d o span a :
  availField a (Durations_add d o span)
  = if hasAvail a o then add64 (availField a d) span else availField a d.
Proof.
  destruct d, o as [ov oh ow]. unfold Durations_add, hasAvail. simpl.
  destruct ov, oh, a; reflexivity.
Qed.

Lemma Durations_add_health d o span h :
  axes_agree (o_Availability o) (o_Health o) ->
  healthField h (Durations_add d o span)
  = if hasHealth h o then add64 (healthField h d) span else healthField h d.
Proof.
  destruct d, o as [ov oh ow]. unfold Durations_add, hasHealth. simpl.
  destruct ov, oh, h; simpl; intros []; reflexivity.
Qed.

(** ** The loop over the breakpoints *)

Lemma censusAt_ext series spans p t1 t2 :
  (forall s, s ∈ series ->
     stateAt s t1 spans (maintenanceExcludes p) = stateAt s t2 spans (maintenanceExcludes p)) ->
  censusAt series spans p t1 = censusAt series spans p t2.
Proof.
  intros H. unfold censusAt.
  enough (forall c, foldl (censusStep (maintenanceExcludes p) spans t1) c series
                    = foldl (censusStep (maintenanceExcludes p) spans t2) c series) as -> by done.
  induction series as [|s series IH]; intros c; [done|]. simpl.
  unfold censusStep at 2 4. rewrite (H s) by set_solver. apply IH. set_solver.
Qed.

Section reduce.
Context (inp : Input).
Notation start := (in_Start inp).
Notation end_ := (in_End inp).
Notation series := (buildSeries (in_Members inp) (in_Observations inp)).

(** The bucket fits a [time.Duration]. *)
Hypothesis Hlen : start < end_ <= start + int64_max.

Definition talliesAt (t : Time) : list tally :=
  censusAt series (in_Maintenance inp) (in_Policies inp) t.

Definition outcomeAt (t : Time) : Outcome := aggregate (talliesAt t) (in_Policies inp).

Definition bucketPoints : list Time := breakpoints series (in_Maintenance inp) start end_.

Lemma Hlen64 : start < end_ <= start + 2 ^ 64.
Proof. unfold int64_max in Hlen. lia. Qed.

Lemma outcomeAt_StateAt t :
  in_Members inp <> [] ->
  outcomeAt t = StateAt (in_Members inp) (in_Observations inp) (in_Maintenance inp) (in_Policies inp) t.
Proof. unfold StateAt, outcomeAt, talliesAt. by destruct (in_Members inp). Qed.

(** No breakpoint in [(t, u]]: the census is the same at both instants. *)
Lemma talliesAt_constant t u :
  start <= t -> t <= u < end_ ->
  (forall x, x ∈ bucketPoints -> x <= t \/ u < x) ->
  talliesAt u = talliesAt t.
Proof.
  intros Ht Hu Hno. apply censusAt_ext. intros s Hs. apply stateAt_same_side.
  intros x Hx. unfold same_side.
  assert (x <= t \/ u < x) as Hx'.
  { destruct (decide (start <= x < end_)) as [Hin|Hout]; [|lia].
    apply Hno. apply (elem_of_breakpoints start end_ Hlen64). split; [|done]. right.
    unfold candidates. rewrite elem_of_app in Hx |- *. destruct Hx as [Hx|Hx]; [left|by right].
    apply elem_of_flat_map. eauto. }
  destruct (Z.ltb_spec u x), (Z.ltb_spec t x); (done || lia).
Qed.

(** A suffix of the breakpoints, with what the loop relies on. *)
Record suffix_ok (points : list Time) : Prop := {
  so_sorted : StronglySorted Z.lt points;
  so_range : forall t, t ∈ points -> start <= t < end_;
  so_const : forall t u, t ∈ points -> t <= u < end_ ->
    (forall x, x ∈ points -> x <= t \/ u < x) -> talliesAt u = talliesAt t;
}.

Lemma bucketPoints_ok : suffix_ok bucketPoints.
Proof.
  split.
  - apply breakpoints_sorted, Hlen64.
  - intros t [_ Ht]%(elem_of_breakpoints start end_ Hlen64). done.
  - intros t u [_ Ht]%(elem_of_breakpoints start end_ Hlen64) Hu Hno.
    apply talliesAt_constant; [lia|done|done].
Qed.

Lemma suffix_ok_tail t points : suffix_ok (t :: points) -> suffix_ok points.
Proof.
  intros [[Hs Hall]%StronglySorted_inv Hr Hc]. rewrite Forall_forall in Hall. split; [done|set_solver|].
  intros x u Hx Hu Hno. apply Hc; [set_solver|done|].
  intros y [->|Hy]%elem_of_cons; [|by apply Hno].
  apply list_elem_of_In, Hall in Hx. lia.
Qed.

Definition nextPoint (points : list Time) : Time :=
  match points with [] => end_ | n :: _ => n end.

Lemma suffix_ok_next t points :
  suffix_ok (t :: points) ->
  start <= t < nextPoint points /\ nextPoint points <= end_ /\
  forall u, t <= u < nextPoint points -> talliesAt u = talliesAt t.
Proof.
  intros [[Hs Hall]%StronglySorted_inv Hr Hc]. rewrite Forall_forall in Hall.
  pose proof (Hr t ltac:(set_solver)) as Ht.
  assert (t < nextPoint points <= end_) as Hn.
  { destruct points as [|n points]; simpl; [lia|].
    pose proof (Hr n ltac:(set_solver)). specialize (Hall n (in_eq _ _)). lia. }
  split; [lia|]. split; [lia|]. intros u Hu. apply Hc; [set_solver|lia|].
  intros x [->|Hx]%elem_of_cons; [lia|]. right.
  destruct points as [|n points]; simpl in *; [set_solver|].
  apply StronglySorted_inv in Hs as [_ Hs]. rewrite Forall_forall in Hs.
  apply elem_of_cons in Hx as [->|Hx]; [lia|]. apply list_elem_of_In, Hs in Hx. lia.
Qed.

(** The loop never skips a sub-interval, and its span is exact. *)
Lemma reduceStep_exact st t points :
  suffix_ok (t :: points) ->
  reduceStep series inp st t (nextPoint points)
  = {| l_durations := Durations_add (l_durations st) (outcomeAt t) (nextPoint points - t);
       l_causes := recordCauses (l_causes st) (o_Availability (outcomeAt t)) (talliesAt t);
       l_weakened := mergeWeakened (l_weakened st) (o_Weakened (outcomeAt t)) |}.
Proof.
  intros (Ht & Hn & _)%suffix_ok_next. unfold reduceStep.
  rewrite Sub_exact by (unfold int64_max, int64_min in *; lia).
  destruct (Z.leb_spec (nextPoint points - t) 0); [lia|]. done.
Qed.

Lemma reduceLoop_cons st t points :
  reduceLoop series inp (t :: points) st
  = reduceLoop series inp points (reduceStep series inp st t (nextPoint points)).
Proof. done. Qed.

(** One duration bin over a suffix of the loop. *)
Lemma reduceLoop_field (f : Durations -> Duration) (sel : Outcome -> bool) :
  (forall d o span, axes_agree (o_Availability o) (o_Health o) ->
     f (Durations_add d o span) = if sel o then add64 (f d) span else f d) ->
  forall points st x,
  suffix_ok points -> f (l_durations st) = wrap64 x ->
  f (l_durations (reduceLoop series inp points st))
  = wrap64 (x + measure (fun t => sel (outcomeAt t)) (nextPoint points) end_).
Proof.
  intros Hf points. induction points as [|t points IH]; intros st x Hok Hx.
  - simpl. rewrite (measure_const _ end_ end_ true) by lia. rewrite Hx. f_equal. lia.
  - rewrite reduceLoop_cons, reduceStep_exact by done.
    pose proof (suffix_ok_next _ _ Hok) as (Ht & Hn & Hconst).
    set (o := outcomeAt t).
    rewrite (IH _ (x + if sel o then nextPoint points - t else 0)); [|by eapply suffix_ok_tail|].
    + simpl nextPoint at 3. rewrite (measure_split _ t (nextPoint points) end_) by lia.
      rewrite (measure_const _ t (nextPoint points) (sel o)); [f_equal; lia|lia|].
      intros u Hu. unfold o, outcomeAt. by rewrite (Hconst u Hu).
    + simpl. rewrite Hf by apply aggregate_axes. fold o. destruct (sel o).
      * by rewrite Hx, add64_wrap_l.
      * by rewrite Hx, Z.add_0_r.
Qed.

Definition finalLoop : loopState := reduceLoop series inp bucketPoints initLoop.

Lemma nextPoint_bucket : nextPoint bucketPoints = start.
Proof. destruct (breakpoints_head start end_ Hlen64 series (in_Maintenance inp)) as [rest Hr].
  unfold bucketPoints. by rewrite Hr. Qed.

Lemma measure_bucket_range P : int64_min <= measure P start end_ <= int64_max.
Proof.
  pose proof (measure_nonneg P start end_). pose proof (measure_le P start end_ ltac:(lia)).
  unfold int64_min, int64_max in *. lia.
Qed.

Lemma final_field (f : Durations -> Duration) (sel : Outcome -> bool) :
  (forall d o span, axes_agree (o_Availability o) (o_Health o) ->
     f (Durations_add d o span) = if sel o then add64 (f d) span else f d) ->
  f zeroDurations = 0 ->
  f (l_durations finalLoop) = measure (fun t => sel (outcomeAt t)) start end_.
Proof.
  intros Hf Hz. unfold finalLoop.
  rewrite (reduceLoop_field f sel Hf bucketPoints initLoop 0 bucketPoints_ok) by (simpl; by rewrite Hz).
  rewrite nextPoint_bucket. apply wrap64_id, measure_bucket_range.
Qed.

Lemma final_avail a :
  availField a (l_durations finalLoop) = measure (fun t => hasAvail a (outcomeAt t)) start end_.
Proof. apply final_field; [intros; apply Durations_add_avail|by destruct a]. Qed.

Lemma final_health h :
  healthField h (l_durations finalLoop) = measure (fun t => hasHealth h (outcomeAt t)) start end_.
Proof. apply final_field; [intros; by apply Durations_add_health|by destruct h]. Qed.

(** Both axes conserve, so neither conservation error is reachable. *)
Lemma final_Total : Total (l_durations finalLoop) = end_ - start.
Proof.
  unfold Total. pose proof (final_avail AvailGood) as Hg. pose proof (final_avail AvailBad) as Hb.
  pose proof (final_avail AvailUnknown) as Hu. pose proof (final_avail AvailExcluded) as Hx.
  simpl in *. rewrite Hg, Hb, Hu, Hx, add64_sum4.
  pose proof (measure_partition
    (map (fun a t => hasAvail a (outcomeAt t)) [AvailGood; AvailBad; AvailUnknown; AvailExcluded])
    start end_ ltac:(lia)) as Hp. simpl in Hp.
  rewrite wrap64_id; rewrite Z.add_0_r, !Z.add_assoc in Hp;
    rewrite Hp; try (intros t _; unfold hasAvail; by destruct (o_Availability (outcomeAt t)));
    unfold int64_min, int64_max in *; lia.
Qed.

Lemma final_HealthTotal : HealthTotal (l_durations finalLoop) = end_ - start.
Proof.
  unfold HealthTotal.
  pose proof (final_health HealthHealthy) as Hh. pose proof (final_health HealthDegraded) as Hg.
  pose proof (final_health HealthDown) as Hb. pose proof (final_health HealthUnknown) as Hu.
  pose proof (final_health HealthExcluded) as Hx.
  simpl in *. rewrite Hh, Hg, Hb, Hu, Hx, add64_sum5.
  pose proof (measure_partition
    (map (fun h t => hasHealth h (outcomeAt t))
       [HealthHealthy; HealthDegraded; HealthDown; HealthUnknown; HealthExcluded])
    start end_ ltac:(lia)) as Hp. simpl in Hp.
  rewrite wrap64_id; rewrite Z.add_0_r, !Z.add_assoc in Hp;
    rewrite Hp; try (intros t _; unfold hasHealth; by destruct (o_Health (outcomeAt t)));
    unfold int64_min, int64_max in *; lia.
Qed.

(** The value [Reduce] returns for a bucket with members. *)
Lemma Reduce_Ok :
  in_Members inp <> [] ->
  Reduce inp = Ok
    {| b_Start := start; b_End := end_; b_Durations := l_durations finalLoop;
       b_Provenance :=
         {| p_Declared := Z.of_nat (length (in_Members inp));
            p_Bad := c_bad (l_causes finalLoop); p_Unknown := c_unknown (l_causes finalLoop);
            p_Excluded := c_excluded (l_causes finalLoop);
            p_Overflow := c_overflow (l_causes finalLoop);
            p_Weakened := l_weakened finalLoop |} |}.
Proof.
  intros Hne. unfold Reduce, After.
  destruct (Z.ltb_spec start end_); [cbn [negb]|lia].
  destruct (in_Members inp) as [|m ms] eqn:Em; [done|]. rewrite <- Em in *.
  change (reduceLoop _ _ _ initLoop) with finalLoop.
  rewrite final_Total, final_HealthTotal.
  rewrite Sub_exact by (unfold int64_min, int64_max in *; lia).
  rewrite !Z.eqb_refl. done.
Qed.
End reduce.

(** ** Refinement *)

(** The outcome the point evaluator gives at an instant of the bucket. *)
Definition pointOutcome (inp : Input) (t : Time) : Outcome :=
  StateAt (in_Members inp) (in_Observations inp) (in_Maintenance inp) (in_Policies inp) t.

(** Every bin of the returned bucket is the measure of its verdict. *)
Lemma Reduce_bins inp
  (Hlen : in_Start inp < in_End inp <= in_Start inp + int64_max) :
  exists b, Reduce inp = Ok b /\
    (forall a, availField a (b_Durations b)
               = measure (fun t => hasAvail a (pointOutcome inp t)) (in_Start inp) (in_End inp)) /\
    (forall h, healthField h (b_Durations b)
               = measure (fun t => hasHealth h (pointOutcome inp t)) (in_Start inp) (in_End inp)).
Proof.
  destruct (in_Members inp) as [|m ms] eqn:Em.
  - unfold Reduce, After. rewrite Em. destruct (Z.ltb_spec (in_Start inp) (in_End inp)); [|lia].
    cbn [negb]. rewrite Sub_exact by (unfold int64_min, int64_max in *; lia).
    eexists. split; [done|].
    assert (forall t, pointOutcome inp t
              = {| o_Availability := AvailUnknown; o_Health := HealthUnknown; o_Weakened := [] |}) as Hp
      by (intros t; unfold pointOutcome; by rewrite Em).
    split; intros v.
    + rewrite (measure_const _ _ _ (bool_decide (AvailUnknown = v)))
        by (lia || (intros t _; by rewrite Hp)). by destruct v.
    + rewrite (measure_const _ _ _ (bool_decide (HealthUnknown = v)))
        by (lia || (intros t _; by rewrite Hp)). by destruct v.
  - assert (in_Members inp <> []) as Hne by (by rewrite Em).
    eexists. split; [by apply Reduce_Ok|]. cbn [b_Durations]. split; intros v.
    + rewrite final_avail by done. apply measure_ext. intros t _. by rewrite outcomeAt_StateAt.
    + rewrite final_health by done. apply measure_ext. intros t _. by rewrite outcomeAt_StateAt.
Qed.

(** C5: [Reduce] refines the point evaluator: for every bucket of positive length that
    fits a [time.Duration], it returns a bucket (neither conservation check can fail)
    whose every duration, on both axes, is exactly the measure of the set of instants
    of [[Start, End)] at which [StateAt] gives that verdict. *)
Theorem Reduce_refines_StateAt inp
  (Hlen : in_Start inp < in_End inp <= in_Start inp + int64_max) :
  exists b, Reduce inp = Ok b /\
    (forall a, availField a (b_Durations b)
               = measure (fun t => hasAvail a (pointOutcome inp t)) (in_Start inp) (in_End inp)) /\
    (forall h, healthField h (b_Durations b)
               = measure (fun t => hasHealth h (pointOutcome inp t)) (in_Start inp) (in_End inp)).
Proof. by apply Reduce_bins. Qed.

Definition demoInput : Input :=
  {| in_Start := 1200 * Second; in_End := 1260 * Second;
     in_Members := [demoMember "a" "eu" true; demoMember "b" "eu" true];
     in_Observations := [demoObservation "a" (1190 * Second) true;
                         demoObservation "b" (1130 * Second) true;
                         demoObservation "a" (1230 * Second) false];
     in_Maintenance := []; in_Policies := demoPolicy |}.

Example Reduce_refines_StateAt_witness :
  exists b, Reduce demoInput = Ok b /\
    (forall a, availField a (b_Durations b)
               = measure (fun t => hasAvail a (pointOutcome demoInput t)) (1200 * Second) (1260 * Second)) /\
    (forall h, healthField h (b_Durations b)
               = measure (fun t => hasHealth h (pointOutcome demoInput t)) (1200 * Second) (1260 * Second)).
Proof.
  apply (Reduce_refines_StateAt demoInput). split; [reflexivity|discriminate].
Defined.

(** The demo bucket: healthy until the second member goes stale at 1220 s, degraded
    until the first one fails at 1230 s, down from there on with the stale member
    undecided (so UNKNOWN), all to the nanosecond. *)
Example Reduce_demo :
  (fun b => b_Durations b) <$> (match Reduce demoInput with Ok b => Some b | Err _ => None end)
  = Some {| Good := 30 * Second; Bad := 0; Unknown := 30 * Second; Excluded := 0;
            Healthy := 20 * Second; Degraded := 10 * Second; Down := 0;
            HealthUnknownD := 30 * Second |}.
Proof. vm_compute. reflexivity. Qed.

Lemma Reduce_sums inp b
  (Hlen : in_Start inp < in_End inp <= in_Start inp + int64_max)
  (Hb : Reduce inp = Ok b) :
  let len := in_End inp - in_Start inp in
  let d := b_Durations b in
  (forall a, 0 <= availField a d <= len) /\ (forall h, 0 <= healthField h d <= len) /\
  Good d + Bad d + Unknown d + Excluded d = len /\
  Healthy d + Degraded d + Down d + HealthUnknownD d + Excluded d = len.
Proof.
  destruct (Reduce_bins inp Hlen) as (b' & Hb' & Ha & Hh).
  rewrite Hb in Hb'. injection Hb' as <-.
  intros len d. pose proof (measure_partition
    (map (fun a t => hasAvail a (pointOutcome inp t)) [AvailGood; AvailBad; AvailUnknown; AvailExcluded])
    (in_Start inp) (in_End inp) ltac:(lia)) as Hpa.
  pose proof (measure_partition
    (map (fun h t => hasHealth h (pointOutcome inp t))
       [HealthHealthy; HealthDegraded; HealthDown; HealthUnknown; HealthExcluded])
    (in_Start inp) (in_End inp) ltac:(lia)) as Hph.
  cbn [map foldr] in Hpa, Hph. rewrite <- !Ha in Hpa. rewrite <- !Hh in Hph.
  cbn [availField healthField] in Hpa, Hph. split; [|split; [|split]].
  - intros a. unfold d. rewrite Ha. split; [apply measure_nonneg|apply measure_le; lia].
  - intros h. unfold d. rewrite Hh. split; [apply measure_nonneg|apply measure_le; lia].
  - rewrite Z.add_0_r, !Z.add_assoc in Hpa. apply Hpa.
    intros t _. unfold hasAvail. by destruct (o_Availability _).
  - rewrite Z.add_0_r, !Z.add_assoc in Hph. apply Hph.
    intros t _. unfold hasHealth. by destruct (o_Health _).
Qed.

(** conservation: whenever [Reduce] returns a bucket, every bin is between zero and
    the bucket length, the four availability bins add up to the length exactly (without
    wrap-around), and so do the five health bins. *)
Theorem Reduce_conserves inp b
  (Hlen : in_Start inp < in_End inp <= in_Start inp + int64_max)
  (Hb : Reduce inp = Ok b) :
  let len := in_End inp - in_Start inp in
  let d := b_Durations b in
  (forall a, 0 <= availField a d <= len) /\ (forall h, 0 <= healthField h d <= len) /\
  Good d + Bad d + Unknown d + Excluded d = len /\
  Healthy d + Degraded d + Down d + HealthUnknownD d + Excluded d = len.
Proof. by apply Reduce_sums. Qed.

Definition demoBucket : Bucket :=
  {| b_Start := 1200 * Second; b_End := 1260 * Second;
     b_Durations := {| Good := 30 * Second; Bad := 0; Unknown := 30 * Second; Excluded := 0;
            Healthy := 20 * Second; Degraded := 10 * Second; Down := 0;
            HealthUnknownD := 30 * Second |};
     b_Provenance :=
       {| p_Declared := 2; p_Bad := [];
          p_Unknown := [{| mc_MonitorID := "b"; mc_Region := "eu"; mc_Reason := ReasonStale |}];
          p_Excluded := []; p_Overflow := 0; p_Weakened := [] |} |}.

Lemma demoInput_length :
  in_Start demoInput < in_End demoInput <= in_Start demoInput + int64_max.
Proof. split; [reflexivity|discriminate]. Qed.

Lemma Reduce_demoBucket : Reduce demoInput = Ok demoBucket.
Proof. vm_compute. reflexivity. Qed.

Example Reduce_conserves_witness :
  (forall a, 0 <= availField a (b_Durations demoBucket) <= 60 * Second) /\
  (forall h, 0 <= healthField h (b_Durations demoBucket) <= 60 * Second) /\
  Good (b_Durations demoBucket) + Bad (b_Durations demoBucket)
    + Unknown (b_Durations demoBucket) + Excluded (b_Durations demoBucket) = 60 * Second /\
  Healthy (b_Durations demoBucket) + Degraded (b_Durations demoBucket) + Down (b_Durations demoBucket)
    + HealthUnknownD (b_Durations demoBucket) + Excluded (b_Durations demoBucket) = 60 * Second.
Proof. apply (Reduce_conserves demoInput demoBucket demoInput_length Reduce_demoBucket). Defined.

(** ** Order independence *)

(** determinism: the bucket does not depend on the order in which the heartbeats
    reached the reducer (they are unique per monitor and instant, as the heartbeats
    table is), including the bounded provenance and the error cases. *)
Theorem Reduce_order_independent inp obs
  (Hu : unique_ts (in_Observations inp)) (Hp : in_Observations inp ≡ₚ obs) :
  Reduce {| in_Start := in_Start inp; in_End := in_End inp; in_Members := in_Members inp;
            in_Observations := obs; in_Maintenance := in_Maintenance inp;
            in_Policies := in_Policies inp |}
  = Reduce inp.
Proof.
  destruct inp as [s e ms os mt pol]. simpl in *. unfold Reduce. cbn [in_Start in_End in_Members
    in_Observations in_Maintenance in_Policies].
  rewrite (buildSeries_Permutation ms os obs Hu Hp).
  assert (forall series points st,
    reduceLoop series {| in_Start := s; in_End := e; in_Members := ms; in_Observations := obs;
                         in_Maintenance := mt; in_Policies := pol |} points st
    = reduceLoop series {| in_Start := s; in_End := e; in_Members := ms; in_Observations := os;
                         in_Maintenance := mt; in_Policies := pol |} points st) as Hloop.
  { intros series points. induction points as [|t points IH]; intros st; simpl; [done|]. apply IH. }
  by rewrite Hloop.
Qed.

Lemma demoInput_unique : unique_ts (in_Observations demoInput).
Proof.
  intros o1 o2 H1 H2. cbn in H1, H2. set_unfold.
  destruct H1 as [->|[->|[->|[]]]], H2 as [->|[->|[->|[]]]]; vm_compute; (done || discriminate).
Qed.

Example Reduce_order_independent_witness :
  Reduce {| in_Start := 1200 * Second; in_End := 1260 * Second;
            in_Members := in_Members demoInput;
            in_Observations := rev (in_Observations demoInput);
            in_Maintenance := []; in_Policies := demoPolicy |}
  = Reduce demoInput.
Proof.
  apply (Reduce_order_independent demoInput (rev (in_Observations demoInput)) demoInput_unique).
  apply Permutation_rev.
Defined.

(** ** Provenance *)

(** The causes a tally offers for a verdict, and the members behind them. *)
Definition tallyCauses (a : Availability) (tl : tally) : list MemberCause :=
  match a with
  | AvailBad => t_badCauses tl
  | AvailUnknown => t_unknownCauses tl
  | AvailExcluded => t_excludedCauses tl
  | AvailGood => []
  end.

(** [contributes]: the member counts towards verdict [a] at [t]; an undecided member
    counts as bad when the policy says so. *)
Definition contributes (p : ServicePolicies) (spans : list MaintenanceSpan) (t : Time)
    (a : Availability) (s : memberSeries) : bool :=
  let st := memberState (maintenanceExcludes p) spans t s in
  match a with
  | AvailBad => bool_decide (st = StateBad)
                || (bool_decide (MissingData p = MissingBad) && bool_decide (st = StateUnknown))
  | AvailUnknown => bool_decide (st = StateUnknown)
  | AvailExcluded => bool_decide (st = StateExcluded)
  | AvailGood => false
  end.

Definition causeFor (p : ServicePolicies) (spans : list MaintenanceSpan) (t : Time)
    (a : Availability) (s : memberSeries) : MemberCause :=
  causeOf s (match a with
             | AvailUnknown => (stateAt s t spans (maintenanceExcludes p)).2
             | _ => ReasonNone
             end).

Section causes.
Context (p : ServicePolicies) (spans : list MaintenanceSpan) (t : Time).
Notation ex := (maintenanceExcludes p).
Notation state := (memberState ex spans t).

Lemma regionTally_causes r ms :
  let tl := regionTally ex spans t r ms in
  t_badCauses tl = map (fun s => causeOf s ReasonNone) (List.filter (isState ex spans t StateBad) ms) /\
  t_unknownCauses tl = map (fun s => causeOf s (stateAt s t spans ex).2)
                         (List.filter (isState ex spans t StateUnknown) ms) /\
  t_excludedCauses tl = map (fun s => causeOf s ReasonNone)
                          (List.filter (isState ex spans t StateExcluded) ms).
Proof.
  unfold regionTally. induction ms as [|s ms IH] using rev_ind; [done|].
  cbv zeta in *. rewrite foldl_app. cbn [foldl]. set (tl := foldl _ _ ms) in *.
  destruct IH as (Hb & Hu & Hx).
  rewrite !List.filter_app, !map_app. cbn [List.filter].
  assert (forall st, isState ex spans t st s = bool_decide ((stateAt s t spans ex).1 = st)) as Hst by done.
  rewrite !Hst. unfold tallyMember.
  destruct (stateAt s t spans ex) as [st rs] eqn:Est. cbn [fst snd].
  destruct st; case_bool_decide; try done; repeat case_bool_decide; try done;
    cbn [map t_badCauses t_unknownCauses t_excludedCauses];
    rewrite ?Est, ?app_nil_r, ?Hb, ?Hu, ?Hx; done.
Qed.

Lemma foldl_missingStep_causes us tl :
  let tl' := foldl (missingStep p) tl us in
  t_badCauses tl' = t_badCauses tl ++
    (if bool_decide (MissingData p = MissingBad) then map (fun s => causeOf s ReasonNone) us else []) /\
  t_unknownCauses tl' = t_unknownCauses tl /\ t_excludedCauses tl' = t_excludedCauses tl.
Proof.
  revert tl. induction us as [|s us IH]; intros tl; cbn [foldl].
  - cbn. split_and!; [|done..]. case_bool_decide; by rewrite app_nil_r.
  - destruct (IH (missingStep p tl s)) as (Hb & Hu & Hx). cbv zeta. rewrite Hb, Hu, Hx.
    unfold missingStep. destruct (MissingData p); cbn; split_and!; try done;
      by rewrite <- app_assoc.
Qed.

Lemma elem_of_tallyCauses series a m :
  (exists tl, tl ∈ censusAt series spans p t /\ m ∈ tallyCauses a tl) <->
  (exists s, s ∈ series /\ contributes p spans t a s = true /\ m = causeFor p spans t a s).
Proof.
  assert (forall r, m ∈ tallyCauses a (finalTally p spans t series r) <->
    exists s, s ∈ regionMembers r series /\ contributes p spans t a s = true /\
              m = causeFor p spans t a s) as Hr.
  { intros r. unfold finalTally.
    destruct (foldl_missingStep_causes
      (List.filter (inRegion r) (List.filter (isState ex spans t StateUnknown) series))
      (regionTally ex spans t r (regionMembers r series))) as (Hb & Hu & Hx).
    cbv zeta in *.
    destruct (regionTally_causes r (regionMembers r series)) as (Hb' & Hu' & Hx').
    assert (forall s, s ∈ List.filter (inRegion r) (List.filter (isState ex spans t StateUnknown) series)
      <-> s ∈ regionMembers r series /\ state s = StateUnknown) as Hus.
    { intros s. unfold regionMembers. rewrite !elem_of_filter_b. unfold isState.
      rewrite bool_decide_eq_true. tauto. }
    set (us := List.filter (inRegion r) _) in *.
    set (ms := regionMembers r series) in *. clearbody us ms.
    cbv zeta in *. unfold causeFor, contributes. cbv zeta. destruct a; cbn [tallyCauses].
    - rewrite Hu, Hu', list_elem_of_fmap. setoid_rewrite elem_of_filter_b. unfold isState.
      naive_solver.
    - split; [set_solver|]. by intros (s & _ & ? & _).
    - rewrite Hb, Hb', elem_of_app, list_elem_of_fmap. setoid_rewrite elem_of_filter_b.
      unfold isState. setoid_rewrite orb_true_iff. setoid_rewrite andb_true_iff.
      setoid_rewrite bool_decide_eq_true.
      case_bool_decide as E; [rewrite list_elem_of_fmap; setoid_rewrite Hus|]; set_solver.
    - rewrite Hx, Hx', list_elem_of_fmap. setoid_rewrite elem_of_filter_b. unfold isState.
      naive_solver. }
  setoid_rewrite elem_of_censusAt. split.
  - intros (tl & (r & _ & ->) & Hm). apply Hr in Hm as (s & [Hs _]%elem_of_filter_b & Hc). eauto.
  - intros (s & Hs & Hc). exists (finalTally p spans t series (m_Region (s_Member s))).
    split; [exists (m_Region (s_Member s)); split; [by apply regionMembers_own|done]|].
    apply Hr. exists s. split; [|done]. apply elem_of_filter_b. split; [done|].
    by apply bool_decide_eq_true.
Qed.
End causes.

(** One cause class after a sequence [feed] of offered causes. *)
Record class_ok (feed dst : list MemberCause) (seen : gset string) : Prop := {
  co_seen : seen = list_to_set (map causeKey feed);
  co_sub : forall m, m ∈ dst -> m ∈ feed;
  co_nodup : NoDup (map causeKey dst);
  co_bound : (length dst <= MaxCauses)%nat;
}.

(** What did not fit: distinct offered keys less the recorded ones. *)
Definition missed (dst : list MemberCause) (seen : gset string) : Z :=
  Z.of_nat (size seen) - Z.of_nat (length dst).

Lemma addCause_ok feed dst seen overflow m :
  class_ok feed dst seen ->
  let '(dst', seen', overflow') := addCause (dst, seen, overflow) m in
  class_ok (feed ++ [m]) dst' seen' /\
  overflow' - overflow = missed dst' seen' - missed dst seen.
Proof.
  intros [Hs Hsub Hnd Hb]. unfold addCause.
  assert (list_to_set (map causeKey (feed ++ [m])) = {[causeKey m]} ∪ seen) as Hseen
    by (rewrite map_app, list_to_set_app_L, Hs; cbn; set_solver).
  case_bool_decide as Hin.
  - split; [|lia]. split; [rewrite Hseen; set_solver|set_solver|done|done].
  - assert (size ({[causeKey m]} ∪ seen) = S (size seen)) as Hsize
      by (rewrite size_union, size_singleton by set_solver; done).
    destruct (Nat.leb_spec MaxCauses (length dst)).
    + split; [split; [done|set_solver|done|done]|]. unfold missed. rewrite Hsize. lia.
    + split; [split; [done|set_solver| |rewrite length_app; simpl; lia]|].
      * rewrite map_app. apply list.NoDup_app. split; [done|]. split; [|apply NoDup_singleton].
        intros k Hk ->%list_elem_of_singleton. apply Hin. subst seen.
        apply list_elem_of_fmap in Hk as (m' & Hk & Hm'). rewrite Hk.
        apply elem_of_list_to_set, list_elem_of_fmap. eauto.
      * unfold missed. rewrite Hsize, length_app. simpl. lia.
Qed.

Lemma addCauses_ok ms feed dst seen overflow :
  class_ok feed dst seen ->
  let '(dst', seen', overflow') := addCauses dst seen overflow ms in
  class_ok (feed ++ ms) dst' seen' /\
  overflow' - overflow = missed dst' seen' - missed dst seen.
Proof.
  unfold addCauses. revert feed dst seen overflow.
  induction ms as [|m ms IH]; intros feed dst seen overflow Hok; cbn [foldl].
  - rewrite app_nil_r. split; [done|lia].
  - pose proof (addCause_ok feed dst seen overflow m Hok) as H1.
    destruct (addCause (dst, seen, overflow) m) as [[dst1 seen1] ov1]. destruct H1 as [H1 H1'].
    specialize (IH _ _ _ ov1 H1). destruct (foldl _ _ ms) as [[dst2 seen2] ov2].
    destruct IH as [H2 H2']. rewrite <- app_assoc in H2. split; [done|lia].
Qed.

(** When nothing was missed, every offered key is recorded. *)
Lemma class_complete feed dst seen m :
  class_ok feed dst seen -> missed dst seen = 0 -> m ∈ feed -> causeKey m ∈ map causeKey dst.
Proof.
  intros [Hs Hsub Hnd Hb] Hm Hin. unfold missed in Hm.
  assert (list_to_set (map causeKey dst) ⊆ seen) as Hle.
  { subst. intros k (m' & -> & Hm')%elem_of_list_to_set%list_elem_of_fmap.
    apply elem_of_list_to_set, list_elem_of_fmap. eauto. }
  assert (seen ≡ list_to_set (map causeKey dst)) as Heq.
  { symmetry. apply set_subseteq_size_equiv; [done|].
    rewrite size_list_to_set, length_map by done. lia. }
  assert (causeKey m ∈ seen) as Hk by (subst; apply elem_of_list_to_set, list_elem_of_fmap; eauto).
  rewrite Heq in Hk. by apply elem_of_list_to_set in Hk.
Qed.

Lemma missed_nonneg feed dst seen : class_ok feed dst seen -> 0 <= missed dst seen.
Proof.
  intros [Hs Hsub Hnd Hb]. unfold missed.
  assert (list_to_set (map causeKey dst) ⊆ seen) as Hle%subseteq_size.
  { subst. intros k (m' & -> & Hm')%elem_of_list_to_set%list_elem_of_fmap.
    apply elem_of_list_to_set, list_elem_of_fmap. eauto. }
  rewrite size_list_to_set, length_map in Hle by done. lia.
Qed.

(** The whole cause set after offering [feed a] to each class. *)
Record causes_ok (feed : Availability -> list MemberCause) (c : causeSet) : Prop := {
  cs_bad : class_ok (feed AvailBad) (c_bad c) (c_seenBad c);
  cs_unknown : class_ok (feed AvailUnknown) (c_unknown c) (c_seenUnknown c);
  cs_excluded : class_ok (feed AvailExcluded) (c_excluded c) (c_seenExcluded c);
  cs_overflow : c_overflow c = missed (c_bad c) (c_seenBad c)
    + missed (c_unknown c) (c_seenUnknown c) + missed (c_excluded c) (c_seenExcluded c);
}.

(** Offer [ms] to the class of verdict [a]. *)
Definition addClass (a : Availability) (c : causeSet) (ms : list MemberCause) : causeSet :=
  match a with
  | AvailBad => addBad c ms
  | AvailUnknown => addUnknown c ms
  | AvailExcluded => addExcluded c ms
  | AvailGood => c
  end.

Definition offer (feed : Availability -> list MemberCause) (a : Availability)
    (ms : list MemberCause) : Availability -> list MemberCause :=
  fun a' => if bool_decide (a' = a) then feed a' ++ ms else feed a'.

Lemma addClass_ok feed c a ms : causes_ok feed c -> causes_ok (offer feed a ms) (addClass a c ms).
Proof.
  intros [Hb Hu Hx Ho].
  destruct a; cbn [addClass]; unfold addBad, addUnknown, addExcluded.
  - pose proof (addCauses_ok ms _ _ _ (c_overflow c) Hu) as H.
    destruct (addCauses _ _ _ ms) as [[dst seen] ov]. destruct H as [H H'].
    split; cbn; [done|done|done|lia].
  - split; cbn; done.
  - pose proof (addCauses_ok ms _ _ _ (c_overflow c) Hb) as H.
    destruct (addCauses _ _ _ ms) as [[dst seen] ov]. destruct H as [H H'].
    split; cbn; [done|done|done|lia].
  - pose proof (addCauses_ok ms _ _ _ (c_overflow c) Hx) as H.
    destruct (addCauses _ _ _ ms) as [[dst seen] ov]. destruct H as [H H'].
    split; cbn; [done|done|done|lia].
Qed.

Lemma recordCauses_addClass a c tallies :
  recordCauses c a tallies = foldl (fun c tl => addClass a c (tallyCauses a tl)) c tallies.
Proof.
  destruct a; cbn; try done. revert c. induction tallies; intros c; cbn; done.
Qed.

Lemma causes_ok_ext feed1 feed2 c :
  (forall a, feed1 a = feed2 a) -> causes_ok feed1 c -> causes_ok feed2 c.
Proof. intros He [Hb Hu Hx Ho]. rewrite !He in *. by split. Qed.

Lemma recordCauses_ok feed c a tallies :
  causes_ok feed c -> causes_ok (offer feed a (flat_map (tallyCauses a) tallies)) (recordCauses c a tallies).
Proof.
  rewrite recordCauses_addClass. revert feed c.
  induction tallies as [|tl tallies IH]; intros feed c Hok; cbn [foldl flat_map].
  - eapply causes_ok_ext; [|exact Hok]. intros a'. unfold offer.
    case_bool_decide; by rewrite ?app_nil_r.
  - eapply causes_ok_ext; [|apply IH, addClass_ok, Hok]. intros a'. unfold offer.
    case_bool_decide; by rewrite ?app_assoc.
Qed.

Section provenance.
Context (inp : Input).
Hypothesis Hlen : in_Start inp < in_End inp <= in_Start inp + int64_max.
Notation series := (buildSeries (in_Members inp) (in_Observations inp)).

(** The causes offered to class [a] at the breakpoint [t]. *)
Definition causesAt (a : Availability) (t : Time) : list MemberCause :=
  if hasAvail a (outcomeAt inp t) then flat_map (tallyCauses a) (talliesAt inp t) else [].

Lemma reduceLoop_causes points st feed :
  suffix_ok inp points -> causes_ok feed (l_causes st) ->
  causes_ok (fun a => feed a ++ flat_map (causesAt a) points)
    (l_causes (reduceLoop series inp points st)).
Proof.
  revert st feed. induction points as [|t points IH]; intros st feed Hok Hc.
  - cbn. eapply causes_ok_ext; [|exact Hc]. intros a. by rewrite app_nil_r.
  - rewrite reduceLoop_cons, reduceStep_exact by done.
    eapply causes_ok_ext; [|apply IH; [by eapply suffix_ok_tail|apply recordCauses_ok, Hc]].
    intros a. cbn [flat_map]. unfold offer, causesAt at 2, hasAvail.
    rewrite (bool_decide_ext (o_Availability (outcomeAt inp t) = a)
               (a = o_Availability (outcomeAt inp t))) by (split; congruence).
    case_bool_decide as E; [rewrite <- E|]; cbn [app]; by rewrite ?app_assoc.
Qed.

Lemma final_causes :
  causes_ok (fun a => flat_map (causesAt a) (bucketPoints inp)) (l_causes (finalLoop inp)).
Proof.
  apply (reduceLoop_causes (bucketPoints inp) initLoop (fun _ => [])); [by apply bucketPoints_ok|].
  split; try done; split; cbn;
    first [done | apply NoDup_nil_2 | unfold MaxCauses; lia | set_solver].
Qed.

(** Every instant of the bucket has the census of some breakpoint. *)
Lemma point_of u :
  in_Start inp <= u < in_End inp ->
  exists t, t ∈ bucketPoints inp /\ talliesAt inp u = talliesAt inp t.
Proof.
  intros Hu. pose proof (bucketPoints_ok inp Hlen) as Hok.
  enough (forall points, suffix_ok inp points -> nextPoint inp points <= u ->
            exists t, t ∈ points /\ talliesAt inp u = talliesAt inp t) as H.
  { apply H; [done|]. rewrite nextPoint_bucket by done. lia. }
  clear Hok. intros points. induction points as [|t points IH]; intros Hok Hle; [cbn in Hle; lia|].
  destruct (suffix_ok_next inp Hlen t points Hok) as (Ht & Hn & Hconst). cbn in Hle.
  destruct (decide (nextPoint inp points <= u)) as [Hge|Hlt].
  - destruct (IH (suffix_ok_tail inp Hlen _ _ Hok) Hge) as (x & Hx & Hx'). exists x. set_solver.
  - exists t. split; [set_solver|]. apply Hconst. lia.
Qed.

Lemma elem_of_causesAt a t m :
  m ∈ causesAt a t <->
  o_Availability (outcomeAt inp t) = a /\
  exists s, s ∈ series /\ contributes (in_Policies inp) (in_Maintenance inp) t a s = true /\
            m = causeFor (in_Policies inp) (in_Maintenance inp) t a s.
Proof.
  rewrite <- elem_of_tallyCauses. unfold causesAt, hasAvail. case_bool_decide as E.
  - rewrite elem_of_flat_map. naive_solver.
  - set_solver.
Qed.
End provenance.

Definition provField (a : Availability) (p : Provenance) : list MemberCause :=
  match a with
  | AvailBad => p_Bad p | AvailUnknown => p_Unknown p
  | AvailExcluded => p_Excluded p | AvailGood => []
  end.

(** provenance is bounded, sound and complete.  Each class names at most [MaxCauses]
    distinct members; each named member really contributed that verdict at an instant of
    the bucket at which the service had it; and when [Overflow] is zero, every member
    that contributed to the verdict at any instant of the bucket is named (the overflow
    counter is otherwise positive, so nothing is dropped silently). *)
Theorem Reduce_provenance inp b
  (Hlen : in_Start inp < in_End inp <= in_Start inp + int64_max)
  (Hne : in_Members inp <> []) (Hb : Reduce inp = Ok b) :
  let pol := in_Policies inp in
  let spans := in_Maintenance inp in
  let series := buildSeries (in_Members inp) (in_Observations inp) in
  let prov := b_Provenance b in
  0 <= p_Overflow prov /\
  forall a,
    (length (provField a prov) <= MaxCauses)%nat /\
    NoDup (map causeKey (provField a prov)) /\
    (forall m, m ∈ provField a prov ->
       exists t s, in_Start inp <= t < in_End inp /\ s ∈ series /\
         o_Availability (pointOutcome inp t) = a /\
         contributes pol spans t a s = true /\ m = causeFor pol spans t a s) /\
    (p_Overflow prov = 0 -> forall t s, in_Start inp <= t < in_End inp -> s ∈ series ->
       o_Availability (pointOutcome inp t) = a -> contributes pol spans t a s = true ->
       exists m, m ∈ provField a prov /\ causeKey m = causeKey (causeFor pol spans t a s)).
Proof.
  intros pol spans series prov. unfold prov. rewrite Reduce_Ok in Hb by done. injection Hb as <-.
  cbn [b_Provenance p_Overflow].
  pose proof (final_causes inp Hlen) as [Hcb Hcu Hcx Ho].
  pose proof (missed_nonneg _ _ _ Hcb). pose proof (missed_nonneg _ _ _ Hcu).
  pose proof (missed_nonneg _ _ _ Hcx). split; [lia|].
  assert (forall a feed dst seen,
    class_ok feed dst seen -> feed = flat_map (causesAt inp a) (bucketPoints inp) ->
    (length dst <= MaxCauses)%nat /\ NoDup (map causeKey dst) /\
    (forall m, m ∈ dst -> exists t s, in_Start inp <= t < in_End inp /\ s ∈ series /\
         o_Availability (pointOutcome inp t) = a /\
         contributes pol spans t a s = true /\ m = causeFor pol spans t a s) /\
    (missed dst seen = 0 -> forall t s, in_Start inp <= t < in_End inp -> s ∈ series ->
       o_Availability (pointOutcome inp t) = a -> contributes pol spans t a s = true ->
       exists m, m ∈ dst /\ causeKey m = causeKey (causeFor pol spans t a s))) as Hclass.
  { intros a feed dst seen Hc ->. pose proof Hc as [Hs Hsub Hnd Hbd]. split_and!; [done|done|..].
    - intros m (t & Ht & Hm)%Hsub%elem_of_flat_map.
      apply (elem_of_causesAt inp Hlen) in Hm as (Ha & s & Hss & Hcon & ->).
      exists t, s. rewrite outcomeAt_StateAt in Ha by done.
      pose proof (so_range _ _ (bucketPoints_ok inp Hlen) t Ht). done.
    - intros Hm t s Ht Hss Ha Hcon.
      destruct (point_of inp Hlen t Ht) as (t' & Ht' & Htal).
      assert (causeFor pol spans t a s ∈ causesAt inp a t') as Hin.
      { unfold causesAt, outcomeAt. rewrite <- Htal. fold (outcomeAt inp t). fold (causesAt inp a t).
        apply (elem_of_causesAt inp Hlen). rewrite outcomeAt_StateAt by done. split; [done|]. eauto. }
      pose proof (class_complete _ _ _ (causeFor pol spans t a s) Hc Hm) as Hk.
      rewrite list_elem_of_fmap in Hk. destruct Hk as (m & Hk & Hmd); [|by exists m].
      apply elem_of_flat_map. eauto. }
  intros a. destruct a; cbn [provField p_Bad p_Unknown p_Excluded].
  - destruct (Hclass AvailUnknown _ _ _ Hcu eq_refl) as (Hl & Hn & Hso & Hco).
    split_and!; [done..|]. intros Hz. apply Hco. lia.
  - split_and!; [cbn; lia|constructor|set_solver|done].
  - destruct (Hclass AvailBad _ _ _ Hcb eq_refl) as (Hl & Hn & Hso & Hco).
    split_and!; [done..|]. intros Hz. apply Hco. lia.
  - destruct (Hclass AvailExcluded _ _ _ Hcx eq_refl) as (Hl & Hn & Hso & Hco).
    split_and!; [done..|]. intros Hz. apply Hco. lia.
Qed.

Example Reduce_provenance_witness :
  let series := buildSeries (in_Members demoInput) (in_Observations demoInput) in
  p_Unknown (b_Provenance demoBucket) <> [] /\
  exists m, m ∈ p_Unknown (b_Provenance demoBucket) /\
    forall s, series !! 1%nat = Some s ->
    causeKey m = causeKey (causeFor demoPolicy [] (1250 * Second) AvailUnknown s).
Proof.
  intros series. split; [discriminate|].
  destruct (Reduce_provenance demoInput demoBucket demoInput_length ltac:(discriminate)
    Reduce_demoBucket) as [_ H].
  destruct (H AvailUnknown) as (_ & _ & _ & Hc).
  destruct (series !! 1%nat) as [s|] eqn:Es; [|discriminate].
  destruct (Hc eq_refl (1250 * Second) s) as (m & Hm & Hk).
  - split; [discriminate|reflexivity].
  - by eapply list_elem_of_lookup_2.
  - vm_compute. reflexivity.
  - injection Es as <-. vm_compute. reflexivity.
  - exists m. split; [exact Hm|]. intros s' [= <-]. exact Hk.
Defined.

(** ** Weakened thresholds *)

(** A weakening record states the clamp of its own eligible count. *)
Definition clamp_of (a : AggregationPolicy) (w : Weakened) : Prop :=
  w_EffectiveDegraded w = Z.min (DegradedMin a) (w_Eligible w) /\
  w_EffectiveHealthy w = Z.min (HealthyMin a) (w_Eligible w).

Definition wider (x w : Weakened) : Prop :=
  w_Region x = w_Region w /\ w_EffectiveDegraded x <= w_EffectiveDegraded w /\
  w_EffectiveHealthy x <= w_EffectiveHealthy w.

(** The records kept after merging the reported ones. *)
Record weakened_ok (a : AggregationPolicy) (reported kept : list Weakened) : Prop := {
  wo_sub : forall w, w ∈ kept -> w ∈ reported;
  wo_clamp : forall w, w ∈ kept -> clamp_of a w;
  wo_nodup : NoDup (map w_Region kept);
  wo_widest : forall w, w ∈ reported -> exists x, x ∈ kept /\ wider x w;
}.

Lemma mergeOne_ok a kept w :
  clamp_of a w -> (forall x, x ∈ kept -> clamp_of a x) -> NoDup (map w_Region kept) ->
  (forall x, x ∈ mergeOne kept w -> x = w \/ x ∈ kept) /\
  (forall r, r ∈ map w_Region (mergeOne kept w) <-> r = w_Region w \/ r ∈ map w_Region kept) /\
  NoDup (map w_Region (mergeOne kept w)) /\
  (exists x, x ∈ mergeOne kept w /\ wider x w) /\
  (forall y, y ∈ kept -> exists x, x ∈ mergeOne kept w /\ wider x y).
Proof.
  intros Hw. induction kept as [|k kept IH]; intros Hc Hnd.
  - cbn. split_and!; [set_solver|set_solver|apply NoDup_singleton| |set_solver].
    exists w. split; [set_solver|]. split_and!; (done || lia).
  - apply list.NoDup_cons in Hnd as [Hk Hnd]. cbn [mergeOne].
    destruct (decide (w_Region k = w_Region w)) as [Hr|Hr].
    + rewrite bool_decide_eq_true_2 by done. cbn [negb].
      assert (clamp_of a k) as Hck by (apply Hc; set_solver). destruct Hw as [Hw1 Hw2], Hck as [Hk1 Hk2].
      destruct (_ || _) eqn:E.
      * assert (wider w k) as Hwk.
        { split; [done|]. apply orb_true_iff in E as [E|E]; bool_facts; lia. }
        split_and!; [set_solver|cbn; set_solver|cbn; rewrite <- Hr; by apply list.NoDup_cons|..].
        -- exists w. split; [set_solver|]. split_and!; (done || lia).
        -- intros y [->|Hy]%elem_of_cons; [exists w; set_solver|].
           exists y. split; [set_solver|]. split_and!; (done || lia).
      * bool_facts. split_and!; [set_solver|cbn; set_solver|cbn; by apply list.NoDup_cons|..].
        -- exists k. split; [set_solver|]. split_and!; (done || lia).
        -- intros y Hy. exists y. split; [done|]. split_and!; (done || lia).
    + rewrite bool_decide_eq_false_2 by done. cbn [negb].
      destruct IH as (H1 & H2 & H3 & (x & Hx & Hxw) & H5); [set_solver|done|].
      split_and!.
      * set_solver.
      * intros r. cbn. rewrite !elem_of_cons, H2. tauto.
      * cbn. apply list.NoDup_cons. split; [|done]. rewrite H2. intros [?|?]; [congruence|done].
      * exists x. set_solver.
      * intros y [->|Hy]%elem_of_cons.
        -- exists k. split; [set_solver|]. split_and!; (done || lia).
        -- destruct (H5 y Hy) as (z & Hz & Hzy). exists z. set_solver.
Qed.

Lemma wider_trans x y z : wider x y -> wider y z -> wider x z.
Proof. unfold wider. intros (? & ? & ?) (? & ? & ?). split_and!; (congruence || lia). Qed.

Lemma mergeWeakened_ok a ws reported kept :
  (forall w, w ∈ ws -> clamp_of a w) -> weakened_ok a reported kept ->
  weakened_ok a (reported ++ ws) (mergeWeakened kept ws).
Proof.
  unfold mergeWeakened. revert reported kept.
  induction ws as [|w ws IH]; intros reported kept Hws Hok; cbn [foldl]; [by rewrite app_nil_r|].
  replace (reported ++ w :: ws) with ((reported ++ [w]) ++ ws) by (by rewrite <- app_assoc).
  apply IH; [set_solver|]. destruct Hok as [Hsub Hcl Hnd Hwide].
  destruct (mergeOne_ok a kept w) as (H1 & H2 & H3 & H4 & H5); [set_solver..|].
  split; [set_solver| |done|].
  - intros x [->|Hx]%H1; [apply Hws; set_solver|by apply Hcl].
  - intros y [Hy| ->%list_elem_of_singleton]%elem_of_app; [|done].
    destruct (Hwide y Hy) as (z & Hz & Hzy). destruct (H5 z Hz) as (x & Hx & Hxz).
    exists x. split; [done|]. by eapply wider_trans.
Qed.

Lemma aggregate_clamp tallies p w :
  w ∈ o_Weakened (aggregate tallies p) -> clamp_of (Aggregation p) w.
Proof.
  assert (w ∈ omap (fun v => v.2) (map (fun t => aggregateRegion t p) tallies) ->
          clamp_of (Aggregation p) w) as H.
  { intros (v & (t & -> & _)%list_elem_of_fmap & Hv)%list_elem_of_omap.
    unfold aggregateRegion in Hv.
    assert (quorumWeakened t (Aggregation p) (eligible t) = Some w) as Hq
      by (cbv zeta in Hv; break_hyp; cbn [snd] in Hv; first [discriminate Hv | exact Hv]).
    clear Hv. unfold quorumWeakened in Hq. cbv zeta in Hq. break_hyp. by injection Hq as <-. }
  unfold aggregate. destruct tallies as [|tl tallies]; [set_solver|].
  cbv zeta. break_goal; exact H.
Qed.

Section weakened.
Context (inp : Input).
Hypothesis Hlen : in_Start inp < in_End inp <= in_Start inp + int64_max.
Notation series := (buildSeries (in_Members inp) (in_Observations inp)).

Lemma reduceLoop_weakened points st reported :
  suffix_ok inp points -> weakened_ok (Aggregation (in_Policies inp)) reported (l_weakened st) ->
  weakened_ok (Aggregation (in_Policies inp))
    (reported ++ flat_map (fun t => o_Weakened (outcomeAt inp t)) points)
    (l_weakened (reduceLoop series inp points st)).
Proof.
  revert st reported. induction points as [|t points IH]; intros st reported Hok Hw.
  - cbn. by rewrite app_nil_r.
  - rewrite reduceLoop_cons, reduceStep_exact by done. cbn [flat_map]. rewrite app_assoc.
    apply IH; [by eapply suffix_ok_tail|]. apply mergeWeakened_ok; [|done].
    intros w. apply aggregate_clamp.
Qed.

Lemma final_weakened :
  weakened_ok (Aggregation (in_Policies inp))
    (flat_map (fun t => o_Weakened (outcomeAt inp t)) (bucketPoints inp))
    (l_weakened (finalLoop inp)).
Proof.
  apply (reduceLoop_weakened (bucketPoints inp) initLoop []); [by apply bucketPoints_ok|].
  split; cbn; [set_solver|set_solver|apply NoDup_nil_2|set_solver].
Qed.
End weakened.

(** the weakened-threshold record of a bucket has one entry per region, each entry was
    in force at some instant of the bucket, and it is the widest: at every instant, every
    clamp in force in a region is bounded below on both thresholds by that region's entry. *)
Theorem Reduce_weakened inp b
  (Hlen : in_Start inp < in_End inp <= in_Start inp + int64_max)
  (Hne : in_Members inp <> []) (Hb : Reduce inp = Ok b) :
  let kept := p_Weakened (b_Provenance b) in
  NoDup (map w_Region kept) /\
  (forall w, w ∈ kept -> exists t, in_Start inp <= t < in_End inp /\
                                   w ∈ o_Weakened (pointOutcome inp t)) /\
  (forall t w, in_Start inp <= t < in_End inp -> w ∈ o_Weakened (pointOutcome inp t) ->
     exists x, x ∈ kept /\ wider x w).
Proof.
  rewrite Reduce_Ok in Hb by done. injection Hb as <-. cbv zeta. cbn [b_Provenance p_Weakened].
  destruct (final_weakened inp Hlen) as [Hsub _ Hnd Hw]. split; [done|]. split.
  - intros w (t & Ht & Hin)%Hsub%elem_of_flat_map. exists t. split.
    + apply (so_range _ _ (bucketPoints_ok inp Hlen) t Ht).
    + by rewrite outcomeAt_StateAt in Hin.
  - intros t w Ht Hin. apply Hw. destruct (point_of inp Hlen t Ht) as (t' & Ht' & Htal).
    apply elem_of_flat_map. exists t'. split; [done|]. unfold outcomeAt. rewrite <- Htal.
    fold (outcomeAt inp t). by rewrite outcomeAt_StateAt.
Qed.

(** A bucket in which one of two members is disabled: the quorum of two is clamped. *)
Definition weakInput : Input :=
  {| in_Start := 1200 * Second; in_End := 1260 * Second;
     in_Members := [demoMember "a" "eu" true; demoMember "b" "eu" false];
     in_Observations := [demoObservation "a" (1190 * Second) true];
     in_Maintenance := []; in_Policies := demoPolicy |}.

Definition weakBucket : Bucket :=
  Eval vm_compute in
  match Reduce weakInput with Ok b => b | Err _ => demoBucket end.

Example Reduce_weakened_witness :
  exists x, x ∈ p_Weakened (b_Provenance weakBucket) /\
    (w_Region x, w_EffectiveHealthy x, w_DeclaredHealthyMin x) = ("eu", 1, 2).
Proof.
  destruct (Reduce_weakened weakInput weakBucket ltac:(split; [reflexivity|discriminate])
    ltac:(discriminate) ltac:(vm_compute; reflexivity)) as (_ & Hs & Hw).
  destruct (Hw (1210 * Second) (default
    {| w_Region := ""; w_Declared := 0; w_Eligible := 0; w_ExcludedDisabled := 0;
       w_ExcludedMaintenance := 0; w_Ignored := 0; w_DeclaredDegradedMin := 0;
       w_DeclaredHealthyMin := 0; w_EffectiveDegraded := 0; w_EffectiveHealthy := 0 |}
    (head (o_Weakened (pointOutcome weakInput (1210 * Second)))))) as (x & Hx & _).
  - split; [discriminate|reflexivity].
  - vm_compute. left.
  - exists x. split; [exact Hx|]. apply elem_of_cons in Hx as [->|Hx]; [reflexivity|].
    by apply not_elem_of_nil in Hx.
Defined.
