(* ===== verification/ReduceExt.v ===== *)
(** * The reducer reads nothing but the states

    Splitting a sub-interval in two does not change what the loop of
    [internal/reliability/reduce.go] accumulates; hence [Reduce] is a function of the states of
    the members over the bucket, whatever observations produced them. *)

From S2P Require Import Prelude ServicePolicy Effective Aggregate Reduce.

(** ** Recording a sub-interval twice *)

Lemma addCause_seen acc m m' : causeKey m ∈ acc.1.2 -> causeKey m ∈ (addCause acc m').1.2.
Proof. destruct acc as [[dst seen] ov]. unfold addCause. simpl. repeat case_match; set_solver. Qed.

Lemma addCause_own acc m : causeKey m ∈ (addCause acc m).1.2.
Proof.
  destruct acc as [[dst seen] ov]. unfold addCause.
  case_bool_decide; [done|]. case_match; set_solver.
Qed.

Lemma addCauses_seen ms dst seen ov :
  seen ⊆ (addCauses dst seen ov ms).1.2 /\ forall m, m ∈ ms -> causeKey m ∈ (addCauses dst seen ov ms).1.2.
Proof.
  unfold addCauses. change seen with (dst, seen, ov).1.2 at 1. generalize (dst, seen, ov) as acc.
  induction ms as [|m ms IH]; intros acc; simpl; [set_solver|].
  destruct (IH (addCause acc m)) as [Hle Hin]. split.
  - intros k Hk. apply Hle. destruct acc as [[d s] o]. unfold addCause. simpl in *. repeat case_match; set_solver.
  - intros x [->|Hx]%elem_of_cons; [apply Hle, addCause_own|by apply Hin].
Qed.

Lemma addCauses_noop ms dst seen ov :
  (forall m, m ∈ ms -> causeKey m ∈ seen) -> addCauses dst seen ov ms = (dst, seen, ov).
Proof.
  unfold addCauses. induction ms as [|m ms IH]; intros H; [done|]. simpl.
  rewrite bool_decide_eq_true_2 by (apply H; set_solver). apply IH. set_solver.
Qed.

(** The keys a class of a cause set has seen. *)
Definition seenOf (a : Availability) (c : causeSet) : gset string :=
  match a with
  | AvailBad => c_seenBad c | AvailUnknown => c_seenUnknown c | AvailExcluded => c_seenExcluded c
  | AvailGood => ∅
  end.

Lemma addClass_seen a c ms :
  seenOf a c ⊆ seenOf a (addClass a c ms) /\
  (a <> AvailGood -> forall m, m ∈ ms -> causeKey m ∈ seenOf a (addClass a c ms)).
Proof.
  destruct (decide (a = AvailGood)) as [->|Ha]; [done|].
  destruct a; try done; cbn [addClass seenOf]; unfold addBad, addUnknown, addExcluded.
  all: match goal with |- context [addCauses ?d ?s ?o ?l] =>
         destruct (addCauses_seen l d s o) as [Hle Hin];
         destruct (addCauses d s o l) as [[d1 s1] o1] end; simpl in *; auto.
Qed.

Lemma addClass_noop a c ms :
  a <> AvailGood -> (forall m, m ∈ ms -> causeKey m ∈ seenOf a c) -> addClass a c ms = c.
Proof.
  intros Ha H. destruct a; try done; cbn [addClass seenOf] in *;
    unfold addBad, addUnknown, addExcluded; rewrite addCauses_noop by done; by destruct c.
Qed.

Lemma recordCauses_seen a c tallies :
  seenOf a c ⊆ seenOf a (recordCauses c a tallies) /\
  (a <> AvailGood -> forall tl m, tl ∈ tallies -> m ∈ tallyCauses a tl ->
     causeKey m ∈ seenOf a (recordCauses c a tallies)).
Proof.
  rewrite recordCauses_addClass. revert c.
  induction tallies as [|tl tallies IH]; intros c; simpl; [set_solver|].
  destruct (IH (addClass a c (tallyCauses a tl))) as [Hle Hin].
  destruct (addClass_seen a c (tallyCauses a tl)) as [Hle' Hin']. split; [set_solver|].
  intros Ha tl' m [->|Htl]%elem_of_cons Hm; [apply Hle, Hin'; done|by eapply Hin].
Qed.

Lemma recordCauses_noop a c tallies :
  a <> AvailGood -> (forall tl m, tl ∈ tallies -> m ∈ tallyCauses a tl -> causeKey m ∈ seenOf a c) ->
  recordCauses c a tallies = c.
Proof.
  intros Ha. rewrite recordCauses_addClass.
  induction tallies as [|tl tallies IH]; intros H; [done|]. simpl.
  rewrite addClass_noop; [|exact Ha|intros m Hm; apply (H tl m); [set_solver|done]].
  apply IH. intros tl' m Htl Hm. apply (H tl' m); [set_solver|done].
Qed.

Lemma recordCauses_twice a c tallies :
  recordCauses (recordCauses c a tallies) a tallies = recordCauses c a tallies.
Proof.
  destruct (decide (a = AvailGood)) as [->|Ha]; [done|].
  apply recordCauses_noop; [done|]. intros tl m Htl Hm.
  by apply (proj2 (recordCauses_seen a c tallies) Ha tl m).
Qed.

(** Weakened thresholds: a record that was merged stays merged. *)
Definition absorbed (acc : list Weakened) (w : Weakened) : Prop := mergeOne acc w = acc.

Lemma mergeOne_absorbs acc w : absorbed (mergeOne acc w) w.
Proof.
  unfold absorbed. induction acc as [|x acc IH]; simpl.
  - rewrite bool_decide_eq_true_2 by done. simpl. rewrite !Z.ltb_irrefl. done.
  - case_bool_decide as Hr; simpl.
    + destruct (_ || _) eqn:E; simpl.
      * rewrite bool_decide_eq_true_2 by done. simpl. by rewrite !Z.ltb_irrefl.
      * rewrite bool_decide_eq_true_2 by done. simpl. by rewrite E.
    + rewrite bool_decide_eq_false_2 by done. simpl. by rewrite IH.
Qed.

Lemma mergeOne_keeps acc v w :
  w_Region v <> w_Region w -> absorbed acc w -> absorbed (mergeOne acc v) w.
Proof.
  unfold absorbed. intros Hne. induction acc as [|x acc IH]; simpl; [intros [=]|].
  destruct (decide (w_Region x = w_Region w)) as [Hxw|Hxw].
  - rewrite (bool_decide_eq_true_2 _ Hxw). simpl. intros H.
    rewrite (bool_decide_eq_false_2 (w_Region x = w_Region v)) by congruence. simpl.
    rewrite (bool_decide_eq_true_2 _ Hxw). simpl.
    destruct (_ || _); [|done]. injection H as ->. done.
  - rewrite (bool_decide_eq_false_2 _ Hxw). simpl. intros [= H].
    destruct (decide (w_Region x = w_Region v)) as [Hxv|Hxv].
    + rewrite (bool_decide_eq_true_2 _ Hxv). simpl. destruct (_ || _); simpl.
      * rewrite bool_decide_eq_false_2 by done. simpl. by rewrite H.
      * rewrite bool_decide_eq_false_2 by done. simpl. by rewrite H.
    + rewrite (bool_decide_eq_false_2 _ Hxv). simpl. rewrite bool_decide_eq_false_2 by done. simpl.
      by rewrite IH.
Qed.

Lemma mergeWeakened_keeps ws acc w :
  w_Region w ∉ map w_Region ws -> absorbed acc w -> absorbed (mergeWeakened acc ws) w.
Proof.
  unfold mergeWeakened. revert acc. induction ws as [|v ws IH]; intros acc Hw Ha; [done|]. simpl.
  cbn in Hw. rewrite not_elem_of_cons in Hw. destruct Hw as [Hv Hw].
  apply IH; [done|]. by apply mergeOne_keeps.
Qed.

Lemma mergeWeakened_absorbs ws acc :
  NoDup (map w_Region ws) -> forall w, w ∈ ws -> absorbed (mergeWeakened acc ws) w.
Proof.
  revert acc. induction ws as [|v ws IH]; intros acc Hnd w Hw; [set_solver|].
  apply list.NoDup_cons in Hnd as [Hv Hnd]. change (mergeWeakened acc (v :: ws)) with (mergeWeakened (mergeOne acc v) ws).
  apply elem_of_cons in Hw as [->|Hw]; [|by apply IH].
  apply mergeWeakened_keeps; [done|]. apply mergeOne_absorbs.
Qed.

Lemma mergeWeakened_twice ws acc :
  NoDup (map w_Region ws) -> mergeWeakened (mergeWeakened acc ws) ws = mergeWeakened acc ws.
Proof.
  intros Hnd. pose proof (mergeWeakened_absorbs ws acc Hnd) as H.
  generalize dependent (mergeWeakened acc ws). intros acc' H. clear Hnd.
  unfold mergeWeakened. induction ws as [|w ws IH]; [done|]. simpl.
  rewrite (H w) by set_solver. apply IH. set_solver.
Qed.

Lemma aggregate_weakened_regions series spans p t :
  NoDup (map w_Region (o_Weakened (aggregate (censusAt series spans p t) p))).
Proof.
  assert (NoDup (map t_region (censusAt series spans p t))) as Hnd.
  { rewrite censusAt_tallies, !map_map.
    rewrite (map_ext (fun r => t_region (finalTally p spans t series r)) (fun r => r))
      by (intros r; apply finalTally_counts).
    rewrite map_id, merge_sort_Permutation. apply census_order. }
  generalize dependent (censusAt series spans p t). intros tallies Hnd.
  assert (NoDup (map w_Region (omap (fun v => v.2) (map (fun t => aggregateRegion t p) tallies)))) as H.
  { clear series spans t. induction tallies as [|tl tallies IH]; [constructor|].
    apply list.NoDup_cons in Hnd as [Htl Hnd]. specialize (IH Hnd). cbn [map].
    assert (forall w, (aggregateRegion tl p).2 = Some w -> w_Region w = t_region tl) as Hreg.
    { intros w. unfold aggregateRegion, quorumWeakened. cbv zeta. repeat case_match; simpl; naive_solver. }
    cbn. destruct ((aggregateRegion tl p).2) as [w|] eqn:E; [|exact IH]. cbn.
    apply list.NoDup_cons. split; [|exact IH]. rewrite (Hreg w eq_refl). intros Hin. apply Htl.
    clear -Hin. apply list_elem_of_fmap in Hin as (w' & -> & (v & (tl' & -> & Htl')%list_elem_of_fmap & Hv)%list_elem_of_omap).
    apply list_elem_of_fmap. exists tl'. split; [|done].
    unfold aggregateRegion, quorumWeakened in Hv. cbv zeta in Hv. repeat case_match; simpl in *; naive_solver. }
  unfold aggregate. destruct tallies; [constructor|]. cbv zeta. repeat case_match; exact H.
Qed.

Lemma add64_split a s1 s2 : add64 (add64 a s1) s2 = add64 a (s1 + s2).
Proof. rewrite add64_add64. unfold add64. f_equal. lia. Qed.

Lemma Durations_add_split d o s1 s2 :
  Durations_add (Durations_add d o s1) o s2 = Durations_add d o (s1 + s2).
Proof.
  destruct d, o as [ov oh ow]. unfold Durations_add. simpl.
  destruct ov, oh; simpl; by rewrite ?add64_split.
Qed.

(** ** Splitting a sub-interval *)
Section split.
Context (inp : Input).
Hypothesis Hlen : in_Start inp < in_End inp <= in_Start inp + int64_max.
Notation series := (buildSeries (in_Members inp) (in_Observations inp)).

Lemma suffix_ok_split a x points :
  suffix_ok inp (a :: points) -> a < x < nextPoint inp points -> suffix_ok inp (a :: x :: points).
Proof.
  intros Hok Hx. destruct (suffix_ok_next inp Hlen _ _ Hok) as (Ha & Hn & Hc). destruct Hok as [Hs Hr Hconst].
  apply StronglySorted_inv in Hs as [Hs Hall]. rewrite Forall_forall in Hall.
  assert (forall y, y ∈ points -> x < y) as Hxp.
  { intros y Hy. destruct points as [|n points]; [set_solver|]. simpl in Hx.
    apply StronglySorted_inv in Hs as [_ Hs]. rewrite Forall_forall in Hs.
    apply elem_of_cons in Hy as [->|Hy]; [lia|]. apply list_elem_of_In, Hs in Hy. lia. }
  split.
  - constructor; [constructor; [done|]|constructor; [lia|by apply Forall_forall]].
    apply Forall_forall. intros y Hy%list_elem_of_In. by apply Hxp.
  - intros t [->|[->|Ht]%elem_of_cons]%elem_of_cons; [apply Hr; set_solver|lia|apply Hr; set_solver].
  - intros t u Ht Hu Hno.
    assert (t = x \/ t ∈ a :: points) as [->|Hin] by set_solver; [|apply Hconst; [done|done|intros y Hy; apply Hno; set_solver]].
    assert (u < nextPoint inp points) as Hun.
    { destruct points as [|n points]; simpl in *; [lia|]. destruct (Hno n) as [Hle|]; [set_solver|lia|done]. }
    rewrite (Hc u), (Hc x) by lia. done.
Qed.

Lemma reduceLoop_split a x points st :
  suffix_ok inp (a :: points) -> a < x < nextPoint inp points ->
  reduceLoop series inp (a :: x :: points) st = reduceLoop series inp (a :: points) st.
Proof.
  intros Hok Hx. pose proof (suffix_ok_split _ _ _ Hok Hx) as Hok'.
  destruct (suffix_ok_next inp Hlen _ _ Hok) as (_ & _ & Hc).
  rewrite !reduceLoop_cons. f_equal.
  rewrite (reduceStep_exact inp Hlen st a points Hok).
  rewrite (reduceStep_exact inp Hlen st a (x :: points) Hok').
  rewrite (reduceStep_exact inp Hlen _ x points) by (by eapply suffix_ok_tail).
  assert (talliesAt inp x = talliesAt inp a) as Heq by (apply Hc; lia).
  assert (outcomeAt inp x = outcomeAt inp a) as Ho by (unfold outcomeAt; by rewrite Heq).
  rewrite Heq, Ho. simpl. f_equal.
  - rewrite Durations_add_split. f_equal. lia.
  - apply recordCauses_twice.
  - apply mergeWeakened_twice. apply aggregate_weakened_regions.
Qed.

(** Two lists of breakpoints that both cut the bucket into pieces of constant census. *)
Lemma reduceLoop_same n : forall P1 P2 a st,
  (length P1 + length P2 <= n)%nat -> suffix_ok inp (a :: P1) -> suffix_ok inp (a :: P2) ->
  reduceLoop series inp (a :: P1) st = reduceLoop series inp (a :: P2) st.
Proof.
  induction n as [|n IH]; intros P1 P2 a st Hn H1 H2.
  { destruct P1, P2; simpl in *; (done || lia). }
  pose proof (suffix_ok_next inp Hlen _ _ H1) as (Ha1 & Hb1 & _).
  pose proof (suffix_ok_next inp Hlen _ _ H2) as (Ha2 & Hb2 & _).
  assert (forall x Q1 Q2, (length Q1 + length Q2 <= n)%nat -> suffix_ok inp (a :: x :: Q1) ->
            suffix_ok inp (a :: x :: Q2) ->
            reduceLoop series inp (a :: x :: Q1) st = reduceLoop series inp (a :: x :: Q2) st) as Hcons.
  { intros x Q1 Q2 HQ HQ1 HQ2. rewrite !(reduceLoop_cons inp st a).
    apply IH; [done|by eapply suffix_ok_tail..]. }
  destruct P1 as [|n1 P1]; destruct P2 as [|n2 P2]; simpl in Hn, Ha1, Ha2, Hb1, Hb2; [done| | |].
  - pose proof (so_range inp _ H2 n2 ltac:(set_solver)) as Hr.
    rewrite <- (reduceLoop_split a n2 [] st H1) by (simpl; lia).
    apply Hcons; [simpl; lia|apply suffix_ok_split; [done|simpl; lia]|done].
  - pose proof (so_range inp _ H1 n1 ltac:(set_solver)) as Hr.
    rewrite <- (reduceLoop_split a n1 [] st H2) by (simpl; lia).
    apply Hcons; [simpl; lia|done|apply suffix_ok_split; [done|simpl; lia]].
  - destruct (Z.lt_trichotomy n1 n2) as [Hlt|[->|Hlt]].
    + rewrite <- (reduceLoop_split a n1 (n2 :: P2) st H2) by (simpl; lia).
      apply Hcons; [simpl; lia|done|apply suffix_ok_split; [done|simpl; lia]].
    + apply Hcons; [lia|done|done].
    + rewrite <- (reduceLoop_split a n2 (n1 :: P1) st H1) by (simpl; lia).
      apply Hcons; [simpl; lia|apply suffix_ok_split; [done|simpl; lia]|done].
Qed.
End split.

(** ** The census reads the members and their states *)
Section census.
Context (ex : bool) (p : ServicePolicies) (t : Time).

Definition same_state (spans1 spans2 : list MaintenanceSpan) (s1 s2 : memberSeries) : Prop :=
  s_Member s1 = s_Member s2 /\ stateAt s1 t spans1 ex = stateAt s2 t spans2 ex.

Record same_census (c1 c2 : censusState) : Prop := {
  sc_byRegion : byRegion c1 = byRegion c2;
  sc_order : order c1 = order c2;
  sc_unknowns : map s_Member (unknowns c1) = map s_Member (unknowns c2);
}.

Lemma causeOf_member s1 s2 r : s_Member s1 = s_Member s2 -> causeOf s1 r = causeOf s2 r.
Proof. unfold causeOf. by intros ->. Qed.

Lemma tallyMember_member tl s1 s2 st :
  s_Member s1 = s_Member s2 -> tallyMember tl s1 st = tallyMember tl s2 st.
Proof.
  intros H. unfold tallyMember. rewrite !(causeOf_member _ _ _ H), H. done.
Qed.

Lemma censusStep_same spans1 spans2 c1 c2 s1 s2 :
  same_state spans1 spans2 s1 s2 -> same_census c1 c2 ->
  same_census (censusStep ex spans1 t c1 s1) (censusStep ex spans2 t c2 s2).
Proof.
  intros [Hm Hst] [Hb Ho Hu]. unfold censusStep. rewrite Hst, Hm, Hb, Ho. split; simpl; [|done|].
  - by rewrite (tallyMember_member _ _ _ _ Hm).
  - case_match; [rewrite !map_app, Hu; simpl; by rewrite Hm|done..].
Qed.

Lemma census_same spans1 spans2 l1 l2 c1 c2 :
  Forall2 (same_state spans1 spans2) l1 l2 -> same_census c1 c2 ->
  same_census (foldl (censusStep ex spans1 t) c1 l1) (foldl (censusStep ex spans2 t) c2 l2).
Proof.
  intros H. revert c1 c2. induction H as [|s1 s2 l1 l2 Hs _ IH]; intros c1 c2 Hc; [done|].
  simpl. by apply IH, censusStep_same.
Qed.

Lemma applyMissing_same mp us1 us2 m :
  map s_Member us1 = map s_Member us2 -> applyMissingData mp us1 m = applyMissingData mp us2 m.
Proof.
  intros H. unfold applyMissingData.
  assert (forall (f : memberSeries -> tally -> tally),
            (forall s1 s2 tl, s_Member s1 = s_Member s2 -> f s1 tl = f s2 tl) ->
            foldl (fun m s => alter (f s) (m_Region (s_Member s)) m) m us1
            = foldl (fun m s => alter (f s) (m_Region (s_Member s)) m) m us2) as Hf.
  { intros f Hext. revert us2 m H. induction us1 as [|s1 us1 IH]; intros [|s2 us2] m H; try done.
    cbn in H. injection H as Hs H. cbn. rewrite Hs.
    rewrite (alter_ext (f s1) (f s2)) by (intros; by apply Hext). by apply IH. }
  destruct mp; try done; apply Hf; intros s1 s2 tl Hs; unfold missingAsBad, missingIgnored;
    by rewrite ?(causeOf_member _ _ _ Hs).
Qed.
End census.

Lemma censusAt_same spans1 spans2 p t l1 l2 :
  Forall2 (same_state (maintenanceExcludes p) t spans1 spans2) l1 l2 ->
  censusAt l1 spans1 p t = censusAt l2 spans2 p t.
Proof.
  intros H. destruct (census_same _ _ _ _ _ _ initCensus initCensus H ltac:(done)) as [Hb Ho Hu].
  unfold censusAt. rewrite Ho, Hb. by rewrite (applyMissing_same _ _ _ _ Hu).
Qed.

(** ** Extensionality of the reducer *)

(** The series of one member of an input. *)
Definition seriesOf (m : Member) (obs : list Observation) : memberSeries :=
  {| s_Member := m;
     s_obs := merge_sort obs_le (default [] (groupObservations obs !! m_MonitorID m)) |}.

(** What a member's observations and the maintenance spans make of it at an instant. *)
Definition memberStateAt (inp : Input) (m : Member) (t : Time) : State * UnknownReason :=
  stateAt (seriesOf m (in_Observations inp)) t (in_Maintenance inp) (maintenanceExcludes (in_Policies inp)).

Record same_evaluation (inp1 inp2 : Input) : Prop := {
  sv_start : in_Start inp1 = in_Start inp2;
  sv_end : in_End inp1 = in_End inp2;
  sv_members : in_Members inp1 = in_Members inp2;
  sv_policies : in_Policies inp1 = in_Policies inp2;
  sv_states : forall m t, m ∈ in_Members inp1 -> in_Start inp1 <= t < in_End inp1 ->
    memberStateAt inp1 m t = memberStateAt inp2 m t;
}.

Section ext.
Context (inp1 inp2 : Input).
Hypothesis Hsame : same_evaluation inp1 inp2.
Hypothesis Hlen : in_Start inp1 < in_End inp1 <= in_Start inp1 + int64_max.

Lemma Hlen2 : in_Start inp2 < in_End inp2 <= in_Start inp2 + int64_max.
Proof. rewrite <- (sv_start _ _ Hsame), <- (sv_end _ _ Hsame). exact Hlen. Qed.

Lemma talliesAt_same t : in_Start inp1 <= t < in_End inp1 -> talliesAt inp1 t = talliesAt inp2 t.
Proof.
  intros Ht. destruct Hsame as [_ _ Hm Hp Hst]. unfold talliesAt. rewrite <- Hp. apply censusAt_same.
  unfold buildSeries. rewrite <- Hm.
  assert (forall ms, (forall m, m ∈ ms -> m ∈ in_Members inp1) ->
     Forall2 (same_state (maintenanceExcludes (in_Policies inp1)) t (in_Maintenance inp1) (in_Maintenance inp2))
       (map (fun m => seriesOf m (in_Observations inp1)) ms)
       (map (fun m => seriesOf m (in_Observations inp2)) ms)) as H; [|by apply H].
  intros ms. induction ms as [|m ms IH]; intros Hin; cbn; constructor; [|apply IH; set_solver].
  split; [done|]. pose proof (Hst m t ltac:(set_solver) Ht) as He.
  unfold memberStateAt in He. by rewrite <- Hp in He.
Qed.

Lemma suffix_ok_same points : suffix_ok inp2 points -> suffix_ok inp1 points.
Proof.
  destruct Hsame as [Hs He _ _ _]. intros [H1 H2 H3]. split; [done|by rewrite Hs, He|].
  intros t u Ht Hu Hno. specialize (H2 t Ht). rewrite <- Hs, <- He in H2. rewrite He in Hu.
  rewrite !talliesAt_same by lia. by apply H3.
Qed.

Lemma reduceLoop_inputs points st :
  suffix_ok inp2 points ->
  reduceLoop (buildSeries (in_Members inp2) (in_Observations inp2)) inp2 points st
  = reduceLoop (buildSeries (in_Members inp1) (in_Observations inp1)) inp1 points st.
Proof.
  revert st. induction points as [|t points IH]; intros st Hok; [done|].
  pose proof (suffix_ok_same _ Hok) as Hok1.
  rewrite (reduceLoop_cons inp1), (reduceLoop_cons inp2).
  rewrite IH by exact (suffix_ok_tail inp2 Hlen2 _ _ Hok).
  f_equal. rewrite (reduceStep_exact inp1 Hlen), (reduceStep_exact inp2 Hlen2) by done.
  assert (talliesAt inp1 t = talliesAt inp2 t) as Heq.
  { apply talliesAt_same. apply (so_range inp1 _ Hok1). set_solver. }
  unfold outcomeAt, nextPoint. by rewrite Heq, (sv_policies _ _ Hsame), (sv_end _ _ Hsame).
Qed.

Lemma finalLoop_same : finalLoop inp1 = finalLoop inp2.
Proof.
  unfold finalLoop. rewrite reduceLoop_inputs by (apply bucketPoints_ok, Hlen2).
  pose proof (bucketPoints_ok inp1 Hlen) as H1. pose proof (bucketPoints_ok inp2 Hlen2) as H2.
  unfold bucketPoints in *.
  destruct (breakpoints_head _ _ (Hlen64 inp1 Hlen)
    (buildSeries (in_Members inp1) (in_Observations inp1)) (in_Maintenance inp1)) as [r1 E1].
  destruct (breakpoints_head _ _ (Hlen64 inp2 Hlen2)
    (buildSeries (in_Members inp2) (in_Observations inp2)) (in_Maintenance inp2)) as [r2 E2].
  rewrite E1 in *. rewrite E2 in *. rewrite <- (sv_start _ _ Hsame) in *.
  by apply (reduceLoop_same inp1 Hlen (length r1 + length r2)); [lia|done|by apply suffix_ok_same].
Qed.
End ext.

(** the bucket is a function of the states of the members over it: two sets of observations
    and maintenance spans that put every member in the same state at every instant of the
    bucket reduce to the same durations, the same provenance (causes, overflow and weakened
    thresholds, in the same order) or the same error. *)
Theorem Reduce_reads_only_states inp1 inp2
  (Hlen : in_Start inp1 < in_End inp1 <= in_Start inp1 + int64_max) :
  same_evaluation inp1 inp2 -> Reduce inp1 = Reduce inp2.
Proof.
  intros Hsame. pose proof (finalLoop_same inp1 inp2 Hsame Hlen) as Hf.
  destruct Hsame as [Hs He Hm Hp _]. unfold Reduce, finalLoop, bucketPoints in *.
  rewrite Hf. by rewrite Hs, He, Hm.
Qed.

(** An observation of a monitor that is not a member changes nothing. *)
Definition noisyInput : Input :=
  {| in_Start := in_Start demoInput; in_End := in_End demoInput; in_Members := in_Members demoInput;
     in_Observations := demoObservation "z" (1210 * Second) false :: in_Observations demoInput;
     in_Maintenance := in_Maintenance demoInput; in_Policies := in_Policies demoInput |}.

Lemma Reduce_reads_only_states_witness : Reduce demoInput = Reduce noisyInput.
Proof.
  refine (Reduce_reads_only_states demoInput noisyInput _ _).
  - split; [reflexivity|discriminate].
  - split; [reflexivity..|]. intros m t Hm _.
    assert (seriesOf m (in_Observations demoInput) = seriesOf m (in_Observations noisyInput)) as Heq.
    { cbn in Hm. rewrite !elem_of_cons in Hm. destruct Hm as [->|[->|Hm]]; [vm_compute; reflexivity..|set_solver]. }
    unfold memberStateAt. by rewrite Heq.
Defined.
