(* ===== verification/Materialize.v ===== *)
(** * Materialization and sealing of a service's buckets
    ([internal/store/servicematerialize.go]; the tables of [service_materialization],
    [service_reliability_buckets], [service_bucket_ingest], [service_late_arrivals] and
    [service_repair_ranges]; the era of [internal/store/services.go])

    The forward driver and the repair path both compute a bucket with [Reduce] from the
    heartbeats of the epoch's members and store it; [advanceSealedThrough] then recomputes the
    contiguity watermark.  A transaction is a function of the tables; [statement_timestamp()]
    is an argument. *)

From S2P Require Import Prelude ServicePolicy MonitorRow Heartbeats Effective Aggregate Reduce.

(** ** The tables *)

(** One row of [service_definition_revisions], with its [sli] members. *)
Record DefinitionRevision := {
  dr_revision : Z;
  dr_effective_at : Time;
  dr_effective : bool;
  dr_sli : list string;
}.

(** One row of [service_evaluation_epochs] with its decoded snapshot, joined with the policies of
    the revision it resolves to. *)
Record Epoch := {
  ep_id : string;
  ep_seq : Z;
  ep_effective_at : Time;
  ep_effective : bool;
  ep_members : list Member;
  ep_policies : ServicePolicies;
}.

(** One row of [service_materialization]. *)
Record MatRow := {
  mt_start : Time;
  mt_era : Time;
  mt_through : option Time;
  mt_sealed : option Time;
  mt_retracted_at : option Time;
  mt_retracted_to : option Time;
}.

(** One bucket on both conserved axes, in microseconds. *)
Record bucketSplit := {
  bs_good : Z; bs_bad : Z; bs_unknown : Z; bs_excluded : Z;
  bs_healthy : Z; bs_degraded : Z; bs_down : Z; bs_healthUnknown : Z;
}.

#[global] Instance bucketSplit_eq_dec : EqDecision bucketSplit.
Proof. solve_decision. Defined.

(** One row of [service_reliability_buckets]. *)
Record Fact := {
  ft_epoch : string;
  ft_split : bucketSplit;
  ft_provenance : Provenance;
  ft_sealed : bool;
  ft_sealed_at : option Time;
  ft_sealed_generation : option Z;
  ft_maintenance_generation : Z;
}.

(** One row of [service_late_arrivals]; the examples are kept as instants. *)
Record LateArrivals := {
  la_arrivals : Z;
  la_first : Time;
  la_last : Time;
  la_examples : list Time;
  la_overflow : Z;
}.

Inductive RepairReason :=
| ReasonDeclaration | ReasonEpoch | ReasonLateData | ReasonMaintenance | ReasonAdmin | ReasonBackfill.

#[global] Instance RepairReason_eq_dec : EqDecision RepairReason.
Proof. solve_decision. Defined.

Inductive RangeState := RangePending | RangeRunning | RangeComplete | RangeError | RangeSuperseded.

#[global] Instance RangeState_eq_dec : EqDecision RangeState.
Proof. solve_decision. Defined.

(** One row of [service_repair_ranges]; the empty origin is [NULL]. *)
Record RepairRow := {
  rr_from : Time;
  rr_to : Time;
  rr_reason : RepairReason;
  rr_state : RangeState;
  rr_cursor : option Time;
  rr_generation : Z;
  rr_attempts : Z;
  rr_next_attempt_at : Time;
  rr_lease : option Time;
  rr_origin : string;
}.

(** The rows of one service. *)
Record ServiceState := {
  ss_project : string;
  ss_revisions : list DefinitionRevision;
  ss_epochs : list Epoch;
  ss_mat : option MatRow;
  ss_ingest : gmap Time Z;
  ss_facts : gmap Time Fact;
  ss_late : gmap (Time * string) LateArrivals;
  ss_ranges : gmap positive RepairRow;
}.

(** One row of [maintenance_windows]. *)
Record WindowRow := { wr_id : string; wr_window : MaintenanceWindow }.

(** What every service of the instance shares.  [sv_monitors] is the project of each monitor
    that exists; [sv_windows] is in [id] order; [sv_next_range] stands for [gen_random_uuid]. *)
Record Services := {
  sv_services : gmap string ServiceState;
  sv_generation : gmap string Z;
  sv_monitors : gmap string string;
  sv_windows : list WindowRow;
  sv_next_range : positive;
  sv_late_arrivals : Z;
  sv_late_overflow : Z;
  sv_recompute_audits : list (string * Time * bucketSplit * bucketSplit);
  sv_services_per_monitor : Z;
}.

Inductive MaterializeError :=
| ErrEmptyRange | ErrServiceGone | ErrEvidenceGone (bucket : Time) | ErrReduce (e : ReduceError)
| ErrBucketCheck | ErrRangeSuperseded | ErrServiceFanout | ErrOther.

(** *** Updates *)
Definition setService (db : Services) (sid : string) (s : ServiceState) : Services :=
  {| sv_services := <[sid := s]> (sv_services db); sv_generation := sv_generation db;
     sv_monitors := sv_monitors db; sv_windows := sv_windows db; sv_next_range := sv_next_range db;
     sv_late_arrivals := sv_late_arrivals db; sv_late_overflow := sv_late_overflow db;
     sv_recompute_audits := sv_recompute_audits db; sv_services_per_monitor := sv_services_per_monitor db |}.

Definition setIngest (s : ServiceState) (i : gmap Time Z) : ServiceState :=
  {| ss_project := ss_project s; ss_revisions := ss_revisions s; ss_epochs := ss_epochs s;
     ss_mat := ss_mat s; ss_ingest := i; ss_facts := ss_facts s; ss_late := ss_late s;
     ss_ranges := ss_ranges s |}.

Definition setFacts (s : ServiceState) (f : gmap Time Fact) : ServiceState :=
  {| ss_project := ss_project s; ss_revisions := ss_revisions s; ss_epochs := ss_epochs s;
     ss_mat := ss_mat s; ss_ingest := ss_ingest s; ss_facts := f; ss_late := ss_late s;
     ss_ranges := ss_ranges s |}.

Definition setMat (s : ServiceState) (m : option MatRow) : ServiceState :=
  {| ss_project := ss_project s; ss_revisions := ss_revisions s; ss_epochs := ss_epochs s;
     ss_mat := m; ss_ingest := ss_ingest s; ss_facts := ss_facts s; ss_late := ss_late s;
     ss_ranges := ss_ranges s |}.

Definition setRanges (s : ServiceState) (r : gmap positive RepairRow) : ServiceState :=
  {| ss_project := ss_project s; ss_revisions := ss_revisions s; ss_epochs := ss_epochs s;
     ss_mat := ss_mat s; ss_ingest := ss_ingest s; ss_facts := ss_facts s; ss_late := ss_late s;
     ss_ranges := r |}.

Definition setSealed (m : MatRow) (t : option Time) : MatRow :=
  {| mt_start := mt_start m; mt_era := mt_era m; mt_through := mt_through m; mt_sealed := t;
     mt_retracted_at := mt_retracted_at m; mt_retracted_to := mt_retracted_to m |}.

Definition setThrough (m : MatRow) (t : Time) : MatRow :=
  {| mt_start := mt_start m; mt_era := mt_era m; mt_through := Some t; mt_sealed := mt_sealed m;
     mt_retracted_at := mt_retracted_at m; mt_retracted_to := mt_retracted_to m |}.

(** ** Reading the inputs of a bucket *)

(** [ORDER BY effective_at DESC, epoch_seq DESC LIMIT 1] over the effective epochs in force. *)
Definition epoch_after (a b : Epoch) : bool :=
  (ep_effective_at b <? ep_effective_at a)
  || (ep_effective_at a =? ep_effective_at b) && (ep_seq b <? ep_seq a).

Definition epochAt (s : ServiceState) (at_ : Time) : option Epoch :=
  maxBy epoch_after (List.filter (fun e => ep_effective e && (ep_effective_at e <=? at_)) (ss_epochs s)).

(** The rows of a monitor that satisfy a predicate on the instant. *)
Definition rowsOf (hs : heartbeats) (id : string) (P : Time -> bool) : list (Time * HeartbeatRow) :=
  omap (fun kv => if bool_decide (kv.1.1 = id) && P kv.1.2 then Some (kv.1.2, kv.2) else None)
       (map_to_list hs).

(** [ORDER BY ts DESC LIMIT 1]. *)
Definition latestRow (hs : heartbeats) (id : string) (P : Time -> bool) : option (Time * HeartbeatRow) :=
  maxBy (fun a b => b.1 <? a.1) (rowsOf hs id P).

Definition obsOf (id : string) (row : Time * HeartbeatRow) : Observation :=
  {| o_MonitorID := id; o_Ts := row.1; o_Up := hr_up row.2 |}.

(** [observationsForSQL]: the rows inside the bucket, and each member's last one before it. *)
Definition observationsFor (hs : heartbeats) (members : list Member) (start end_ : Time) : list Observation :=
  let ids := map m_MonitorID members in
  flat_map (fun id => map (obsOf id) (rowsOf hs id (fun t => (start <=? t) && (t <? end_)))) (remove_dups ids)
  ++ omap (fun id => obsOf id <$> latestRow hs id (fun t => t <? start)) ids.

Definition spanOf (w : WindowRow) : MaintenanceSpan :=
  {| sp_ID := wr_id w; sp_MonitorID := default "" (mw_monitor (wr_window w));
     sp_From := mw_StartsAt (wr_window w); sp_To := maintEffectiveEnd (wr_window w) |}.

Definition maintenanceSpansFor (db : Services) (project : string) (members : list Member) (start end_ : Time)
    : list MaintenanceSpan :=
  map spanOf
    (List.filter (fun w =>
       bool_decide (mw_project (wr_window w) = project)
       && match mw_monitor (wr_window w) with
          | None => true
          | Some m => bool_decide (m ∈ map m_MonitorID members)
          end
       && (mw_StartsAt (wr_window w) <? end_) && (start <? maintEffectiveEnd (wr_window w)))
      (sv_windows db)).

Definition inputFor (hs : heartbeats) (db : Services) (s : ServiceState) (e : Epoch) (start : Time) : Input :=
  let end_ := Add start CanonicalBucket in
  {| in_Start := start; in_End := end_; in_Members := ep_members e;
     in_Observations := observationsFor hs (ep_members e) start end_;
     in_Maintenance := maintenanceSpansFor db (ss_project s) (ep_members e) start end_;
     in_Policies := ep_policies e |}.

Definition anyMemberMonitorGone (db : Services) (members : list Member) : bool :=
  negb (Z.of_nat (size (dom (sv_monitors db) ∩ list_to_set (map m_MonitorID members)))
        =? Z.of_nat (length members)).

(** ** One bucket *)
Inductive materializeMode := modeOrdinary | modeRecompute.

#[global] Instance materializeMode_eq_dec : EqDecision materializeMode.
Proof. solve_decision. Defined.

(** [Duration.Microseconds]: integer division truncates. *)
Definition Microseconds (d : Duration) : Z := Z.quot d Microsecond.

Definition splitOf (d : Durations) : bucketSplit :=
  {| bs_good := Microseconds (Good d); bs_bad := Microseconds (Bad d);
     bs_unknown := Microseconds (Unknown d); bs_excluded := Microseconds (Excluded d);
     bs_healthy := Microseconds (Healthy d); bs_degraded := Microseconds (Degraded d);
     bs_down := Microseconds (Down d); bs_healthUnknown := Microseconds (HealthUnknownD d) |}.

(** The [CHECK] constraints of the table. *)
Definition splitConserves (b : bucketSplit) : bool :=
  let size := Microseconds CanonicalBucket in
  forallb (fun x => 0 <=? x) [bs_good b; bs_bad b; bs_unknown b; bs_excluded b;
                              bs_healthy b; bs_degraded b; bs_down b; bs_healthUnknown b]
  && (bs_good b + bs_bad b + bs_unknown b + bs_excluded b =? size)
  && (bs_healthy b + bs_degraded b + bs_down b + bs_healthUnknown b + bs_excluded b =? size).

Definition generationOf (db : Services) (project : string) : Z := default 0 (sv_generation db !! project).

Definition sealedAt (s : ServiceState) (start : Time) : bool :=
  match ss_facts s !! start with Some f => ft_sealed f | None => false end.

Definition auditRecompute (db : Services) (sid : string) (bucket : Time) (before after : bucketSplit) : Services :=
  {| sv_services := sv_services db; sv_generation := sv_generation db;
     sv_monitors := sv_monitors db; sv_windows := sv_windows db; sv_next_range := sv_next_range db;
     sv_late_arrivals := sv_late_arrivals db; sv_late_overflow := sv_late_overflow db;
     sv_recompute_audits := sv_recompute_audits db ++ [(sid, bucket, before, after)];
     sv_services_per_monitor := sv_services_per_monitor db |}.

(** The row a computed bucket is stored as. *)
Definition factOf (db : Services) (s : ServiceState) (e : Epoch) (now start : Time) (wasSealed : bool)
    (b : Bucket) : Fact :=
  let seal := negb (Before now (Add (Add start CanonicalBucket) LateArrivalGrace)) || wasSealed in
  {| ft_epoch := ep_id e; ft_split := splitOf (b_Durations b); ft_provenance := b_Provenance b;
     ft_sealed := seal; ft_sealed_at := if seal then Some now else None;
     ft_sealed_generation := if seal then Some (default 0 (ss_ingest s !! start)) else None;
     ft_maintenance_generation := generationOf db (ss_project s) |}.

Definition materializeBucketTx (hs : heartbeats) (now : Time) (sid : string) (start : Time)
    (mode : materializeMode) (db : Services) : result MaterializeError (Services * bool) :=
  match sv_services db !! sid with
  | None => Err ErrServiceGone
  | Some s0 =>
    let s := setIngest s0 (<[start := default 0 (ss_ingest s0 !! start)]> (ss_ingest s0)) in
    let db := setService db sid s in
    let wasSealed := sealedAt s start in
    if wasSealed && bool_decide (mode = modeOrdinary) then Ok (db, false)
    else match epochAt s start with
    | None => Ok (db, false)
    | Some e =>
      match ep_members e with
      | [] => Ok (db, false)
      | _ =>
        let! _ := refuse_if (bool_decide (mode = modeRecompute) && wasSealed
                             && anyMemberMonitorGone db (ep_members e)) (ErrEvidenceGone start) in
        match Reduce (inputFor hs db s e start) with
        | Err err => Err (ErrReduce err)
        | Ok b =>
          let f := factOf db s e now start wasSealed b in
          let! _ := refuse_if (negb (splitConserves (ft_split f))) ErrBucketCheck in
          let db' := setService db sid (setFacts s (<[start := f]> (ss_facts s))) in
          match ss_facts s !! start with
          | Some old =>
            if wasSealed && negb (bool_decide (ft_split old = ft_split f))
            then Ok (auditRecompute db' sid start (ft_split old) (ft_split f), true)
            else Ok (db', true)
          | None => Ok (db', true)
          end
        end
      end
    end
  end.

(** ** The watermark *)

Definition watermarkScanBuckets : Z := 1440.

(** The buckets of the scan window, in order. *)
Definition orderedBuckets (s : ServiceState) (start limit : Time) : list (Time * bool) :=
  map (fun t => (t, sealedAt s t))
    (merge_sort Z.le
       (List.filter (fun t => (start <=? t) && (t <? limit)) (map fst (map_to_list (ss_facts s))))).

(** [stops]: a bucket that is not sealed, the end of a bucket whose successor row is not the next
    one, and the start of the scan when the first row is later. *)
Fixpoint gapStops (prev : option Time) (rows : list (Time * bool)) (start : Time) : list Time :=
  match rows with
  | [] => []
  | (t, sealed) :: rest =>
    (if sealed then [] else [t])
    ++ match prev with
       | Some p => if t =? Add p CanonicalBucket then [] else [Add p CanonicalBucket]
       | None => if t =? start then [] else [start]
       end
    ++ gapStops (Some t) rest start
  end.

Definition minimum (l : list Time) : option Time :=
  foldr (fun t acc => Some (match acc with Some a => Z.min t a | None => t end)) None l.
Definition maximum (l : list Time) : option Time :=
  foldr (fun t acc => Some (match acc with Some a => Z.max t a | None => t end)) None l.

(** [COALESCE((SELECT MIN(at) FROM stops), (SELECT MAX(bucket_start) + 1 minute FROM ordered))]. *)
Definition sealedThrough (s : ServiceState) (start limit : Time) : option Time :=
  let rows := orderedBuckets s start limit in
  match minimum (gapStops None rows start) with
  | Some t => Some t
  | None => (fun t => Add t CanonicalBucket) <$> maximum (map fst rows)
  end.

Definition advanceSealedRow (s : ServiceState) : ServiceState :=
  match ss_mat s with
  | None => s
  | Some m =>
    let start := match mt_sealed m with
                 | Some c => if After c (mt_era m) then c else mt_era m
                 | None => mt_era m
                 end in
    let limit := Add start (watermarkScanBuckets * CanonicalBucket) in
    match sealedThrough s start limit with
    | None => s
    | Some t =>
      if bool_decide (mt_sealed m = Some t) then s else setMat s (Some (setSealed m (Some t)))
    end
  end.

Definition advanceSealedThrough (sid : string) (db : Services) : Services :=
  match sv_services db !! sid with
  | None => db
  | Some s => setService db sid (advanceSealedRow s)
  end.

(** ** Ranges and the forward driver *)

(** [for start := from; start.Before(to); start = start.Add(CanonicalBucket)]. *)
Definition bucketsOf (from to : Time) : list Time :=
  map (fun i => from + i * CanonicalBucket) (seqZ 0 ((to - from + CanonicalBucket - 1) / CanonicalBucket)).

Fixpoint materializeBuckets (hs : heartbeats) (now : Time) (sid : string) (mode : materializeMode)
    (buckets : list Time) (db : Services) : result MaterializeError (Services * Z) :=
  match buckets with
  | [] => Ok (db, 0)
  | b :: rest =>
    let! (db1, done_) := materializeBucketTx hs now sid b mode db in
    let! (db2, n) := materializeBuckets hs now sid mode rest db1 in
    Ok (db2, Z.b2z done_ + n)
  end.

Definition materializeRangeTx (hs : heartbeats) (now : Time) (sid : string) (from to : Time)
    (mode : materializeMode) (db : Services) : result MaterializeError (Services * Z) :=
  let! _ := refuse_if (negb (After to from)) ErrEmptyRange in
  let! (db1, n) := materializeBuckets hs now sid mode (bucketsOf from to) db in
  Ok (advanceSealedThrough sid db1, n).

Definition maxBucketsPerAdvance : Z := 240.

(** The cursor of the forward driver. *)
Definition matCursor (m : MatRow) : Time := default (mt_start m) (mt_through m).

Definition forwardHorizon (now : Time) : Time := FloorToBucket (Add now (- LateArrivalGrace)).

(** A service the claim may return at [now]; [SKIP LOCKED] lets it pass over an earlier one. *)
Definition due (now : Time) (m : MatRow) : bool := matCursor m <? forwardHorizon now.

(** [AdvanceServiceMaterializationOn] after its claim of [sid]: [budget] is the number of buckets
    the slice had time for.  With none, nothing is committed. *)
Definition AdvanceServiceMaterialization (hs : heartbeats) (now : Time) (sid : string) (budget : nat)
    (db : Services) : result MaterializeError Services :=
  match sv_services db !! sid with
  | None => Ok db
  | Some s =>
    match ss_mat s with
    | None => Ok db
    | Some m =>
      if negb (due now m) then Ok db
      else
        let cursor := matCursor m in
        let end0 := Add cursor (maxBucketsPerAdvance * CanonicalBucket) in
        let end_ := if After end0 (forwardHorizon now) then forwardHorizon now else end0 in
        match take budget (bucketsOf cursor end_) with
        | [] => Ok db
        | walked =>
          let! (db1, _) := materializeBuckets hs now sid modeOrdinary walked db in
          let reached := cursor + Z.of_nat (length walked) * CanonicalBucket in
          Ok (advanceSealedThrough sid
                match sv_services db1 !! sid with
                | Some s1 => setService db1 sid (setMat s1 ((fun m => setThrough m reached) <$> ss_mat s1))
                | None => db1
                end)
        end
    end
  end.

(** ** Starting to measure *)

(** [ensureMaterializationRowTx]. *)
Definition ensureMaterializationRowTx (start : Time) (s : ServiceState) : ServiceState :=
  match ss_mat s with
  | Some _ => s
  | None => setMat s (Some {| mt_start := start; mt_era := start; mt_through := Some start; mt_sealed := None;
                              mt_retracted_at := None; mt_retracted_to := None |})
  end.

(** The era a service starts when it comes back from a declared silence. *)
Definition startEra (effectiveAt : Time) (m : MatRow) : MatRow :=
  {| mt_start := mt_start m; mt_era := effectiveAt;
     mt_through := Some (Z.max (default effectiveAt (mt_through m)) effectiveAt); mt_sealed := None;
     mt_retracted_at := mt_retracted_at m; mt_retracted_to := mt_retracted_to m |}.
