(* ===== verification/ServiceRepair.v ===== *)
(** * Durable repair ranges
    ([internal/store/servicerepair.go]; [cancelRangesOfOrigin] of [internal/store/services.go];
    [invalidateForMaintenance] of [internal/store/servicemaintenance.go])

    Work over a range of buckets, coalesced when it is queued, claimed with a lease by any
    number of workers, executed in batches that recompute and move the cursor in one
    transaction.  The slice deadline, the adaptive batch size and the statement timeouts decide
    how much a worker does, not what it does: a worker is the range it claimed and its cursor. *)

From S2P Require Import Prelude ServicePolicy MonitorRow Heartbeats Effective Aggregate Reduce Materialize.

(** ** Queueing *)

Definition setNextRange (db : Services) (n : positive) : Services :=
  {| sv_services := sv_services db; sv_generation := sv_generation db;
     sv_monitors := sv_monitors db; sv_windows := sv_windows db; sv_next_range := n;
     sv_late_arrivals := sv_late_arrivals db; sv_late_overflow := sv_late_overflow db;
     sv_recompute_audits := sv_recompute_audits db; sv_services_per_monitor := sv_services_per_monitor db |}.

(** The pending ranges of the same reason that overlap or abut [from, to). *)
Definition absorbs (reason : RepairReason) (from to : Time) (r : RepairRow) : bool :=
  bool_decide (rr_reason r = reason) && bool_decide (rr_state r = RangePending)
  && (rr_from r <=? to) && (from <=? rr_to r).

Definition newRange (now from to : Time) (reason : RepairReason) (generation : Z) (origin : string) : RepairRow :=
  {| rr_from := from; rr_to := to; rr_reason := reason; rr_state := RangePending;
     rr_cursor := Some from; rr_generation := generation; rr_attempts := 0;
     rr_next_attempt_at := now; rr_lease := None; rr_origin := origin |}.

Definition enqueueRepairRangeTx (now : Time) (sid : string) (from0 to0 : Time) (reason : RepairReason)
    (origin : string) (db : Services) : result MaterializeError Services :=
  match sv_services db !! sid with
  | None => Err ErrServiceGone
  | Some s =>
    let! _ := refuse_if (negb (After to0 from0)) ErrEmptyRange in
    let from := FloorToBucket from0 in
    let to := CeilToBucket to0 in
    let absorbed := base.filter (fun kv : positive * RepairRow => absorbs reason from to kv.2) (ss_ranges s) in
    let rows := map snd (map_to_list absorbed) in
    let mergedFrom := foldr Z.min from (map rr_from rows) in
    let mergedTo := foldr Z.max to (map rr_to rows) in
    let mergedOrigin := if existsb (fun r => negb (bool_decide (rr_origin r = origin))) rows then "" else origin in
    let id := sv_next_range db in
    let row := newRange now mergedFrom mergedTo reason (generationOf db (ss_project s)) mergedOrigin in
    Ok (setNextRange
          (setService db sid (setRanges s (<[id := row]> (ss_ranges s ∖ absorbed)))) (Pos.succ id))
  end.

(** [cancelRangesOfOrigin]: an empty list of origins cancels nothing. *)
Definition cancelRangesOfOrigin (origins : list string) (s : ServiceState) : ServiceState :=
  setRanges s ((fun r =>
    if negb (bool_decide (rr_origin r = "")) && bool_decide (rr_origin r ∈ origins)
       && (bool_decide (rr_state r = RangePending) || bool_decide (rr_state r = RangeRunning))
    then {| rr_from := rr_from r; rr_to := rr_to r; rr_reason := rr_reason r; rr_state := RangeSuperseded;
            rr_cursor := rr_cursor r; rr_generation := rr_generation r; rr_attempts := rr_attempts r;
            rr_next_attempt_at := rr_next_attempt_at r; rr_lease := rr_lease r; rr_origin := rr_origin r |}
    else r) <$> ss_ranges s).

(** ** Claiming *)

Definition repairLease : Duration := 60 * Second.

Definition claimable (now : Time) (r : RepairRow) : bool :=
  match rr_state r with
  | RangePending => rr_next_attempt_at r <=? now
  | RangeRunning => match rr_lease r with Some l => l <? now | None => false end
  | _ => false
  end.

(** What a worker takes away from a claim. *)
Record RepairRange := {
  wk_service : string;
  wk_id : positive;
  wk_from : Time;
  wk_to : Time;
  wk_cursor : Time;
  wk_generation : Z;
  wk_attempts : Z;
}.

Definition setClaimed (now : Time) (r : RepairRow) : RepairRow :=
  {| rr_from := rr_from r; rr_to := rr_to r; rr_reason := rr_reason r; rr_state := RangeRunning;
     rr_cursor := rr_cursor r; rr_generation := rr_generation r; rr_attempts := rr_attempts r;
     rr_next_attempt_at := rr_next_attempt_at r; rr_lease := Some (Add now repairLease);
     rr_origin := rr_origin r |}.

(** The cursor a worker starts from: the row's, or the start of the range. *)
Definition startCursor (r : RepairRow) : Time :=
  let c := default (rr_from r) (rr_cursor r) in
  if Before c (rr_from r) then rr_from r else c.

(** The claim of one row; [SKIP LOCKED] lets it be any claimable one. *)
Definition claimRepairRange (now : Time) (sid : string) (id : positive) (db : Services) :
    option (Services * RepairRange) :=
  match sv_services db !! sid with
  | None => None
  | Some s =>
    match ss_ranges s !! id with
    | None => None
    | Some r =>
      if claimable now r then
        Some (setService db sid (setRanges s (<[id := setClaimed now r]> (ss_ranges s))),
              {| wk_service := sid; wk_id := id; wk_from := rr_from r; wk_to := rr_to r;
                 wk_cursor := startCursor r; wk_generation := rr_generation r;
                 wk_attempts := rr_attempts r |})
      else None
    end
  end.

(** ** Running *)

(** An update of one range by identity; a row that is gone is not an error. *)
Definition updateRange (f : RepairRow -> RepairRow) (sid : string) (id : positive) (db : Services) : Services :=
  match sv_services db !! sid with
  | None => db
  | Some s => setService db sid (setRanges s (alter f id (ss_ranges s)))
  end.

Definition setCursor (now cursor : Time) (r : RepairRow) : RepairRow :=
  {| rr_from := rr_from r; rr_to := rr_to r; rr_reason := rr_reason r; rr_state := rr_state r;
     rr_cursor := Some cursor; rr_generation := rr_generation r; rr_attempts := rr_attempts r;
     rr_next_attempt_at := rr_next_attempt_at r; rr_lease := Some (Add now repairLease);
     rr_origin := rr_origin r |}.

(** One batch [from, to): the generation must be the one the worker claimed under. *)
Definition runRepairBatch (hs : heartbeats) (now : Time) (w : RepairRange) (from to : Time) (db : Services) :
    result MaterializeError Services :=
  match sv_services db !! wk_service w with
  | None => Err ErrServiceGone
  | Some s =>
    let! _ := refuse_if (negb (generationOf db (ss_project s) =? wk_generation w)) ErrRangeSuperseded in
    let! (db1, _) := materializeRangeTx hs now (wk_service w) from to modeRecompute db in
    Ok (updateRange (setCursor now to) (wk_service w) (wk_id w) db1)
  end.

Definition maxRepairBatch : Z := 1440.
Definition minRepairBatch : Z := 1.

Definition adaptRepairBatch (batch : Z) (spent budget : Duration) : Z :=
  let target := Z.quot (mul64 budget 3) 5 in
  let b := if (spent <? Z.quot target 2) && (batch <? maxRepairBatch) then batch * 2
           else if (target <? spent) && (minRepairBatch <? batch) then Z.quot batch 2
           else batch in
  let b := if maxRepairBatch <? b then maxRepairBatch else b in
  if b <? minRepairBatch then minRepairBatch else b.

(** The next batch of a worker: [batch] buckets from its cursor, not past the end of the range. *)
Definition batchEnd (w : RepairRange) (batch : Z) : Time :=
  let end_ := Add (wk_cursor w) (batch * CanonicalBucket) in
  if After end_ (wk_to w) then wk_to w else end_.

Definition moveWorker (w : RepairRange) (cursor : Time) : RepairRange :=
  {| wk_service := wk_service w; wk_id := wk_id w; wk_from := wk_from w; wk_to := wk_to w;
     wk_cursor := cursor; wk_generation := wk_generation w; wk_attempts := wk_attempts w |}.

(** ** Closing writes *)

Definition releaseRow (generation : Z) (cursor : Time) (r : RepairRow) : RepairRow :=
  {| rr_from := rr_from r; rr_to := rr_to r; rr_reason := rr_reason r; rr_state := RangePending;
     rr_cursor := Some cursor; rr_generation := generation; rr_attempts := rr_attempts r;
     rr_next_attempt_at := rr_next_attempt_at r; rr_lease := rr_lease r; rr_origin := rr_origin r |}.

Definition releaseRepairRange (w : RepairRange) (db : Services) : Services :=
  match sv_services db !! wk_service w with
  | None => db
  | Some s => updateRange (releaseRow (generationOf db (ss_project s)) (wk_cursor w)) (wk_service w) (wk_id w) db
  end.

Definition closeRow (state : RangeState) (cursor : Time) (r : RepairRow) : RepairRow :=
  {| rr_from := rr_from r; rr_to := rr_to r; rr_reason := rr_reason r; rr_state := state;
     rr_cursor := Some cursor; rr_generation := rr_generation r; rr_attempts := rr_attempts r;
     rr_next_attempt_at := rr_next_attempt_at r; rr_lease := rr_lease r; rr_origin := rr_origin r |}.

Definition completeRepairRange (w : RepairRange) : Services -> Services :=
  updateRange (closeRow RangeComplete (wk_cursor w)) (wk_service w) (wk_id w).

Definition markRepairRangeUnrecomputable (w : RepairRange) : Services -> Services :=
  updateRange (closeRow RangeError (wk_cursor w)) (wk_service w) (wk_id w).

(** 5s doubling to a 5m cap. *)
Fixpoint backoffLoop (fuel : nat) (i attempts : Z) (d : Duration) : Duration :=
  match fuel with
  | O => d
  | S fuel => if (i <? attempts) && (d <? 5 * Minute) then backoffLoop fuel (i + 1) attempts (mul64 d 2) else d
  end.

Definition repairBackoff (attempts : Z) : Duration :=
  let d := backoffLoop 7 1 attempts (5 * Second) in
  if 5 * Minute <? d then 5 * Minute else d.

Definition failRow (now : Time) (backoff : Duration) (cursor : Time) (r : RepairRow) : RepairRow :=
  {| rr_from := rr_from r; rr_to := rr_to r; rr_reason := rr_reason r; rr_state := RangePending;
     rr_cursor := Some cursor; rr_generation := rr_generation r; rr_attempts := rr_attempts r + 1;
     rr_next_attempt_at := Add now backoff; rr_lease := rr_lease r; rr_origin := rr_origin r |}.

Definition failRepairRange (now : Time) (w : RepairRange) : Services -> Services :=
  updateRange (failRow now (repairBackoff (wk_attempts w + 1)) (wk_cursor w)) (wk_service w) (wk_id w).

(** ** The slice

    What the clock and the database did to each batch of [runRepairRangeOn]; the list ends when
    the remainder of the slice does. *)
Inductive SliceEvent :=
| BatchRan (now : Time) (spent remaining : Duration)
| BatchTimedOut (now : Time)
| BatchOutOfBudget
| BatchFailed (now : Time).

Fixpoint repairLoop (hs : heartbeats) (events : list SliceEvent) (batch : Z) (progressed : bool)
    (w : RepairRange) (db : Services) : Services :=
  if negb (Before (wk_cursor w) (wk_to w)) then completeRepairRange w db
  else match events with
  | [] => releaseRepairRange w db
  | BatchTimedOut now :: _ =>
    if progressed || (minRepairBatch <? batch) then releaseRepairRange w db else failRepairRange now w db
  | BatchOutOfBudget :: _ => releaseRepairRange w db
  | BatchFailed now :: _ => failRepairRange now w db
  | BatchRan now spent remaining :: rest =>
    match runRepairBatch hs now w (wk_cursor w) (batchEnd w batch) db with
    | Err ErrRangeSuperseded => releaseRepairRange w db
    | Err (ErrEvidenceGone _) => markRepairRangeUnrecomputable w db
    | Err _ => failRepairRange now w db
    | Ok db' => repairLoop hs rest (adaptRepairBatch batch spent remaining) true (moveWorker w (batchEnd w batch)) db'
    end
  end.

(** [runRepairRangeOn], with the batches of the slice run one after another. *)
Definition runRepairRange (hs : heartbeats) (events : list SliceEvent) (w : RepairRange) (db : Services) : Services :=
  repairLoop hs events minRepairBatch false
    (if Before (wk_cursor w) (wk_from w) then moveWorker w (wk_from w) else w) db.

(** ** Retroactive maintenance *)

Definition bumpGeneration (db : Services) (project : string) : Services :=
  {| sv_services := sv_services db;
     sv_generation := <[project := generationOf db project + 1]> (sv_generation db);
     sv_monitors := sv_monitors db; sv_windows := sv_windows db; sv_next_range := sv_next_range db;
     sv_late_arrivals := sv_late_arrivals db; sv_late_overflow := sv_late_overflow db;
     sv_recompute_audits := sv_recompute_audits db; sv_services_per_monitor := sv_services_per_monitor db |}.

(** The rewind of a watermark beyond the affected range. *)
Definition rewind (now to : Time) (m : MatRow) : MatRow :=
  match mt_sealed m with
  | Some c => if c <=? to then m else
      {| mt_start := mt_start m; mt_era := mt_era m; mt_through := mt_through m; mt_sealed := Some to;
         mt_retracted_at := Some now; mt_retracted_to := Some to |}
  | None =>
      {| mt_start := mt_start m; mt_era := mt_era m; mt_through := mt_through m; mt_sealed := Some to;
         mt_retracted_at := Some now; mt_retracted_to := Some to |}
  end.

Fixpoint invalidateServices (now : Time) (windowID : string) (sids : list string) (from to : Time) (db : Services) :
    result MaterializeError Services :=
  match sids with
  | [] => Ok db
  | sid :: rest =>
    let! db1 := enqueueRepairRangeTx now sid from to ReasonMaintenance windowID db in
    let db2 := match sv_services db1 !! sid with
               | Some s => setService db1 sid (setMat s (rewind now from <$> ss_mat s))
               | None => db1
               end in
    invalidateServices now windowID rest from to db2
  end.

Definition invalidateForMaintenance (now : Time) (project windowID : string) (sids : list string) (from to : Time)
    (db : Services) : result MaterializeError Services :=
  invalidateServices now windowID sids (FloorToBucket from) (CeilToBucket to) (bumpGeneration db project).
