(* ===== verification/ServiceIngest.v ===== *)
(** * The ingest side of sealing
    ([internal/store/serviceingest.go])

    A heartbeat that was really inserted marks its bucket for every service whose definition in
    force at that bucket declares the monitor, records a late arrival when the bucket is
    sealed, and queues a repair of every materialized bucket the observation can reach. *)

From S2P Require Import Prelude ServicePolicy MonitorRow Heartbeats Effective Aggregate Reduce Materialize ServiceRepair.

Definition MaxLateExamples : nat := 8.

(** [date_bin('1 minute', ts, 'epoch')]. *)
Definition dateBin (t : Time) : Time := unixEpoch + (t - unixEpoch) / Minute * Minute.

(** ** Which services *)

(** [ORDER BY effective_at DESC, revision DESC]. *)
Definition revision_after (a b : DefinitionRevision) : bool :=
  (dr_effective_at b <? dr_effective_at a)
  || (dr_effective_at a =? dr_effective_at b) && (dr_revision b <? dr_revision a).

Definition governing (s : ServiceState) (at_ : Time) : option DefinitionRevision :=
  maxBy revision_after
    (List.filter (fun r => dr_effective r && (dr_effective_at r <=? at_)) (ss_revisions s)).

(** The service's definition in force at [at_] measures the monitor. *)
Definition declares (s : ServiceState) (monitorID : string) (at_ : Time) : bool :=
  match governing s at_ with
  | Some r => bool_decide (monitorID ∈ dr_sli r)
  | None => false
  end.

(** [servicesDeclaringMonitorAt], in [service_id] order; the monitor's own project is the tenant. *)
Definition servicesDeclaringMonitorAt (db : Services) (monitorID : string) (at_ : Time) : list string :=
  match sv_monitors db !! monitorID with
  | None => []
  | Some project =>
    merge_sort String.le
      (map fst (List.filter (fun kv => bool_decide (ss_project kv.2 = project) && declares kv.2 monitorID at_)
                  (map_to_list (sv_services db))))
  end.

(** ** The mark *)

Definition addLate (now ts : Time) (old : option LateArrivals) : LateArrivals :=
  match old with
  | None => {| la_arrivals := 1; la_first := now; la_last := now; la_examples := [ts]; la_overflow := 0 |}
  | Some l =>
    let room := (length (la_examples l) <? MaxLateExamples)%nat in
    {| la_arrivals := la_arrivals l + 1; la_first := la_first l; la_last := now;
       la_examples := if room then la_examples l ++ [ts] else la_examples l;
       la_overflow := if room then la_overflow l else la_overflow l + 1 |}
  end.

Definition setLate (s : ServiceState) (l : gmap (Time * string) LateArrivals) : ServiceState :=
  {| ss_project := ss_project s; ss_revisions := ss_revisions s; ss_epochs := ss_epochs s;
     ss_mat := ss_mat s; ss_ingest := ss_ingest s; ss_facts := ss_facts s; ss_late := l;
     ss_ranges := ss_ranges s |}.

Definition countLate (db : Services) (overflowed : Z) : Services :=
  {| sv_services := sv_services db; sv_generation := sv_generation db;
     sv_monitors := sv_monitors db; sv_windows := sv_windows db; sv_next_range := sv_next_range db;
     sv_late_arrivals := sv_late_arrivals db + 1; sv_late_overflow := sv_late_overflow db + overflowed;
     sv_recompute_audits := sv_recompute_audits db; sv_services_per_monitor := sv_services_per_monitor db |}.

Definition markBucket (now : Time) (sid monitorID : string) (bucketStart ts : Time) (db : Services) : Services :=
  match sv_services db !! sid with
  | None => db
  | Some s0 =>
    let s := setIngest s0 (<[bucketStart := default 0 (ss_ingest s0 !! bucketStart) + 1]> (ss_ingest s0)) in
    if sealedAt s bucketStart then
      let l := addLate now ts (ss_late s !! (bucketStart, monitorID)) in
      countLate (setService db sid (setLate s (<[(bucketStart, monitorID) := l]> (ss_late s))))
                (if Z.of_nat MaxLateExamples <? la_arrivals l then 1 else 0)
    else setService db sid s
  end.

(** ** The repair *)

(** The materialization frontier, [max(sealed_through, materialized_through)]. *)
Definition frontierOf (m : MatRow) : option Time :=
  match mt_sealed m, mt_through m with
  | Some a, Some b => Some (Z.max a b)
  | Some a, None => Some a
  | None, Some b => Some b
  | None, None => None
  end.

(** [SELECT min(ts) ... WHERE ts > $2 AND ts < $3]. *)
Definition nextObservation (hs : heartbeats) (monitorID : string) (ts frontier : Time) : option Time :=
  minimum (map fst (rowsOf hs monitorID (fun t => (ts <? t) && (t <? frontier)))).

Definition lateObservationReachEnd (hs : heartbeats) (monitorID : string) (ts frontier : Time) : Time :=
  match nextObservation hs monitorID ts frontier with
  | None => frontier
  | Some next => CeilToBucket next
  end.

Definition repairIfBehindWatermark (now : Time) (hs : heartbeats) (sid monitorID : string)
    (bucketStart ts : Time) (db : Services) : result MaterializeError Services :=
  match sv_services db !! sid with
  | None => Ok db
  | Some s =>
    match ss_mat s with
    | None => Ok db
    | Some m =>
      match frontierOf m with
      | None => Ok db
      | Some frontier =>
        if Before bucketStart frontier then
          enqueueRepairRangeTx now sid bucketStart (lateObservationReachEnd hs monitorID ts frontier)
            ReasonLateData "" db
        else Ok db
      end
    end
  end.

(** ** One heartbeat *)

Fixpoint noteServices (now : Time) (hs : heartbeats) (monitorID : string) (bucketStart ts : Time)
    (sids : list string) (db : Services) : result MaterializeError Services :=
  match sids with
  | [] => Ok db
  | sid :: rest =>
    let! db1 := repairIfBehindWatermark now hs sid monitorID bucketStart ts
                  (markBucket now sid monitorID bucketStart ts db) in
    noteServices now hs monitorID bucketStart ts rest db1
  end.

Definition noteHeartbeat (now : Time) (hs : heartbeats) (monitorID : string) (ts : Time) (db : Services)
    : result MaterializeError Services :=
  if bool_decide (monitorID = "") || IsZero ts then Ok db
  else
    let bucketStart := dateBin (pgTime ts) in
    let affected := servicesDeclaringMonitorAt db monitorID bucketStart in
    match affected with
    | [] => Ok db
    | _ =>
      let! _ := refuse_if (sv_services_per_monitor db <? Z.of_nat (length affected)) ErrServiceFanout in
      noteServices now hs monitorID bucketStart (pgTime ts) affected db
    end.

(** ** A batch of heartbeats

    [noteHeartbeatsForServices]: the keys of the whole batch, in (service, bucket) order. *)
Record noteKey := { nk_service : string; nk_monitor : string; nk_bucket : Time; nk_ts : Time }.

Definition key_le (a b : noteKey) : Prop :=
  if bool_decide (nk_service a = nk_service b) then nk_bucket a <= nk_bucket b
  else String.le (nk_service a) (nk_service b).

#[global] Instance key_le_dec a b : Decision (key_le a b).
Proof. unfold key_le. case_bool_decide; apply _. Defined.

Fixpoint batchKeys (db : Services) (beats : list (string * Time)) : result MaterializeError (list noteKey) :=
  match beats with
  | [] => Ok []
  | (monitorID, ts) :: rest =>
    if bool_decide (monitorID = "") || IsZero ts then batchKeys db rest
    else
      let bucketStart := dateBin (pgTime ts) in
      let affected := servicesDeclaringMonitorAt db monitorID bucketStart in
      let! _ := refuse_if (sv_services_per_monitor db <? Z.of_nat (length affected)) ErrServiceFanout in
      let! keys := batchKeys db rest in
      Ok (map (fun sid => {| nk_service := sid; nk_monitor := monitorID; nk_bucket := bucketStart;
                             nk_ts := pgTime ts |}) affected ++ keys)
  end.

Fixpoint noteKeys (now : Time) (hs : heartbeats) (keys : list noteKey) (db : Services)
    : result MaterializeError Services :=
  match keys with
  | [] => Ok db
  | k :: rest =>
    let! db1 := repairIfBehindWatermark now hs (nk_service k) (nk_monitor k) (nk_bucket k) (nk_ts k)
                  (markBucket now (nk_service k) (nk_monitor k) (nk_bucket k) (nk_ts k) db) in
    noteKeys now hs rest db1
  end.

Definition noteHeartbeatsForServices (now : Time) (hs : heartbeats) (beats : list (string * Time)) (db : Services)
    : result MaterializeError Services :=
  let! keys := batchKeys db beats in
  noteKeys now hs (merge_sort key_le keys) db.
