(* ===== verification/ServiceReach.v ===== *)
(** * How far one heartbeat reaches
    (the two queries of [observationsForSQL] in [internal/store/servicematerialize.go] against
    [lateObservationReachEnd] in [internal/store/serviceingest.go])

    The reducer is sample-and-hold: what it needs to know of a monitor at an instant is the last
    row at or before it.  The two queries give it exactly that over the bucket; so a row that
    arrives late changes the buckets from its own to the next row's, and no other. *)

From S2P Require Import Prelude ServicePolicy MonitorRow Heartbeats Effective Aggregate Reduce ReduceExt Materialize ServiceRepair ServiceIngest.

Implicit Types (u v w t ts start frontier : Time) (P : Time -> bool) (hs : heartbeats).

(** ** Minimum and maximum of a list *)
Lemma minimum_spec (l : list Time) :
  match minimum l with Some a => a ∈ l /\ forall b, b ∈ l -> a <= b | None => l = [] end.
Proof.
  induction l as [|x l IH]; [done|]. simpl. fold (minimum l). destruct (minimum l) as [a|].
  - destruct IH as [Ha Hmin]. split.
    + destruct (Z.min_spec x a) as [[_ ->]|[_ ->]]; set_solver.
    + intros b [->|Hb]%elem_of_cons; [lia|]. specialize (Hmin _ Hb). lia.
  - subst l. set_solver by lia.
Qed.

Lemma maximum_spec (l : list Time) :
  match maximum l with Some a => a ∈ l /\ forall b, b ∈ l -> b <= a | None => l = [] end.
Proof.
  induction l as [|x l IH]; [done|]. simpl. fold (maximum l). destruct (maximum l) as [a|].
  - destruct IH as [Ha Hmax]. split.
    + destruct (Z.max_spec x a) as [[_ ->]|[_ ->]]; set_solver.
    + intros b [->|Hb]%elem_of_cons; [lia|]. specialize (Hmax _ Hb). lia.
  - subst l. set_solver by lia.
Qed.

(** ** Rows *)
Lemma elem_of_rowsOf hs id P u row : (u, row) ∈ rowsOf hs id P <-> hs !! (id, u) = Some row /\ P u = true.
Proof.
  unfold rowsOf. rewrite list_elem_of_omap. split.
  - intros ([[id' v] r] & Hin & Heq). apply elem_of_map_to_list in Hin. simpl in Heq.
    case_bool_decide as Hid; simpl in Heq; [|done]. destruct (P v) eqn:HP; [|done].
    injection Heq as -> ->. by subst id'.
  - intros [Hl HP]. exists ((id, u), row). rewrite elem_of_map_to_list. split; [done|]. simpl.
    by rewrite bool_decide_eq_true_2, HP.
Qed.

Lemma latestRow_spec hs id P :
  match latestRow hs id P with
  | Some (u, row) => hs !! (id, u) = Some row /\ P u = true /\
                     forall v row', hs !! (id, v) = Some row' -> P v = true -> v <= u
  | None => forall v row', hs !! (id, v) = Some row' -> P v = false
  end.
Proof.
  unfold latestRow. destruct (maxBy _ _) as [[u row]|] eqn:E.
  - apply maxBy_Some in E as [Hin Hbest]; [|intros; bool_facts; apply Z.ltb_lt; lia
      |intros; bool_facts; apply Z.ltb_ge; lia].
    apply elem_of_rowsOf in Hin as [Hl HP]. split_and!; [done..|]. intros v row' Hv HPv.
    specialize (Hbest (v, row') ltac:(by apply elem_of_rowsOf)). simpl in Hbest. bool_facts. lia.
  - apply maxBy_None in E. intros v row' Hv. destruct (P v) eqn:HP; [|done].
    assert ((v, row') ∈ rowsOf hs id P) as Hin by by apply elem_of_rowsOf.
    rewrite E in Hin. set_solver.
Qed.

Lemma latestRow_Some hs id P u row :
  hs !! (id, u) = Some row -> P u = true ->
  (forall v row', hs !! (id, v) = Some row' -> P v = true -> v <= u) ->
  latestRow hs id P = Some (u, row).
Proof.
  intros Hu HP Hmax. pose proof (latestRow_spec hs id P) as H.
  destruct (latestRow hs id P) as [[v row']|].
  - destruct H as (Hv & HPv & Hbest). specialize (Hbest _ _ Hu HP). specialize (Hmax _ _ Hv HPv).
    assert (v = u) as -> by lia. congruence.
  - by rewrite (H _ _ Hu) in HP.
Qed.

Lemma latestRow_None hs id P :
  (forall v row', hs !! (id, v) = Some row' -> P v = false) -> latestRow hs id P = None.
Proof.
  intros Hno. pose proof (latestRow_spec hs id P) as H. destruct (latestRow hs id P) as [[v row']|]; [|done].
  destruct H as (Hv & HPv & _). by rewrite (Hno _ _ Hv) in HPv.
Qed.

(** What the heartbeats say of a monitor at an instant: its last row at or before it. *)
Definition heldRow (hs : heartbeats) (id : string) (t : Time) : option (Time * HeartbeatRow) :=
  latestRow hs id (fun u => u <=? t).

Lemma heldRow_Some hs id t u row :
  hs !! (id, u) = Some row -> u <= t ->
  (forall v row', hs !! (id, v) = Some row' -> v <= t -> v <= u) -> heldRow hs id t = Some (u, row).
Proof.
  intros Hu Ht Hmax. apply latestRow_Some; cbn beta; [done|by apply Z.leb_le|].
  intros v row' Hv Hvt. bool_facts. by eapply Hmax.
Qed.

Lemma heldRow_spec hs id t :
  match heldRow hs id t with
  | Some (u, row) => hs !! (id, u) = Some row /\ u <= t /\
                     forall v row', hs !! (id, v) = Some row' -> v <= t -> v <= u
  | None => forall v row', hs !! (id, v) = Some row' -> t < v
  end.
Proof.
  pose proof (latestRow_spec hs id (fun u => u <=? t)) as H. unfold heldRow.
  destruct (latestRow _ _ _) as [[u row]|].
  - destruct H as (Hu & HP & Hmax). bool_facts. split_and!; [done..|].
    intros v row' Hv Hvt. eapply Hmax; [done|]. by apply Z.leb_le.
  - intros v row' Hv. specialize (H _ _ Hv). by bool_facts.
Qed.

(** ** The two queries give sample-and-hold *)

(** The observations of one member, in the reducer's order. *)
Lemma elem_of_seriesOf m o obs :
  o ∈ s_obs (seriesOf m obs) <-> o ∈ obs /\ o_MonitorID o = m_MonitorID m.
Proof.
  unfold seriesOf. simpl. rewrite merge_sort_Permutation, groupObservations_lookup, elem_of_filter_b.
  by rewrite bool_decide_eq_true.
Qed.

Lemma elem_of_observationsFor hs members start (end_ : Time) o :
  o ∈ observationsFor hs members start end_ <->
  exists id u row, id ∈ map m_MonitorID members /\ o = obsOf id (u, row) /\
    ((hs !! (id, u) = Some row /\ start <= u < end_) \/
     latestRow hs id (fun t => t <? start) = Some (u, row)).
Proof.
  unfold observationsFor. rewrite elem_of_app, elem_of_flat_map, list_elem_of_omap. split.
  - intros [(id & Hid & ([u row] & -> & [Hu HP]%elem_of_rowsOf)%list_elem_of_fmap)
           |(id & Hid & Ho)].
    + rewrite elem_of_remove_dups in Hid. bool_facts. exists id, u, row. split_and!; [done..|]. left. split; [done|lia].
    + destruct (latestRow hs id _) as [[u row]|] eqn:E; [|done]. injection Ho as <-.
      exists id, u, row. split_and!; [done..|]. by right.
  - intros (id & u & row & Hid & -> & [[Hu Hr]|Hl]).
    + left. exists id. split; [by apply elem_of_remove_dups|]. apply list_elem_of_fmap.
      exists (u, row). split; [done|]. apply elem_of_rowsOf. split; [done|].
      apply andb_true_iff. split; [apply Z.leb_le|apply Z.ltb_lt]; lia.
    + right. exists id. split; [done|]. by rewrite Hl.
Qed.

Lemma latestAt_held hs members m start (end_ : Time) t :
  m ∈ members -> start <= t < end_ ->
  latestAt (seriesOf m (observationsFor hs members start end_)) t
  = obsOf (m_MonitorID m) <$> heldRow hs (m_MonitorID m) t.
Proof.
  intros Hm Ht. set (id := m_MonitorID m).
  assert (id ∈ map m_MonitorID members) as Hid by (apply list_elem_of_fmap; by exists m).
  pose proof (latestAt_spec (seriesOf m (observationsFor hs members start end_)) t
                ltac:(apply StronglySorted_merge_sort; apply _)) as Hl.
  (* every row the series holds is a row of the table, and the held row is in the series *)
  assert (forall o, o ∈ s_obs (seriesOf m (observationsFor hs members start end_)) ->
            exists u row, o = obsOf id (u, row) /\ hs !! (id, u) = Some row) as Hrows.
  { intros o [(id' & u & row & _ & -> & Hr)%elem_of_observationsFor Hido]%elem_of_seriesOf.
    simpl in Hido. subst id'. exists u, row. split; [done|]. destruct Hr as [[Hr _]|Hr]; [done|].
    pose proof (latestRow_spec hs (m_MonitorID m) (fun t => t <? start)) as H. rewrite Hr in H. by destruct H. }
  assert (forall u row, heldRow hs id t = Some (u, row) ->
            obsOf id (u, row) ∈ s_obs (seriesOf m (observationsFor hs members start end_))) as Hin.
  { intros u row Hh. pose proof (heldRow_spec hs id t) as H. rewrite Hh in H. destruct H as (Hu & Hut & Hmax).
    apply elem_of_seriesOf. split; [|done]. apply elem_of_observationsFor. exists id, u, row.
    split_and!; [done..|]. destruct (decide (start <= u)) as [Hs|Hs]; [left; split; [done|lia]|right].
    apply latestRow_Some; cbn beta; [done|by apply Z.ltb_lt; lia|].
    intros v row' Hv Hvs. bool_facts. eapply Hmax; [done|lia]. }
  pose proof (heldRow_spec hs id t) as Hspec.
  destruct (latestAt _ t) as [o|] eqn:El.
  - destruct Hl as (Ho & Hot & Hbest). destruct (Hrows o Ho) as (u & row & -> & Hu). simpl in Hot.
    rewrite (heldRow_Some hs id t u row); [done..|].
    intros v row' Hv Hvt.
    destruct (heldRow hs id t) as [[w roww]|] eqn:Eh; [|specialize (Hspec _ _ Hv); lia].
    destruct Hspec as (Hw & Hwt & Hmax). specialize (Hmax _ _ Hv Hvt).
    specialize (Hbest _ (Hin _ _ eq_refl) Hwt). simpl in Hbest. lia.
  - destruct (heldRow hs id t) as [[w roww]|] eqn:Eh; [|done].
    destruct Hspec as (Hw & Hwt & Hmax). specialize (Hl _ (Hin _ _ eq_refl)). simpl in Hl. lia.
Qed.

(** ** The reducer reads the held rows *)

Lemma stateAt_latest s1 s2 t spans ex :
  s_Member s1 = s_Member s2 -> latestAt s1 t = latestAt s2 t -> stateAt s1 t spans ex = stateAt s2 t spans ex.
Proof. unfold stateAt. by intros -> ->. Qed.

Lemma Reduce_held hs1 hs2 db1 db2 s1 s2 e start :
  sv_windows db1 = sv_windows db2 -> ss_project s1 = ss_project s2 ->
  (forall m t, m ∈ ep_members e -> start <= t < Add start CanonicalBucket ->
     heldRow hs1 (m_MonitorID m) t = heldRow hs2 (m_MonitorID m) t) ->
  Reduce (inputFor hs1 db1 s1 e start) = Reduce (inputFor hs2 db2 s2 e start).
Proof.
  intros Hw Hp Hheld. apply Reduce_reads_only_states.
  { cbn [in_Start in_End inputFor]. unfold Add, CanonicalBucket, Minute, Second, int64_max. lia. }
  split; [done..|]. cbn [in_Start in_End in_Members inputFor]. intros m t Hm Ht.
  unfold memberStateAt. cbn [in_Observations in_Maintenance in_Policies inputFor].
  unfold maintenanceSpansFor. rewrite Hw, Hp. apply stateAt_latest; [done|].
  by rewrite !latestAt_held, Hheld by done.
Qed.

(** ** Buckets *)
Definition aligned t : Prop := (CanonicalBucket | t).

Lemma bucket_pos : 0 < CanonicalBucket.
Proof. done. Qed.

Lemma dateBin_floor t : dateBin t = FloorToBucket t.
Proof.
  unfold dateBin, FloorToBucket, Truncate. change CanonicalBucket with Minute.
  assert (Minute <=? 0 = false) as -> by done.
  assert (unixEpoch = 1035593280 * Minute) as -> by reflexivity.
  replace (t - 1035593280 * Minute) with (t + (- 1035593280) * Minute) by lia.
  rewrite Z.div_add by done. pose proof (Z.div_mod t Minute ltac:(done)). lia.
Qed.

Lemma dateBin_spec t : aligned (dateBin t) /\ dateBin t <= t < dateBin t + CanonicalBucket.
Proof. rewrite dateBin_floor. destruct (bucket_bounds t) as (H & _ & Hb & _). done. Qed.

Lemma FloorToBucket_spec t : aligned (FloorToBucket t) /\ FloorToBucket t <= t < FloorToBucket t + CanonicalBucket.
Proof. rewrite <- dateBin_floor. apply dateBin_spec. Qed.

Lemma CeilToBucket_spec t : aligned (CeilToBucket t) /\ t <= CeilToBucket t < t + CanonicalBucket.
Proof. destruct (bucket_bounds t) as (_ & H & _ & Hb & _). done. Qed.

(** Two aligned instants less than a bucket apart are in order. *)
Lemma aligned_lt b c : aligned b -> aligned c -> b < c + CanonicalBucket -> b <= c.
Proof. intros [x ->] [y ->] H. unfold CanonicalBucket, Minute, Second in *. lia. Qed.

Lemma CeilToBucket_aligned t : aligned t -> CeilToBucket t = t.
Proof.
  intros Ht. destruct (CeilToBucket_spec t) as [Hc Hb].
  pose proof (aligned_lt _ _ Hc Ht ltac:(lia)). lia.
Qed.

Lemma FloorToBucket_aligned t : aligned t -> FloorToBucket t = t.
Proof.
  intros Ht. rewrite <- dateBin_floor. destruct (dateBin_spec t) as [Hc Hb].
  pose proof (aligned_lt _ _ Ht Hc ltac:(lia)). lia.
Qed.

(** ** One inserted row *)
Section insert.
Context (hs : heartbeats) (id : string) (ts : Time) (r : HeartbeatRow).
Hypothesis Hfresh : hs !! (id, ts) = None.
Notation hs' := (<[(id, ts) := r]> hs).

Lemma lookup_insert_row id' v row :
  hs' !! (id', v) = Some row <-> (id' = id /\ v = ts /\ row = r) \/ hs !! (id', v) = Some row.
Proof.
  destruct (decide ((id', v) = (id, ts))) as [E|E].
  - injection E as -> ->. rewrite lookup_insert_eq, Hfresh. naive_solver.
  - rewrite lookup_insert_ne by done. naive_solver.
Qed.

(** Held only from its instant to the next row's. *)
Lemma heldRow_insert_other id' t :
  id' <> id \/ t < ts \/ (exists v row, hs !! (id', v) = Some row /\ ts < v <= t) ->
  heldRow hs' id' t = heldRow hs id' t.
Proof.
  intros Hout. pose proof (heldRow_spec hs id' t) as H. destruct (heldRow hs id' t) as [[u row]|].
  - destruct H as (Hu & Hut & Hmax). apply heldRow_Some; [apply lookup_insert_row; by right|done|].
    intros v row' [(-> & -> & ->)|Hv]%lookup_insert_row Hvt; [|by eapply Hmax].
    destruct Hout as [?|[?|(v & row' & Hv & Hb)]]; [done|lia|].
    specialize (Hmax _ _ Hv ltac:(lia)). lia.
  - apply latestRow_None. intros v row' [(-> & -> & ->)|Hv]%lookup_insert_row; apply Z.leb_gt.
    + destruct Hout as [?|[?|(v & row' & Hv & Hb)]]; [done|lia|]. specialize (H _ _ Hv). lia.
    + by eapply H.
Qed.

Lemma heldRow_insert_own t :
  ts <= t -> (forall v row, hs !! (id, v) = Some row -> v <= ts \/ t < v) -> heldRow hs' id t = Some (ts, r).
Proof.
  intros Ht Hno. apply heldRow_Some; [apply lookup_insert_row; by left|done|].
  intros v row' [(_ & -> & _)|Hv]%lookup_insert_row Hvt; [done|].
  destruct (Hno _ _ Hv); lia.
Qed.

Lemma heldRow_insert_cases id' t :
  heldRow hs' id' t = heldRow hs id' t \/ (id' = id /\ ts <= t /\ heldRow hs' id' t = Some (ts, r)).
Proof.
  destruct (decide (id' = id)) as [->|Hid]; [|left; apply heldRow_insert_other; by left].
  destruct (decide (ts <= t)) as [Ht|Ht]; [|left; apply heldRow_insert_other; right; left; lia].
  pose proof (heldRow_spec hs' id t) as H. destruct (heldRow hs' id t) as [[u row]|] eqn:E.
  2:{ specialize (H ts r ltac:(apply lookup_insert_row; by left)). lia. }
  destruct H as ([(_ & -> & ->)|Hu]%lookup_insert_row & Hut & Hmax); [by right|].
  left. rewrite <- E. apply heldRow_insert_other. right; right. exists u, row. split; [done|].
  pose proof (Hmax ts r ltac:(apply lookup_insert_row; by left) Ht) as Hle. split; [|done].
  destruct (decide (u = ts)) as [->|]; [|lia]. by rewrite Hfresh in Hu.
Qed.

(** The rows between the new one and the frontier. *)
Lemma nextObservation_spec frontier :
  match nextObservation hs' id ts frontier with
  | Some n => ts < n < frontier /\ (exists row, hs !! (id, n) = Some row) /\
              forall v row, hs !! (id, v) = Some row -> v <= ts \/ n <= v
  | None => forall v row, hs !! (id, v) = Some row -> v <= ts \/ frontier <= v
  end.
Proof.
  unfold nextObservation.
  pose proof (minimum_spec (map fst (rowsOf hs' id (fun t => (ts <? t) && (t <? frontier))))) as H.
  assert (forall v, v ∈ map fst (rowsOf hs' id (fun t => (ts <? t) && (t <? frontier))) <->
            (exists row, hs !! (id, v) = Some row) /\ ts < v < frontier) as Hin.
  { intros v. rewrite list_elem_of_fmap. split.
    - intros ([v' row] & -> & [Hl Hb]%elem_of_rowsOf). bool_facts. simpl.
      apply lookup_insert_row in Hl as [(_ & -> & _)|Hl]; [lia|]. split; [by exists row|lia].
    - intros ((row & Hl) & Hb). exists (v, row). split; [done|]. apply elem_of_rowsOf.
      rewrite lookup_insert_row. split; [by right|].
      apply andb_true_iff. split; apply Z.ltb_lt; lia. }
  destruct (minimum _) as [n|].
  - destruct H as [[Hn Hb]%Hin Hmin]. split_and!; [lia..|done|]. intros v row Hv.
    destruct (decide (v <= ts)); [by left|]. right.
    destruct (decide (v < frontier)); [|lia]. apply Hmin, Hin. split; [by exists row|lia].
  - intros v row Hv. destruct (decide (v <= ts)); [by left|]. right.
    destruct (decide (v < frontier)); [|lia].
    assert (v ∈ map fst (rowsOf hs' id (fun t => (ts <? t) && (t <? frontier)))) as Hc
      by (apply Hin; split; [by exists row|lia]).
    rewrite H in Hc. set_solver.
Qed.
End insert.

(** ** The range that is queued *)
Section reach.
Context (hs : heartbeats) (id : string) (ts : Time) (r : HeartbeatRow) (frontier : Time).
Hypothesis Hfresh : hs !! (id, ts) = None.
Notation hs' := (<[(id, ts) := r]> hs).
Notation reachEnd := (lateObservationReachEnd hs' id ts frontier).

Lemma in_reach b :
  aligned b -> b < frontier -> dateBin ts <= b < reachEnd ->
  exists t, b <= t < b + CanonicalBucket /\ heldRow hs' id t = Some (ts, r).
Proof.
  intros Hb Hf Hr. destruct (dateBin_spec ts) as [Hd Hts]. pose proof bucket_pos as Hpos.
  exists (Z.max b ts). split.
  { destruct Hr as [Hr1 Hr2]. destruct (decide (b < ts)) as [Hlt|Hlt]; [|lia].
    pose proof (aligned_lt _ _ Hb Hd ltac:(lia)). lia. }
  apply heldRow_insert_own; [done|lia|]. intros v row Hv.
  pose proof (nextObservation_spec hs id ts r Hfresh frontier) as Hn. unfold lateObservationReachEnd in Hr.
  destruct (nextObservation hs' id ts frontier) as [n|].
  - destruct Hn as (Hn & _ & Hnext). destruct (Hnext _ _ Hv) as [?|Hv']; [by left|right].
    destruct (CeilToBucket_spec n) as [Hc Hcb]. destruct Hr as [Hr1 Hr2].
    destruct (decide (b < n)) as [?|Hbn]; [lia|].
    pose proof (aligned_lt _ _ Hc Hb ltac:(lia)). lia.
  - destruct (decide (v <= ts)); [by left|right]. destruct (Hn _ _ Hv) as [?|?]; lia.
Qed.

Lemma out_of_reach b :
  aligned b -> b < frontier -> ~ dateBin ts <= b < reachEnd ->
  forall id' t, b <= t < b + CanonicalBucket -> heldRow hs' id' t = heldRow hs id' t.
Proof.
  intros Hb Hf Hr id' t Ht. destruct (dateBin_spec ts) as [Hd Hts].
  apply heldRow_insert_other; [done|]. destruct (decide (id' = id)) as [->|Hid]; [right|by left].
  destruct (decide (t < ts)) as [Htts|Htts]; [by left|right].
  assert (dateBin ts <= b) as Hdb by (apply aligned_lt; [done|done|lia]).
  pose proof (nextObservation_spec hs id ts r Hfresh frontier) as Hn. unfold lateObservationReachEnd in Hr.
  destruct (nextObservation hs' id ts frontier) as [n|]; [|by destruct Hr].
  destruct Hn as (Hn & (row & Hrow) & _). exists n, row. split; [done|].
  destruct (CeilToBucket_spec n) as [_ Hcb]. lia.
Qed.
End reach.

(** The range queued for a row contains every bucket before the frontier in which it is held. *)
Lemma nextObservation_some hs id ts frontier n :
  nextObservation hs id ts frontier = Some n -> ts < n < frontier /\ is_Some (hs !! (id, n)).
Proof.
  unfold nextObservation. intros Hn.
  pose proof (minimum_spec (map fst (rowsOf hs id (fun t => (ts <? t) && (t <? frontier))))) as H.
  rewrite Hn in H. destruct H as [([v row] & -> & [Hl Hb]%elem_of_rowsOf)%list_elem_of_fmap _].
  bool_facts. simpl. split; [lia|by eexists].
Qed.

Lemma held_in_reach hs id t u row frontier b :
  heldRow hs id t = Some (u, row) -> aligned b -> b <= t < b + CanonicalBucket -> b < frontier ->
  dateBin u <= b < lateObservationReachEnd hs id u frontier.
Proof.
  intros Hh Hb Ht Hf. pose proof (heldRow_spec hs id t) as H. rewrite Hh in H. destruct H as (Hu & Hut & Hmax).
  destruct (dateBin_spec u) as [Hd Hdu]. split; [apply aligned_lt; [done..|lia]|].
  unfold lateObservationReachEnd. destruct (nextObservation hs id u frontier) as [n|] eqn:E; [|done].
  apply nextObservation_some in E as [Hn [row' Hr]]. destruct (CeilToBucket_spec n) as [_ Hc].
  destruct (decide (n <= t)) as [Hnt|]; [|lia]. specialize (Hmax _ _ Hr Hnt). lia.
Qed.

Lemma reachEnd_frontier hs id ts frontier :
  aligned frontier -> CeilToBucket (lateObservationReachEnd hs id ts frontier) <= frontier.
Proof.
  intros Hf. unfold lateObservationReachEnd. destruct (nextObservation _ _ _ _) as [n|] eqn:E.
  - apply nextObservation_some in E as [Hn _]. destruct (CeilToBucket_spec n) as [Hc Hb].
    rewrite (CeilToBucket_aligned (CeilToBucket n)) by done. apply aligned_lt; [done..|lia].
  - by rewrite CeilToBucket_aligned.
Qed.

(** Rows are only added: what is held changes only to a new row. *)
Lemma heldRow_grows hs hs' id t :
  hs ⊆ hs' -> heldRow hs' id t = heldRow hs id t \/
  exists u row, heldRow hs' id t = Some (u, row) /\ hs !! (id, u) = None.
Proof.
  intros Hsub. pose proof (heldRow_spec hs' id t) as H. destruct (heldRow hs' id t) as [[u row]|].
  - destruct H as (Hu & Hut & Hmax). destruct (hs !! (id, u)) as [row0|] eqn:E; [left|by right; exists u, row].
    pose proof (lookup_weaken _ _ _ _ E Hsub) as E'. assert (row0 = row) as -> by congruence.
    symmetry. apply heldRow_Some; [done..|]. intros v row' Hv Hvt. eapply Hmax; [by eapply lookup_weaken|done].
  - left. symmetry. apply latestRow_None. intros v row' Hv. apply Z.leb_gt. eapply H. by eapply lookup_weaken.
Qed.

(** The members of a demonstration service, and its heartbeats. *)
Definition reachMember (id : string) : Member :=
  {| m_MonitorID := id; m_Region := "eu"; m_Enabled := true; m_Type := MonitorHTTP;
     m_StaleAfter := 600 * Second; m_ArmedAt := 0 |}.

Definition upRow : HeartbeatRow :=
  {| hr_up := true; hr_latency_ms := 10; hr_code := 200; hr_msg := ""; hr_observed_at := None |}.
Definition downRow : HeartbeatRow :=
  {| hr_up := false; hr_latency_ms := 10; hr_code := 503; hr_msg := ""; hr_observed_at := None |}.

Definition reachHeartbeats : heartbeats :=
  list_to_map [(("a", unixEpoch + 30 * Second), upRow); (("a", unixEpoch + 250 * Second), upRow);
               (("b", unixEpoch + 100 * Second), upRow)].

(** the repair a late heartbeat queues is exactly the set of buckets it can change.  Among
    the canonical buckets before the frontier, those of [bucketStart, reachEnd) are the buckets
    where the new row is the one in force at some instant; in every other bucket each monitor's
    row in force is what it was, so the bucket reduces to the same number. *)
Theorem late_heartbeat_reach hs id ts r frontier b
  (Hfresh : hs !! (id, ts) = None) (Hb : aligned b) (Hf : b < frontier) :
  let hs' := <[(id, ts) := r]> hs in
  (dateBin ts <= b < lateObservationReachEnd hs' id ts frontier <->
   exists t, b <= t < b + CanonicalBucket /\ heldRow hs' id t = Some (ts, r)) /\
  (~ dateBin ts <= b < lateObservationReachEnd hs' id ts frontier ->
   forall db s e, Reduce (inputFor hs' db s e b) = Reduce (inputFor hs db s e b)).
Proof.
  cbv zeta. split.
  - split; [by apply in_reach|]. intros (t & Ht & Hheld).
    destruct (decide (dateBin ts <= b < lateObservationReachEnd (<[(id, ts) := r]> hs) id ts frontier)) as [|Hout]; [done|].
    rewrite (out_of_reach hs id ts r frontier Hfresh b Hb Hf Hout id t Ht) in Hheld.
    pose proof (heldRow_spec hs id t) as H. rewrite Hheld in H. destruct H as [H _]. by rewrite Hfresh in H.
  - intros Hout db s e. apply Reduce_held; [done..|]. intros m t _ Ht.
    by apply (out_of_reach hs id ts r frontier Hfresh b Hb Hf Hout).
Qed.

Example late_heartbeat_reach_witness :
  let hs' := <[("a", unixEpoch + 90 * Second) := downRow]> reachHeartbeats in
  dateBin (unixEpoch + 90 * Second) = unixEpoch + 60 * Second /\
  lateObservationReachEnd hs' "a" (unixEpoch + 90 * Second) (unixEpoch + 600 * Second) = unixEpoch + 300 * Second /\
  (forall db s e, Reduce (inputFor hs' db s e (unixEpoch + 300 * Second))
                  = Reduce (inputFor reachHeartbeats db s e (unixEpoch + 300 * Second))).
Proof.
  intros hs'. split; [reflexivity|]. split; [vm_compute; reflexivity|].
  refine (proj2 (late_heartbeat_reach reachHeartbeats "a" (unixEpoch + 90 * Second) downRow
    (unixEpoch + 600 * Second) (unixEpoch + 300 * Second) _ _ _) _).
  - vm_compute. reflexivity.
  - exists 1035593285. reflexivity.
  - reflexivity.
  - vm_compute. intros [_ H]. discriminate H.
Defined.
