(* ===== verification/ServiceWatermark.v ===== *)
(** * The contiguity watermark
    ([advanceSealedThrough] in [internal/store/servicematerialize.go])

    The query computes the end of the sealed prefix from windowed gaps ("stops").  Here it is
    shown equal to the walk it stands for: from the start of the scan, bucket by bucket, while
    the bucket is sealed. *)

From S2P Require Import Prelude ServicePolicy MonitorRow Heartbeats Effective Aggregate Reduce Materialize ServiceRepair ServiceIngest ServiceReach.

Implicit Types (t b start limit : Time) (s : ServiceState).

(** The reference: at most [n] buckets. *)
Fixpoint sealedPrefix (s : ServiceState) (n : nat) (start : Time) : Time :=
  match n with
  | O => start
  | S n => if sealedAt s start then sealedPrefix s n (start + CanonicalBucket) else start
  end.

Definition anyFactIn (s : ServiceState) (start limit : Time) : bool :=
  existsb (fun t => (start <=? t) && (t <? limit)) (map fst (map_to_list (ss_facts s))).

(** ** The walk *)
Lemma sealedPrefix_spec s n start :
  aligned start ->
  let t := sealedPrefix s n start in
  aligned t /\ start <= t <= start + Z.of_nat n * CanonicalBucket /\
  (forall b, aligned b -> start <= b < t -> sealedAt s b = true) /\
  (t < start + Z.of_nat n * CanonicalBucket -> sealedAt s t = false).
Proof.
  pose proof bucket_pos as Hpos. revert start. induction n as [|n IH]; intros start Hs; cbn zeta.
  { simpl. split_and!; [done|lia|lia|intros; lia|lia]. }
  cbn [sealedPrefix]. destruct (sealedAt s start) eqn:E.
  - destruct (IH (start + CanonicalBucket)) as (Ha & Hr & Hin & Hend).
    { by apply Z.divide_add_r, Z.divide_refl. }
    split; [done|]. split; [lia|]. split; [|intros; apply Hend; lia].
    intros b Hb Hbt. destruct (decide (b < start + CanonicalBucket)) as [Hlt|Hge]; [|apply Hin; [done|lia]].
    pose proof (aligned_lt _ _ Hb Hs Hlt). by replace b with start by lia.
  - split_and!; [done|lia|lia|intros; lia|done].
Qed.

(** The end of a sealed prefix is unique. *)
Lemma sealedPrefix_unique s n start t :
  aligned start -> aligned t -> start <= t <= start + Z.of_nat n * CanonicalBucket ->
  (forall b, aligned b -> start <= b < t -> sealedAt s b = true) ->
  (t < start + Z.of_nat n * CanonicalBucket -> sealedAt s t = false) ->
  t = sealedPrefix s n start.
Proof.
  intros Hs Ht Hr Hin Hend. destruct (sealedPrefix_spec s n start Hs) as (Ha' & Hr' & Hin' & Hend').
  destruct (Z.lt_trichotomy t (sealedPrefix s n start)) as [Hlt|[?|Hlt]]; [|done|].
  - rewrite (Hin' t Ht) in Hend by lia. specialize (Hend ltac:(lia)). done.
  - rewrite (Hin _ Ha') in Hend' by lia. specialize (Hend' ltac:(lia)). done.
Qed.

(** ** The rows of the scan *)
Definition facts_aligned (s : ServiceState) : Prop := forall b f, ss_facts s !! b = Some f -> aligned b.

Lemma sealedAt_row s b : sealedAt s b = true -> is_Some (ss_facts s !! b).
Proof. unfold sealedAt. destruct (ss_facts s !! b); [by eexists|done]. Qed.

Lemma elem_of_ordered s start limit t sl :
  (t, sl) ∈ orderedBuckets s start limit <->
  is_Some (ss_facts s !! t) /\ start <= t < limit /\ sl = sealedAt s t.
Proof.
  unfold orderedBuckets. rewrite list_elem_of_fmap. split.
  - intros (u & [= <- ->] & Hu). rewrite merge_sort_Permutation in Hu.
    apply elem_of_filter_b in Hu as [Hu Hb]. bool_facts.
    apply list_elem_of_fmap in Hu as ([u f] & -> & Hf%elem_of_map_to_list).
    split; [by eexists|]. split; [simpl in *; lia|done].
  - intros ([f Hf] & Hb & ->). exists t. split; [done|]. rewrite merge_sort_Permutation.
    apply elem_of_filter_b. split.
    + apply list_elem_of_fmap. exists (t, f). split; [done|]. by apply elem_of_map_to_list.
    + apply andb_true_iff. split; [apply Z.leb_le|apply Z.ltb_lt]; lia.
Qed.

Lemma ordered_sorted s start limit : StronglySorted Z.lt (map fst (orderedBuckets s start limit)).
Proof.
  unfold orderedBuckets. rewrite map_map, map_id.
  set (l := List.filter _ _). assert (NoDup (merge_sort Z.le l)) as Hnd.
  { rewrite merge_sort_Permutation. subst l. apply NoDup_ListNoDup, List.NoDup_filter, NoDup_ListNoDup.
    apply NoDup_fst_map_to_list. }
  assert (StronglySorted Z.le (merge_sort Z.le l)) as Hs by (apply StronglySorted_merge_sort; apply _).
  generalize dependent (merge_sort Z.le l). clear l. intros l Hnd Hs.
  induction Hs as [|x l Hs IH Hall]; [constructor|]. apply list.NoDup_cons in Hnd as [Hx Hnd].
  constructor; [by apply IH|]. rewrite Forall_forall in Hall |- *. intros y Hy.
  specialize (Hall _ Hy). assert (x <> y) by (intros ->; apply Hx; by apply list_elem_of_In). lia.
Qed.

(** ** The stops *)

(** Where the next row is expected. *)
Definition expected (prev : option Time) (start : Time) : Time :=
  match prev with Some p => Add p CanonicalBucket | None => start end.

Lemma gapStops_cons prev t sl rest start :
  gapStops prev ((t, sl) :: rest) start
  = (if sl then [] else [t]) ++ (if t =? expected prev start then [] else [expected prev start])
    ++ gapStops (Some t) rest start.
Proof. by destruct prev. Qed.

Lemma gapStops_ge rows : forall prev start,
  StronglySorted Z.lt (map fst rows) -> Forall aligned (map fst rows) -> aligned (expected prev start) ->
  Forall (fun t => expected prev start <= t) (map fst rows) ->
  forall x, x ∈ gapStops prev rows start -> expected prev start <= x.
Proof.
  induction rows as [|[t sl] rest IH]; intros prev start Hs Ha Hp Hge x Hx; [set_solver|].
  rewrite gapStops_cons in Hx. cbn [map fst] in Hs, Ha, Hge.
  apply StronglySorted_inv in Hs as [Hs Hlt]. inversion Ha as [|? ? Hat Ha']; subst.
  inversion Hge as [|? ? Ht Hge']; subst.
  rewrite !elem_of_app in Hx. destruct Hx as [Hx|[Hx|Hx]].
  - destruct sl; [set_solver|]. apply list_elem_of_singleton in Hx as ->. done.
  - destruct (t =? _); [set_solver|]. apply list_elem_of_singleton in Hx as ->. lia.
  - apply IH in Hx; [|done|done| |].
    + cbn [expected] in Hx. unfold Add in Hx. pose proof bucket_pos. lia.
    + cbn. unfold Add. apply Z.divide_add_r; [done|apply Z.divide_refl].
    + rewrite Forall_forall in Hlt |- *. intros y Hy. specialize (Hlt _ Hy). cbn. unfold Add.
      rewrite Forall_forall in Ha'. specialize (Ha' _ Hy).
      destruct (decide (y < t + CanonicalBucket)) as [Hy'|]; [|lia].
      pose proof (aligned_lt _ _ Ha' Hat Hy'). lia.
Qed.

Lemma minimum_least (l : list Time) t : t ∈ l -> (forall x, x ∈ l -> t <= x) -> minimum l = Some t.
Proof.
  intros Ht Hle. pose proof (minimum_spec l) as H. destruct (minimum l) as [a|]; [|set_solver].
  destruct H as [Ha Hmin]. specialize (Hle _ Ha). specialize (Hmin _ Ht). f_equal. lia.
Qed.

(** What the first stop says about rows in order. *)
Definition stops_meaning (e : Time) (rows : list (Time * bool)) (o : option Time) : Prop :=
  match o with
  | Some t => aligned t /\ e <= t /\ (exists u, u ∈ map fst rows /\ t <= u) /\
              (forall b, aligned b -> e <= b < t -> (b, true) ∈ rows) /\ (t, true) ∉ rows
  | None => forall b u, aligned b -> e <= b -> u ∈ map fst rows -> b <= u -> (b, true) ∈ rows
  end.

Lemma gapStops_spec rows : forall prev start,
  StronglySorted Z.lt (map fst rows) -> Forall aligned (map fst rows) -> aligned (expected prev start) ->
  Forall (fun t => expected prev start <= t) (map fst rows) ->
  stops_meaning (expected prev start) rows (minimum (gapStops prev rows start)).
Proof.
  pose proof bucket_pos as Hpos.
  induction rows as [|[t sl] rest IH]; intros prev start Hs Ha Hp Hge; [by intros b u _ _ Hu; set_solver|].
  pose proof (gapStops_ge _ prev start Hs Ha Hp Hge) as Hstops.
  cbn [map fst] in Hs, Ha, Hge.
  apply StronglySorted_inv in Hs as [Hs Hlt]. inversion Ha as [|? ? Hat Ha']; subst.
  inversion Hge as [|? ? Ht Hge']; subst. rewrite Forall_forall in Hlt.
  assert (forall u sl', (u, sl') ∈ rest -> t < u) as Hrest.
  { intros u sl' Hu. apply Hlt, list_elem_of_In, list_elem_of_fmap. by exists (u, sl'). }
  set (e := expected prev start) in *.
  destruct (decide (t = e)) as [->|Hte].
  2:{ (* a gap before the row *)
    rewrite (minimum_least _ e); [|rewrite gapStops_cons|done].
    - split; [done|]. split; [lia|]. split; [exists t; split; [set_solver|done]|]. split; [intros; lia|].
      rewrite elem_of_cons. intros [[= He _]|Hin]; [by subst|]. specialize (Hrest _ _ Hin). lia.
    - rewrite !elem_of_app. right; left. fold e. apply Z.eqb_neq in Hte as ->. set_solver. }
  destruct sl.
  2:{ (* a row that is not sealed *)
    rewrite (minimum_least _ e); [|rewrite gapStops_cons; set_solver|done].
    split; [done|]. split; [lia|]. split; [exists e; set_solver by lia|]. split; [intros; lia|].
    rewrite elem_of_cons. intros [[= ?]|Hin]. specialize (Hrest _ _ Hin). lia. }
  (* the row is sealed and in its place *)
  rewrite gapStops_cons. fold e. rewrite Z.eqb_refl. cbn [app].
  assert (aligned (e + CanonicalBucket)) as Hae by by apply Z.divide_add_r, Z.divide_refl.
  assert (Forall (fun t => expected (Some e) start <= t) (map fst rest)) as Hge2.
  { apply Forall_forall. intros y Hy. specialize (Hlt _ Hy). cbn. unfold Add.
    rewrite Forall_forall in Ha'. specialize (Ha' _ Hy).
    destruct (decide (y < e + CanonicalBucket)) as [Hy'|]; [|lia].
    pose proof (aligned_lt _ _ Ha' Hp Hy'). lia. }
  specialize (IH (Some e) start Hs Ha' Hae Hge2). cbn [expected] in IH. unfold Add in IH.
  assert (forall b, aligned b -> e <= b < e + CanonicalBucket -> (b, true) ∈ (e, true) :: rest) as Hfirst.
  { intros b Hb Hbe. pose proof (aligned_lt _ _ Hb Hp ltac:(lia)). replace b with e by lia. set_solver. }
  destruct (minimum (gapStops (Some e) rest start)) as [m|].
  - destruct IH as (Hm & Hem & (u & Hu & Hmu) & Hin & Hnin).
    split; [done|]. split; [lia|]. split; [exists u; split; [set_solver|done]|]. split.
    + intros b Hb Hbm. destruct (decide (b < e + CanonicalBucket)); [apply Hfirst; [done|lia]|].
      apply elem_of_cons. right. apply Hin; [done|lia].
    + rewrite elem_of_cons. intros [[= ->]|?]; [lia|done].
  - intros b u Hb Heb Hu Hbu. destruct (decide (b < e + CanonicalBucket)); [apply Hfirst; [done|lia]|].
    apply elem_of_cons. right. apply (IH b u); [done|lia| |done].
    apply elem_of_cons in Hu as [Hu|Hu]; [simpl in Hu; lia|done].
Qed.

Lemma anyFactIn_iff s start limit :
  anyFactIn s start limit = true <-> exists u f, ss_facts s !! u = Some f /\ start <= u < limit.
Proof.
  unfold anyFactIn. rewrite existsb_exists. split.
  - intros (u & Hu & Hb). bool_facts.
    apply list_elem_of_In, list_elem_of_fmap in Hu as ([u' f] & -> & Hf%elem_of_map_to_list).
    exists u', f. split; [done|simpl in *; lia].
  - intros (u & f & Hf & Hb). exists u. split.
    + apply list_elem_of_In, list_elem_of_fmap. exists (u, f). split; [done|]. by apply elem_of_map_to_list.
    + apply andb_true_iff. split; [apply Z.leb_le|apply Z.ltb_lt]; lia.
Qed.

(** ** The query is the walk *)
Lemma sealedThrough_walk s start n :
  facts_aligned s -> aligned start ->
  sealedThrough s start (start + Z.of_nat n * CanonicalBucket)
  = if anyFactIn s start (start + Z.of_nat n * CanonicalBucket) then Some (sealedPrefix s n start) else None.
Proof.
  intros Hfa Hs. set (limit := start + Z.of_nat n * CanonicalBucket).
  pose proof bucket_pos as Hpos.
  assert (aligned limit) as Hl by (apply Z.divide_add_r; [done|apply Z.divide_factor_r]).
  set (rows := orderedBuckets s start limit).
  assert (forall t sl, (t, sl) ∈ rows <-> is_Some (ss_facts s !! t) /\ start <= t < limit /\ sl = sealedAt s t) as Hrows
    by (intros; apply elem_of_ordered).
  assert (forall u, u ∈ map fst rows -> is_Some (ss_facts s !! u) /\ start <= u < limit /\ aligned u) as Hfst.
  { intros u ([u' sl] & -> & (Hf & Hb & _)%Hrows)%list_elem_of_fmap. simpl. split_and!; [done|lia|lia|].
    destruct Hf as [f Hf]. by eapply Hfa. }
  assert (stops_meaning start rows (minimum (gapStops None rows start))) as Hm.
  { apply gapStops_spec; [apply ordered_sorted|apply Forall_forall|done|apply Forall_forall];
      intros u Hu%list_elem_of_In%Hfst; [apply Hu|simpl; lia]. }
  assert (forall b, (b, true) ∈ rows -> sealedAt s b = true) as Hsealed by by (intros b (_ & _ & Hb)%Hrows).
  assert (forall b, start <= b < limit -> (b, true) ∉ rows -> sealedAt s b = false) as Hunsealed.
  { intros b Hb Hn. destruct (sealedAt s b) eqn:E; [|done]. destruct Hn. apply Hrows.
    split_and!; [by apply sealedAt_row|lia|lia|done]. }
  unfold sealedThrough. fold rows. destruct (minimum (gapStops None rows start)) as [t|].
  - destruct Hm as (Ht & Hst & (u & Hu & Htu) & Hin & Hnin). apply Hfst in Hu as ([f Hf] & Hu & _).
    replace (anyFactIn s start limit) with true by (symmetry; apply anyFactIn_iff; by exists u, f).
    f_equal. apply sealedPrefix_unique; [done..|lia| |].
    + intros b Hb Hbt. by apply Hsealed, Hin.
    + intros _. apply Hunsealed; [lia|done].
  - pose proof (maximum_spec (map fst rows)) as Hmax. destruct (maximum (map fst rows)) as [u|].
    + destruct Hmax as [Hu Hbest]. pose proof (Hfst _ Hu) as ([f Hf] & Hub & Hua).
      replace (anyFactIn s start limit) with true by (symmetry; apply anyFactIn_iff; by exists u, f).
      cbn. f_equal. unfold Add. apply sealedPrefix_unique; [done|by apply Z.divide_add_r, Z.divide_refl| | |].
      * pose proof (aligned_lt (u + CanonicalBucket) limit ltac:(by apply Z.divide_add_r, Z.divide_refl) Hl ltac:(lia)).
        fold limit. lia.
      * intros b Hb Hbu. apply Hsealed. apply (Hm b u); [done|lia|done|].
        apply aligned_lt; [done..|lia].
      * intros Hul. destruct (sealedAt s (u + CanonicalBucket)) eqn:E; [|done].
        pose proof (sealedAt_row _ _ E) as HS. specialize (Hbest (u + CanonicalBucket)).
        assert (u + CanonicalBucket ∈ map fst rows); [|specialize (Hbest H); lia].
        apply list_elem_of_fmap. exists (u + CanonicalBucket, true). split; [done|]. apply Hrows.
        split_and!; [done|lia|done|done].
    + cbn. replace (anyFactIn s start limit) with false; [done|symmetry].
      apply not_true_iff_false. intros (u' & f & Hf & Hb)%anyFactIn_iff.
      assert (u' ∈ map fst rows) as Hc; [|rewrite Hmax in Hc; set_solver].
      apply list_elem_of_fmap. exists (u', sealedAt s u'). split; [done|]. apply Hrows.
      split_and!; [by eexists|lia|lia|done].
Qed.

(** Where the scan starts: the watermark itself once it is past the era, the era otherwise. *)
Definition scanStart (m : MatRow) : Time :=
  match mt_sealed m with
  | Some c => if After c (mt_era m) then c else mt_era m
  | None => mt_era m
  end.

(** The reference: walk the sealed buckets, at most [watermarkScanBuckets] of them, when there is
    a bucket to look at. *)
Definition walkWatermark (s : ServiceState) : ServiceState :=
  match ss_mat s with
  | None => s
  | Some m =>
    if anyFactIn s (scanStart m) (scanStart m + watermarkScanBuckets * CanonicalBucket)
    then setMat s (Some (setSealed m (Some (sealedPrefix s (Z.to_nat watermarkScanBuckets) (scanStart m)))))
    else s
  end.

Record mat_aligned (m : MatRow) : Prop := {
  ma_era : aligned (mt_era m);
  ma_sealed : forall c, mt_sealed m = Some c -> aligned c;
  ma_through : forall c, mt_through m = Some c -> aligned c;
  ma_start : aligned (mt_start m);
}.

Lemma scanStart_aligned m : mat_aligned m -> aligned (scanStart m).
Proof. intros [He Hc _ _]. unfold scanStart. repeat case_match; auto. Qed.

Lemma setSealed_same s m c :
  ss_mat s = Some m -> mt_sealed m = Some c -> setMat s (Some (setSealed m (Some c))) = s.
Proof. destruct s, m. simpl. intros -> ->. done. Qed.

Lemma advanceSealedRow_walk s :
  facts_aligned s -> (forall m, ss_mat s = Some m -> mat_aligned m) -> advanceSealedRow s = walkWatermark s.
Proof.
  intros Hf Hm. unfold advanceSealedRow, walkWatermark. destruct (ss_mat s) as [m|] eqn:Em; [|done].
  specialize (Hm m eq_refl). fold (scanStart m). unfold Add.
  pose proof (sealedThrough_walk s (scanStart m) (Z.to_nat watermarkScanBuckets) Hf (scanStart_aligned m Hm)) as Hw.
  rewrite Z2Nat.id in Hw by done. rewrite Hw.
  case_match; [|done]. case_bool_decide as Hsame; [|done]. by rewrite (setSealed_same s m _ Em Hsame).
Qed.

(** the contiguity watermark is the sealed prefix.  Recomputing [sealed_through] from the
    windowed gaps of the bucket table is walking bucket by bucket from the scan start while the
    bucket is sealed, for up to 1440 buckets; with no bucket in the window it moves nothing.  So
    the watermark never jumps over a bucket that is missing or not sealed, and stops early only
    at one. *)
Theorem watermark_is_the_sealed_prefix s m
  (Hf : facts_aligned s) (Hmat : ss_mat s = Some m) (Hm : mat_aligned m) :
  advanceSealedRow s = walkWatermark s /\
  let limit := scanStart m + watermarkScanBuckets * CanonicalBucket in
  if anyFactIn s (scanStart m) limit
  then exists t, ss_mat (advanceSealedRow s) = Some (setSealed m (Some t)) /\
       scanStart m <= t <= limit /\ aligned t /\
       (forall b, aligned b -> scanStart m <= b < t -> sealedAt s b = true) /\
       (t < limit -> sealedAt s t = false)
  else advanceSealedRow s = s.
Proof.
  assert (advanceSealedRow s = walkWatermark s) as Heq.
  { apply advanceSealedRow_walk; [done|]. intros m' Hm'. by simplify_eq. }
  split; [done|]. cbv zeta. rewrite Heq. unfold walkWatermark. rewrite Hmat. case_match; [|done].
  exists (sealedPrefix s (Z.to_nat watermarkScanBuckets) (scanStart m)).
  destruct (sealedPrefix_spec s (Z.to_nat watermarkScanBuckets) (scanStart m) (scanStart_aligned m Hm))
    as (Ha & Hr & Hin & Hend).
  rewrite Z2Nat.id in Hr, Hend by done. split_and!; [done|lia|lia|done..].
Qed.

Definition demoSplit : bucketSplit :=
  {| bs_good := 60000000; bs_bad := 0; bs_unknown := 0; bs_excluded := 0;
     bs_healthy := 60000000; bs_degraded := 0; bs_down := 0; bs_healthUnknown := 0 |}.

Definition demoFact (sealed : bool) : Fact :=
  {| ft_epoch := "e"; ft_split := demoSplit;
     ft_provenance := {| p_Declared := 1; p_Bad := []; p_Unknown := []; p_Excluded := []; p_Overflow := 0;
                         p_Weakened := [] |};
     ft_sealed := sealed; ft_sealed_at := None; ft_sealed_generation := None; ft_maintenance_generation := 0 |}.

Definition demoService : ServiceState :=
  {| ss_project := "p"; ss_revisions := []; ss_epochs := [];
     ss_mat := Some {| mt_start := 0; mt_era := 0; mt_through := Some (300 * Second); mt_sealed := None;
                       mt_retracted_at := None; mt_retracted_to := None |};
     ss_ingest := ∅;
     ss_facts := list_to_map [(0, demoFact true); (60 * Second, demoFact true); (180 * Second, demoFact true);
                              (240 * Second, demoFact false)];
     ss_late := ∅; ss_ranges := ∅ |}.

Example watermark_is_the_sealed_prefix_witness :
  option_map mt_sealed (ss_mat (walkWatermark demoService)) = Some (Some (120 * Second)) /\
  advanceSealedRow demoService = walkWatermark demoService.
Proof.
  split; [vm_compute; reflexivity|].
  refine (proj1 (watermark_is_the_sealed_prefix demoService _ _ eq_refl _)).
  - intros b f Hb. apply elem_of_list_to_map_2 in Hb. cbn in Hb.
    rewrite !elem_of_cons in Hb. decompose [or] Hb; simplify_eq; [exists 0|exists 1|exists 3|exists 4|];
      first [reflexivity|set_solver].
  - split; cbn; [exists 0; reflexivity|discriminate|intros c [= <-]; exists 5; reflexivity|exists 0; reflexivity].
Defined.
