(* ===== verification/ServiceWrites.v ===== *)
(** * What the operations on buckets and ranges write
    (inversion lemmas for [internal/store/servicematerialize.go], [servicerepair.go] and
    [serviceingest.go])

    Each transaction is described by the rows it changes and the rows it leaves, which is what
    the invariant of [ServiceSeal] needs of it. *)

From S2P Require Import Prelude ServicePolicy MonitorRow Heartbeats Effective Aggregate Reduce Materialize ServiceRepair ServiceIngest ServiceReach ServiceWatermark.

Implicit Types (t b start limit now : Time) (s : ServiceState) (db : Services) (hs : heartbeats).

(** ** What a stored fact should be *)

(** The fact is what [Reduce] computes today from the evidence, under the epoch in force. *)
Definition agrees hs db s b (f : Fact) : Prop :=
  exists e bk, epochAt s b = Some e /\ ep_members e <> [] /\ Reduce (inputFor hs db s e b) = Ok bk /\
    ft_split f = splitOf (b_Durations bk) /\ ft_provenance f = b_Provenance bk.

(** The definition of a service, as far as measuring goes. *)
Record same_def (s s' : ServiceState) : Prop := {
  sd_project : ss_project s' = ss_project s;
  sd_revisions : ss_revisions s' = ss_revisions s;
  sd_epochs : ss_epochs s' = ss_epochs s;
}.

#[export] Instance same_def_preorder : PreOrder same_def.
Proof.
  split; [by split|]. intros x y z [H1 H2 H3] [H4 H5 H6]. split; congruence.
Qed.

(** The rows that no measurement writes. *)
Record same_env (db db' : Services) : Prop := {
  se_windows : sv_windows db' = sv_windows db;
  se_monitors : sv_monitors db' = sv_monitors db;
}.

#[export] Instance same_env_preorder : PreOrder same_env.
Proof. split; [by split|]. intros x y z [H1 H2] [H3 H4]. split; congruence. Qed.

Lemma epochAt_same s s' b : same_def s s' -> epochAt s' b = epochAt s b.
Proof. intros [_ _ He]. unfold epochAt. by rewrite He. Qed.

Lemma inputFor_same hs db db' s s' e b :
  same_env db db' -> same_def s s' -> inputFor hs db' s' e b = inputFor hs db s e b.
Proof. intros [Hw _] [Hp _ _]. unfold inputFor, maintenanceSpansFor. by rewrite Hw, Hp. Qed.

Lemma agrees_same hs db db' s s' b f :
  same_env db db' -> same_def s s' -> agrees hs db s b f -> agrees hs db' s' b f.
Proof.
  intros He Hd (e & bk & H1 & H2 & H3 & H4 & H5). exists e, bk.
  rewrite (epochAt_same _ _ _ Hd), (inputFor_same _ _ _ _ _ _ _ He Hd). done.
Qed.

(** The transaction wrote the rows of one service. *)
Record only_service (sid : string) (db db' : Services) (s' : ServiceState) : Prop := {
  os_services : sv_services db' = <[sid := s']> (sv_services db);
  os_env : same_env db db';
  os_generation : sv_generation db' = sv_generation db;
  os_limit : sv_services_per_monitor db' = sv_services_per_monitor db;
}.

Lemma only_service_set sid db s : only_service sid db (setService db sid s) s.
Proof. by split. Qed.

Lemma only_service_trans sid db db1 db2 s1 s2 :
  only_service sid db db1 s1 -> only_service sid db1 db2 s2 -> only_service sid db db2 s2.
Proof.
  intros [Hs He Hg Hl] [Hs' He' Hg' Hl']. split; [|by etrans|congruence..].
  by rewrite Hs', Hs, insert_insert_eq.
Qed.

Lemma only_service_lookup sid db db' s : only_service sid db db' s -> sv_services db' !! sid = Some s.
Proof. intros [-> _ _ _]. by rewrite lookup_insert_eq. Qed.

(** ** One bucket *)

(** What a pass over the buckets [bs] in a mode made of a service's rows. *)
Record written hs db (mode : materializeMode) (bs : list Time) (s s' : ServiceState) : Prop := {
  wr_def : same_def s s';
  wr_mat : ss_mat s' = ss_mat s;
  wr_ranges : ss_ranges s' = ss_ranges s;
  wr_facts : forall b, ss_facts s' !! b = ss_facts s !! b \/
               (b ∈ bs /\ exists f, ss_facts s' !! b = Some f /\ agrees hs db s b f);
  wr_sealed : forall b, sealedAt s b = true -> sealedAt s' b = true;
  wr_ordinary : mode = modeOrdinary -> forall b, sealedAt s b = true -> ss_facts s' !! b = ss_facts s !! b;
  wr_recompute : mode = modeRecompute -> forall b e, b ∈ bs -> epochAt s b = Some e -> ep_members e <> [] ->
    exists f, ss_facts s' !! b = Some f /\ agrees hs db s b f;
}.

Lemma written_nil hs db mode s : written hs db mode [] s s.
Proof. split; try done; [by left|set_solver]. Qed.

Lemma sealedAt_facts s s' b : ss_facts s' !! b = ss_facts s !! b -> sealedAt s' b = sealedAt s b.
Proof. unfold sealedAt. by intros ->. Qed.

Lemma written_trans hs db db1 mode bs1 bs2 s s1 s2 :
  same_env db db1 -> written hs db mode bs1 s s1 -> written hs db1 mode bs2 s1 s2 ->
  written hs db mode (bs1 ++ bs2) s s2.
Proof.
  intros He [Hd Hm Hr Hf Hs Ho Hc] [Hd' Hm' Hr' Hf' Hs' Ho' Hc'].
  assert (same_env db1 db) as He' by (destruct He; by split).
  assert (same_def s1 s) as Hds by (destruct Hd; by split).
  assert (forall b f, agrees hs db1 s1 b f -> agrees hs db s b f) as Hback by (intros; by eapply agrees_same).
  split; [by etrans|congruence..| |auto| |].
  - intros b. destruct (Hf' b) as [->|(Hb & f & Hl & Ha)].
    + destruct (Hf b) as [->|(Hb & Hrest)]; [by left|right]. split; [set_solver|done].
    + right. split; [set_solver|]. exists f. auto.
  - intros Hmode b Hsb. rewrite (Ho' Hmode) by auto. by apply Ho.
  - intros Hmode b e Hb Hep Hne. apply elem_of_app in Hb as [Hb|Hb].
    + destruct (Hc Hmode b e Hb Hep Hne) as (f & Hl & Ha).
      destruct (Hf' b) as [->|(_ & f' & Hl' & Ha')]; [by exists f|]. exists f'. auto.
    + destruct (Hc' Hmode b e) as (f & Hl & Ha); [done|by rewrite (epochAt_same _ _ _ Hd)|done|].
      exists f. auto.
Qed.

(** Only the mark of the ingest counter: the row exists before any decision. *)
Lemma written_ingest hs db mode s i : written hs db mode [] s (setIngest s i).
Proof. split; try done; [by left|set_solver]. Qed.

Lemma factOf_agrees hs db s e now b wasSealed bk :
  epochAt s b = Some e -> ep_members e <> [] -> Reduce (inputFor hs db s e b) = Ok bk ->
  agrees hs db s b (factOf db s e now b wasSealed bk).
Proof. intros. by exists e, bk. Qed.

Lemma written_fact hs db mode s e now b bk :
  epochAt s b = Some e -> ep_members e <> [] -> Reduce (inputFor hs db s e b) = Ok bk ->
  (mode = modeOrdinary -> sealedAt s b = false) ->
  written hs db mode [b] s (setFacts s (<[b := factOf db s e now b (sealedAt s b) bk]> (ss_facts s))).
Proof.
  intros He Hne HR Hmode. pose proof (factOf_agrees hs db s e now b (sealedAt s b) bk He Hne HR) as Ha.
  split; try done.
  - intros b'. cbn [ss_facts setFacts]. destruct (decide (b' = b)) as [->|Hb].
    + right. rewrite lookup_insert_eq. split; [set_solver|by eexists].
    + left. by rewrite lookup_insert_ne.
  - intros b' Hs. unfold sealedAt at 1. cbn [ss_facts setFacts]. destruct (decide (b' = b)) as [->|Hb].
    + rewrite lookup_insert_eq. cbn [ft_sealed factOf]. rewrite Hs. apply orb_true_r.
    + rewrite lookup_insert_ne by done. exact Hs.
  - intros Hm b' Hs. cbn [ss_facts setFacts]. rewrite lookup_insert_ne; [done|].
    intros ->. by rewrite (Hmode Hm) in Hs.
  - intros _ b' e' Hb' _ _. apply list_elem_of_singleton in Hb' as ->. exists (factOf db s e now b (sealedAt s b) bk).
    cbn [ss_facts setFacts]. by rewrite lookup_insert_eq.
Qed.

Lemma written_weaken hs db mode bs s s' :
  written hs db mode [] s s' ->
  (mode = modeRecompute -> forall b e, b ∈ bs -> epochAt s b = Some e -> ep_members e = []) ->
  written hs db mode bs s s'.
Proof.
  intros [Hd Hm Hr Hf Hs Ho _] Hnone. split; try done.
  - intros b. destruct (Hf b) as [?|[Hb _]]; [by left|set_solver].
  - intros Hmode b e Hb He Hne. by rewrite (Hnone Hmode b e Hb He) in Hne.
Qed.

Lemma epochAt_ingest s i b : epochAt (setIngest s i) b = epochAt s b.
Proof. done. Qed.

(** The shape of a transaction on one service. *)
Definition tx_writes hs (sid : string) (mode : materializeMode) (bs : list Time) (db db' : Services) : Prop :=
  exists s s', sv_services db !! sid = Some s /\ only_service sid db db' s' /\
    sv_next_range db' = sv_next_range db /\ written hs db mode bs s s'.

Lemma materializeBucketTx_writes hs now sid start mode db db' d :
  materializeBucketTx hs now sid start mode db = Ok (db', d) -> tx_writes hs sid mode [start] db db'.
Proof.
  unfold materializeBucketTx. destruct (sv_services db !! sid) as [s0|] eqn:Es; [|done].
  set (s := setIngest s0 _). set (db1 := setService db sid s).
  assert (only_service sid db db1 s) as H1 by apply only_service_set.
  assert (written hs db mode [] s0 s) as Hw1 by apply written_ingest.
  intros H. exists s0.
  destruct (sealedAt s start && bool_decide (mode = modeOrdinary)) eqn:Eskip.
  { injection H as <- <-. exists s. split_and!; [done..|]. apply written_weaken; [done|].
    apply andb_prop in Eskip as [_ Hm%bool_decide_eq_true]. congruence. }
  destruct (epochAt s start) as [e|] eqn:Ee.
  2:{ injection H as <- <-. exists s. split_and!; [done..|]. apply written_weaken; [done|].
      intros _ b e Hb. apply list_elem_of_singleton in Hb as ->. unfold s in Ee. rewrite epochAt_ingest in Ee. congruence. }
  destruct (ep_members e) as [|m ms] eqn:Em.
  { injection H as <- <-. exists s. split_and!; [done..|]. apply written_weaken; [done|].
    intros _ b e' Hb. apply list_elem_of_singleton in Hb as ->. unfold s in Ee. rewrite epochAt_ingest in Ee. congruence. }
  destruct (refuse_if _ _); [|done]. cbn [rbind] in H.
  destruct (Reduce (inputFor hs db1 s e start)) as [bk|] eqn:ER; [|done].
  destruct (refuse_if _ _); [|done]. cbn [rbind] in H.
  set (f := factOf db1 s e now start (sealedAt s start) bk) in *.
  assert (written hs db1 mode [start] s (setFacts s (<[start := f]> (ss_facts s)))) as Hw2.
  { apply written_fact; [done|by rewrite Em|done|]. intros ->. rewrite bool_decide_eq_true_2 in Eskip by done.
    by rewrite andb_true_r in Eskip. }
  exists (setFacts s (<[start := f]> (ss_facts s))).
  assert (written hs db mode [start] s0 (setFacts s (<[start := f]> (ss_facts s)))) as Hw3.
  { change [start] with ([] ++ [start]). eapply written_trans; [|exact Hw1|exact Hw2]. apply H1. }
  assert (only_service sid db (setService db1 sid (setFacts s (<[start := f]> (ss_facts s))))
            (setFacts s (<[start := f]> (ss_facts s)))) as Hos
    by (eapply only_service_trans; [exact H1|apply only_service_set]).
  assert (db' = setService db1 sid (setFacts s (<[start := f]> (ss_facts s))) \/
          exists o n, db' = auditRecompute (setService db1 sid (setFacts s (<[start := f]> (ss_facts s)))) sid start o n)
    as Hdb'.
  { revert H. destruct (ss_facts s !! start) as [old|]; [destruct (_ && negb _)|]; intros [= <- <-]; eauto. }
  destruct Hdb' as [->|(o & n & ->)]; split_and!; try done.
  by destruct Hos as [? [] ? ?].
Qed.

Lemma tx_writes_trans hs sid mode bs1 bs2 db db1 db2 :
  tx_writes hs sid mode bs1 db db1 -> tx_writes hs sid mode bs2 db1 db2 -> tx_writes hs sid mode (bs1 ++ bs2) db db2.
Proof.
  intros (s & s1 & Hs & Ho & Hn & Hw) (s1' & s2 & Hs' & Ho' & Hn' & Hw').
  rewrite (only_service_lookup _ _ _ _ Ho) in Hs'. injection Hs' as <-.
  exists s, s2. split_and!; [done|by eapply only_service_trans|congruence|].
  eapply written_trans; [apply Ho|exact Hw|exact Hw'].
Qed.

Lemma materializeBuckets_writes hs now sid mode bs db db' n s :
  sv_services db !! sid = Some s ->
  materializeBuckets hs now sid mode bs db = Ok (db', n) -> tx_writes hs sid mode bs db db'.
Proof.
  revert db n s. induction bs as [|b bs IH]; intros db n s Hs; cbn.
  { intros [= <- <-]. exists s, s. split_and!; [done| |done|apply written_nil].
    split; try done. by rewrite insert_id. }
  destruct (materializeBucketTx _ _ _ _ _ _) as [[db1 d]|] eqn:E1; [|done]. cbn.
  destruct (materializeBuckets _ _ _ _ _ db1) as [[db2 n2]|] eqn:E2; [|done]. cbn. intros [= <- <-].
  apply materializeBucketTx_writes in E1. change (b :: bs) with ([b] ++ bs).
  eapply tx_writes_trans; [exact E1|]. destruct E1 as (s0 & s1 & _ & Ho & _).
  eapply IH; [by eapply only_service_lookup|exact E2].
Qed.

Lemma elem_of_bucketsOf from to b :
  aligned from -> b ∈ bucketsOf from to <-> aligned b /\ from <= b < to.
Proof.
  intros Hf. unfold bucketsOf. rewrite list_elem_of_fmap. pose proof bucket_pos as Hpos. split.
  - intros (i & -> & Hi%elem_of_seqZ). split.
    + apply Z.divide_add_r; [done|apply Z.divide_factor_r].
    + pose proof (Z.mul_div_le (to - from + CanonicalBucket - 1) CanonicalBucket Hpos). nia.
  - intros [Hb Hr]. destruct (Z.divide_sub_r _ _ _ Hb Hf) as [i Hi].
    exists i. split; [lia|]. apply elem_of_seqZ. split; [nia|]. rewrite Z.add_0_l.
    assert (i + 1 <= (to - from + CanonicalBucket - 1) / CanonicalBucket); [|lia].
    apply Z.div_le_lower_bound; [done|]. nia.
Qed.

(** ** The watermark *)
Lemma advanceSealedRow_def s : same_def s (advanceSealedRow s).
Proof. unfold advanceSealedRow. repeat case_match; by split. Qed.

Lemma advanceSealedRow_facts s : ss_facts (advanceSealedRow s) = ss_facts s.
Proof. unfold advanceSealedRow. repeat case_match; done. Qed.

Lemma advanceSealedRow_ranges s : ss_ranges (advanceSealedRow s) = ss_ranges s.
Proof. unfold advanceSealedRow. repeat case_match; done. Qed.

Lemma advanceSealedThrough_only sid db s :
  sv_services db !! sid = Some s -> only_service sid db (advanceSealedThrough sid db) (advanceSealedRow s) /\
  sv_next_range (advanceSealedThrough sid db) = sv_next_range db.
Proof. intros Hs. unfold advanceSealedThrough. rewrite Hs. split; [apply only_service_set|done]. Qed.

(** ** Queueing a range *)

(** The rows of the service beside its ranges and the marks of ingestion. *)
Record same_rows (s s' : ServiceState) : Prop := {
  sr_def : same_def s s';
  sr_mat : ss_mat s' = ss_mat s;
  sr_facts : ss_facts s' = ss_facts s;
}.

#[export] Instance same_rows_preorder : PreOrder same_rows.
Proof.
  split; [by split|]. intros x y z [H1 H2 H3] [H4 H5 H6]. split; [by etrans|congruence..].
Qed.

(** What a queued range is: a pending row that contains what was asked and what it absorbed. *)
Record enqueued (id : positive) (from to : Time) (origin : string) (s s' : ServiceState) (row : RepairRow) : Prop := {
  eq_rows : same_rows s s';
  eq_new : ss_ranges s' !! id = Some row;
  eq_old : forall i r, ss_ranges s' !! i = Some r -> i = id \/ ss_ranges s !! i = Some r;
  eq_kept : forall i r, i <> id -> ss_ranges s !! i = Some r ->
    ss_ranges s' !! i = Some r \/
    (rr_from row <= rr_from r /\ rr_to r <= rr_to row /\ (rr_origin r = "" -> rr_origin row = ""));
  eq_from : rr_from row <= from;
  eq_to : to <= rr_to row;
  eq_pending : rr_state row = RangePending;
  eq_cursor : rr_cursor row = Some (rr_from row);
  eq_origin : origin = "" -> rr_origin row = "";
  eq_ends : forall P : Time -> Prop, P to -> (forall i r, ss_ranges s !! i = Some r -> P (rr_to r)) -> P (rr_to row);
  eq_starts : forall P : Time -> Prop, P from -> (forall i r, ss_ranges s !! i = Some r -> P (rr_from r)) -> P (rr_from row);
}.

Lemma foldr_choice (f : Z -> Z -> Z) (l : list Z) (x : Z) (P : Z -> Prop) :
  (forall a b, f a b = a \/ f a b = b) -> P x -> (forall y, y ∈ l -> P y) -> P (foldr f x l).
Proof.
  intros Hf Hx. induction l as [|y l IH]; intros Hl; [done|]. simpl.
  destruct (Hf y (foldr f x l)) as [->| ->]; [apply Hl; set_solver|]. apply IH. set_solver.
Qed.

Lemma foldr_min_le (l : list Z) (x : Z) : foldr Z.min x l <= x /\ forall y, y ∈ l -> foldr Z.min x l <= y.
Proof.
  induction l as [|y l [IHx IHl]]; simpl; [split; [lia|set_solver]|]. split; [lia|].
  intros z [->|Hz]%elem_of_cons; [lia|]. specialize (IHl _ Hz). lia.
Qed.

Lemma foldr_max_ge (l : list Z) (x : Z) : x <= foldr Z.max x l /\ forall y, y ∈ l -> y <= foldr Z.max x l.
Proof.
  induction l as [|y l [IHx IHl]]; simpl; [split; [lia|set_solver]|]. split; [lia|].
  intros z [->|Hz]%elem_of_cons; [lia|]. specialize (IHl _ Hz). lia.
Qed.

Lemma enqueueRepairRangeTx_writes now sid from0 to0 reason origin db db' :
  enqueueRepairRangeTx now sid from0 to0 reason origin db = Ok db' ->
  exists s s' row, sv_services db !! sid = Some s /\ only_service sid db db' s' /\
    sv_next_range db' = Pos.succ (sv_next_range db) /\
    enqueued (sv_next_range db) (FloorToBucket from0) (CeilToBucket to0) origin s s' row.
Proof.
  unfold enqueueRepairRangeTx. destruct (sv_services db !! sid) as [s|] eqn:Es; [|done].
  destruct (refuse_if _ _); [|done]. cbn [rbind].
  set (absorbed := base.filter _ (ss_ranges s)). set (rows := map snd (map_to_list absorbed)).
  set (row := newRange _ _ _ _ _ _). intros [= <-].
  set (s' := setRanges s (<[sv_next_range db := row]> (ss_ranges s ∖ absorbed))).
  assert (forall i r, absorbed !! i = Some r -> r ∈ rows /\ ss_ranges s !! i = Some r) as Habs.
  { intros i r Hr. split.
    - apply list_elem_of_fmap. exists (i, r). split; [done|]. by apply elem_of_map_to_list.
    - by apply map_lookup_filter_Some in Hr as [? _]. }
  assert (forall r, r ∈ rows -> exists i, ss_ranges s !! i = Some r) as Hrows.
  { intros r ([i r'] & -> & Hr%elem_of_map_to_list)%list_elem_of_fmap. exists i. by apply Habs. }
  exists s, s', row. split; [done|]. split; [by split|]. split; [done|].
  split.
  - by split.
  - cbn. by rewrite lookup_insert_eq.
  - intros i r. cbn. destruct (decide (i = sv_next_range db)) as [->|Hi]; [by left|].
    rewrite lookup_insert_ne by done. intros [Hr _]%lookup_difference_Some. by right.
  - intros i r Hi Hr. cbn. rewrite lookup_insert_ne by done. rewrite lookup_difference_Some.
    destruct (absorbed !! i) as [r'|] eqn:Ea; [right|by left]. apply Habs in Ea as [Hin Hr']. simplify_eq.
    split; [|split].
    + apply foldr_min_le. apply list_elem_of_fmap. by exists r.
    + apply foldr_max_ge. apply list_elem_of_fmap. by exists r.
    + intros Ho. destruct (existsb _ rows) eqn:Ex; [done|]. apply not_true_iff_false in Ex.
      cbn. destruct (decide (origin = "")) as [|Hne]; [done|]. destruct Ex. apply existsb_exists. exists r.
      split; [by apply list_elem_of_In|]. rewrite Ho, bool_decide_eq_false_2; done.
  - apply (proj1 (foldr_min_le _ _)).
  - apply (proj1 (foldr_max_ge _ _)).
  - done.
  - done.
  - intros ->. cbn. by destruct (existsb _ rows).
  - intros P HP Hall. apply (foldr_choice Z.max _ _ P); [intros; lia|done|].
    intros y (r & -> & Hr)%list_elem_of_fmap. destruct (Hrows _ Hr) as [i Hi]. by eapply Hall.
  - intros P HP Hall. apply (foldr_choice Z.min _ _ P); [intros; lia|done|].
    intros y (r & -> & Hr)%list_elem_of_fmap. destruct (Hrows _ Hr) as [i Hi]. by eapply Hall.
Qed.
