(* ===== verification/ServiceSeal.v ===== *)
(** * Sealed numbers answer for themselves
    (the composition of [internal/store/servicematerialize.go], [servicerepair.go],
    [serviceingest.go])

    The system: heartbeats arrive in any order and late, the forward driver seals buckets,
    workers claim repair ranges, run batches, finish, fail, release, lose their lease and die,
    with any number of workers over the same range.  The invariant: a sealed fact is what the
    evidence says today, or a range that will still recompute it is queued, or the observation
    that changed it was not, in its own bucket, an observation of this service. *)

From S2P Require Import Prelude ServicePolicy MonitorRow Heartbeats Effective Aggregate Reduce Materialize ServiceRepair ServiceIngest ServiceReach ServiceWatermark ServiceWrites.

Implicit Types (t b start now : Time) (s : ServiceState) (db : Services) (hs : heartbeats) (ws : list RepairRange).

(** ** What accounts for a sealed fact *)

(** An observation of the monitor at [at_] is an observation of the service. *)
Definition noted db s (monitorID : string) (at_ : Time) : bool :=
  bool_decide (sv_monitors db !! monitorID = Some (ss_project s)) && declares s monitorID at_.

Definition cursorOf (r : RepairRow) : Time := default (rr_from r) (rr_cursor r).

Definition live (st : RangeState) : bool :=
  match st with RangePending | RangeRunning | RangeError => true | RangeComplete | RangeSuperseded => false end.

(** The range still has the bucket before it, for every worker that holds it. *)
Record owes ws (sid : string) (id : positive) (r : RepairRow) b : Prop := {
  ow_from : rr_from r <= b;
  ow_to : b < rr_to r;
  ow_origin : rr_origin r = "";
  ow_live : live (rr_state r) = true;
  ow_cursor : cursorOf r <= b;
  ow_workers : forall w, w ∈ ws -> wk_service w = sid -> wk_id w = id -> wk_cursor w <= b;
}.

Definition covered ws (sid : string) s b : Prop :=
  exists id r, ss_ranges s !! id = Some r /\ owes ws sid id r b.

(** Some member's row in force over the bucket was ingested into a bucket in which the
    definition did not declare the monitor. *)
Definition blind hs db s b : Prop :=
  exists e m t u row, epochAt s b = Some e /\ m ∈ ep_members e /\ b <= t < b + CanonicalBucket /\
    heldRow hs (m_MonitorID m) t = Some (u, row) /\ noted db s (m_MonitorID m) (dateBin u) = false.

Definition accounted hs db ws (sid : string) s b (f : Fact) : Prop :=
  agrees hs db s b f \/ covered ws sid s b \/ blind hs db s b.

(** ** The invariant *)
Definition throughOf s : option Time := ss_mat s ≫= mt_through.
Definition upto s t : Prop := exists u, throughOf s = Some u /\ t <= u.

Record mat_inv s (m : MatRow) : Prop := {
  mi_aligned : mat_aligned m;
  mi_through : exists th, mt_through m = Some th /\ mt_era m <= th /\ mt_start m <= th /\
                 forall c, mt_sealed m = Some c -> c <= th;
  mi_contiguous : forall c b, mt_sealed m = Some c -> aligned b -> mt_era m <= b < c -> sealedAt s b = true;
}.

Record range_inv (next : positive) s (id : positive) (r : RepairRow) : Prop := {
  ri_id : (id < next)%positive;
  ri_from : aligned (rr_from r);
  ri_to : aligned (rr_to r);
  ri_cursor : aligned (cursorOf r);
  ri_upto : upto s (rr_to r);
}.

(** [owed] is what an ingest in progress has still to queue. *)
Record service_inv (owed : ServiceState -> Time -> Prop) hs db ws (sid : string) s : Prop := {
  si_mat : forall m, ss_mat s = Some m -> mat_inv s m;
  si_facts : forall b f, ss_facts s !! b = Some f ->
    aligned b /\ upto s (b + CanonicalBucket) /\ exists e, epochAt s b = Some e /\ ep_members e <> [];
  si_ranges : forall id r, ss_ranges s !! id = Some r -> range_inv (sv_next_range db) s id r;
  si_truth : forall b f, ss_facts s !! b = Some f -> ft_sealed f = true ->
    accounted hs db ws sid s b f \/ owed s b;
}.

Record worker_inv db (w : RepairRange) : Prop := {
  wi_id : (wk_id w < sv_next_range db)%positive;
  wi_to : aligned (wk_to w);
  wi_cursor : aligned (wk_cursor w);
  wi_row : exists s, sv_services db !! wk_service w = Some s /\ upto s (wk_to w) /\
             forall r, ss_ranges s !! wk_id w = Some r -> rr_to r = wk_to w;
}.

Record seal_inv_owing (owed : string -> ServiceState -> Time -> Prop) hs db ws : Prop := {
  sl_services : forall sid s, sv_services db !! sid = Some s -> service_inv (owed sid) hs db ws sid s;
  sl_workers : forall w, w ∈ ws -> worker_inv db w;
}.

Definition nothing_owed (sid : string) s b : Prop := False.
Definition seal_inv := seal_inv_owing nothing_owed.

(** ** Stability *)
Lemma noted_same db db' s s' id t :
  same_env db db' -> same_def s s' -> noted db' s' id t = noted db s id t.
Proof. intros [_ He] [Hp Hr _]. unfold noted, declares, governing. by rewrite He, Hp, Hr. Qed.

Lemma blind_same hs db db' s s' b :
  same_env db db' -> same_def s s' -> blind hs db s b -> blind hs db' s' b.
Proof.
  intros He Hd (e & m & t & u & row & H1 & H2 & H3 & H4 & H5). exists e, m, t, u, row.
  by rewrite (epochAt_same _ _ _ Hd), (noted_same _ _ _ _ _ _ He Hd).
Qed.

Lemma upto_mat s s' t : ss_mat s' = ss_mat s -> upto s t -> upto s' t.
Proof. unfold upto, throughOf. by intros ->. Qed.

Lemma upto_le s t t' : t' <= t -> upto s t -> upto s t'.
Proof. intros Ht (u & Hu & Hle). exists u. split; [done|lia]. Qed.

Lemma owes_workers ws ws' sid id r b :
  (forall w, w ∈ ws' -> wk_service w = sid -> w ∈ ws) -> owes ws sid id r b -> owes ws' sid id r b.
Proof. intros Hw [H1 H2 H3 H4 H5 H6]. split; auto. Qed.

Lemma covered_workers ws ws' sid s b :
  (forall w, w ∈ ws' -> wk_service w = sid -> w ∈ ws) -> covered ws sid s b -> covered ws' sid s b.
Proof. intros Hw (id & r & Hr & Ho). exists id, r. split; [done|by eapply owes_workers]. Qed.

(** A service that the step did not write. *)
Lemma service_inv_other owed hs db db' ws ws' sid s :
  same_env db db' -> (sv_next_range db <= sv_next_range db')%positive ->
  (forall w, w ∈ ws' -> wk_service w = sid -> w ∈ ws) ->
  service_inv owed hs db ws sid s -> service_inv owed hs db' ws' sid s.
Proof.
  intros He Hn Hw [Hm Hf Hr Ht]. split; [done|done| |].
  - intros id r Hl. destruct (Hr _ _ Hl) as [? ? ? ? ?]. split; [lia|done..].
  - intros b f Hb Hs. destruct (Ht _ _ Hb Hs) as [[Ha|[Hc|Hbl]]|Ho]; [| | |by right]; left.
    + left. by eapply agrees_same.
    + right; left. by eapply covered_workers.
    + right; right. by eapply blind_same.
Qed.

Lemma service_inv_owed (owed owed' : ServiceState -> Time -> Prop) hs db ws sid s :
  (forall b, owed s b -> owed' s b) -> service_inv owed hs db ws sid s -> service_inv owed' hs db ws sid s.
Proof. intros Ho [Hm Hf Hr Ht]. split; [done..|]. intros b f Hb Hs. destruct (Ht b f Hb Hs); auto. Qed.

(** A step that writes one service. *)
Lemma seal_inv_update owed owed' hs db db' ws ws' sid s' :
  (forall sid' s b, sid' <> sid -> owed sid' s b -> owed' sid' s b) ->
  only_service sid db db' s' -> (sv_next_range db <= sv_next_range db')%positive ->
  (forall w, w ∈ ws' -> wk_service w <> sid -> w ∈ ws) ->
  service_inv (owed' sid) hs db' ws' sid s' ->
  (forall w, w ∈ ws' -> wk_service w = sid -> worker_inv db' w) ->
  seal_inv_owing owed hs db ws -> seal_inv_owing owed' hs db' ws'.
Proof.
  intros Howed Ho Hn Hw Hs' Hws [Hs Hwk]. split.
  - intros sid0 s0. rewrite (os_services _ _ _ _ Ho). destruct (decide (sid0 = sid)) as [->|Hne].
    + rewrite lookup_insert_eq. by intros [= <-].
    + rewrite lookup_insert_ne by done. intros Hl. eapply service_inv_owed; [by intros; apply Howed|].
      eapply service_inv_other; [apply Ho|done| |by apply Hs].
      intros w Hin Hsid. apply Hw; [done|congruence].
  - intros w Hin. destruct (decide (wk_service w = sid)) as [|Hne]; [by apply Hws|].
    destruct (Hwk w (Hw w Hin Hne)) as [Hid Hto Hc (s0 & Hl & Hrest)]. split; [lia|done..|].
    exists s0. rewrite (os_services _ _ _ _ Ho), lookup_insert_ne by done. done.
Qed.

(** ** Steps on ranges *)

(** The service's rows are the same but for its ranges; every range that owed a bucket still
    does, or another one does. *)
Lemma service_inv_ranges owed owed' hs db db' ws ws' sid s s' :
  same_env db db' -> same_rows s s' ->
  (forall b, covered ws sid s b -> covered ws' sid s' b) ->
  (forall b, owed s b -> owed' s' b \/ covered ws' sid s' b) ->
  (forall id r, ss_ranges s' !! id = Some r -> range_inv (sv_next_range db') s' id r) ->
  service_inv owed hs db ws sid s -> service_inv owed' hs db' ws' sid s'.
Proof.
  intros He [Hd Hmat Hfacts] Hcov Howed Hranges [Hm Hf Hr Ht].
  assert (forall b, sealedAt s' b = sealedAt s b) as Hseal by (intros; unfold sealedAt; by rewrite Hfacts).
  split; [| |exact Hranges|].
  - rewrite Hmat. intros m Hl. destruct (Hm m Hl) as [H1 H2 H3]. split; [done..|]. intros. rewrite Hseal. eauto.
  - rewrite Hfacts. intros b f Hb. destruct (Hf b f Hb) as (H1 & H2 & H3). split_and!; [done|by eapply upto_mat|].
    by rewrite (epochAt_same _ _ _ Hd).
  - rewrite Hfacts. intros b f Hb Hs. destruct (Ht b f Hb Hs) as [[Ha|[Hc|Hbl]]|Ho].
    + left; left. by eapply agrees_same.
    + left; right; left. auto.
    + left; right; right. by eapply blind_same.
    + destruct (Howed b Ho) as [?|?]; [by right|left; right; by left].
Qed.

Lemma owes_same_row ws sid id r r' b :
  rr_from r' = rr_from r -> rr_to r' = rr_to r -> rr_origin r' = rr_origin r -> rr_cursor r' = rr_cursor r ->
  live (rr_state r') = true -> owes ws sid id r b -> owes ws sid id r' b.
Proof.
  intros E1 E2 E3 E4 Hl [H1 H2 H3 H4 H5 H6]. unfold cursorOf in *.
  split; rewrite ?E1, ?E2, ?E3; try done. unfold cursorOf. by rewrite E4, E1.
Qed.

Definition owed_stable (owed : ServiceState -> Time -> Prop) : Prop :=
  forall s s' b, same_rows s s' -> owed s b -> owed s' b.

Lemma enqueue_inv (owed owed' : string -> ServiceState -> Time -> Prop) hs now sid from to reason origin db db' ws :
  enqueueRepairRangeTx now sid from to reason origin db = Ok db' ->
  (forall s, sv_services db !! sid = Some s -> upto s (CeilToBucket to)) ->
  (forall sid' s b, sid' <> sid -> owed sid' s b -> owed' sid' s b) -> owed_stable (owed' sid) ->
  (forall s b, sv_services db !! sid = Some s -> owed sid s b ->
     owed' sid s b \/ (origin = "" /\ FloorToBucket from <= b < CeilToBucket to)) ->
  seal_inv_owing owed hs db ws -> seal_inv_owing owed' hs db' ws.
Proof.
  intros Hq Hup Hother Hstable Howed Hinv.
  apply enqueueRepairRangeTx_writes in Hq as (s & s' & row & Hs & Honly & Hnext & [Hrows Hnew Hold Hkept Hfrom Hto Hpend Hcur Horig Hends Hstarts]).
  pose proof Hinv as [Hsv Hwk]. specialize (Hsv _ _ Hs). specialize (Hup _ Hs).
  assert (forall w, w ∈ ws -> wk_id w <> sv_next_range db) as Hfresh.
  { intros w Hw E. destruct (Hwk w Hw) as [Hid _ _ _]. rewrite E in Hid. lia. }
  assert (forall b, rr_origin row = "" -> rr_from row <= b < rr_to row -> covered ws sid s' b) as Hcovrow.
  { intros b Ho Hb. exists (sv_next_range db), row. split; [done|].
    split; [lia|lia|done|by rewrite Hpend|unfold cursorOf; rewrite Hcur; simpl; lia|].
    intros w Hw _ Hid. by destruct (Hfresh w Hw). }
  eapply (seal_inv_update owed owed'); [done|done|lia|done| |intros w Hw Hsid|done].
  - eapply service_inv_ranges; [apply Honly|done| | | |done].
    + intros b (id & r & Hr & Ho). assert (id <> sv_next_range db) as Hne.
      { destruct (si_ranges _ _ _ _ _ _ Hsv _ _ Hr) as [Hid _ _ _ _]. lia. }
      destruct (Hkept id r Hne Hr) as [Hr'|(Hf & Ht & Horg)]; [by exists id, r|].
      destruct Ho as [O1 O2 O3 O4 O5 O6]. apply Hcovrow; [auto|lia].
    + intros b Hb. destruct (Howed s b Hs Hb) as [Ho|(-> & Hin)]; [left; by eapply Hstable|].
      right. apply Hcovrow; [auto|lia].
    + intros id r Hr. destruct (Hold id r Hr) as [->|Hr'].
      * rewrite Hnew in Hr. injection Hr as <-. split.
        -- lia.
        -- apply (Hstarts aligned); [exact (proj1 (FloorToBucket_spec _))|]. intros i r Hi. apply (si_ranges _ _ _ _ _ _ Hsv _ _ Hi).
        -- apply (Hends aligned); [exact (proj1 (CeilToBucket_spec _))|]. intros i r Hi. apply (si_ranges _ _ _ _ _ _ Hsv _ _ Hi).
        -- unfold cursorOf. rewrite Hcur. apply (Hstarts aligned); [exact (proj1 (FloorToBucket_spec _))|].
           intros i r Hi. apply (si_ranges _ _ _ _ _ _ Hsv _ _ Hi).
        -- apply (Hends (upto s')); [by eapply upto_mat; [apply Hrows|]|].
           intros i r Hi. eapply upto_mat; [apply Hrows|]. apply (si_ranges _ _ _ _ _ _ Hsv _ _ Hi).
      * destruct (si_ranges _ _ _ _ _ _ Hsv _ _ Hr') as [? ? ? ? ?]. split; try done; [lia|].
        eapply upto_mat; [apply Hrows|done].
  - destruct (Hwk w Hw) as [H1 H2 H3 (s0 & Hs0 & Hu & Hrow)]. split; [lia|done..|].
    rewrite Hsid in *. rewrite Hs in Hs0. injection Hs0 as <-. exists s'.
    split; [by eapply only_service_lookup|]. split; [eapply upto_mat; [apply Hrows|done]|].
    intros r Hr. destruct (Hold _ _ Hr) as [E|Hr']; [by destruct (Hfresh w Hw)|auto].
Qed.

Lemma setService_id db sid s : sv_services db !! sid = Some s -> setService db sid s = db.
Proof. intros Hs. unfold setService. rewrite insert_id by done. by destruct db. Qed.

Lemma setRanges_id s : setRanges s (ss_ranges s) = s.
Proof. by destruct s. Qed.

Lemma seal_inv_workers hs db ws ws' :
  (forall w, w ∈ ws' -> w ∈ ws) -> seal_inv hs db ws -> seal_inv hs db ws'.
Proof.
  intros Hw [Hs Hwk]. split; [|auto]. intros sid s Hl.
  eapply service_inv_other; [done|apply Pos.le_refl| |by apply Hs]. auto.
Qed.

(** One row of one service is rewritten in place. *)
Lemma row_step hs db ws ws' sid id s r r' :
  sv_services db !! sid = Some s -> ss_ranges s !! id = Some r ->
  rr_from r' = rr_from r -> rr_to r' = rr_to r -> aligned (cursorOf r') ->
  (forall b, owes ws sid id r b -> owes ws' sid id r' b) ->
  (forall w, w ∈ ws' -> w ∈ ws \/
     (wk_service w = sid /\ wk_id w = id /\ aligned (wk_cursor w) /\ wk_to w = rr_to r)) ->
  seal_inv hs db ws ->
  seal_inv hs (setService db sid (setRanges s (<[id := r']> (ss_ranges s)))) ws'.
Proof.
  intros Hs Hr Hfrom Hto Hcur Howes Hw Hinv. pose proof Hinv as [Hsv Hwk]. specialize (Hsv _ _ Hs).
  set (s' := setRanges s _). pose proof (only_service_set sid db s') as Honly.
  assert (forall i x, ss_ranges s' !! i = Some x ->
            exists y, ss_ranges s !! i = Some y /\ rr_to x = rr_to y /\ (i <> id -> x = y)) as Hback.
  { intros i x. cbn. destruct (decide (i = id)) as [->|Hne].
    - rewrite lookup_insert_eq. intros [= <-]. by exists r.
    - rewrite lookup_insert_ne by done. intros Hx. by exists x. }
  pose proof (si_ranges _ _ _ _ _ _ Hsv _ _ Hr) as [R1 R2 R3 R4 R5].
  eapply (seal_inv_update nothing_owed nothing_owed); [intros; assumption|exact Honly|apply Pos.le_refl| | | |done].
  - intros w Hin Hne. destruct (Hw w Hin) as [?|(? & _)]; [done|congruence].
  - eapply (service_inv_ranges (nothing_owed sid) _ _ db _ ws _ _ s); [apply Honly|by split| |intros b []| |exact Hsv].
    + intros b (i & x & Hx & Ho). destruct (decide (i = id)) as [->|Hne].
      * simplify_eq. exists id, r'. cbn. rewrite lookup_insert_eq. auto.
      * exists i, x. cbn. rewrite lookup_insert_ne by done. split; [done|].
        destruct Ho as [O1 O2 O3 O4 O5 O6]. split; try done. intros w Hin Hsid Hid.
        destruct (Hw w Hin) as [?|(_ & ? & _)]; [auto|congruence].
    + intros i x Hx. cbn in Hx. destruct (decide (i = id)) as [->|Hne].
      * rewrite lookup_insert_eq in Hx. injection Hx as <-. split; rewrite ?Hfrom, ?Hto; done.
      * rewrite lookup_insert_ne in Hx by done. by destruct (si_ranges _ _ _ _ _ _ Hsv _ _ Hx).
  - intros w Hin Hsid. destruct (Hw w Hin) as [Hold|(_ & Hid & Hc & Hwto)].
    + destruct (Hwk w Hold) as [W1 W2 W3 (s0 & Hs0 & Hu & Hrow)]. split; [done..|].
      rewrite Hsid in *. rewrite Hs in Hs0. injection Hs0 as <-. exists s'.
      split; [by eapply only_service_lookup|]. split; [done|].
      intros x (y & Hy & -> & _)%Hback. auto.
    + split; [by rewrite Hid|by rewrite Hwto|done|]. exists s'. rewrite Hsid.
      split; [by eapply only_service_lookup|]. rewrite Hwto. split; [done|].
      rewrite Hid. intros x (y & Hy & -> & _)%Hback. by simplify_eq.
Qed.

(** A claim: the worker starts no later than any bucket the range still owes. *)
Lemma claim_inv hs now sid id db db' w ws :
  claimRepairRange now sid id db = Some (db', w) -> seal_inv hs db ws -> seal_inv hs db' (ws ++ [w]).
Proof.
  unfold claimRepairRange. destruct (sv_services db !! sid) as [s|] eqn:Es; [|done].
  destruct (ss_ranges s !! id) as [r|] eqn:Er; [|done]. destruct (claimable now r) eqn:Ec; [|done].
  intros [= <- <-] Hinv. pose proof (si_ranges _ _ _ _ _ _ (sl_services _ _ _ _ Hinv _ _ Es) _ _ Er) as [R1 R2 R3 R4 R5].
  assert (startCursor r = Z.max (rr_from r) (cursorOf r)) as Hstart.
  { unfold startCursor, Before. fold (cursorOf r). destruct (Z.ltb_spec (cursorOf r) (rr_from r)); lia. }
  eapply row_step; [done|done|done|done|done| | |done].
  - intros b Ho. apply (owes_same_row _ _ _ r); [done..|].
    destruct Ho as [O1 O2 O3 O4 O5 O6]. split; try done.
    intros w [Hw|Hw]%elem_of_app; [auto|]. apply list_elem_of_singleton in Hw as ->. cbn. lia.
  - intros w [Hw|Hw]%elem_of_app; [by left|right]. apply list_elem_of_singleton in Hw as ->. cbn.
    split_and!; [done..| |done]. rewrite Hstart. destruct (Z.max_spec (rr_from r) (cursorOf r)) as [[_ ->]|[_ ->]]; done.
Qed.

(** ** Closing writes *)
Lemma updateRange_inv hs f sid id db ws ws' :
  (forall w, w ∈ ws' -> w ∈ ws) ->
  (forall s r, sv_services db !! sid = Some s -> ss_ranges s !! id = Some r ->
     rr_from (f r) = rr_from r /\ rr_to (f r) = rr_to r /\ aligned (cursorOf (f r)) /\
     forall b, owes ws sid id r b -> owes ws' sid id (f r) b) ->
  seal_inv hs db ws -> seal_inv hs (updateRange f sid id db) ws'.
Proof.
  intros Hw Hf Hinv. unfold updateRange. destruct (sv_services db !! sid) as [s|] eqn:Es; [|by eapply seal_inv_workers].
  destruct (ss_ranges s !! id) as [r|] eqn:Er.
  - assert (alter f id (ss_ranges s) = <[id := f r]> (ss_ranges s)) as ->.
    { apply map_eq. intros i. destruct (decide (i = id)) as [->|Hne].
      - by rewrite lookup_insert_eq, lookup_alter_eq, Er.
      - by rewrite lookup_insert_ne, lookup_alter_ne. }
    destruct (Hf s r eq_refl Er) as (H1 & H2 & H3 & H4).
    eapply row_step; [done..| |exact Hinv]. intros w Hin. left. auto.
  - assert (alter f id (ss_ranges s) = ss_ranges s) as Hsame.
    { apply map_eq. intros i. destruct (decide (i = id)) as [->|Hne].
      - by rewrite lookup_alter_eq, Er.
      - by rewrite lookup_alter_ne. }
    rewrite Hsame, setRanges_id, setService_id by done. by eapply seal_inv_workers.
Qed.

(** A worker gives the row back, at its own cursor, in a state that keeps it owed; or it has
    reached the end of the range. *)
Lemma closing_inv hs f w db ws ws' :
  w ∈ ws -> (forall x, x ∈ ws' -> x ∈ ws) ->
  (forall r, rr_from (f r) = rr_from r /\ rr_to (f r) = rr_to r /\ rr_origin (f r) = rr_origin r /\
             rr_cursor (f r) = Some (wk_cursor w)) ->
  ((forall r, live (rr_state (f r)) = true) \/ wk_to w <= wk_cursor w) ->
  seal_inv hs db ws -> seal_inv hs (updateRange f (wk_service w) (wk_id w) db) ws'.
Proof.
  intros Hin Hw Hf Hstate Hinv. apply (updateRange_inv _ _ _ _ _ ws); [done| |done].
  destruct (sl_workers _ _ _ _ Hinv w Hin) as [_ _ Hc (s & Hs & _ & Hrow)].
  intros s' r Hs' Hr. simplify_eq. specialize (Hrow _ Hr). destruct (Hf r) as (F1 & F2 & F3 & F4).
  unfold cursorOf. rewrite F4. split_and!; [done..|].
  intros b [O1 O2 O3 O4 O5 O6]. specialize (O6 w Hin eq_refl eq_refl) as Hb.
  destruct Hstate as [Hl|Hend]; [|lia].
  split; rewrite ?F1, ?F2, ?F3; try done; [unfold cursorOf; by rewrite F4|auto].
Qed.

(** ** Steps on buckets *)

(** A pass over buckets, then whatever moves the cursors over them. *)
Lemma service_inv_written hs db db' ws ws' sid mode bs s s1 s' :
  written hs db mode bs s s1 -> same_env db db' -> same_def s1 s' -> ss_facts s' = ss_facts s1 ->
  (forall m, ss_mat s' = Some m -> mat_inv s' m) -> (forall t, upto s t -> upto s' t) ->
  (forall b, b ∈ bs -> aligned b /\ upto s' (b + CanonicalBucket)) ->
  (forall id r, ss_ranges s' !! id = Some r -> range_inv (sv_next_range db') s' id r) ->
  (forall b, aligned b -> covered ws sid s b -> covered ws' sid s' b \/ (mode = modeRecompute /\ b ∈ bs)) ->
  service_inv (nothing_owed sid) hs db ws sid s -> service_inv (nothing_owed sid) hs db' ws' sid s'.
Proof.
  intros [Wd Wm Wr Wf Ws Wo Wc] He Hd Hfacts Hmat Hup Hbs Hranges Hcov [Im If Ir It].
  assert (same_def s s') as Hdef by by etrans.
  split; [done| |done|].
  - intros b f. rewrite Hfacts. intros Hb. rewrite (epochAt_same _ _ _ Hdef).
    destruct (Wf b) as [E|(Hin & f' & Hl & Ha)].
    + rewrite E in Hb. destruct (If b f Hb) as (H1 & H2 & H3). auto.
    + destruct (Hbs b Hin) as [H1 H2]. split_and!; [done..|]. destruct Ha as (e & bk & H3 & H4 & _). by exists e.
  - intros b f. rewrite Hfacts. intros Hb Hs. left. destruct (Wf b) as [E|(Hin & f' & Hl & Ha)].
    + pose proof Hb as Hb'. rewrite E in Hb'. destruct (If b f Hb') as (Hal & _ & e & He1 & He2).
      destruct (It b f Hb' Hs) as [[Ha|[Hc|Hbl]]|[]].
      * left. by eapply agrees_same.
      * destruct (Hcov b Hal Hc) as [?|(Hm & Hin)]; [right; by left|].
        destruct (Wc Hm b e Hin He1 He2) as (f' & Hl & Ha). left. simplify_eq. by eapply agrees_same.
      * right; right. by eapply blind_same.
    + left. simplify_eq. by eapply agrees_same.
Qed.

Lemma advanceSealedRow_upto s t : upto s t -> upto (advanceSealedRow s) t.
Proof.
  intros (u & Hu & Ht). exists u. split; [|done]. unfold throughOf in *.
  unfold advanceSealedRow. destruct (ss_mat s) as [m|] eqn:E; [|by rewrite E]. cbv zeta.
  repeat case_match; cbn; rewrite ?E; done.
Qed.

(** Recomputing the watermark keeps it behind the frontier and over sealed buckets only. *)
Lemma advanceSealedRow_mat s :
  facts_aligned s -> (forall b f, ss_facts s !! b = Some f -> upto s (b + CanonicalBucket)) ->
  (forall m, ss_mat s = Some m -> mat_inv s m) ->
  forall m, ss_mat (advanceSealedRow s) = Some m -> mat_inv (advanceSealedRow s) m.
Proof.
  intros Hfa Hup Hmat m Hm.
  assert (forall b, sealedAt (advanceSealedRow s) b = sealedAt s b) as Hseal
    by (intros; unfold sealedAt; by rewrite advanceSealedRow_facts).
  rewrite (advanceSealedRow_walk s Hfa) in Hm by (intros m0 H0; by apply Hmat).
  unfold walkWatermark in Hm. destruct (ss_mat s) as [m0|] eqn:E; [|congruence].
  specialize (Hmat m0 eq_refl). destruct Hmat as [Ha (th & Hth & He & Hst & Hc) Hcont].
  destruct (anyFactIn s _ _); [|rewrite E in Hm; injection Hm as <-; split;
    [done|by exists th|intros; rewrite Hseal; by eapply Hcont]].
  revert Hm. generalize (Z.to_nat watermarkScanBuckets) as n. intros n Hm. injection Hm as <-.
  set (st := scanStart m0).
  destruct (sealedPrefix_spec s n st (scanStart_aligned m0 Ha)) as (Pa & Pr & Pin & _).
  assert (st <= th) as Hstth.
  { unfold st, scanStart, After. destruct (mt_sealed m0) as [c|] eqn:Ec; [|done]. specialize (Hc c eq_refl).
    destruct (mt_era m0 <? c); lia. }
  split; [destruct Ha; split; cbn; try done; intros c [= <-]; done| |].
  - exists th. cbn. split_and!; [done..|]. intros c [= <-].
    destruct (decide (sealedPrefix s n st = st)) as [->|Hne]; [done|].
    assert (aligned (sealedPrefix s n st - CanonicalBucket)) as Hal by (apply Z.divide_sub_r; [done|apply Z.divide_refl]).
    pose proof (aligned_lt st (sealedPrefix s n st - CanonicalBucket) (scanStart_aligned m0 Ha) Hal ltac:(lia)) as Hle.
    pose proof bucket_pos.
    destruct (sealedAt_row s _ (Pin _ Hal ltac:(lia))) as [f Hf].
    destruct (Hup _ _ Hf) as (u & Hu & Hle'). unfold throughOf in Hu. rewrite E in Hu. cbn in Hu. simplify_eq. lia.
  - intros c b. cbn. intros [= <-] Hb Hr. rewrite Hseal.
    destruct (decide (st <= b)); [apply Pin; [done|lia]|].
    unfold st, scanStart, After in *. destruct (mt_sealed m0) as [c|] eqn:Ec; [|lia].
    destruct (mt_era m0 <? c) eqn:Elt; [|lia]. apply (Hcont c); [done..|lia].
Qed.

Lemma range_inv_same next next' s s' id r :
  (next <= next')%positive -> (forall t, upto s t -> upto s' t) -> range_inv next s id r -> range_inv next' s' id r.
Proof. intros Hn Hu [H1 H2 H3 H4 H5]. split; auto. lia. Qed.

Lemma worker_inv_same db db' sid s s' w :
  sv_services db !! sid = Some s -> sv_services db' !! sid = Some s' -> wk_service w = sid ->
  (sv_next_range db <= sv_next_range db')%positive -> (forall t, upto s t -> upto s' t) ->
  (forall id r, ss_ranges s' !! id = Some r -> exists r0, ss_ranges s !! id = Some r0 /\ rr_to r = rr_to r0) ->
  worker_inv db w -> worker_inv db' w.
Proof.
  intros Hs Hs' <- Hn Hu Hr [H1 H2 H3 (s0 & Hs0 & Hu0 & Hrow)]. simplify_eq. split; [lia|done..|].
  exists s'. split_and!; [done|auto|]. intros r (r0 & Hr0 & ->)%Hr. auto.
Qed.

(** *** The forward driver *)
Lemma take_bucketsOf n from to b :
  aligned from -> b ∈ take n (bucketsOf from to) ->
  aligned b /\ from <= b /\ b + CanonicalBucket <= from + Z.of_nat (length (take n (bucketsOf from to))) * CanonicalBucket.
Proof.
  intros Hf [i Hi]%list_elem_of_lookup. pose proof (lookup_lt_Some _ _ _ Hi) as Hlen.
  apply lookup_take_Some in Hi as [Hi _]. unfold bucketsOf in Hi.
  apply list_lookup_fmap_Some in Hi as (j & -> & Hj%lookup_seqZ). destruct Hj as [-> _].
  pose proof bucket_pos. split; [apply Z.divide_add_r; [done|apply Z.divide_factor_r]|]. nia.
Qed.

Lemma upto_through s m th t : ss_mat s = Some m -> mt_through m = Some th -> upto s t <-> t <= th.
Proof.
  intros Hm Hth. unfold upto, throughOf. rewrite Hm. cbn. rewrite Hth. naive_solver.
Qed.

(** The forward cursor moved to [reached], over the buckets it computed. *)
Lemma forward_mat hs db bs s s1 m th reached :
  written hs db modeOrdinary bs s s1 -> ss_mat s = Some m -> mt_through m = Some th -> mat_inv s m ->
  aligned reached -> th <= reached ->
  mat_inv (setMat s1 (Some (setThrough m reached))) (setThrough m reached).
Proof.
  intros [Wd Wm Wr Wf Ws Wo Wc] Hm Hth [[A1 A2 A3 A4] (th' & Hth' & He & Hst & Hc) Hcont] Hr Hle. simplify_eq.
  split.
  - split; cbn; try done. by intros c [= <-].
  - exists reached. cbn. split_and!; [done|lia|lia|]. intros c Hcc. specialize (Hc c Hcc). lia.
  - intros c b Hcc Hb Hrange. apply (Ws b). by apply (Hcont c b).
Qed.

Lemma forward_inv hs now sid budget db db' ws :
  AdvanceServiceMaterialization hs now sid budget db = Ok db' -> seal_inv hs db ws -> seal_inv hs db' ws.
Proof.
  unfold AdvanceServiceMaterialization. destruct (sv_services db !! sid) as [s|] eqn:Es; [|by intros [= <-]].
  destruct (ss_mat s) as [m|] eqn:Em; [|by intros [= <-]].
  destruct (negb (due now m)); [by intros [= <-]|]. cbv zeta.
  set (cursor := matCursor m). set (end_ := if After _ _ then _ else _).
  destruct (take budget (bucketsOf cursor end_)) as [|b0 walked0] eqn:Ew; [by intros [= <-]|].
  rewrite <- Ew. set (walked := take budget (bucketsOf cursor end_)) in *.
  set (reached := cursor + Z.of_nat (length walked) * CanonicalBucket).
  destruct (materializeBuckets _ _ _ _ _ _) as [[db1 d]|] eqn:Eb; [|done]. cbn [rbind]. intros [= <-] Hinv.
  apply (materializeBuckets_writes _ _ _ _ _ _ _ _ s Es) in Eb as (s_ & s1 & Hs_ & Ho1 & Hn1 & Hw1).
  assert (s_ = s) as -> by congruence. clear Hs_ Ew.
  pose proof Hinv as [Hsv Hwk]. specialize (Hsv _ _ Es). pose proof (si_mat _ _ _ _ _ _ Hsv m Em) as Hmi.
  pose proof Hmi as [Ha (th & Hth & He & Hst & Hc) Hcont].
  assert (cursor = th) as Hcursor by (unfold cursor, matCursor; by rewrite Hth).
  assert (aligned cursor) as Hcal by (rewrite Hcursor; by apply (ma_through _ Ha)).
  assert (aligned reached) as Hral by (apply Z.divide_add_r; [done|apply Z.divide_factor_r]).
  assert (cursor <= reached) as Hle by (unfold reached; pose proof bucket_pos; lia).
  rewrite (only_service_lookup _ _ _ _ Ho1), (wr_mat _ _ _ _ _ _ Hw1), Em. cbn [fmap option_fmap option_map].
  set (s2 := setMat s1 (Some (setThrough m reached))).
  destruct (advanceSealedThrough_only sid (setService db1 sid s2) s2) as [Ho2 Hn2]; [cbn; by rewrite lookup_insert_eq|].
  assert (only_service sid db (advanceSealedThrough sid (setService db1 sid s2)) (advanceSealedRow s2)) as Ho.
  { eapply only_service_trans; [eapply only_service_trans; [exact Ho1|apply only_service_set]|exact Ho2]. }
  assert (sv_next_range (advanceSealedThrough sid (setService db1 sid s2)) = sv_next_range db) as Hn
    by (rewrite Hn2; exact Hn1).
  assert (forall t, upto s2 t <-> t <= reached) as Hup2 by (intros; by apply (upto_through _ (setThrough m reached))).
  assert (forall t, upto s t <-> t <= th) as Hup by (intros; by apply (upto_through _ m)).
  assert (forall t, upto s t -> upto s2 t) as Hmono by (intros t; rewrite Hup, Hup2; lia).
  assert (forall b, b ∈ walked -> aligned b /\ upto s2 (b + CanonicalBucket)) as Hwalked.
  { intros b Hb. rewrite Hup2. apply take_bucketsOf in Hb; [|done]. naive_solver. }
  assert (mat_inv s2 (setThrough m reached)) as Hm2 by (eapply forward_mat; [done..|lia]).
  assert (forall b f, ss_facts s2 !! b = Some f -> aligned b /\ upto s2 (b + CanonicalBucket)) as Hf2.
  { intros b f Hb. destruct (wr_facts _ _ _ _ _ _ Hw1 b) as [E|(Hin & _)]; [|auto].
    cbn in Hb. rewrite E in Hb. destruct (si_facts _ _ _ _ _ _ Hsv b f Hb) as (H1 & H2 & _). auto. }
  eapply (seal_inv_update nothing_owed); [intros; assumption|exact Ho|rewrite Hn; apply Pos.le_refl|done| | |done].
  - eapply (service_inv_written hs db _ ws ws sid modeOrdinary walked s s1); [exact Hw1|apply Ho| | | | | | | |exact Hsv].
    + etrans; [|apply advanceSealedRow_def]. by split.
    + by rewrite advanceSealedRow_facts.
    + apply advanceSealedRow_mat; [intros b f Hb; by apply (Hf2 b f)|intros b f Hb; by apply (Hf2 b f)|].
      intros m' [= <-]. done.
    + intros t Ht. by apply (advanceSealedRow_upto s2), Hmono.
    + intros b Hb. destruct (Hwalked b Hb). split; [done|by apply (advanceSealedRow_upto s2)].
    + rewrite advanceSealedRow_ranges. cbn. rewrite (wr_ranges _ _ _ _ _ _ Hw1). intros id r Hr.
      eapply range_inv_same; [by rewrite Hn| |by apply (si_ranges _ _ _ _ _ _ Hsv)].
      intros t Ht. by apply (advanceSealedRow_upto s2), Hmono.
    + intros b _ (id & r & Hr & Hrest). left. exists id, r. rewrite advanceSealedRow_ranges. cbn.
      by rewrite (wr_ranges _ _ _ _ _ _ Hw1).
  - intros w Hw Hsid. eapply (worker_inv_same db _ sid s); [done|by eapply only_service_lookup|done|by rewrite Hn| | |by apply Hwk].
    + intros t Ht. by apply (advanceSealedRow_upto s2), Hmono.
    + rewrite advanceSealedRow_ranges. cbn. rewrite (wr_ranges _ _ _ _ _ _ Hw1). intros id r Hr. by exists r.
Qed.

(** *** A repair batch *)
Lemma batchEnd_spec w batch :
  aligned (wk_cursor w) -> aligned (wk_to w) -> wk_cursor w < wk_to w -> 0 < batch ->
  aligned (batchEnd w batch) /\ wk_cursor w < batchEnd w batch <= wk_to w.
Proof.
  intros Hc Ht Hlt Hb. unfold batchEnd, After, Add. pose proof bucket_pos.
  destruct (Z.ltb_spec (wk_to w) (wk_cursor w + batch * CanonicalBucket)); [split; [done|lia]|].
  split; [apply Z.divide_add_r; [done|apply Z.divide_factor_r]|]. nia.
Qed.

Lemma updateRange_only f sid id db s :
  sv_services db !! sid = Some s ->
  only_service sid db (updateRange f sid id db) (setRanges s (alter f id (ss_ranges s))) /\
  sv_next_range (updateRange f sid id db) = sv_next_range db.
Proof. intros Hs. unfold updateRange. rewrite Hs. split; [apply only_service_set|done]. Qed.

Lemma runRepairBatch_writes hs now w from to db db' :
  runRepairBatch hs now w from to db = Ok db' ->
  exists s s1, sv_services db !! wk_service w = Some s /\
    written hs db modeRecompute (bucketsOf from to) s s1 /\
    only_service (wk_service w) db db'
      (setRanges (advanceSealedRow s1) (alter (setCursor now to) (wk_id w) (ss_ranges s))) /\
    sv_next_range db' = sv_next_range db.
Proof.
  unfold runRepairBatch. destruct (sv_services db !! wk_service w) as [s|] eqn:Es; [|done].
  destruct (refuse_if _ _); [|done]. cbn [rbind]. unfold materializeRangeTx.
  destruct (refuse_if _ _); [|done]. cbn [rbind].
  destruct (materializeBuckets _ _ _ _ _ _) as [[db1 d]|] eqn:Eb; [|done]. cbn [rbind]. intros [= <-].
  apply (materializeBuckets_writes _ _ _ _ _ _ _ _ s Es) in Eb as (s_ & s1 & Hs_ & Ho1 & Hn1 & Hw1).
  assert (s_ = s) as -> by congruence. exists s, s1. split_and!; [done..| |].
  - destruct (advanceSealedThrough_only (wk_service w) db1 s1) as [Ho2 Hn2]; [by eapply only_service_lookup|].
    destruct (updateRange_only (setCursor now to) (wk_service w) (wk_id w) (advanceSealedThrough (wk_service w) db1)
                (advanceSealedRow s1)) as [Ho3 Hn3]; [by eapply only_service_lookup|].
    rewrite advanceSealedRow_ranges, (wr_ranges _ _ _ _ _ _ Hw1) in Ho3.
    eapply only_service_trans; [eapply only_service_trans; [exact Ho1|exact Ho2]|exact Ho3].
  - destruct (advanceSealedThrough_only (wk_service w) db1 s1) as [Ho2 Hn2]; [by eapply only_service_lookup|].
    destruct (updateRange_only (setCursor now to) (wk_service w) (wk_id w) (advanceSealedThrough (wk_service w) db1)
                (advanceSealedRow s1)) as [Ho3 Hn3]; [by eapply only_service_lookup|]. congruence.
Qed.

Lemma lookup_alter_inv (f : RepairRow -> RepairRow) (m : gmap positive RepairRow) i j r :
  alter f i m !! j = Some r -> exists r0, m !! j = Some r0 /\ r = if decide (j = i) then f r0 else r0.
Proof.
  destruct (decide (j = i)) as [->|Hne].
  - rewrite lookup_alter_eq. destruct (m !! i) as [r0|]; [|done]. intros [= <-]. by exists r0.
  - rewrite lookup_alter_ne by done. intros Hr. by exists r.
Qed.

(** The range keeps every bucket the batch has not just recomputed. *)
Lemma batch_covered now w batch s s' ws ws' b :
  w ∈ ws -> (forall x, x ∈ ws' -> x ∈ ws \/ x = moveWorker w (batchEnd w batch)) ->
  wk_cursor w < batchEnd w batch -> aligned (wk_cursor w) -> aligned b ->
  ss_ranges s' = alter (setCursor now (batchEnd w batch)) (wk_id w) (ss_ranges s) ->
  covered ws (wk_service w) s b ->
  covered ws' (wk_service w) s' b \/ b ∈ bucketsOf (wk_cursor w) (batchEnd w batch).
Proof.
  intros Hin Hw Hlt Hc Hb Hr' (id & r & Hr & [O1 O2 O3 O4 O5 O6]).
  destruct (decide (id = wk_id w)) as [->|Hne].
  - pose proof (O6 w Hin eq_refl eq_refl) as Hcb.
    destruct (decide (b < batchEnd w batch)) as [Hbt|Hbt]; [right; by apply elem_of_bucketsOf|].
    left. exists (wk_id w), (setCursor now (batchEnd w batch) r).
    rewrite Hr', lookup_alter_eq, Hr. split; [done|]. split; try done; [unfold cursorOf; cbn; lia|].
    intros x Hx Hs Hi. destruct (Hw x Hx) as [?| ->]; [auto|]. cbn. lia.
  - left. exists id, r. rewrite Hr', lookup_alter_ne by done. split; [done|]. split; try done.
    intros x Hx Hs Hi. destruct (Hw x Hx) as [?| ->]; [auto|]. by destruct Hne.
Qed.

Lemma batch_inv hs now w batch db db' ws ws' :
  w ∈ ws -> (forall x, x ∈ ws' -> x ∈ ws \/ x = moveWorker w (batchEnd w batch)) ->
  wk_cursor w < wk_to w -> 0 < batch ->
  runRepairBatch hs now w (wk_cursor w) (batchEnd w batch) db = Ok db' ->
  seal_inv hs db ws -> seal_inv hs db' ws'.
Proof.
  intros Hin Hws Hlt Hbatch Hrun Hinv.
  apply runRepairBatch_writes in Hrun as (s & s1 & Hs & Hw1 & Ho & Hn).
  pose proof Hinv as [Hsv Hwk]. specialize (Hsv _ _ Hs).
  destruct (Hwk w Hin) as [Wid Wto Wcur (s_ & Hs_ & Wup & Wrow)]. assert (s_ = s) as -> by congruence.
  destruct (batchEnd_spec w batch Wcur Wto Hlt Hbatch) as [Hto Hend].
  set (to := batchEnd w batch) in *. set (s2 := advanceSealedRow s1) in *.
  set (s' := setRanges s2 _) in *.
  assert (forall t, upto s1 t <-> upto s t) as Hup1.
  { intros t. unfold upto, throughOf. by rewrite (wr_mat _ _ _ _ _ _ Hw1). }
  assert (forall t, upto s t -> upto s' t) as Hmono by (intros t Ht; by apply (advanceSealedRow_upto s1), Hup1).
  assert (forall b, b ∈ bucketsOf (wk_cursor w) to -> aligned b /\ upto s (b + CanonicalBucket)) as Hbs.
  { intros b Hb. apply elem_of_bucketsOf in Hb as [Hal Hb]; [|done]. split; [done|].
    apply (upto_le s (wk_to w)); [|done]. pose proof bucket_pos.
    pose proof (aligned_lt (b + CanonicalBucket) to ltac:(by apply Z.divide_add_r, Z.divide_refl) Hto ltac:(lia)). lia. }
  assert (forall b f, ss_facts s1 !! b = Some f -> aligned b /\ upto s1 (b + CanonicalBucket)) as Hf1.
  { intros b f Hb. rewrite Hup1. destruct (wr_facts _ _ _ _ _ _ Hw1 b) as [E|(Hb' & _)]; [|auto].
    rewrite E in Hb. destruct (si_facts _ _ _ _ _ _ Hsv b f Hb) as (H1 & H2 & _). auto. }
  assert (forall m, ss_mat s2 = Some m -> mat_inv s2 m) as Hm2.
  { apply advanceSealedRow_mat; [intros b f Hb; by apply (Hf1 b f)|intros b f Hb; by apply (Hf1 b f)|].
    rewrite (wr_mat _ _ _ _ _ _ Hw1). intros m Hm. destruct (si_mat _ _ _ _ _ _ Hsv m Hm) as [H1 H2 H3].
    split; [done..|]. intros c b Hc Hb Hr. apply (wr_sealed _ _ _ _ _ _ Hw1). by eapply H3. }
  assert (forall i r, ss_ranges s' !! i = Some r -> exists r0, ss_ranges s !! i = Some r0 /\
            rr_from r = rr_from r0 /\ rr_to r = rr_to r0 /\ (cursorOf r = cursorOf r0 \/ cursorOf r = to)) as Hback.
  { intros i r (r0 & Hr0 & ->)%lookup_alter_inv. exists r0. destruct (decide (i = wk_id w)); cbn; auto. }
  eapply (seal_inv_update nothing_owed); [intros; assumption|exact Ho|rewrite Hn; apply Pos.le_refl| | | |done].
  - intros x Hx Hne. destruct (Hws x Hx) as [?| ->]; [done|]. by destruct Hne.
  - eapply (service_inv_written hs db _ ws ws' _ modeRecompute (bucketsOf (wk_cursor w) to) s s1 s');
      [exact Hw1|apply Ho| | | | | | | |exact Hsv].
    + etrans; [apply advanceSealedRow_def|]. by split.
    + apply advanceSealedRow_facts.
    + intros m Hm. destruct (Hm2 m Hm) as [H1 H2 H3]. by split.
    + exact Hmono.
    + intros b Hb. destruct (Hbs b Hb). auto.
    + intros i r (r0 & Hr0 & E1 & E2 & E3)%Hback.
      destruct (si_ranges _ _ _ _ _ _ Hsv _ _ Hr0) as [R1 R2 R3 R4 R5].
      split; rewrite ?E1, ?E2, ?Hn; auto. by destruct E3 as [->| ->].
    + intros b Hal Hc. destruct (batch_covered now w batch s s' ws ws' b Hin Hws (proj1 Hend) Wcur Hal eq_refl Hc);
        [by left|by right].
  - intros x Hx Hsid. assert (worker_inv db x) as Hxi.
    { destruct (Hws x Hx) as [?| ->]; [by apply Hwk|]. split; [done..|]. by exists s. }
    eapply (worker_inv_same db _ (wk_service w) s); [done|by eapply only_service_lookup|done| |exact Hmono| |done].
    + rewrite Hn. apply Pos.le_refl.
    + intros i r (r0 & Hr0 & _ & E2 & _)%Hback. by exists r0.
Qed.

(** ** Ingest *)

(** What a key of the batch still has to queue. *)
Definition keyOwed hs (k : noteKey) (sid : string) s b : Prop :=
  nk_service k = sid /\ exists m fr, ss_mat s = Some m /\ frontierOf m = Some fr /\ b < fr /\
    nk_bucket k <= b < lateObservationReachEnd hs (nk_monitor k) (nk_ts k) fr.

Definition keysOwed hs (keys : list noteKey) (sid : string) s b : Prop :=
  exists k, k ∈ keys /\ keyOwed hs k sid s b.

Lemma keysOwed_stable hs keys sid : owed_stable (keysOwed hs keys sid).
Proof.
  intros s s' b [_ Hm _] (k & Hk & Hs & m & fr & H). exists k. split; [done|]. split; [done|].
  exists m, fr. by rewrite Hm.
Qed.

Lemma owing_weaken (owed owed' : string -> ServiceState -> Time -> Prop) hs db ws :
  (forall sid s b, sv_services db !! sid = Some s -> owed sid s b -> owed' sid s b) ->
  seal_inv_owing owed hs db ws -> seal_inv_owing owed' hs db ws.
Proof.
  intros Ho [Hs Hw]. split; [|done]. intros sid s Hl. eapply service_inv_owed; [|by apply Hs]. eauto.
Qed.

(** The mark of a bucket writes neither facts nor ranges. *)
Lemma markBucket_inv owed hs now sid mon bucket ts db ws :
  (forall sid, owed_stable (owed sid)) ->
  seal_inv_owing owed hs db ws -> seal_inv_owing owed hs (markBucket now sid mon bucket ts db) ws.
Proof.
  intros Hst Hinv. unfold markBucket. destruct (sv_services db !! sid) as [s0|] eqn:Es; [|done].
  set (s := setIngest s0 _).
  set (db' := if sealedAt s bucket then _ else _).
  assert (exists s', only_service sid db db' s' /\ sv_next_range db' = sv_next_range db /\ same_rows s0 s' /\
            ss_ranges s' = ss_ranges s0) as (s' & Ho & Hn & Hrows & Hr).
  { unfold db'. destruct (sealedAt s bucket); eexists; (split; [by split|]); done. }
  clearbody db'. pose proof Hinv as [Hsv Hwk]. specialize (Hsv _ _ Es).
  eapply (seal_inv_update owed); [intros; assumption|exact Ho|rewrite Hn; apply Pos.le_refl|done| | |done].
  - eapply (service_inv_ranges (owed sid) _ _ db _ ws _ _ s0); [apply Ho|done| | | |exact Hsv].
    + intros b (id & r & H). exists id, r. by rewrite Hr.
    + intros b Hb. left. by eapply Hst.
    + rewrite Hr, Hn. intros id r Hl. eapply range_inv_same; [done| |by apply (si_ranges _ _ _ _ _ _ Hsv)].
      intros t. apply upto_mat, Hrows.
  - intros w Hw Hsid. eapply (worker_inv_same db _ sid s0); [done|by eapply only_service_lookup|done|by rewrite Hn| | |by apply Hwk].
    + intros t. apply upto_mat, Hrows.
    + rewrite Hr. intros id r Hl. by exists r.
Qed.

Lemma frontier_through s m fr : mat_inv s m -> frontierOf m = Some fr -> mt_through m = Some fr /\ aligned fr.
Proof.
  intros [Ha (th & Hth & _ & _ & Hc) _] Hf. unfold frontierOf in Hf. rewrite Hth in Hf.
  assert (fr = th) as ->; [|split; [done|by apply (ma_through _ Ha)]].
  destruct (mt_sealed m) as [c|] eqn:Ec; injection Hf as <-; [|done]. specialize (Hc c eq_refl). lia.
Qed.

Lemma noteKey_inv hs now k keys db db' ws :
  repairIfBehindWatermark now hs (nk_service k) (nk_monitor k) (nk_bucket k) (nk_ts k) db = Ok db' ->
  seal_inv_owing (keysOwed hs (k :: keys)) hs db ws -> seal_inv_owing (keysOwed hs keys) hs db' ws.
Proof.
  intros H Hinv. unfold repairIfBehindWatermark in H.
  assert (forall sid s b, keysOwed hs (k :: keys) sid s b -> keyOwed hs k sid s b \/ keysOwed hs keys sid s b) as Hsplit.
  { intros sid s b (k' & [->|Hk]%elem_of_cons & Hk'); [by left|right; by exists k']. }
  destruct (sv_services db !! nk_service k) as [s|] eqn:Es.
  2:{ injection H as <-. eapply owing_weaken; [|exact Hinv]. intros sid s b Hs [[<- _]|?]%Hsplit; [congruence|done]. }
  destruct (ss_mat s) as [m|] eqn:Em.
  2:{ injection H as <-. eapply owing_weaken; [|exact Hinv].
      intros sid s' b Hs [(<- & m & fr & Hm & _)|?]%Hsplit; [congruence|done]. }
  destruct (frontierOf m) as [fr|] eqn:Ef.
  2:{ injection H as <-. eapply owing_weaken; [|exact Hinv].
      intros sid s' b Hs [(<- & m' & fr & Hm & Hf & _)|?]%Hsplit; [congruence|done]. }
  destruct (Before (nk_bucket k) fr) eqn:Eb.
  2:{ injection H as <-. eapply owing_weaken; [|exact Hinv].
      intros sid s' b Hs [(<- & m' & fr' & Hm & Hf & Hlt & Hr)|?]%Hsplit; [|done].
      unfold Before in Eb. bool_facts. assert (fr' = fr) by congruence. lia. }
  pose proof (si_mat _ _ _ _ _ _ (sl_services _ _ _ _ Hinv _ _ Es) m Em) as Hmi.
  destruct (frontier_through s m fr Hmi Ef) as [Hth Hal].
  eapply (enqueue_inv (keysOwed hs (k :: keys))); [exact H| | |apply keysOwed_stable| |exact Hinv].
  - intros s' Hs'. assert (s' = s) as -> by congruence. eapply upto_through; [done..|].
    by apply reachEnd_frontier.
  - intros sid' s' b Hne [[? _]|?]%Hsplit; [congruence|done].
  - intros s' b Hs' [(_ & m' & fr' & Hm & Hf & Hlt & Hr)|?]%Hsplit; [right|by left]. split; [done|].
    assert (fr' = fr) as -> by congruence.
    pose proof (FloorToBucket_spec (nk_bucket k)) as [_ ?].
    pose proof (CeilToBucket_spec (lateObservationReachEnd hs (nk_monitor k) (nk_ts k) fr)) as [_ ?]. lia.
Qed.

Lemma noteKeys_inv hs now keys db db' ws :
  noteKeys now hs keys db = Ok db' ->
  seal_inv_owing (keysOwed hs keys) hs db ws -> seal_inv hs db' ws.
Proof.
  revert db. induction keys as [|k keys IH]; intros db; cbn [noteKeys].
  - intros [= <-] Hinv. eapply owing_weaken; [|exact Hinv]. intros sid s b _ (k & Hk & _). set_solver.
  - destruct (repairIfBehindWatermark _ _ _ _ _ _ _) as [db1|] eqn:E; [|done]. cbn [rbind]. intros H Hinv.
    eapply IH; [exact H|]. eapply noteKey_inv; [exact E|].
    apply markBucket_inv; [intros; apply keysOwed_stable|done].
Qed.

(** *** The rows a transaction inserted *)
#[export] Instance HeartbeatRow_eq_dec : EqDecision HeartbeatRow.
Proof. solve_decision. Defined.

(** The table grew by exactly the rows of [beats] that were not there. *)
Record grows hs hs' (beats : list (string * Time)) : Prop := {
  gr_sub : hs ⊆ hs';
  gr_new : forall id u, is_Some (hs' !! (id, u)) -> hs !! (id, u) = None ->
    exists ts, (id, ts) ∈ beats /\ u = pgTime ts /\ id <> "" /\ IsZero ts = false;
}.

(** Every new row that belongs to a service has its key. *)
Definition keyed hs hs' db (keys : list noteKey) : Prop :=
  forall id u sid s, is_Some (hs' !! (id, u)) -> hs !! (id, u) = None ->
    sv_services db !! sid = Some s -> noted db s id (dateBin u) = true ->
    {| nk_service := sid; nk_monitor := id; nk_bucket := dateBin u; nk_ts := u |} ∈ keys.

Lemma heldRow_row hs id t u row : heldRow hs id t = Some (u, row) -> is_Some (hs !! (id, u)).
Proof. intros H. pose proof (heldRow_spec hs id t) as Hs. rewrite H in Hs. destruct Hs. by eexists. Qed.

(** A bucket whose rows in force did not move is worth what it was. *)
Lemma accounted_held hs hs' db ws sid s b f e :
  epochAt s b = Some e ->
  (forall m t, m ∈ ep_members e -> b <= t < b + CanonicalBucket ->
     heldRow hs' (m_MonitorID m) t = heldRow hs (m_MonitorID m) t) ->
  accounted hs db ws sid s b f -> accounted hs' db ws sid s b f.
Proof.
  intros He Hheld [(e' & bk & H1 & H2 & H3 & H4)|[Hc|(e' & m & t & u & row & H1 & H2 & H3 & H4 & H5)]].
  - left. exists e', bk. assert (e' = e) as -> by congruence. split_and!; try done.
    2-3: apply H4. rewrite <- H3. apply Reduce_held; [done..|]. intros m t Hm Ht. by apply Hheld.
  - right; by left.
  - right; right. assert (e' = e) as -> by congruence. exists e, m, t, u, row. rewrite Hheld by done. done.
Qed.

Lemma grows_inv hs hs' beats keys db ws :
  grows hs hs' beats -> keyed hs hs' db keys -> seal_inv hs db ws -> seal_inv_owing (keysOwed hs' keys) hs' db ws.
Proof.
  intros [Hsub _] Hkeyed [Hsv Hwk]. split; [|done]. intros sid s Hs. destruct (Hsv sid s Hs) as [Im If Ir It].
  split; [done..|]. intros b f Hb Hsl. destruct (If b f Hb) as (Hal & (th & Hth & Hle) & e & He & Hne).
  destruct (It b f Hb Hsl) as [Hacc|[]].
  destruct (decide (Exists (fun m => Exists (fun t => heldRow hs' (m_MonitorID m) t <> heldRow hs (m_MonitorID m) t)
                                      (seqZ b CanonicalBucket)) (ep_members e))) as [Hex|Hno].
  - apply Exists_exists in Hex as (m & Hm%list_elem_of_In & (t & Ht%list_elem_of_In%elem_of_seqZ & Hdiff)%Exists_exists).
    destruct (heldRow_grows hs hs' (m_MonitorID m) t Hsub) as [?|(u & row & Hu & Hnew)]; [done|].
    destruct (noted db s (m_MonitorID m) (dateBin u)) eqn:En.
    + right. exists {| nk_service := sid; nk_monitor := m_MonitorID m; nk_bucket := dateBin u; nk_ts := u |}.
      split; [by eapply Hkeyed; [eapply heldRow_row|..]|]. split; [done|].
      unfold throughOf in Hth. destruct (ss_mat s) as [mt|] eqn:Em; [|done]. cbn in Hth.
      destruct (Im mt eq_refl) as [Ha (th' & Hth' & _ & _ & Hc) _]. assert (th' = th) as -> by congruence.
      pose proof bucket_pos. exists mt, th. cbn. split; [done|]. split; [|split; [lia|]].
      * unfold frontierOf. rewrite Hth'. destruct (mt_sealed mt) as [c|]; [|done].
        specialize (Hc c eq_refl). f_equal. lia.
      * eapply held_in_reach; [exact Hu|done|lia|lia].
    + left. right; right. exists e, m, t, u, row. done.
  - left. eapply accounted_held; [done| |done]. intros m t Hm Ht.
    destruct (decide (heldRow hs' (m_MonitorID m) t = heldRow hs (m_MonitorID m) t)) as [|Hd]; [done|].
    destruct Hno. apply Exists_exists. exists m. split; [by apply list_elem_of_In|].
    apply Exists_exists. exists t. split; [|done]. apply list_elem_of_In, elem_of_seqZ. lia.
Qed.

(** *** The services of a monitor *)
Lemma elem_of_servicesDeclaring db id t sid s :
  sv_services db !! sid = Some s -> noted db s id t = true -> sid ∈ servicesDeclaringMonitorAt db id t.
Proof.
  intros Hs Hn. unfold noted in Hn. bool_facts. rewrite bool_decide_eq_true in H.
  unfold servicesDeclaringMonitorAt. rewrite H, merge_sort_Permutation.
  apply list_elem_of_fmap. exists (sid, s). split; [done|]. apply elem_of_filter_b.
  split; [by apply elem_of_map_to_list|]. simpl. by rewrite bool_decide_eq_true_2.
Qed.

Lemma noteServices_keys now hs mon bucket ts sids db :
  noteServices now hs mon bucket ts sids db
  = noteKeys now hs (map (fun sid => {| nk_service := sid; nk_monitor := mon; nk_bucket := bucket; nk_ts := ts |}) sids) db.
Proof.
  revert db. induction sids as [|sid sids IH]; intros db; [done|]. cbn.
  destruct (repairIfBehindWatermark _ _ _ _ _ _ _); [|done]. cbn. apply IH.
Qed.

Lemma noteHeartbeat_inv hs now id ts r db db' ws :
  id <> "" -> IsZero ts = false -> hs !! (id, pgTime ts) = None ->
  noteHeartbeat now (<[(id, pgTime ts) := r]> hs) id ts db = Ok db' ->
  seal_inv hs db ws -> seal_inv (<[(id, pgTime ts) := r]> hs) db' ws.
Proof.
  intros Hid Hz Hfresh H Hinv. unfold noteHeartbeat in H.
  rewrite bool_decide_eq_false_2, Hz in H by done. cbn [orb] in H.
  set (u := pgTime ts) in *. set (affected := servicesDeclaringMonitorAt db id (dateBin u)) in *.
  assert (exists sids, noteServices now (<[(id, u) := r]> hs) id (dateBin u) u sids db = Ok db' /\ affected = sids)
    as (sids & Hnote & Haff).
  { destruct affected as [|a l]; [by exists []|]. destruct (refuse_if _ _); [|done]. by eexists. }
  rewrite noteServices_keys in Hnote. eapply noteKeys_inv; [exact Hnote|].
  eapply (grows_inv hs _ [(id, ts)]); [|intros id' v sid s Hv Hnew Hs Hn|done].
  - split; [by apply insert_subseteq|]. intros id' v [row Hv] Hnew.
    rewrite lookup_insert_row in Hv by done. destruct Hv as [(-> & -> & _)|Hv]; [|congruence].
    exists ts. split_and!; [set_solver|done..].
  - destruct Hv as [row Hv]. rewrite lookup_insert_row in Hv by done. destruct Hv as [(-> & -> & _)|Hv]; [|congruence].
    apply list_elem_of_fmap. exists sid. split; [done|]. rewrite <- Haff. by eapply elem_of_servicesDeclaring.
Qed.

(** *** A batch *)
Lemma batchKeys_complete db beats keys id ts sid s :
  batchKeys db beats = Ok keys -> (id, ts) ∈ beats -> id <> "" -> IsZero ts = false ->
  sv_services db !! sid = Some s -> noted db s id (dateBin (pgTime ts)) = true ->
  {| nk_service := sid; nk_monitor := id; nk_bucket := dateBin (pgTime ts); nk_ts := pgTime ts |} ∈ keys.
Proof.
  intros Hk Hin Hid Hz Hs Hn. revert keys Hk. induction beats as [|[id' ts'] beats IH]; intros keys Hk; [set_solver|].
  cbn in Hk. destruct (bool_decide (id' = "") || IsZero ts') eqn:Eskip.
  - apply elem_of_cons in Hin as [[= -> ->]|Hin]; [|by apply IH].
    rewrite bool_decide_eq_false_2, Hz in Eskip by done. done.
  - destruct (refuse_if _ _); [|done]. cbn [rbind] in Hk.
    destruct (batchKeys db beats) as [keys'|] eqn:E; [|done]. injection Hk as <-.
    apply elem_of_app. apply elem_of_cons in Hin as [[= -> ->]|Hin]; [left|right; by apply IH].
    apply list_elem_of_fmap. exists sid. split; [done|]. by eapply elem_of_servicesDeclaring.
Qed.

Lemma noteHeartbeats_inv hs hs' now beats db db' ws :
  grows hs hs' beats -> noteHeartbeatsForServices now hs' beats db = Ok db' ->
  seal_inv hs db ws -> seal_inv hs' db' ws.
Proof.
  intros Hg H Hinv. unfold noteHeartbeatsForServices in H.
  destruct (batchKeys db beats) as [keys|] eqn:E; [|done]. cbn [rbind] in H.
  eapply noteKeys_inv; [exact H|]. eapply grows_inv; [exact Hg| |done].
  intros id u sid s Hu Hnew Hs Hn. rewrite merge_sort_Permutation.
  destruct (gr_new _ _ _ Hg id u Hu Hnew) as (ts & Hin & -> & Hid & Hz). by eapply batchKeys_complete.
Qed.

(** ** Declarations, eras, cancellations *)

(** A revision and the epoch it opens, appended to the service's tables. *)
Definition publish (rv : DefinitionRevision) (ep : Epoch) (s : ServiceState) : ServiceState :=
  {| ss_project := ss_project s; ss_revisions := ss_revisions s ++ [rv]; ss_epochs := ss_epochs s ++ [ep];
     ss_mat := ss_mat s; ss_ingest := ss_ingest s; ss_facts := ss_facts s; ss_late := ss_late s;
     ss_ranges := ss_ranges s |}.

Lemma epochAt_publish rv ep s t : t < ep_effective_at ep -> epochAt (publish rv ep s) t = epochAt s t.
Proof.
  intros Ht. unfold epochAt. cbn [ss_epochs publish]. rewrite List.filter_app. cbn.
  destruct (Z.leb_spec (ep_effective_at ep) t); [lia|]. by rewrite andb_false_r, app_nil_r.
Qed.

Lemma noted_publish db rv ep s id t : t < dr_effective_at rv -> noted db (publish rv ep s) id t = noted db s id t.
Proof.
  intros Ht. unfold noted, declares, governing. cbn [ss_revisions ss_project publish]. rewrite List.filter_app. cbn.
  destruct (Z.leb_spec (dr_effective_at rv) t); [lia|]. by rewrite andb_false_r, app_nil_r.
Qed.

Lemma only_service_inv hs db ws sid s s' :
  sv_services db !! sid = Some s -> ss_ranges s' = ss_ranges s -> (forall t, upto s t -> upto s' t) ->
  service_inv (nothing_owed sid) hs (setService db sid s') ws sid s' ->
  seal_inv hs db ws -> seal_inv hs (setService db sid s') ws.
Proof.
  intros Hs Hr Hup Hsv Hinv. pose proof Hinv as [_ Hwk].
  eapply (seal_inv_update nothing_owed); [intros; assumption|apply only_service_set|apply Pos.le_refl|done|exact Hsv| |done].
  intros w Hw Hsid.
  eapply (worker_inv_same db _ sid s); [done|cbn; by rewrite lookup_insert_eq|done|apply Pos.le_refl|exact Hup| |by apply Hwk].
  rewrite Hr. intros id r Hl. by exists r.
Qed.

Lemma publish_inv hs db ws sid s rv ep :
  sv_services db !! sid = Some s ->
  (forall th, throughOf s = Some th -> th <= dr_effective_at rv /\ th <= ep_effective_at ep) ->
  seal_inv hs db ws -> seal_inv hs (setService db sid (publish rv ep s)) ws.
Proof.
  intros Hs Hafter Hinv. pose proof (sl_services _ _ _ _ Hinv _ _ Hs) as [Im If Ir It].
  eapply only_service_inv; [exact Hs|done|done| |done].
  assert (forall b f, ss_facts s !! b = Some f ->
            b + CanonicalBucket <= dr_effective_at rv /\ b + CanonicalBucket <= ep_effective_at ep) as Hbefore.
  { intros b f Hb. destruct (If b f Hb) as (_ & (th & Hth & Hle) & _). specialize (Hafter th Hth). lia. }
  pose proof bucket_pos as Hpos. split.
  - intros m Hm. destruct (Im m Hm) as [H1 H2 H3]. by split.
  - intros b f Hb. destruct (If b f Hb) as (H1 & H2 & H3). destruct (Hbefore b f Hb).
    split_and!; [done..|]. rewrite epochAt_publish by lia. done.
  - intros id r Hr. destruct (Ir id r Hr) as [? ? ? ? ?]. by split.
  - intros b f Hb Hsl. left. destruct (Hbefore b f Hb) as [Hb1 Hb2].
    destruct (It b f Hb Hsl) as [[(e & bk & H1 & H2 & H3 & H4)|[(id & r & Hr & Ho)|(e & m & t & u & row & H1 & H2 & H3 & H4 & H5)]]|[]].
    + left. exists e, bk. rewrite epochAt_publish by lia. done.
    + right; left. by exists id, r.
    + right; right. exists e, m, t, u, row. rewrite epochAt_publish by lia. split_and!; try done.
      1-2: lia. rewrite noted_publish; [done|]. pose proof (heldRow_spec hs (m_MonitorID m) t) as Hh. rewrite H4 in Hh.
      destruct (dateBin_spec u) as [_ ?]. lia.
Qed.

(** The materialization row is created, or opens an era. *)
Lemma mat_step_inv hs db ws sid s mat :
  sv_services db !! sid = Some s -> (forall t, upto s t -> upto (setMat s mat) t) ->
  (forall m, mat = Some m -> mat_inv (setMat s mat) m) ->
  seal_inv hs db ws -> seal_inv hs (setService db sid (setMat s mat)) ws.
Proof.
  intros Hs Hup Hm Hinv. pose proof (sl_services _ _ _ _ Hinv _ _ Hs) as Hsv.
  eapply only_service_inv; [exact Hs|done|exact Hup| |done].
  eapply (service_inv_written hs db _ ws ws sid modeOrdinary [] s s); [apply written_nil|by split|by split|done|exact Hm
    |exact Hup|set_solver| |intros b _ Hc; by left|exact Hsv].
  intros id r Hr. eapply range_inv_same; [apply Pos.le_refl|exact Hup|by apply (si_ranges _ _ _ _ _ _ Hsv)].
Qed.

Lemma ensure_inv hs db ws sid s start :
  sv_services db !! sid = Some s -> aligned start ->
  seal_inv hs db ws -> seal_inv hs (setService db sid (ensureMaterializationRowTx start s)) ws.
Proof.
  intros Hs Hst Hinv. unfold ensureMaterializationRowTx. destruct (ss_mat s) as [m|] eqn:Em.
  - by rewrite setService_id.
  - apply mat_step_inv; [done| |intros m [= <-]|done].
    + intros t (u & Hu & _). unfold throughOf in Hu. by rewrite Em in Hu.
    + split; [split; cbn; try done; by intros c [= <-]|exists start; cbn; split_and!; [done|lia|lia|done]|done].
Qed.

Lemma startEra_inv hs db ws sid s m effectiveAt :
  sv_services db !! sid = Some s -> ss_mat s = Some m -> aligned effectiveAt ->
  seal_inv hs db ws -> seal_inv hs (setService db sid (setMat s (Some (startEra effectiveAt m)))) ws.
Proof.
  intros Hs Hm He Hinv.
  destruct (si_mat _ _ _ _ _ _ (sl_services _ _ _ _ Hinv _ _ Hs) m Hm) as [[A1 A2 A3 A4] (th & Hth & H1 & H2 & H3) Hcont].
  assert (mt_through (startEra effectiveAt m) = Some (Z.max th effectiveAt)) as Hth' by (cbn; by rewrite Hth).
  apply mat_step_inv; [done| |intros m' [= <-]|done].
  - intros t. rewrite (upto_through s m th), (upto_through _ (startEra effectiveAt m) _) by done. lia.
  - split; [split|exists (Z.max th effectiveAt); split_and!; [done|cbn; lia|cbn; lia|done]|done]; try done.
    + cbn. rewrite Hth. cbn. intros c [= <-]. destruct (Z.max_spec th effectiveAt) as [[_ ->]|[_ ->]]; auto.
Qed.

Lemma cancel_inv hs db ws sid s origins :
  sv_services db !! sid = Some s ->
  seal_inv hs db ws -> seal_inv hs (setService db sid (cancelRangesOfOrigin origins s)) ws.
Proof.
  intros Hs Hinv. pose proof Hinv as [Hsv Hwk]. specialize (Hsv _ _ Hs). set (s' := cancelRangesOfOrigin origins s).
  assert (forall id r, ss_ranges s' !! id = Some r -> exists r0, ss_ranges s !! id = Some r0 /\
            rr_from r = rr_from r0 /\ rr_to r = rr_to r0 /\ cursorOf r = cursorOf r0) as Hback.
  { intros id r Hr. cbn in Hr. apply lookup_fmap_Some in Hr as (r0 & <- & Hr0). exists r0. by case_match. }
  eapply (seal_inv_update nothing_owed); [intros; assumption|apply only_service_set|apply Pos.le_refl|done| | |done].
  - eapply (service_inv_ranges (nothing_owed sid) _ _ db _ ws _ _ s); [by split|by split| |intros b []| |exact Hsv].
    + intros b (id & r & Hr & Ho). exists id, r. split; [|done]. cbn. rewrite lookup_fmap, Hr. cbn.
      by rewrite (ow_origin _ _ _ _ _ Ho).
    + intros id r (r0 & Hr0 & E1 & E2 & E3)%Hback. destruct (si_ranges _ _ _ _ _ _ Hsv _ _ Hr0) as [R1 R2 R3 R4 R5].
      split; rewrite ?E1, ?E2, ?E3; done.
  - intros w Hw Hsid. eapply (worker_inv_same db _ sid s); [done|cbn; by rewrite lookup_insert_eq|done|apply Pos.le_refl|done| |by apply Hwk].
    intros id r (r0 & Hr0 & _ & E2 & _)%Hback. by exists r0.
Qed.
