(* ===== verification/ServiceSystem.v ===== *)
(** * The measuring system and its guarantees
    (the transactions of [internal/store/servicematerialize.go], [servicerepair.go] and
    [serviceingest.go] as the steps of one system)

    Each step is one transaction, in any interleaving: heartbeats singly or in batches, slices
    of the forward driver, claims, batches and closing writes of any number of workers, and
    workers that die between two transactions.  Definitions and maintenance windows are fixed
    during the run, except that new declarations may take effect at or after the frontier. *)

From S2P Require Import Prelude ServicePolicy MonitorRow Heartbeats Effective Aggregate Reduce Materialize ServiceRepair ServiceIngest ServiceReach ServiceWatermark ServiceWrites ServiceSeal.

Implicit Types (t b start now : Time) (s : ServiceState) (db : Services) (hs : heartbeats) (ws : list RepairRange).

(** The heartbeats, the tables, and the workers in flight. *)
Record SealState := { st_hs : heartbeats; st_db : Services; st_ws : list RepairRange }.

Definition mk hs db ws : SealState := {| st_hs := hs; st_db := db; st_ws := ws |}.

Inductive seal_step : SealState -> SealState -> Prop :=
| step_heartbeat hs db ws now id ts r db' :
    id <> "" -> IsZero ts = false -> hs !! (id, pgTime ts) = None ->
    noteHeartbeat now (<[(id, pgTime ts) := r]> hs) id ts db = Ok db' ->
    seal_step (mk hs db ws) (mk (<[(id, pgTime ts) := r]> hs) db' ws)
| step_heartbeats hs db ws now hs' beats db' :
    grows hs hs' beats -> noteHeartbeatsForServices now hs' beats db = Ok db' ->
    seal_step (mk hs db ws) (mk hs' db' ws)
| step_forward hs db ws now sid budget db' :
    AdvanceServiceMaterialization hs now sid budget db = Ok db' ->
    seal_step (mk hs db ws) (mk hs db' ws)
| step_enqueue hs db ws now sid from to reason origin db' :
    enqueueRepairRangeTx now sid from to reason origin db = Ok db' ->
    (forall s, sv_services db !! sid = Some s -> upto s (CeilToBucket to)) ->
    seal_step (mk hs db ws) (mk hs db' ws)
| step_cancel hs db ws sid s origins :
    sv_services db !! sid = Some s ->
    seal_step (mk hs db ws) (mk hs (setService db sid (cancelRangesOfOrigin origins s)) ws)
| step_claim hs db ws now sid id db' w :
    claimRepairRange now sid id db = Some (db', w) ->
    seal_step (mk hs db ws) (mk hs db' (ws ++ [w]))
| step_batch hs db ws i now w batch db' :
    ws !! i = Some w -> wk_cursor w < wk_to w -> 0 < batch ->
    runRepairBatch hs now w (wk_cursor w) (batchEnd w batch) db = Ok db' ->
    seal_step (mk hs db ws) (mk hs db' (<[i := moveWorker w (batchEnd w batch)]> ws))
| step_complete hs db ws i w :
    ws !! i = Some w -> wk_to w <= wk_cursor w ->
    seal_step (mk hs db ws) (mk hs (completeRepairRange w db) (delete i ws))
| step_release hs db ws i w :
    ws !! i = Some w -> seal_step (mk hs db ws) (mk hs (releaseRepairRange w db) (delete i ws))
| step_fail hs db ws i now w :
    ws !! i = Some w -> seal_step (mk hs db ws) (mk hs (failRepairRange now w db) (delete i ws))
| step_unrecomputable hs db ws i w :
    ws !! i = Some w -> seal_step (mk hs db ws) (mk hs (markRepairRangeUnrecomputable w db) (delete i ws))
| step_die hs db ws i :
    seal_step (mk hs db ws) (mk hs db (delete i ws))
| step_publish hs db ws sid s rv ep :
    sv_services db !! sid = Some s ->
    (forall th, throughOf s = Some th -> th <= dr_effective_at rv /\ th <= ep_effective_at ep) ->
    seal_step (mk hs db ws) (mk hs (setService db sid (publish rv ep s)) ws)
| step_ensure hs db ws sid s start :
    sv_services db !! sid = Some s -> aligned start ->
    seal_step (mk hs db ws) (mk hs (setService db sid (ensureMaterializationRowTx start s)) ws)
| step_era hs db ws sid s m effectiveAt :
    sv_services db !! sid = Some s -> ss_mat s = Some m -> aligned effectiveAt ->
    seal_step (mk hs db ws) (mk hs (setService db sid (setMat s (Some (startEra effectiveAt m)))) ws).

(** Nothing has been measured yet; the heartbeats may be there already. *)
Record seal_start (x : SealState) : Prop := {
  ss0_services : forall sid s, sv_services (st_db x) !! sid = Some s ->
    ss_mat s = None /\ ss_facts s = ∅ /\ ss_ranges s = ∅;
  ss0_workers : st_ws x = [];
}.

Definition seal_system : system SealState := System seal_start seal_step.

(** ** The invariant holds *)
Lemma delete_elem (i : nat) ws w : w ∈ delete i ws -> w ∈ ws.
Proof.
  intros [j Hj]%list_elem_of_lookup. destruct (decide (j < i)%nat) as [Hlt|Hge].
  - rewrite list_lookup_delete_lt in Hj by done. by eapply list_elem_of_lookup_2.
  - rewrite list_lookup_delete_ge in Hj by lia. by eapply list_elem_of_lookup_2.
Qed.

Lemma closing_step_inv hs db ws i w f :
  ws !! i = Some w ->
  (forall r, rr_from (f r) = rr_from r /\ rr_to (f r) = rr_to r /\ rr_origin (f r) = rr_origin r /\
             rr_cursor (f r) = Some (wk_cursor w)) ->
  ((forall r, live (rr_state (f r)) = true) \/ wk_to w <= wk_cursor w) ->
  seal_inv hs db ws -> seal_inv hs (updateRange f (wk_service w) (wk_id w) db) (delete i ws).
Proof.
  intros Hi. apply closing_inv; [by eapply list_elem_of_lookup_2|]. intros x. apply delete_elem.
Qed.

Lemma release_inv hs db ws i w :
  ws !! i = Some w -> seal_inv hs db ws -> seal_inv hs (releaseRepairRange w db) (delete i ws).
Proof.
  intros Hi Hinv. unfold releaseRepairRange. destruct (sv_services db !! wk_service w) as [s|].
  - eapply closing_step_inv; [exact Hi|done|by left|done].
  - eapply seal_inv_workers; [intros x; apply delete_elem|done].
Qed.

Lemma seal_step_inv x y :
  seal_step x y -> seal_inv (st_hs x) (st_db x) (st_ws x) -> seal_inv (st_hs y) (st_db y) (st_ws y).
Proof.
  destruct 1 as [hs db ws now id ts r db' Hid Hz Hf H|hs db ws now hs' beats db' Hg H|hs db ws now sid budget db' H
    |hs db ws now sid from to reason origin db' H Hup|hs db ws sid s origins Hs|hs db ws now sid id db' w H
    |hs db ws i now w batch db' Hi Hlt Hb H|hs db ws i w Hi Hend|hs db ws i w Hi|hs db ws i now w Hi
    |hs db ws i w Hi|hs db ws i|hs db ws sid s rv ep Hs Hafter|hs db ws sid s start Hs Ha|hs db ws sid s m e Hs Hm He];
    cbn [st_hs st_db st_ws mk]; intros Hinv.
  - by eapply noteHeartbeat_inv.
  - by eapply noteHeartbeats_inv.
  - by eapply forward_inv.
  - eapply (enqueue_inv nothing_owed nothing_owed); [exact H|exact Hup|intros; assumption|intros ? ? ? _ []|intros s b _ []|done].
  - by apply cancel_inv.
  - by eapply claim_inv.
  - eapply batch_inv; [by eapply list_elem_of_lookup_2| |exact Hlt|exact Hb|exact H|done].
    intros x [j Hj]%list_elem_of_lookup. destruct (decide (j = i)) as [->|Hne].
    + rewrite list_lookup_insert_eq in Hj by (by eapply lookup_lt_Some). injection Hj as <-. by right.
    + rewrite list_lookup_insert_ne in Hj by done. left. by eapply list_elem_of_lookup_2.
  - eapply closing_step_inv; [exact Hi|done|by right|done].
  - by apply release_inv.
  - eapply closing_step_inv; [exact Hi|done|by left|done].
  - eapply closing_step_inv; [exact Hi|done|by left|done].
  - eapply seal_inv_workers; [intros x; apply delete_elem|done].
  - by apply publish_inv.
  - by apply ensure_inv.
  - by apply startEra_inv.
Qed.

Lemma seal_start_inv x : seal_start x -> seal_inv (st_hs x) (st_db x) (st_ws x).
Proof.
  intros [Hs ->]. split; [|set_solver]. intros sid s Hl. destruct (Hs sid s Hl) as (H1 & H2 & H3).
  split; rewrite ?H1, ?H2, ?H3; done.
Qed.

Lemma seal_reachable_inv x : sys_reachable seal_system x -> seal_inv (st_hs x) (st_db x) (st_ws x).
Proof.
  apply (invariant_rule seal_system (fun x => seal_inv (st_hs x) (st_db x) (st_ws x)));
    [apply seal_start_inv|apply seal_step_inv].
Qed.

(** ** What it guarantees *)



(** ** A run of the system *)
Definition at_ (n : Z) : Time := unixEpoch + n * Second.

Definition demoRevision : DefinitionRevision :=
  {| dr_revision := 1; dr_effective_at := at_ 0; dr_effective := true; dr_sli := ["a"] |}.

Definition demoEpoch : Epoch :=
  {| ep_id := "e1"; ep_seq := 1; ep_effective_at := at_ 0; ep_effective := true;
     ep_members := [reachMember "a"]; ep_policies := demoPolicy |}.

Definition emptyService : ServiceState :=
  {| ss_project := "p"; ss_revisions := [demoRevision]; ss_epochs := [demoEpoch]; ss_mat := None;
     ss_ingest := ∅; ss_facts := ∅; ss_late := ∅; ss_ranges := ∅ |}.

Definition db0 : Services :=
  {| sv_services := {[ "svc" := emptyService ]}; sv_generation := ∅; sv_monitors := {[ "a" := "p" ]};
     sv_windows := []; sv_next_range := 1; sv_late_arrivals := 0; sv_late_overflow := 0;
     sv_recompute_audits := []; sv_services_per_monitor := 64 |}.

Definition hs1 : heartbeats := {[ ("a", at_ 30) := upRow ]}.
Definition hs2 : heartbeats := <[("a", at_ 250) := upRow]> hs1.
Definition hs3 : heartbeats := <[("a", at_ 90) := downRow]> hs2.

Definition db1 : Services := setService db0 "svc" (ensureMaterializationRowTx (at_ 0) emptyService).
Definition db2 : Services := okOr (noteHeartbeat (at_ 30) hs1 "a" (at_ 30) db1) db1.
Definition db3 : Services := okOr (noteHeartbeat (at_ 250) hs2 "a" (at_ 250) db2) db2.
Definition db4 : Services := okOr (AdvanceServiceMaterialization hs2 (at_ 600) "svc" 240 db3) db3.
Definition db5 : Services := okOr (noteHeartbeat (at_ 610) hs3 "a" (at_ 90) db4) db4.
Definition claimed : Services * RepairRange :=
  match claimRepairRange (at_ 620) "svc" 1 db5 with
  | Some c => c
  | None => (db5, {| wk_service := ""; wk_id := 1; wk_from := 0; wk_to := 0; wk_cursor := 0; wk_generation := 0;
                     wk_attempts := 0 |})
  end.
Definition db7 : Services :=
  okOr (runRepairBatch hs3 (at_ 621) claimed.2 (wk_cursor claimed.2) (batchEnd claimed.2 4) claimed.1) claimed.1.

Definition stateLate : SealState := mk hs3 db5 [].
Definition stateRepaired : SealState := mk hs3 db7 [moveWorker claimed.2 (batchEnd claimed.2 4)].

Lemma stateLate_reachable : sys_reachable seal_system stateLate.
Proof.
  exists (mk ∅ db0 []). split.
  { split; [|done]. intros sid s. cbn. intros [<- <-]%lookup_singleton_Some. done. }
  eapply rtc_l; [apply (step_ensure _ _ _ "svc" emptyService (at_ 0)); [reflexivity|exists 1035593280; reflexivity]|].
  eapply rtc_l; [apply (step_heartbeat ∅ db1 [] (at_ 30) "a" (at_ 30) upRow db2);
    [done|done|reflexivity|apply okOr_ok; vm_compute; reflexivity]|].
  eapply rtc_l; [apply (step_heartbeat hs1 db2 [] (at_ 250) "a" (at_ 250) upRow db3);
    [done|done|reflexivity|apply okOr_ok; vm_compute; reflexivity]|].
  eapply rtc_l; [apply (step_forward hs2 db3 [] (at_ 600) "svc" 240 db4); apply okOr_ok; vm_compute; reflexivity|].
  eapply rtc_l; [apply (step_heartbeat hs2 db4 [] (at_ 610) "a" (at_ 90) downRow db5);
    [done|done|reflexivity|apply okOr_ok; vm_compute; reflexivity]|].
  apply rtc_refl.
Qed.

Definition svcIn (db : Services) : ServiceState := default emptyService (sv_services db !! "svc").
Definition factIn (db : Services) (b : Time) : Fact := default (demoFact false) (ss_facts (svcIn db) !! b).

Lemma default_lookup_time {A} (m : gmap Time A) k d : is_Some (m !! k) -> m !! k = Some (default d (m !! k)).
Proof. by intros [x ->]. Qed.

Lemma isSome_b {A} (o : option A) : (match o with Some _ => true | None => false end) = true -> is_Some o.
Proof. destruct o; [by eexists|done]. Qed.



(** ** Sealed for good *)

(** Every sealed bucket of every service stays sealed. *)
Definition keeps_sealed (db db' : Services) : Prop :=
  forall sid s, sv_services db !! sid = Some s -> exists s', sv_services db' !! sid = Some s' /\
    forall b, sealedAt s b = true -> sealedAt s' b = true.

#[export] Instance keeps_sealed_preorder : PreOrder keeps_sealed.
Proof.
  split.
  - intros db sid s Hs. by exists s.
  - intros x y z Hxy Hyz sid s Hs. destruct (Hxy sid s Hs) as (s' & Hs' & H1).
    destruct (Hyz sid s' Hs') as (s'' & Hs'' & H2). exists s''. auto.
Qed.

Lemma keeps_sealed_only sid db db' s s' :
  sv_services db !! sid = Some s -> sv_services db' = <[sid := s']> (sv_services db) ->
  (forall b, sealedAt s b = true -> sealedAt s' b = true) -> keeps_sealed db db'.
Proof.
  intros Hs Hdb Hk sid0 s0 Hs0. rewrite Hdb. destruct (decide (sid0 = sid)) as [->|Hne].
  - rewrite lookup_insert_eq. simplify_eq. by exists s'.
  - rewrite lookup_insert_ne by done. by exists s0.
Qed.

Lemma keeps_sealed_set sid db s s' :
  sv_services db !! sid = Some s -> (forall b, sealedAt s b = true -> sealedAt s' b = true) ->
  keeps_sealed db (setService db sid s').
Proof. intros Hs. by apply (keeps_sealed_only sid). Qed.

Lemma enqueue_keeps now sid from to reason origin db db' :
  enqueueRepairRangeTx now sid from to reason origin db = Ok db' -> keeps_sealed db db'.
Proof.
  intros (s & s' & row & Hs & Ho & _ & He)%enqueueRepairRangeTx_writes.
  eapply keeps_sealed_only; [exact Hs|apply Ho|]. intros b. unfold sealedAt. by rewrite (sr_facts _ _ (eq_rows _ _ _ _ _ _ _ He)).
Qed.

Lemma noteKeys_keeps now hs keys db db' : noteKeys now hs keys db = Ok db' -> keeps_sealed db db'.
Proof.
  revert db. induction keys as [|k keys IH]; intros db; cbn; [by intros [= <-]|].
  destruct (repairIfBehindWatermark _ _ _ _ _ _ _) as [db1|] eqn:E; [|done]. cbn. intros H.
  trans (markBucket now (nk_service k) (nk_monitor k) (nk_bucket k) (nk_ts k) db).
  { unfold markBucket. destruct (sv_services db !! nk_service k) as [s|] eqn:Es; [|done].
    case_match; (eapply keeps_sealed_only; [exact Es|reflexivity|done]). }
  trans db1; [|by apply IH]. revert E. generalize (markBucket now (nk_service k) (nk_monitor k) (nk_bucket k) (nk_ts k) db).
  intros db2 E. unfold repairIfBehindWatermark in E. repeat case_match; simplify_eq; try done.
  by eapply enqueue_keeps.
Qed.

Lemma updateRange_keeps f sid id db : keeps_sealed db (updateRange f sid id db).
Proof.
  unfold updateRange. destruct (sv_services db !! sid) as [s|] eqn:Es; [|done]. by eapply keeps_sealed_set.
Qed.

Lemma advanceSealedThrough_keeps sid db : keeps_sealed db (advanceSealedThrough sid db).
Proof.
  unfold advanceSealedThrough. destruct (sv_services db !! sid) as [s|] eqn:Es; [|done].
  eapply keeps_sealed_set; [exact Es|]. intros b. unfold sealedAt. by rewrite advanceSealedRow_facts.
Qed.

Lemma tx_writes_keeps hs sid mode bs db db' : tx_writes hs sid mode bs db db' -> keeps_sealed db db'.
Proof.
  intros (s & s' & Hs & Ho & _ & Hw). eapply keeps_sealed_only; [exact Hs|apply Ho|apply Hw].
Qed.

Lemma forward_keeps hs now sid budget db db' :
  AdvanceServiceMaterialization hs now sid budget db = Ok db' -> keeps_sealed db db'.
Proof.
  unfold AdvanceServiceMaterialization. destruct (sv_services db !! sid) as [s|] eqn:Es; [|by intros [= <-]].
  destruct (ss_mat s) as [m|]; [|by intros [= <-]]. destruct (negb _); [by intros [= <-]|]. cbv zeta.
  destruct (take _ _) as [|b0 walked]; [by intros [= <-]|].
  destruct (materializeBuckets _ _ _ _ _ _) as [[db1 d]|] eqn:Eb; [|done]. cbn [rbind]. intros [= <-].
  apply (materializeBuckets_writes _ _ _ _ _ _ _ _ s Es) in Eb.
  trans db1; [by eapply tx_writes_keeps|]. etrans; [|apply advanceSealedThrough_keeps].
  destruct (sv_services db1 !! sid) as [s1|] eqn:E1; [|done]. by eapply keeps_sealed_set.
Qed.

Lemma seal_step_keeps x y : seal_step x y -> keeps_sealed (st_db x) (st_db y).
Proof.
  destruct 1 as [hs db ws now id ts r db' Hid Hz Hf H|hs db ws now hs' beats db' Hg H|hs db ws now sid budget db' H
    |hs db ws now sid from to reason origin db' H Hup|hs db ws sid s origins Hs|hs db ws now sid id db' w H
    |hs db ws i now w batch db' Hi Hlt Hb H|hs db ws i w Hi Hend|hs db ws i w Hi|hs db ws i now w Hi
    |hs db ws i w Hi|hs db ws i|hs db ws sid s rv ep Hs Hafter|hs db ws sid s start Hs Ha|hs db ws sid s m e Hs Hm He];
    cbn [st_hs st_db st_ws mk]; try apply updateRange_keeps; try done.
  - unfold noteHeartbeat in H. repeat case_match; simplify_eq; try done.
    destruct (refuse_if _ _); [|done]. cbn [rbind] in H. rewrite noteServices_keys in H. by eapply noteKeys_keeps.
  - unfold noteHeartbeatsForServices in H. destruct (batchKeys db beats); [|done]. by eapply noteKeys_keeps.
  - by eapply forward_keeps.
  - by eapply enqueue_keeps.
  - by eapply keeps_sealed_set.
  - unfold claimRepairRange in H. destruct (sv_services db !! sid) as [s|] eqn:Es; [|done].
    repeat case_match; simplify_eq. by eapply keeps_sealed_set.
  - apply runRepairBatch_writes in H as (s & s1 & Hs & Hw & Ho & _).
    eapply keeps_sealed_only; [exact Hs|apply Ho|]. intros b Hsb. unfold sealedAt. cbn. rewrite advanceSealedRow_facts.
    by apply (wr_sealed _ _ _ _ _ _ Hw).
  - unfold releaseRepairRange. destruct (sv_services db !! _); [apply updateRange_keeps|done].
  - by eapply keeps_sealed_set.
  - eapply keeps_sealed_set; [exact Hs|]. unfold ensureMaterializationRowTx. by case_match.
  - by eapply keeps_sealed_set.
Qed.

(** a sealed bucket is final but for its own repair.  Whatever happens, a sealed bucket stays
    sealed; and a slice of the forward driver leaves the stored fact of every sealed bucket
    exactly as it was, however late the driver comes back to it. *)
Theorem sealing_is_final x y :
  rtc (sys_step seal_system) x y ->
  forall sid s, sv_services (st_db x) !! sid = Some s ->
  exists s', sv_services (st_db y) !! sid = Some s' /\
    (forall b, sealedAt s b = true -> sealedAt s' b = true) /\
    (forall now budget db', AdvanceServiceMaterialization (st_hs y) now sid budget (st_db y) = Ok db' ->
     exists s'', sv_services db' !! sid = Some s'' /\
       forall b, sealedAt s' b = true -> ss_facts s'' !! b = ss_facts s' !! b).
Proof.
  intros Hrun sid s Hs.
  assert (keeps_sealed (st_db x) (st_db y)) as Hk.
  { clear Hs. induction Hrun as [|x y z Hxy _ IH]; [done|]. etrans; [by apply seal_step_keeps|exact IH]. }
  destruct (Hk sid s Hs) as (s' & Hs' & Hseal). exists s'. split; [done|]. split; [done|].
  intros now budget db'. unfold AdvanceServiceMaterialization. rewrite Hs'.
  destruct (ss_mat s') as [m|]; [|intros [= <-]; by exists s']. destruct (negb _); [intros [= <-]; by exists s'|]. cbv zeta.
  destruct (take _ _) as [|b0 walked]; [intros [= <-]; by exists s'|].
  destruct (materializeBuckets _ _ _ _ _ _) as [[db1 d]|] eqn:Eb; [|done]. cbn [rbind]. intros [= <-].
  apply (materializeBuckets_writes _ _ _ _ _ _ _ _ s' Hs') in Eb as (s_ & s1 & Hs_ & Ho & _ & Hw).
  assert (s_ = s') as -> by congruence. rewrite (only_service_lookup _ _ _ _ Ho).
  unfold advanceSealedThrough. cbn [sv_services setService]. rewrite lookup_insert_eq.
  eexists. split; [cbn; by rewrite lookup_insert_eq|]. intros b Hb. rewrite advanceSealedRow_facts.
  by apply (wr_ordinary _ _ _ _ _ _ Hw).
Qed.

Lemma stateLate_runs : rtc (sys_step seal_system) (mk hs2 db4 []) stateLate.
Proof.
  eapply rtc_l; [apply (step_heartbeat hs2 db4 [] (at_ 610) "a" (at_ 90) downRow db5);
    [done|done|reflexivity|apply okOr_ok; vm_compute; reflexivity]|].
  apply rtc_refl.
Qed.

Lemma sealing_is_final_witness :
  exists s', sv_services db5 !! "svc" = Some s' /\
    (forall b, sealedAt (svcIn db4) b = true -> sealedAt s' b = true) /\
    (forall now budget db', AdvanceServiceMaterialization hs3 now "svc" budget db5 = Ok db' ->
     exists s'', sv_services db' !! "svc" = Some s'' /\
       forall b, sealedAt s' b = true -> ss_facts s'' !! b = ss_facts s' !! b).
Proof.
  refine (sealing_is_final (mk hs2 db4 []) stateLate stateLate_runs "svc" (svcIn db4)
            (default_lookup _ _ _ (isSome_b _ _))). vm_compute. reflexivity.
Defined.

(** ** The promise to the result path

    What the ingest side of [internal/store/monitors.go] is verified against. *)
#[export] Instance sealSink : ServiceSink (Services * list RepairRange).
Proof.
  refine {| noteHeartbeatForServices now hs id ts w :=
              match noteHeartbeat now hs id ts w.1 with Ok db => Some (db, w.2) | Err _ => None end;
            sink_sound hs w := seal_inv hs w.1 w.2 |}.
  intros now hs id ts r [db ws] [db' ws'] Hid Hz Hf Hs. cbn.
  destruct (noteHeartbeat _ _ _ _ _) as [db1|] eqn:E; [|done]. intros [= <- <-]. by eapply noteHeartbeat_inv.
Defined.

(** ** Coalescing *)

(** coalescing keeps the union exactly.  The range that queueing [from, to) leaves behind
    contains a bucket exactly when it was asked for or when a range it absorbed contained it. *)
Theorem coalescing_keeps_the_union now sid from to reason origin db db' s :
  enqueueRepairRangeTx now sid from to reason origin db = Ok db' -> sv_services db !! sid = Some s ->
  exists s' row, sv_services db' !! sid = Some s' /\ ss_ranges s' !! sv_next_range db = Some row /\
    forall b, rr_from row <= b < rr_to row <->
      FloorToBucket from <= b < CeilToBucket to \/
      exists id r, ss_ranges s !! id = Some r /\ absorbs reason (FloorToBucket from) (CeilToBucket to) r = true /\
                   rr_from r <= b < rr_to r.
Proof.
  intros H Hs. unfold enqueueRepairRangeTx in H. rewrite Hs in H.
  destruct (refuse_if _ _); [|done]. cbn [rbind] in H.
  set (f0 := FloorToBucket from) in *. set (t0 := CeilToBucket to) in *.
  set (absorbed := base.filter (fun kv : positive * RepairRow => absorbs reason f0 t0 kv.2) (ss_ranges s)) in *.
  set (rows := map snd (map_to_list absorbed)) in *. injection H as <-.
  eexists _, _. split; [cbn; by rewrite lookup_insert_eq|]. split; [cbn; by rewrite lookup_insert_eq|].
  cbn [rr_from rr_to newRange].
  assert (forall r, r ∈ rows <-> exists id, ss_ranges s !! id = Some r /\ absorbs reason f0 t0 r = true) as Hrows.
  { intros r. unfold rows. rewrite list_elem_of_fmap. split.
    - intros ([id r'] & -> & Hr%elem_of_map_to_list). apply map_lookup_filter_Some in Hr as [Hr Ha].
      exists id. split; [done|]. by apply Is_true_true.
    - intros (id & Hr & Ha). exists (id, r). split; [done|]. apply elem_of_map_to_list, map_lookup_filter_Some.
      split; [done|]. by apply Is_true_eq_left. }
  assert (forall r, r ∈ rows -> rr_from r <= t0 /\ f0 <= rr_to r) as Habut.
  { intros r (id & _ & Ha)%Hrows. unfold absorbs in Ha. bool_facts. lia. }
  destruct (foldr_min_le (map rr_from rows) f0) as [Hmin Hmins].
  destruct (foldr_max_ge (map rr_to rows) t0) as [Hmax Hmaxs].
  intros b. split.
  - intros Hb. destruct (decide (b < f0)) as [Hlt|Hge]; [|destruct (decide (t0 <= b)) as [Hle|]; [|left; lia]].
    + right. assert (foldr Z.min f0 (map rr_from rows) <= b) as Hb' by lia. revert Hb'.
      apply (foldr_choice Z.min _ _ (fun z => z <= b -> exists id r, ss_ranges s !! id = Some r /\
               absorbs reason f0 t0 r = true /\ rr_from r <= b < rr_to r)); [intros; lia|lia|].
      intros y (r & -> & Hr)%list_elem_of_fmap Hle. destruct (Habut r Hr). apply Hrows in Hr as (id & Hid & Ha).
      exists id, r. split_and!; try done; lia.
    + right. assert (b < foldr Z.max t0 (map rr_to rows)) as Hb' by lia. revert Hb'.
      apply (foldr_choice Z.max _ _ (fun z => b < z -> exists id r, ss_ranges s !! id = Some r /\
               absorbs reason f0 t0 r = true /\ rr_from r <= b < rr_to r)); [intros; lia|lia|].
      intros y (r & -> & Hr)%list_elem_of_fmap Hle'. destruct (Habut r Hr). apply Hrows in Hr as (id & Hid & Ha).
      exists id, r. split_and!; try done; lia.
  - intros [Hb|(id & r & Hid & Ha & Hb)]; [lia|]. assert (r ∈ rows) as Hr by (apply Hrows; by exists id).
    pose proof (Hmins (rr_from r) ltac:(apply list_elem_of_fmap; by exists r)).
    pose proof (Hmaxs (rr_to r) ltac:(apply list_elem_of_fmap; by exists r)). lia.
Qed.

Definition db5b : Services := okOr (enqueueRepairRangeTx (at_ 615) "svc" (at_ 300) (at_ 400) ReasonLateData "" db5) db5.

Lemma coalescing_keeps_the_union_witness :
  map fst (map_to_list (ss_ranges (svcIn db5b))) = [2%positive] /\
  exists s' row, sv_services db5b !! "svc" = Some s' /\ ss_ranges s' !! sv_next_range db5 = Some row /\
    forall b, rr_from row <= b < rr_to row <->
      FloorToBucket (at_ 300) <= b < CeilToBucket (at_ 400) \/
      exists id r, ss_ranges (svcIn db5) !! id = Some r /\
        absorbs ReasonLateData (FloorToBucket (at_ 300)) (CeilToBucket (at_ 400)) r = true /\ rr_from r <= b < rr_to r.
Proof.
  split; [vm_compute; reflexivity|].
  refine (coalescing_keeps_the_union (at_ 615) "svc" (at_ 300) (at_ 400) ReasonLateData "" db5 db5b (svcIn db5)
            (okOr_ok _ _ _) (default_lookup _ _ _ (isSome_b _ _))); vm_compute; reflexivity.
Defined.

(** ** Where the account ends

    Three runs the code admits and its comments do not expect. *)

Definition expectedGood (hs : heartbeats) (db : Services) (b : Time) : option Z :=
  match epochAt (svcIn db) b with
  | Some e => match Reduce (inputFor hs db (svcIn db) e b) with
              | Ok bk => Some (bs_good (splitOf (b_Durations bk)))
              | Err _ => None
              end
  | None => None
  end.

(** The service measures "b" first and "a" from 120 s on. *)
Definition joinedService : ServiceState :=
  {| ss_project := "p";
     ss_revisions := [ {| dr_revision := 1; dr_effective_at := at_ 0; dr_effective := true; dr_sli := ["b"] |};
                       {| dr_revision := 2; dr_effective_at := at_ 120; dr_effective := true; dr_sli := ["a"] |} ];
     ss_epochs := [ {| ep_id := "e1"; ep_seq := 1; ep_effective_at := at_ 0; ep_effective := true;
                       ep_members := [reachMember "b"]; ep_policies := demoPolicy |};
                    {| ep_id := "e2"; ep_seq := 2; ep_effective_at := at_ 120; ep_effective := true;
                       ep_members := [reachMember "a"]; ep_policies := demoPolicy |} ];
     ss_mat := None; ss_ingest := ∅; ss_facts := ∅; ss_late := ∅; ss_ranges := ∅ |}.

Definition joined0 : Services :=
  {| sv_services := {[ "svc" := joinedService ]}; sv_generation := ∅; sv_monitors := {[ "a" := "p"; "b" := "p" ]};
     sv_windows := []; sv_next_range := 1; sv_late_arrivals := 0; sv_late_overflow := 0;
     sv_recompute_audits := []; sv_services_per_monitor := 64 |}.
Definition joined1 : Services := setService joined0 "svc" (ensureMaterializationRowTx (at_ 0) joinedService).
Definition joined2 : Services := okOr (AdvanceServiceMaterialization hs2 (at_ 600) "svc" 240 joined1) joined1.
Definition joined3 : Services := okOr (noteHeartbeat (at_ 610) hs3 "a" (at_ 90) joined2) joined2.

(** A row that lands before the monitor joined is the carry-in of the buckets after it; its own
    bucket belongs to no service that declares the monitor, and nothing is queued. *)
Example carry_in_from_before_membership :
  bs_good (ft_split (factIn joined3 (at_ 120))) = 60000000 /\ ft_sealed (factIn joined3 (at_ 120)) = true /\
  expectedGood hs3 joined3 (at_ 120) = Some 0 /\ ss_ranges (svcIn joined3) = ∅.
Proof. vm_compute. split_and!; reflexivity. Qed.

(** A range queued past the frontier of a driver that lags. *)
Definition ahead1 : Services := okOr (enqueueRepairRangeTx (at_ 400) "svc" (at_ 120) (at_ 240) ReasonBackfill "" db3) db3.
Definition aheadClaim : Services * RepairRange :=
  default (ahead1, claimed.2) (claimRepairRange (at_ 401) "svc" 1 ahead1).
Definition ahead2 : Services :=
  okOr (runRepairBatch hs2 (at_ 402) aheadClaim.2 (wk_cursor aheadClaim.2) (batchEnd aheadClaim.2 4) aheadClaim.1)
       aheadClaim.1.
Definition ahead3 : Services :=
  completeRepairRange (moveWorker aheadClaim.2 (batchEnd aheadClaim.2 4)) ahead2.
Definition ahead4 : Services := okOr (noteHeartbeat (at_ 410) hs3 "a" (at_ 90) ahead3) ahead3.
Definition ahead5 : Services := okOr (AdvanceServiceMaterialization hs3 (at_ 600) "svc" 240 ahead4) ahead4.

(** The batch seals buckets ahead of the frontier; a heartbeat that arrives late for one of them
    finds the frontier behind it and queues nothing; the forward pass then meets a sealed bucket
    and leaves it. *)
Example sealed_ahead_of_the_frontier :
  bs_good (ft_split (factIn ahead5 (at_ 120))) = 60000000 /\ ft_sealed (factIn ahead5 (at_ 120)) = true /\
  expectedGood hs3 ahead5 (at_ 120) = Some 0 /\
  forallb (fun kv => negb (live (rr_state kv.2))) (map_to_list (ss_ranges (svcIn ahead5))) = true.
Proof. vm_compute. split_and!; reflexivity. Qed.

(** The rewind of a watermark that is not there yet puts it at the start of the range: over the
    buckets before, none of which is sealed. *)
Definition rewound : Services :=
  okOr (invalidateForMaintenance (at_ 60) "p" "w1" ["svc"] (at_ 300) (at_ 360) db3) db3.

Example rewind_moves_a_missing_watermark_forward :
  option_map mt_sealed (ss_mat (svcIn db3)) = Some None /\
  option_map mt_sealed (ss_mat (svcIn rewound)) = Some (Some (at_ 300)) /\
  ss_facts (svcIn rewound) = ∅ /\
  option_map (fun m => (mt_era m =? at_ 0)) (ss_mat (svcIn rewound)) = Some true.
Proof. vm_compute. split_and!; reflexivity. Qed.

(** Two windows that queue overlapping work leave a range of neither. *)
Example merged_range_has_no_origin :
  let q1 := okOr (enqueueRepairRangeTx (at_ 60) "svc" (at_ 0) (at_ 60) ReasonMaintenance "w1" db3) db3 in
  let q2 := okOr (enqueueRepairRangeTx (at_ 61) "svc" (at_ 60) (at_ 120) ReasonMaintenance "w2" q1) q1 in
  map (fun kv => rr_origin kv.2) (map_to_list (ss_ranges (svcIn q2))) = [""].
Proof. vm_compute. reflexivity. Qed.

(** The steps above are atomic; the code reads the frontier without a lock.  Here the ingest of
    the row at 90 s reads the frontier at 300 s, a forward slice that cannot see the uncommitted
    row seals the buckets from 300 s on and commits, and the ingest then commits its range. *)
Definition race1 : Services := okOr (AdvanceServiceMaterialization hs1 (at_ 420) "svc" 240 db2) db2.
Definition race_frontier : option Time := ss_mat (svcIn race1) ≫= frontierOf.
Definition race2 : Services := okOr (AdvanceServiceMaterialization hs1 (at_ 600) "svc" 240 race1) race1.
Definition hsRace : heartbeats := <[("a", at_ 90) := downRow]> hs1.
Definition race3 : Services :=
  okOr (enqueueRepairRangeTx (at_ 601) "svc" (dateBin (at_ 90))
          (lateObservationReachEnd hsRace "a" (at_ 90) (default 0 race_frontier)) ReasonLateData ""
          (markBucket (at_ 601) "svc" "a" (dateBin (at_ 90)) (at_ 90) race2)) race2.

Example late_row_races_the_frontier :
  race_frontier = Some (at_ 300) /\
  bs_good (ft_split (factIn race3 (at_ 300))) = 60000000 /\ ft_sealed (factIn race3 (at_ 300)) = true /\
  expectedGood hsRace race3 (at_ 300) = Some 0 /\
  forallb (fun kv => rr_to kv.2 <=? at_ 300) (map_to_list (ss_ranges (svcIn race3))) = true.
Proof. vm_compute. split_and!; reflexivity. Qed.
