(* ===== verification/ServiceLiveness.v ===== *)
(** * Repairs finish, and what they finish is exact
    ([runRepairRangeOn] in [internal/store/servicerepair.go]; the [CHECK] of
    [service_reliability_buckets])

    PostgreSQL keeps microseconds and the reducer counts nanoseconds; the table stores
    microseconds and refuses a row whose bins do not add up.  With evidence at the resolution
    of the database every bin is a whole number of microseconds, so the refusal cannot happen;
    then a range whose slices get their time is completed, and every bucket of a completed
    range is what the reducer computes. *)

From S2P Require Import Prelude ServicePolicy MonitorRow Heartbeats Effective Aggregate Reduce ReduceExt Materialize ServiceRepair ServiceIngest ServiceReach ServiceWatermark ServiceWrites ServiceSeal ServiceSystem.

Implicit Types (t b u start now : Time) (s : ServiceState) (db : Services) (hs : heartbeats).

(** ** Resolution *)
Definition us t : Prop := (Microsecond | t).

Lemma aligned_us t : aligned t -> us t.
Proof. apply Z.divide_trans. exists 60000000. reflexivity. Qed.

Definition floorUs t : Time := t - t mod Microsecond.

Lemma floorUs_spec t : us (floorUs t) /\ floorUs t <= t < floorUs t + Microsecond.
Proof.
  unfold us, floorUs. pose proof (Z.mod_pos_bound t Microsecond ltac:(done)). split; [|lia].
  pose proof (Z.div_mod t Microsecond ltac:(done)). exists (t / Microsecond). lia.
Qed.

(** Nothing changes strictly inside a microsecond. *)
Lemma us_between x t : us x -> x <= floorUs t \/ t < x.
Proof.
  intros [k ->]. destruct (floorUs_spec t) as [[j Hj] Hb]. rewrite Hj in *.
  assert (k <= j \/ j < k) as [?|?] by lia; [left|right]; unfold Microsecond in *; lia.
Qed.

Lemma floorUs_block a t : us a -> a <= t < a + Microsecond -> floorUs t = a.
Proof.
  intros [k ->] Ht. destruct (floorUs_spec t) as [[j Hj] Hb]. rewrite Hj in *.
  assert (j = k) as ->; [|done]. unfold Microsecond in *. lia.
Qed.

(** A predicate that is constant on microseconds has a measure in whole microseconds. *)
Lemma measure_us P a n :
  us a -> (forall t, a <= t < a + Z.of_nat n * Microsecond -> P t = P (floorUs t)) ->
  us (measure P a (a + Z.of_nat n * Microsecond)).
Proof.
  revert a. induction n as [|n IH]; intros a Ha HP.
  { rewrite Z.mul_0_l, Z.add_0_r, (measure_const P a a true) by lia. rewrite Z.sub_diag. apply Z.divide_0_r. }
  assert (0 < Microsecond) as Hpos by done.
  rewrite (measure_split P a (a + Microsecond)) by lia. apply Z.divide_add_r.
  - rewrite (measure_const P a (a + Microsecond) (P a)) by (lia || (intros t Ht; rewrite HP by lia; f_equal;
      by apply floorUs_block)).
    destruct (P a); [|apply Z.divide_0_r]. replace (a + Microsecond - a) with Microsecond by lia. apply Z.divide_refl.
  - replace (a + Z.of_nat (S n) * Microsecond) with ((a + Microsecond) + Z.of_nat n * Microsecond) by lia.
    apply IH; [by apply Z.divide_add_r, Z.divide_refl|]. intros t Ht. apply HP. lia.
Qed.

(** ** The bins of a bucket *)
Section resolution.
Context (inp : Input).
Hypothesis Hlen : in_Start inp < in_End inp <= in_Start inp + int64_max.
Notation series := (buildSeries (in_Members inp) (in_Observations inp)).
Hypothesis Hcand : forall x, x ∈ candidates series (in_Maintenance inp) -> us x.
Hypothesis Hstart : us (in_Start inp).
Hypothesis Hend : us (in_End inp).

Lemma pointOutcome_us t : in_Start inp <= t < in_End inp -> pointOutcome inp t = pointOutcome inp (floorUs t).
Proof.
  intros Ht. unfold pointOutcome. destruct (decide (in_Members inp = [])) as [->|Hne]; [done|].
  rewrite <- !(outcomeAt_StateAt inp) by done.
  unfold outcomeAt. f_equal. destruct (floorUs_spec t) as [Hf Hb].
  assert (in_Start inp <= floorUs t) as Hs by (destruct (us_between _ t Hstart); lia).
  apply (talliesAt_constant inp Hlen (floorUs t) t); [done|lia|].
  intros x Hx. unfold bucketPoints in Hx.
  apply (elem_of_breakpoints (in_Start inp) (in_End inp) (Hlen64 inp Hlen)) in Hx as [[->|Hx] _];
    [by apply us_between|by apply us_between, Hcand].
Qed.

Lemma measure_bin_us (f : Outcome -> bool) :
  us (measure (fun t => f (pointOutcome inp t)) (in_Start inp) (in_End inp)).
Proof.
  destruct Hstart as [a Ha]. destruct Hend as [b Hb].
  assert (in_End inp = in_Start inp + Z.of_nat (Z.to_nat (b - a)) * Microsecond) as ->.
  { rewrite Z2Nat.id; unfold Microsecond in *; lia. }
  apply measure_us; [by exists a|]. intros t Ht. f_equal. apply pointOutcome_us.
  rewrite Z2Nat.id in Ht; unfold Microsecond in *; lia.
Qed.

Lemma bins_us bk :
  Reduce inp = Ok bk -> forall d, d ∈ [Good; Bad; Unknown; Excluded; Healthy; Degraded; Down; HealthUnknownD] ->
  us (d (b_Durations bk)).
Proof.
  intros Hbk. destruct (Reduce_bins inp Hlen) as (bk' & Hbk' & Ha & Hh). assert (bk' = bk) as -> by congruence.
  assert (forall a, us (availField a (b_Durations bk))) as Hua by (intros a; rewrite Ha; apply measure_bin_us).
  assert (forall h, us (healthField h (b_Durations bk))) as Huh by (intros h; rewrite Hh; apply measure_bin_us).
  intros d Hd. rewrite !elem_of_cons in Hd. decompose [or] Hd; subst; [apply (Hua AvailGood)|apply (Hua AvailBad)
    |apply (Hua AvailUnknown)|apply (Hua AvailExcluded)|apply (Huh HealthHealthy)|apply (Huh HealthDegraded)
    |apply (Huh HealthDown)|apply (Huh HealthUnknown)|set_solver].
Qed.
End resolution.

Lemma Microseconds_us d : us d -> Microseconds d * Microsecond = d.
Proof. intros [k ->]. unfold Microseconds. rewrite Z.quot_mul by done. done. Qed.

(** ** The evidence of a service at the resolution of the database *)
Record fine_grained hs db s : Prop := {
  fg_rows : forall id t row, hs !! (id, t) = Some row -> us t;
  fg_members : forall e m, e ∈ ss_epochs s -> m ∈ ep_members e -> us (m_StaleAfter m) /\ us (m_ArmedAt m);
  fg_windows : forall w, w ∈ sv_windows db -> us (mw_StartsAt (wr_window w)) /\ us (maintEffectiveEnd (wr_window w));
}.

Lemma inputFor_us hs db s e b x :
  fine_grained hs db s -> e ∈ ss_epochs s ->
  x ∈ candidates (buildSeries (in_Members (inputFor hs db s e b)) (in_Observations (inputFor hs db s e b)))
                 (in_Maintenance (inputFor hs db s e b)) -> us x.
Proof.
  intros [Hr Hm Hw] He. cbn [in_Members in_Observations in_Maintenance inputFor]. unfold candidates.
  rewrite elem_of_app, !elem_of_flat_map. intros [(sr & Hsr & Hx)|(sp & Hsp & Hx)].
  - unfold buildSeries in Hsr. apply list_elem_of_fmap in Hsr as (m & -> & Hin).
    change (x ∈ seriesPoints (seriesOf m (observationsFor hs (ep_members e) b (Add b CanonicalBucket)))) in Hx.
    destruct (Hm e m He Hin) as [Hst Harm]. unfold seriesPoints in Hx. apply elem_of_app in Hx as [Hx|Hx].
    + apply elem_of_flat_map in Hx as (o & [Ho Hid]%elem_of_seriesOf & Hx).
      apply elem_of_observationsFor in Ho as (id & u & row & _ & -> & Hrow).
      assert (us u) as Hu.
      { destruct Hrow as [[Hrow _]|Hrow]; [by eapply Hr|].
        pose proof (latestRow_spec hs id (fun t => t <? b)) as H. rewrite Hrow in H. by eapply Hr, H. }
      rewrite !elem_of_cons in Hx. destruct Hx as [->|[->|Hx]]; [done|by apply Z.divide_add_r|set_solver].
    + cbn in Hx. case_match; [|set_solver]. apply list_elem_of_singleton in Hx as ->. by apply Z.divide_add_r.
  - unfold maintenanceSpansFor in Hsp. apply list_elem_of_fmap in Hsp as (w & -> & [Hin _]%elem_of_filter_b).
    destruct (Hw w Hin). unfold spanPoints in Hx. rewrite !elem_of_cons in Hx. cbn in Hx. destruct Hx as [->|[->|?]]; [done..|set_solver].
Qed.

Lemma epochAt_elem s b e : epochAt s b = Some e -> e ∈ ss_epochs s.
Proof.
  unfold epochAt. intros H. apply maxBy_Some in H as [Hin _].
  - by apply elem_of_filter_b in Hin as [? _].
  - unfold epoch_after. intros x y z Hx Hz.
    apply orb_true_iff in Hx. apply orb_false_iff in Hz as [Hz1 Hz2]. apply orb_true_iff.
    rewrite !andb_true_iff, !andb_false_iff in *. bool_facts.
    rewrite !Z.ltb_lt, !Z.eqb_eq in *. rewrite Z.eqb_neq, Z.ltb_ge in Hz2. lia.
  - unfold epoch_after. intros x y Hx. apply orb_true_iff in Hx. apply orb_false_iff.
    rewrite andb_true_iff, andb_false_iff in *. rewrite !Z.ltb_lt, !Z.eqb_eq in *.
    rewrite Z.eqb_neq, !Z.ltb_ge. lia.
Qed.

(** Every bucket the reducer returns for such a service passes the [CHECK]s of its table. *)
Lemma split_conserves hs db s b e bk :
  fine_grained hs db s -> aligned b -> epochAt s b = Some e -> Reduce (inputFor hs db s e b) = Ok bk ->
  splitConserves (splitOf (b_Durations bk)) = true.
Proof.
  intros Hfg Hb He Hbk. set (inp := inputFor hs db s e b).
  assert (in_Start inp < in_End inp <= in_Start inp + int64_max) as Hlen
    by (cbn [in_Start in_End inputFor inp]; unfold Add, CanonicalBucket, Minute, Second, int64_max; lia).
  pose proof (epochAt_elem _ _ _ He) as Hin.
  assert (us (in_End inp)) as Hend by (apply Z.divide_add_r; [by apply aligned_us|exists 60000000; reflexivity]).
  pose proof (bins_us inp Hlen (fun x => inputFor_us hs db s e b x Hfg Hin) (aligned_us _ Hb) Hend bk Hbk) as Hus.
  destruct (Reduce_sums inp bk Hlen Hbk) as (Ha & Hh & Hsa & Hsh).
  change (in_End inp) with (b + CanonicalBucket) in *. change (in_Start inp) with b in *.
  set (d := b_Durations bk) in *.
  assert (forall fd, fd ∈ [Good; Bad; Unknown; Excluded; Healthy; Degraded; Down; HealthUnknownD] ->
            Microseconds (fd d) * Microsecond = fd d) as Hq by (intros fd Hfd; by apply Microseconds_us, Hus).
  pose proof (Hq Good ltac:(set_solver)). pose proof (Hq Bad ltac:(set_solver)).
  pose proof (Hq Unknown ltac:(set_solver)). pose proof (Hq Excluded ltac:(set_solver)).
  pose proof (Hq Healthy ltac:(set_solver)). pose proof (Hq Degraded ltac:(set_solver)).
  pose proof (Hq Down ltac:(set_solver)). pose proof (Hq HealthUnknownD ltac:(set_solver)).
  pose proof (Ha AvailGood). pose proof (Ha AvailBad). pose proof (Ha AvailUnknown). pose proof (Ha AvailExcluded).
  pose proof (Hh HealthHealthy). pose proof (Hh HealthDegraded). pose proof (Hh HealthDown). pose proof (Hh HealthUnknown).
  cbn [availField healthField] in *.
  change (Microseconds CanonicalBucket) with 60000000. unfold Microsecond, CanonicalBucket, Minute, Second in *.
  unfold splitConserves. change (Microseconds CanonicalBucket) with 60000000. cbn [splitOf bs_good bs_bad bs_unknown
    bs_excluded bs_healthy bs_degraded bs_down bs_healthUnknown forallb].
  rewrite !andb_true_iff, !Z.leb_le, !Z.eqb_eq. repeat split; lia.
Qed.

(** ** No bucket is refused *)

(** No member of any epoch lost its monitor. *)
Definition evidence_kept db s : Prop := forall e, e ∈ ss_epochs s -> anyMemberMonitorGone db (ep_members e) = false.

Record ready hs db (sid : string) s : Prop := {
  rd_service : sv_services db !! sid = Some s;
  rd_fine : fine_grained hs db s;
  rd_kept : evidence_kept db s;
}.

Lemma ready_next hs db db' sid s s' :
  only_service sid db db' s' -> same_def s s' -> ready hs db sid s -> ready hs db' sid s'.
Proof.
  intros Ho Hd [Hs [F1 F2 F3] Hk]. pose proof (os_env _ _ _ _ Ho) as [Hw Hm]. split.
  - by eapply only_service_lookup.
  - split; [done| |by rewrite Hw]. intros e m. rewrite (sd_epochs _ _ Hd). apply F2.
  - intros e. rewrite (sd_epochs _ _ Hd). intros He. unfold anyMemberMonitorGone. rewrite Hm. by apply Hk.
Qed.

Lemma inputFor_ingest hs db sid s i e b :
  inputFor hs (setService db sid (setIngest s i)) (setIngest s i) e b = inputFor hs db s e b.
Proof. done. Qed.

Lemma fine_grained_set hs db sid s' s i : fine_grained hs db s -> fine_grained hs (setService db sid s') (setIngest s i).
Proof. intros [F1 F2 F3]. by split. Qed.

Lemma materializeBucketTx_total hs now sid start mode db s :
  sv_services db !! sid = Some s -> fine_grained hs db s -> aligned start ->
  match materializeBucketTx hs now sid start mode db with
  | Ok _ => True
  | Err e => e = ErrEvidenceGone start /\ mode = modeRecompute /\ sealedAt s start = true /\
             exists ep, epochAt s start = Some ep /\ anyMemberMonitorGone db (ep_members ep) = true
  end.
Proof.
  intros Hs Hfg Hal. unfold materializeBucketTx. rewrite Hs. set (s1 := setIngest s _). set (db1 := setService db sid s1).
  change (sealedAt s1 start) with (sealedAt s start). change (epochAt s1 start) with (epochAt s start).
  destruct (_ && bool_decide (mode = modeOrdinary)); [done|].
  destruct (epochAt s start) as [e|] eqn:Ee; [|done]. destruct (ep_members e) as [|m ms] eqn:Em; [done|]. rewrite <- Em.
  destruct (bool_decide (mode = modeRecompute) && sealedAt s start && anyMemberMonitorGone db1 (ep_members e)) eqn:Egone.
  { cbn [refuse_if rbind]. bool_facts. rewrite bool_decide_eq_true in H. split_and!; try done. by exists e. }
  cbn [refuse_if rbind].
  assert (in_Start (inputFor hs db1 s1 e start) < in_End (inputFor hs db1 s1 e start)
          <= in_Start (inputFor hs db1 s1 e start) + int64_max) as Hlen
    by (cbn [in_Start in_End inputFor]; unfold Add, CanonicalBucket, Minute, Second, int64_max; lia).
  assert (exists bk, Reduce (inputFor hs db1 s1 e start) = Ok bk) as (bk & Hbk)
    by (eexists; apply (Reduce_Ok _ Hlen); cbn; by rewrite Em).
  rewrite Hbk. cbn [ft_split factOf].
  rewrite (split_conserves hs db1 s1 start e bk); [|by apply fine_grained_set|done|done|done].
  cbn [negb refuse_if rbind]. by repeat case_match.
Qed.

(** a bucket is refused only for lost evidence.  With evidence at the resolution of the
    database neither the reducer's conservation checks nor the [CHECK]s of the bucket table can
    fail: the only error of [materializeBucketTx] on an existing service is the refusal to
    recompute a sealed bucket one of whose member monitors is gone. *)
Theorem bucket_refused_only_without_evidence hs now sid start mode db s err :
  sv_services db !! sid = Some s -> fine_grained hs db s -> aligned start ->
  materializeBucketTx hs now sid start mode db = Err err ->
  err = ErrEvidenceGone start /\ mode = modeRecompute /\ sealedAt s start = true /\
  exists ep, epochAt s start = Some ep /\ anyMemberMonitorGone db (ep_members ep) = true.
Proof.
  intros Hs Hfg Hal H. pose proof (materializeBucketTx_total hs now sid start mode db s Hs Hfg Hal) as Ht.
  by rewrite H in Ht.
Qed.

Lemma materializeBuckets_total hs now sid mode bs db s :
  ready hs db sid s -> Forall aligned bs ->
  exists db' n s', materializeBuckets hs now sid mode bs db = Ok (db', n) /\
    only_service sid db db' s' /\ written hs db mode bs s s' /\ ready hs db' sid s'.
Proof.
  revert db s. induction bs as [|b bs IH]; intros db s Hr Hal.
  { exists db, 0, s. split_and!; [done| |apply written_nil|done]. destruct Hr. split; try done. by rewrite insert_id. }
  inversion Hal as [|? ? Hb Hbs]; subst. destruct Hr as [Hs Hfg Hk]. cbn.
  pose proof (materializeBucketTx_total hs now sid b mode db s Hs Hfg Hb) as Ht.
  destruct (materializeBucketTx hs now sid b mode db) as [[db1 d]|err] eqn:E1.
  2:{ destruct Ht as (_ & _ & _ & ep & Hep & Hgone). rewrite (Hk ep) in Hgone by (by eapply epochAt_elem). done. }
  cbn. apply materializeBucketTx_writes in E1 as (s_ & s1 & Hs_ & Ho1 & _ & Hw1).
  assert (s_ = s) as -> by congruence.
  assert (ready hs db1 sid s1) as Hr1 by (eapply ready_next; [exact Ho1|apply Hw1|by split]).
  destruct (IH db1 s1 Hr1 Hbs) as (db2 & n & s2 & -> & Ho2 & Hw2 & Hr2). cbn.
  eexists _, _, s2. split; [done|]. split; [by eapply only_service_trans|]. split; [|done].
  change (b :: bs) with ([b] ++ bs). eapply written_trans; [apply Ho1|exact Hw1|exact Hw2].
Qed.

(** ** A batch, and the slice *)
Lemma runRepairBatch_total hs now w from to db s :
  ready hs db (wk_service w) s -> generationOf db (ss_project s) = wk_generation w ->
  aligned from -> from < to ->
  exists db', runRepairBatch hs now w from to db = Ok db'.
Proof.
  intros Hr Hg Hal Hlt. unfold runRepairBatch. rewrite (rd_service _ _ _ _ Hr), Hg, Z.eqb_refl. cbn [negb refuse_if rbind].
  unfold materializeRangeTx, After. apply Z.ltb_lt in Hlt as Hlt'. rewrite Hlt'. cbn [negb refuse_if rbind].
  destruct (materializeBuckets_total hs now (wk_service w) modeRecompute (bucketsOf from to) db s Hr) as (db1 & n & s1 & -> & _).
  - apply Forall_forall. intros b Hb%list_elem_of_In%elem_of_bucketsOf; [apply Hb|done].
  - cbn. by eexists.
Qed.

Lemma adaptRepairBatch_bounds batch spent budget : 1 <= adaptRepairBatch batch spent budget <= maxRepairBatch.
Proof.
  unfold adaptRepairBatch, maxRepairBatch, minRepairBatch. cbv zeta.
  repeat match goal with |- context [if ?c then _ else _] => destruct c eqn:? end; bool_facts; lia.
Qed.

(** What the slice has done once the loop is at [w]: the buckets before its cursor are left alone
    and those from it on are recomputed. *)
Record repaired hs (w : RepairRange) db s db' s' : Prop := {
  rp_service : sv_services db' !! wk_service w = Some s';
  rp_env : same_env db db';
  rp_def : same_def s s';
  rp_row : exists r, ss_ranges s' !! wk_id w = Some r /\ rr_state r = RangeComplete;
  rp_before : forall b, b < wk_cursor w -> ss_facts s' !! b = ss_facts s !! b;
  rp_exact : forall b e, aligned b -> wk_cursor w <= b < wk_to w -> epochAt s b = Some e -> ep_members e <> [] ->
    exists f, ss_facts s' !! b = Some f /\ agrees hs db' s' b f;
}.

Lemma complete_repaired hs w db s r :
  sv_services db !! wk_service w = Some s -> ss_ranges s !! wk_id w = Some r -> wk_to w <= wk_cursor w ->
  exists s', repaired hs w db s (completeRepairRange w db) s'.
Proof.
  intros Hs Hr Hend. unfold completeRepairRange.
  destruct (updateRange_only (closeRow RangeComplete (wk_cursor w)) (wk_service w) (wk_id w) db s Hs) as [Ho _].
  eexists. split; [by eapply only_service_lookup|apply Ho|by split| |done|intros; lia].
  exists (closeRow RangeComplete (wk_cursor w) r). cbn. by rewrite lookup_alter_eq, Hr.
Qed.

Definition ran (ev : SliceEvent) : bool := match ev with BatchRan _ _ _ => true | _ => false end.

Lemma repairLoop_completes hs events batch progressed w db s r :
  forallb ran events = true -> 0 < batch ->
  wk_to w - wk_cursor w <= Z.of_nat (length events) * CanonicalBucket ->
  aligned (wk_cursor w) -> aligned (wk_to w) ->
  ready hs db (wk_service w) s -> ss_ranges s !! wk_id w = Some r -> generationOf db (ss_project s) = wk_generation w ->
  exists s', repaired hs w db s (repairLoop hs events batch progressed w db) s'.
Proof.
  revert batch progressed w db s r.
  induction events as [|ev events IH]; intros batch progressed w db s r Hev Hb Hlen Hc Ht Hrd Hr Hg; cbn [repairLoop];
    unfold Before; destruct (Z.ltb_spec (wk_cursor w) (wk_to w)) as [Hlt|Hge]; cbn [negb];
    try (by eapply complete_repaired; [apply Hrd|exact Hr|]); [cbn in Hlen; lia|].
  destruct ev as [now spent remaining|now| |now]; try done. cbn [forallb ran andb] in Hev.
  destruct (batchEnd_spec w batch Hc Ht Hlt Hb) as [Hto Hend]. set (to := batchEnd w batch) in *.
  destruct (runRepairBatch_total hs now w (wk_cursor w) to db s Hrd Hg Hc ltac:(lia)) as (db1 & Hrun). rewrite Hrun.
  apply runRepairBatch_writes in Hrun as (s_ & s1 & Hs_ & Hw1 & Ho1 & _).
  assert (s_ = s) as -> by (destruct Hrd; congruence). set (s2 := setRanges _ _) in *.
  assert (same_def s s2) as Hd by (etrans; [apply Hw1|]; etrans; [apply advanceSealedRow_def|by split]).
  assert (ss_facts s2 = ss_facts s1) as Hfacts by apply advanceSealedRow_facts.
  pose proof bucket_pos.
  pose proof (aligned_lt (wk_cursor w + CanonicalBucket) to ltac:(by apply Z.divide_add_r, Z.divide_refl) Hto ltac:(lia)).
  destruct (IH (adaptRepairBatch batch spent remaining) true (moveWorker w to) db1 s2 (setCursor now to r)) as (s' & [P1 P2 P3 P4 P5 P6]);
    [done|pose proof (adaptRepairBatch_bounds batch spent remaining); lia|cbn; cbn in Hlen; lia|done|done
    |by eapply ready_next|cbn; by rewrite lookup_alter_eq, Hr| |].
  { rewrite (sd_project _ _ Hd). unfold generationOf. rewrite (os_generation _ _ _ _ Ho1). exact Hg. }
  exists s'. cbn [wk_service wk_id wk_cursor wk_to moveWorker] in *.
  split; [done|etrans; [apply Ho1|done]|by etrans|done| |].
  - intros b Hbc. rewrite P5 by lia. rewrite Hfacts. destruct (wr_facts _ _ _ _ _ _ Hw1 b) as [?|(Hin & _)]; [done|].
    apply elem_of_bucketsOf in Hin; [lia|done].
  - intros b e Hal Hbc He Hne. destruct (decide (b < to)) as [Hbt|Hbt].
    + destruct (wr_recompute _ _ _ _ _ _ Hw1 eq_refl b e ltac:(apply elem_of_bucketsOf; [done|split; [done|lia]]) He Hne)
        as (f & Hl & Ha).
      exists f. rewrite P5, Hfacts by done. split; [done|].
      eapply agrees_same; [etrans; [apply Ho1|exact P2]|etrans; [exact Hd|exact P3]|exact Ha].
    + apply (P6 b e); [done|lia| |done]. by rewrite (epochAt_same _ _ _ Hd).
Qed.


(** ** The demonstration run, repaired *)
Lemma demo_fine db s :
  ss_epochs s = [demoEpoch] -> sv_windows db = [] -> fine_grained hs3 db s.
Proof.
  intros He Hw. split; [|rewrite He|rewrite Hw; set_solver].
  - intros id t row. unfold hs3, hs2, hs1. rewrite !lookup_insert_Some, lookup_singleton_Some.
    intros [[[= <- <-] _]|[_ [[[= <- <-] _]|[_ [[= <- <-] _]]]]];
      [exists 62135596890000000|exists 62135597050000000|exists 62135596830000000]; reflexivity.
  - intros e m ->%list_elem_of_singleton Hm. cbn in Hm. apply list_elem_of_singleton in Hm as ->.
    split; [exists 600000000|exists 0]; reflexivity.
Qed.

(** The monitor of the demonstration service is deleted. *)
Definition orphaned : Services :=
  {| sv_services := sv_services db5; sv_generation := sv_generation db5; sv_monitors := ∅;
     sv_windows := sv_windows db5; sv_next_range := sv_next_range db5; sv_late_arrivals := sv_late_arrivals db5;
     sv_late_overflow := sv_late_overflow db5; sv_recompute_audits := sv_recompute_audits db5;
     sv_services_per_monitor := sv_services_per_monitor db5 |}.

Lemma bucket_refused_only_without_evidence_witness :
  exists err, materializeBucketTx hs3 (at_ 700) "svc" (at_ 120) modeRecompute orphaned = Err err /\
    err = ErrEvidenceGone (at_ 120) /\ modeRecompute = modeRecompute /\ sealedAt (svcIn orphaned) (at_ 120) = true /\
    exists ep, epochAt (svcIn orphaned) (at_ 120) = Some ep /\ anyMemberMonitorGone orphaned (ep_members ep) = true.
Proof.
  exists (ErrEvidenceGone (at_ 120)). split; [vm_compute; reflexivity|].
  refine (bucket_refused_only_without_evidence hs3 (at_ 700) "svc" (at_ 120) modeRecompute orphaned (svcIn orphaned) _
            (default_lookup _ _ _ (isSome_b _ _)) (demo_fine _ _ _ _) _ _).
  - vm_compute. reflexivity.
  - vm_compute. reflexivity.
  - vm_compute. reflexivity.
  - exists 1035593282. reflexivity.
  - vm_compute. reflexivity.
Defined.

Definition fourBatches : list SliceEvent := repeat (BatchRan (at_ 621) (10 * Microsecond) Second) 4.

Definition finished : Services := runRepairRange hs3 fourBatches claimed.2 claimed.1.

