(* ===== verification/GoFloat.v ===== *)
(** * [float64]

    Go's [float64] is IEEE 754 binary64 with round-to-nearest-even.  The model is the
    executable [spec_float] of the Standard Library at precision 53 and maximal exponent
    1024; no real numbers and no axioms are involved. *)

From Stdlib Require SpecFloat.
From S2P Require Import Prelude.

Definition float64 : Type := SpecFloat.spec_float.

Definition fprec : Z := 53.
Definition femax : Z := 1024.

Definition fadd (x y : float64) : float64 := SpecFloat.SFadd fprec femax x y.
Definition fsub (x y : float64) : float64 := SpecFloat.SFsub fprec femax x y.
Definition fmul (x y : float64) : float64 := SpecFloat.SFmul fprec femax x y.
Definition fdiv (x y : float64) : float64 := SpecFloat.SFdiv fprec femax x y.

(** The conversion [float64(z)] of an integer. *)
Definition fofZ (z : Z) : float64 := SpecFloat.binary_normalize fprec femax z 0 false.

(** A decimal literal, the correctly rounded quotient of two exactly representable
    integers. *)
Definition flit (num den : Z) : float64 := fdiv (fofZ num) (fofZ den).

(** The comparisons of Go; every one is false on a NaN. *)
Definition fle (x y : float64) : bool := SpecFloat.SFleb x y.
Definition flt (x y : float64) : bool := SpecFloat.SFltb x y.
Definition fge (x y : float64) : bool := fle y x.
Definition fgt (x y : float64) : bool := flt y x.

Definition IsNaN (x : float64) : bool :=
  match x with SpecFloat.S754_nan => true | _ => false end.

(** [math.IsInf(x, 0)]: either sign. *)
Definition IsInf (x : float64) : bool :=
  match x with SpecFloat.S754_infinity _ => true | _ => false end.

(** [math.Round]: the nearest integer, half away from zero. *)
Definition Round (x : float64) : float64 :=
  match x with
  | SpecFloat.S754_finite s m e =>
    if 0 <=? e then x
    else
      let k := - e in
      let q := (Zpos m + 2 ^ (k - 1)) / 2 ^ k in
      SpecFloat.binary_normalize fprec femax (if s then - q else q) 0 s
  | _ => x
  end.

(** [math.Floor]. *)
Definition Floor (x : float64) : float64 :=
  match x with
  | SpecFloat.S754_finite s m e =>
    if 0 <=? e then x
    else SpecFloat.binary_normalize fprec femax ((if s then Zneg m else Zpos m) / 2 ^ (- e)) 0 s
  | _ => x
  end.

(** [math.Ceil]. *)
Definition Ceil (x : float64) : float64 :=
  match x with
  | SpecFloat.S754_finite s m e =>
    if 0 <=? e then x
    else SpecFloat.binary_normalize fprec femax (- ((if s then Zpos m else Zneg m) / 2 ^ (- e))) 0 s
  | _ => x
  end.

(** [math.Min]: a NaN or a negative infinity wins, and [-0] is below [0]. *)
Definition Min (x y : float64) : float64 :=
  match x, y with
  | SpecFloat.S754_infinity true, _ | _, SpecFloat.S754_infinity true => SpecFloat.S754_infinity true
  | SpecFloat.S754_nan, _ | _, SpecFloat.S754_nan => SpecFloat.S754_nan
  | SpecFloat.S754_zero s, SpecFloat.S754_zero _ => if s then x else y
  | _, _ => if flt x y then x else y
  end.

(** [int64(x)]: truncation toward zero; out of the range of [int64] the language leaves the
    result to the implementation, here the smallest value as on amd64. *)
Definition toInt64 (x : float64) : Z :=
  match x with
  | SpecFloat.S754_zero _ => 0
  | SpecFloat.S754_finite s m e =>
    let q := if 0 <=? e then Zpos m * 2 ^ e else Zpos m / 2 ^ (- e) in
    let v := if s then - q else q in
    if (int64_min <=? v) && (v <=? int64_max) then v else int64_min
  | _ => int64_min
  end.

(** [Duration.Seconds]. *)
Definition Seconds (d : Duration) : float64 :=
  fadd (fofZ (Z.quot d Second)) (fdiv (fofZ (Z.rem d Second)) (fofZ 1000000000)).

#[global] Instance spec_float_eq_dec : EqDecision SpecFloat.spec_float.
Proof. solve_decision. Defined.

#[global] Instance float64_eq_dec : EqDecision float64.
Proof. exact spec_float_eq_dec. Defined.

(** ** The order of the non-NaN values *)

(** Values ordered by class, then exponent, then mantissa. *)
Definition fkey (x : float64) : Z * Z * Z :=
  match x with
  | SpecFloat.S754_infinity true => (-2, 0, 0)
  | SpecFloat.S754_finite true m e => (-1, - e, Zneg m)
  | SpecFloat.S754_zero _ => (0, 0, 0)
  | SpecFloat.S754_finite false m e => (1, e, Zpos m)
  | SpecFloat.S754_infinity false => (2, 0, 0)
  | SpecFloat.S754_nan => (3, 0, 0)
  end.

Definition key_le (a b : Z * Z * Z) : Prop :=
  let '(c1, e1, m1) := a in
  let '(c2, e2, m2) := b in
  c1 < c2 \/ (c1 = c2 /\ (e1 < e2 \/ (e1 = e2 /\ m1 <= m2))).

Lemma fle_key x y :
  fle x y = true <-> IsNaN x = false /\ IsNaN y = false /\ key_le (fkey x) (fkey y).
Proof.
  unfold fle, SpecFloat.SFleb, SpecFloat.SFcompare, key_le.
  destruct x as [s1|s1| |s1 m1 e1], y as [s2|s2| |s2 m2 e2];
    try destruct s1; try destruct s2; cbn [IsNaN fkey];
    try (split; [intros H; split; [reflexivity|split; [reflexivity|lia]]|intros (_ & _ & H); done || lia]);
    try (split; [discriminate|intros (H1 & H2 & H); try discriminate; lia]);
    change (Pos.compare_cont Eq m1 m2) with (Pos.compare m1 m2);
    destruct (Z.compare_spec e1 e2), (Pos.compare_spec m1 m2); cbn [CompOpp];
    (split; [intros Hc; try discriminate; split_and!; try reflexivity; lia
            |intros (_ & _ & Hc); try reflexivity; exfalso; lia]).
Qed.

Lemma key_le_trans a b c : key_le a b -> key_le b c -> key_le a c.
Proof. destruct a as [[? ?] ?], b as [[? ?] ?], c as [[? ?] ?]. cbn. lia. Qed.

Lemma fle_trans x y z : fle x y = true -> fle y z = true -> fle x z = true.
Proof.
  rewrite !fle_key. intros (Hx & Hy & H1) (_ & Hz & H2). split_and!; [done..|].
  by eapply key_le_trans.
Qed.
