(* ===== verification/Outbox.v ===== *)
(** * The transactional outbox (store/outbox.go, the topics of domain/outbox.go)

    The table of queued events as a finite map, one function per statement of store/outbox.go,
    and the workers that claim, send and settle as a step relation.  What a payload holds is a
    type parameter: the claim reads two JSON paths of it, the class [Payload].  Random
    identifiers ([gen_random_uuid]) are arguments.  The scan order of a claim is an argument
    too: it fixes the order among rows due at the same instant, and a row that is not in it is
    one that another transaction holds ([SKIP LOCKED]). *)

From S2P Require Import Prelude GoFloat.

(** ** Topics *)

Definition TopicIncidentEvent := "incident_event".
Definition TopicMonitorTransition := "monitor_transition".
Definition TopicSLOBurnAlert := "slo_burn_alert".
Definition TopicSLAReport := "sla_report".
Definition TopicRegionWorkerAlert := "region_worker_alert".
Definition TopicEscalationStep := "escalation_step".
Definition TopicSubscriberConfirm := "subscriber_confirm".
Definition TopicIncidentCorrelation := "incident_correlation".
Definition TopicServiceAlert := "service_alert".

Definition AllTopics : list string :=
  [TopicIncidentEvent; TopicMonitorTransition; TopicSLOBurnAlert; TopicSLAReport;
   TopicRegionWorkerAlert; TopicEscalationStep; TopicSubscriberConfirm;
   TopicIncidentCorrelation; TopicServiceAlert].

Definition FencedTopics : list string := [TopicIncidentCorrelation; TopicServiceAlert; TopicIncidentEvent].

Definition FencedTopic (topic : string) : bool := existsb (fun t => bool_decide (t = topic)) FencedTopics.

(** ** Rows *)

Inductive OutboxStatus := OutboxPending | OutboxPendingFenced | OutboxDelivered | OutboxDead.
#[export] Instance outboxStatus_eq : EqDecision OutboxStatus.
Proof. solve_decision. Defined.

(** The JSON paths [payload -> 'incident' ->> 'id'] and [payload ->> 'seq'] of a payload. *)
Class Payload (P : Type) := {
  pl_incident : P -> option string;
  pl_seq : P -> option Z;
}.

Record OutboxRow (P : Type) := {
  ob_topic : string;
  ob_payload : P;
  ob_status : OutboxStatus;
  ob_fenced : bool;
  ob_attempts : Z;
  ob_next_attempt_at : Time;
  ob_claim_token : option string;
  ob_last_error : string;
  ob_created_at : Time;
  ob_updated_at : Time;
}.
Arguments ob_topic {P}. Arguments ob_payload {P}. Arguments ob_status {P}. Arguments ob_fenced {P}.
Arguments ob_attempts {P}. Arguments ob_next_attempt_at {P}. Arguments ob_claim_token {P}.
Arguments ob_last_error {P}. Arguments ob_created_at {P}. Arguments ob_updated_at {P}.

(** The table [outbox_events]. *)
Notation Outbox P := (gmap string (OutboxRow P)) (only parsing).

(** [domain.OutboxEvent]: what a claim hands to the worker. *)
Record OutboxEvent (P : Type) := {
  ev_ID : string;
  ev_Topic : string;
  ev_Payload : P;
  ev_Attempts : Z;
  ev_ClaimToken : string;
  ev_LeaseUntil : Time;
  ev_ClaimedAt : Time;
}.
Arguments ev_ID {P}. Arguments ev_Topic {P}. Arguments ev_Payload {P}. Arguments ev_Attempts {P}.
Arguments ev_ClaimToken {P}. Arguments ev_LeaseUntil {P}. Arguments ev_ClaimedAt {P}.

Inductive OutboxError := ErrTopicCheck | ErrDuplicateID | ErrOutboxNotFound.

Definition batchLimit : nat := 50.
Definition maxAttempts : Z := 10.
Definition leaseHeadroom : Duration := 2 * Second.

(** ** Statements *)
Section outbox.
Context {P : Type} `{!Payload P}.
Implicit Types (r o pr : OutboxRow P) (ob : Outbox P).

Definition pendingClass (fenced : bool) : OutboxStatus :=
  if fenced then OutboxPendingFenced else OutboxPending.

Definition newRow (topic : string) (payload : P) (at_ : Time) : OutboxRow P :=
  {| ob_topic := topic; ob_payload := payload; ob_status := pendingClass (FencedTopic topic);
     ob_fenced := FencedTopic topic; ob_attempts := 0; ob_next_attempt_at := at_;
     ob_claim_token := None; ob_last_error := ""; ob_created_at := at_; ob_updated_at := at_ |}.

Definition enqueueOutboxAtTx (id topic : string) (payload : P) (at_ : Time) ob : result OutboxError (Outbox P) :=
  let! _ := refuse_if (negb (bool_decide (topic ∈ AllTopics))) ErrTopicCheck in
  let! _ := refuse_if (bool_decide (is_Some (ob !! id))) ErrDuplicateID in
  Ok (<[id := newRow topic payload at_]> ob).

(** The columns default to [now()], the start of the transaction. *)
Definition enqueueOutboxTx (id topic : string) (payload : P) (txNow : Time) ob : result OutboxError (Outbox P) :=
  enqueueOutboxAtTx id topic payload txNow ob.

Definition EnqueueOutbox := enqueueOutboxTx.

(** *** Claiming *)

Definition claimable r : bool :=
  bool_decide (ob_status r = OutboxPending)
  || (bool_decide (ob_status r = OutboxPendingFenced) && bool_decide (ob_topic r ∈ FencedTopics)).

Definition due (now : Time) r : bool := claimable r && (ob_next_attempt_at r <=? now).

Definition seqOf r : Z := default 0 (pl_seq (ob_payload r)).

(** [(seq, created_at, id)] of one row below the other's. *)
Definition earlier (pid : string) pr (id : string) o : bool :=
  (seqOf pr <? seqOf o)
  || ((seqOf pr =? seqOf o)
      && ((ob_created_at pr <? ob_created_at o)
          || ((ob_created_at pr =? ob_created_at o) && negb (bool_decide (String.le id pid))))).

Definition sameIncident pr o : bool :=
  match pl_incident (ob_payload pr), pl_incident (ob_payload o) with
  | Some i, Some j => bool_decide (i = j)
  | _, _ => false
  end.

(** Both rows are events of one incident, and the first comes before the second. *)
Definition precedes (pid : string) pr (id : string) o : bool :=
  bool_decide (ob_topic pr = TopicIncidentEvent) && bool_decide (ob_topic o = TopicIncidentEvent)
  && negb (bool_decide (pid = id)) && sameIncident pr o && earlier pid pr id o.

Definition blocked ob (id : string) o : bool :=
  existsb (fun kv => negb (bool_decide (ob_status kv.2 = OutboxDelivered)) && precedes kv.1 kv.2 id o)
          (map_to_list ob).

(** [least(1 hour, 10 seconds * 2^least(attempts, 12))]. *)
Definition backoffLease (attempts : Z) : Duration := Z.min Hour (10 * Second * 2 ^ Z.min attempts 12).

Definition claimedRow (now : Time) (token : string) r : OutboxRow P :=
  {| ob_topic := ob_topic r; ob_payload := ob_payload r; ob_status := ob_status r; ob_fenced := ob_fenced r;
     ob_attempts := ob_attempts r + 1; ob_next_attempt_at := Add now (backoffLease (ob_attempts r));
     ob_claim_token := Some token; ob_last_error := ob_last_error r;
     ob_created_at := ob_created_at r; ob_updated_at := now |}.

Definition due_le (a b : string * OutboxRow P) : Prop := ob_next_attempt_at a.2 <= ob_next_attempt_at b.2.
#[local] Instance due_le_dec a b : Decision (due_le a b).
Proof. unfold due_le. apply _. Defined.

(** The common table expression [due]: the unblocked due rows of the scan, oldest first. *)
Definition dueRows (now : Time) (scan : list string) (limit : nat) ob : list (string * OutboxRow P) :=
  firstn limit (merge_sort due_le
    (omap (fun id => match ob !! id with
                     | Some o => if due now o && negb (blocked ob id o) then Some (id, o) else None
                     | None => None
                     end) scan)).

Definition eventOf (now : Time) (tokens : string -> string) (kv : string * OutboxRow P) : OutboxEvent P :=
  let r := claimedRow now (tokens kv.1) kv.2 in
  {| ev_ID := kv.1; ev_Topic := ob_topic r; ev_Payload := ob_payload r; ev_Attempts := ob_attempts r;
     ev_ClaimToken := tokens kv.1; ev_LeaseUntil := ob_next_attempt_at r; ev_ClaimedAt := now |}.

(** The order of one batch: when the rows became due, when they were written, their id. *)
Definition batch_le (a b : string * OutboxRow P) : Prop :=
  ob_next_attempt_at a.2 < ob_next_attempt_at b.2 \/
  (ob_next_attempt_at a.2 = ob_next_attempt_at b.2 /\
   (ob_created_at a.2 < ob_created_at b.2 \/
    (ob_created_at a.2 = ob_created_at b.2 /\ String.le a.1 b.1))).
#[local] Instance batch_le_dec a b : Decision (batch_le a b).
Proof. unfold batch_le. apply _. Defined.

Definition claimRows (now : Time) (tokens : string -> string) (rows : list (string * OutboxRow P)) ob : Outbox P :=
  foldr (fun kv acc => <[kv.1 := claimedRow now (tokens kv.1) kv.2]> acc) ob rows.

Definition ClaimDueOutbox (now : Time) (scan : list string) (tokens : string -> string) (limit : nat) ob :
    list (OutboxEvent P) * Outbox P :=
  let rows := dueRows now scan limit ob in
  (map (eventOf now tokens) (merge_sort batch_le rows), claimRows now tokens rows ob).

(** *** Settling *)

Definition holdsToken (token : string) r : bool := bool_decide (ob_claim_token r = Some token).

Definition pendingStatus r : bool :=
  bool_decide (ob_status r = OutboxPending) || bool_decide (ob_status r = OutboxPendingFenced).

Definition withStatus (now : Time) (status : OutboxStatus) (err : string) r : OutboxRow P :=
  {| ob_topic := ob_topic r; ob_payload := ob_payload r; ob_status := status; ob_fenced := ob_fenced r;
     ob_attempts := ob_attempts r; ob_next_attempt_at := ob_next_attempt_at r;
     ob_claim_token := ob_claim_token r; ob_last_error := err;
     ob_created_at := ob_created_at r; ob_updated_at := now |}.

(** An [UPDATE ... WHERE id = $1 AND guard]: the new table, and whether a row was changed. *)
Definition casRow (id : string) (guard : OutboxRow P -> bool) (f : OutboxRow P -> OutboxRow P) ob : bool * Outbox P :=
  match ob !! id with
  | Some r => if guard r then (true, <[id := f r]> ob) else (false, ob)
  | None => (false, ob)
  end.

Definition releasedRow (now : Time) r : OutboxRow P :=
  {| ob_topic := ob_topic r; ob_payload := ob_payload r; ob_status := ob_status r; ob_fenced := ob_fenced r;
     ob_attempts := Z.max (ob_attempts r - 1) 0; ob_next_attempt_at := now;
     ob_claim_token := None; ob_last_error := ob_last_error r;
     ob_created_at := ob_created_at r; ob_updated_at := now |}.

Definition ReleaseOutboxClaim (now : Time) (id token : string) ob : bool * Outbox P :=
  casRow id (fun r => holdsToken token r && pendingStatus r) (releasedRow now) ob.

Definition MarkOutboxDelivered (now : Time) (id token : string) ob : bool * Outbox P :=
  casRow id (holdsToken token) (withStatus now OutboxDelivered "") ob.

Definition failedStatus (maxAttempts : Z) r : OutboxStatus :=
  if maxAttempts <=? ob_attempts r then OutboxDead else pendingClass (ob_fenced r).

Definition FailOutbox (now : Time) (id token lastErr : string) (maxAttempts : Z) ob : bool * Outbox P :=
  casRow id (holdsToken token) (fun r => withStatus now (failedStatus maxAttempts r) lastErr r) ob.

(** *** Housekeeping *)

(** [int(olderThan.Seconds())]; a non-positive value falls back to seven days. *)
Definition purgeSeconds (olderThan : Duration) : Z :=
  let secs := toInt64 (Seconds olderThan) in if secs <=? 0 then 7 * 24 * 3600 else secs.

Definition purgeable (now : Time) (olderThan : Duration) r : bool :=
  bool_decide (ob_status r = OutboxDelivered) && (ob_updated_at r <? now - purgeSeconds olderThan * Second).

Definition PurgeDeliveredOutbox (now : Time) (olderThan : Duration) ob : Z * Outbox P :=
  let kept := base.filter (fun kv => purgeable now olderThan kv.2 = false) ob in
  (Z.of_nat (size ob) - Z.of_nat (size kept), kept).

Definition replayedRow (now : Time) r : OutboxRow P :=
  {| ob_topic := ob_topic r; ob_payload := ob_payload r; ob_status := pendingClass (ob_fenced r);
     ob_fenced := ob_fenced r; ob_attempts := 0; ob_next_attempt_at := now;
     ob_claim_token := ob_claim_token r; ob_last_error := "";
     ob_created_at := ob_created_at r; ob_updated_at := now |}.

Definition isDead r : bool := bool_decide (ob_status r = OutboxDead).

Definition ReplayDeadOutbox (now : Time) (id : string) ob : result OutboxError (Outbox P) :=
  let '(applied, ob') := casRow id isDead (replayedRow now) ob in
  if applied then Ok ob' else Err ErrOutboxNotFound.

Definition ReplayAllDeadOutbox (now : Time) ob : Z * Outbox P :=
  (Z.of_nat (size (base.filter (fun kv => isDead kv.2 = true) ob)),
   (fun r => if isDead r then replayedRow now r else r) <$> ob).

(** ** The worker (outbox/outbox.go: [drain] and [process]) *)

(** [Worker.process] after the lease check: the budget left to the delivery, if the claim
    carries a lease. *)
Definition deliveryBudget (e : OutboxEvent P) (elapsed : Duration) : option Duration :=
  if IsZero (ev_LeaseUntil e) || IsZero (ev_ClaimedAt e) then None
  else Some (add64 (add64 (Sub (ev_LeaseUntil e) (ev_ClaimedAt e)) (- elapsed)) (- leaseHeadroom)).

Definition expired (e : OutboxEvent P) (elapsed : Duration) : bool :=
  match deliveryBudget e elapsed with Some b => b <=? 0 | None => false end.

(** One event of a batch: [elapsed] on the worker's clock since the claim, and what the
    delivery returned, [None] for no error. *)
Definition process (now : Time) (elapsed : Duration) (delivered : option string) (e : OutboxEvent P) ob : Outbox P :=
  if expired e elapsed then (ReleaseOutboxClaim now (ev_ID e) (ev_ClaimToken e) ob).2
  else match delivered with
  | None => (MarkOutboxDelivered now (ev_ID e) (ev_ClaimToken e) ob).2
  | Some err => (FailOutbox now (ev_ID e) (ev_ClaimToken e) err maxAttempts ob).2
  end.

(** [Worker.drain]: batches until one comes back short.  [turn n] gives the clock and the scan
    of the n-th batch, [outcome] the elapsed time and the result of each delivery. *)
Fixpoint drain (fuel : nat) (turn : nat -> Time * list string) (tokens : nat -> string -> string)
    (outcome : OutboxEvent P -> Duration * option string) (n : nat) ob : option (Outbox P) :=
  match fuel with
  | O => None
  | S fuel =>
    let '(now, scan) := turn n in
    let '(events, ob1) := ClaimDueOutbox now scan (tokens n) batchLimit ob in
    let ob2 := foldl (fun acc e => process now (outcome e).1 (outcome e).2 e acc) ob1 events in
    if (length events <? batchLimit)%nat then Some ob2 else drain fuel turn tokens outcome (S n) ob2
  end.
End outbox.

(** ** Workers as a system

    Several workers share the table.  A flight is one claimed event in the hands of one
    worker; the log records, in order, when a delivery call begins and when one is accepted. *)

Inductive FlightPhase := InHand | Calling | Accepted.
#[export] Instance flightPhase_eq : EqDecision FlightPhase.
Proof. solve_decision. Defined.

Record Flight (P : Type) := { fl_event : OutboxEvent P; fl_phase : FlightPhase }.
Arguments fl_event {P}. Arguments fl_phase {P}.

Inductive DeliveryNote (P : Type) := NoteBegun (topic : string) (p : P) | NoteAccepted (topic : string) (p : P).
Arguments NoteBegun {P}. Arguments NoteAccepted {P}.

(** [ow_uuids] holds every identifier [gen_random_uuid] has returned. *)
Record OutboxWorld (P : Type) := {
  ow_rows : Outbox P;
  ow_flights : list (Flight P);
  ow_log : list (DeliveryNote P);
  ow_uuids : gset string;
}.
Arguments ow_rows {P}. Arguments ow_flights {P}. Arguments ow_log {P}. Arguments ow_uuids {P}.

Section workers.
Context {P : Type} `{!Payload P}.
Implicit Types (r o pr : OutboxRow P) (ob : Outbox P) (w : OutboxWorld P) (f : Flight P) (e : OutboxEvent P).

Definition inHand e : Flight P := {| fl_event := e; fl_phase := InHand |}.
Definition inPhase (p : FlightPhase) f : Flight P := {| fl_event := fl_event f; fl_phase := p |}.

Definition withRows w ob : OutboxWorld P :=
  {| ow_rows := ob; ow_flights := ow_flights w; ow_log := ow_log w; ow_uuids := ow_uuids w |}.

(** The settling write of a flight ends it. *)
Definition settled w ob (pre post : list (Flight P)) : OutboxWorld P :=
  {| ow_rows := ob; ow_flights := pre ++ post; ow_log := ow_log w; ow_uuids := ow_uuids w |}.

(** A delivery of an incident event returns no error only when the webhook call did; an event
    of another topic may be dropped on purpose. *)
Definition mayMark f : Prop := ev_Topic (fl_event f) = TopicIncidentEvent -> fl_phase f = Accepted.

Inductive worker_step : OutboxWorld P -> OutboxWorld P -> Prop :=
| ws_claim w now scan tokens limit events ob' :
    ClaimDueOutbox now scan tokens limit (ow_rows w) = (events, ob') ->
    NoDup scan ->
    NoDup (map ev_ClaimToken events) ->
    (forall e, e ∈ events -> ev_ClaimToken e ∉ ow_uuids w) ->
    worker_step w
      {| ow_rows := ob'; ow_flights := ow_flights w ++ map inHand events; ow_log := ow_log w;
         ow_uuids := list_to_set (map ev_ClaimToken events) ∪ ow_uuids w |}
| ws_call w pre f post :
    ow_flights w = pre ++ f :: post -> fl_phase f = InHand ->
    worker_step w
      {| ow_rows := ow_rows w; ow_flights := pre ++ inPhase Calling f :: post;
         ow_log := ow_log w ++ [NoteBegun (ev_Topic (fl_event f)) (ev_Payload (fl_event f))];
         ow_uuids := ow_uuids w |}
| ws_accepted w pre f post :
    ow_flights w = pre ++ f :: post -> fl_phase f = Calling ->
    worker_step w
      {| ow_rows := ow_rows w; ow_flights := pre ++ inPhase Accepted f :: post;
         ow_log := ow_log w ++ [NoteAccepted (ev_Topic (fl_event f)) (ev_Payload (fl_event f))];
         ow_uuids := ow_uuids w |}
| ws_mark w pre f post now b ob' :
    ow_flights w = pre ++ f :: post -> mayMark f ->
    MarkOutboxDelivered now (ev_ID (fl_event f)) (ev_ClaimToken (fl_event f)) (ow_rows w) = (b, ob') ->
    worker_step w (settled w ob' pre post)
| ws_fail w pre f post now err b ob' :
    ow_flights w = pre ++ f :: post ->
    FailOutbox now (ev_ID (fl_event f)) (ev_ClaimToken (fl_event f)) err maxAttempts (ow_rows w) = (b, ob') ->
    worker_step w (settled w ob' pre post)
| ws_release w pre f post now b ob' :
    ow_flights w = pre ++ f :: post -> fl_phase f = InHand ->
    ReleaseOutboxClaim now (ev_ID (fl_event f)) (ev_ClaimToken (fl_event f)) (ow_rows w) = (b, ob') ->
    worker_step w (settled w ob' pre post)
| ws_crash w pre f post :
    ow_flights w = pre ++ f :: post -> worker_step w (settled w (ow_rows w) pre post)
| ws_purge w now olderThan n ob' :
    PurgeDeliveredOutbox now olderThan (ow_rows w) = (n, ob') -> worker_step w (withRows w ob')
| ws_replay w now id ob' :
    ReplayDeadOutbox now id (ow_rows w) = Ok ob' -> worker_step w (withRows w ob')
| ws_replay_all w now n ob' :
    ReplayAllDeadOutbox now (ow_rows w) = (n, ob') -> worker_step w (withRows w ob').

(** What every worker relies on. *)
Record worker_inv w : Prop := {
  wi_class : forall id r, ow_rows w !! id = Some r ->
    ob_fenced r = FencedTopic (ob_topic r) /\
    (pendingStatus r = true -> ob_status r = pendingClass (ob_fenced r));
  wi_uuids : forall id r, ow_rows w !! id = Some r ->
    id ∈ ow_uuids w /\ (forall t, ob_claim_token r = Some t -> t ∈ ow_uuids w);
  wi_flight_uuids : forall f, f ∈ ow_flights w ->
    ev_ID (fl_event f) ∈ ow_uuids w /\ ev_ClaimToken (fl_event f) ∈ ow_uuids w;
  wi_tokens : NoDup (map (fun f => ev_ClaimToken (fl_event f)) (ow_flights w));
  wi_flight_row : forall f r, f ∈ ow_flights w -> ow_rows w !! ev_ID (fl_event f) = Some r ->
    ob_topic r = ev_Topic (fl_event f) /\ ob_payload r = ev_Payload (fl_event f);
  wi_live : forall f id r, f ∈ ow_flights w -> ow_rows w !! id = Some r ->
    ob_claim_token r = Some (ev_ClaimToken (fl_event f)) ->
    id = ev_ID (fl_event f) /\ pendingStatus r = true;
}.

(** The claim's causal half, as the flights see it: every earlier event of the incident of an
    event in somebody's hands is delivered. *)
Definition flight_causal w : Prop :=
  forall f pid pr i k,
    f ∈ ow_flights w -> ev_Topic (fl_event f) = TopicIncidentEvent ->
    pl_incident (ev_Payload (fl_event f)) = Some i -> pl_seq (ev_Payload (fl_event f)) = Some k ->
    ow_rows w !! pid = Some pr -> ob_topic pr = TopicIncidentEvent ->
    pl_incident (ob_payload pr) = Some i -> seqOf pr < k -> ob_status pr = OutboxDelivered.
End workers.
