(* ===== verification/OutboxFacts.v ===== *)
(** * What the outbox guarantees

    Lemmas on the statements of Outbox.v and the invariants every worker relies on: the claim
    class of a topic never changes, one claim token is one claim, only the present owner of a
    row settles it, and an event of an incident is in somebody's hands only when the earlier
    events of that incident are delivered. *)

From S2P Require Import Prelude GoFloat Outbox.

Section claims.
Context {P : Type} `{!Payload P}.
Implicit Types (r o pr : OutboxRow P) (ob : Outbox P) (e : OutboxEvent P).

(** ** The claim *)

Lemma due_rows_spec now scan limit ob id r :
  (id, r) ∈ dueRows now scan limit ob ->
  id ∈ scan /\ ob !! id = Some r /\ due now r = true /\ blocked ob id r = false.
Proof.
  intros H. apply elem_of_take in H as (n & H & _). apply list_elem_of_lookup_2 in H.
  rewrite merge_sort_Permutation in H. apply list_elem_of_omap in H as (id' & Hs & H).
  destruct (ob !! id') as [o|] eqn:Ho; [|done].
  destruct (due now o) eqn:Hd; [|done]. destruct (blocked ob id' o) eqn:Hb; [done|].
  simpl in H. injection H as -> ->. done.
Qed.

Lemma due_rows_nodup now scan limit ob : NoDup scan -> NoDup (map fst (dueRows now scan limit ob)).
Proof.
  intros Hs. unfold dueRows. rewrite <- firstn_map. eapply sublist_NoDup; [|apply sublist_take].
  rewrite merge_sort_Permutation.
  induction Hs as [|id scan Hid Hs IH]; [constructor|].
  cbn [omap list_omap]. destruct (ob !! id) as [o|] eqn:Ho; [|exact IH].
  destruct (due now o && negb (blocked ob id o)); [|exact IH].
  cbn [map fst]. constructor; [|exact IH]. intros (kv & He & H)%list_elem_of_fmap.
  apply list_elem_of_omap in H as (id' & Hs' & H).
  destruct (ob !! id') as [o'|]; [|done]. destruct (_ && _); [|done]. simplify_eq/=. done.
Qed.

Lemma claimRows_lookup now tokens rows ob id :
  (forall k r, (k, r) ∈ rows -> ob !! k = Some r) ->
  claimRows now tokens rows ob !! id =
    (if decide (id ∈ map fst rows) then claimedRow now (tokens id) <$> ob !! id else ob !! id).
Proof.
  unfold claimRows. induction rows as [|[k r] rows IH]; intros H; cbn [foldr map fst snd]; [done|].
  destruct (decide (k = id)) as [->|Hne].
  - rewrite lookup_insert_eq, decide_True by set_solver.
    by rewrite (H id r) by set_solver.
  - rewrite lookup_insert_ne by done.
    rewrite IH by set_solver. destruct (decide (id ∈ map fst rows)) as [Hi|Hi].
    + by rewrite decide_True by set_solver.
    + by rewrite decide_False by set_solver.
Qed.

Lemma claim_event now scan tokens limit ob events ob' e :
  ClaimDueOutbox now scan tokens limit ob = (events, ob') -> e ∈ events ->
  exists r, ob !! ev_ID e = Some r /\ e = eventOf now tokens (ev_ID e, r) /\
            due now r = true /\ blocked ob (ev_ID e) r = false.
Proof.
  intros H He. injection H as <- <-. apply list_elem_of_fmap in He as ([id r] & -> & He).
  rewrite merge_sort_Permutation in He. apply due_rows_spec in He as (_ & Hr & Hd & Hb).
  by exists r.
Qed.

Lemma claim_lookup now scan tokens limit ob events ob' id :
  ClaimDueOutbox now scan tokens limit ob = (events, ob') ->
  ob' !! id = (if decide (id ∈ map ev_ID events) then claimedRow now (tokens id) <$> ob !! id else ob !! id).
Proof.
  intros H. injection H as <- <-.
  rewrite claimRows_lookup by (intros k r (_ & Hr & _)%due_rows_spec; done).
  assert (id ∈ map ev_ID (map (eventOf now tokens) (merge_sort batch_le (dueRows now scan limit ob)))
          <-> id ∈ map fst (dueRows now scan limit ob)) as Hiff.
  { rewrite map_map, merge_sort_Permutation. done. }
  destruct (decide (id ∈ map fst _)) as [Hi|Hi].
  - by rewrite decide_True by (by apply Hiff).
  - by rewrite decide_False by (by intros ?%Hiff).
Qed.

Lemma claim_ids_nodup now scan tokens limit ob events ob' :
  ClaimDueOutbox now scan tokens limit ob = (events, ob') -> NoDup scan -> NoDup (map ev_ID events).
Proof.
  intros H Hs. injection H as <- <-. rewrite map_map.
  rewrite merge_sort_Permutation. by apply due_rows_nodup.
Qed.

Lemma blocked_false ob id o :
  blocked ob id o = false <->
  forall pid pr, ob !! pid = Some pr -> precedes pid pr id o = true -> ob_status pr = OutboxDelivered.
Proof.
  unfold blocked. split.
  - intros H pid pr Hp Hpre. destruct (decide (ob_status pr = OutboxDelivered)) as [|Hn]; [done|].
    assert (existsb (fun kv => negb (bool_decide (ob_status kv.2 = OutboxDelivered)) && precedes kv.1 kv.2 id o)
              (map_to_list ob) = true) as He; [|by rewrite He in H].
    apply existsb_exists. exists (pid, pr). split; [by apply list_elem_of_In, elem_of_map_to_list|].
    cbn [fst snd]. by rewrite bool_decide_false, Hpre.
  - intros H. apply not_true_is_false. intros ([pid pr] & Hin & Hb)%existsb_exists.
    apply list_elem_of_In, elem_of_map_to_list in Hin. cbn [fst snd] in Hb. bool_facts.
    apply bool_decide_eq_false in H0. by apply H0, (H pid).
Qed.
End claims.

(** ** How the other statements move a row *)

Section moves.
Context {P : Type} `{!Payload P}.
Implicit Types (r o pr : OutboxRow P) (ob : Outbox P) (w : OutboxWorld P) (f : Flight P) (fs : list (Flight P)).

Definition tokenOf f : string := ev_ClaimToken (fl_event f).

(** A statement other than the claim keeps what a row says and its class, drops its token or
    keeps it, never takes a delivery back, and keeps a row pending for the flights [fs]. *)
Record row_step fs r r' : Prop := {
  rs_topic : ob_topic r' = ob_topic r;
  rs_payload : ob_payload r' = ob_payload r;
  rs_fenced : ob_fenced r' = ob_fenced r;
  rs_token : ob_claim_token r' = None \/ ob_claim_token r' = ob_claim_token r;
  rs_class : (pendingStatus r = true -> ob_status r = pendingClass (ob_fenced r)) ->
             pendingStatus r' = true -> ob_status r' = pendingClass (ob_fenced r');
  rs_delivered : ob_status r = OutboxDelivered -> ob_status r' = OutboxDelivered;
  rs_pending : forall f, f ∈ fs -> ob_claim_token r' = Some (tokenOf f) ->
                         pendingStatus r = true -> pendingStatus r' = true;
}.

Definition rows_step fs ob ob' : Prop :=
  forall id r', ob' !! id = Some r' -> exists r, ob !! id = Some r /\ row_step fs r r'.

Lemma row_step_refl fs r : row_step fs r r.
Proof. constructor; auto. Qed.

Lemma rows_step_refl fs ob : rows_step fs ob ob.
Proof. intros id r H. exists r. split; [done|]. apply row_step_refl. Qed.

Lemma pendingClass_pending b : pendingClass b = OutboxPending \/ pendingClass b = OutboxPendingFenced.
Proof. destruct b; auto. Qed.

Lemma pendingStatus_spec r :
  pendingStatus r = true <-> ob_status r = OutboxPending \/ ob_status r = OutboxPendingFenced.
Proof. unfold pendingStatus. rewrite orb_true_iff, !bool_decide_eq_true. done. Qed.

Lemma casRow_lookup id g h ob b ob' k :
  casRow id g h ob = (b, ob') ->
  ob' !! k = if decide (k = id) then (fun r => if g r then h r else r) <$> ob !! id else ob !! k.
Proof.
  unfold casRow. intros H. destruct (decide (k = id)) as [->|Hne].
  - destruct (ob !! id) as [r|] eqn:Hr; simplify_eq/=; [|by rewrite Hr].
    destruct (g r); simplify_eq; by rewrite ?lookup_insert_eq, ?Hr.
  - destruct (ob !! id) as [r|] eqn:Hr; simplify_eq/=; [|done].
    destruct (g r); simplify_eq; by rewrite ?lookup_insert_ne by done.
Qed.

Lemma casRow_step fs id g h ob b ob' :
  (forall r, ob !! id = Some r -> g r = true -> row_step fs r (h r)) ->
  casRow id g h ob = (b, ob') -> rows_step fs ob ob'.
Proof.
  intros Hs H k r' Hr'. rewrite (casRow_lookup _ _ _ _ _ _ k H) in Hr'.
  destruct (decide (k = id)) as [->|]; [|exists r'; split; [done|apply row_step_refl]].
  destruct (ob !! id) as [r|] eqn:Hr; [|done]. simpl in Hr'. injection Hr' as <-.
  exists r. split; [done|]. destruct (g r) eqn:Hg; [by apply Hs|apply row_step_refl].
Qed.

(** Settling a flight that is not among the remaining ones. *)
Lemma withStatus_step fs now st err r tok :
  holdsToken tok r = true -> (forall f, f ∈ fs -> tokenOf f <> tok) ->
  (ob_status r = OutboxDelivered -> st = OutboxDelivered) ->
  (st = OutboxDelivered \/ st = OutboxDead \/ st = pendingClass (ob_fenced r)) ->
  row_step fs r (withStatus now st err r).
Proof.
  intros Ht%bool_decide_eq_true Hfs Hd Hst. constructor; simpl; auto.
  - intros _ Hp%pendingStatus_spec. simpl in Hp. destruct Hst as [->|[->| ->]]; [naive_solver..|done].
  - intros f Hf Htok. rewrite Ht in Htok. injection Htok as ->. by destruct (Hfs f).
Qed.

Lemma releasedRow_step fs now r :
  pendingStatus r = true -> row_step fs r (releasedRow now r).
Proof.
  intros Hp. constructor; simpl; auto. 
Qed.

Lemma replayedRow_step fs now r : isDead r = true -> row_step fs r (replayedRow now r).
Proof.
  intros Hd%bool_decide_eq_true. constructor; simpl; auto.
  - intros Hx. by rewrite Hx in Hd.
  - intros f _ _ Hp%pendingStatus_spec. rewrite Hd in Hp. naive_solver.
Qed.
End moves.

(** ** The invariants are kept *)

Section invariants.
Context {P : Type} `{!Payload P}.
Implicit Types (r o pr : OutboxRow P) (ob : Outbox P) (w : OutboxWorld P) (f : Flight P) (fs : list (Flight P)).

(** The remaining flights are flights of before, perhaps in another phase. *)
Definition flights_among fs fs' : Prop := forall f', f' ∈ fs' -> exists f, f ∈ fs /\ fl_event f = fl_event f'.

Lemma worker_inv_rows w ob' fs' log' :
  worker_inv w -> rows_step fs' (ow_rows w) ob' -> flights_among (ow_flights w) fs' ->
  NoDup (map tokenOf fs') ->
  worker_inv {| ow_rows := ob'; ow_flights := fs'; ow_log := log'; ow_uuids := ow_uuids w |}.
Proof.
  intros [Hc Hu Hfu Ht Hfr Hl] Hrows Hfs Hnd. constructor; cbn [ow_rows ow_flights ow_log ow_uuids].
  - intros id r' Hr'. destruct (Hrows _ _ Hr') as (r & Hr & Hs). destruct (Hc _ _ Hr) as [Hf Hp].
    rewrite (rs_fenced _ _ _ Hs), (rs_topic _ _ _ Hs). split; [done|].
    intros Hp'. pose proof (rs_class _ _ _ Hs Hp Hp') as He. by rewrite (rs_fenced _ _ _ Hs) in He.
  - intros id r' Hr'. destruct (Hrows _ _ Hr') as (r & Hr & Hs). destruct (Hu _ _ Hr) as [Hi Hk].
    split; [done|]. intros t Ht'. destruct (rs_token _ _ _ Hs) as [He|He]; [by rewrite He in Ht'|].
    apply Hk. by rewrite <- He.
  - intros f' (f & Hf & <-)%Hfs. by apply Hfu.
  - exact Hnd.
  - intros f' r' Hf' Hr'. destruct (Hrows _ _ Hr') as (r & Hr & Hs). destruct (Hfs _ Hf') as (f & Hf & He).
    rewrite <- He in *. rewrite (rs_topic _ _ _ Hs), (rs_payload _ _ _ Hs). by apply Hfr.
  - intros f' id r' Hf' Hr' Htok. destruct (Hrows _ _ Hr') as (r & Hr & Hs).
    destruct (Hfs _ Hf') as (f & Hf & He).
    destruct (rs_token _ _ _ Hs) as [Hn|Hn]; [by rewrite Hn in Htok|].
    assert (ob_claim_token r = Some (ev_ClaimToken (fl_event f))) as Hr0 by (by rewrite <- Hn, He).
    destruct (Hl _ _ _ Hf Hr Hr0) as [-> Hp]. split; [by rewrite He|]. by apply (rs_pending _ _ _ Hs f').
Qed.

Lemma flight_causal_rows w ob' fs' log' :
  flight_causal w -> rows_step fs' (ow_rows w) ob' -> flights_among (ow_flights w) fs' ->
  flight_causal {| ow_rows := ob'; ow_flights := fs'; ow_log := log'; ow_uuids := ow_uuids w |}.
Proof.
  intros Hc Hrows Hfs f' pid pr' i k Hf' Htop Hi Hk Hpr' Hpt Hpi Hlt.
  cbn [ow_rows ow_flights] in *.
  destruct (Hrows _ _ Hpr') as (pr & Hpr & Hs). destruct (Hfs _ Hf') as (f & Hf & He).
  apply (rs_delivered _ _ _ Hs). unfold seqOf in Hlt. rewrite <- He in Htop, Hi, Hk.
  rewrite (rs_topic _ _ _ Hs) in Hpt. rewrite (rs_payload _ _ _ Hs) in Hpi, Hlt. eauto.
Qed.

Lemma flights_among_split fs pre f f' post :
  fs = pre ++ f :: post -> fl_event f' = fl_event f -> flights_among fs (pre ++ f' :: post).
Proof.
  intros -> He g Hg. rewrite elem_of_app, elem_of_cons in Hg.
  destruct Hg as [Hg|[->|Hg]]; [exists g|exists f|exists g]; set_solver.
Qed.

Lemma flights_among_rest fs pre f post : fs = pre ++ f :: post -> flights_among fs (pre ++ post).
Proof. intros -> g Hg. exists g. split; [|done]. set_solver. Qed.

Lemma map_app_cons {A B} (g : A -> B) pre x post : map g (pre ++ x :: post) = map g pre ++ g x :: map g post.
Proof. by rewrite map_app. Qed.

(** What removing a flight leaves. *)
Lemma settle_rest w pre f post :
  worker_inv w -> ow_flights w = pre ++ f :: post ->
  NoDup (map tokenOf (pre ++ post)) /\ forall g, g ∈ pre ++ post -> tokenOf g <> tokenOf f.
Proof.
  intros Hw Hf. pose proof (wi_tokens _ Hw) as Hn. rewrite Hf in Hn.
  change (NoDup (map tokenOf (pre ++ f :: post))) in Hn. rewrite map_app_cons in Hn.
  rewrite <- Permutation_middle, <- map_app in Hn. apply list.NoDup_cons in Hn as [Hn1 Hn2].
  split; [done|]. intros g Hg He. apply Hn1. rewrite <- He. by apply list_elem_of_fmap_2.
Qed.

(** The row a settling flight still owns is pending. *)
Lemma owner_pending w f r :
  worker_inv w -> f ∈ ow_flights w -> ow_rows w !! ev_ID (fl_event f) = Some r ->
  holdsToken (tokenOf f) r = true -> pendingStatus r = true.
Proof. intros Hw Hf Hr Ht%bool_decide_eq_true. by apply (wi_live _ Hw f _ r Hf Hr Ht). Qed.

Lemma failedStatus_cases m r :
  failedStatus m r = OutboxDelivered \/ failedStatus m r = OutboxDead \/ failedStatus m r = pendingClass (ob_fenced r).
Proof. unfold failedStatus. destruct (_ <=? _); auto. Qed.

Lemma elem_middle {A} pre (x : A) post : x ∈ pre ++ x :: post.
Proof. set_solver. Qed.

(** A step of a worker other than a claim. *)
Lemma worker_step_rows w w' :
  worker_step w w' -> worker_inv w ->
  (exists now scan tokens limit events ob',
     ClaimDueOutbox now scan tokens limit (ow_rows w) = (events, ob') /\ NoDup scan /\
     NoDup (map ev_ClaimToken events) /\ (forall e, e ∈ events -> ev_ClaimToken e ∉ ow_uuids w) /\
     w' = {| ow_rows := ob'; ow_flights := ow_flights w ++ map inHand events; ow_log := ow_log w;
             ow_uuids := list_to_set (map ev_ClaimToken events) ∪ ow_uuids w |}) \/
  (ow_uuids w' = ow_uuids w /\ rows_step (ow_flights w') (ow_rows w) (ow_rows w') /\
   flights_among (ow_flights w) (ow_flights w') /\ NoDup (map tokenOf (ow_flights w'))).
Proof.
  intros Hstep Hw. destruct Hstep as
    [w now scan tokens limit events ob' Hcl Hs Hnd Hfr
    |w pre f post Hf Hph|w pre f post Hf Hph
    |w pre f post now b ob' Hf Hm Hcas|w pre f post now err b ob' Hf Hcas|w pre f post now b ob' Hf Hph Hcas
    |w pre f post Hf|w now older n ob' Hp|w now id ob' Hrp|w now n ob' Hrp].
  - left. by exists now, scan, tokens, limit, events, ob'.
  - right. split_and!; [done|apply rows_step_refl|by eapply flights_among_split|].
    pose proof (wi_tokens _ Hw) as Ht. rewrite Hf, map_app_cons in Ht. cbn. by rewrite map_app_cons.
  - right. split_and!; [done|apply rows_step_refl|by eapply flights_among_split|].
    pose proof (wi_tokens _ Hw) as Ht. rewrite Hf, map_app_cons in Ht. cbn. by rewrite map_app_cons.
  - right. destruct (settle_rest _ _ _ _ Hw Hf) as [Hnd Hne].
    split_and!; [done| |by eapply flights_among_rest|done].
    eapply casRow_step, Hcas. intros r _ Ht. by apply (withStatus_step _ _ _ _ _ (tokenOf f)); auto.
  - right. destruct (settle_rest _ _ _ _ Hw Hf) as [Hnd Hne].
    split_and!; [done| |by eapply flights_among_rest|done].
    eapply casRow_step, Hcas. intros r Hr Ht. apply (withStatus_step _ _ _ _ _ (tokenOf f)); [done|done| |apply failedStatus_cases].
    intros Hd. assert (pendingStatus r = true) as Hp%pendingStatus_spec; [|destruct Hp; congruence].
    apply (owner_pending w f r Hw); [|done|done]. rewrite Hf. apply elem_middle.
  - right. destruct (settle_rest _ _ _ _ Hw Hf) as [Hnd Hne].
    split_and!; [done| |by eapply flights_among_rest|done].
    eapply casRow_step, Hcas. intros r _ [_ Hp0]%andb_prop. by apply releasedRow_step.
  - right. destruct (settle_rest _ _ _ _ Hw Hf) as [Hnd Hne].
    split_and!; [done|apply rows_step_refl|by eapply flights_among_rest|done].
  - right. injection Hp as _ <-. split_and!; [done| |by intros f Hf; exists f|apply (wi_tokens _ Hw)].
    intros id r (Hr & _)%map_lookup_filter_Some. exists r. split; [done|apply row_step_refl].
  - right. split_and!; [done| |by intros f Hf; exists f|apply (wi_tokens _ Hw)].
    unfold ReplayDeadOutbox in Hrp. destruct (casRow _ _ _ _) as [b ob''] eqn:Hcas. destruct b; [|done].
    injection Hrp as <-. eapply casRow_step, Hcas. intros r _ Hd. by apply replayedRow_step.
  - right. injection Hrp as _ <-. split_and!; [done| |by intros f Hf; exists f|apply (wi_tokens _ Hw)].
    intros id r' Hr'. cbn in Hr'. rewrite lookup_fmap in Hr'.
    destruct (ow_rows w !! id) as [r|] eqn:Hr; [|done]. simpl in Hr'. injection Hr' as <-.
    exists r. split; [done|]. destruct (isDead r) eqn:Hd; [by apply replayedRow_step|apply row_step_refl].
Qed.

(** A claim. *)
Lemma claimable_pending r : claimable r = true -> pendingStatus r = true.
Proof. unfold claimable. rewrite orb_true_iff, andb_true_iff, !bool_decide_eq_true, pendingStatus_spec. tauto. Qed.

Section claim.
Context (w : OutboxWorld P) (now : Time) (scan : list string) (tokens : string -> string) (limit : nat)
        (events : list (OutboxEvent P)) (ob' : gmap string (OutboxRow P)).
Hypothesis Hcl : ClaimDueOutbox now scan tokens limit (ow_rows w) = (events, ob').
Hypothesis Hscan : NoDup scan.
Hypothesis Hnd : NoDup (map ev_ClaimToken events).
Hypothesis Hfresh : forall e, e ∈ events -> ev_ClaimToken e ∉ ow_uuids w.

Definition claimedWorld : OutboxWorld P :=
  {| ow_rows := ob'; ow_flights := ow_flights w ++ map inHand events; ow_log := ow_log w;
     ow_uuids := list_to_set (map ev_ClaimToken events) ∪ ow_uuids w |}.

Lemma claimed_row (id : string) r' :
  ob' !! id = Some r' ->
  exists r, ow_rows w !! id = Some r /\
    ((r' = r /\ id ∉ map ev_ID events) \/
     (exists e, e ∈ events /\ ev_ID e = id /\ r' = claimedRow now (ev_ClaimToken e) r /\ claimable r = true)).
Proof.
  intros H. rewrite (claim_lookup _ _ _ _ _ _ _ id Hcl) in H.
  destruct (decide (id ∈ map ev_ID events)) as [Hin|Hin]; [|exists r'; by auto].
  destruct (ow_rows w !! id) as [r|] eqn:Hr; [|done]. simpl in H. injection H as <-.
  exists r. split; [done|]. right. apply list_elem_of_fmap in Hin as (e & -> & He).
  destruct (claim_event _ _ _ _ _ _ _ e Hcl He) as (r0 & Hr0 & Hev & Hdue & _).
  exists e. split_and!; [done|done| |].
  - f_equal. by rewrite Hev.
  - rewrite Hr in Hr0. injection Hr0 as <-. by apply andb_prop in Hdue as [? _].
Qed.

Lemma claimed_event e :
  e ∈ events -> exists r, ow_rows w !! ev_ID e = Some r /\ ob_topic r = ev_Topic e /\ ob_payload r = ev_Payload e /\
                         blocked (ow_rows w) (ev_ID e) r = false.
Proof.
  intros He. destruct (claim_event _ _ _ _ _ _ _ e Hcl He) as (r & Hr & Hev & _ & Hb).
  exists r. rewrite Hr. split_and!; [done|by rewrite Hev|by rewrite Hev|done].
Qed.

Lemma flights_claimed f :
  f ∈ ow_flights claimedWorld <-> f ∈ ow_flights w \/ exists e, e ∈ events /\ f = inHand e.
Proof.
  cbn. rewrite elem_of_app. unfold inHand. split; (intros [H|H]; [by left|right]).
  - apply list_elem_of_fmap in H as (e & -> & He). by exists e.
  - destruct H as (e & He & ->). by apply (list_elem_of_fmap_2 inHand).
Qed.

Lemma outbox_claim_inv : worker_inv w -> worker_inv claimedWorld.
Proof.
  intros [Hc Hu Hfu Ht Hfr Hl]. constructor.
  - intros id r' (r & Hr & [[-> _]|(e & _ & _ & -> & Hp)])%claimed_row; [by apply (Hc id)|].
    destruct (Hc id r Hr) as [Hf Hcl']. split; [exact Hf|]. intros _. cbn. by apply Hcl', claimable_pending.
  - intros id r' (r & Hr & [[-> _]|(e & He & _ & -> & _)])%claimed_row; destruct (Hu id r Hr) as [Hi Hk]; cbn.
    + split; [set_solver|]. intros t Ht'. specialize (Hk t Ht'). set_solver.
    + split; [set_solver|]. intros t [= <-]. apply elem_of_union_l, elem_of_list_to_set.
      by apply (list_elem_of_fmap_2 ev_ClaimToken).
  - intros f [Hf|(e & He & ->)]%flights_claimed; cbn [ow_uuids claimedWorld inHand fl_event].
    + destruct (Hfu f Hf). set_solver.
    + destruct (claimed_event e He) as (r & Hr & _). destruct (Hu _ _ Hr) as [Hi _].
      split; [set_solver|]. apply elem_of_union_l, elem_of_list_to_set. by apply (list_elem_of_fmap_2 ev_ClaimToken).
  - cbn [ow_flights claimedWorld]. rewrite map_app, map_map. cbn [inHand fl_event].
    apply list.NoDup_app. split_and!; [done| |done].
    intros t (f & -> & Hf)%list_elem_of_fmap (e & He & Hee)%list_elem_of_fmap.
    apply (Hfresh e Hee). rewrite <- He. by apply Hfu.
  - intros f r' Hf (r & Hr & Hcase)%claimed_row.
    assert (ob_topic r' = ob_topic r /\ ob_payload r' = ob_payload r) as [-> ->]
      by (destruct Hcase as [[-> _]|(? & _ & _ & -> & _)]; done).
    apply flights_claimed in Hf as [Hf|(e & He & ->)]; [by apply Hfr|].
    destruct (claimed_event e He) as (r0 & Hr0 & Ht0 & Hp0 & _). cbn in Hr. by rewrite Hr0 in Hr; simplify_eq.
  - intros f id r' Hf (r & Hr & Hcase)%claimed_row Htok.
    destruct Hcase as [[-> Hn]|(e & He & <- & -> & Hp)].
    + apply flights_claimed in Hf as [Hf|(e & He & ->)]; [by apply Hl|].
      destruct (Hfresh e He). cbn in Htok. destruct (Hu id r Hr) as [_ Hk]. by apply Hk.
    + cbn in Htok. injection Htok as Htok. apply flights_claimed in Hf as [Hf|(e' & He' & ->)].
      * destruct (Hfresh e He). rewrite Htok. by apply Hfu.
      * cbn in Htok |- *. assert (e = e') as <-; [|split; [done|by apply claimable_pending in Hp]].
        apply list_elem_of_lookup in He as [i Hi]. apply list_elem_of_lookup in He' as [j Hj].
        assert (i = j) as <-; [|by rewrite Hi in Hj; simplify_eq].
        eapply NoDup_lookup; [exact Hnd| |]; rewrite list_lookup_fmap; [by rewrite Hi|by rewrite Hj, Htok].
Qed.

Lemma claim_causal : flight_causal w -> flight_causal claimedWorld.
Proof.
  intros Hfc f pid pr' i k Hf Htop Hi Hk (pr & Hpr & Hcase)%claimed_row Hpt Hpi Hlt.
  assert (ob_topic pr = TopicIncidentEvent /\ pl_incident (ob_payload pr) = Some i /\ seqOf pr < k) as (Hpt' & Hpi' & Hlt')
    by (destruct Hcase as [[-> _]|(? & _ & _ & -> & _)]; done).
  assert (ob_status pr = OutboxDelivered) as Hd.
  { apply flights_claimed in Hf as [Hf|(e & He & ->)]; [by eapply (Hfc f pid)|].
    destruct (claimed_event e He) as (o & Ho & Ht & Hp & Hb). cbn in Htop, Hi, Hk.
    apply (proj1 (blocked_false _ _ _) Hb pid pr Hpr). unfold precedes, sameIncident, earlier, seqOf in *.
    rewrite Ht, Htop, Hp, Hpi', Hi, Hk, Hpt'. cbn.
    rewrite !bool_decide_true by done. rewrite (proj2 (Z.ltb_lt _ _)) by done.
    rewrite bool_decide_false; [by rewrite bool_decide_true|]. intros ->. rewrite Hpr in Ho. injection Ho as <-.
    rewrite Hp, Hk in Hlt'. simpl in Hlt'. lia. }
  destruct Hcase as [[-> _]|(e & _ & _ & -> & Hp)]; [done|].
  apply claimable_pending, pendingStatus_spec in Hp. destruct Hp; congruence.
Qed.
End claim.

Lemma worker_step_inv w w' :
  worker_step w w' -> worker_inv w /\ flight_causal w -> worker_inv w' /\ flight_causal w'.
Proof.
  intros Hs [Hw Hc]. destruct (worker_step_rows w w' Hs Hw) as
    [(now & scan & tokens & limit & events & ob' & Hcl & Hsc & Hnd & Hf & ->)|(Hu & Hr & Hf & Hn)].
  - split; [eapply outbox_claim_inv|eapply claim_causal]; eauto.
  - destruct w' as [rows' flights' log' uuids']; cbn in *; subst uuids'.
    split; [by apply worker_inv_rows|by apply flight_causal_rows].
Qed.

(** ** Writing an event

    The identifier is new.  An event of an incident carries a sequence number above those of
    the rows and flights of that incident. *)
Definition written w (id : string) r log' : OutboxWorld P :=
  {| ow_rows := <[id := r]> (ow_rows w); ow_flights := ow_flights w; ow_log := log'; ow_uuids := {[id]} ∪ ow_uuids w |}.

Lemma newRow_pending topic (p : P) at_ : ob_status (newRow topic p at_) = pendingClass (FencedTopic topic).
Proof. done. Qed.

Lemma outbox_enqueue_inv w id topic (p : P) at_ :
  worker_inv w -> id ∉ ow_uuids w -> worker_inv (written w id (newRow topic p at_) (ow_log w)).
Proof.
  intros [Hc Hu Hfu Ht Hfr Hl] Hid. constructor; cbn [written ow_rows ow_flights ow_uuids].
  - intros k r [[<- <-]|[_ Hr]]%lookup_insert_Some; [done|by apply (Hc k)].
  - intros k r [[<- <-]|[_ Hr]]%lookup_insert_Some; [split; [set_solver|done]|].
    destruct (Hu k r Hr) as [Hi Hk]. split; [set_solver|]. intros t Ht'. specialize (Hk t Ht'). set_solver.
  - intros f Hf. destruct (Hfu f Hf). set_solver.
  - done.
  - intros f r Hf [[He _]|[_ Hr]]%lookup_insert_Some; [|by apply Hfr].
    destruct Hid. rewrite He. by apply Hfu.
  - intros f k r Hf [[<- <-]|[_ Hr]]%lookup_insert_Some Htok; [done|by apply Hl].
Qed.

Lemma worker_inv_more_uuids w (ids : gset string) :
  worker_inv w ->
  worker_inv {| ow_rows := ow_rows w; ow_flights := ow_flights w; ow_log := ow_log w; ow_uuids := ids ∪ ow_uuids w |}.
Proof.
  intros [Hc Hu Hfu Ht Hfr Hl]. constructor; cbn; try done.
  - intros k r Hr. destruct (Hu k r Hr) as [Hi Hk]. split; [set_solver|]. intros t Ht'. specialize (Hk t Ht'). set_solver.
  - intros f Hf. destruct (Hfu f Hf). set_solver.
Qed.

Lemma enqueue_causal w id topic (p : P) at_ :
  flight_causal w ->
  (topic = TopicIncidentEvent -> forall f i k, f ∈ ow_flights w -> ev_Topic (fl_event f) = TopicIncidentEvent ->
     pl_incident (ev_Payload (fl_event f)) = Some i -> pl_incident p = Some i ->
     pl_seq (ev_Payload (fl_event f)) = Some k -> k <= default 0 (pl_seq p)) ->
  flight_causal (written w id (newRow topic p at_) (ow_log w)).
Proof.
  intros Hc Hp f pid pr i k Hf Htop Hi Hk Hpr Hpt Hpi Hlt. cbn [written ow_rows ow_flights] in Hf, Hpr.
  apply lookup_insert_Some in Hpr as [[<- <-]|[_ Hpr]]; [|by eapply Hc].
  cbn in Hpt, Hpi. unfold seqOf in Hlt. cbn in Hlt. specialize (Hp Hpt f i k Hf Htop Hi Hpi Hk). lia.
Qed.

(** ** What one step does to deliveries, rows and the log *)

Lemma casRow_same id g h ob b ob' k r' :
  casRow id g h ob = (b, ob') -> ob' !! k = Some r' ->
  ob !! k = Some r' \/ exists r, k = id /\ ob !! k = Some r /\ g r = true /\ r' = h r.
Proof.
  intros H Hr'. rewrite (casRow_lookup _ _ _ _ _ _ k H) in Hr'.
  destruct (decide (k = id)) as [->|]; [|by left].
  destruct (ob !! id) as [r|]; [|done]. simpl in Hr'. injection Hr' as <-.
  destruct (g r) eqn:Hg; [right; by exists r|by left].
Qed.

(** A delivered row was delivered before, or a flight has just marked it. *)
Lemma delivered_by_mark w w' id r' :
  worker_step w w' -> ow_rows w' !! id = Some r' -> ob_status r' = OutboxDelivered ->
  (exists r, ow_rows w !! id = Some r /\ ob_status r = OutboxDelivered /\
             ob_topic r' = ob_topic r /\ ob_payload r' = ob_payload r) \/
  (exists f r, f ∈ ow_flights w /\ mayMark f /\ ev_ID (fl_event f) = id /\ ow_rows w !! id = Some r /\
               ob_topic r' = ob_topic r /\ ob_payload r' = ob_payload r).
Proof.
  intros Hs Hr' Hd. destruct Hs as
    [w now scan tokens limit events ob' Hcl Hs Hnd Hfr
    |w pre f post Hf Hph|w pre f post Hf Hph
    |w pre f post now b ob' Hf Hm Hcas|w pre f post now err b ob' Hf Hcas|w pre f post now b ob' Hf Hph Hcas
    |w pre f post Hf|w now older n ob' Hp|w now i ob' Hrp|w now n ob' Hrp]; cbn in Hr'.
  - left. apply (claimed_row w now scan tokens limit events ob' Hcl) in Hr' as (r & Hr & [[-> _]|(e & _ & _ & -> & Hp)]).
    + by exists r.
    + apply claimable_pending, pendingStatus_spec in Hp. cbn in Hd. destruct Hp; congruence.
  - left. by exists r'.
  - left. by exists r'.
  - destruct (casRow_same _ _ _ _ _ _ _ _ Hcas Hr') as [Hr|(r & -> & Hr & _ & ->)]; [left; by exists r'|right].
    exists f, r. split_and!; try done. rewrite Hf. apply elem_middle.
  - destruct (casRow_same _ _ _ _ _ _ _ _ Hcas Hr') as [Hr|(r & -> & Hr & _ & ->)]; [left; by exists r'|].
    cbn in Hd. unfold failedStatus in Hd. destruct (_ <=? _); [done|].
    destruct (pendingClass_pending (ob_fenced r)); congruence.
  - destruct (casRow_same _ _ _ _ _ _ _ _ Hcas Hr') as [Hr|(r & -> & Hr & _ & ->)]; left; [by exists r'|by exists r].
  - left. by exists r'.
  - injection Hp as _ <-. apply map_lookup_filter_Some in Hr' as [Hr _]. left. by exists r'.
  - unfold ReplayDeadOutbox in Hrp. destruct (casRow _ _ _ _) as [b ob''] eqn:Hcas. destruct b; [|done].
    injection Hrp as <-. destruct (casRow_same _ _ _ _ _ _ _ _ Hcas Hr') as [Hr|(r & -> & Hr & _ & ->)]; [left; by exists r'|].
    cbn in Hd. destruct (pendingClass_pending (ob_fenced r)); congruence.
  - injection Hrp as _ <-. rewrite lookup_fmap in Hr'.
    destruct (ow_rows w !! id) as [r|] eqn:Hr; [|done]. simpl in Hr'. injection Hr' as <-.
    destruct (isDead r); [|left; by exists r].
    cbn in Hd. destruct (pendingClass_pending (ob_fenced r)); congruence.
Qed.

(** Only a delivered row leaves the table. *)
Lemma removed_delivered w w' id r :
  worker_step w w' -> ow_rows w !! id = Some r -> ob_status r = OutboxDelivered \/ is_Some (ow_rows w' !! id).
Proof.
  intros Hs Hr.
  assert (forall i g h b ob', casRow i g h (ow_rows w) = (b, ob') -> is_Some (ob' !! id)) as Hcas.
  { intros i g h b ob' Hc. rewrite (casRow_lookup _ _ _ _ _ _ id Hc). destruct (decide (id = i)) as [<-|]; rewrite Hr; by eexists. }
  destruct Hs as
    [w now scan tokens limit events ob' Hcl Hs Hnd Hfr
    |w pre f post Hf Hph|w pre f post Hf Hph
    |w pre f post now b ob' Hf Hm Hc|w pre f post now err b ob' Hf Hc|w pre f post now b ob' Hf Hph Hc
    |w pre f post Hf|w now older n ob' Hp|w now i ob' Hrp|w now n ob' Hrp]; cbn; eauto.
  - right. rewrite (claim_lookup _ _ _ _ _ _ _ id Hcl), Hr. destruct (decide _); eauto.
  - injection Hp as _ <-. destruct (purgeable now older r) eqn:Hpg.
    + left. unfold purgeable in Hpg. apply andb_prop in Hpg as [Hd%bool_decide_eq_true _]. done.
    + right. exists r. by apply map_lookup_filter_Some.
  - unfold ReplayDeadOutbox in Hrp. destruct (casRow _ _ _ _) as [b ob''] eqn:Hc. destruct b; [|done].
    injection Hrp as <-. eauto.
  - injection Hrp as _ <-. right. rewrite lookup_fmap, Hr. eauto.
Qed.

(** The log grows by one note of a flight, or stays. *)
Lemma log_step w w' :
  worker_step w w' ->
  (ow_log w' = ow_log w /\ forall f', f' ∈ ow_flights w' -> fl_phase f' = Accepted -> f' ∈ ow_flights w) \/
  (exists f, f ∈ ow_flights w /\
     ow_log w' = ow_log w ++ [NoteBegun (ev_Topic (fl_event f)) (ev_Payload (fl_event f))] /\
     forall f', f' ∈ ow_flights w' -> fl_phase f' = Accepted -> f' ∈ ow_flights w) \/
  (exists f, f ∈ ow_flights w /\
     ow_log w' = ow_log w ++ [NoteAccepted (ev_Topic (fl_event f)) (ev_Payload (fl_event f))] /\
     forall f', f' ∈ ow_flights w' -> fl_phase f' = Accepted -> f' ∈ ow_flights w \/ fl_event f' = fl_event f).
Proof.
  intros Hs. destruct Hs as
    [w now scan tokens limit events ob' Hcl Hs Hnd Hfr
    |w pre f post Hf Hph|w pre f post Hf Hph
    |w pre f post now b ob' Hf Hm Hc|w pre f post now err b ob' Hf Hc|w pre f post now b ob' Hf Hph Hc
    |w pre f post Hf|w now older n ob' Hp|w now i ob' Hrp|w now n ob' Hrp]; cbn;
    try (left; split; [done|]; intros g Hg _; try rewrite Hf; set_solver).
  - left. split; [done|]. intros g [Hg|(e & -> & _)%list_elem_of_fmap]%elem_of_app Ha; [done|discriminate Ha].
  - right; left. exists f. rewrite Hf. split_and!; [apply elem_middle|done|].
    intros g Hg Ha. rewrite elem_of_app, elem_of_cons in Hg. destruct Hg as [Hg|[->|Hg]]; [set_solver|done|set_solver].
  - right; right. exists f. rewrite Hf. split_and!; [apply elem_middle|done|].
    intros g Hg Ha. rewrite elem_of_app, elem_of_cons in Hg. destruct Hg as [Hg|[->|Hg]]; [left; set_solver|by right|left; set_solver].
Qed.

(** Rows and flights keep what they say. *)
Lemma row_origin w w' id r' :
  worker_step w w' -> worker_inv w -> ow_rows w' !! id = Some r' ->
  exists r, ow_rows w !! id = Some r /\ ob_topic r' = ob_topic r /\ ob_payload r' = ob_payload r.
Proof.
  intros Hs Hw Hr'. destruct (worker_step_rows w w' Hs Hw) as
    [(now & scan & tokens & limit & events & ob' & Hcl & _ & _ & _ & ->)|(_ & Hrows & _)].
  - cbn in Hr'. destruct (claimed_row w now scan tokens limit events ob' Hcl id r' Hr') as (r & Hr & Hc).
    exists r. split; [done|]. by destruct Hc as [[-> _]|(? & _ & _ & -> & _)].
  - destruct (Hrows _ _ Hr') as (r & Hr & Hst). exists r. destruct Hst. done.
Qed.

Lemma flight_origin w w' f' :
  worker_step w w' -> worker_inv w -> f' ∈ ow_flights w' ->
  (exists f, f ∈ ow_flights w /\ fl_event f = fl_event f') \/
  (fl_phase f' = InHand /\ exists r, ow_rows w !! ev_ID (fl_event f') = Some r /\
     ob_topic r = ev_Topic (fl_event f') /\ ob_payload r = ev_Payload (fl_event f')).
Proof.
  intros Hs Hw Hf'. destruct (worker_step_rows w w' Hs Hw) as
    [(now & scan & tokens & limit & events & ob' & Hcl & _ & _ & _ & ->)|(_ & _ & Hfl & _)].
  - apply (proj1 (flights_claimed w events ob' f')) in Hf' as [Hf|(e & He & ->)]; [left; by exists f'|right].
    split; [done|]. destruct (claimed_event w now scan tokens limit events ob' Hcl e He) as (r & Hr & Ht & Hp & _).
    by exists r.
  - left. by apply Hfl.
Qed.
End invariants.
