(* ===== verification/OutboxLiveness.v ===== *)
(** * The outbox delivers, and gives up exactly when it says

    [drain] ends, and leaves nothing due undelivered when the deliveries succeed; an event
    whose deliveries all fail is parked dead on the tenth try, turns in which it was not tried
    being free. *)

From S2P Require Import Prelude GoFloat Outbox OutboxFacts.

Section liveness.
Context {P : Type} `{!Payload P}.
Implicit Types (r o : OutboxRow P) (ob : gmap string (OutboxRow P)) (e : OutboxEvent P).

(** ** Leases *)

Lemma backoffLease_bounds n : 0 <= n -> 10 * Second <= backoffLease n <= Hour.
Proof.
  intros Hn. unfold backoffLease. pose proof (Z.pow_pos_nonneg 2 (Z.min n 12)).
  unfold Hour, Minute, Second. lia.
Qed.

(** How late after the claim a turn can come in these arguments. *)
Definition lateBy : Duration := 2 * Hour.

Lemma budget_of now token id r elapsed :
  0 < now -> 0 <= ob_attempts r -> 0 <= elapsed <= lateBy ->
  expired (eventOf now (fun _ => token) (id, r)) elapsed =
    (backoffLease (ob_attempts r) <=? elapsed + leaseHeadroom).
Proof.
  intros Hn Ha He. pose proof (backoffLease_bounds (ob_attempts r) Ha) as Hb.
  unfold lateBy, leaseHeadroom, Hour, Minute, Second in *.
  assert (IsZero (Add now (backoffLease (ob_attempts r))) = false) as Hz1
    by (unfold IsZero, Add; apply Z.eqb_neq; lia).
  assert (IsZero now = false) as Hz2 by (apply Z.eqb_neq; lia).
  unfold expired, deliveryBudget, eventOf. cbn [ev_LeaseUntil ev_ClaimedAt claimedRow ob_next_attempt_at fst snd].
  rewrite Hz1, Hz2. cbn [orb].
  rewrite Sub_exact by (unfold Add, int64_min, int64_max; lia).
  unfold add64 at 2. rewrite wrap64_id by (unfold Add, int64_min, int64_max; lia).
  unfold add64. rewrite wrap64_id by (unfold Add, leaseHeadroom, Second, int64_min, int64_max; lia).
  unfold Add, leaseHeadroom, Second. destruct (Z.leb_spec (now + backoffLease (ob_attempts r) - now + - elapsed + - (2 * 1000000000)) 0),
    (Z.leb_spec (backoffLease (ob_attempts r)) (elapsed + 2 * 1000000000)); lia.
Qed.

(** ** One batch whose deliveries all succeed *)

Definition deliveredRow (now : Time) (token : string) r : OutboxRow P :=
  withStatus now OutboxDelivered "" (claimedRow now token r).

Lemma mark_claimed now id token r ob :
  ob !! id = Some r -> ob_claim_token r = Some token ->
  (MarkOutboxDelivered now id token ob).2 = <[id := withStatus now OutboxDelivered "" r]> ob.
Proof.
  intros Hr Ht. unfold MarkOutboxDelivered, casRow. rewrite Hr. unfold holdsToken. by rewrite bool_decide_true.
Qed.

Lemma mark_all now (tokens : string -> string) outcome events ob k :
  NoDup (map ev_ID events) ->
  (forall e, e ∈ events -> expired e (outcome e).1 = false /\ (outcome e).2 = None /\ ev_ClaimToken e = tokens (ev_ID e) /\
     exists r, ob !! ev_ID e = Some r /\ ob_claim_token r = Some (tokens (ev_ID e))) ->
  foldl (fun acc e => process now (outcome e).1 (outcome e).2 e acc) ob events !! k =
    if decide (k ∈ map ev_ID events) then withStatus now OutboxDelivered "" <$> ob !! k else ob !! k.
Proof.
  revert ob. induction events as [|e events IH]; intros ob Hnd H; cbn [foldl map]; [done|].
  cbn [map] in Hnd. apply list.NoDup_cons in Hnd as [Hni Hnd].
  destruct (H e) as (Hx & Ho & Ht & r & Hr & Hrt); [set_solver|].
  unfold process at 2. rewrite Hx, Ho, Ht, (mark_claimed now _ _ r) by done.
  rewrite IH; [|done|].
  - destruct (decide (k = ev_ID e)) as [->|Hne].
    + rewrite decide_False, decide_True, lookup_insert_eq, Hr by set_solver. done.
    + rewrite lookup_insert_ne by done. destruct (decide (k ∈ map ev_ID events)).
      * by rewrite decide_True by set_solver.
      * by rewrite decide_False by set_solver.
  - intros e' He'. destruct (H e') as (? & ? & ? & r' & Hr' & Hrt'); [set_solver|]. split_and!; [done..|].
    exists r'. rewrite lookup_insert_ne; [done|]. intros Heq. apply Hni. rewrite Heq. by apply (list_elem_of_fmap_2 ev_ID).
Qed.

(** Every delivery returns no error, within seven seconds of its claim: the shortest lease is
    ten, the headroom two. *)
Definition prompt (outcome : OutboxEvent P -> Duration * option string) : Prop :=
  forall e, 0 <= (outcome e).1 <= 7 * Second /\ (outcome e).2 = None.

Definition counted ob : Prop := forall id r, ob !! id = Some r -> 0 <= ob_attempts r.

Lemma batch_lookup now scan tokens outcome limit ob events ob1 k :
  prompt outcome -> 0 < now -> counted ob -> NoDup scan -> ClaimDueOutbox now scan tokens limit ob = (events, ob1) ->
  foldl (fun acc e => process now (outcome e).1 (outcome e).2 e acc) ob1 events !! k =
    if decide (k ∈ map ev_ID events) then deliveredRow now (tokens k) <$> ob !! k else ob !! k.
Proof.
  intros Hs Hnow Hcount Hn Hcl. rewrite (mark_all now tokens).
  - rewrite (claim_lookup _ _ _ _ _ _ _ k Hcl). destruct (decide _); [|done]. by destruct (ob !! k).
  - by eapply claim_ids_nodup.
  - intros e He. destruct (Hs e) as [Hx Ho].
    destruct (claim_event _ _ _ _ _ _ _ e Hcl He) as (r & Hr & Hev & _ & _).
    split_and!; [|done|by rewrite Hev|].
    { rewrite Hev. change (eventOf now tokens (ev_ID e, r)) with (eventOf now (fun _ => tokens (ev_ID e)) (ev_ID e, r)).
      pose proof (Hcount _ _ Hr) as Ha. pose proof (backoffLease_bounds _ Ha).
      assert (0 <= (outcome (eventOf now (fun _ => tokens (ev_ID e)) (ev_ID e, r))).1 <= 7 * Second) as He' by apply Hs.
      rewrite budget_of by (unfold lateBy, Hour, Minute, Second in *; lia).
      apply Z.leb_gt. unfold leaseHeadroom, Second in *. lia. }
    rewrite (claim_lookup _ _ _ _ _ _ _ _ Hcl), decide_True, Hr by (by apply (list_elem_of_fmap_2 ev_ID)).
    by eexists.
Qed.

(** A batch shorter than its limit left nothing due behind. *)
Lemma short_batch_complete now scan tokens limit ob events ob1 id r :
  ClaimDueOutbox now scan tokens limit ob = (events, ob1) -> (length events < limit)%nat ->
  id ∈ scan -> ob !! id = Some r -> due now r = true -> blocked ob id r = false -> id ∈ map ev_ID events.
Proof.
  intros Hcl Hl Hid Hr Hd Hb. injection Hcl as <- _. rewrite length_map in Hl. rewrite map_map.
  rewrite (Permutation_length (merge_sort_Permutation _ _)) in Hl. unfold dueRows in *. rewrite length_firstn in Hl.
  rewrite firstn_all2 by lia. rewrite !merge_sort_Permutation.
  apply list_elem_of_fmap. exists (id, r). split; [done|].
  apply list_elem_of_omap. exists id. split; [done|]. by rewrite Hr, Hd, Hb.
Qed.

(** Deliveries of others never block. *)
Lemma blocked_after ob ob' id r :
  (forall k x', ob' !! k = Some x' -> ob_status x' = OutboxDelivered \/ ob !! k = Some x') ->
  blocked ob id r = false -> blocked ob' id r = false.
Proof.
  intros Hk. rewrite !blocked_false. intros Hb pid pr Hp Hpre.
  destruct (Hk pid pr Hp) as [Hd|Ho]; [done|by eapply Hb].
Qed.

(** ** The drain *)

Definition undelivered ob : gset string := dom (base.filter (fun kv => claimable kv.2 = true) ob).

Lemma elem_of_undelivered ob id : id ∈ undelivered ob <-> exists r, ob !! id = Some r /\ claimable r = true.
Proof.
  unfold undelivered. rewrite elem_of_dom. split.
  - intros [r Hr]. apply map_lookup_filter_Some in Hr as [Hr Hc]. by exists r.
  - intros (r & Hr & Hc). exists r. by apply map_lookup_filter_Some.
Qed.

Lemma deliveredRow_claimable now token r : claimable (deliveredRow now token r) = false.
Proof. done. Qed.

(** C30: when the deliveries succeed within their leases, [drain] ends, after at most one batch per
    undelivered row and one more, and every event that was due and not waiting for an earlier
    event of its incident is delivered. *)
Theorem drain_delivers_what_is_due fuel turn tokens outcome n ob :
  prompt outcome -> counted ob ->
  (forall m, 0 < (turn m).1 /\ NoDup (turn m).2 /\ forall id, id ∈ dom ob -> id ∈ (turn m).2) ->
  (forall m m', (m <= m')%nat -> (turn m).1 <= (turn m').1) ->
  (size (undelivered ob) < fuel)%nat ->
  exists ob', drain fuel turn tokens outcome n ob = Some ob' /\ dom ob' = dom ob /\
    (forall id r, ob !! id = Some r -> due (turn n).1 r = true -> blocked ob id r = false ->
       exists r', ob' !! id = Some r' /\ ob_status r' = OutboxDelivered /\ ob_payload r' = ob_payload r) /\
    (forall id r, ob !! id = Some r -> ob_status r = OutboxDelivered -> ob' !! id = Some r).
Proof.
  intros Hs Hcount Hscan Hmono. revert n ob Hcount Hscan.
  induction fuel as [|fuel IH]; intros n ob Hcount Hscan Hf; [lia|].
  cbn [drain]. destruct (turn n) as [now scan] eqn:Htn.
  destruct (Hscan n) as (Hnow & Hnd & Hall). rewrite Htn in Hnow, Hnd, Hall. cbn in Hnow, Hnd, Hall.
  destruct (ClaimDueOutbox now scan (tokens n) batchLimit ob) as [events ob1] eqn:Hcl.
  set (ob2 := foldl _ ob1 events).
  assert (forall k, ob2 !! k = if decide (k ∈ map ev_ID events) then deliveredRow now (tokens n k) <$> ob !! k else ob !! k) as Hob2
    by (intros k; by eapply batch_lookup).
  assert (dom ob2 = dom ob) as Hdom.
  { apply set_eq. intros k. rewrite !elem_of_dom, Hob2. destruct (decide _); [|done]. by rewrite fmap_is_Some. }
  assert (forall id r, ob !! id = Some r -> id ∈ map ev_ID events ->
            exists r', ob2 !! id = Some r' /\ ob_status r' = OutboxDelivered /\ ob_payload r' = ob_payload r) as Hdone.
  { intros id r Hr Hin. rewrite Hob2, decide_True, Hr by done. by eexists. }
  assert (forall id r, ob !! id = Some r -> ob_status r = OutboxDelivered -> ob2 !! id = Some r) as Hkeep.
  { intros id r Hr Hd. rewrite Hob2. destruct (decide _) as [Hin|]; [|done].
    apply list_elem_of_fmap in Hin as (e & -> & He).
    destruct (claim_event _ _ _ _ _ _ _ e Hcl He) as (r0 & Hr0 & _ & Hdue & _). rewrite Hr in Hr0. injection Hr0 as <-.
    apply andb_prop in Hdue as [Hc%claimable_pending%pendingStatus_spec _]. destruct Hc; congruence. }
  destruct (Nat.ltb_spec (length events) batchLimit) as [Hshort|Hfull].
  - exists ob2. split_and!; [done|done| |done].
    intros id r Hr Hd Hb. apply Hdone; [done|]. eapply short_batch_complete; eauto. apply Hall. by apply elem_of_dom_2 in Hr.
  - destruct (IH (S n) ob2) as (ob' & Hdr & Hdom' & Hdue' & Hkeep').
    + intros k x. rewrite Hob2. destruct (decide _); [|by apply Hcount].
      destruct (ob !! k) as [y|] eqn:Hy; [|done]. simpl. intros [= <-]. cbn. specialize (Hcount k y Hy). lia.
    + intros m. rewrite Hdom. apply Hscan.
    + destruct events as [|e events']; [cbn in Hfull; unfold batchLimit in Hfull; lia|].
      enough (undelivered ob2 ⊂ undelivered ob) as Hsub by (apply subset_size in Hsub; lia).
      destruct (claim_event _ _ _ _ _ _ _ e Hcl) as (r0 & Hr0 & _ & Hdue & _); [set_solver|].
      split.
      * intros k (r & Hr & Hc)%elem_of_undelivered. apply elem_of_undelivered. rewrite Hob2 in Hr.
        destruct (decide _); [|by exists r]. destruct (ob !! k) as [x|]; [|done]. simpl in Hr. injection Hr as <-. done.
      * intros Hsub. assert (ev_ID e ∈ undelivered ob2) as (r & Hr & Hc)%elem_of_undelivered.
        { apply Hsub, elem_of_undelivered. exists r0. split; [done|]. by apply andb_prop in Hdue as [? _]. }
        rewrite Hob2, decide_True, Hr0 in Hr by set_solver. simpl in Hr. by injection Hr as <-.
    + exists ob'. split_and!; [done|congruence| |].
      * intros id r Hr Hd Hb. destruct (decide (id ∈ map ev_ID events)) as [Hin|Hni].
        { destruct (Hdone id r Hr Hin) as (r' & Hr' & Hst & Hp). exists r'. split_and!; [by apply Hkeep'|done|done]. }
        apply Hdue'; [by rewrite Hob2, decide_False| |].
        { unfold due in *. apply andb_prop in Hd as [Hc Hle%Z.leb_le]. rewrite Hc. apply Z.leb_le.
          pose proof (Hmono n (S n) ltac:(lia)) as Hm. rewrite Htn in Hm. cbn in Hm, Hle. lia. }
        { eapply blocked_after, Hb. intros k x'. rewrite Hob2. destruct (decide _); [|by right].
          destruct (ob !! k); [|done]. simpl. intros [= <-]. by left. }
      * intros id r Hr Hd. apply Hkeep'; [by apply Hkeep|done].
Qed.

(** ** Retries of one event *)

(** A turn of a worker with one event: the delivery was tried and failed, or its turn in the
    batch came after the lease. *)
Inductive Turn := Tried (err : string) | OutOfTime.

Definition tried (t : Turn) : bool := match t with Tried _ => true | OutOfTime => false end.

(** The event is claimed alone, [wait] after it becomes due, and processed. *)
Definition takeTurn (id token : string) (wait : Duration) (t : Turn) ob : gmap string (OutboxRow P) :=
  match ob !! id with
  | None => ob
  | Some r =>
    let now := Add (ob_next_attempt_at r) wait in
    let '(events, ob1) := ClaimDueOutbox now [id] (fun _ => token) batchLimit ob in
    foldl (fun acc e => match t with
                        | Tried err => process now 0 (Some err) e acc
                        | OutOfTime => process now lateBy None e acc
                        end) ob1 events
  end.

Definition takeTurns (id : string) (ts : list (string * Duration * Turn)) ob : gmap string (OutboxRow P) :=
  foldl (fun acc x => takeTurn id x.1.1 x.1.2 x.2 acc) ob ts.

Definition triesOf (ts : list (string * Duration * Turn)) : Z := count (fun x => tried x.2) ts.

(** A row waiting after [n] failed tries. *)
Definition waiting (n : Z) r : Prop :=
  claimable r = true /\ ob_topic r <> TopicIncidentEvent /\ ob_status r = pendingClass (ob_fenced r) /\
  ob_attempts r = n /\ 0 < ob_next_attempt_at r.

Lemma not_incident_unblocked ob id r : ob_topic r <> TopicIncidentEvent -> blocked ob id r = false.
Proof.
  intros Ht. apply blocked_false. intros pid pr _ Hp. unfold precedes in Hp.
  rewrite (bool_decide_false (ob_topic r = _)) in Hp by done. rewrite andb_false_r in Hp. done.
Qed.

Lemma claim_single now token ob id r limit :
  (0 < limit)%nat -> ob !! id = Some r -> due now r = true -> blocked ob id r = false ->
  ClaimDueOutbox now [id] (fun _ => token) limit ob =
    ([eventOf now (fun _ => token) (id, r)], <[id := claimedRow now token r]> ob).
Proof.
  intros Hl Hr Hd Hb. unfold ClaimDueOutbox, dueRows. cbn [omap list_omap]. rewrite Hr, Hd, Hb.
  destruct limit; [lia|]. destruct limit; reflexivity.
Qed.

Lemma takeTurn_waiting id token wait t ob r n :
  ob !! id = Some r -> waiting n r -> 0 <= n < maxAttempts -> 0 <= wait ->
  exists r', takeTurn id token wait t ob !! id = Some r' /\
    let n' := n + Z.b2z (tried t) in
    if n' =? maxAttempts then ob_status r' = OutboxDead /\ ob_attempts r' = maxAttempts else waiting n' r'.
Proof.
  intros Hr (Hc & Htop & Hst & Ha & Hnx) Hn Hw. unfold takeTurn. rewrite Hr.
  set (now := Add _ wait). assert (0 < now) as Hnow by (unfold now, Add; lia).
  assert (due now r = true) as Hdue by (unfold due; rewrite Hc; apply Z.leb_le; unfold now, Add; lia).
  rewrite (claim_single now token ob id r) by (unfold batchLimit; first [lia|done|by apply not_incident_unblocked]).
  cbn [foldl]. pose proof (backoffLease_bounds (ob_attempts r) ltac:(lia)) as Hb.
  destruct t as [err|]; unfold process; rewrite budget_of by (unfold lateBy, Hour, Minute, Second; lia);
    cbn [tried Z.b2z].
  - rewrite (proj2 (Z.leb_gt _ _)) by (unfold leaseHeadroom, Second in *; lia).
    unfold FailOutbox, casRow. rewrite lookup_insert_eq. unfold holdsToken. rewrite bool_decide_true by done. cbn [snd].
    rewrite lookup_insert_eq. eexists. split; [done|].
    destruct (Z.eqb_spec (n + 1) maxAttempts) as [He|Hne].
    + split; cbn; [|lia]. unfold failedStatus. cbn. by rewrite Ha, He, Z.leb_refl.
    + assert (failedStatus maxAttempts (claimedRow now token r) = pendingClass (ob_fenced r)) as ->.
      { unfold failedStatus. cbn. by rewrite (proj2 (Z.leb_gt _ _)) by lia. }
      split_and!; cbn; [|done|done|lia|unfold Add, Second in *; lia].
      unfold claimable in *. cbn. by rewrite <- Hst.
  - rewrite (proj2 (Z.leb_le _ _)) by (unfold lateBy, leaseHeadroom, Hour, Minute, Second in *; lia).
    unfold ReleaseOutboxClaim, casRow. rewrite lookup_insert_eq. unfold holdsToken. rewrite bool_decide_true by done.
    assert (pendingStatus (claimedRow now token r) = true) as -> by (by apply claimable_pending).
    cbn [andb snd]. rewrite lookup_insert_eq. eexists. split; [done|].
    rewrite (proj2 (Z.eqb_neq _ _)) by lia. split_and!; cbn; try done. lia.
Qed.

Lemma takeTurn_dead id token wait t ob r :
  ob !! id = Some r -> ob_status r = OutboxDead -> takeTurn id token wait t ob !! id = Some r.
Proof.
  intros Hr Hd. unfold takeTurn. rewrite Hr. unfold ClaimDueOutbox, dueRows. cbn [omap list_omap]. rewrite Hr.
  unfold due, claimable. rewrite Hd. cbn. done.
Qed.

End liveness.

(** ** Concrete queues *)

#[local] Instance unit_payload : Payload unit := { pl_incident _ := None; pl_seq _ := None }.

Definition demoQueue : gmap string (OutboxRow unit) :=
  <["a" := newRow TopicMonitorTransition tt 100]> (<["b" := newRow TopicServiceAlert tt 90]> ∅).

Lemma demoQueue_counted : counted demoQueue.
Proof.
  intros id r. unfold demoQueue. intros [[_ <-]|[_ Hr]]%lookup_insert_Some; [cbn; lia|].
  apply lookup_insert_Some in Hr as [[_ <-]|[_ Hr]]; [cbn; lia|by rewrite lookup_empty in Hr].
Qed.

Lemma drain_delivers_what_is_due_witness :
  exists ob', drain 3 (fun _ => (1000, ["a"; "b"])) (fun _ id => id) (fun _ => (Second, None)) 0 demoQueue = Some ob' /\
    (exists r', ob' !! "a" = Some r' /\ ob_status r' = OutboxDelivered) /\
    (exists r', ob' !! "b" = Some r' /\ ob_status r' = OutboxDelivered).
Proof.
  destruct (drain_delivers_what_is_due 3 (fun _ => (1000, ["a"; "b"])) (fun _ id => id) (fun _ => (Second, None)) 0 demoQueue)
    as (ob' & Hd & _ & Hall & _).
  - intros e. cbn. unfold Second. split; [lia|done].
  - exact demoQueue_counted.
  - intros m. cbn. split_and!; [lia|repeat constructor; set_solver|]. unfold demoQueue. intros id. rewrite !dom_insert. set_solver.
  - intros m m' _. cbn. lia.
  - vm_compute. repeat constructor.
  - exists ob'. split; [exact Hd|]. split.
    + destruct (Hall "a" (newRow TopicMonitorTransition tt 100)) as (r' & Hr' & Hs & _); [done|done|vm_compute; reflexivity|].
      by exists r'.
    + destruct (Hall "b" (newRow TopicServiceAlert tt 90)) as (r' & Hr' & Hs & _); [done|done|vm_compute; reflexivity|].
      by exists r'.
Defined.

Definition elevenTurns : list (string * Duration * Turn) :=
  ("t", 0, OutOfTime) :: repeat ("t", 5, Tried "refused") 10.

