(* ===== verification/Sla.v ===== *)
(** * SLO arithmetic and burn rules
    ([internal/sla/sla.go], [internal/domain/sla.go], [internal/domain/serviceburn.go])

    The rolling windows, the uptime/burn/budget formulas over [float64], the validation of
    burn rules and objectives, and the HOLD matrix of one burn rule. *)

From stdpp Require Import pretty.
From S2P Require Import Prelude ServicePolicy GoFloat.

(** ** Windows *)
Record Window := { win_Name : string; win_Duration : Duration }.

Definition StandardWindows : list Window :=
  [ {| win_Name := "24h"; win_Duration := 24 * Hour |};
    {| win_Name := "7d"; win_Duration := 7 * 24 * Hour |};
    {| win_Name := "30d"; win_Duration := 30 * 24 * Hour |};
    {| win_Name := "90d"; win_Duration := 90 * 24 * Hour |} ].

Definition WindowByName (name : string) : option Window :=
  List.find (fun w => bool_decide (win_Name w = name)) StandardWindows.

(** ** Indicators *)
Definition Uptime (up total : Z) : float64 :=
  if total <=? 0 then fofZ 0
  else fmul (fdiv (fofZ up) (fofZ total)) (fofZ 100).

Definition BurnRate (objective : float64) (up total : Z) : float64 :=
  let allowed := fsub (fofZ 1) (fdiv objective (fofZ 100)) in
  if fle allowed (fofZ 0) || (total <=? 0) then fofZ 0
  else
    let bad := fsub (fofZ 1) (fdiv (fofZ up) (fofZ total)) in
    fdiv bad allowed.

Record Budget := {
  bg_Objective : float64;
  bg_AllowedDowntimeRatio : float64;
  bg_ActualDowntimeRatio : float64;
  bg_RemainingRatio : float64;
  bg_BurnedPercent : float64;
  bg_Met : bool;
}.

Definition ErrorBudget (objective : float64) (up total : Z) : Budget :=
  let allowed := fsub (fofZ 1) (fdiv objective (fofZ 100)) in
  let uptime := Uptime up total in
  let actual := if total <=? 0 then fofZ 0 else fsub (fofZ 1) (fdiv uptime (fofZ 100)) in
  {| bg_Objective := objective;
     bg_AllowedDowntimeRatio := allowed;
     bg_ActualDowntimeRatio := actual;
     bg_RemainingRatio := fsub allowed actual;
     bg_BurnedPercent := if fgt allowed (fofZ 0) then fmul (fdiv actual allowed) (fofZ 100) else fofZ 0;
     bg_Met := (0 <? total) && fge uptime objective |}.

(** ** Burn rules *)
Definition BurnSeverityPage : string := "page".
Definition BurnSeverityTicket : string := "ticket".

Record BurnRule := {
  LongWindowSeconds : Z;
  ShortWindowSeconds : Z;
  Threshold : float64;
  Severity : string;
  Firing : bool;
}.

Definition DefaultBurnRules : list BurnRule :=
  [ {| LongWindowSeconds := 3600; ShortWindowSeconds := 300; Threshold := flit 144 10;
       Severity := BurnSeverityPage; Firing := false |};
    {| LongWindowSeconds := 21600; ShortWindowSeconds := 1800; Threshold := fofZ 6;
       Severity := BurnSeverityTicket; Firing := false |} ].

(** The refusals; rules are numbered from 1. *)
Inductive BurnRuleError :=
| TooManyRules
| UnknownSeverity (i : Z)
| ThresholdNotFinite (i : Z)
| ThresholdNotPositive (i : Z)
| ShortWindowTooShort (i : Z)
| LongWindowNotLonger (i : Z)
| LongWindowTooLong (i : Z)
| DuplicateRule (i first : Z)
| ServiceShortWindowTooShort (i floor : Z).

Section rules.
(** [strconv.FormatFloat(x, 'g', -1, 64)]: the shortest text that parses back to [x]. *)
Context (FormatFloat : float64 -> string).

Definition Key (r : BurnRule) : string :=
  Severity r +:+ "/" +:+ pretty (LongWindowSeconds r) +:+ "/"
  +:+ pretty (ShortWindowSeconds r) +:+ "/" +:+ FormatFloat (Threshold r).

Definition validateRule (i : Z) (r : BurnRule) : result BurnRuleError unit :=
  let! _ := refuse_if (negb (bool_decide (Severity r = BurnSeverityPage))
                       && negb (bool_decide (Severity r = BurnSeverityTicket)))
              (UnknownSeverity i) in
  let! _ := refuse_if (IsNaN (Threshold r) || IsInf (Threshold r)) (ThresholdNotFinite i) in
  let! _ := refuse_if (fle (Threshold r) (fofZ 0)) (ThresholdNotPositive i) in
  let! _ := refuse_if (ShortWindowSeconds r <? 60) (ShortWindowTooShort i) in
  let! _ := refuse_if (LongWindowSeconds r <=? ShortWindowSeconds r) (LongWindowNotLonger i) in
  refuse_if (7 * 24 * 3600 <? LongWindowSeconds r) (LongWindowTooLong i).

Fixpoint validateEach (check : Z -> BurnRule -> result BurnRuleError unit) (i : Z)
    (rules : list BurnRule) : result BurnRuleError unit :=
  match rules with
  | [] => Ok tt
  | r :: rest => let! _ := check i r in validateEach check (i + 1) rest
  end.

(** The duplicate scan; [seen] maps a key to the index (from 0) it was first met at. *)
Fixpoint findDuplicate (seen : gmap string Z) (i : Z) (rules : list BurnRule)
    : result BurnRuleError unit :=
  match rules with
  | [] => Ok tt
  | r :: rest =>
    match seen !! Key r with
    | Some first => Err (DuplicateRule (i + 1) (first + 1))
    | None => findDuplicate (<[Key r := i]> seen) (i + 1) rest
    end
  end.

Definition ValidateBurnRules (rules : list BurnRule) : result BurnRuleError unit :=
  let! _ := refuse_if (4 <? Z.of_nat (length rules)) TooManyRules in
  let! _ := validateEach validateRule 1 rules in
  findDuplicate ∅ 0 rules.

Definition ValidateServiceBurnRules (rules : list BurnRule) : result BurnRuleError unit :=
  let! _ := ValidateBurnRules rules in
  let floor := MinSealLag / Second in
  validateEach (fun i r => refuse_if (ShortWindowSeconds r <? floor)
                             (ServiceShortWindowTooShort i floor)) 1 rules.
End rules.

(** ** Objectives *)
Inductive ObjectiveError := ObjectiveOutOfRange | ObjectiveRoundsOutOfRange.

Definition CanonicalObjective (v : float64) : result ObjectiveError float64 :=
  if IsNaN v || fle v (fofZ 0) || fge v (fofZ 100) then Err ObjectiveOutOfRange
  else
    let canonical := fdiv (Round (fmul v (fofZ 10000))) (fofZ 10000) in
    if fle canonical (fofZ 0) || fge canonical (fofZ 100) then Err ObjectiveRoundsOutOfRange
    else Ok canonical.

(** ** Report vocabulary ([internal/domain/servicereport.go]) *)
Inductive ServiceReportStatus :=
| ReportOK | ReportPartial | ReportUnavailable | ReportInsufficientHistory | ReportInsufficientSealed
| ReportOther (s : string).

(** The reason strings; [NoReason] is the empty string. *)
Inductive ReportReason :=
| NoReason | ReasonNoSLI | ReasonNothingSealed | ReasonEraShort | ReasonStorageGap
| ReasonZeroDecidable | ReasonLowCoverage | ReasonSpansRevisions | ReasonNoObjective
| ReasonStaleWatermark | ReasonNothingMeasured.

#[global] Instance ServiceReportStatus_eq_dec : EqDecision ServiceReportStatus.
Proof. solve_decision. Defined.
#[global] Instance ReportReason_eq_dec : EqDecision ReportReason.
Proof. solve_decision. Defined.

Record ServiceBurnWindow := {
  bw_Window : string;
  bw_Status : ServiceReportStatus;
  bw_Reason : ReportReason;
  bw_ExpectedBuckets : Z;
  bw_SealedBuckets : Z;
  bw_StorageContinuity : bool;
  bw_Coverage : float64;
  bw_Rate : option float64;
}.

(** ** The HOLD matrix *)
Inductive BurnVerdict := BurnFire | BurnClear | BurnHold.
#[global] Instance BurnVerdict_eq_dec : EqDecision BurnVerdict.
Proof. solve_decision. Defined.

Record BurnRuleDecision := {
  brd_Verdict : BurnVerdict;
  brd_Firing : bool;
  brd_HoldReason : ReportReason;
  brd_Edge : bool;
}.

(** [Status == ok] and a rate. *)
Definition burnQuotable (w : ServiceBurnWindow) : option float64 :=
  if bool_decide (bw_Status w = ReportOK) then bw_Rate w else None.

Definition burnHold (w : ServiceBurnWindow) (firing : bool) : BurnRuleDecision :=
  {| brd_Verdict := BurnHold; brd_Firing := firing;
     brd_HoldReason := if bool_decide (bw_Reason w = NoReason) then ReasonNothingMeasured
                       else bw_Reason w;
     brd_Edge := false |}.

Definition DecideBurnRule (long short : ServiceBurnWindow) (threshold : float64) (firing : bool)
    : BurnRuleDecision :=
  match burnQuotable long with
  | None => burnHold long firing
  | Some longRate =>
    match burnQuotable short with
    | None => burnHold short firing
    | Some shortRate =>
      let level := fge longRate threshold && fge shortRate threshold in
      {| brd_Verdict := if level then BurnFire else BurnClear;
         brd_Firing := level; brd_HoldReason := NoReason;
         brd_Edge := negb (Bool.eqb level firing) |}
    end
  end.

(** ** Burn-rule validation *)

(** What an accepted rule satisfies. *)
Record rule_wf (r : BurnRule) : Prop := {
  rw_severity : Severity r = BurnSeverityPage \/ Severity r = BurnSeverityTicket;
  rw_finite : IsNaN (Threshold r) = false /\ IsInf (Threshold r) = false;
  rw_positive : fle (Threshold r) (fofZ 0) = false;
  rw_windows : 60 <= ShortWindowSeconds r < LongWindowSeconds r;
  rw_long : LongWindowSeconds r <= 604800;
}.

Lemma validateRule_Ok i r : validateRule i r = Ok tt <-> rule_wf r.
Proof.
  unfold validateRule. rewrite !rbind_unit_Ok, !refuse_if_Ok, andb_false_iff, orb_false_iff.
  rewrite !negb_false_iff, !bool_decide_eq_true.
  rewrite !Z.ltb_ge, Z.leb_gt. split.
  - intros (Hs & Hf & Hp & H1 & H2 & H3). split; (done || lia).
  - intros [Hs [Hf1 Hf2] Hp H1 H2]. split_and!; (done || lia).
Qed.

Lemma validateEach_Ok (check : Z -> BurnRule -> result BurnRuleError unit) (P : BurnRule -> Prop) :
  (forall i r, check i r = Ok tt <-> P r) ->
  forall rules i, validateEach check i rules = Ok tt <-> Forall P rules.
Proof.
  intros Hc rules. induction rules as [|r rules IH]; intros i; cbn.
  - split; [constructor|done].
  - rewrite rbind_unit_Ok, Hc, IH, list.Forall_cons. done.
Qed.

Lemma findDuplicate_Ok FormatFloat rules : forall seen i,
  findDuplicate FormatFloat seen i rules = Ok tt <->
  NoDup (map (Key FormatFloat) rules) /\ Forall (fun r => seen !! Key FormatFloat r = None) rules.
Proof.
  induction rules as [|r rules IH]; intros seen i; cbn.
  - split; [split; [apply NoDup_nil_2|constructor]|done].
  - rewrite list.NoDup_cons, list.Forall_cons. destruct (seen !! Key FormatFloat r) eqn:E.
    + split; [done|]. intros (_ & H & _). done.
    + rewrite IH. rewrite !list.Forall_forall. setoid_rewrite lookup_insert_None. split.
      * intros (Hnd & Hall). split_and!; [|done|done|].
        -- intros (r' & Hk & Hr')%list_elem_of_fmap. destruct (Hall r' Hr'). done.
        -- intros r' Hr'. by apply Hall.
      * intros ((Hni & Hnd) & _ & Hall). split; [done|]. intros r' Hr'. split; [by apply Hall|].
        intros Hk. apply Hni, list_elem_of_fmap. eauto.
Qed.

(** [ValidateServiceBurnRules] accepts exactly the rule sets the evaluator can run: at
    most four rules, each with a known severity, a finite positive threshold, windows of
    1 minute <= short < long <= 7 days with the short one at least the sealing lag (300 s),
    and pairwise distinct keys, so that no latch is shared by two rules. *)
Theorem ValidateServiceBurnRules_iff FormatFloat rules :
  ValidateServiceBurnRules FormatFloat rules = Ok tt <->
  (length rules <= 4)%nat /\
  Forall (fun r => rule_wf r /\ 300 <= ShortWindowSeconds r) rules /\
  NoDup (map (Key FormatFloat) rules).
Proof.
  unfold ValidateServiceBurnRules, ValidateBurnRules.
  rewrite !rbind_unit_Ok, refuse_if_Ok, Z.ltb_ge.
  rewrite (validateEach_Ok _ _ validateRule_Ok), findDuplicate_Ok.
  rewrite (validateEach_Ok _ (fun r => 300 <= ShortWindowSeconds r)).
  2:{ intros i r. rewrite refuse_if_Ok. apply Z.ltb_ge. }
  rewrite list.Forall_and. split.
  - intros ((Hl & Hw & Hnd & _) & Hs). split_and!; (done || lia).
  - intros (Hl & (Hw & Hs) & Hnd). split_and!; try (done || lia).
    apply list.Forall_true. intros r. apply lookup_empty.
Qed.

(** ** The latch of one rule over a history of evaluations *)
Record evaluation := {
  ev_long : ServiceBurnWindow;
  ev_short : ServiceBurnWindow;
}.

(** Successive evaluations of a rule, the latch threaded through; the decisions in order
    and the final level. *)
Fixpoint runRule (threshold : float64) (firing : bool) (evs : list evaluation)
    : list BurnRuleDecision * bool :=
  match evs with
  | [] => ([], firing)
  | e :: rest =>
    let d := DecideBurnRule (ev_long e) (ev_short e) threshold firing in
    let '(ds, f) := runRule threshold (brd_Firing d) rest in
    (d :: ds, f)
  end.

(** What one evaluation says about the level, when both windows may be quoted. *)
Definition quotedLevel (threshold : float64) (e : evaluation) : option bool :=
  match burnQuotable (ev_long e), burnQuotable (ev_short e) with
  | Some l, Some s => Some (fge l threshold && fge s threshold)
  | _, _ => None
  end.

Definition lastQuoted (threshold : float64) (firing : bool) (evs : list evaluation) : bool :=
  foldl (fun f e => default f (quotedLevel threshold e)) firing evs.

Lemma DecideBurnRule_quoted e threshold firing :
  let d := DecideBurnRule (ev_long e) (ev_short e) threshold firing in
  brd_Firing d = default firing (quotedLevel threshold e) /\
  (brd_Verdict d = BurnHold <-> quotedLevel threshold e = None) /\
  (brd_Verdict d = BurnHold <-> brd_HoldReason d <> NoReason) /\
  brd_Edge d = negb (Bool.eqb (brd_Firing d) firing).
Proof.
  unfold DecideBurnRule, quotedLevel, burnHold.
  destruct (burnQuotable (ev_long e)) as [l|]; [destruct (burnQuotable (ev_short e)) as [s|]|]; cbn.
  - destruct (fge l threshold && fge s threshold), firing; cbn; split_and!; done.
  - split_and!; try done; [by case_bool_decide|by destruct firing].
  - split_and!; try done; [by case_bool_decide|by destruct firing].
Qed.

(** The levels announced by the edges of a run. *)
Definition edges (ds : list BurnRuleDecision) : list bool :=
  map brd_Firing (List.filter brd_Edge ds).

Fixpoint alternates (last : bool) (l : list bool) : Prop :=
  match l with
  | [] => True
  | b :: rest => b = negb last /\ alternates b rest
  end.

(** the burn latch over any history of evaluations: the level is the one the last
    quotable evaluation decided (the initial level when none was quotable), so a window
    that may not be quoted never resolves or raises an alert; the announced edges strictly
    alternate starting from the initial level and lead to the final one; and every HOLD
    carries a reason and announces nothing. *)
Theorem burn_latch_history threshold firing evs :
  let '(ds, final) := runRule threshold firing evs in
  final = lastQuoted threshold firing evs /\
  alternates firing (edges ds) /\
  final = default firing (list.last (edges ds)) /\
  Forall (fun d => brd_Verdict d = BurnHold -> brd_HoldReason d <> NoReason /\ brd_Edge d = false) ds.
Proof.
  revert firing. induction evs as [|e evs IH]; intros firing; [cbn; done|].
  cbn [runRule lastQuoted foldl].
  pose proof (DecideBurnRule_quoted e threshold firing) as (Hf & Hh & Hr & He).
  set (d := DecideBurnRule _ _ _ _) in *. cbv zeta in *.
  specialize (IH (brd_Firing d)). destruct (runRule threshold (brd_Firing d) evs) as [ds f].
  destruct IH as (IH1 & IH2 & IH3 & IH4). split_and!.
  - rewrite IH1, Hf. done.
  - unfold edges in *. cbn [List.filter]. rewrite He.
    destruct (brd_Firing d) eqn:Ed, firing; cbn in *; rewrite ?Ed; done.
  - unfold edges in *. cbn [List.filter]. rewrite He. rewrite IH3.
    destruct (brd_Firing d) eqn:Ed, firing; cbn [Bool.eqb negb map]; try done;
      rewrite Ed, last_cons; destruct (list.last _); done.
  - constructor; [|done]. intros Hv. split; [by apply Hr|].
    rewrite He, Hf, (proj1 Hh Hv). cbn. by destruct firing.
Qed.
