(* ===== verification/Report.v ===== *)
(** * The reliability report
    ([internal/store/servicereport.go], [internal/store/serviceburnmath.go],
     [internal/store/gateallwindowsreport.go], [internal/domain/servicereport.go])

    The withholding rule ([decideServiceWindow]), the burn windows ([decideBurnWindow]) and
    the two report paths over one database snapshot: the single-window report and the
    batched all-windows report of the gate.  The rows a snapshot holds are the state of the
    model; the grouping the SQL performs is written out. *)

From S2P Require Import Prelude ServicePolicy GoFloat Sla.

(** ** Data *)
Record ReliabilityDurations := {
  GoodUs : Z; BadUs : Z; UnknownUs : Z; ExcludedUs : Z;
  HealthyUs : Z; DegradedUs : Z; DownUs : Z; HealthUnknownUs : Z;
}.

Definition noDurations : ReliabilityDurations :=
  {| GoodUs := 0; BadUs := 0; UnknownUs := 0; ExcludedUs := 0;
     HealthyUs := 0; DegradedUs := 0; DownUs := 0; HealthUnknownUs := 0 |}.

Definition addDurations (a b : ReliabilityDurations) : ReliabilityDurations :=
  {| GoodUs := add64 (GoodUs a) (GoodUs b); BadUs := add64 (BadUs a) (BadUs b);
     UnknownUs := add64 (UnknownUs a) (UnknownUs b); ExcludedUs := add64 (ExcludedUs a) (ExcludedUs b);
     HealthyUs := add64 (HealthyUs a) (HealthyUs b); DegradedUs := add64 (DegradedUs a) (DegradedUs b);
     DownUs := add64 (DownUs a) (DownUs b);
     HealthUnknownUs := add64 (HealthUnknownUs a) (HealthUnknownUs b) |}.

Definition availabilityPercent (d : ReliabilityDurations) : option float64 :=
  let measured := add64 (GoodUs d) (BadUs d) in
  if measured <=? 0 then None
  else Some (fmul (fdiv (fofZ (GoodUs d)) (fofZ measured)) (fofZ 100)).

Definition decidableCoverage (d : ReliabilityDurations) : float64 :=
  let total := add64 (add64 (GoodUs d) (BadUs d)) (UnknownUs d) in
  if total <=? 0 then fofZ 0
  else fdiv (fofZ (add64 (GoodUs d) (BadUs d))) (fofZ total).

Definition minDecidableCoverage : float64 := flit 95 100.

(** ** The withholding rule *)
Record serviceWindowVerdict := {
  v_Status : ServiceReportStatus;
  v_Reason : ReportReason;
  v_AggregateWithheld : ReportReason;
  v_Availability : option float64;
}.

Definition decideServiceWindow (d : ReliabilityDurations) (sealedBuckets expectedBuckets revisions : Z)
    (from era : Time) : serviceWindowVerdict :=
  let continuity := sealedBuckets =? expectedBuckets in
  let coverage := decidableCoverage d in
  let measured := add64 (GoodUs d) (BadUs d) in
  let '(status, reason) :=
    if Before from era then (ReportInsufficientHistory, ReasonEraShort)
    else if negb continuity then (ReportPartial, ReasonStorageGap)
    else if measured =? 0 then (ReportUnavailable, ReasonZeroDecidable)
    else if flt coverage minDecidableCoverage then (ReportPartial, ReasonLowCoverage)
    else (ReportOK, NoReason) in
  let withheld := if 1 <? revisions then ReasonSpansRevisions else NoReason in
  let quotable := (revisions =? 1) && continuity && (0 <? measured)
    && (bool_decide (status = ReportOK)
        || (bool_decide (status = ReportPartial) && bool_decide (reason = ReasonLowCoverage))) in
  {| v_Status := status; v_Reason := reason; v_AggregateWithheld := withheld;
     v_Availability := if quotable then availabilityPercent d else None |}.

(** ** Burn windows *)
Record burnWindowRequest := {
  bq_serviceID : string;
  bq_projectID : string;
  bq_label : string;
  bq_duration : Duration;
  bq_objective : float64;
  bq_era : Time;
  bq_sealed : Time;
}.

Record burnWindowAggregate := {
  ba_sealedBuckets : Z;
  ba_revisions : Z;
  ba_d : ReliabilityDurations;
}.

Definition decideBurnWindow (r : burnWindowRequest) (a : burnWindowAggregate) (asOf : Time)
    : ServiceBurnWindow :=
  let expected := Z.quot (bq_duration r) CanonicalBucket in
  let from := Add (bq_sealed r) (- bq_duration r) in
  let continuity := ba_sealedBuckets a =? expected in
  let coverage := decidableCoverage (ba_d a) in
  let measured := add64 (GoodUs (ba_d a)) (BadUs (ba_d a)) in
  let '(status, reason, rate) :=
    if negb (After (bq_sealed r) (Add asOf (- bq_duration r)))
    then (ReportInsufficientSealed, ReasonStaleWatermark, None)
    else if Before from (bq_era r) then (ReportInsufficientHistory, ReasonEraShort, None)
    else if negb continuity then (ReportPartial, ReasonStorageGap, None)
    else if 1 <? ba_revisions a then (ReportUnavailable, ReasonSpansRevisions, None)
    else if measured =? 0 then (ReportUnavailable, ReasonZeroDecidable, None)
    else
      let rate := BurnRate (bq_objective r) (GoodUs (ba_d a)) measured in
      if flt coverage minDecidableCoverage then (ReportPartial, ReasonLowCoverage, Some rate)
      else (ReportOK, NoReason, Some rate) in
  {| bw_Window := bq_label r; bw_Status := status; bw_Reason := reason;
     bw_ExpectedBuckets := expected; bw_SealedBuckets := ba_sealedBuckets a;
     bw_StorageContinuity := continuity; bw_Coverage := coverage; bw_Rate := rate |}.

(** ** The rows of a snapshot *)

(** One row of [service_reliability_buckets], joined with its epoch and revision. *)
Record BucketRow := {
  bk_start : Time;
  bk_sealed : bool;
  bk_epochID : string;
  bk_epochSeq : Z;
  bk_revisionID : string;
  bk_revision : Z;
  bk_d : ReliabilityDurations;
}.

(** The [service_materialization] row. *)
Record Materialization := {
  mat_era : Time;
  mat_sealed : option Time;
  mat_retractedAt : option Time;
  mat_retractedTo : option Time;
}.

Record RepairingInterval := { ri_From : Time; ri_To : Time }.

(** Everything the two report paths read of one service, in one snapshot: the watermark
    row, whether the service is in the project, its number of sli references, the target
    per window (objective, updated_at), its bucket rows, the effective revision 1 (created
    and effective instants), and its pending or running repair ranges by start. *)
Record ReportRows := {
  rr_materialization : option Materialization;
  rr_owned : bool;
  rr_sliMembers : Z;
  rr_target : string -> option (float64 * Time);
  rr_buckets : list BucketRow;
  rr_revision1 : option (Time * Time);
  rr_repairs : list RepairingInterval;
}.

(** ** Aggregation queries *)
Record factSums := {
  fs_epochID : string;
  fs_epochSeq : Z;
  fs_revisionID : string;
  fs_revision : Z;
  fs_reconPart : bool;
  fs_buckets : Z;
  fs_minBucket : Time;
  fs_maxBucket : Time;
  fs_d : ReliabilityDurations;
}.

Definition reconBoundary (rows : ReportRows) : option Time :=
  match rr_revision1 rows with
  | Some (createdAt, effectiveAt) =>
    if Before effectiveAt createdAt then Some (CeilToBucket createdAt) else None
  | None => None
  end.

Definition inRange (from to : Time) (b : BucketRow) : bool :=
  bk_sealed b && (from <=? bk_start b) && (bk_start b <? to).

Definition isRecon (boundary : option Time) (b : BucketRow) : bool :=
  match boundary with
  | Some t => (bk_revision b =? 1) && (bk_start b <? t)
  | None => false
  end.

Definition sqlSum (a b : ReliabilityDurations) : ReliabilityDurations :=
  {| GoodUs := GoodUs a + GoodUs b; BadUs := BadUs a + BadUs b;
     UnknownUs := UnknownUs a + UnknownUs b; ExcludedUs := ExcludedUs a + ExcludedUs b;
     HealthyUs := HealthyUs a + HealthyUs b; DegradedUs := DegradedUs a + DegradedUs b;
     DownUs := DownUs a + DownUs b; HealthUnknownUs := HealthUnknownUs a + HealthUnknownUs b |}.

(** [GROUP BY epoch, revision, recon]: add a row to its group. *)
Definition sameGroup (boundary : option Time) (b : BucketRow) (g : factSums) : bool :=
  bool_decide (fs_epochID g = bk_epochID b) && (fs_epochSeq g =? bk_epochSeq b)
  && bool_decide (fs_revisionID g = bk_revisionID b) && (fs_revision g =? bk_revision b)
  && Bool.eqb (fs_reconPart g) (isRecon boundary b).

Definition newGroup (boundary : option Time) (b : BucketRow) : factSums :=
  {| fs_epochID := bk_epochID b; fs_epochSeq := bk_epochSeq b; fs_revisionID := bk_revisionID b;
     fs_revision := bk_revision b; fs_reconPart := isRecon boundary b; fs_buckets := 1;
     fs_minBucket := bk_start b; fs_maxBucket := bk_start b; fs_d := bk_d b |}.

Definition addToGroup (b : BucketRow) (g : factSums) : factSums :=
  {| fs_epochID := fs_epochID g; fs_epochSeq := fs_epochSeq g; fs_revisionID := fs_revisionID g;
     fs_revision := fs_revision g; fs_reconPart := fs_reconPart g; fs_buckets := fs_buckets g + 1;
     fs_minBucket := Z.min (fs_minBucket g) (bk_start b);
     fs_maxBucket := Z.max (fs_maxBucket g) (bk_start b); fs_d := sqlSum (fs_d g) (bk_d b) |}.

Fixpoint groupRow (boundary : option Time) (groups : list factSums) (b : BucketRow) : list factSums :=
  match groups with
  | [] => [newGroup boundary b]
  | g :: rest =>
    if sameGroup boundary b g then addToGroup b g :: rest else g :: groupRow boundary rest b
  end.

Definition seg_le (g1 g2 : factSums) : Prop := fs_minBucket g1 <= fs_minBucket g2.

#[global] Instance seg_le_dec g1 g2 : Decision (seg_le g1 g2).
Proof. unfold seg_le. apply _. Defined.

(** [reportSegments]: the sealed rows of [from, to) grouped, ordered by first bucket. *)
Definition reportSegments (rows : ReportRows) (from to : Time) : list factSums :=
  merge_sort seg_le
    (foldl (groupRow (reconBoundary rows)) [] (List.filter (inRange from to) (rr_buckets rows))).

(** The lateral aggregate of [computeBurnWindows] for one request. *)
Definition burnAggregate (rows : ReportRows) (r : burnWindowRequest) : burnWindowAggregate :=
  let bs := List.filter (inRange (Add (bq_sealed r) (- bq_duration r)) (bq_sealed r)) (rr_buckets rows) in
  let d := foldl sqlSum noDurations (map bk_d bs) in
  {| ba_sealedBuckets := Z.of_nat (length bs);
     ba_revisions := Z.of_nat (size (list_to_set (map bk_revisionID bs) : gset string));
     ba_d := {| GoodUs := GoodUs d; BadUs := BadUs d; UnknownUs := UnknownUs d; ExcludedUs := 0;
                HealthyUs := 0; DegradedUs := 0; DownUs := 0; HealthUnknownUs := 0 |} |}.

Definition computeBurnWindows (rows : ReportRows) (reqs : list burnWindowRequest) (asOf : Time)
    : list ServiceBurnWindow :=
  map (fun r => decideBurnWindow r (burnAggregate rows r) asOf) reqs.

Definition serviceBurnWindows : list Window :=
  [ {| win_Name := "1h"; win_Duration := Hour |}; {| win_Name := "6h"; win_Duration := 6 * Hour |} ].

(** The repair query: the pending or running ranges that meet [from, to), by start. *)
Definition repairRanges (rows : ReportRows) (from to : Time) : list RepairingInterval :=
  List.filter (fun iv => (from <? ri_To iv) && (ri_From iv <? to)) (rr_repairs rows).

Definition clipInterval (from to : Time) (iv : RepairingInterval) : RepairingInterval :=
  {| ri_From := if Before (ri_From iv) from then from else ri_From iv;
     ri_To := if After (ri_To iv) to then to else ri_To iv |}.

(** ** The report *)
Record ReliabilitySegment := {
  sg_RevisionID : string;
  sg_Revision : Z;
  sg_EpochID : string;
  sg_EpochSeq : Z;
  sg_From : Time;
  sg_To : Time;
  sg_Buckets : Z;
  sg_Durations : ReliabilityDurations;
  sg_Availability : option float64;
  sg_Coverage : float64;
  sg_DeclaredReconstruction : bool;
}.

Record ServiceBudget := {
  sb_Objective : float64;
  sb_ObjectiveUpdatedAt : Time;
  sb_AllowedDowntimeRatio : float64;
  sb_ActualDowntimeRatio : float64;
  sb_RemainingRatio : float64;
  sb_BurnedPercent : float64;
  sb_Met : bool;
}.

Record ServiceWindowReport := {
  rep_ServiceID : string;
  rep_Window : string;
  rep_AsOf : Time;
  rep_SealedThrough : option Time;
  rep_From : Time;
  rep_To : Time;
  rep_Status : ServiceReportStatus;
  rep_Reason : ReportReason;
  rep_StorageContinuity : bool;
  rep_ExpectedBuckets : Z;
  rep_SealedBuckets : Z;
  rep_Coverage : float64;
  rep_Durations : ReliabilityDurations;
  rep_Availability : option float64;
  rep_AggregateWithheld : ReportReason;
  rep_Objective : option float64;
  rep_ObjectiveUpdatedAt : option Time;
  rep_Budget : option ServiceBudget;
  rep_Burn : list ServiceBurnWindow;
  rep_Segments : list ReliabilitySegment;
  rep_Repairing : list RepairingInterval;
  rep_RetractedAt : option Time;
  rep_RetractedTo : option Time;
}.

Definition SealLag (r : ServiceWindowReport) : option Duration :=
  match rep_SealedThrough r with
  | None => None
  | Some sealed => Some (Sub (rep_AsOf r) sealed)
  end.

Definition segmentOf (seg : factSums) : ReliabilitySegment :=
  {| sg_RevisionID := fs_revisionID seg; sg_Revision := fs_revision seg;
     sg_EpochID := fs_epochID seg; sg_EpochSeq := fs_epochSeq seg;
     sg_From := fs_minBucket seg; sg_To := Add (fs_maxBucket seg) CanonicalBucket;
     sg_Buckets := fs_buckets seg; sg_Durations := fs_d seg;
     sg_Availability := availabilityPercent (fs_d seg); sg_Coverage := decidableCoverage (fs_d seg);
     sg_DeclaredReconstruction := fs_reconPart seg |}.

(** The segment loop: sealed buckets, durations, distinct revisions, segments. *)
Definition addSegment (acc : Z * ReliabilityDurations * gset string * list ReliabilitySegment)
    (seg : factSums) : Z * ReliabilityDurations * gset string * list ReliabilitySegment :=
  let '(sealedBuckets, durations, revisions, segments) := acc in
  (add64 sealedBuckets (fs_buckets seg), addDurations durations (fs_d seg),
   {[fs_revisionID seg]} ∪ revisions, segments ++ [segmentOf seg]).

Definition sumSegments (segs : list factSums)
    : Z * ReliabilityDurations * gset string * list ReliabilitySegment :=
  foldl addSegment (0, noDurations, ∅, []) segs.

Definition budgetOf (objective : float64) (updatedAt : Time) (d : ReliabilityDurations) : ServiceBudget :=
  let measured := add64 (GoodUs d) (BadUs d) in
  let b := ErrorBudget objective (GoodUs d) measured in
  {| sb_Objective := bg_Objective b; sb_ObjectiveUpdatedAt := updatedAt;
     sb_AllowedDowntimeRatio := bg_AllowedDowntimeRatio b;
     sb_ActualDowntimeRatio := bg_ActualDowntimeRatio b;
     sb_RemainingRatio := bg_RemainingRatio b; sb_BurnedPercent := bg_BurnedPercent b;
     sb_Met := bg_Met b |}.

(** A report with no facts. *)
Definition emptyReport (serviceID window : string) (asOf : Time) (status : ServiceReportStatus)
    (reason : ReportReason) (objective : option (float64 * Time))
    (retractedAt retractedTo : option Time) : ServiceWindowReport :=
  {| rep_ServiceID := serviceID; rep_Window := window; rep_AsOf := asOf;
     rep_SealedThrough := None; rep_From := 0; rep_To := 0;
     rep_Status := status; rep_Reason := reason;
     rep_StorageContinuity := false; rep_ExpectedBuckets := 0; rep_SealedBuckets := 0;
     rep_Coverage := fofZ 0; rep_Durations := noDurations; rep_Availability := None;
     rep_AggregateWithheld := NoReason;
     rep_Objective := fst <$> objective; rep_ObjectiveUpdatedAt := snd <$> objective;
     rep_Budget := None; rep_Burn := []; rep_Segments := []; rep_Repairing := [];
     rep_RetractedAt := retractedAt; rep_RetractedTo := retractedTo |}.

Definition burnRequests (projectID serviceID : string) (objective : float64) (era sealed : Time)
    : list burnWindowRequest :=
  map (fun w => {| bq_serviceID := serviceID; bq_projectID := projectID; bq_label := win_Name w;
                   bq_duration := win_Duration w; bq_objective := objective;
                   bq_era := era; bq_sealed := sealed |}) serviceBurnWindows.

Inductive ReportError := ReportNotFound | NotAnSLAWindow (name : string).

(** [serviceReliabilityReportTx] on the rows of its snapshot. *)
Definition serviceReliabilityReportTx (rows : ReportRows) (projectID serviceID : string)
    (window : Window) (asOf : Time) : result ReportError ServiceWindowReport :=
  match rr_materialization rows with
  | None =>
    if negb (rr_owned rows) then Err ReportNotFound
    else if rr_sliMembers rows =? 0
    then Ok (emptyReport serviceID (win_Name window) asOf ReportUnavailable ReasonNoSLI None None None)
    else Ok (emptyReport serviceID (win_Name window) asOf ReportInsufficientSealed ReasonNothingSealed
               None None None)
  | Some mat =>
    let target := rr_target rows (win_Name window) in
    match mat_sealed mat with
    | None =>
      Ok (emptyReport serviceID (win_Name window) asOf ReportInsufficientSealed ReasonNothingSealed
            target (mat_retractedAt mat) (mat_retractedTo mat))
    | Some sealed =>
      let from := Add sealed (- win_Duration window) in
      let expected := Z.quot (win_Duration window) CanonicalBucket in
      let '(sealedBuckets, durations, revisions, segments) :=
        sumSegments (reportSegments rows from sealed) in
      let verdict := decideServiceWindow durations sealedBuckets expected
                       (Z.of_nat (size revisions)) from (mat_era mat) in
      let '(budget, burn) :=
        match target with
        | None => (None, [])
        | Some (objective, objectiveAt) =>
          (match v_Availability verdict with
           | Some _ => Some (budgetOf objective objectiveAt durations)
           | None => None
           end,
           computeBurnWindows rows (burnRequests projectID serviceID objective (mat_era mat) sealed) asOf)
        end in
      Ok {| rep_ServiceID := serviceID; rep_Window := win_Name window; rep_AsOf := asOf;
            rep_SealedThrough := Some sealed; rep_From := from; rep_To := sealed;
            rep_Status := v_Status verdict; rep_Reason := v_Reason verdict;
            rep_StorageContinuity := sealedBuckets =? expected;
            rep_ExpectedBuckets := expected; rep_SealedBuckets := sealedBuckets;
            rep_Coverage := decidableCoverage durations; rep_Durations := durations;
            rep_Availability := v_Availability verdict;
            rep_AggregateWithheld := v_AggregateWithheld verdict;
            rep_Objective := fst <$> target; rep_ObjectiveUpdatedAt := snd <$> target;
            rep_Budget := budget; rep_Burn := burn; rep_Segments := segments;
            rep_Repairing := map (clipInterval from sealed) (repairRanges rows from sealed);
            rep_RetractedAt := mat_retractedAt mat; rep_RetractedTo := mat_retractedTo mat |}
    end
  end.

(** ** The all-windows path of the gate *)

(** The part of a target row the reports read. *)
Record windowTarget := {
  wt_window : string;
  wt_objective : float64;
  wt_objectiveUpdatedAt : Time;
}.

(** [populateGateWindowReport] on a report whose window, bounds and objective are set. *)
Definition populateGateWindowReport (rep : ServiceWindowReport) (objective : float64)
    (objectiveAt : Time) (segs : list factSums) (era : Time) : ServiceWindowReport :=
  let '(sealedBuckets, durations, revisions, segments) := sumSegments segs in
  let verdict := decideServiceWindow durations sealedBuckets (rep_ExpectedBuckets rep)
                   (Z.of_nat (size revisions)) (rep_From rep) era in
  {| rep_ServiceID := rep_ServiceID rep; rep_Window := rep_Window rep; rep_AsOf := rep_AsOf rep;
     rep_SealedThrough := rep_SealedThrough rep; rep_From := rep_From rep; rep_To := rep_To rep;
     rep_Status := v_Status verdict; rep_Reason := v_Reason verdict;
     rep_StorageContinuity := sealedBuckets =? rep_ExpectedBuckets rep;
     rep_ExpectedBuckets := rep_ExpectedBuckets rep; rep_SealedBuckets := sealedBuckets;
     rep_Coverage := decidableCoverage durations; rep_Durations := durations;
     rep_Availability := v_Availability verdict; rep_AggregateWithheld := v_AggregateWithheld verdict;
     rep_Objective := rep_Objective rep; rep_ObjectiveUpdatedAt := rep_ObjectiveUpdatedAt rep;
     rep_Budget := match v_Availability verdict with
                   | None => None
                   | Some _ => Some (budgetOf objective objectiveAt durations)
                   end;
     rep_Burn := rep_Burn rep; rep_Segments := segments; rep_Repairing := rep_Repairing rep;
     rep_RetractedAt := rep_RetractedAt rep; rep_RetractedTo := rep_RetractedTo rep |}.

(** The report of one target once the watermark is known, with its burn windows. *)
Definition gateWindowReport (rows : ReportRows) (projectID serviceID : string) (mat : Materialization)
    (sealed asOf : Time) (w : Window) (tgt : windowTarget) : ServiceWindowReport :=
  let from := Add sealed (- win_Duration w) in
  let rep0 :=
    {| rep_ServiceID := serviceID; rep_Window := wt_window tgt; rep_AsOf := asOf;
       rep_SealedThrough := Some sealed; rep_From := from; rep_To := sealed;
       rep_Status := ReportOther ""; rep_Reason := NoReason; rep_StorageContinuity := false;
       rep_ExpectedBuckets := Z.quot (win_Duration w) CanonicalBucket; rep_SealedBuckets := 0;
       rep_Coverage := fofZ 0; rep_Durations := noDurations; rep_Availability := None;
       rep_AggregateWithheld := NoReason; rep_Objective := Some (wt_objective tgt);
       rep_ObjectiveUpdatedAt := Some (wt_objectiveUpdatedAt tgt); rep_Budget := None;
       rep_Burn := computeBurnWindows rows
         (burnRequests projectID serviceID (wt_objective tgt) (mat_era mat) sealed) asOf;
       rep_Segments := []; rep_Repairing := [];
       rep_RetractedAt := mat_retractedAt mat; rep_RetractedTo := mat_retractedTo mat |} in
  populateGateWindowReport rep0 (wt_objective tgt) (wt_objectiveUpdatedAt tgt)
    (reportSegments rows from sealed) (mat_era mat).

Fixpoint mapResult {A B} (f : A -> result ReportError B) (l : list A) : result ReportError (list B) :=
  match l with
  | [] => Ok []
  | x :: rest => let! y := f x in let! ys := mapResult f rest in Ok (y :: ys)
  end.

(** [gateAllWindowRepairingTx]: one query over the union of the windows, then the ranges
    that meet each report's own window, clipped to it. *)
Definition setRepairing (rep : ServiceWindowReport) (ivs : list RepairingInterval)
    : ServiceWindowReport :=
  {| rep_ServiceID := rep_ServiceID rep; rep_Window := rep_Window rep; rep_AsOf := rep_AsOf rep;
     rep_SealedThrough := rep_SealedThrough rep; rep_From := rep_From rep; rep_To := rep_To rep;
     rep_Status := rep_Status rep; rep_Reason := rep_Reason rep;
     rep_StorageContinuity := rep_StorageContinuity rep;
     rep_ExpectedBuckets := rep_ExpectedBuckets rep; rep_SealedBuckets := rep_SealedBuckets rep;
     rep_Coverage := rep_Coverage rep; rep_Durations := rep_Durations rep;
     rep_Availability := rep_Availability rep; rep_AggregateWithheld := rep_AggregateWithheld rep;
     rep_Objective := rep_Objective rep; rep_ObjectiveUpdatedAt := rep_ObjectiveUpdatedAt rep;
     rep_Budget := rep_Budget rep; rep_Burn := rep_Burn rep; rep_Segments := rep_Segments rep;
     rep_Repairing := rep_Repairing rep ++ ivs;
     rep_RetractedAt := rep_RetractedAt rep; rep_RetractedTo := rep_RetractedTo rep |}.

Definition gateAllWindowRepairing (rows : ReportRows) (reports : list ServiceWindowReport)
    : list ServiceWindowReport :=
  match reports with
  | [] => []
  | rep0 :: rest =>
    let from := foldl (fun t r => if Before (rep_From r) t then rep_From r else t) (rep_From rep0) rest in
    let to := foldl (fun t r => if After (rep_To r) t then rep_To r else t) (rep_To rep0) rest in
    let intervals := repairRanges rows from to in
    map (fun rep =>
      setRepairing rep
        (map (clipInterval (rep_From rep) (rep_To rep))
          (List.filter (fun iv => negb (negb (After (ri_To iv) (rep_From rep))
                                        || negb (Before (ri_From iv) (rep_To rep)))) intervals)))
      reports
  end.

Definition gateAllWindowReportsTx (rows : ReportRows) (projectID serviceID : string)
    (targets : list windowTarget) (asOf : Time) : result ReportError (list ServiceWindowReport) :=
  let empty tgt := emptyReport serviceID (wt_window tgt) asOf ReportInsufficientSealed
                     ReasonNothingSealed (Some (wt_objective tgt, wt_objectiveUpdatedAt tgt)) None None in
  match targets with
  | [] => Ok []
  | _ =>
    match rr_materialization rows with
    | None => Ok (map empty targets)
    | Some mat =>
      match mat_sealed mat with
      | None => Ok (map empty targets)
      | Some sealed =>
        let! reports := mapResult (fun tgt =>
          match WindowByName (wt_window tgt) with
          | None => Err (NotAnSLAWindow (wt_window tgt))
          | Some w => Ok (gateWindowReport rows projectID serviceID mat sealed asOf w tgt)
          end) targets in
        Ok (gateAllWindowRepairing rows reports)
      end
    end
  end.

(** ** The two paths agree *)

Lemma mapResult_Ok {A B} (f : A -> result ReportError B) (g : A -> B) l :
  (forall x, x ∈ l -> f x = Ok (g x)) -> mapResult f l = Ok (map g l).
Proof.
  induction l as [|x l IH]; intros H; cbn; [done|].
  rewrite (H x), IH by set_solver. done.
Qed.

Lemma foldl_min_bound (f : ServiceWindowReport -> Time) l t0 :
  let m := foldl (fun t r => if Before (f r) t then f r else t) t0 l in
  m <= t0 /\ forall r, r ∈ l -> m <= f r.
Proof.
  revert t0. induction l as [|r l IH]; intros t0; cbn; [split; [lia|set_solver]|].
  destruct (IH (if Before (f r) t0 then f r else t0)) as [H1 H2]. unfold Before in *.
  destruct (Z.ltb_spec (f r) t0); (split; [lia|]); intros x [->|Hx]%elem_of_cons; auto; lia.
Qed.

Lemma foldl_max_bound (f : ServiceWindowReport -> Time) l t0 :
  let m := foldl (fun t r => if After (f r) t then f r else t) t0 l in
  t0 <= m /\ forall r, r ∈ l -> f r <= m.
Proof.
  revert t0. induction l as [|r l IH]; intros t0; cbn; [split; [lia|set_solver]|].
  destruct (IH (if After (f r) t0 then f r else t0)) as [H1 H2]. unfold After in *.
  destruct (Z.ltb_spec t0 (f r)); (split; [lia|]); intros x [->|Hx]%elem_of_cons; auto; lia.
Qed.

Lemma filter_filter_sub {A} (P Q : A -> bool) l :
  (forall x, P x = true -> Q x = true) -> List.filter P (List.filter Q l) = List.filter P l.
Proof.
  intros H. induction l as [|x l IH]; [done|]. cbn. destruct (Q x) eqn:EQ; cbn.
  - by rewrite IH.
  - destruct (P x) eqn:EP; [|done]. rewrite (H x EP) in EQ. done.
Qed.

Lemma filter_ext_b {A} (P Q : A -> bool) l :
  (forall x, P x = Q x) -> List.filter P l = List.filter Q l.
Proof. intros H. induction l as [|x l IH]; cbn; [done|]. by rewrite H, IH. Qed.

(** Querying the union of the windows once and filtering per window loses nothing. *)
Lemma gateAllWindowRepairing_each rows reports :
  gateAllWindowRepairing rows reports
  = map (fun rep => setRepairing rep (map (clipInterval (rep_From rep) (rep_To rep))
                                        (repairRanges rows (rep_From rep) (rep_To rep)))) reports.
Proof.
  unfold gateAllWindowRepairing. destruct reports as [|rep0 rest]; [done|].
  destruct (foldl_min_bound rep_From rest (rep_From rep0)) as [Hf0 Hf].
  destruct (foldl_max_bound rep_To rest (rep_To rep0)) as [Ht0 Ht]. cbv zeta in *.
  set (from := foldl _ (rep_From rep0) rest) in *. set (to := foldl _ (rep_To rep0) rest) in *.
  apply map_ext_in. intros rep Hin%list_elem_of_In. f_equal. f_equal. unfold repairRanges.
  rewrite filter_filter_sub.
  - apply filter_ext_b. intros iv. unfold Before, After. by rewrite negb_orb, !negb_involutive.
  - intros iv. unfold Before, After. rewrite negb_orb, !negb_involutive, !andb_true_iff, !Z.ltb_lt.
    assert (from <= rep_From rep /\ rep_To rep <= to).
    { apply elem_of_cons in Hin as [->|Hin]; [lia|]. auto. }
    lia.
Qed.

Lemma WindowByName_name name w : WindowByName name = Some w -> win_Name w = name.
Proof.
  unfold WindowByName. intros [_ H]%List.find_some. by apply bool_decide_eq_true in H.
Qed.

(** equivalence of the batched report with the reference one: over one snapshot in
    which the service has a sealed watermark, the all-windows path returns, for every
    target of the inventory, exactly the report the single-window path returns for that
    window, field for field (status, budget, burn windows, segments, repair ranges), so
    the all-windows gate can not read another number than the service page shows. *)
Theorem all_windows_report_equivalent rows projectID serviceID targets asOf mat sealed
  (Hmat : rr_materialization rows = Some mat) (Hsealed : mat_sealed mat = Some sealed)
  (Htargets : Forall (fun tgt => is_Some (WindowByName (wt_window tgt)) /\
     rr_target rows (wt_window tgt) = Some (wt_objective tgt, wt_objectiveUpdatedAt tgt)) targets) :
  exists reports,
    gateAllWindowReportsTx rows projectID serviceID targets asOf = Ok reports /\
    Forall2 (fun tgt rep => exists w, WindowByName (wt_window tgt) = Some w /\
               serviceReliabilityReportTx rows projectID serviceID w asOf = Ok rep) targets reports.
Proof.
  unfold gateAllWindowReportsTx. destruct targets as [|t0 targets0].
  { exists []. split; [done|constructor]. }
  set (targets := t0 :: targets0) in *. clearbody targets.
  rewrite Hmat, Hsealed, (mapResult_Ok _ (fun tgt =>
    gateWindowReport rows projectID serviceID mat sealed asOf
      (default {| win_Name := ""; win_Duration := 0 |} (WindowByName (wt_window tgt))) tgt)).
  2:{ rewrite list.Forall_forall in Htargets. intros tgt [[w Hw] _]%Htargets. by rewrite Hw. }
  eexists. split; [reflexivity|]. rewrite gateAllWindowRepairing_each, map_map.
  apply Forall2_fmap_r, Forall_Forall2_diag. eapply list.Forall_impl; [exact Htargets|].
  intros tgt [[w Hw] Htgt]. exists w. split; [done|]. rewrite Hw. cbn [default].
  unfold serviceReliabilityReportTx. rewrite Hmat, Hsealed, (WindowByName_name _ _ Hw), Htgt.
  unfold gateWindowReport, populateGateWindowReport.
  destruct (sumSegments _) as [[[n d] revs] segs]. reflexivity.
Qed.

(** ** Totals of the sealed facts *)

Definition rangeRows (rows : ReportRows) (from to : Time) : list BucketRow :=
  List.filter (inRange from to) (rr_buckets rows).

Lemma elem_of_rangeRows rows from to b :
  b ∈ rangeRows rows from to <-> b ∈ rr_buckets rows /\ inRange from to b = true.
Proof. apply elem_of_filter_b. Qed.

Lemma groupRow_sums boundary gs b (f : ReliabilityDurations -> Z) :
  (forall x y, f (sqlSum x y) = f x + f y) ->
  sumOf fs_buckets (groupRow boundary gs b) = sumOf fs_buckets gs + 1 /\
  sumOf (fun g => f (fs_d g)) (groupRow boundary gs b) = sumOf (fun g => f (fs_d g)) gs + f (bk_d b).
Proof.
  intros Hf. induction gs as [|g gs [IH1 IH2]]; cbn [groupRow]; [cbn; lia|].
  destruct (sameGroup boundary b g); rewrite !sumOf_cons.
  - cbn [addToGroup fs_buckets fs_d]. rewrite Hf. lia.
  - rewrite IH1, IH2. lia.
Qed.

Lemma groupRow_revisions boundary gs b :
  (list_to_set (map fs_revisionID (groupRow boundary gs b)) : gset string)
  = list_to_set (map fs_revisionID gs) ∪ {[bk_revisionID b]}.
Proof.
  induction gs as [|g gs IH]; cbn [groupRow]; [cbn; set_solver|].
  destruct (sameGroup boundary b g) eqn:E; cbn [map list_to_set].
  - cbn [addToGroup fs_revisionID]. unfold sameGroup in E. bool_facts.
    match goal with H : bool_decide (fs_revisionID g = _) = true |- _ =>
      apply bool_decide_eq_true in H; rewrite H end. set_solver.
  - rewrite IH. set_solver.
Qed.

Lemma reportSegments_sums rows from to (f : ReliabilityDurations -> Z) :
  (forall x y, f (sqlSum x y) = f x + f y) ->
  sumOf fs_buckets (reportSegments rows from to) = Z.of_nat (length (rangeRows rows from to)) /\
  sumOf (fun g => f (fs_d g)) (reportSegments rows from to)
  = sumOf (fun b => f (bk_d b)) (rangeRows rows from to) /\
  (list_to_set (map fs_revisionID (reportSegments rows from to)) : gset string)
  = list_to_set (map bk_revisionID (rangeRows rows from to)).
Proof.
  intros Hf. unfold reportSegments. fold (rangeRows rows from to).
  set (gs := foldl _ [] _).
  rewrite !(sumOf_Permutation _ _ _ (merge_sort_Permutation seg_le gs)).
  assert ((list_to_set (map fs_revisionID (merge_sort seg_le gs)) : gset string)
          = list_to_set (map fs_revisionID gs)) as ->.
  { apply list_to_set_perm_L. apply Permutation_map, merge_sort_Permutation. }
  unfold gs. clear gs.
  induction (rangeRows rows from to) as [|b bs IH] using rev_ind; [cbn; done|].
  rewrite foldl_app. cbn [foldl]. destruct IH as (IH1 & IH2 & IH3).
  set (gs := foldl _ [] bs) in *.
  destruct (groupRow_sums (reconBoundary rows) gs b f Hf) as [-> ->].
  rewrite groupRow_revisions, IH1, IH2, IH3, length_app, map_app, list_to_set_app_L.
  assert (sumOf (fun b => f (bk_d b)) (bs ++ [b]) = sumOf (fun b => f (bk_d b)) bs + f (bk_d b)) as ->.
  { rewrite (sumOf_Permutation _ (bs ++ [b]) (b :: bs)) by (by rewrite Permutation_app_comm).
    rewrite sumOf_cons. lia. }
  cbn. split_and!; [lia|lia|set_solver].
Qed.

(** The loop over the segments adds the same totals, wrapping at 64 bits. *)
Lemma sumSegments_eq segs :
  let '(n, d, revs, out) := sumSegments segs in
  n = wrap64 (sumOf fs_buckets segs) /\
  GoodUs d = wrap64 (sumOf (fun g => GoodUs (fs_d g)) segs) /\
  BadUs d = wrap64 (sumOf (fun g => BadUs (fs_d g)) segs) /\
  UnknownUs d = wrap64 (sumOf (fun g => UnknownUs (fs_d g)) segs) /\
  revs = list_to_set (map fs_revisionID segs) /\ out = map segmentOf segs.
Proof.
  unfold sumSegments. induction segs as [|g segs IH] using rev_ind; [cbn; done|].
  rewrite foldl_app. cbn [foldl]. destruct (foldl addSegment _ segs) as [[[n d] revs] out].
  destruct IH as (-> & Hg & Hb & Hu & -> & ->). cbn [addSegment addDurations GoodUs BadUs UnknownUs].
  rewrite Hg, Hb, Hu, !add64_wrap_l.
  assert (forall f, sumOf f (segs ++ [g]) = sumOf f segs + f g) as Hs.
  { intros f. rewrite (sumOf_Permutation _ (segs ++ [g]) (g :: segs)) by (by rewrite Permutation_app_comm).
    rewrite sumOf_cons. lia. }
  rewrite !Hs, !map_app, list_to_set_app_L. cbn. split_and!; (done || set_solver).
Qed.

(** ** When a number is quoted *)

(** The stored facts: a bucket has at most one row, starts on the canonical grid, and its
    availability bins are non-negative and add up to the bucket, in microseconds. *)
Record rows_wf (rows : ReportRows) : Prop := {
  rwf_unique : NoDup (map bk_start (rr_buckets rows));
  rwf_aligned : Forall (fun b => (CanonicalBucket | bk_start b)) (rr_buckets rows);
  rwf_conserve : Forall (fun b => 0 <= GoodUs (bk_d b) /\ 0 <= BadUs (bk_d b) /\
    0 <= UnknownUs (bk_d b) /\ 0 <= ExcludedUs (bk_d b) /\
    GoodUs (bk_d b) + BadUs (bk_d b) + UnknownUs (bk_d b) + ExcludedUs (bk_d b) = 60000000)
    (rr_buckets rows);
}.

(** The bucket starts of [from, from + n buckets). *)
Definition grid (from : Time) (n : nat) : list Time :=
  map (fun k => from + Z.of_nat k * CanonicalBucket) (seq 0 n).

Lemma grid_NoDup from n : NoDup (grid from n).
Proof.
  apply NoDup_fmap_2_strong; [|apply NoDup_seq].
  intros x y _ _ H. unfold CanonicalBucket, Minute, Second in H. lia.
Qed.

Lemma elem_of_grid from n t :
  (CanonicalBucket | from) ->
  t ∈ grid from n <-> (CanonicalBucket | t) /\ from <= t < from + Z.of_nat n * CanonicalBucket.
Proof.
  intros Hf. unfold grid. rewrite list_elem_of_fmap. setoid_rewrite elem_of_seq.
  assert (0 < CanonicalBucket) as Hpos by done. split.
  - intros (k & -> & Hk). split; [|nia]. apply Z.divide_add_r; [done|]. apply Z.divide_mul_r. done.
  - intros (Ht & Hr). destruct Hf as [a ->], Ht as [b ->].
    exists (Z.to_nat (b - a)). assert (a <= b < a + Z.of_nat n) by nia. split; [|lia].
    rewrite Z2Nat.id by lia. lia.
Qed.

Section quoting.
Context (rows : ReportRows) (from : Time) (n : nat).
Hypothesis Hwf : rows_wf rows.
Hypothesis Hfrom : (CanonicalBucket | from).
Notation to := (from + Z.of_nat n * CanonicalBucket).
Notation bs := (rangeRows rows from to).

Lemma rangeRows_starts :
  NoDup (map bk_start bs) /\ (forall t, t ∈ map bk_start bs -> t ∈ grid from n).
Proof.
  destruct Hwf as [Hu Ha _]. split.
  - unfold rangeRows. revert Hu. generalize (rr_buckets rows) as l.
    induction l as [|b l IH]; cbn; [done|]. intros [Hn Hl]%list.NoDup_cons.
    destruct (inRange _ _ b); cbn; [|by apply IH]. apply list.NoDup_cons. split; [|by apply IH].
    intros (b' & Hb & [Hb' _]%elem_of_filter_b)%list_elem_of_fmap. apply Hn, list_elem_of_fmap. eauto.
  - intros t (b & -> & [Hb Hin]%elem_of_filter_b)%list_elem_of_fmap.
    apply elem_of_grid; [done|]. rewrite list.Forall_forall in Ha. split; [by apply Ha|].
    unfold inRange in Hin. bool_facts. lia.
Qed.

Lemma rangeRows_length : (length bs <= n)%nat.
Proof.
  destruct rangeRows_starts as [Hnd Hsub].
  pose proof (submseteq_length _ _ (NoDup_submseteq _ _ Hnd Hsub)) as H.
  unfold grid in H. by rewrite !length_map, length_seq in H.
Qed.

(** Storage continuity: as many rows as buckets exactly when every bucket is stored. *)
Lemma continuity_iff :
  length bs = n <-> (forall t, (CanonicalBucket | t) -> from <= t < to ->
                     exists b, b ∈ rr_buckets rows /\ bk_sealed b = true /\ bk_start b = t).
Proof.
  destruct rangeRows_starts as [Hnd Hsub]. pose proof rangeRows_length as Hle. split.
  - intros Hl t Ht Hr.
    assert (map bk_start bs ≡ₚ grid from n) as Hp.
    { apply submseteq_length_Permutation; [by apply NoDup_submseteq|].
      unfold grid. rewrite !length_map, length_seq. lia. }
    assert (t ∈ map bk_start bs) as Hin by (rewrite Hp; by apply elem_of_grid).
    apply list_elem_of_fmap in Hin as (b & -> & [Hb Hi]%elem_of_filter_b).
    unfold inRange in Hi. bool_facts. eauto.
  - intros Hall. enough (n <= length bs)%nat by lia.
    assert (grid from n ⊆+ map bk_start bs) as Hs.
    { apply NoDup_submseteq; [apply grid_NoDup|]. intros t [Ht Hr]%elem_of_grid; [|done].
      destruct (Hall t Ht Hr) as (b & Hb & Hse & <-). apply list_elem_of_fmap. exists b.
      split; [done|]. apply elem_of_filter_b. split; [done|]. unfold inRange.
      rewrite Hse. cbn. apply andb_true_iff. rewrite Z.leb_le, Z.ltb_lt. lia. }
    apply submseteq_length in Hs. unfold grid in Hs. by rewrite !length_map, length_seq in Hs.
Qed.

Lemma range_field (f : ReliabilityDurations -> Z) :
  (forall b, b ∈ rr_buckets rows -> 0 <= f (bk_d b) <= 60000000) ->
  0 <= sumOf (fun b => f (bk_d b)) bs <= 60000000 * Z.of_nat n.
Proof.
  intros Hf. pose proof rangeRows_length.
  pose proof (sumOf_bounds (fun b => f (bk_d b)) bs 0 60000000) as Hb.
  assert (forall x, x ∈ bs -> 0 <= f (bk_d x) <= 60000000) as Hx
    by (intros x [Hx _]%elem_of_filter_b; auto).
  specialize (Hb Hx). lia.
Qed.
End quoting.

(** The verdict quotes exactly under storage continuity, one revision, the era and some
    measured time; low decidable coverage keeps the number. *)
Lemma decideServiceWindow_quotes d sealedBuckets expected revisions from era a :
  v_Availability (decideServiceWindow d sealedBuckets expected revisions from era) = Some a <->
  era <= from /\ sealedBuckets = expected /\ revisions = 1 /\ 0 < add64 (GoodUs d) (BadUs d) /\
  a = fmul (fdiv (fofZ (GoodUs d)) (fofZ (add64 (GoodUs d) (BadUs d)))) (fofZ 100).
Proof.
  unfold decideServiceWindow, availabilityPercent, Before. set (m := add64 _ _).
  destruct (Z.ltb_spec from era) as [He|He]; cbn.
  { split; [|lia]. rewrite andb_false_r. done. }
  destruct (Z.eqb_spec sealedBuckets expected) as [Hc|Hc]; cbn.
  2:{ rewrite andb_false_r. cbn. split; [done|lia]. }
  destruct (Z.eqb_spec m 0) as [Hm|Hm]; cbn.
  { rewrite Hm. cbn. rewrite andb_false_r. cbn. split; [done|lia]. }
  destruct (Z.eqb_spec revisions 1) as [Hr|Hr]; cbn.
  2:{ destruct (flt _ _); cbn; (split; [done|lia]). }
  destruct (Z.ltb_spec 0 m), (Z.leb_spec m 0); try lia; destruct (flt _ _); cbn;
    split; try done; try (intros [= <-]; split_and!; done || lia); intros (_ & _ & _ & H' & ->); done || lia.
Qed.

Lemma StandardWindows_buckets w :
  w ∈ StandardWindows ->
  exists n, win_Duration w = Z.of_nat n * CanonicalBucket /\ (1 <= Z.of_nat n <= 129600) /\
            Z.quot (win_Duration w) CanonicalBucket = Z.of_nat n.
Proof.
  intros Hw. exists (Z.to_nat (Z.quot (win_Duration w) CanonicalBucket)).
  unfold StandardWindows in Hw. set_unfold.
  destruct Hw as [->|[->|[->|[->|[]]]]]; vm_compute; repeat split; discriminate.
Qed.

Lemma one_revision (bs : list BucketRow) :
  bs <> [] ->
  Z.of_nat (size (list_to_set (map bk_revisionID bs) : gset string)) = 1 <->
  exists rev, forall b, b ∈ bs -> bk_revisionID b = rev.
Proof.
  intros Hne. split.
  - intros H1. assert (size (list_to_set (map bk_revisionID bs) : gset string) = 1%nat) as Hs by lia.
    apply size_1_elem_of in Hs as [rev Hrev]. exists rev. intros b Hb.
    assert (bk_revisionID b ∈ (list_to_set (map bk_revisionID bs) : gset string)) as Hin
      by (apply elem_of_list_to_set, list_elem_of_fmap; eauto).
    rewrite Hrev in Hin. by apply elem_of_singleton in Hin.
  - intros [rev Hrev].
    assert ((list_to_set (map bk_revisionID bs) : gset string) = {[rev]}) as ->.
    { apply set_eq. intros x. rewrite elem_of_list_to_set, list_elem_of_fmap, elem_of_singleton.
      split.
      - intros (b & -> & Hb). by apply Hrev.
      - intros ->. destruct bs as [|b bs]; [done|]. exists b. split; [symmetry; apply Hrev|]; set_solver. }
    by rewrite size_singleton.
Qed.

(** the withholding rule end to end: a report quotes an availability number exactly
    when the window starts inside the materialization era, every canonical bucket of the
    window has a sealed row, all of them were computed under one definition revision, and
    some time was measured; and the number is then good/(good+bad) over the sealed rows of
    the window, with no overflow, the excluded and unknown time in no denominator. *)
Theorem availability_quoted_iff rows projectID serviceID w asOf mat sealed rep a
  (Hwf : rows_wf rows) (Hw : w ∈ StandardWindows)
  (Hmat : rr_materialization rows = Some mat) (Hsealed : mat_sealed mat = Some sealed)
  (Halign : (CanonicalBucket | sealed))
  (Hrep : serviceReliabilityReportTx rows projectID serviceID w asOf = Ok rep) :
  let from := sealed - win_Duration w in
  let bs := rangeRows rows from sealed in
  let good := sumOf (fun b => GoodUs (bk_d b)) bs in
  let bad := sumOf (fun b => BadUs (bk_d b)) bs in
  rep_Availability rep = Some a <->
  mat_era mat <= from /\
  (forall t, (CanonicalBucket | t) -> from <= t < sealed ->
     exists b, b ∈ rr_buckets rows /\ bk_sealed b = true /\ bk_start b = t) /\
  (exists rev, forall b, b ∈ bs -> bk_revisionID b = rev) /\
  0 < good + bad /\
  a = fmul (fdiv (fofZ good) (fofZ (good + bad))) (fofZ 100).
Proof.
  destruct (StandardWindows_buckets w Hw) as (n & Hdur & Hn & Hquot).
  intros from bs good bad.
  assert (sealed = from + Z.of_nat n * CanonicalBucket) as Hto by (unfold from; lia).
  assert ((CanonicalBucket | from)) as Hfrom.
  { unfold from. apply Z.divide_sub_r; [done|]. rewrite Hdur. apply Z.divide_mul_r. done. }
  unfold serviceReliabilityReportTx in Hrep. rewrite Hmat, Hsealed in Hrep.
  change (Add sealed (- win_Duration w)) with from in Hrep. rewrite Hquot in Hrep.
  pose proof (sumSegments_eq (reportSegments rows from sealed)) as Hsum.
  destruct (sumSegments _) as [[[cnt d] revs] segs]. destruct Hsum as (Hcnt & Hg & Hb & _ & Hrevs & _).
  destruct (reportSegments_sums rows from sealed GoodUs ltac:(done)) as (Hc1 & Hg1 & Hr1).
  destruct (reportSegments_sums rows from sealed BadUs ltac:(done)) as (_ & Hb1 & _).
  fold bs in Hc1, Hg1, Hb1, Hr1. fold good in Hg1. fold bad in Hb1.
  rewrite Hc1 in Hcnt. rewrite Hg1 in Hg. rewrite Hb1 in Hb. rewrite Hr1 in Hrevs.
  pose proof (rangeRows_length rows from n Hwf Hfrom) as Hlen. rewrite <- Hto in Hlen. fold bs in Hlen.
  assert (0 <= good <= 60000000 * Z.of_nat n /\ 0 <= bad <= 60000000 * Z.of_nat n) as [Hgr Hbr].
  { pose proof (rwf_conserve _ Hwf) as Hcons. rewrite list.Forall_forall in Hcons.
    unfold good, bad, bs. rewrite Hto.
    split; apply range_field; try done; intros b Hbin; specialize (Hcons b Hbin); lia. }
  rewrite wrap64_id in Hcnt, Hg, Hb by (unfold int64_min, int64_max; lia).
  assert (rep_Availability rep
          = v_Availability (decideServiceWindow d cnt (Z.of_nat n) (Z.of_nat (size revs)) from (mat_era mat)))
    as ->.
  { destruct (rr_target rows (win_Name w)) as [[? ?]|]; by injection Hrep as <-. }
  rewrite decideServiceWindow_quotes, Hcnt, Hg, Hb, Hrevs.
  unfold add64. rewrite wrap64_id by (unfold int64_min, int64_max; lia).
  pose proof (continuity_iff rows from n Hwf Hfrom) as Hcont. rewrite <- Hto in Hcont. fold bs in Hcont.
  assert (Z.of_nat (length bs) = Z.of_nat n <-> length bs = n) as -> by lia.
  rewrite Hcont. split.
  - intros (He & Hstored & Hrev & Hm & Ha). split_and!; [done|done| |done|done].
    apply one_revision; [|done]. intros Hnil. apply Hcont in Hstored. rewrite Hnil in Hstored. cbn in *. lia.
  - intros (He & Hstored & Hrev & Hm & Ha). split_and!; [done|done| |done|done].
    apply one_revision; [|done]. intros Hnil. apply Hcont in Hstored. rewrite Hnil in Hstored. cbn in *. lia.
Qed.

(** *** Witnesses: a day of sealed buckets, fifty seconds good and ten bad in each *)
Definition demoRow (k : nat) : BucketRow :=
  {| bk_start := Z.of_nat k * CanonicalBucket; bk_sealed := true; bk_epochID := "e1"; bk_epochSeq := 1;
     bk_revisionID := "r1"; bk_revision := 1;
     bk_d := {| GoodUs := 50000000; BadUs := 10000000; UnknownUs := 0; ExcludedUs := 0;
                HealthyUs := 50000000; DegradedUs := 0; DownUs := 10000000; HealthUnknownUs := 0 |} |}.

Definition demoSealed : Time := 1440 * CanonicalBucket.

Definition demoMat : Materialization :=
  {| mat_era := 0; mat_sealed := Some demoSealed; mat_retractedAt := None; mat_retractedTo := None |}.

Definition demoRows : ReportRows :=
  {| rr_materialization := Some demoMat; rr_owned := true; rr_sliMembers := 1;
     rr_target := fun w => if bool_decide (w = "24h") then Some (fofZ 99, 0) else None;
     rr_buckets := map demoRow (seq 0 1440); rr_revision1 := None; rr_repairs := [] |}.

Definition day : Window := {| win_Name := "24h"; win_Duration := 24 * Hour |}.

Definition demoReport : ServiceWindowReport :=
  Eval vm_compute in
  match serviceReliabilityReportTx demoRows "p" "s" day (demoSealed + Minute) with
  | Ok rep => rep
  | Err _ => emptyReport "" "" 0 (ReportOther "") NoReason None None None
  end.

Lemma demoRows_wf : rows_wf demoRows.
Proof.
  split.
  - replace (map bk_start (rr_buckets demoRows)) with (grid 0 1440); [apply grid_NoDup|].
    unfold grid, demoRows, rr_buckets. rewrite map_map. reflexivity.
  - apply List.Forall_forall. intros b (k & <- & _)%(in_map_iff demoRow). apply Z.divide_factor_r.
  - apply List.Forall_forall. intros b (k & <- & _)%(in_map_iff demoRow). cbn. lia.
Qed.

Lemma demoReport_Ok :
  serviceReliabilityReportTx demoRows "p" "s" day (demoSealed + Minute) = Ok demoReport.
Proof. vm_compute. reflexivity. Qed.

Lemma demoRows_stored t :
  (CanonicalBucket | t) -> 0 <= t < demoSealed ->
  exists b, b ∈ rr_buckets demoRows /\ bk_sealed b = true /\ bk_start b = t.
Proof.
  intros [q ->] Hr. exists (demoRow (Z.to_nat q)).
  assert (0 <= q < 1440) as Hq by (unfold demoSealed, CanonicalBucket, Minute, Second in Hr; lia).
  split; [|split; [reflexivity|]].
  - apply list_elem_of_In, (in_map demoRow), in_seq. lia.
  - cbn [demoRow bk_start]. by rewrite Z2Nat.id by lia.
Qed.

Lemma demoRows_buckets : rr_buckets demoRows = map demoRow (seq 0 1440).
Proof. reflexivity. Qed.

Lemma demoRows_revision from to b : b ∈ rangeRows demoRows from to -> bk_revisionID b = "r1".
Proof.
  intros [Hb _]%elem_of_rangeRows. rewrite demoRows_buckets in Hb.
  apply list_elem_of_In, in_map_iff in Hb as (k & <- & _). reflexivity.
Qed.

Lemma demoRows_totals :
  sumOf (fun b => GoodUs (bk_d b)) (rangeRows demoRows (demoSealed - 24 * Hour) demoSealed)
    = 1440 * 50000000 /\
  sumOf (fun b => BadUs (bk_d b)) (rangeRows demoRows (demoSealed - 24 * Hour) demoSealed)
    = 1440 * 10000000.
Proof. vm_compute. split; reflexivity. Qed.

Example availability_quoted_iff_witness :
  rep_Availability demoReport
  = Some (fmul (fdiv (fofZ (1440 * 50000000)) (fofZ (1440 * 50000000 + 1440 * 10000000))) (fofZ 100)).
Proof.
  destruct demoRows_totals as [Hg Hb]. rewrite <- Hg, <- Hb.
  apply (availability_quoted_iff demoRows "p" "s" day (demoSealed + Minute) demoMat demoSealed
           demoReport _ demoRows_wf ltac:(left) eq_refl eq_refl
           ltac:(apply Z.divide_factor_r) demoReport_Ok).
  split; [discriminate|]. split; [|split; [|split]].
  - intros t Ht Hr. apply demoRows_stored; [exact Ht|exact Hr].
  - exists "r1". apply demoRows_revision.
  - cbn [win_Duration day]. rewrite Hg, Hb. reflexivity.
  - reflexivity.
Defined.

Example all_windows_report_equivalent_witness :
  exists reports,
    gateAllWindowReportsTx demoRows "p" "s"
      [{| wt_window := "24h"; wt_objective := fofZ 99; wt_objectiveUpdatedAt := 0 |}]
      (demoSealed + Minute) = Ok reports /\ reports = [demoReport].
Proof.
  destruct (all_windows_report_equivalent demoRows "p" "s"
    [{| wt_window := "24h"; wt_objective := fofZ 99; wt_objectiveUpdatedAt := 0 |}]
    (demoSealed + Minute) demoMat demoSealed eq_refl eq_refl
    ltac:(constructor; [split; [eexists; reflexivity|reflexivity]|constructor]))
    as (reports & Hr & HF).
  exists reports. split; [exact Hr|].
  inversion HF as [|tgt rep ts rs (w & Hw & Hrep) Hrest]; subst. inversion Hrest; subst.
  assert (w = day) as -> by (symmetry; by injection Hw).
  rewrite demoReport_Ok in Hrep. assert (rep = demoReport) as -> by congruence. reflexivity.
Defined.
