(* ===== verification/GoString.v ===== *)
(** * Strings and bytes

    The pieces of [strings], [encoding/hex] and [encoding/binary] the modelled code uses.
    A Go string is its list of bytes; a byte is an integer in [0, 256). *)

From Stdlib Require Import Ascii.
From S2P Require Import Prelude.

Definition bytes : Type := list Z.

Definition byte_ok (b : Z) : Prop := 0 <= b < 256.

(** ** Strings as byte lists *)
Definition byteOfAscii (a : ascii) : Z := Z.of_N (N_of_ascii a).
Definition asciiOfByte (b : Z) : ascii := ascii_of_N (Z.to_N b).

Fixpoint bytesOf (s : string) : bytes :=
  match s with
  | EmptyString => []
  | String a s => byteOfAscii a :: bytesOf s
  end.

Fixpoint stringOf (l : bytes) : string :=
  match l with
  | [] => EmptyString
  | b :: l => String (asciiOfByte b) (stringOf l)
  end.

(** ** [strings.TrimSpace]

    The UTF-8 encodings of the code points [unicode.IsSpace] accepts. *)
Definition spaceSeqs : list bytes :=
  [[9]; [10]; [11]; [12]; [13]; [32]; [194; 133]; [194; 160]; [225; 154; 128];
   [226; 128; 128]; [226; 128; 129]; [226; 128; 130]; [226; 128; 131]; [226; 128; 132];
   [226; 128; 133]; [226; 128; 134]; [226; 128; 135]; [226; 128; 136]; [226; 128; 137];
   [226; 128; 138]; [226; 128; 168]; [226; 128; 169]; [226; 128; 175]; [226; 129; 159];
   [227; 128; 128]].

Fixpoint stripPrefix (p l : bytes) : option bytes :=
  match p, l with
  | [], _ => Some l
  | x :: p, y :: l => if x =? y then stripPrefix p l else None
  | _ :: _, [] => None
  end.

Fixpoint stripAny (ps : list bytes) (l : bytes) : option bytes :=
  match ps with
  | [] => None
  | p :: ps => match stripPrefix p l with Some l' => Some l' | None => stripAny ps l end
  end.

(** Each round removes at least one byte, so the length is enough fuel. *)
Fixpoint trimWith (ps : list bytes) (fuel : nat) (l : bytes) : bytes :=
  match fuel with
  | O => l
  | S fuel => match stripAny ps l with Some l' => trimWith ps fuel l' | None => l end
  end.

Definition trimBytes (l : bytes) : bytes :=
  let left := trimWith spaceSeqs (length l) l in
  rev (trimWith (map (@rev Z) spaceSeqs) (length left) (rev left)).

Definition TrimSpace (s : string) : string := stringOf (trimBytes (bytesOf s)).

(** ** [encoding/hex] *)
Definition hexDigit (n : Z) : Z := if n <? 10 then 48 + n else 87 + n.

Definition hexEncode (l : bytes) : bytes := flat_map (fun b => [hexDigit (b / 16); hexDigit (b mod 16)]) l.

(** A digit of either case. *)
Definition fromHex (c : Z) : option Z :=
  if (48 <=? c) && (c <=? 57) then Some (c - 48)
  else if (97 <=? c) && (c <=? 102) then Some (c - 87)
  else if (65 <=? c) && (c <=? 70) then Some (c - 55)
  else None.

Fixpoint hexDecode (l : bytes) : option bytes :=
  match l with
  | [] => Some []
  | a :: b :: rest =>
    match fromHex a, fromHex b, hexDecode rest with
    | Some x, Some y, Some r => Some (16 * x + y :: r)
    | _, _, _ => None
    end
  | _ => None
  end.

(** ** [binary.BigEndian] on 64 bits *)
Definition putUint64 (v : Z) : bytes :=
  map (fun k => Z.land (Z.shiftr v (8 * k)) 255) [7; 6; 5; 4; 3; 2; 1; 0].

Definition getUint64 (l : bytes) : Z := foldl (fun acc b => Z.lor (Z.shiftl acc 8) b) 0 l.

(** [strings.ReplaceAll(s, "-", "")]. *)
Definition dropDashes (l : bytes) : bytes := List.filter (fun b => negb (b =? 45)) l.

(** ** [utf8.RuneCountInString] *)

Definition inRange (lo hi b : Z) : bool := (lo <=? b) && (b <=? hi).

(** The width of the first code point; an invalid byte is one code point of width one. *)
Definition runeWidth (l : bytes) : nat :=
  match l with
  | b0 :: b1 :: rest =>
    if inRange 194 223 b0 then if inRange 128 191 b1 then 2%nat else 1%nat
    else if inRange 224 239 b0 then
      let lo := if b0 =? 224 then 160 else 128 in
      let hi := if b0 =? 237 then 159 else 191 in
      match rest with
      | b2 :: _ => if inRange lo hi b1 && inRange 128 191 b2 then 3%nat else 1%nat
      | [] => 1%nat
      end
    else if inRange 240 244 b0 then
      let lo := if b0 =? 240 then 144 else 128 in
      let hi := if b0 =? 244 then 143 else 191 in
      match rest with
      | b2 :: b3 :: _ => if inRange lo hi b1 && inRange 128 191 b2 && inRange 128 191 b3 then 4%nat else 1%nat
      | _ => 1%nat
      end
    else 1%nat
  | _ => 1%nat
  end.

(** Each round drops at least one byte, so the length is enough fuel. *)
Fixpoint runeCount (fuel : nat) (l : bytes) : Z :=
  match fuel, l with
  | S fuel, _ :: _ => 1 + runeCount fuel (drop (runeWidth l) l)
  | _, _ => 0
  end.

Definition RuneCountInString (s : string) : Z :=
  let l := bytesOf s in runeCount (length l) l.

(** ** Lemmas *)
Lemma hexDigit_roundtrip n : 0 <= n < 16 -> fromHex (hexDigit n) = Some n.
Proof.
  intros H. rewrite <- (Z2Nat.id n) by lia. assert (Z.to_nat n < 16)%nat as Hk by lia.
  revert Hk. generalize (Z.to_nat n) as k. intros k Hk.
  do 16 (destruct k as [|k]; [reflexivity|]). lia.
Qed.

Lemma hexDigit_not_dash n : 0 <= n < 16 -> hexDigit n <> 45.
Proof. intros H. unfold hexDigit. break_goal; bool_facts; lia. Qed.

Lemma hexDecode_encode l : Forall byte_ok l -> hexDecode (hexEncode l) = Some l.
Proof.
  induction 1 as [|b l Hb Hl IH]; [done|]. unfold byte_ok in Hb. cbn [hexEncode flat_map app hexDecode].
  rewrite !hexDigit_roundtrip by (split; [|apply Z.div_lt_upper_bound || apply Z.mod_pos_bound]; 
    try apply Z.div_pos; try apply Z.mod_pos_bound; lia).
  change (flat_map _ l) with (hexEncode l). rewrite IH. f_equal. f_equal.
  pose proof (Z.div_mod b 16 ltac:(lia)). lia.
Qed.

Lemma hexEncode_length l : length (hexEncode l) = (2 * length l)%nat.
Proof. induction l as [|b l IH]; [done|]. cbn [hexEncode flat_map app length] in *. 
  change (flat_map _ l) with (hexEncode l). rewrite IH. lia. Qed.

Lemma hexEncode_no_dash l : Forall byte_ok l -> Forall (fun b => b <> 45) (hexEncode l).
Proof.
  induction 1 as [|b l Hb Hl IH]; cbn; [constructor|]. unfold byte_ok in Hb.
  constructor; [apply hexDigit_not_dash|constructor; [apply hexDigit_not_dash|exact IH]].
  - split; [apply Z.div_pos; lia|apply Z.div_lt_upper_bound; lia].
  - apply Z.mod_pos_bound. lia.
Qed.

Lemma dropDashes_app l1 l2 : dropDashes (l1 ++ l2) = dropDashes l1 ++ dropDashes l2.
Proof. apply List.filter_app. Qed.

Lemma dropDashes_id l : Forall (fun b => b <> 45) l -> dropDashes l = l.
Proof.
  induction 1 as [|b l Hb Hl IH]; [done|]. cbn. destruct (Z.eqb_spec b 45); [done|]. change (b :: dropDashes l = b :: l). by rewrite IH.
Qed.

(** Shifting in a byte. *)
Lemma lor_shiftl_byte a b : 0 <= b < 256 -> Z.lor (Z.shiftl a 8) b = a * 256 + b.
Proof.
  intros Hb.
  assert (Z.land (Z.shiftl a 8) b = 0) as Hland.
  { apply Z.bits_inj'. intros n Hn. rewrite Z.land_spec, Z.bits_0. destruct (Z.ltb_spec n 8).
    - by rewrite Z.shiftl_spec_low by lia.
    - rewrite <- (Z.mod_small b (2 ^ 8)) by lia. rewrite Z.mod_pow2_bits_high by lia. apply andb_false_r. }
  rewrite <- Z.lxor_lor by done. rewrite <- Z.add_nocarry_lxor by done.
  rewrite Z.shiftl_mul_pow2 by lia. lia.
Qed.

(** Big-endian bytes of a 48-bit value: the two leading bytes are zero. *)
Lemma uint48_roundtrip v :
  0 <= v < 2 ^ 48 ->
  getUint64 ([0; 0] ++ drop 2 (putUint64 v)) = v /\ Forall byte_ok (drop 2 (putUint64 v)) /\
  length (drop 2 (putUint64 v)) = 6%nat.
Proof.
  intros Hv. unfold putUint64, getUint64, byte_ok. cbn [map drop app foldl].
  change 255 with (Z.ones 8). rewrite !Z.land_ones by lia.
  rewrite !Z.shiftr_div_pow2 by lia. rewrite Z.lor_0_l.
  assert (forall x, 0 <= x mod 2 ^ 8 < 256) as Hm by (intros x; apply (Z.mod_pos_bound x 256); lia).
  split; [|split; [|done]].
  - rewrite !lor_shiftl_byte by apply Hm. cbn [Z.mul Z.pow].
    change (2 ^ (8 * 5)) with 1099511627776. change (2 ^ (8 * 4)) with 4294967296.
    change (2 ^ (8 * 3)) with 16777216. change (2 ^ (8 * 2)) with 65536.
    change (2 ^ (8 * 1)) with 256. change (2 ^ (8 * 0)) with 1. change (2 ^ 8) with 256.
    clear Hm. Z.to_euclidean_division_equations. lia.
  - repeat (constructor; [apply Hm|]). constructor.
Qed.
