(* ===== verification/ExpectedRuns.v ===== *)
(** * The expected-run ledger
    ([internal/domain/expectedrun.go], [internal/store/expectedruns.go],
    [internal/store/monitorschedule.go], [ExpectedRunRetentionCutoff] of [internal/store/store.go])

    One row per due window of a monitor, its verdict, and the statements that move it: the
    reservation that advances a schedule, the confirmation of a publish, the claim, the
    terminal outcome and the refusal an executor's messages produce, and the segment close of
    a configuration write.  A SQL statement is a function of the rows it reads; a [NULL] job
    id, skip reason or carrier is the empty string or zero, as in [domain.ExpectedRun]. *)

From Stdlib Require Import Ascii.
From S2P Require Import Prelude ServicePolicy MonitorRow GoString.

(** ** Windows and their verdicts *)
Definition LedgerMinCarrier : Z := 4.

Inductive ExpectedRunVerdict :=
| VerdictCovered | VerdictCoveredLate | VerdictExpectedNeverIssued | VerdictIssuedNeverClaimed
| VerdictClaimedNeverFinished | VerdictUnknown | VerdictReserved.

#[global] Instance ExpectedRunVerdict_eq_dec : EqDecision ExpectedRunVerdict.
Proof. solve_decision. Defined.

Record ExpectedRun := {
  er_MonitorID : string;
  er_DueAt : Time;
  er_JobID : string;
  er_CarrierGeneration : Z;
  er_ExecutionRevision : Z;
  er_Region : string;
  er_IntervalSeconds : Z;
  er_IntervalAssumed : bool;
  er_ReservedAt : option Time;
  er_WithheldReason : string;
  er_IssuedAt : option Time;
  er_ClaimedAt : option Time;
  er_TerminalAt : option Time;
  er_Outcome : string;
  er_RefusedAt : option Time;
  er_RefusedReason : string;
  er_SkipReason : string;
}.

Definition Verdict (r : ExpectedRun) : ExpectedRunVerdict :=
  if negb (bool_decide (er_JobID r = "")) && (er_CarrierGeneration r <? LedgerMinCarrier) then VerdictUnknown
  else match er_TerminalAt r with
  | Some _ =>
    match er_IssuedAt r with
    | None => VerdictCovered
    | Some issued =>
      if mul64 (er_IntervalSeconds r) Second <? Sub issued (er_DueAt r) then VerdictCoveredLate
      else VerdictCovered
    end
  | None =>
    match er_ReservedAt r, er_IssuedAt r, er_ClaimedAt r with
    | Some _, None, None => VerdictReserved
    | _, _, claimed =>
      if bool_decide (er_JobID r = "") then VerdictExpectedNeverIssued
      else match claimed with
           | None => VerdictIssuedNeverClaimed
           | Some _ => VerdictClaimedNeverFinished
           end
    end
  end.

Definition LicensesStroke (r : ExpectedRun) : bool := bool_decide (Verdict r = VerdictCovered).

(** ** Job identities *)

(** [uuid] values compare without case; the text form a producer sends may carry either. *)
Definition lowerHex (c : ascii) : ascii :=
  let n := byteOfAscii c in
  if (65 <=? n) && (n <=? 70) then asciiOfByte (n + 32) else c.

Fixpoint uuidOf (s : string) : string :=
  match s with
  | EmptyString => EmptyString
  | String c s => String (lowerHex c) (uuidOf s)
  end.

Definition isHexByte (c : Z) : bool :=
  (48 <=? c) && (c <=? 57) || (97 <=? c) && (c <=? 102) || (65 <=? c) && (c <=? 70).

Definition uuidDash (i : nat) : bool := bool_decide (i ∈ [8; 13; 18; 23]%nat).

Fixpoint validUUIDFrom (i : nat) (l : bytes) : bool :=
  match l with
  | [] => true
  | c :: l => (if uuidDash i then c =? 45 else isHexByte c) && validUUIDFrom (S i) l
  end.

Definition validJobUUID (s : string) : bool :=
  let l := bytesOf s in (length l =? 36)%nat && validUUIDFrom 0 l.

(** ** The tables *)

(** One row of [monitor_schedule]. *)
Record Schedule := {
  sc_next_due_at : Time;
  sc_interval_in_force : Z;
  sc_confirm_phase : bool;
  sc_execution_revision : Z;
  sc_last_issued_at : option Time;
  sc_schedule_created_at : Time;
  sc_gap_truncated_before : option Time;
}.

(** One row of [monitor_execution_revisions]: the intervals of a generation. *)
Record RevisionRow := { rv_interval_seconds : Z; rv_confirm_interval_seconds : Z }.

Notation runs := (gmap (string * Time) ExpectedRun).

Record Ledger := {
  lg_runs : runs;
  lg_schedule : gmap string Schedule;
  lg_monitors : gmap string MonitorRow;
  lg_revisions : gmap (string * Z) RevisionRow;
}.

Definition withRuns (db : Ledger) (r : runs) : Ledger :=
  {| lg_runs := r; lg_schedule := lg_schedule db; lg_monitors := lg_monitors db;
     lg_revisions := lg_revisions db |}.

Definition withSchedule (db : Ledger) (s : gmap string Schedule) : Ledger :=
  {| lg_runs := lg_runs db; lg_schedule := s; lg_monitors := lg_monitors db;
     lg_revisions := lg_revisions db |}.

(** The statements a constraint or a cast can abort, and the errors the Go code returns. *)
Inductive LedgerError :=
| CheckViolation | InvalidUUID
| AdvanceWithoutMonitor | AdvanceJobXorSkip | AdvanceCarrierIffJob | AdvanceInterval
| AdvanceInstant | AdvanceRevision | AdvanceRegion | AdvanceNoMintedInstant
| ConfirmIdentity | ConfirmReason | ConfirmNoInstant
| ClaimNoInstant | ClaimInvalid.

(** [ON CONFLICT (monitor_id, due_at) DO NOTHING]. *)
Definition insertRun (rs : runs) (r : ExpectedRun) : runs :=
  match rs !! (er_MonitorID r, er_DueAt r) with
  | Some _ => rs
  | None => <[(er_MonitorID r, er_DueAt r) := r]> rs
  end.

(** ** Admissibility ([expectedRunAdmissibleSQL]) *)
Definition admissible (r : ExpectedRun) (job : string) (revision : Z) : bool :=
  (bool_decide (er_JobID r = job)
   || bool_decide (er_JobID r = "") && bool_decide (er_SkipReason r = ""))
  && (er_ExecutionRevision r =? revision).

(** [scheduleParticipantSQL]. *)
Definition participant (m : MonitorRow) : bool :=
  mo_Enabled m && negb (isPush (mo_Type m)) && (0 <? mo_IntervalSeconds m).

(** ** The executor's events *)
Inductive ExpectedRunOutcome := OutcomeResult | OutcomeProbeError.

Definition outcomeText (o : ExpectedRunOutcome) : string :=
  match o with OutcomeResult => "result" | OutcomeProbeError => "probe_error" end.

Record expectedRunTerminal := {
  tm_MonitorID : string;
  tm_DueAt : Time;
  tm_JobID : string;
  tm_Revision : Z;
  tm_TerminalAt : Time;
  tm_IssuedAt : Time;
  tm_Outcome : ExpectedRunOutcome;
}.

(** [LEAST(interval, NULLIF(confirm, 0))]. *)
Definition tightest (interval confirm : Z) : Z :=
  if confirm =? 0 then interval else Z.min interval confirm.

Definition orphanInterval (db : Ledger) (id : string) (m : MonitorRow) (revision : Z) : Z :=
  match lg_revisions db !! (id, revision) with
  | Some r => tightest (rv_interval_seconds r) (rv_confirm_interval_seconds r)
  | None => tightest (mo_IntervalSeconds m) (mo_ConfirmIntervalSeconds m)
  end.

(** The [DO UPDATE] branch of [fillExpectedRunTerminalSQL]. *)
Definition mergeTerminal (r : ExpectedRun) (job : string) (issued at_ : Time) (o : ExpectedRunOutcome) : ExpectedRun :=
  {| er_MonitorID := er_MonitorID r; er_DueAt := er_DueAt r;
     er_JobID := if bool_decide (er_JobID r = "") then job else er_JobID r;
     er_CarrierGeneration := if er_CarrierGeneration r =? 0 then LedgerMinCarrier else er_CarrierGeneration r;
     er_ExecutionRevision := er_ExecutionRevision r; er_Region := er_Region r;
     er_IntervalSeconds := er_IntervalSeconds r; er_IntervalAssumed := er_IntervalAssumed r;
     er_ReservedAt := er_ReservedAt r; er_WithheldReason := er_WithheldReason r;
     er_IssuedAt := match er_ReservedAt r, er_IssuedAt r with
                    | Some _, i => i
                    | None, Some i => Some i
                    | None, None => Some issued
                    end;
     er_ClaimedAt := er_ClaimedAt r;
     er_TerminalAt := earliest (er_TerminalAt r) at_;
     er_Outcome := match er_TerminalAt r with
                   | None => outcomeText o
                   | Some t => if at_ <? t then outcomeText o else er_Outcome r
                   end;
     er_RefusedAt := er_RefusedAt r; er_RefusedReason := er_RefusedReason r;
     er_SkipReason := er_SkipReason r |}.

(** The row an outcome creates for a window the ledger never entered. *)
Definition orphanRun (db : Ledger) (m : MonitorRow) (id : string) (due : Time) (job : string)
    (revision : Z) (issued at_ : Time) (o : ExpectedRunOutcome) : ExpectedRun :=
  {| er_MonitorID := id; er_DueAt := due; er_JobID := job;
     er_CarrierGeneration := LedgerMinCarrier; er_ExecutionRevision := revision;
     er_Region := mo_Region m; er_IntervalSeconds := orphanInterval db id m revision;
     er_IntervalAssumed := true; er_ReservedAt := None; er_WithheldReason := "";
     er_IssuedAt := Some issued; er_ClaimedAt := None; er_TerminalAt := Some at_;
     er_Outcome := outcomeText o; er_RefusedAt := None; er_RefusedReason := ""; er_SkipReason := "" |}.

Definition fillExpectedRunTerminalTx (db : Ledger) (ev : expectedRunTerminal) : result LedgerError Ledger :=
  if tm_Revision ev <? 1 then Ok db
  else
    let id := tm_MonitorID ev in
    let due := pgTime (tm_DueAt ev) in
    let issued := pgTime (tm_IssuedAt ev) in
    let at_ := pgTime (tm_TerminalAt ev) in
    let job := uuidOf (tm_JobID ev) in
    match lg_monitors db !! id with
    | None => Ok db
    | Some m =>
      if negb (participant m) then Ok db
      else match lg_runs db !! (id, due) with
      | None =>
        if due <=? issued then
          let r := orphanRun db m id due job (tm_Revision ev) issued at_ (tm_Outcome ev) in
          let! _ := refuse_if (er_IntervalSeconds r <=? 0) CheckViolation in
          Ok (withRuns db (<[(id, due) := r]> (lg_runs db)))
        else Ok db
      | Some r =>
        let! _ := refuse_if (orphanInterval db id m (tm_Revision ev) <=? 0) CheckViolation in
        if admissible r job (tm_Revision ev)
        then Ok (withRuns db (<[(id, due) := mergeTerminal r job issued at_ (tm_Outcome ev)]> (lg_runs db)))
        else Ok db
      end
    end.

Definition mergeRefusal (r : ExpectedRun) (at_ : Time) (reason : string) : ExpectedRun :=
  {| er_MonitorID := er_MonitorID r; er_DueAt := er_DueAt r; er_JobID := er_JobID r;
     er_CarrierGeneration := er_CarrierGeneration r; er_ExecutionRevision := er_ExecutionRevision r;
     er_Region := er_Region r; er_IntervalSeconds := er_IntervalSeconds r;
     er_IntervalAssumed := er_IntervalAssumed r; er_ReservedAt := er_ReservedAt r;
     er_WithheldReason := er_WithheldReason r; er_IssuedAt := er_IssuedAt r;
     er_ClaimedAt := er_ClaimedAt r; er_TerminalAt := er_TerminalAt r; er_Outcome := er_Outcome r;
     er_RefusedAt := earliest (er_RefusedAt r) at_;
     er_RefusedReason := match er_RefusedAt r with
                         | None => reason
                         | Some t => if at_ <? t then reason else er_RefusedReason r
                         end;
     er_SkipReason := er_SkipReason r |}.

Definition noteExpectedRunRefusalTx (db : Ledger) (id : string) (dueAt : Time) (jobID : string)
    (revision : Z) (at_ : Time) (reason : string) : Ledger :=
  if bool_decide (jobID = "") || IsZero dueAt || bool_decide (reason = "") || (revision <? 1) then db
  else match lg_runs db !! (id, pgTime dueAt) with
  | Some r =>
    if bool_decide (er_JobID r = uuidOf jobID) && (er_ExecutionRevision r =? revision)
    then withRuns db (<[(id, pgTime dueAt) := mergeRefusal r (pgTime at_) reason]> (lg_runs db))
    else db
  | None => db
  end.

Definition mergeClaim (r : ExpectedRun) (at_ : Time) : ExpectedRun :=
  {| er_MonitorID := er_MonitorID r; er_DueAt := er_DueAt r; er_JobID := er_JobID r;
     er_CarrierGeneration := er_CarrierGeneration r; er_ExecutionRevision := er_ExecutionRevision r;
     er_Region := er_Region r; er_IntervalSeconds := er_IntervalSeconds r;
     er_IntervalAssumed := er_IntervalAssumed r; er_ReservedAt := er_ReservedAt r;
     er_WithheldReason := er_WithheldReason r; er_IssuedAt := er_IssuedAt r;
     er_ClaimedAt := earliest (er_ClaimedAt r) at_; er_TerminalAt := er_TerminalAt r;
     er_Outcome := er_Outcome r; er_RefusedAt := er_RefusedAt r;
     er_RefusedReason := er_RefusedReason r; er_SkipReason := er_SkipReason r |}.

(** [recordExpectedRunClaimSQL]. *)
Definition recordExpectedRunClaim (db : Ledger) (id : string) (dueAt : Time) (jobID : string)
    (revision : Z) (at_ : Time) : Ledger * bool :=
  match lg_runs db !! (id, pgTime dueAt) with
  | Some r =>
    if admissible r (uuidOf jobID) revision
    then (withRuns db (<[(id, pgTime dueAt) := mergeClaim r (pgTime at_)]> (lg_runs db)), true)
    else (db, false)
  | None => (db, false)
  end.

(** ** Retention and correlation *)
Definition DefaultExpectedRunRetentionDays : Z := 14.
Definition DefaultExpectedRunGapWindowsMax : Z := 10000.

(** The two settings of [Store] the ledger reads. *)
Record LedgerPolicy := { lp_retentionDays : Z; lp_gapCap : Z }.

Definition Day : Duration := 24 * Hour.

Definition ExpectedRunRetentionDays (pol : LedgerPolicy) : Z :=
  if lp_retentionDays pol <=? 0 then DefaultExpectedRunRetentionDays else lp_retentionDays pol.

Definition expectedRunGapWindowsMax (pol : LedgerPolicy) : Z :=
  if lp_gapCap pol <=? 0 then DefaultExpectedRunGapWindowsMax else lp_gapCap pol.

(** UTC has no daylight saving: [AddDate(0, 0, -days)] subtracts whole days. *)
Definition ExpectedRunRetentionCutoff (pol : LedgerPolicy) (now : Time) : Time :=
  Truncate now Day - ExpectedRunRetentionDays pol * Day.

(** The fields of [domain.Heartbeat] the ledger reads. *)
Record Correlation := { co_JobID : string; co_DueAt : Time; co_JobIssuedAt : Time }.

Record expectedRunRef := { ref_DueAt : Time; ref_JobID : string; ref_IssuedAt : Time }.

(** [None] is the zero value, with [OK = false]. *)
Definition correlateExpectedRun (pol : LedgerPolicy) (hb : Correlation) (dbNow : Time) : option expectedRunRef :=
  if negb (validJobUUID (co_JobID hb)) || IsZero (co_DueAt hb) || IsZero (co_JobIssuedAt hb) then None
  else if Before (co_DueAt hb) (ExpectedRunRetentionCutoff pol dbNow) then None
  else Some {| ref_DueAt := co_DueAt hb; ref_JobID := co_JobID hb; ref_IssuedAt := co_JobIssuedAt hb |}.

(** [RecordRunClaim]: [at_] is [None] when the heartbeat carries no claim. *)
Definition RecordRunClaim (pol : LedgerPolicy) (db : Ledger) (id : string) (revision : Z)
    (hb : Correlation) (at_ : option Time) (dbNow : Time) : result LedgerError (Ledger * bool) :=
  match at_ with
  | None => Err ClaimNoInstant
  | Some claim =>
    let! _ := refuse_if (IsZero claim) ClaimNoInstant in
    let! _ := refuse_if (bool_decide (id = "") || (revision <? 1)) ClaimInvalid in
    match correlateExpectedRun pol hb dbNow with
    | None => Ok (db, false)
    | Some ref => Ok (recordExpectedRunClaim db id (ref_DueAt ref) (ref_JobID ref) revision claim)
    end
  end.

(** ** Gap windows ([expectedRunGapCTESQL]) *)
Definition ceilDiv (a b : Z) : Z := - ((- a) / b).

(** The candidate indices: from the first at or after both lower bounds to the last before
    the upper bound. *)
Definition firstIndex (floor upper first : Time) (interval cap : Z) : Z :=
  Z.max 0 (ceilDiv (Z.max floor (upper - interval * cap * Second) - first) (interval * Second)).
Definition lastIndex (upper first : Time) (interval : Z) : Z :=
  (upper - Microsecond - first) / (interval * Second).

Definition gapCandidates (floor upper first : Time) (interval cap : Z) : list Time :=
  let lo := firstIndex floor upper first interval cap in
  let hi := lastIndex upper first interval in
  map (fun k => first + interval * Second * k) (seqZ lo (hi - lo + 1)).

(** [rn <= cap]: the newest [cap] gapCandidates. *)
Definition missedWindows (floor upper first : Time) (interval cap : Z) : list Time :=
  let c := gapCandidates floor upper first interval cap in
  drop (length c - Z.to_nat cap) c.

(** The truncation fence: the oldest window written, when it is later than the first expected. *)
Definition gapFence (first : Time) (ws : list Time) : option Time :=
  match ws with
  | oldest :: _ => if first <? oldest then Some oldest else None
  | [] => None
  end.

(** PostgreSQL's [GREATEST], which ignores [NULL]. *)
Definition greatest (a b : option Time) : option Time :=
  match a, b with
  | Some x, Some y => Some (Z.max x y)
  | Some x, None => Some x
  | None, b => b
  end.

Definition firstExpected (s : Schedule) : Time :=
  sc_next_due_at s + sc_interval_in_force s * Second.

(** A window nobody was asked to answer. *)
Definition neverIssued (id : string) (s : Schedule) (m : MonitorRow) (due : Time) : ExpectedRun :=
  {| er_MonitorID := id; er_DueAt := due; er_JobID := ""; er_CarrierGeneration := 0;
     er_ExecutionRevision := sc_execution_revision s; er_Region := mo_Region m;
     er_IntervalSeconds := sc_interval_in_force s; er_IntervalAssumed := false;
     er_ReservedAt := None; er_WithheldReason := ""; er_IssuedAt := None; er_ClaimedAt := None;
     er_TerminalAt := None; er_Outcome := ""; er_RefusedAt := None; er_RefusedReason := "";
     er_SkipReason := "" |}.

Definition recordMissed (id : string) (s : Schedule) (m : MonitorRow) (ws : list Time) (rs : runs) : runs :=
  foldl (fun rs due => insertRun rs (neverIssued id s m due)) rs ws.

(** ** Reservation *)
Record ExpectationAdvance := {
  adv_MonitorID : string;
  adv_JobID : string;
  adv_SkipReason : string;
  adv_Confirming : bool;
  adv_NextDue : Time;
  adv_IntervalInForce : Z;
  adv_CarrierGeneration : Z;
  adv_ExpectedDue : Time;
  adv_ExpectedRevision : Z;
  adv_ReservedAt : Time;
  adv_Region : string;
}.

Definition ExpectationAdvance_Validate (a : ExpectationAdvance) : result LedgerError unit :=
  let! _ := refuse_if (bool_decide (adv_MonitorID a = "")) AdvanceWithoutMonitor in
  let! _ := refuse_if (eqb (bool_decide (adv_JobID a = "")) (bool_decide (adv_SkipReason a = ""))) AdvanceJobXorSkip in
  let! _ := refuse_if (negb (eqb (negb (bool_decide (adv_JobID a = ""))) (0 <? adv_CarrierGeneration a)))
              AdvanceCarrierIffJob in
  let! _ := refuse_if (adv_IntervalInForce a <=? 0) AdvanceInterval in
  let! _ := refuse_if (IsZero (adv_NextDue a) || IsZero (adv_ExpectedDue a)) AdvanceInstant in
  let! _ := refuse_if (adv_ExpectedRevision a <? 1) AdvanceRevision in
  let! _ := refuse_if (bool_decide (adv_Region a = "")) AdvanceRegion in
  refuse_if (negb (bool_decide (adv_JobID a = "")) && IsZero (adv_ReservedAt a)) AdvanceNoMintedInstant.

(** [int32] conversion. *)
Definition wrap32 (z : Z) : Z := (z + 2 ^ 31) mod 2 ^ 32 - 2 ^ 31.

(** The [skip_reason] vocabulary of the table's constraint. *)
Definition skipReasons : list string :=
  ["no_capable_runner"; "no_inflight_slot"; "credential_unresolved"; "no_capable_executor";
   "transport_backoff"].

(** The [picked] row of an item: the schedule and the monitor it is still fenced to. *)
Definition picked (db : Ledger) (a : ExpectationAdvance) : option (Schedule * MonitorRow) :=
  match lg_schedule db !! adv_MonitorID a, lg_monitors db !! adv_MonitorID a with
  | Some s, Some m =>
    if (sc_next_due_at s =? pgTime (adv_ExpectedDue a))
       && (mo_execution_revision m =? adv_ExpectedRevision a)
    then Some (s, m) else None
  | _, _ => None
  end.

(** The window an advance answers: reserved with a job, or skipped with a reason. *)
Definition reservedRun (s : Schedule) (a : ExpectationAdvance) : ExpectedRun :=
  let dispatched := negb (bool_decide (adv_JobID a = "")) in
  {| er_MonitorID := adv_MonitorID a; er_DueAt := sc_next_due_at s; er_JobID := uuidOf (adv_JobID a);
     er_CarrierGeneration := if dispatched then wrap32 (adv_CarrierGeneration a) else 0;
     er_ExecutionRevision := adv_ExpectedRevision a; er_Region := adv_Region a;
     er_IntervalSeconds := sc_interval_in_force s; er_IntervalAssumed := false;
     er_ReservedAt := if dispatched then Some (pgTime (adv_ReservedAt a)) else None;
     er_WithheldReason := ""; er_IssuedAt := None; er_ClaimedAt := None; er_TerminalAt := None;
     er_Outcome := ""; er_RefusedAt := None; er_RefusedReason := ""; er_SkipReason := adv_SkipReason a |}.

Definition advancedSchedule (s : Schedule) (a : ExpectationAdvance) (fence : option Time) : Schedule :=
  {| sc_next_due_at := pgTime (adv_NextDue a); sc_interval_in_force := wrap32 (adv_IntervalInForce a);
     sc_confirm_phase := adv_Confirming a; sc_execution_revision := sc_execution_revision s;
     sc_last_issued_at := sc_last_issued_at s; sc_schedule_created_at := sc_schedule_created_at s;
     sc_gap_truncated_before := greatest (sc_gap_truncated_before s) fence |}.

(** The constraints an item of the statement can violate. *)
Definition advanceViolates (a : ExpectationAdvance) : bool :=
  (wrap32 (adv_IntervalInForce a) <=? 0)
  || negb (bool_decide (adv_SkipReason a = "")) && negb (bool_decide (adv_SkipReason a ∈ skipReasons)).

(** One item, against the rows [db0] the statement started from; a batch names a monitor once. *)
Definition reserveOne (pol : LedgerPolicy) (now : Time) (db0 : Ledger)
    (acc : Ledger * list (string * Time)) (a : ExpectationAdvance) : Ledger * list (string * Time) :=
  let '(db, out) := acc in
  match picked db0 a with
  | None => (db, out)
  | Some (s, m) =>
    let run := reservedRun s a in
    let key := (adv_MonitorID a, sc_next_due_at s) in
    let ws := missedWindows (ExpectedRunRetentionCutoff pol now) (pgTime now) (firstExpected s)
                (sc_interval_in_force s) (expectedRunGapWindowsMax pol) in
    let fresh := bool_decide (lg_runs db !! key = None) in
    let rs := recordMissed (adv_MonitorID a) s m ws (insertRun (lg_runs db) run) in
    let sched := <[adv_MonitorID a := advancedSchedule s a (gapFence (firstExpected s) ws)]> (lg_schedule db) in
    (withSchedule (withRuns db rs) sched, if fresh then out ++ [key] else out)
  end.

Definition reserveFails (db : Ledger) (items : list ExpectationAdvance) : option LedgerError :=
  if existsb (fun a => negb (bool_decide (adv_JobID a = "")) && negb (validJobUUID (adv_JobID a))) items
  then Some InvalidUUID
  else if existsb (fun a => match picked db a with Some _ => advanceViolates a | None => false end) items
  then Some CheckViolation
  else None.

(** [ReserveExpectations]: the new state, the windows this call wrote and the items it refused. *)
Definition ReserveExpectations (pol : LedgerPolicy) (db : Ledger) (now : Time)
    (items : list ExpectationAdvance)
    : result LedgerError (Ledger * list (string * Time) * list (string * LedgerError)) :=
  let valid := List.filter (fun a => is_ok (ExpectationAdvance_Validate a)) items in
  let rejected := omap (fun a => match ExpectationAdvance_Validate a with
                                 | Ok _ => None
                                 | Err e => Some (adv_MonitorID a, e)
                                 end) items in
  match reserveFails db valid with
  | Some e => Err e
  | None =>
    let '(db', out) := foldl (reserveOne pol now db) (db, []) valid in
    Ok (db', out, rejected)
  end.

(** ** Confirmation *)
Record ExpectationConfirm := {
  ec_MonitorID : string;
  ec_DueAt : Time;
  ec_JobID : string;
  ec_WithheldReason : string;
  ec_IssuedAt : Time;
}.

Definition withheldReasonAdmissible (reason : string) : bool :=
  bool_decide (reason = "") || bool_decide (reason = "publish_failed").

Definition ExpectationConfirm_check (c : ExpectationConfirm) : result LedgerError unit :=
  let! _ := refuse_if (bool_decide (ec_MonitorID c = "") || bool_decide (ec_JobID c = "") || IsZero (ec_DueAt c))
              ConfirmIdentity in
  let! _ := refuse_if (negb (withheldReasonAdmissible (ec_WithheldReason c))) ConfirmReason in
  refuse_if (bool_decide (ec_WithheldReason c = "") && IsZero (ec_IssuedAt c)) ConfirmNoInstant.

Definition confirmedRun (r : ExpectedRun) (c : ExpectationConfirm) : ExpectedRun :=
  {| er_MonitorID := er_MonitorID r; er_DueAt := er_DueAt r; er_JobID := er_JobID r;
     er_CarrierGeneration := er_CarrierGeneration r; er_ExecutionRevision := er_ExecutionRevision r;
     er_Region := er_Region r; er_IntervalSeconds := er_IntervalSeconds r;
     er_IntervalAssumed := er_IntervalAssumed r; er_ReservedAt := er_ReservedAt r;
     er_WithheldReason := ec_WithheldReason c;
     er_IssuedAt := if bool_decide (ec_WithheldReason c = "") then Some (pgTime (ec_IssuedAt c)) else er_IssuedAt r;
     er_ClaimedAt := er_ClaimedAt r; er_TerminalAt := er_TerminalAt r; er_Outcome := er_Outcome r;
     er_RefusedAt := er_RefusedAt r; er_RefusedReason := er_RefusedReason r;
     er_SkipReason := er_SkipReason r |}.

Definition confirmable (r : ExpectedRun) (c : ExpectationConfirm) : bool :=
  bool_decide (er_JobID r = uuidOf (ec_JobID c)) && bool_decide (is_Some (er_ReservedAt r))
  && bool_decide (er_IssuedAt r = None).

Definition issuedSchedule (s : Schedule) (at_ : Time) : Schedule :=
  {| sc_next_due_at := sc_next_due_at s; sc_interval_in_force := sc_interval_in_force s;
     sc_confirm_phase := sc_confirm_phase s; sc_execution_revision := sc_execution_revision s;
     sc_last_issued_at := Some at_; sc_schedule_created_at := sc_schedule_created_at s;
     sc_gap_truncated_before := sc_gap_truncated_before s |}.

Definition confirmOne (acc : Ledger * Z) (c : ExpectationConfirm) : Ledger * Z :=
  let '(db, n) := acc in
  let key := (ec_MonitorID c, pgTime (ec_DueAt c)) in
  match lg_runs db !! key with
  | Some r =>
    if confirmable r c then
      let db1 := withRuns db (<[key := confirmedRun r c]> (lg_runs db)) in
      let db2 := if bool_decide (ec_WithheldReason c = "")
                 then withSchedule db1 (alter (fun s => issuedSchedule s (pgTime (ec_IssuedAt c)))
                                          (ec_MonitorID c) (lg_schedule db1))
                 else db1 in
      (db2, n + 1)
    else (db, n)
  | None => (db, n)
  end.

Fixpoint confirmChecks (items : list ExpectationConfirm) : result LedgerError unit :=
  match items with
  | [] => Ok tt
  | c :: items => let! _ := ExpectationConfirm_check c in confirmChecks items
  end.

Definition ConfirmExpectations (db : Ledger) (items : list ExpectationConfirm) : result LedgerError (Ledger * Z) :=
  let! _ := confirmChecks items in
  let! _ := refuse_if (existsb (fun c => negb (validJobUUID (ec_JobID c))) items) InvalidUUID in
  Ok (foldl confirmOne (db, 0) items).

(** ** Configuration writes ([syncMonitorScheduleTx]) *)

(** [closeScheduleSegmentSQL] for one monitor. *)
Definition closeSegment (pol : LedgerPolicy) (now : Time) (id : string) (db : Ledger) : Ledger :=
  match lg_schedule db !! id, lg_monitors db !! id with
  | Some s, Some m =>
    let ws := missedWindows (now - ExpectedRunRetentionDays pol * Day) now (firstExpected s)
                (sc_interval_in_force s) (expectedRunGapWindowsMax pol) in
    let s' := {| sc_next_due_at := sc_next_due_at s; sc_interval_in_force := sc_interval_in_force s;
                 sc_confirm_phase := sc_confirm_phase s && (0 <? mo_ConfirmIntervalSeconds m)
                                     && (1 <? mo_FailureThreshold m);
                 sc_execution_revision := mo_execution_revision m;
                 sc_last_issued_at := sc_last_issued_at s;
                 sc_schedule_created_at := sc_schedule_created_at s;
                 sc_gap_truncated_before :=
                   greatest (sc_gap_truncated_before s) (gapFence (firstExpected s) ws) |} in
    withSchedule (withRuns db (recordMissed id s m ws (lg_runs db))) (<[id := s']> (lg_schedule db))
  | _, _ => db
  end.

Definition freshSchedule (m : MonitorRow) (now : Time) : Schedule :=
  {| sc_next_due_at := now; sc_interval_in_force := mo_IntervalSeconds m; sc_confirm_phase := false;
     sc_execution_revision := mo_execution_revision m; sc_last_issued_at := None;
     sc_schedule_created_at := now; sc_gap_truncated_before := None |}.

(** A monitor that no longer participates loses its row; one that newly participates gets one. *)
Definition participation (now : Time) (id : string) (db : Ledger) : Ledger :=
  match lg_monitors db !! id with
  | None => db
  | Some m =>
    if participant m
    then match lg_schedule db !! id with
         | Some _ => db
         | None => withSchedule db (<[id := freshSchedule m now]> (lg_schedule db))
         end
    else withSchedule db (delete id (lg_schedule db))
  end.

Definition syncMonitorScheduleTx (pol : LedgerPolicy) (now : Time) (ids : list string) (db : Ledger) : Ledger :=
  let closed := foldl (fun db id => closeSegment pol now id db) db ids in
  foldl (fun db id => participation now id db) closed ids.

(** [PurgeOldExpectedRuns] at the cutoff the scheduler passes: the cutoff is a midnight, so
    dropping the daily partitions wholly before it and deleting the older rows of the default
    partition removes exactly the windows due before it. *)
Definition PurgeOldExpectedRuns (pol : LedgerPolicy) (now : Time) (db : Ledger) : Ledger :=
  let cutoff := ExpectedRunRetentionCutoff pol now in
  withRuns db (base.filter (fun kv => cutoff <= kv.1.2) (lg_runs db)).

(** ** How a window evolves

    [run_le r r'] is what every statement may do to a stored window: the window's identity,
    generation, spacing, reservation and skip reason never change; a job, once recorded, stays;
    a publish instant, once recorded, stays; the claim, terminal and refusal instants only move
    earlier; a window adopted by a job is adopted by its outcome; and a window that was skipped on purpose keeps every field a run would fill. *)
Definition opt_sticky {A} (a b : option A) : Prop := match a with Some _ => b = a | None => True end.
Definition opt_earlier (a b : option Time) : Prop :=
  match a with Some t => exists u, b = Some u /\ u <= t | None => True end.

Record run_le (r r' : ExpectedRun) : Prop := {
  rle_id : er_MonitorID r' = er_MonitorID r /\ er_DueAt r' = er_DueAt r;
  rle_spacing : er_ExecutionRevision r' = er_ExecutionRevision r /\ er_Region r' = er_Region r /\
                er_IntervalSeconds r' = er_IntervalSeconds r /\ er_IntervalAssumed r' = er_IntervalAssumed r;
  rle_reserved : er_ReservedAt r' = er_ReservedAt r;
  rle_skip : er_SkipReason r' = er_SkipReason r;
  rle_adopted : er_JobID r = "" -> er_JobID r' <> "" ->
    is_Some (er_TerminalAt r') /\ LedgerMinCarrier <= er_CarrierGeneration r';
  rle_job : er_JobID r <> "" -> er_JobID r' = er_JobID r /\ er_CarrierGeneration r' = er_CarrierGeneration r;
  rle_issued : opt_sticky (er_IssuedAt r) (er_IssuedAt r');
  rle_claimed : opt_earlier (er_ClaimedAt r) (er_ClaimedAt r');
  rle_terminal : opt_earlier (er_TerminalAt r) (er_TerminalAt r');
  rle_refused : opt_earlier (er_RefusedAt r) (er_RefusedAt r');
  rle_unrun : er_SkipReason r <> "" ->
    er_JobID r' = er_JobID r /\ er_IssuedAt r' = er_IssuedAt r /\ er_ClaimedAt r' = er_ClaimedAt r /\
    er_TerminalAt r' = er_TerminalAt r /\ er_Outcome r' = er_Outcome r;
}.

(** What every stored window satisfies: the constraints of the table and the writers' rules. *)
Record run_wf (k : string * Time) (r : ExpectedRun) : Prop := {
  rwf_key : k = (er_MonitorID r, er_DueAt r);
  rwf_carrier : er_JobID r = "" <-> er_CarrierGeneration r = 0;
  rwf_skip : er_SkipReason r <> "" -> er_JobID r = "" /\ er_ReservedAt r = None;
  rwf_reserved : is_Some (er_ReservedAt r) -> er_JobID r <> "";
  rwf_withheld : er_WithheldReason r <> "" -> is_Some (er_ReservedAt r);
  rwf_issued : is_Some (er_IssuedAt r) -> er_JobID r <> "";
  rwf_terminal : is_Some (er_TerminalAt r) -> er_JobID r <> "" /\ (er_Outcome r = "result" \/ er_Outcome r = "probe_error");
}.

Definition runs_wf (rs : runs) : Prop := forall k r, rs !! k = Some r -> run_wf k r.
Definition runs_le (rs rs' : runs) : Prop :=
  forall k r, rs !! k = Some r -> exists r', rs' !! k = Some r' /\ run_le r r'.

(** *** Order facts *)
Lemma opt_sticky_refl {A} (a : option A) : opt_sticky a a.
Proof. by destruct a. Qed.
Lemma opt_earlier_refl a : opt_earlier a a.
Proof. destruct a; simpl; [eauto with lia|done]. Qed.
Lemma opt_earlier_earliest a t : opt_earlier a (earliest a t).
Proof. destruct a; simpl; [|done]. eexists. split; [done|lia]. Qed.

#[export] Hint Resolve opt_sticky_refl opt_earlier_refl opt_earlier_earliest : cerbix.

#[global] Instance run_le_preorder : PreOrder run_le.
Proof.
  split.
  - intros r. split; auto with cerbix; done.
  - intros a b c [I1 S1 R1 K1 A1 J1 P1 C1 T1 F1 U1] [I2 S2 R2 K2 A2 J2 P2 C2 T2 F2 U2].
    destruct I1, I2, S1 as (?&?&?&?), S2 as (?&?&?&?).
    split; try (repeat split; congruence).
    + intros Ha Hc. destruct (decide (er_JobID b = "")) as [Hb|Hb]; [by apply A2|].
      destruct (A1 Ha Hb) as [[u Hu] Hge], (J2 Hb) as [_ Eg]. rewrite Hu in T2.
      destruct T2 as (v & Ev & _). rewrite Ev, Eg. by split.
    + intros H'. destruct (J1 H') as [E1 E2]. destruct J2; [congruence|]. split; congruence.
    + destruct (er_IssuedAt a); simpl in *; [|done]. rewrite P1 in P2. exact P2.
    + destruct (er_ClaimedAt a); simpl in *; [|done]. destruct C1 as (u & E & ?). rewrite E in C2.
      destruct C2 as (v & ? & ?). exists v. split; [done|lia].
    + destruct (er_TerminalAt a); simpl in *; [|done]. destruct T1 as (u & E & ?). rewrite E in T2.
      destruct T2 as (v & ? & ?). exists v. split; [done|lia].
    + destruct (er_RefusedAt a); simpl in *; [|done]. destruct F1 as (u & E & ?). rewrite E in F2.
      destruct F2 as (v & ? & ?). exists v. split; [done|lia].
    + intros Hs. destruct (U1 Hs) as (?&?&?&?&?). destruct U2 as (?&?&?&?&?); [congruence|].
      repeat split; congruence.
Qed.

#[global] Instance runs_le_preorder : PreOrder runs_le.
Proof.
  split.
  - intros rs k r Hr. exists r. split; [done|reflexivity].
  - intros a b c Hab Hbc k r Hr. destruct (Hab k r Hr) as (r' & Hr' & L1).
    destruct (Hbc k r' Hr') as (r'' & Hr'' & L2). exists r''. split; [done|]. by transitivity r'.
Qed.

(** *** Storing *)
Lemma runs_le_update rs k r r' : rs !! k = Some r -> run_le r r' -> runs_le rs (<[k := r']> rs).
Proof.
  intros Hk Hle k' q Hq. destruct (decide (k' = k)) as [->|Hne].
  - exists r'. rewrite lookup_insert_eq. split; [done|]. congruence.
  - exists q. rewrite lookup_insert_ne by done. split; [done|reflexivity].
Qed.

Lemma runs_le_new rs k r' : rs !! k = None -> runs_le rs (<[k := r']> rs).
Proof.
  intros Hk k' q Hq. exists q. rewrite lookup_insert_ne by congruence. split; [done|reflexivity].
Qed.

Lemma runs_wf_update rs k r' : runs_wf rs -> run_wf k r' -> runs_wf (<[k := r']> rs).
Proof.
  intros Hwf Hr' k' q. destruct (decide (k' = k)) as [->|Hne].
  - rewrite lookup_insert_eq. congruence.
  - rewrite lookup_insert_ne by done. apply Hwf.
Qed.

Lemma insertRun_le rs r : runs_le rs (insertRun rs r).
Proof. unfold insertRun. destruct (rs !! _) eqn:E; [reflexivity|by apply runs_le_new]. Qed.

Lemma insertRun_wf rs r : run_wf (er_MonitorID r, er_DueAt r) r -> runs_wf rs -> runs_wf (insertRun rs r).
Proof. intros Hr Hwf. unfold insertRun. destruct (rs !! _); [done|by apply runs_wf_update]. Qed.

Lemma insertRun_present rs r : is_Some (insertRun rs r !! (er_MonitorID r, er_DueAt r)).
Proof. unfold insertRun. destruct (rs !! _) eqn:E; [by rewrite E|]. by rewrite lookup_insert_eq. Qed.

Lemma runs_le_present rs rs' k : runs_le rs rs' -> is_Some (rs !! k) -> is_Some (rs' !! k).
Proof. intros Hle [r Hr]. destruct (Hle k r Hr) as (r' & E & _). by rewrite E. Qed.

Lemma neverIssued_wf id s m due : run_wf (id, due) (neverIssued id s m due).
Proof. split; simpl; try done; intros [? [=]]. Qed.

Lemma recordMissed_ind (P : runs -> Prop) id s m ws rs :
  P rs -> (forall rs due, P rs -> P (insertRun rs (neverIssued id s m due))) ->
  P (recordMissed id s m ws rs).
Proof.
  intros H0 Hs. unfold recordMissed. revert rs H0. induction ws as [|w ws IH]; intros rs H0; simpl; [done|].
  apply IH, Hs, H0.
Qed.

Lemma recordMissed_le id s m ws rs : runs_le rs (recordMissed id s m ws rs).
Proof.
  apply (recordMissed_ind (fun rs' => runs_le rs rs')); [reflexivity|].
  intros rs' due H. etransitivity; [exact H|apply insertRun_le].
Qed.

Lemma recordMissed_wf id s m ws rs : runs_wf rs -> runs_wf (recordMissed id s m ws rs).
Proof.
  intros H. apply recordMissed_ind; [done|]. intros rs' due Hwf.
  apply insertRun_wf; [apply neverIssued_wf|done].
Qed.

Lemma recordMissed_present id s m ws rs due : due ∈ ws -> is_Some (recordMissed id s m ws rs !! (id, due)).
Proof.
  unfold recordMissed. revert rs. induction ws as [|w ws IH]; intros rs Hin; [by apply elem_of_nil in Hin|].
  simpl. apply elem_of_cons in Hin as [->|Hin]; [|by apply IH].
  change (is_Some (recordMissed id s m ws (insertRun rs (neverIssued id s m w)) !! (id, w))).
  eapply runs_le_present; [apply recordMissed_le|]. apply (insertRun_present rs (neverIssued id s m w)).
Qed.

(** *** Merges *)
Lemma lowerHex_not_empty s : s <> "" -> uuidOf s <> "".
Proof. by destruct s. Qed.

Lemma validJobUUID_nonempty s : validJobUUID s = true -> uuidOf s <> "".
Proof. destruct s; [done|]. intros _. by apply lowerHex_not_empty. Qed.

Lemma admissible_inv k r job rev :
  run_wf k r -> job <> "" -> admissible r job rev = true ->
  er_SkipReason r = "" /\ er_ExecutionRevision r = rev /\ (er_JobID r = job \/ er_JobID r = "").
Proof.
  intros Hwf Hj H. unfold admissible in H. apply andb_prop in H as [H Hrev].
  apply orb_prop in H. rewrite andb_true_iff, !bool_decide_eq_true in H.
  split; [|split; [by apply Z.eqb_eq|tauto]].
  destruct (decide (er_SkipReason r = "")) as [|Hne]; [done|].
  destruct (rwf_skip _ _ Hwf Hne) as [Hjob _]. destruct H as [H|[_ H]]; congruence.
Qed.

Lemma mergeTerminal_le k r job issued at_ o :
  run_wf k r -> er_SkipReason r = "" -> run_le r (mergeTerminal r job issued at_ o).
Proof.
  intros Hwf Hs. split; simpl; auto with cerbix; try congruence.
  - intros Hj _. split; [done|]. by rewrite (proj1 (rwf_carrier _ _ Hwf) Hj).
  - intros Hj. rewrite bool_decide_false by done. split; [done|].
    destruct (Z.eqb_spec (er_CarrierGeneration r) 0) as [E|]; [|done]. by apply (rwf_carrier _ _ Hwf) in E.
  - destruct (er_ReservedAt r), (er_IssuedAt r); simpl; done.
Qed.

Lemma mergeTerminal_wf k r job issued at_ o :
  run_wf k r -> er_SkipReason r = "" -> job <> "" -> run_wf k (mergeTerminal r job issued at_ o).
Proof.
  intros Hwf Hs Hj. destruct Hwf as [K C S R W I T]. split; simpl; try done.
  - split.
    + case_bool_decide; [done|intros E; congruence].
    + destruct (Z.eqb_spec (er_CarrierGeneration r) 0) as [E|E]; [done|]. intros E'. congruence.
  - intros H. by specialize (R H); rewrite bool_decide_false by done.
  - intros H. case_bool_decide; [done|done].
  - intros _. split; [by case_bool_decide|]. destruct o, (er_TerminalAt r) as [t|]; simpl; auto.
    all: destruct (at_ <? t); simpl; auto; apply T; done.
Qed.

Lemma mergeClaim_le r at_ : er_SkipReason r = "" -> run_le r (mergeClaim r at_).
Proof. intros Hs. split; simpl; auto with cerbix; congruence. Qed.

Lemma mergeClaim_wf k r at_ : run_wf k r -> run_wf k (mergeClaim r at_).
Proof. intros [K C S R W I T]. by split. Qed.

Lemma mergeRefusal_le r at_ reason : run_le r (mergeRefusal r at_ reason).
Proof. split; simpl; auto with cerbix; done. Qed.

Lemma mergeRefusal_wf k r at_ reason : run_wf k r -> run_wf k (mergeRefusal r at_ reason).
Proof. intros [K C S R W I T]. by split. Qed.

Lemma confirmedRun_le k r c : run_wf k r -> confirmable r c = true -> run_le r (confirmedRun r c).
Proof.
  intros Hwf H. unfold confirmable in H. bool_facts. repeat case_bool_decide; try done.
  split; simpl; auto with cerbix; try done.
  - match goal with E : er_IssuedAt r = None |- _ => by rewrite E end.
  - intros Hs. destruct (rwf_skip _ _ Hwf Hs) as [_ E]. destruct (er_ReservedAt r); [done|].
    by match goal with E : is_Some None |- _ => destruct E end.
Qed.

Lemma confirmedRun_wf k r c : run_wf k r -> confirmable r c = true -> run_wf k (confirmedRun r c).
Proof.
  intros [K C S R W I T] H. unfold confirmable in H. bool_facts. repeat case_bool_decide; try done.
  split; simpl; auto.
Qed.

Lemma reservedRun_wf s a :
  ExpectationAdvance_Validate a = Ok tt -> validJobUUID (adv_JobID a) = true \/ adv_JobID a = "" ->
  adv_JobID a = "" \/ wrap32 (adv_CarrierGeneration a) <> 0 ->
  run_wf (adv_MonitorID a, sc_next_due_at s) (reservedRun s a).
Proof.
  intros Hv Hj Hc. unfold ExpectationAdvance_Validate in Hv. rewrite !rbind_unit_Ok, !refuse_if_Ok in Hv.
  destruct Hv as (_ & Hx & _). apply eqb_false_iff in Hx.
  split; simpl; try done.
  - destruct (decide (adv_JobID a = "")) as [E|E].
    + rewrite E. done.
    + rewrite bool_decide_false by done. simpl. destruct Hc as [Hc|Hc]; [done|].
      split; intros H; [|done]. by apply lowerHex_not_empty in E.
  - intros Hs. destruct (decide (adv_JobID a = "")) as [E|E]; [by rewrite E|].
    by rewrite !bool_decide_false in Hx by done.
  - destruct (decide (adv_JobID a = "")) as [E|E].
    + rewrite E. by intros [? ?].
    + intros _. by apply lowerHex_not_empty.
Qed.

(** *** Statements *)

(** What a statement on the windows may do: keep the table well formed, move each stored window
    forward, and leave the monitors and their generations alone. *)
Record moves (db db' : Ledger) : Prop := {
  mv_wf : runs_wf (lg_runs db) -> runs_wf (lg_runs db');
  mv_le : runs_wf (lg_runs db) -> runs_le (lg_runs db) (lg_runs db');
  mv_monitors : lg_monitors db' = lg_monitors db;
  mv_revisions : lg_revisions db' = lg_revisions db;
}.

#[global] Instance moves_preorder : PreOrder moves.
Proof.
  split.
  - intros db. split; auto. intros _. reflexivity.
  - intros a b c [W1 L1 M1 R1] [W2 L2 M2 R2]. split; [auto| |congruence|congruence].
    intros Hwf. etransitivity; [by apply L1|]. by apply L2, W1.
Qed.

Lemma moves_runs db rs :
  (runs_wf (lg_runs db) -> runs_wf rs) -> (runs_wf (lg_runs db) -> runs_le (lg_runs db) rs) ->
  moves db (withRuns db rs).
Proof. intros. by split. Qed.

Lemma moves_schedule db s : moves db (withSchedule db s).
Proof. split; [done| |done|done]. intros _. simpl. reflexivity. Qed.

Lemma moves_update db k r r' :
  lg_runs db !! k = Some r -> (run_wf k r -> run_le r r' /\ run_wf k r') ->
  moves db (withRuns db (<[k := r']> (lg_runs db))).
Proof.
  intros Hr H. apply moves_runs; intros Hwf.
  - apply runs_wf_update; [done|]. by apply H, Hwf.
  - eapply runs_le_update; [done|]. by apply H, Hwf.
Qed.

Lemma fill_spec db ev db' :
  fillExpectedRunTerminalTx db ev = Ok db' -> validJobUUID (tm_JobID ev) = true ->
  moves db db' /\ lg_schedule db' = lg_schedule db.
Proof.
  intros H Hj%validJobUUID_nonempty. unfold fillExpectedRunTerminalTx in H.
  assert (moves db db /\ lg_schedule db = lg_schedule db) as Hid by by split.
  destruct (tm_Revision ev <? 1); [by injection H as <-|].
  destruct (lg_monitors db !! tm_MonitorID ev) as [m|]; [|by injection H as <-].
  destruct (negb (participant m)); [by injection H as <-|].
  destruct (lg_runs db !! _) as [r|] eqn:Hr.
  - destruct (refuse_if _ _) as [[]|]; [|done]. cbn [rbind] in H.
    destruct (admissible _ _ _) eqn:Ha; [|by injection H as <-].
    injection H as <-. split; [|done]. eapply moves_update; [done|]. intros Hrwf.
    destruct (admissible_inv _ _ _ _ Hrwf Hj Ha) as (Hs & _).
    split; [by eapply mergeTerminal_le|by apply mergeTerminal_wf].
  - destruct (_ <=? _); [|by injection H as <-]. unfold refuse_if in H. destruct (_ <=? 0); [done|].
    cbn [rbind] in H. injection H as <-. split; [|done]. apply moves_runs; intros Hwf.
    + apply runs_wf_update; [done|]. split; simpl; try done.
      intros _. split; [done|]. destruct (tm_Outcome ev); auto.
    + by apply runs_le_new.
Qed.

Lemma refusal_spec db id due job rev at_ reason :
  let db' := noteExpectedRunRefusalTx db id due job rev at_ reason in
  moves db db' /\ lg_schedule db' = lg_schedule db.
Proof.
  intros db'. unfold db', noteExpectedRunRefusalTx.
  destruct (_ || _); [done|]. destruct (lg_runs db !! _) as [r|] eqn:Hr; [|done].
  destruct (_ && _); [|done]. split; [|done]. eapply moves_update; [done|]. intros Hwf.
  split; [apply mergeRefusal_le|by apply mergeRefusal_wf].
Qed.

Lemma claim_spec db id due job rev at_ :
  validJobUUID job = true ->
  let db' := (recordExpectedRunClaim db id due job rev at_).1 in
  moves db db' /\ lg_schedule db' = lg_schedule db.
Proof.
  intros Hj%validJobUUID_nonempty db'. unfold db', recordExpectedRunClaim.
  destruct (lg_runs db !! _) as [r|] eqn:Hr; [|done].
  destruct (admissible _ _ _) eqn:Ha; [|done]. split; [|done].
  eapply moves_update; [done|]. intros Hwf.
  destruct (admissible_inv _ _ _ _ Hwf Hj Ha) as (Hs & _).
  split; [by apply mergeClaim_le|by apply mergeClaim_wf].
Qed.

Lemma confirmOne_moves acc c : moves acc.1 (confirmOne acc c).1.
Proof.
  destruct acc as [db n]. unfold confirmOne. destruct (lg_runs db !! _) as [r|] eqn:Hr; [|done].
  destruct (confirmable r c) eqn:Hc; [|done]. simpl.
  etransitivity; [eapply (moves_update _ _ _ (confirmedRun r c)); [done|]|].
  - intros Hwf. split; [by eapply confirmedRun_le|by apply confirmedRun_wf].
  - case_bool_decide; [apply moves_schedule|reflexivity].
Qed.

Lemma confirm_spec db items db' n : ConfirmExpectations db items = Ok (db', n) -> moves db db'.
Proof.
  unfold ConfirmExpectations. destruct (confirmChecks items) as [[]|]; [|done]. cbn [rbind].
  destruct (refuse_if _ _) as [[]|]; [|done]. cbn [rbind]. intros [= H].
  change db with (db, 0).1. replace db' with (foldl confirmOne (db, 0) items).1 by by rewrite H.
  clear H db' n. generalize (db, 0). induction items as [|c items IH]; intros acc; simpl; [done|].
  etransitivity; [apply confirmOne_moves|apply IH].
Qed.

Lemma closeSegment_moves pol now id db : moves db (closeSegment pol now id db).
Proof.
  unfold closeSegment. destruct (lg_schedule db !! id), (lg_monitors db !! id); try done.
  etransitivity; [|apply moves_schedule]. apply moves_runs; intros Hwf;
    [by apply recordMissed_wf|apply recordMissed_le].
Qed.

Lemma participation_moves now id db : moves db (participation now id db).
Proof.
  unfold participation. destruct (lg_monitors db !! id) as [m|]; [|done].
  destruct (participant m); [|apply moves_schedule].
  destruct (lg_schedule db !! id); [done|apply moves_schedule].
Qed.

Lemma foldl_moves {A} (f : Ledger -> A -> Ledger) (l : list A) db :
  (forall db x, moves db (f db x)) -> moves db (foldl f db l).
Proof.
  intros Hf. revert db. induction l as [|x l IH]; intros db; simpl; [done|].
  etransitivity; [apply Hf|apply IH].
Qed.

Lemma sync_moves pol now ids db : moves db (syncMonitorScheduleTx pol now ids db).
Proof.
  unfold syncMonitorScheduleTx. etransitivity.
  - apply (foldl_moves (fun db id => closeSegment pol now id db)). intros. apply closeSegment_moves.
  - apply (foldl_moves (fun db id => participation now id db)). intros. apply participation_moves.
Qed.

(** The items a reservation runs on: validated, with identities and carriers the database can
    hold. *)
Definition reservable (a : ExpectationAdvance) : Prop :=
  ExpectationAdvance_Validate a = Ok tt /\ (validJobUUID (adv_JobID a) = true \/ adv_JobID a = "") /\
  (adv_JobID a = "" \/ wrap32 (adv_CarrierGeneration a) <> 0).

Lemma reserveOne_moves pol now db0 acc a :
  reservable a -> moves acc.1 (reserveOne pol now db0 acc a).1.
Proof.
  intros (Hv & Hj & Hc). destruct acc as [db out]. unfold reserveOne.
  destruct (picked db0 a) as [[s m]|]; [|done]. simpl.
  etransitivity; [|apply moves_schedule]. apply moves_runs; intros Hwf.
  - apply recordMissed_wf, insertRun_wf; [|done]. by apply reservedRun_wf.
  - etransitivity; [apply insertRun_le|apply recordMissed_le].
Qed.

(** Carriers are generation numbers: they fit the column. *)
Definition carriers_fit (items : list ExpectationAdvance) : Prop :=
  Forall (fun a => adv_CarrierGeneration a < 2 ^ 31) items.

Lemma wrap32_id z : - 2 ^ 31 <= z < 2 ^ 31 -> wrap32 z = z.
Proof. intros H. unfold wrap32. rewrite Z.mod_small by lia. lia. Qed.

Lemma Validate_carrier a :
  ExpectationAdvance_Validate a = Ok tt -> adv_CarrierGeneration a < 2 ^ 31 ->
  adv_JobID a = "" \/ wrap32 (adv_CarrierGeneration a) <> 0.
Proof.
  intros Hv Hc. unfold ExpectationAdvance_Validate in Hv. rewrite !rbind_unit_Ok, !refuse_if_Ok in Hv.
  destruct Hv as (_ & _ & Hx & _). apply negb_false_iff, eqb_prop in Hx.
  destruct (decide (adv_JobID a = "")) as [|Hne]; [by left|right].
  rewrite bool_decide_false in Hx by done. simpl in Hx. symmetry in Hx. apply Z.ltb_lt in Hx.
  rewrite wrap32_id by lia. lia.
Qed.

(** The items a call really runs on, once it has not failed. *)
Definition validItems (items : list ExpectationAdvance) : list ExpectationAdvance :=
  List.filter (fun a => is_ok (ExpectationAdvance_Validate a)) items.

Lemma reserve_inv pol db now items db' out rej :
  ReserveExpectations pol db now items = Ok (db', out, rej) ->
  foldl (reserveOne pol now db) (db, []) (validItems items) = (db', out) /\
  reserveFails db (validItems items) = None.
Proof.
  unfold ReserveExpectations. fold (validItems items).
  destruct (reserveFails db (validItems items)) eqn:Hf; [done|].
  destruct (foldl _ _ _) as [d o]. by intros [= -> -> _].
Qed.

Lemma validItems_reservable db items :
  carriers_fit items -> reserveFails db (validItems items) = None -> Forall reservable (validItems items).
Proof.
  intros Hfit Hf. apply List.Forall_forall. intros a Ha%list_elem_of_In.
  assert (ExpectationAdvance_Validate a = Ok tt) as Hv.
  { unfold validItems in Ha. apply elem_of_filter_b in Ha as [_ Hok].
    destruct (ExpectationAdvance_Validate a) as [[]|]; done. }
  assert (adv_CarrierGeneration a < 2 ^ 31) as Hc.
  { unfold carriers_fit in Hfit. rewrite List.Forall_forall in Hfit. apply Hfit, list_elem_of_In.
    unfold validItems in Ha. by apply elem_of_filter_b in Ha as [? _]. }
  split; [done|]. split; [|by apply Validate_carrier].
  unfold reserveFails in Hf. destruct (existsb _ _) eqn:E; [done|]. clear Hf.
  destruct (validJobUUID (adv_JobID a)) eqn:Hu; [by left|right].
  destruct (decide (adv_JobID a = "")) as [|Hne]; [done|]. exfalso.
  assert (existsb (fun a => negb (bool_decide (adv_JobID a = "")) && negb (validJobUUID (adv_JobID a)))
            (validItems items) = true) as Ht.
  { apply existsb_exists. exists a. split; [by apply list_elem_of_In|]. rewrite bool_decide_false by done. by rewrite Hu. }
  congruence.
Qed.

Lemma reserve_fold_moves pol now db0 l acc :
  Forall reservable l -> moves acc.1 (foldl (reserveOne pol now db0) acc l).1.
Proof.
  revert acc. induction l as [|a l IH]; intros acc Hall; cbn [foldl]; [done|].
  apply Forall_cons_iff in Hall as [Ha Hl]. etransitivity; [by apply reserveOne_moves|by apply IH].
Qed.

Lemma reserve_moves pol db now items db' out rej :
  carriers_fit items -> ReserveExpectations pol db now items = Ok (db', out, rej) -> moves db db'.
Proof.
  intros Hfit H. apply reserve_inv in H as [H Hf].
  pose proof (reserve_fold_moves pol now db _ (db, []) (validItems_reservable db items Hfit Hf)) as Hm.
  by rewrite H in Hm.
Qed.

(** ** The ledger as a transition system *)

(** A configuration write leaves every generation where it was or bumps it. *)
Definition config_le (ms ms' : gmap string MonitorRow) : Prop :=
  forall id m m', ms !! id = Some m -> ms' !! id = Some m' ->
    mo_execution_revision m <= mo_execution_revision m'.

Definition withConfig (db : Ledger) (ms : gmap string MonitorRow) (rv : gmap (string * Z) RevisionRow) : Ledger :=
  {| lg_runs := lg_runs db; lg_schedule := lg_schedule db; lg_monitors := ms; lg_revisions := rv |}.

Inductive ledger_step (pol : LedgerPolicy) : relation Ledger :=
| ls_reserve db now items db' out rej :
    carriers_fit items -> ReserveExpectations pol db now items = Ok (db', out, rej) -> ledger_step pol db db'
| ls_confirm db items db' n :
    ConfirmExpectations db items = Ok (db', n) -> ledger_step pol db db'
| ls_claim db id rev hb at_ now db' b :
    RecordRunClaim pol db id rev hb at_ now = Ok (db', b) -> ledger_step pol db db'
| ls_terminal db hb id rev at_ o ref db' :
    correlateExpectedRun pol hb at_ = Some ref ->
    fillExpectedRunTerminalTx db
      {| tm_MonitorID := id; tm_DueAt := ref_DueAt ref; tm_JobID := ref_JobID ref; tm_Revision := rev;
         tm_TerminalAt := at_; tm_IssuedAt := ref_IssuedAt ref; tm_Outcome := o |} = Ok db' ->
    ledger_step pol db db'
| ls_refusal db id due job rev at_ reason :
    ledger_step pol db (noteExpectedRunRefusalTx db id due job rev at_ reason)
| ls_config db ms rv ids now :
    config_le (lg_monitors db) ms ->
    ledger_step pol db (syncMonitorScheduleTx pol now ids (withConfig db ms rv)).

(** Retention, the one operation that removes windows. *)
Inductive ledger_step_or_purge (pol : LedgerPolicy) : relation Ledger :=
| lp_step db db' : ledger_step pol db db' -> ledger_step_or_purge pol db db'
| lp_purge db now : ledger_step_or_purge pol db (PurgeOldExpectedRuns pol now db).

Lemma correlate_inv pol hb at_ ref :
  correlateExpectedRun pol hb at_ = Some ref ->
  validJobUUID (ref_JobID ref) = true /\ ExpectedRunRetentionCutoff pol at_ <= ref_DueAt ref /\
  ref = {| ref_DueAt := co_DueAt hb; ref_JobID := co_JobID hb; ref_IssuedAt := co_JobIssuedAt hb |}.
Proof.
  unfold correlateExpectedRun. destruct (validJobUUID (co_JobID hb)) eqn:Hv; [|done]. cbn [negb orb].
  destruct (_ || _); [done|]. unfold Before. destruct (Z.ltb_spec (co_DueAt hb) (ExpectedRunRetentionCutoff pol at_)); [done|].
  intros [= <-]. by split.
Qed.

Lemma ledger_step_moves pol db db' :
  ledger_step pol db db' ->
  (runs_wf (lg_runs db) -> runs_wf (lg_runs db')) /\
  (runs_wf (lg_runs db) -> runs_le (lg_runs db) (lg_runs db')).
Proof.
  assert (forall db db', moves db db' -> (runs_wf (lg_runs db) -> runs_wf (lg_runs db')) /\
    (runs_wf (lg_runs db) -> runs_le (lg_runs db) (lg_runs db'))) as Hm by (by intros ? ? []).
  destruct 1 as [? ? ? ? ? ? Hfit H|? ? ? ? H|? id rev hb at_ now ? b H|? ? ? ? ? ? ? ? Hc H|?|? ms rv ids now ?].
  - eapply Hm, reserve_moves; done.
  - eapply Hm, confirm_spec; done.
  - apply Hm. unfold RecordRunClaim in H. destruct at_ as [claim|]; [|done].
    destruct (refuse_if (IsZero claim) _) as [[]|]; [|done]. cbn [rbind] in H.
    destruct (refuse_if _ _) as [[]|]; [|done]. cbn [rbind] in H.
    destruct (correlateExpectedRun pol hb now) as [ref|] eqn:Hc; [|by injection H as <- <-].
    apply correlate_inv in Hc as (Hv & _). injection H as H.
    pose proof (claim_spec db id (ref_DueAt ref) (ref_JobID ref) rev claim Hv) as [Hcl _].
    by rewrite H in Hcl.
  - apply Hm. apply correlate_inv in Hc as (Hv & _). by apply fill_spec in H as [? _].
  - apply Hm. by apply refusal_spec.
  - destruct (sync_moves pol now ids (withConfig db ms rv)) as [W L _ _]. by split.
Qed.
