(* ===== verification/ExpectedRunFacts.v ===== *)
(** * Properties of the expected-run ledger

    Order independence of deliveries, the verdict as a state machine, completeness of a
    reservation, and the verdict of an answered window, over the model of [ExpectedRuns]. *)

From S2P Require Import Prelude ServicePolicy MonitorRow GoString ExpectedRuns.

(** ** Deliveries

    What an executor's messages about one run do to the ledger, in whatever order and however
    often the transport delivers them. *)
Inductive RunEvent :=
| EvTerminal (at_ : Time) (o : ExpectedRunOutcome)
| EvClaim (at_ : Time)
| EvRefusal (at_ : Time) (reason : string).

(** The identity a job carries and its messages echo. *)
Record JobEcho := { je_monitor : string; je_due : Time; je_job : string; je_revision : Z; je_issued : Time }.

Definition echoKey (j : JobEcho) : string * Time := (je_monitor j, pgTime (je_due j)).

Definition terminalOf (j : JobEcho) (at_ : Time) (o : ExpectedRunOutcome) : expectedRunTerminal :=
  {| tm_MonitorID := je_monitor j; tm_DueAt := je_due j; tm_JobID := je_job j;
     tm_Revision := je_revision j; tm_TerminalAt := at_; tm_IssuedAt := je_issued j; tm_Outcome := o |}.

(** A statement that fails aborts its transaction and changes nothing. *)
Definition deliver (j : JobEcho) (db : Ledger) (e : RunEvent) : Ledger :=
  match e with
  | EvTerminal at_ o =>
    match fillExpectedRunTerminalTx db (terminalOf j at_ o) with Ok db' => db' | Err _ => db end
  | EvClaim at_ => (recordExpectedRunClaim db (je_monitor j) (je_due j) (je_job j) (je_revision j) at_).1
  | EvRefusal at_ reason =>
    noteExpectedRunRefusalTx db (je_monitor j) (je_due j) (je_job j) (je_revision j) at_ reason
  end.

(** Two messages stamped with the same instant say the same thing. *)
Definition consistent (a b : RunEvent) : Prop :=
  match a, b with
  | EvTerminal t o, EvTerminal u p => pgTime t = pgTime u -> o = p
  | EvRefusal t r, EvRefusal u s => pgTime t = pgTime u -> r = s
  | _, _ => True
  end.

(** The window this job was reserved for. *)
Record dispatched (j : JobEcho) (r : ExpectedRun) : Prop := {
  dsp_job : er_JobID r = uuidOf (je_job j);
  dsp_carrier : er_CarrierGeneration r <> 0;
  dsp_reserved : is_Some (er_ReservedAt r);
}.

(** What one delivery does to its window: nothing, or one merge. *)
Definition mergeEvent (j : JobEcho) (r : ExpectedRun) (e : RunEvent) : ExpectedRun :=
  match e with
  | EvTerminal at_ o => mergeTerminal r (uuidOf (je_job j)) (pgTime (je_issued j)) (pgTime at_) o
  | EvClaim at_ => mergeClaim r (pgTime at_)
  | EvRefusal at_ reason => mergeRefusal r (pgTime at_) reason
  end.

Definition participates (db : Ledger) (id : string) : bool :=
  match lg_monitors db !! id with Some m => participant m | None => false end.

Definition orphanIntervalOf (db : Ledger) (id : string) (rev : Z) : Z :=
  match lg_monitors db !! id with Some m => orphanInterval db id m rev | None => 0 end.

(** Whether the delivery reaches its window at all, which depends on no field a delivery moves. *)
Definition accepts (j : JobEcho) (db : Ledger) (r : ExpectedRun) (e : RunEvent) : bool :=
  (er_ExecutionRevision r =? je_revision j) &&
  match e with
  | EvTerminal _ _ => (1 <=? je_revision j) && participates db (je_monitor j)
                      && (0 <? orphanIntervalOf db (je_monitor j) (je_revision j))
  | EvClaim _ => true
  | EvRefusal _ reason => negb (bool_decide (je_job j = "")) && negb (IsZero (je_due j))
                          && negb (bool_decide (reason = "")) && (1 <=? je_revision j)
  end.

Lemma withRuns_id db k r : lg_runs db !! k = Some r -> withRuns db (<[k := r]> (lg_runs db)) = db.
Proof. intros H. destruct db as [rs s m v]. unfold withRuns. simpl in *. by rewrite insert_id. Qed.

Lemma deliver_spec j db r e :
  lg_runs db !! echoKey j = Some r -> dispatched j r ->
  deliver j db e = withRuns db (<[echoKey j := if accepts j db r e then mergeEvent j r e else r]> (lg_runs db)).
Proof.
  intros Hr [Hjob Hc Hres].
  assert (admissible r (uuidOf (je_job j)) (je_revision j) = (er_ExecutionRevision r =? je_revision j)) as Hadm.
  { unfold admissible. by rewrite bool_decide_true by done. }
  pose proof (withRuns_id db _ _ Hr) as Hid. unfold echoKey in *.
  unfold accepts. destruct e as [at_ o|at_|at_ reason]; cbn [deliver mergeEvent].
  - unfold fillExpectedRunTerminalTx, participates, orphanIntervalOf.
    cbn [terminalOf tm_Revision tm_MonitorID tm_DueAt tm_IssuedAt tm_TerminalAt tm_JobID tm_Outcome].
    destruct (Z.ltb_spec (je_revision j) 1) as [Hrev|Hrev];
      [replace (1 <=? je_revision j) with false by lia; by rewrite andb_false_r, Hid|].
    replace (1 <=? je_revision j) with true by lia. cbn [andb].
    destruct (lg_monitors db !! je_monitor j) as [m|]; [|by rewrite andb_false_r, Hid].
    destruct (participant m); cbn [negb andb]; [|by rewrite andb_false_r, Hid].
    rewrite Hr. unfold refuse_if.
    destruct (Z.leb_spec (orphanInterval db (je_monitor j) m (je_revision j)) 0) as [Hi|Hi];
      [replace (0 <? _) with false by lia; cbn [rbind]; by rewrite andb_false_r, Hid|].
    replace (0 <? _) with true by lia. cbn [rbind]. rewrite Hadm, andb_true_r.
    destruct (er_ExecutionRevision r =? je_revision j); [done|by rewrite Hid].
  - unfold recordExpectedRunClaim. rewrite Hr, Hadm, andb_true_r.
    destruct (er_ExecutionRevision r =? je_revision j); [done|by rewrite Hid].
  - unfold noteExpectedRunRefusalTx. rewrite Hr, (bool_decide_true (er_JobID r = uuidOf (je_job j))) by done. cbn [andb].
    replace (1 <=? je_revision j) with (negb (je_revision j <? 1)) by lia.
    destruct (bool_decide (je_job j = "")), (IsZero (je_due j)), (bool_decide (reason = "")),
      (je_revision j <? 1); cbn [orb negb andb]; rewrite ?andb_false_r, ?andb_true_r; try by rewrite Hid.
    destruct (er_ExecutionRevision r =? je_revision j); [done|by rewrite Hid].
Qed.

(** Which attribute the pair of an instant and its attribute keeps. *)
Definition keepEarlier (old : option Time) (at_ : Time) (new was : string) : string :=
  match old with None => new | Some t => if at_ <? t then new else was end.

Lemma keepEarlier_comm old a b x y w :
  (a = b -> x = y) ->
  keepEarlier (earliest old a) b y (keepEarlier old a x w) = keepEarlier (earliest old b) a x (keepEarlier old b y w).
Proof.
  intros Heq. unfold keepEarlier, earliest. destruct old as [t|].
  - destruct (Z.ltb_spec a t), (Z.ltb_spec b t); repeat case_match; try done; try (f_equal; lia);
      repeat match goal with H : (_ <? _) = _ |- _ => first [apply Z.ltb_lt in H|apply Z.ltb_ge in H] end;
      try lia; try (apply Heq; lia); try (symmetry; apply Heq; lia).
  - destruct (Z.ltb_spec a b), (Z.ltb_spec b a); try done; try lia. apply Heq. lia.
Qed.

Lemma mergeEvent_comm j r a b :
  dispatched j r -> consistent a b ->
  mergeEvent j (mergeEvent j r a) b = mergeEvent j (mergeEvent j r b) a.
Proof.
  intros [Hjob Hc [res Hres]] Hcons.
  destruct a as [t o|t|t s], b as [u p|u|u q]; cbn [mergeEvent consistent] in *;
    unfold mergeTerminal, mergeClaim, mergeRefusal; cbn -[earliest pgTime Z.ltb]; rewrite ?Hres; try done.
  all: try (f_equal; apply earliest_comm).
  - f_equal.
    + apply earliest_comm.
    + apply (keepEarlier_comm (er_TerminalAt r) (pgTime t) (pgTime u) (outcomeText o) (outcomeText p) (er_Outcome r)).
      intros E. by rewrite (Hcons E).
  - f_equal; [apply earliest_comm|].
    by apply (keepEarlier_comm (er_RefusedAt r) (pgTime t) (pgTime u) s q (er_RefusedReason r)).
Qed.

Lemma accepts_stable j db rs r r' e :
  er_ExecutionRevision r' = er_ExecutionRevision r -> accepts j (withRuns db rs) r' e = accepts j db r e.
Proof. intros E. unfold accepts. by rewrite E. Qed.

Lemma dispatched_merge j r e : dispatched j r -> dispatched j (mergeEvent j r e).
Proof.
  intros [Hj Hc Hr]. split; destruct e; simpl; try done.
  - by case_bool_decide.
  - by destruct (er_CarrierGeneration r =? 0).
Qed.

Lemma mergeEvent_revision j r e : er_ExecutionRevision (mergeEvent j r e) = er_ExecutionRevision r.
Proof. by destruct e. Qed.

Lemma deliver_comm j db r a b :
  lg_runs db !! echoKey j = Some r -> dispatched j r -> consistent a b ->
  deliver j (deliver j db a) b = deliver j (deliver j db b) a.
Proof.
  intros Hr Hd Hc.
  assert (forall x y, deliver j (deliver j db x) y =
    withRuns db (<[echoKey j :=
      let q := if accepts j db r x then mergeEvent j r x else r in
      if accepts j db r y then mergeEvent j q y else q]> (lg_runs db))) as Htwo.
  { intros x y. rewrite (deliver_spec j db r x Hr Hd).
    set (q := if accepts j db r x then mergeEvent j r x else r).
    assert (dispatched j q) as Hq by (subst q; destruct (accepts j db r x); [by apply dispatched_merge|done]).
    assert (er_ExecutionRevision q = er_ExecutionRevision r) as Hrev
      by (subst q; destruct (accepts j db r x); [apply mergeEvent_revision|done]).
    rewrite (deliver_spec j _ q y); [|simpl; by rewrite lookup_insert_eq|done].
    rewrite (accepts_stable j db _ r q y Hrev). unfold withRuns. simpl. by rewrite insert_insert_eq. }
  rewrite !Htwo. do 2 f_equal. cbn zeta.
  destruct (accepts j db r a), (accepts j db r b); try done. by apply mergeEvent_comm.
Qed.

(** The window stays the dispatched window of this job along deliveries. *)
Lemma deliver_dispatched j db r e :
  lg_runs db !! echoKey j = Some r -> dispatched j r ->
  exists r', lg_runs (deliver j db e) !! echoKey j = Some r' /\ dispatched j r'.
Proof.
  intros Hr Hd. rewrite (deliver_spec j db r e Hr Hd). simpl. rewrite lookup_insert_eq. eexists. split; [done|].
  destruct (accepts j db r e); [by apply dispatched_merge|done].
Qed.

Definition pairwise_consistent (l : list RunEvent) : Prop :=
  forall a b, a ∈ l -> b ∈ l -> consistent a b.

Lemma consistent_sym a b : consistent a b -> consistent b a.
Proof. destruct a, b; simpl; try done; intros H E; symmetry; by apply H. Qed.

Lemma deliver_perm j db r l1 l2 :
  lg_runs db !! echoKey j = Some r -> dispatched j r -> pairwise_consistent l1 -> l1 ≡ₚ l2 ->
  foldl (deliver j) db l1 = foldl (deliver j) db l2.
Proof.
  intros Hr Hd Hcons Hperm. revert db r Hr Hd Hcons.
  induction Hperm as [|x l l' H IH|x y l|l l' l'' H1 IH1 H2 IH2]; intros db r Hr Hd Hcons.
  - done.
  - simpl. destruct (deliver_dispatched j db r x Hr Hd) as (r' & Hr' & Hd').
    eapply IH; [done|done|]. intros a b Ha Hb. apply Hcons; by right.
  - simpl. rewrite (deliver_comm j db r y x); [done|done|done|]. apply Hcons; set_solver.
  - etransitivity; [by eapply IH1|]. eapply IH2; [done|done|]. intros a b Ha Hb.
    apply Hcons; by rewrite H1.
Qed.

Lemma mergeEvent_idemp j r e : dispatched j r -> mergeEvent j (mergeEvent j r e) e = mergeEvent j r e.
Proof.
  intros [Hj Hc [res Hres]].
  destruct e as [t o|t|t s]; cbn [mergeEvent];
    unfold mergeTerminal, mergeClaim, mergeRefusal; cbn -[earliest pgTime Z.ltb]; rewrite ?Hres, ?earliest_idemp.
  - f_equal.
    + repeat case_bool_decide; congruence.
    + by destruct (er_CarrierGeneration r =? 0) eqn:E; rewrite ?E.
    + unfold earliest. destruct (er_TerminalAt r) as [u|].
      * destruct (Z.ltb_spec (pgTime t) (Z.min u (pgTime t))); [lia|done].
      * by rewrite Z.ltb_irrefl.
  - done.
  - f_equal. unfold earliest. destruct (er_RefusedAt r) as [u|].
    + destruct (Z.ltb_spec (pgTime t) (Z.min u (pgTime t))); [lia|done].
    + by rewrite Z.ltb_irrefl.
Qed.

Lemma deliver_idemp j db r e :
  lg_runs db !! echoKey j = Some r -> dispatched j r -> deliver j (deliver j db e) e = deliver j db e.
Proof.
  intros Hr Hd. rewrite (deliver_spec j db r e Hr Hd).
  set (q := if accepts j db r e then mergeEvent j r e else r).
  assert (dispatched j q) as Hq by (subst q; destruct (accepts j db r e); [by apply dispatched_merge|done]).
  assert (er_ExecutionRevision q = er_ExecutionRevision r) as Hrev
    by (subst q; destruct (accepts j db r e); [apply mergeEvent_revision|done]).
  rewrite (deliver_spec j _ q e); [|simpl; by rewrite lookup_insert_eq|done].
  rewrite (accepts_stable j db _ r q e Hrev). unfold withRuns. simpl. rewrite insert_insert_eq.
  do 3 f_equal. subst q. destruct (accepts j db r e); [by apply mergeEvent_idemp|done].
Qed.

#[global] Instance ExpectedRunOutcome_eq_dec : EqDecision ExpectedRunOutcome.
Proof. solve_decision. Defined.
#[global] Instance RunEvent_eq_dec : EqDecision RunEvent.
Proof. solve_decision. Defined.

Lemma deliver_dedup j db r l :
  lg_runs db !! echoKey j = Some r -> dispatched j r -> pairwise_consistent l ->
  foldl (deliver j) db (remove_dups l) = foldl (deliver j) db l.
Proof.
  revert db r. induction l as [|x l IH]; intros db r Hr Hd Hcons; [done|].
  destruct (deliver_dispatched j db r x Hr Hd) as (r' & Hr' & Hd').
  assert (pairwise_consistent l) as Hl by (intros a b Ha Hb; apply Hcons; by right).
  cbn [remove_dups]. case_decide as Hin; cbn [foldl].
  - rewrite (IH db r Hr Hd Hl). apply list_elem_of_split in Hin as (l1 & l2 & ->).
    assert (l1 ++ x :: l2 ≡ₚ x :: l1 ++ l2) as Hp by (symmetry; apply Permutation_middle).
    rewrite (deliver_perm j db r _ _ Hr Hd Hl Hp).
    rewrite (deliver_perm j _ r' _ _ Hr' Hd' Hl Hp). cbn [foldl]. by rewrite (deliver_idemp j db r x Hr Hd).
  - by apply (IH _ r').
Qed.

(** delivery is order independent and idempotent: for a window reserved for a job, the
    messages about that job (claims, outcomes, refusals) leave the ledger in the same state
    whatever order the transport hands them over in and however often it repeats them, as
    long as two messages stamped with the same instant say the same thing. *)
Theorem deliveries_order_independent j db r l1 l2
  (Hr : lg_runs db !! echoKey j = Some r) (Hd : dispatched j r)
  (Hcons : pairwise_consistent l1) (Hsame : forall e, e ∈ l1 <-> e ∈ l2) :
  foldl (deliver j) db l1 = foldl (deliver j) db l2.
Proof.
  assert (pairwise_consistent l2) as Hcons2 by (intros a b Ha%Hsame Hb%Hsame; by apply Hcons).
  rewrite <- (deliver_dedup j db r l1), <- (deliver_dedup j db r l2) by done.
  apply (deliver_perm j db r); [done|done|intros a b Ha Hb|].
  - apply Hcons; by apply elem_of_remove_dups.
  - apply NoDup_Permutation; [apply NoDup_remove_dups..|].
    intros e. by rewrite !elem_of_remove_dups.
Qed.

(** ** The verdict as a state machine *)
Inductive verdict_step : relation ExpectedRunVerdict :=
| vs_stay v : verdict_step v v
| vs_issue : verdict_step VerdictReserved VerdictIssuedNeverClaimed
| vs_claim v : v = VerdictReserved \/ v = VerdictIssuedNeverClaimed -> verdict_step v VerdictClaimedNeverFinished
| vs_finish v : v <> VerdictUnknown -> v <> VerdictCoveredLate -> verdict_step v VerdictCovered
| vs_late v : v <> VerdictUnknown -> verdict_step v VerdictCoveredLate.

Lemma Verdict_terminal r :
  (er_JobID r = "" \/ LedgerMinCarrier <= er_CarrierGeneration r) -> is_Some (er_TerminalAt r) ->
  Verdict r = VerdictCovered \/ Verdict r = VerdictCoveredLate.
Proof.
  intros Hc [t Ht]. unfold Verdict. rewrite Ht.
  replace (negb (bool_decide (er_JobID r = "")) && (er_CarrierGeneration r <? LedgerMinCarrier)) with false.
  - destruct (er_IssuedAt r); [|by left]. destruct (_ <? _); auto.
  - destruct Hc as [->|Hc]; [done|]. symmetry. apply andb_false_intro2. by apply Z.ltb_ge.
Qed.

Lemma run_le_verdict k r r' : run_wf k r -> run_wf k r' -> run_le r r' -> verdict_step (Verdict r) (Verdict r').
Proof.
  intros Hw Hw' Hle. destruct (rle_spacing _ _ Hle) as (_ & _ & Ei & _), (rle_id _ _ Hle) as [_ Ed].
  destruct (decide (er_JobID r = "")) as [Hj|Hj].
  { (* a window no job answered yet *)
    assert (er_TerminalAt r = None) as Ht.
    { destruct (er_TerminalAt r) eqn:E; [|done]. destruct (rwf_terminal _ _ Hw) as [? _]; [by rewrite E|done]. }
    assert (Verdict r = VerdictExpectedNeverIssued) as ->.
    { unfold Verdict. rewrite Hj, Ht. cbn. destruct (er_ReservedAt r) eqn:E; [|done].
      destruct (rwf_reserved _ _ Hw); [by rewrite E|done]. }
    destruct (decide (er_JobID r' = "")) as [Hj'|Hj'].
    - assert (Verdict r' = VerdictExpectedNeverIssued) as ->; [|constructor].
      unfold Verdict. rewrite Hj'. cbn.
      destruct (er_TerminalAt r') eqn:Et'; [destruct (rwf_terminal _ _ Hw') as [? _]; [by rewrite Et'|done]|].
      destruct (er_ReservedAt r') eqn:E; [|done]. destruct (rwf_reserved _ _ Hw'); [by rewrite E|done].
    - destruct (rle_adopted _ _ Hle Hj Hj') as [Ht' Hc'].
      destruct (Verdict_terminal r' (or_intror Hc') Ht') as [-> | ->]; by constructor. }
  destruct (rle_job _ _ Hle Hj) as [Ej Ec].
  destruct (er_CarrierGeneration r <? LedgerMinCarrier) eqn:Hc.
  { (* a carrier that carries no identity *)
    assert (Verdict r = VerdictUnknown) as -> by (unfold Verdict; by rewrite Hc, bool_decide_false by done).
    assert (Verdict r' = VerdictUnknown) as -> by (unfold Verdict; by rewrite Ec, Ej, Hc, bool_decide_false by done).
    constructor. }
  assert (forall q, er_JobID q = er_JobID r -> er_CarrierGeneration q = er_CarrierGeneration r ->
    Verdict q <> VerdictUnknown) as Hknown.
  { intros q Eq1 Eq2. unfold Verdict. rewrite Eq2, Hc, andb_false_r, Eq1, (bool_decide_false (er_JobID r = "")) by done.
    repeat case_match; done. }
  destruct (er_TerminalAt r') as [t'|] eqn:Ht'.
  { (* the outcome is known *)
    destruct (Verdict_terminal r') as [E|E]; [right; rewrite Ec; by apply Z.ltb_ge|by rewrite Ht'| |];
      rewrite E; [|by apply vs_late, Hknown].
    destruct (decide (Verdict r = VerdictCoveredLate)) as [El|Hnl]; [|by apply vs_finish; [apply Hknown|]].
    exfalso. unfold Verdict in El, E. rewrite Hc, andb_false_r in El.
    rewrite Ec, Ej, Hc, andb_false_r, Ht' in E. rewrite (bool_decide_false (er_JobID r = "")) in El by done.
    pose proof (rle_issued _ _ Hle) as Hi.
    destruct (er_TerminalAt r); [|repeat case_match; done].
    destruct (er_IssuedAt r); [|done]. simpl in Hi. rewrite Hi, Ei, Ed in E. congruence. }
  assert (er_TerminalAt r = None) as Ht.
  { pose proof (rle_terminal _ _ Hle) as H. destruct (er_TerminalAt r); [|done]. destruct H as (u & E & _). congruence. }
  pose proof (rle_issued _ _ Hle) as Hi. pose proof (rle_claimed _ _ Hle) as Hcl. pose proof (rle_reserved _ _ Hle) as Hr.
  unfold Verdict. rewrite Ec, Ej, Hc, Ht, Ht', Hr, andb_false_r, (bool_decide_false (er_JobID r = "")) by done.
  destruct (er_ReservedAt r), (er_IssuedAt r) as [i|], (er_ClaimedAt r) as [c|]; simpl in Hi, Hcl;
    rewrite ?Hi; try (destruct Hcl as (u & -> & _));
    destruct (er_IssuedAt r'), (er_ClaimedAt r'); try done; constructor; auto.
Qed.

Lemma purge_spec pol now db :
  runs_wf (lg_runs db) -> runs_wf (lg_runs (PurgeOldExpectedRuns pol now db)).
Proof. intros Hwf k r Hr. simpl in Hr. apply map_lookup_filter_Some in Hr as [Hr _]. by apply Hwf. Qed.

Lemma ledger_reachable_wf pol db0 db :
  runs_wf (lg_runs db0) -> rtc (ledger_step_or_purge pol) db0 db -> runs_wf (lg_runs db).
Proof.
  intros H0 Hreach. induction Hreach as [|a b c Hs Hreach IH]; [done|]. apply IH.
  destruct Hs as [a b Hs|a now]; [by apply (ledger_step_moves pol a b Hs)|by apply purge_spec].
Qed.

Lemma ledger_steps_le pol db db' :
  runs_wf (lg_runs db) -> rtc (ledger_step pol) db db' ->
  runs_wf (lg_runs db') /\ runs_le (lg_runs db) (lg_runs db').
Proof.
  intros Hwf Hsteps. induction Hsteps as [|a b c Hs Hsteps IH]; [by split|].
  destruct (ledger_step_moves pol a b Hs) as [W L]. destruct (IH (W Hwf)) as [W' L'].
  split; [done|]. etransitivity; [by apply L|done].
Qed.

(** C32: a window of the expected-run ledger never goes back. Whatever the scheduler, the
    executors and configuration writes do, in any order, a stored window keeps its identity,
    its generation, the interval that spaced it, its reservation, its skip reason and, once
    recorded, its job and its publish instant; its verdict only moves forward: an issued
    window is never unissued, a covered one stays covered (or becomes covered late, when the
    publish turns out to have been late), covered late is permanent, and a window skipped on
    purpose is never covered. *)
Theorem windows_never_regress pol db0 db db' k r
  (Hempty : lg_runs db0 = ∅) (Hreach : rtc (ledger_step_or_purge pol) db0 db)
  (Hsteps : rtc (ledger_step pol) db db') (Hr : lg_runs db !! k = Some r) :
  exists r', lg_runs db' !! k = Some r' /\ run_le r r' /\ verdict_step (Verdict r) (Verdict r') /\
    (er_SkipReason r <> "" -> Verdict r' = VerdictExpectedNeverIssued).
Proof.
  assert (runs_wf (lg_runs db)) as Hwf.
  { eapply ledger_reachable_wf; [|done]. rewrite Hempty. intros ? ? H. by rewrite lookup_empty in H. }
  destruct (ledger_steps_le pol db db' Hwf Hsteps) as [Hwf' Hle].
  destruct (Hle k r Hr) as (r' & Hr' & Hrle). exists r'.
  split; [done|]. split; [done|]. split; [eapply run_le_verdict; [by apply Hwf|by apply Hwf'|done]|].
  intros Hs. rewrite <- (rle_skip _ _ Hrle) in Hs. destruct (Hwf' k r' Hr') as [_ _ S _ _ _ T].
  destruct (S Hs) as [Ej Er]. unfold Verdict. rewrite Ej, Er. cbn.
  destruct (er_TerminalAt r'); [|done]. destruct T as [? _]; [done|congruence].
Qed.

(** ** What a reservation writes *)
Lemma reserveOne_other pol now db0 acc a id :
  id <> adv_MonitorID a ->
  lg_schedule (reserveOne pol now db0 acc a).1 !! id = lg_schedule acc.1 !! id.
Proof.
  intros Hne. destruct acc as [db out]. unfold reserveOne. destruct (picked db0 a) as [[s m]|]; [|done].
  cbn [fst lg_schedule withSchedule withRuns]. by rewrite lookup_insert_ne.
Qed.

Lemma ceilDiv_spec a b : 0 < b -> b * (ceilDiv a b - 1) < a <= b * ceilDiv a b.
Proof. intros Hb. unfold ceilDiv. Z.div_mod_to_equations. nia. Qed.

(** Every grid instant before the bound is a candidate, unless a lower bound cut it off, and
    then the fence is above it. *)
Lemma missedWindows_complete floor upper first interval cap k :
  0 < interval -> 2 <= cap -> 0 <= k ->
  let t := first + interval * Second * k in
  let ws := missedWindows floor upper first interval cap in
  t + Microsecond <= upper -> t ∈ ws \/ t < floor \/ exists f, gapFence first ws = Some f /\ t < f.
Proof.
  intros Hi Hcap Hk t ws Ht.
  set (lo := firstIndex floor upper first interval cap).
  set (hi := lastIndex upper first interval).
  set (step := interval * Second). assert (Second <= step) as Hstep by (unfold step, Second; lia).
  assert (0 < step) as Hpos by (unfold Second in *; lia).
  assert (k <= hi) as Hkhi.
  { unfold hi, lastIndex. fold step. apply Z.div_le_lower_bound; [unfold Second in *; lia|]. unfold t in Ht. fold step in Ht. lia. }
  assert (hi - lo + 1 <= cap) as Hlen.
  { unfold lo, firstIndex, hi, lastIndex. fold step.
    pose proof (ceilDiv_spec (Z.max floor (upper - interval * cap * Second) - first) step) as Hc.
    assert ((upper - Microsecond - first) / step * step <= upper - Microsecond - first) as Hd
      by (pose proof (Z.mul_div_le (upper - Microsecond - first) step); unfold Second in *; lia).
    specialize (Hc Hpos).
    assert (upper - step * cap - first <= step * ceilDiv (Z.max floor (upper - interval * cap * Second) - first) step) as Hc'
      by (unfold step in *; lia).
    unfold Microsecond in *. nia. }
  assert (ws = gapCandidates floor upper first interval cap) as Hws.
  { unfold ws, missedWindows. replace (length (gapCandidates floor upper first interval cap) - Z.to_nat cap)%nat with 0%nat; [done|].
    unfold gapCandidates. rewrite length_map, length_seqZ. fold lo hi. lia. }
  destruct (Z.le_gt_cases lo k) as [Hlo|Hlo].
  - left. rewrite Hws. unfold gapCandidates. apply list_elem_of_fmap. exists k. split; [done|].
    apply elem_of_seqZ. fold lo hi. lia.
  - destruct (Z.le_gt_cases floor t) as [Hfl|Hfl]; [|by right; left]. right; right.
    exists (first + step * lo). split; [|unfold t; fold step; nia].
    assert (0 < lo) as Hlo0 by lia.
    assert (lo <= hi) as Hne.
    { unfold lo, firstIndex in Hlo, Hlo0 |- *. fold step in Hlo, Hlo0 |- *.
      pose proof (ceilDiv_spec (Z.max floor (upper - interval * cap * Second) - first) step Hpos) as Hc.
      set (c := ceilDiv _ step) in *.
      assert (upper - interval * cap * Second > floor) as Hcapb.
      { destruct (Z.le_gt_cases (upper - interval * cap * Second) floor) as [Hf|]; [|lia]. exfalso.
        rewrite Z.max_l in Hc by lia. unfold t in Hfl. fold step in Hfl. nia. }
      rewrite Z.max_r in Hc by lia.
      unfold hi, lastIndex. fold step. apply Z.div_le_lower_bound; [lia|].
      assert (step * (c - 1) < upper - step * cap - first) by (unfold step in *; lia).
      unfold Microsecond, Second in *. nia. }
    rewrite Hws. unfold gapCandidates. fold lo hi. rewrite (seqZ_cons lo) by lia. cbn [map gapFence].
    fold step. replace (first <? first + step * lo) with true; [done|].
    symmetry. apply Z.ltb_lt. unfold Second in *. nia.
Qed.

Lemma reserveOne_le pol now db0 acc a : runs_le (lg_runs acc.1) (lg_runs (reserveOne pol now db0 acc a).1).
Proof.
  destruct acc as [db out]. unfold reserveOne. destruct (picked db0 a) as [[s m]|]; [|reflexivity]. simpl.
  etransitivity; [apply insertRun_le|apply recordMissed_le].
Qed.

Lemma reserve_fold_le pol now db0 l acc :
  runs_le (lg_runs acc.1) (lg_runs (foldl (reserveOne pol now db0) acc l).1).
Proof.
  revert acc. induction l as [|a l IH]; intros acc; cbn [foldl]; [reflexivity|].
  etransitivity; [apply reserveOne_le|apply IH].
Qed.

Lemma reserve_fold_other pol now db0 l acc id :
  (forall a, a ∈ l -> adv_MonitorID a <> id) ->
  lg_schedule (foldl (reserveOne pol now db0) acc l).1 !! id = lg_schedule acc.1 !! id.
Proof.
  revert acc. induction l as [|a l IH]; intros acc Hl; cbn [foldl]; [done|].
  rewrite IH by (intros b Hb; apply Hl; by right). apply reserveOne_other.
  intros ->. by apply (Hl a); [left|].
Qed.

(** What one item leaves: its window, the windows it passed over, and the advanced schedule. *)
Lemma reserveOne_writes pol now db0 acc a s m :
  picked db0 a = Some (s, m) ->
  let ws := missedWindows (ExpectedRunRetentionCutoff pol now) (pgTime now) (firstExpected s)
              (sc_interval_in_force s) (expectedRunGapWindowsMax pol) in
  let db' := (reserveOne pol now db0 acc a).1 in
  is_Some (lg_runs db' !! (adv_MonitorID a, sc_next_due_at s)) /\
  (forall t, t ∈ ws -> is_Some (lg_runs db' !! (adv_MonitorID a, t))) /\
  lg_schedule db' !! adv_MonitorID a = Some (advancedSchedule s a (gapFence (firstExpected s) ws)).
Proof.
  intros Hp ws db'. subst db'. destruct acc as [db out]. unfold reserveOne. rewrite Hp.
  cbn [fst lg_runs lg_schedule withSchedule withRuns]. fold ws.
  split; [|split; [intros t; apply recordMissed_present|by rewrite lookup_insert_eq]].
  eapply runs_le_present; [apply recordMissed_le|].
  apply (insertRun_present (lg_runs db) (reservedRun s a)).
Qed.

Lemma reserve_writes pol db now items db' out rej a s m :
  ReserveExpectations pol db now items = Ok (db', out, rej) -> a ∈ validItems items ->
  NoDup (map adv_MonitorID (validItems items)) -> picked db a = Some (s, m) ->
  let ws := missedWindows (ExpectedRunRetentionCutoff pol now) (pgTime now) (firstExpected s)
              (sc_interval_in_force s) (expectedRunGapWindowsMax pol) in
  is_Some (lg_runs db' !! (adv_MonitorID a, sc_next_due_at s)) /\
  (forall t, t ∈ ws -> is_Some (lg_runs db' !! (adv_MonitorID a, t))) /\
  lg_schedule db' !! adv_MonitorID a = Some (advancedSchedule s a (gapFence (firstExpected s) ws)).
Proof.
  intros H Ha Hnd Hp ws. apply reserve_inv in H as [H _].
  apply list_elem_of_split in Ha as (l1 & l2 & El). rewrite El in H, Hnd.
  rewrite map_app in Hnd. apply list.NoDup_app in Hnd as (_ & _ & Hnd). apply list.NoDup_cons in Hnd as [Hnin _].
  rewrite foldl_app in H. cbn [foldl] in H.
  set (mid := reserveOne pol now db _ a) in H.
  assert (db' = (foldl (reserveOne pol now db) mid l2).1) as Hdb' by by rewrite H.
  destruct (reserveOne_writes pol now db (foldl (reserveOne pol now db) (db, []) l1) a s m Hp) as (H1 & H2 & H3).
  fold mid in H1, H2, H3. pose proof (reserve_fold_le pol now db l2 mid) as Hle.
  rewrite Hdb'. split; [by eapply runs_le_present|]. split.
  - intros t Ht. eapply runs_le_present; [done|by apply H2].
  - rewrite reserve_fold_other; [done|]. intros b Hb E. apply Hnin. rewrite <- E. by apply list_elem_of_fmap_2.
Qed.

(** no expectation is lost in silence. When a reservation moves a monitor's schedule
    forward, the window it answers is stored, and every instant the old cadence expected
    before the reservation's clock is stored too, or lies before the retention cutoff, or lies
    before the truncation fence the same statement wrote, so that a reader never mistakes an
    unrecorded span for an answered one. (One item per monitor, a cap of at least two.) *)
Theorem reserve_records_or_fences pol db now items db' out rej a s m
  (Hok : ReserveExpectations pol db now items = Ok (db', out, rej))
  (Ha : a ∈ validItems items) (Hone : NoDup (map adv_MonitorID (validItems items)))
  (Hpick : picked db a = Some (s, m))
  (Hint : 0 < sc_interval_in_force s) (Hcap : 2 <= expectedRunGapWindowsMax pol) :
  exists s', lg_schedule db' !! adv_MonitorID a = Some s' /\ sc_next_due_at s' = pgTime (adv_NextDue a) /\
    is_Some (lg_runs db' !! (adv_MonitorID a, sc_next_due_at s)) /\
    forall k, 1 <= k ->
      let t := sc_next_due_at s + sc_interval_in_force s * Second * k in
      t + Microsecond <= pgTime now ->
      is_Some (lg_runs db' !! (adv_MonitorID a, t)) \/ t < ExpectedRunRetentionCutoff pol now \/
      exists f, sc_gap_truncated_before s' = Some f /\ t < f.
Proof.
  destruct (reserve_writes _ _ _ _ _ _ _ _ _ _ Hok Ha Hone Hpick) as (H1 & H2 & H3).
  eexists. split; [exact H3|]. split; [done|]. split; [done|]. intros k Hk t Ht.
  destruct (missedWindows_complete (ExpectedRunRetentionCutoff pol now) (pgTime now) (firstExpected s)
    (sc_interval_in_force s) (expectedRunGapWindowsMax pol) (k - 1)) as [Hin|[Hfl|(f & Hf & Hlt)]];
    [done|done|lia|unfold firstExpected; unfold t in Ht; lia| | |].
  - left. apply H2. replace t with (firstExpected s + sc_interval_in_force s * Second * (k - 1));
      [done|unfold firstExpected, t; lia].
  - right; left. unfold firstExpected in Hfl. unfold t. lia.
  - right; right. cbn [sc_gap_truncated_before advancedSchedule]. rewrite Hf.
    assert (t < f) as Htf by (unfold firstExpected in Hlt; unfold t; lia).
    destruct (sc_gap_truncated_before s) as [g|]; simpl; eexists; (split; [done|lia]).
Qed.

(** ** The run a reservation publishes *)
Lemma confirmOne_dispatched j db n r c :
  lg_runs db !! echoKey j = Some r -> dispatched j r -> er_IssuedAt r = None ->
  (ec_MonitorID c, pgTime (ec_DueAt c)) = echoKey j -> uuidOf (ec_JobID c) = uuidOf (je_job j) ->
  ec_WithheldReason c = "" ->
  lg_runs (confirmOne (db, n) c).1 !! echoKey j = Some (confirmedRun r c) /\
  lg_monitors (confirmOne (db, n) c).1 = lg_monitors db /\ lg_revisions (confirmOne (db, n) c).1 = lg_revisions db.
Proof.
  intros Hr [Hj Hc Hres] Hi Hk Hjob Hw. unfold confirmOne. rewrite Hk, Hr.
  assert (confirmable r c = true) as ->.
  { unfold confirmable. rewrite !andb_true_iff, !bool_decide_eq_true. repeat split; congruence || done. }
  rewrite Hw, bool_decide_true by done. cbn. by rewrite lookup_insert_eq.
Qed.

Lemma accepts_config j db db' r r' e :
  lg_monitors db' = lg_monitors db -> lg_revisions db' = lg_revisions db ->
  er_ExecutionRevision r' = er_ExecutionRevision r -> accepts j db' r' e = accepts j db r e.
Proof.
  intros Em Er E. unfold accepts, participates, orphanIntervalOf, orphanInterval. by rewrite Em, Er, E.
Qed.

(** The verdict of a window that was published and answered: only the core's own publish
    instant and the interval that spaced the window decide it. *)
Definition answeredVerdict (r : ExpectedRun) (published : Time) : ExpectedRunVerdict :=
  if mul64 (er_IntervalSeconds r) Second <? Sub (pgTime published) (er_DueAt r)
  then VerdictCoveredLate else VerdictCovered.

(** a reserved window is answered by its own run, and late exactly when the publish was
    late. The confirmation of the publish and the executor's outcome may reach the ledger in
    either order; in both, the window ends covered when the publish instant the core measured
    is within the window's own interval of its due instant, and covered late otherwise. No
    instant the executor echoes takes part in that. *)
Theorem answered_window_verdict j db n r c at_ o
  (Hr : lg_runs db !! echoKey j = Some r) (Hd : dispatched j r)
  (Hcarrier : LedgerMinCarrier <= er_CarrierGeneration r)
  (Hnew : er_IssuedAt r = None /\ er_TerminalAt r = None)
  (Hacc : accepts j db r (EvTerminal at_ o) = true)
  (Hkey : (ec_MonitorID c, pgTime (ec_DueAt c)) = echoKey j) (Hjob : uuidOf (ec_JobID c) = uuidOf (je_job j))
  (Hpublished : ec_WithheldReason c = "") :
  let confirmed_first := deliver j (confirmOne (db, n) c).1 (EvTerminal at_ o) in
  let answered_first := (confirmOne (deliver j db (EvTerminal at_ o), n) c).1 in
  exists r1 r2, lg_runs confirmed_first !! echoKey j = Some r1 /\ lg_runs answered_first !! echoKey j = Some r2 /\
    Verdict r1 = answeredVerdict r (ec_IssuedAt c) /\ Verdict r2 = answeredVerdict r (ec_IssuedAt c).
Proof.
  destruct Hnew as [Hi Ht]. pose proof Hd as [Hj Hc [res Hres]].
  assert (forall q, er_JobID q = er_JobID r -> er_CarrierGeneration q = er_CarrierGeneration r ->
    er_IntervalSeconds q = er_IntervalSeconds r -> er_DueAt q = er_DueAt r ->
    er_IssuedAt q = Some (pgTime (ec_IssuedAt c)) -> is_Some (er_TerminalAt q) ->
    Verdict q = answeredVerdict r (ec_IssuedAt c)) as Hv.
  { intros q E1 E2 E3 E4 E5 [t E6]. unfold Verdict, answeredVerdict. rewrite E1, E2, E3, E4, E5, E6.
    replace (er_CarrierGeneration r <? LedgerMinCarrier) with false by (symmetry; by apply Z.ltb_ge).
    by rewrite andb_false_r. }
  assert (forall q, er_JobID q = er_JobID r -> (if bool_decide (er_JobID q = "") then uuidOf (je_job j) else er_JobID q) = er_JobID r) as Ejob.
  { intros q E. case_bool_decide; congruence. }
  cbn zeta. destruct (confirmOne_dispatched j db n r c Hr Hd Hi Hkey Hjob Hpublished) as (Hr1 & Em & Er).
  assert (dispatched j (confirmedRun r c)) as Hd1 by (split; simpl; [done|done|by rewrite Hres]).
  rewrite (deliver_spec j _ _ (EvTerminal at_ o) Hr1 Hd1).
  rewrite (accepts_config j db _ r (confirmedRun r c) _ Em Er) by done. rewrite Hacc.
  rewrite (deliver_spec j db r (EvTerminal at_ o) Hr Hd), Hacc.
  set (q := mergeEvent j r (EvTerminal at_ o)).
  assert (dispatched j q) as Hdq by by apply dispatched_merge.
  assert (er_IssuedAt q = None) as Hiq by (cbn; rewrite Hres; done).
  destruct (confirmOne_dispatched j (withRuns db (<[echoKey j:=q]> (lg_runs db))) n q c) as (Hr2 & _);
    [simpl; by rewrite lookup_insert_eq|done..|].
  eexists _, _. split; [simpl; rewrite lookup_insert_eq; done|]. split; [exact Hr2|].
  split; apply Hv; cbn; rewrite ?Hres, ?Hpublished, ?Ht; try done; try (by apply Ejob).
  all: destruct (Z.eqb_spec (er_CarrierGeneration r) 0); [done|done].
Qed.

(** ** Examples *)
Definition demoPolicy : LedgerPolicy := {| lp_retentionDays := 14; lp_gapCap := 100 |}.

Definition demoMonitor : MonitorRow :=
  {| mo_project := "p"; mo_Type := MonitorHTTP; mo_Enabled := true; mo_IntervalSeconds := 60;
     mo_ConfirmIntervalSeconds := 10; mo_FailureThreshold := 3; mo_RenotifySeconds := 0;
     mo_EscalationPolicyID := None; mo_Region := "eu"; mo_execution_revision := 7;
     mo_Status := StatusUp; mo_ConsecutiveFailures := 0; mo_state_sequence := 0;
     mo_last_result_ts := None; mo_last_notified_at := None; mo_last_probe_error := None;
     mo_push_armed_at := None; mo_created_at := 700000 * Day |}.

Definition demoDue : Time := 738000 * Day + 10 * Hour.
Definition demoNow : Time := demoDue + 3 * Minute + 30 * Second.
Definition demoJob : string := "01234567-89ab-cdef-0123-456789ABCDEF".

Definition demoSchedule : Schedule :=
  {| sc_next_due_at := demoDue; sc_interval_in_force := 60; sc_confirm_phase := false;
     sc_execution_revision := 7; sc_last_issued_at := None; sc_schedule_created_at := 700000 * Day;
     sc_gap_truncated_before := None |}.

Definition demoLedger : Ledger :=
  {| lg_runs := ∅; lg_schedule := {["m" := demoSchedule]}; lg_monitors := {["m" := demoMonitor]};
     lg_revisions := ∅ |}.

Definition demoAdvance : ExpectationAdvance :=
  {| adv_MonitorID := "m"; adv_JobID := demoJob; adv_SkipReason := ""; adv_Confirming := false;
     adv_NextDue := demoNow + Minute; adv_IntervalInForce := 60; adv_CarrierGeneration := 4;
     adv_ExpectedDue := demoDue; adv_ExpectedRevision := 7; adv_ReservedAt := demoNow; adv_Region := "eu" |}.

Definition demoReserved : Ledger :=
  match ReserveExpectations demoPolicy demoLedger demoNow [demoAdvance] with
  | Ok (db, _, _) => db
  | Err _ => demoLedger
  end.

Definition demoEcho : JobEcho :=
  {| je_monitor := "m"; je_due := demoDue; je_job := demoJob; je_revision := 7; je_issued := demoNow |}.

Definition demoConfirm : ExpectationConfirm :=
  {| ec_MonitorID := "m"; ec_DueAt := demoDue; ec_JobID := demoJob; ec_WithheldReason := "";
     ec_IssuedAt := demoNow + Second |}.

Definition demoRun : ExpectedRun := reservedRun demoSchedule demoAdvance.

(** The reservation answers the standing window, records the three it passed over and returns
    the one it reserved. *)
Example demo_reserve :
  ReserveExpectations demoPolicy demoLedger demoNow [demoAdvance] = Ok (demoReserved, [("m", demoDue)], []) /\
  map (fun t => Verdict <$> lg_runs demoReserved !! ("m", demoDue + t * Minute)) [0; 1; 2; 3; 4]
  = [Some VerdictReserved; Some VerdictExpectedNeverIssued; Some VerdictExpectedNeverIssued;
     Some VerdictExpectedNeverIssued; None].
Proof. split; vm_compute; reflexivity. Qed.

Definition demoConfirmed : Ledger := (confirmOne (demoReserved, 0) demoConfirm).1.
Definition demoAnswered : Ledger := deliver demoEcho demoConfirmed (EvTerminal demoNow OutcomeResult).

Example windows_never_regress_witness :
  exists r', lg_runs demoAnswered !! ("m", demoDue) = Some r' /\ run_le demoRun r' /\ verdict_step (Verdict demoRun) (Verdict r') /\
    (er_SkipReason demoRun <> "" -> Verdict r' = VerdictExpectedNeverIssued).
Proof.
  apply (windows_never_regress demoPolicy demoLedger demoReserved); [done| | |vm_compute; reflexivity].
  - apply rtc_once, lp_step. eapply (ls_reserve _ _ demoNow [demoAdvance]);
      [repeat constructor|vm_compute; reflexivity].
  - apply (rtc_l _ demoReserved demoConfirmed demoAnswered); [|apply rtc_once].
    + apply (ls_confirm demoPolicy demoReserved [demoConfirm] demoConfirmed 1). vm_compute. reflexivity.
    + apply (ls_terminal demoPolicy demoConfirmed
        {| co_JobID := demoJob; co_DueAt := demoDue; co_JobIssuedAt := demoNow |} "m" 7 demoNow OutcomeResult
        {| ref_DueAt := demoDue; ref_JobID := demoJob; ref_IssuedAt := demoNow |} demoAnswered);
        vm_compute; reflexivity.
Defined.

Example reserve_records_or_fences_witness :
  exists s', lg_schedule demoReserved !! "m" = Some s' /\ sc_next_due_at s' = pgTime (demoNow + Minute) /\
    is_Some (lg_runs demoReserved !! ("m", demoDue)) /\
    forall k, 1 <= k ->
      let t := demoDue + 60 * Second * k in
      t + Microsecond <= pgTime demoNow ->
      is_Some (lg_runs demoReserved !! ("m", t)) \/ t < ExpectedRunRetentionCutoff demoPolicy demoNow \/
      exists f, sc_gap_truncated_before s' = Some f /\ t < f.
Proof.
  apply (reserve_records_or_fences demoPolicy demoLedger demoNow [demoAdvance] demoReserved
    [("m", demoDue)] [] demoAdvance demoSchedule demoMonitor).
  - vm_compute. reflexivity.
  - by left.
  - change (NoDup ["m"]). apply NoDup_singleton.
  - vm_compute. reflexivity.
  - done.
  - done.
Defined.

Definition demoEvents : list RunEvent :=
  [EvClaim (demoNow + Second); EvTerminal (demoNow + 3 * Second) OutcomeResult;
   EvRefusal (demoNow + 2 * Second) "stale_revision"].

Example deliveries_order_independent_witness :
  foldl (deliver demoEcho) demoReserved demoEvents
  = foldl (deliver demoEcho) demoReserved (rev demoEvents ++ demoEvents).
Proof.
  apply (deliveries_order_independent demoEcho demoReserved demoRun); [vm_compute; reflexivity| | |].
  - split; [vm_compute; reflexivity|done|done].
  - intros a b Ha Hb. unfold demoEvents in *. rewrite !elem_of_cons, elem_of_nil in Ha, Hb.
    destruct Ha as [->|[->|[->|[]]]], Hb as [->|[->|[->|[]]]]; simpl; auto.
  - intros e. unfold demoEvents. cbn [rev app]. rewrite !elem_of_cons. tauto.
Defined.

Example answered_window_verdict_witness :
  let confirmed_first := demoAnswered in
  let answered_first := (confirmOne (deliver demoEcho demoReserved (EvTerminal demoNow OutcomeResult), 0) demoConfirm).1 in
  exists r1 r2, lg_runs confirmed_first !! ("m", demoDue) = Some r1 /\ lg_runs answered_first !! ("m", demoDue) = Some r2 /\
    Verdict r1 = VerdictCoveredLate /\ Verdict r2 = VerdictCoveredLate.
Proof.
  apply (answered_window_verdict demoEcho demoReserved 0 demoRun demoConfirm demoNow OutcomeResult);
    [vm_compute; reflexivity| |done|done|vm_compute; reflexivity|done|done|done].
  split; [vm_compute; reflexivity|done|done].
Defined.

(** The segment close of a configuration write clips at a rolling [now - retention], while the
    reservation clips at the midnight-aligned cutoff the purge enforces: ten hours into a day,
    with the leader away for longer than the retention, the close does not record a window that
    retention still keeps. *)
Example segment_close_clips_above_the_cutoff :
  let pol := {| lp_retentionDays := 14; lp_gapCap := 100000 |} in
  let now := 738000 * Day + 10 * Hour in
  let s := {| sc_next_due_at := now - 20 * Day; sc_interval_in_force := 3600; sc_confirm_phase := false;
              sc_execution_revision := 7; sc_last_issued_at := None; sc_schedule_created_at := 0;
              sc_gap_truncated_before := None |} in
  let db := {| lg_runs := ∅; lg_schedule := {["m" := s]}; lg_monitors := {["m" := demoMonitor]};
               lg_revisions := ∅ |} in
  let t := now - 14 * Day - 5 * Hour in
  ExpectedRunRetentionCutoff pol now <= t /\
  lg_runs (closeSegment pol now "m" db) !! ("m", t) = None /\
  t ∈ missedWindows (ExpectedRunRetentionCutoff pol now) now (firstExpected s) 3600 100000.
Proof.
  cbn zeta. split; [by apply Z.leb_le|]. split; [vm_compute; reflexivity|].
  apply (bool_decide_unpack _). vm_compute. reflexivity.
Qed.
