(* ===== verification/MonitorState.v ===== *)
(** * The result path of a monitor
    ([internal/store/monitors.go]: [recordCheckStatusTx], [RecordScheduledResult],
    [RecordPushResult], [RecordDeadmanResult], [RecordProbeError], [EnqueueRenotifyReminders],
    [SetMonitorStatus], [updateMonitorTxPrepared]; [refuseWithLedger] of
    [internal/store/expectedruns.go]; [MonitorTransition] of [internal/domain/outbox.go])

    One transaction is a function of the tables it reads; an [Err] is a rollback.  [now()] is
    the transaction's start and [statement_timestamp()] the statement's, hence two clocks. *)

From S2P Require Import Prelude ServicePolicy MonitorRow Heartbeats GoString ExpectedRuns.

(** ** Messages and outcomes *)

(** [domain.Heartbeat] as an executor sends it. *)
Record ResultMsg := {
  hb_MonitorID : string;
  hb_Ts : Time;
  hb_Up : bool;
  hb_LatencyMS : Z;
  hb_Code : Z;
  hb_Msg : string;
  hb_ExecutionRevision : Z;
  hb_Correlation : Correlation;
  hb_CanaryRunKey : string;
  hb_ProbeError : option (string * string);
}.

Definition ReasonMissingTimestamp := "missing_timestamp".
Definition ReasonFutureTimestamp := "future_timestamp".
Definition ReasonOutsideRetention := "outside_retention".
Definition ReasonObservedBeforeIssue := "observed_before_issue".
Definition ReasonOutOfOrder := "out_of_order".
Definition ReasonDuplicate := "duplicate".
Definition ReasonStaleRevision := "stale_revision".
Definition ReasonMissingRevision := "missing_revision".
Definition MaterializeSkippedCurrentState := "skipped_current_state".

Record ResultOutcome := {
  out_Applied : bool;
  out_Inserted : bool;
  out_Prev : option MonitorStatus;
  out_Cur : option MonitorStatus;
  out_Suppressed : bool;
  out_Reason : string;
  out_MissingRevisionObserved : bool;
}.

Definition refusal (reason : string) : ResultOutcome :=
  {| out_Applied := false; out_Inserted := false; out_Prev := None; out_Cur := None;
     out_Suppressed := false; out_Reason := reason; out_MissingRevisionObserved := false |}.

Definition withMissing (b : bool) (o : ResultOutcome) : ResultOutcome :=
  {| out_Applied := out_Applied o; out_Inserted := out_Inserted o; out_Prev := out_Prev o;
     out_Cur := out_Cur o; out_Suppressed := out_Suppressed o; out_Reason := out_Reason o;
     out_MissingRevisionObserved := b |}.

Record ProbeErrorOutcome := { po_Recorded : bool; po_Reason : string }.

Definition ValidProbeErrorReason (reason : string) : bool :=
  bool_decide (reason ∈ ["no_dispatch_key"; "unknown_key_id"; "decrypt_auth_failed"; "unsupported_version"]).

(** [domain.MonitorTransition]; the store leaves its [At] zero. *)
Record MonitorTransition := {
  mt_MonitorID : string;
  mt_Prev : MonitorStatus;
  mt_Cur : MonitorStatus;
  mt_Reminder : bool;
  mt_Seq : Z;
}.

#[global] Instance MonitorTransition_eq_dec : EqDecision MonitorTransition.
Proof. solve_decision. Defined.

Definition ShouldNotify (t : MonitorTransition) : bool :=
  if mt_Reminder t then true
  else if bool_decide (mt_Cur t = StatusDown) && negb (bool_decide (mt_Prev t = StatusDown)) then true
  else bool_decide (mt_Cur t = StatusUp) && bool_decide (mt_Prev t = StatusDown).

(** The staleness gate of the delivery worker ([internal/outbox/outbox.go]): a newer transition
    has been recorded since this one was queued. *)
Definition superseded (m : MonitorRow) (t : MonitorTransition) : bool :=
  (0 <? mt_Seq t) && (mt_Seq t <? mo_state_sequence m).

Inductive IngestError :=
| ErrNotFound | ErrInvalidProbeError | ErrNumericOutOfRange | ErrServiceSink
| ErrLedger (e : LedgerError).

Definition liftLedger {A} (r : result LedgerError A) : result IngestError A :=
  match r with Ok a => Ok a | Err e => Err (ErrLedger e) end.

(** ** The tables *)

Record World (S : Type) := {
  wd_ledger : Ledger;
  wd_heartbeats : heartbeats;
  wd_maintenance : list MaintenanceWindow;
  wd_canary_inflight : gmap string string;
  wd_outbox : list MonitorTransition;
  wd_confirm_notified : list string;
  wd_observed_before_issue : Z;
  wd_services : S;
}.
Arguments wd_ledger {S} _.
Arguments wd_heartbeats {S} _.
Arguments wd_maintenance {S} _.
Arguments wd_canary_inflight {S} _.
Arguments wd_outbox {S} _.
Arguments wd_confirm_notified {S} _.
Arguments wd_observed_before_issue {S} _.
Arguments wd_services {S} _.

(** The result policy of [Store]. *)
Record ResultPolicy := {
  rp_skew : Duration;
  rp_retention : Duration;
  rp_observe : bool;
  rp_ledger : LedgerPolicy;
}.

(** [now()] and [statement_timestamp()]. *)
Record Clock := { ck_tx : Time; ck_stmt : Time }.

Definition int32_max : Z := 2 ^ 31 - 1.

Definition withMonitors (db : Ledger) (ms : gmap string MonitorRow) : Ledger :=
  {| lg_runs := lg_runs db; lg_schedule := lg_schedule db; lg_monitors := ms;
     lg_revisions := lg_revisions db |}.

Section world.
Context {S : Type}.
Implicit Types (w : World S).

Definition wd_monitors w : gmap string MonitorRow := lg_monitors (wd_ledger w).

Definition setLedger w (db : Ledger) : World S :=
  {| wd_ledger := db; wd_heartbeats := wd_heartbeats w; wd_maintenance := wd_maintenance w;
     wd_canary_inflight := wd_canary_inflight w; wd_outbox := wd_outbox w;
     wd_confirm_notified := wd_confirm_notified w;
     wd_observed_before_issue := wd_observed_before_issue w; wd_services := wd_services w |}.

Definition setMonitor w (id : string) (m : MonitorRow) : World S :=
  setLedger w (withMonitors (wd_ledger w) (<[id := m]> (wd_monitors w))).

Definition enqueue w (t : MonitorTransition) : World S :=
  {| wd_ledger := wd_ledger w; wd_heartbeats := wd_heartbeats w; wd_maintenance := wd_maintenance w;
     wd_canary_inflight := wd_canary_inflight w; wd_outbox := wd_outbox w ++ [t];
     wd_confirm_notified := wd_confirm_notified w;
     wd_observed_before_issue := wd_observed_before_issue w; wd_services := wd_services w |}.

Definition notifyConfirm w (id : string) : World S :=
  {| wd_ledger := wd_ledger w; wd_heartbeats := wd_heartbeats w; wd_maintenance := wd_maintenance w;
     wd_canary_inflight := wd_canary_inflight w; wd_outbox := wd_outbox w;
     wd_confirm_notified := wd_confirm_notified w ++ [id];
     wd_observed_before_issue := wd_observed_before_issue w; wd_services := wd_services w |}.

Definition setHeartbeats w (hs : heartbeats) (s : S) : World S :=
  {| wd_ledger := wd_ledger w; wd_heartbeats := hs; wd_maintenance := wd_maintenance w;
     wd_canary_inflight := wd_canary_inflight w; wd_outbox := wd_outbox w;
     wd_confirm_notified := wd_confirm_notified w;
     wd_observed_before_issue := wd_observed_before_issue w; wd_services := s |}.

Definition countObservedBeforeIssue w : World S :=
  {| wd_ledger := wd_ledger w; wd_heartbeats := wd_heartbeats w; wd_maintenance := wd_maintenance w;
     wd_canary_inflight := wd_canary_inflight w; wd_outbox := wd_outbox w;
     wd_confirm_notified := wd_confirm_notified w;
     wd_observed_before_issue := wd_observed_before_issue w + 1; wd_services := wd_services w |}.

(** [DELETE FROM canary_inflight WHERE monitor_id = $1 AND run_key = $2]; one row per monitor. *)
Definition releaseCanary w (id key : string) : World S :=
  if bool_decide (key = "") then w
  else if bool_decide (wd_canary_inflight w !! id = Some key) then
    {| wd_ledger := wd_ledger w; wd_heartbeats := wd_heartbeats w; wd_maintenance := wd_maintenance w;
       wd_canary_inflight := delete id (wd_canary_inflight w); wd_outbox := wd_outbox w;
       wd_confirm_notified := wd_confirm_notified w;
       wd_observed_before_issue := wd_observed_before_issue w; wd_services := wd_services w |}
  else w.
End world.

(** ** Row updates *)

Definition setLive (m : MonitorRow) (status : MonitorStatus) (failures : Z) (notified : option Time) : MonitorRow :=
  {| mo_project := mo_project m; mo_Type := mo_Type m; mo_Enabled := mo_Enabled m;
     mo_IntervalSeconds := mo_IntervalSeconds m; mo_ConfirmIntervalSeconds := mo_ConfirmIntervalSeconds m;
     mo_FailureThreshold := mo_FailureThreshold m; mo_RenotifySeconds := mo_RenotifySeconds m;
     mo_EscalationPolicyID := mo_EscalationPolicyID m; mo_Region := mo_Region m;
     mo_execution_revision := mo_execution_revision m; mo_Status := status;
     mo_ConsecutiveFailures := failures; mo_state_sequence := mo_state_sequence m;
     mo_last_result_ts := mo_last_result_ts m; mo_last_notified_at := notified;
     mo_last_probe_error := mo_last_probe_error m; mo_push_armed_at := mo_push_armed_at m;
     mo_created_at := mo_created_at m |}.

Definition setSequence (m : MonitorRow) (seq : Z) : MonitorRow :=
  {| mo_project := mo_project m; mo_Type := mo_Type m; mo_Enabled := mo_Enabled m;
     mo_IntervalSeconds := mo_IntervalSeconds m; mo_ConfirmIntervalSeconds := mo_ConfirmIntervalSeconds m;
     mo_FailureThreshold := mo_FailureThreshold m; mo_RenotifySeconds := mo_RenotifySeconds m;
     mo_EscalationPolicyID := mo_EscalationPolicyID m; mo_Region := mo_Region m;
     mo_execution_revision := mo_execution_revision m; mo_Status := mo_Status m;
     mo_ConsecutiveFailures := mo_ConsecutiveFailures m; mo_state_sequence := seq;
     mo_last_result_ts := mo_last_result_ts m; mo_last_notified_at := mo_last_notified_at m;
     mo_last_probe_error := mo_last_probe_error m; mo_push_armed_at := mo_push_armed_at m;
     mo_created_at := mo_created_at m |}.

Definition setProbeError (m : MonitorRow) (p : option ProbeErrorNote) : MonitorRow :=
  {| mo_project := mo_project m; mo_Type := mo_Type m; mo_Enabled := mo_Enabled m;
     mo_IntervalSeconds := mo_IntervalSeconds m; mo_ConfirmIntervalSeconds := mo_ConfirmIntervalSeconds m;
     mo_FailureThreshold := mo_FailureThreshold m; mo_RenotifySeconds := mo_RenotifySeconds m;
     mo_EscalationPolicyID := mo_EscalationPolicyID m; mo_Region := mo_Region m;
     mo_execution_revision := mo_execution_revision m; mo_Status := mo_Status m;
     mo_ConsecutiveFailures := mo_ConsecutiveFailures m; mo_state_sequence := mo_state_sequence m;
     mo_last_result_ts := mo_last_result_ts m; mo_last_notified_at := mo_last_notified_at m;
     mo_last_probe_error := p; mo_push_armed_at := mo_push_armed_at m;
     mo_created_at := mo_created_at m |}.

(** [last_result_ts = ts], and a probe error recorded by [at_] is cleared. *)
Definition setWatermark (ts at_ : Time) (m : MonitorRow) : MonitorRow :=
  let m' := setProbeError m
    match mo_last_probe_error m with
    | Some p => if pe_at p <=? at_ then None else Some p
    | None => None
    end in
  {| mo_project := mo_project m'; mo_Type := mo_Type m'; mo_Enabled := mo_Enabled m';
     mo_IntervalSeconds := mo_IntervalSeconds m'; mo_ConfirmIntervalSeconds := mo_ConfirmIntervalSeconds m';
     mo_FailureThreshold := mo_FailureThreshold m'; mo_RenotifySeconds := mo_RenotifySeconds m';
     mo_EscalationPolicyID := mo_EscalationPolicyID m'; mo_Region := mo_Region m';
     mo_execution_revision := mo_execution_revision m'; mo_Status := mo_Status m';
     mo_ConsecutiveFailures := mo_ConsecutiveFailures m'; mo_state_sequence := mo_state_sequence m';
     mo_last_result_ts := Some (pgTime ts); mo_last_notified_at := mo_last_notified_at m';
     mo_last_probe_error := mo_last_probe_error m'; mo_push_armed_at := mo_push_armed_at m';
     mo_created_at := mo_created_at m' |}.

(** The [UPDATE] of [recordCheckStatusTx]. *)
Definition confirmedDown (m : MonitorRow) : bool := mo_FailureThreshold m <=? mo_ConsecutiveFailures m + 1.

Definition checkedRow (now : Time) (up : bool) (m : MonitorRow) : MonitorRow :=
  setLive m
    (if up then StatusUp else if confirmedDown m then StatusDown else mo_Status m)
    (if up then 0 else mo_ConsecutiveFailures m + 1)
    (if up then None
     else if confirmedDown m && negb (bool_decide (mo_Status m = StatusDown)) then Some now
     else mo_last_notified_at m).

(** A failure counted with no verdict yet, on a monitor with a confirm interval. *)
Definition entersConfirm (up : bool) (m : MonitorRow) : bool :=
  negb up && negb (bool_decide (mo_Status m = StatusDown)) && (0 <? mo_ConsecutiveFailures m)
  && (mo_ConsecutiveFailures m <? mo_FailureThreshold m) && (0 <? mo_ConfirmIntervalSeconds m).

(** ** Status *)
Section status.
Context {S : Type}.
Implicit Types (w : World S).

Definition bumpStateSequenceTx (id : string) w : result IngestError (World S * Z) :=
  match wd_monitors w !! id with
  | None => Err ErrNotFound
  | Some m =>
    let! _ := refuse_if (int64_max <? mo_state_sequence m + 1) ErrNumericOutOfRange in
    Ok (setMonitor w id (setSequence m (mo_state_sequence m + 1)), mo_state_sequence m + 1)
  end.

(** The sequence and the transition event of a real flip. *)
Definition announceFlip (id : string) (prev cur : MonitorStatus) w : result IngestError (World S) :=
  if bool_decide (prev = cur) then Ok w
  else
    let! (w', seq) := bumpStateSequenceTx id w in
    Ok (enqueue w' {| mt_MonitorID := id; mt_Prev := prev; mt_Cur := cur;
                      mt_Reminder := false; mt_Seq := seq |}).

Definition recordCheckStatusTx (c : Clock) (id : string) (up : bool) w :
    result IngestError (World S * (MonitorStatus * MonitorStatus * bool)) :=
  match wd_monitors w !! id with
  | None => Err ErrNotFound
  | Some m =>
    let! _ := refuse_if (negb up && (int32_max <? mo_ConsecutiveFailures m + 1)) ErrNumericOutOfRange in
    let m' := checkedRow (ck_tx c) up m in
    let w1 := setMonitor w id m' in
    let w2 := if entersConfirm up m' then notifyConfirm w1 id else w1 in
    let! w3 := announceFlip id (mo_Status m) (mo_Status m') w2 in
    Ok (w3, (mo_Status m, mo_Status m', inMaintenance (wd_maintenance w) id (mo_project m) (ck_tx c)))
  end.

Definition RecordCheckStatus := recordCheckStatusTx.

Definition SetMonitorStatus (id : string) (status : MonitorStatus) w : result IngestError (World S * MonitorStatus) :=
  match wd_monitors w !! id with
  | None => Err ErrNotFound
  | Some m =>
    let w1 := setMonitor w id (setLive m status (mo_ConsecutiveFailures m) (mo_last_notified_at m)) in
    let! w2 := announceFlip id (mo_Status m) status w1 in
    Ok (w2, mo_Status m)
  end.

(** [now() - make_interval(secs => renotify_seconds)] has passed the last notification. *)
Definition renotifyDue (now : Time) (m : MonitorRow) : bool :=
  bool_decide (mo_Status m = StatusDown) && (0 <? mo_RenotifySeconds m)
  && bool_decide (mo_EscalationPolicyID m = None)
  && match mo_last_notified_at m with
     | Some t => t <=? now - mo_RenotifySeconds m * Second
     | None => false
     end.

Definition remind (now : Time) w (due : string * MonitorRow) : World S :=
  let '(id, m) := due in
  setMonitor
    (enqueue w {| mt_MonitorID := id; mt_Prev := StatusDown; mt_Cur := StatusDown;
                  mt_Reminder := true; mt_Seq := mo_state_sequence m |})
    id (setLive m (mo_Status m) (mo_ConsecutiveFailures m) (Some now)).

(** The rows come back in no particular order; each is a different monitor. *)
Definition EnqueueRenotifyReminders (c : Clock) w : World S * nat :=
  let due := List.filter (fun kv => renotifyDue (ck_tx c) kv.2) (map_to_list (wd_monitors w)) in
  (foldl (remind (ck_tx c)) w due, length due).
End status.

(** ** Results *)
Section ingest.
Context {S : Type} `{ServiceSink S}.
Implicit Types (w : World S) (hb : ResultMsg) (c : Clock).

(** The heartbeat of an instant, and the services' mark when a row was really written. *)
Definition insertAndNote c w (id : string) (ts : Time) (r : HeartbeatRow) : result IngestError (World S * bool) :=
  let '(hs, inserted) := insertHeartbeat (wd_heartbeats w) id ts r in
  if inserted then
    match noteHeartbeatForServices (ck_tx c) hs id ts (wd_services w) with
    | None => Err ErrServiceSink
    | Some s => Ok (setHeartbeats w hs s, true)
    end
  else Ok (w, false).

Definition modifyMonitor (f : MonitorRow -> MonitorRow) (id : string) w : World S :=
  match wd_monitors w !! id with Some m => setMonitor w id (f m) | None => w end.

Definition refuseWithLedger w hb (ref : option expectedRunRef) (at_ : Time) (out : ResultOutcome) :
    result IngestError (World S * ResultOutcome) :=
  match ref with
  | Some r =>
    Ok (setLedger w (noteExpectedRunRefusalTx (wd_ledger w) (hb_MonitorID hb) (ref_DueAt r) (ref_JobID r)
                       (hb_ExecutionRevision hb) at_ (out_Reason out)), out)
  | None => Ok (w, out)
  end.

Definition fillFor w hb (ref : option expectedRunRef) (at_ : Time) (o : ExpectedRunOutcome) :
    result IngestError (World S) :=
  match ref with
  | None => Ok w
  | Some r =>
    let! db := liftLedger (fillExpectedRunTerminalTx (wd_ledger w)
      {| tm_MonitorID := hb_MonitorID hb; tm_DueAt := ref_DueAt r; tm_JobID := ref_JobID r;
         tm_Revision := hb_ExecutionRevision hb; tm_TerminalAt := at_; tm_IssuedAt := ref_IssuedAt r;
         tm_Outcome := o |}) in
    Ok (setLedger w db)
  end.

Definition effectiveSkew (pol : ResultPolicy) : Duration :=
  if rp_skew pol <=? 0 then 5 * Minute else rp_skew pol.

(** Steps 2 to 4b of [RecordScheduledResult]: why a result is refused, in the code's order.
    [""] is an accepted result. *)
Definition gateReason (pol : ResultPolicy) (dbNow : Time) (m : MonitorRow) hb : string :=
  let ts := hb_Ts hb in
  let issued := co_JobIssuedAt (hb_Correlation hb) in
  if negb (mo_Enabled m) then MaterializeSkippedCurrentState
  else if (hb_ExecutionRevision hb =? 0) && negb (rp_observe pol) then ReasonMissingRevision
  else if negb (hb_ExecutionRevision hb =? 0) && negb (hb_ExecutionRevision hb =? mo_execution_revision m)
  then ReasonStaleRevision
  else if After ts (Add dbNow (effectiveSkew pol)) then ReasonFutureTimestamp
  else if (0 <? rp_retention pol) && Before ts (Add dbNow (- rp_retention pol)) then ReasonOutsideRetention
  else if negb (IsZero issued) && Before ts issued && Before ts (Add issued (- effectiveSkew pol))
  then ReasonObservedBeforeIssue
  else "".

(** The migration counter is set on every path past the revision gate. *)
Definition missingObserved (pol : ResultPolicy) hb (reason : string) : bool :=
  (hb_ExecutionRevision hb =? 0) && rp_observe pol
  && negb (bool_decide (reason = MaterializeSkippedCurrentState)).

(** Steps 4c to 7: an accepted result. *)
Definition acceptResult c w (m : MonitorRow) hb (ref : option expectedRunRef) :
    result IngestError (World S * ResultOutcome) :=
  let id := hb_MonitorID hb in
  let ts := hb_Ts hb in
  let issued := co_JobIssuedAt (hb_Correlation hb) in
  let w := if negb (IsZero issued) && Before ts issued then countObservedBeforeIssue w else w in
  let! w := fillFor w hb ref (ck_stmt c) OutcomeResult in
  let! (w, inserted) := insertAndNote c w id ts
    {| hr_up := hb_Up hb; hr_latency_ms := hb_LatencyMS hb; hr_code := hb_Code hb;
       hr_msg := hb_Msg hb; hr_observed_at := Some (pgTime ts) |} in
  if negb inserted then Ok (w, refusal ReasonDuplicate)
  else if match mo_last_result_ts m with Some last => negb (After ts last) | None => false end then
    Ok (w, {| out_Applied := false; out_Inserted := true; out_Prev := None; out_Cur := None;
              out_Suppressed := false; out_Reason := ReasonOutOfOrder; out_MissingRevisionObserved := false |})
  else
    let! (w, (prev, cur, suppressed)) := recordCheckStatusTx c id (hb_Up hb) w in
    Ok (modifyMonitor (setWatermark ts (ck_stmt c)) id w,
        {| out_Applied := true; out_Inserted := true; out_Prev := Some prev; out_Cur := Some cur;
           out_Suppressed := suppressed; out_Reason := ""; out_MissingRevisionObserved := false |}).

Definition RecordScheduledResult (pol : ResultPolicy) c hb w : result IngestError (World S * ResultOutcome) :=
  if IsZero (hb_Ts hb) then Ok (w, refusal ReasonMissingTimestamp)
  else
    let w := releaseCanary w (hb_MonitorID hb) (hb_CanaryRunKey hb) in
    match wd_monitors w !! hb_MonitorID hb with
    | None => Err ErrNotFound
    | Some m =>
      let ref := correlateExpectedRun (rp_ledger pol) (hb_Correlation hb) (ck_stmt c) in
      let reason := gateReason pol (ck_stmt c) m hb in
      let missing := missingObserved pol hb reason in
      if negb (bool_decide (reason = "")) then
        refuseWithLedger w hb ref (ck_stmt c) (withMissing missing (refusal reason))
      else
        let! (w', out) := acceptResult c w m hb ref in
        Ok (w', withMissing missing out)
    end.

Definition pushMsg := "push timeout: no heartbeat within interval".

Definition RecordPushResult c (id : string) (up : bool) (msg : string) (receivedAt : Time)
    (observedAt : Time) w : result IngestError (World S * ResultOutcome) :=
  match wd_monitors w !! id with
  | None => Err ErrNotFound
  | Some m =>
    if negb (isPush (mo_Type m)) || negb (mo_Enabled m) then Ok (w, refusal "")
    else
      let! (w, _) := insertAndNote c w id receivedAt
        {| hr_up := up; hr_latency_ms := 0; hr_code := 0; hr_msg := msg;
           hr_observed_at := if IsZero observedAt then None else Some (pgTime observedAt) |} in
      let! (w, (prev, cur, suppressed)) := recordCheckStatusTx c id up w in
      Ok (modifyMonitor (setWatermark receivedAt (pgTime receivedAt)) id w,
          {| out_Applied := true; out_Inserted := true; out_Prev := Some prev; out_Cur := Some cur;
             out_Suppressed := suppressed; out_Reason := ""; out_MissingRevisionObserved := false |})
  end.

(** [COALESCE(GREATEST(push_armed_at, last_result_ts), created_at)]; [GREATEST] ignores nulls. *)
Definition lastOrCreated (m : MonitorRow) : Time :=
  match mo_push_armed_at m, mo_last_result_ts m with
  | Some a, Some l => Z.max a l
  | Some t, None | None, Some t => t
  | None, None => mo_created_at m
  end.

Definition stale (m : MonitorRow) (revision : Z) (cutoff : Time) : bool :=
  isPush (mo_Type m) && mo_Enabled m && (mo_execution_revision m =? revision)
  && Before (lastOrCreated m) cutoff.

Definition RecordDeadmanResult c (id : string) (revision : Z) (cutoff : Time) w :
    result IngestError (World S * ResultOutcome) :=
  match wd_monitors w !! id with
  | None => Err ErrNotFound
  | Some m =>
    if negb (stale m revision cutoff) then Ok (w, refusal "")
    else
      let! (w, _) := insertAndNote c w id (ck_stmt c)
        {| hr_up := false; hr_latency_ms := 0; hr_code := 0; hr_msg := pushMsg; hr_observed_at := None |} in
      let! (w, (prev, cur, suppressed)) := recordCheckStatusTx c id false w in
      Ok (w, {| out_Applied := true; out_Inserted := true; out_Prev := Some prev; out_Cur := Some cur;
                out_Suppressed := suppressed; out_Reason := ""; out_MissingRevisionObserved := false |})
  end.

(** [at_] is the [statement_timestamp()] of the [UPDATE], at or after that of the clock read. *)
Definition RecordProbeError (pol : ResultPolicy) c (at_ : Time) hb w :
    result IngestError (World S * ProbeErrorOutcome) :=
  match hb_ProbeError hb with
  | None => Err ErrInvalidProbeError
  | Some (reason, jobID) =>
    let id := hb_MonitorID hb in
    let! _ := refuse_if (bool_decide (id = "") || (hb_ExecutionRevision hb <? 1)
                         || negb (ValidProbeErrorReason reason)) ErrInvalidProbeError in
    let ref := correlateExpectedRun (rp_ledger pol) (hb_Correlation hb) (ck_stmt c) in
    match wd_monitors w !! id with
    | None => Err ErrNotFound
    | Some m =>
      if (mo_execution_revision m =? hb_ExecutionRevision hb) && mo_Enabled m then
        let note := {| pe_reason := reason; pe_at := at_; pe_job_id := jobID |} in
        let! w' := fillFor (setMonitor w id (setProbeError m (Some note))) hb ref (ck_stmt c) OutcomeProbeError in
        Ok (w', {| po_Recorded := true; po_Reason := "" |})
      else
        let out := if mo_execution_revision m =? hb_ExecutionRevision hb
                   then MaterializeSkippedCurrentState else ReasonStaleRevision in
        let! (w', _) := refuseWithLedger w hb ref (ck_stmt c) (refusal out) in
        Ok (w', {| po_Recorded := false; po_Reason := out |})
    end
  end.

(** ** Configuration writes *)

(** The columns of an update this development reads. *)
Record ConfigWrite := {
  cw_Enabled : bool;
  cw_IntervalSeconds : Z;
  cw_ConfirmIntervalSeconds : Z;
  cw_FailureThreshold : Z;
  cw_RenotifySeconds : Z;
  cw_EscalationPolicyID : option string;
  cw_Region : string;
}.

Definition DefaultRegion := "core".

(** [revisionFenceSetSQL] and the re-arm of a disabled monitor. *)
Definition updatedRow (now : Time) (cw : ConfigWrite) (m : MonitorRow) : MonitorRow :=
  let rearm := negb (mo_Enabled m) && cw_Enabled cw in
  {| mo_project := mo_project m; mo_Type := mo_Type m; mo_Enabled := cw_Enabled cw;
     mo_IntervalSeconds := cw_IntervalSeconds cw;
     mo_ConfirmIntervalSeconds := cw_ConfirmIntervalSeconds cw;
     mo_FailureThreshold := cw_FailureThreshold cw; mo_RenotifySeconds := cw_RenotifySeconds cw;
     mo_EscalationPolicyID := cw_EscalationPolicyID cw;
     mo_Region := if bool_decide (cw_Region cw = "") then DefaultRegion else cw_Region cw;
     mo_execution_revision := mo_execution_revision m + 1;
     mo_Status := if rearm then StatusPending else mo_Status m;
     mo_ConsecutiveFailures := if rearm then 0 else mo_ConsecutiveFailures m;
     mo_state_sequence := if rearm then mo_state_sequence m + 1 else mo_state_sequence m;
     mo_last_result_ts := if isPush (mo_Type m) then mo_last_result_ts m else None;
     mo_last_notified_at := mo_last_notified_at m;
     mo_last_probe_error := mo_last_probe_error m;
     mo_push_armed_at := if isPush (mo_Type m) && rearm then Some now else mo_push_armed_at m;
     mo_created_at := mo_created_at m |}.

(** [writeRevisionTimeline] for one monitor. *)
Definition writeRevisionTimeline (id : string) (db : Ledger) : Ledger :=
  match lg_monitors db !! id with
  | None => db
  | Some m =>
    match lg_revisions db !! (id, mo_execution_revision m) with
    | Some _ => db
    | None =>
      {| lg_runs := lg_runs db; lg_schedule := lg_schedule db; lg_monitors := lg_monitors db;
         lg_revisions := <[(id, mo_execution_revision m) :=
           {| rv_interval_seconds := mo_IntervalSeconds m;
              rv_confirm_interval_seconds := mo_ConfirmIntervalSeconds m |}]> (lg_revisions db) |}
    end
  end.

Definition updateMonitorTxPrepared (pol : ResultPolicy) c (id : string) (cw : ConfigWrite) w :
    result IngestError (World S) :=
  match wd_monitors w !! id with
  | None => Err ErrNotFound
  | Some m =>
    let! _ := refuse_if ((int64_max <? mo_execution_revision m + 1)
                         || (negb (mo_Enabled m) && cw_Enabled cw && (int64_max <? mo_state_sequence m + 1)))
                        ErrNumericOutOfRange in
    let w := setMonitor w id (updatedRow (ck_stmt c) cw m) in
    Ok (setLedger w (syncMonitorScheduleTx (rp_ledger pol) (ck_stmt c) [id]
                       (writeRevisionTimeline id (wd_ledger w))))
  end.
(** ** A stream of scheduled results

    Deliveries in the order they commit; one whose transaction fails leaves the tables alone.
    Beside the tables, the verdicts of the results that were applied to monitor [id]. *)
Fixpoint deliverAll (pol : ResultPolicy) (id : string) w (l : list (Clock * ResultMsg)) : World S * list bool :=
  match l with
  | [] => (w, [])
  | (c, hb) :: l =>
    match RecordScheduledResult pol c hb w with
    | Err _ => deliverAll pol id w l
    | Ok (w1, out) =>
      let '(w2, ups) := deliverAll pol id w1 l in
      (w2, if out_Applied out && bool_decide (hb_MonitorID hb = id) then hb_Up hb :: ups else ups)
    end
  end.
End ingest.

(** ** The reference: a status from a history of verdicts

    [trailing ups] is the number of failures after the last success of a history, oldest first. *)
Fixpoint leading (ups : list bool) : Z :=
  match ups with
  | false :: l => 1 + leading l
  | _ => 0
  end.

Definition trailing (ups : list bool) : Z := leading (rev ups).

(** From status [s0] with [f0] failures already counted: a success anywhere in the history
    forgets both, and from then on the trailing failures decide. *)
Definition liveStatus (threshold : Z) (s0 : MonitorStatus) (f0 : Z) (ups : list bool) : MonitorStatus :=
  let counted := if existsb id ups then trailing ups else f0 + trailing ups in
  if (threshold <=? counted) && (0 <? trailing ups) then StatusDown
  else if existsb id ups then StatusUp
  else s0.
