(* ===== verification/MonitorStateFacts.v ===== *)
(** * Properties of the result path

    Refused and repeated results, the live status as a function of the applied results, the
    transition log as a machine the operations refine, and the promise the services make about
    the heartbeats, over the model of [MonitorState]. *)

From S2P Require Import Prelude ServicePolicy MonitorRow Heartbeats GoString ExpectedRuns MonitorState.

(** ** Frames *)
Section frames.
Context {S : Type}.
Implicit Types (w : World S).

(** Only the monitors, the outbox and the confirm notifications changed. *)
Record only_live w w' : Prop := {
  ol_runs : lg_runs (wd_ledger w') = lg_runs (wd_ledger w);
  ol_schedule : lg_schedule (wd_ledger w') = lg_schedule (wd_ledger w);
  ol_revisions : lg_revisions (wd_ledger w') = lg_revisions (wd_ledger w);
  ol_heartbeats : wd_heartbeats w' = wd_heartbeats w;
  ol_maintenance : wd_maintenance w' = wd_maintenance w;
  ol_services : wd_services w' = wd_services w;
}.

#[global] Instance only_live_preorder : PreOrder only_live.
Proof. split; [by split|]. intros x y z [] []. split; congruence. Qed.

Lemma wd_monitors_setMonitor w id m : wd_monitors (setMonitor w id m) = <[id := m]> (wd_monitors w).
Proof. done. Qed.

Lemma only_live_setMonitor w id m : only_live w (setMonitor w id m).
Proof. by split. Qed.
Lemma only_live_enqueue w t : only_live w (enqueue w t).
Proof. by split. Qed.

(** The state the result path calls live: statuses and the announcements made of them. *)
Record same_live w w' : Prop := {
  sl_monitors : wd_monitors w' = wd_monitors w;
  sl_outbox : wd_outbox w' = wd_outbox w;
  sl_confirm : wd_confirm_notified w' = wd_confirm_notified w;
}.

#[global] Instance same_live_preorder : PreOrder same_live.
Proof. split; [by split|]. intros x y z [] []. split; congruence. Qed.

(** The evidence: heartbeats and what the services keep about them. *)
Record same_evidence w w' : Prop := {
  se_heartbeats : wd_heartbeats w' = wd_heartbeats w;
  se_services : wd_services w' = wd_services w;
}.

#[global] Instance same_evidence_preorder : PreOrder same_evidence.
Proof. split; [by split|]. intros x y z [] []. split; congruence. Qed.

Lemma setSequence_same m : setSequence m (mo_state_sequence m) = m.
Proof. by destruct m. Qed.

Lemma only_live_evidence w w' : only_live w w' -> same_evidence w w'.
Proof. intros []. by split. Qed.

Lemma announceFlip_inv id prev cur w w' m :
  announceFlip id prev cur w = Ok w' -> wd_monitors w !! id = Some m ->
  only_live w w' /\ wd_confirm_notified w' = wd_confirm_notified w /\
  (prev = cur /\ w' = w \/
   prev <> cur /\ wd_monitors w' = <[id := setSequence m (mo_state_sequence m + 1)]> (wd_monitors w) /\
   wd_outbox w' = wd_outbox w ++ [{| mt_MonitorID := id; mt_Prev := prev; mt_Cur := cur;
                                     mt_Reminder := false; mt_Seq := mo_state_sequence m + 1 |}]).
Proof.
  unfold announceFlip, bumpStateSequenceTx. intros Hf Hm.
  destruct (bool_decide_reflect (prev = cur)) as [->|Hne].
  { simplify_eq. split; [done|]. auto. }
  rewrite Hm in Hf. unfold refuse_if in Hf. destruct (_ <? _); simpl in *; [done|]. simplify_eq.
  split; [by split|]. split; [done|]. right. done.
Qed.

Lemma recordCheckStatusTx_inv c id up w w' prev cur sup :
  recordCheckStatusTx c id up w = Ok (w', (prev, cur, sup)) ->
  exists m, wd_monitors w !! id = Some m /\ prev = mo_Status m /\
    cur = mo_Status (checkedRow (ck_tx c) up m) /\ only_live w w' /\
    (prev = cur /\ wd_monitors w' = <[id := checkedRow (ck_tx c) up m]> (wd_monitors w) /\
     wd_outbox w' = wd_outbox w \/
     prev <> cur /\
     wd_monitors w' = <[id := setSequence (checkedRow (ck_tx c) up m) (mo_state_sequence m + 1)]> (wd_monitors w) /\
     wd_outbox w' = wd_outbox w ++ [{| mt_MonitorID := id; mt_Prev := prev; mt_Cur := cur;
                                       mt_Reminder := false; mt_Seq := mo_state_sequence m + 1 |}]).
Proof.
  unfold recordCheckStatusTx. destruct (wd_monitors w !! id) as [m|] eqn:Hm; [|done].
  unfold refuse_if. destruct (_ && _); [done|]. simpl.
  set (w1 := setMonitor w id _). set (w2 := if entersConfirm _ _ then _ else _).
  assert (wd_monitors w2 = <[id := checkedRow (ck_tx c) up m]> (wd_monitors w) /\ wd_outbox w2 = wd_outbox w
          /\ only_live w w2) as (Hm2 & Ho2 & Hl2) by (unfold w2; destruct (entersConfirm _ _); by split_and!).
  destruct (announceFlip _ _ _ w2) as [w3|e] eqn:Hf; simpl; [|done]. intros [= <- <- <- <-].
  apply (announceFlip_inv _ _ _ _ _ (checkedRow (ck_tx c) up m)) in Hf as (Hl & _ & Hcase);
    [|by rewrite Hm2, lookup_insert_eq].
  exists m. split_and!; [done..|by etrans|].
  destruct Hcase as [[Heq ->]|(Hne & Hms & Ho)]; [left; by rewrite Hm2, Ho2|right].
  by rewrite Hms, Ho, Hm2, Ho2, insert_insert_eq.
Qed.
End frames.

Section ingest.
Context {S : Type} `{ServiceSink S}.
Implicit Types (w : World S) (hb : ResultMsg) (c : Clock).

(** ** What each part of a result leaves alone *)

Lemma releaseCanary_frame w id key :
  same_live w (releaseCanary w id key) /\ same_evidence w (releaseCanary w id key) /\
  wd_ledger (releaseCanary w id key) = wd_ledger w.
Proof. unfold releaseCanary. break_goal; by split_and!. Qed.

Lemma fillExpectedRun_shape db ev db' :
  fillExpectedRunTerminalTx db ev = Ok db' ->
  lg_monitors db' = lg_monitors db /\ lg_schedule db' = lg_schedule db /\ lg_revisions db' = lg_revisions db.
Proof.
  unfold fillExpectedRunTerminalTx, refuse_if. intros Hf.
  repeat (case_match; simplify_eq/=; try done).
Qed.

Lemma noteRefusal_shape db id due job rev at_ reason :
  let db' := noteExpectedRunRefusalTx db id due job rev at_ reason in
  lg_monitors db' = lg_monitors db /\ lg_schedule db' = lg_schedule db /\ lg_revisions db' = lg_revisions db.
Proof. unfold noteExpectedRunRefusalTx. repeat case_match; done. Qed.

Lemma fillFor_frame w hb ref at_ o w' :
  fillFor w hb ref at_ o = Ok w' -> same_live w w' /\ same_evidence w w'.
Proof.
  unfold fillFor. destruct ref as [r|]; [|intros; simplify_eq; done].
  destruct (fillExpectedRunTerminalTx _ _) as [db|e] eqn:E; simpl; [|done]. intros; simplify_eq.
  apply fillExpectedRun_shape in E as (Hm & _). split; by split.
Qed.

(** A refusal annotates a window and nothing else: no verdict moves. *)
Lemma mergeRefusal_Verdict r at_ reason : Verdict (mergeRefusal r at_ reason) = Verdict r.
Proof. done. Qed.

Lemma noteRefusal_Verdict db id due job rev at_ reason k :
  Verdict <$> lg_runs (noteExpectedRunRefusalTx db id due job rev at_ reason) !! k
  = Verdict <$> lg_runs db !! k.
Proof.
  unfold noteExpectedRunRefusalTx. destruct (_ || _); [done|].
  destruct (lg_runs db !! _) as [r|] eqn:Hr; [|done]. destruct (_ && _); [|done].
  simpl. destruct (decide (k = (id, pgTime due))) as [->|Hne].
  - by rewrite lookup_insert_eq, Hr.
  - by rewrite lookup_insert_ne.
Qed.

Lemma insertAndNote_inv c w id ts r w' ins :
  insertAndNote c w id ts r = Ok (w', ins) ->
  same_live w w' /\ wd_ledger w' = wd_ledger w /\ wd_maintenance w' = wd_maintenance w /\
  is_Some (wd_heartbeats w' !! (id, pgTime ts)) /\
  if ins then
    wd_heartbeats w !! (id, pgTime ts) = None /\
    wd_heartbeats w' = <[(id, pgTime ts) := r]> (wd_heartbeats w) /\
    noteHeartbeatForServices (ck_tx c) (wd_heartbeats w') id ts (wd_services w) = Some (wd_services w')
  else w' = w /\ is_Some (wd_heartbeats w !! (id, pgTime ts)).
Proof.
  unfold insertAndNote. destruct (insertHeartbeat _ _ _ _) as [hs [|]] eqn:E.
  - apply insertHeartbeat_fresh in E as [Hf ->].
    destruct (noteHeartbeatForServices _ _ _ _ _) as [s|] eqn:En; [|done]. intros; simplify_eq.
    split_and!; try done. simpl. rewrite lookup_insert_eq. by eexists.
  - apply insertHeartbeat_dup in E as [Hf ->]. intros; simplify_eq. by split_and!.
Qed.

(** The promise of the services survives an insert and its note. *)
Lemma insertAndNote_sound c w id ts r w' ins :
  insertAndNote c w id ts r = Ok (w', ins) -> id <> "" -> IsZero ts = false ->
  sink_sound (wd_heartbeats w) (wd_services w) -> sink_sound (wd_heartbeats w') (wd_services w').
Proof.
  intros Hi Hid Hts Hs. apply insertAndNote_inv in Hi as (_ & _ & _ & _ & Hi).
  destruct ins; [|by destruct Hi as [-> _]]. destruct Hi as (Hnone & Hhs & Hn).
  rewrite Hhs in *. by eapply sink_note.
Qed.

Lemma sound_evidence w w' :
  same_evidence w w' -> sink_sound (wd_heartbeats w) (wd_services w) ->
  sink_sound (wd_heartbeats w') (wd_services w').
Proof. intros [-> ->]. done. Qed.

Lemma refuseWithLedger_inv w hb ref at_ o w' out :
  refuseWithLedger w hb ref at_ o = Ok (w', out) ->
  out = o /\ same_live w w' /\ same_evidence w w' /\
  (forall k, Verdict <$> lg_runs (wd_ledger w') !! k = Verdict <$> lg_runs (wd_ledger w) !! k) /\
  lg_schedule (wd_ledger w') = lg_schedule (wd_ledger w).
Proof.
  unfold refuseWithLedger. destruct ref as [r|]; intros; simplify_eq; [|by split_and!].
  set (n := noteExpectedRunRefusalTx _ _ _ _ _ _ _).
  pose proof (noteRefusal_shape (wd_ledger w) (hb_MonitorID hb) (ref_DueAt r) (ref_JobID r)
    (hb_ExecutionRevision hb) at_ (out_Reason out)) as (Hm & Hs & _).
  split_and!; [done|by split|by split| |done]. intros k. apply noteRefusal_Verdict.
Qed.

Lemma modifyMonitor_frame f w id :
  same_evidence w (modifyMonitor f id w) /\ wd_outbox (modifyMonitor f id w) = wd_outbox w /\
  (forall m, wd_monitors w !! id = Some m ->
     wd_monitors (modifyMonitor f id w) = <[id := f m]> (wd_monitors w)).
Proof. unfold modifyMonitor. destruct (wd_monitors w !! id); split_and!; try done; naive_solver. Qed.

Lemma modifyMonitor_heartbeats f w id : wd_heartbeats (modifyMonitor f id w) = wd_heartbeats w.
Proof. apply modifyMonitor_frame. Qed.

(** The three ways an accepted result ends. *)
Lemma acceptResult_inv c w m hb ref w' out :
  acceptResult c w m hb ref = Ok (w', out) ->
  exists w1 w2 ins, same_live w w1 /\ same_evidence w w1 /\ wd_maintenance w1 = wd_maintenance w /\
    insertAndNote c w1 (hb_MonitorID hb) (hb_Ts hb)
      {| hr_up := hb_Up hb; hr_latency_ms := hb_LatencyMS hb; hr_code := hb_Code hb;
         hr_msg := hb_Msg hb; hr_observed_at := Some (pgTime (hb_Ts hb)) |} = Ok (w2, ins) /\
    out_Inserted out = ins /\
    if ins then
      if match mo_last_result_ts m with Some last => negb (After (hb_Ts hb) last) | None => false end
      then w' = w2 /\ out_Applied out = false
      else exists w3 prev cur sup,
        recordCheckStatusTx c (hb_MonitorID hb) (hb_Up hb) w2 = Ok (w3, (prev, cur, sup)) /\
        w' = modifyMonitor (setWatermark (hb_Ts hb) (ck_stmt c)) (hb_MonitorID hb) w3 /\
        out_Applied out = true /\ out_Cur out = Some cur
    else w' = w2 /\ out = refusal ReasonDuplicate.
Proof.
  unfold acceptResult. set (w0 := if _ && _ then _ else w).
  assert (same_live w w0 /\ same_evidence w w0 /\ wd_maintenance w0 = wd_maintenance w) as (Hl & He & Hmt)
    by (unfold w0; destruct (_ && _); by split_and!).
  destruct (fillFor _ _ _ _ _) as [w1|e] eqn:Hf; simpl; [|done].
  assert (wd_maintenance w1 = wd_maintenance w0) as Hmt1.
  { unfold fillFor in Hf. destruct ref; [|by simplify_eq].
    destruct (liftLedger _); by simplify_eq/=. }
  apply fillFor_frame in Hf as [Hl1 He1].
  destruct (insertAndNote _ _ _ _ _) as [[w2 ins]|e] eqn:Hi; simpl; [|done]. intros Ho.
  exists w1, w2, ins. split_and!; [by etrans|by etrans|congruence|done| |];
    (destruct ins; simpl in Ho; [|by simplify_eq]);
    (destruct (match mo_last_result_ts m with Some _ => _ | None => _ end); [by simplify_eq|]);
    destruct (recordCheckStatusTx _ _ _ _) as [[w3 [[prev cur] sup]]|e] eqn:Hr; simpl in Ho; try done;
    simplify_eq; [done|]. by exists w3, prev, cur, sup.
Qed.
End ingest.

(** ** Refused and repeated results *)
Section results.
Context {S : Type} `{ServiceSink S}.
Implicit Types (w : World S) (hb : ResultMsg) (c : Clock).

Lemma RecordScheduledResult_inv pol c hb w w' out :
  RecordScheduledResult pol c hb w = Ok (w', out) ->
  IsZero (hb_Ts hb) = true /\ w' = w /\ out = refusal ReasonMissingTimestamp \/
  IsZero (hb_Ts hb) = false /\
  exists m, wd_monitors w !! hb_MonitorID hb = Some m /\
    let w0 := releaseCanary w (hb_MonitorID hb) (hb_CanaryRunKey hb) in
    let ref := correlateExpectedRun (rp_ledger pol) (hb_Correlation hb) (ck_stmt c) in
    let reason := gateReason pol (ck_stmt c) m hb in
    same_live w w0 /\ same_evidence w w0 /\ wd_ledger w0 = wd_ledger w /\
    ((reason <> "" /\ refuseWithLedger w0 hb ref (ck_stmt c)
        (withMissing (missingObserved pol hb reason) (refusal reason)) = Ok (w', out)) \/
     (reason = "" /\ exists out', acceptResult c w0 m hb ref = Ok (w', out') /\
        out = withMissing (missingObserved pol hb reason) out')).
Proof.
  unfold RecordScheduledResult. destruct (IsZero (hb_Ts hb)) eqn:Hz.
  { intros; simplify_eq. by left. }
  destruct (releaseCanary_frame w (hb_MonitorID hb) (hb_CanaryRunKey hb)) as (Hl & He & Hdb).
  rewrite (sl_monitors _ _ Hl). destruct (wd_monitors w !! _) as [m|] eqn:Hm; [|done].
  intros Ho. right. split; [done|]. exists m. split; [done|]. cbv zeta. split_and!; [done..|].
  case_bool_decide as Hr; simpl in Ho.
  - right. split; [done|]. destruct (acceptResult _ _ _ _ _) as [[w1 o1]|e] eqn:Ha; [|done].
    simpl in Ho. simplify_eq. by exists o1.
  - by left.
Qed.

Lemma gateReason_neq pol dbNow m hb :
  gateReason pol dbNow m hb <> ReasonDuplicate /\ gateReason pol dbNow m hb <> ReasonOutOfOrder.
Proof. unfold gateReason. repeat case_match; done. Qed.

(** a scheduled result that is refused (disabled monitor, missing or stale revision, out of
    bounds or issued later than it was observed) is not evidence of anything: no heartbeat row,
    no live status, no transition, no confirm wake-up, no mark on a service bucket changes, and
    no window of the expected-run ledger changes its verdict. *)
Theorem refused_result_is_not_evidence pol c hb w w' out :
  RecordScheduledResult pol c hb w = Ok (w', out) ->
  out_Inserted out = false -> out_Reason out <> ReasonDuplicate ->
  same_live w w' /\ same_evidence w w' /\
  (forall k, Verdict <$> lg_runs (wd_ledger w') !! k = Verdict <$> lg_runs (wd_ledger w) !! k) /\
  lg_schedule (wd_ledger w') = lg_schedule (wd_ledger w).
Proof.
  intros Hr Hins Hdup.
  apply RecordScheduledResult_inv in Hr as [(_ & -> & _)|(_ & m & _ & Hl & He & Hdb & Hcase)]; [by split_and!|].
  destruct Hcase as [[_ Hr]|[_ (out' & Ha & ->)]].
  - apply refuseWithLedger_inv in Hr as (_ & Hl' & He' & Hv & Hs).
    split_and!; [by etrans|by etrans| |]; rewrite <- Hdb; done.
  - apply acceptResult_inv in Ha as (w1 & w2 & ins & _ & _ & _ & _ & Hins' & Ho).
    destruct ins; [|destruct Ho as [_ ->]; simpl in *; done].
    by simpl in Hins; congruence.
Qed.

(** A result whose row is already there changes no heartbeat, no live state and no service. *)
Lemma present_result_is_duplicate pol c hb w w' out :
  is_Some (wd_heartbeats w !! (hb_MonitorID hb, pgTime (hb_Ts hb))) ->
  RecordScheduledResult pol c hb w = Ok (w', out) -> same_live w w' /\ same_evidence w w'.
Proof.
  intros Hp Hr.
  apply RecordScheduledResult_inv in Hr as [(_ & -> & _)|(_ & m & _ & Hl & He & _ & Hcase)]; [done|].
  destruct Hcase as [[_ Hr]|[_ (out' & Ha & ->)]].
  - apply refuseWithLedger_inv in Hr as (_ & Hl' & He' & _). split; by etrans.
  - apply acceptResult_inv in Ha as (w1 & w2 & ins & Hl1 & He1 & _ & Hi & _ & Ho).
    apply insertAndNote_inv in Hi as (Hl2 & _ & _ & _ & Hi). destruct ins.
    + destruct Hi as [Hnone _]. rewrite (se_heartbeats _ _ He1), (se_heartbeats _ _ He) in Hnone.
      rewrite Hnone in Hp. by destruct Hp.
    + destruct Ho as [-> _]. destruct Hi as [-> _]. split; do 2 (etrans; [eassumption|]); done.
Qed.

Lemma inserted_row_present pol c hb w w' out :
  RecordScheduledResult pol c hb w = Ok (w', out) -> out_Inserted out = true ->
  is_Some (wd_heartbeats w' !! (hb_MonitorID hb, pgTime (hb_Ts hb))).
Proof.
  intros Hr Hins.
  apply RecordScheduledResult_inv in Hr as [(_ & _ & ->)|(_ & m & _ & Hl & He & _ & Hcase)]; [done|].
  destruct Hcase as [[_ Hr]|[_ (out' & Ha & ->)]].
  - apply refuseWithLedger_inv in Hr as (-> & _). done.
  - apply acceptResult_inv in Ha as (w1 & w2 & ins & _ & _ & _ & Hi & _ & Ho).
    apply insertAndNote_inv in Hi as (_ & _ & _ & Hp & _). destruct ins; [|by destruct Ho as [_ ->]].
    destruct (match mo_last_result_ts m with Some _ => _ | None => _ end); [by destruct Ho as [-> _]|].
    destruct Ho as (w3 & prev & cur & sup & Hc & -> & _).
    apply recordCheckStatusTx_inv in Hc as (m' & _ & _ & _ & Hol & _).
    destruct (modifyMonitor_frame (setWatermark (hb_Ts hb) (ck_stmt c)) w3 (hb_MonitorID hb)) as ([-> _] & _).
    by rewrite (ol_heartbeats _ _ Hol).
Qed.
End results.

(** ** The status log

    An abstract machine: a status and a sequence number per monitor, and the queue of
    transitions.  A flip takes the next number and queues the change, a reminder repeats the
    current one, a re-arm takes a number and queues nothing. *)
Record StatusLog := { sl_state : gmap string (MonitorStatus * Z); sl_log : list MonitorTransition }.

Inductive log_step : relation StatusLog :=
| log_flip a id prev cur n : sl_state a !! id = Some (prev, n) -> prev <> cur ->
    log_step a {| sl_state := <[id := (cur, n + 1)]> (sl_state a);
                  sl_log := sl_log a ++ [{| mt_MonitorID := id; mt_Prev := prev; mt_Cur := cur;
                                            mt_Reminder := false; mt_Seq := n + 1 |}] |}
| log_remind a id n : sl_state a !! id = Some (StatusDown, n) ->
    log_step a {| sl_state := sl_state a;
                  sl_log := sl_log a ++ [{| mt_MonitorID := id; mt_Prev := StatusDown; mt_Cur := StatusDown;
                                            mt_Reminder := true; mt_Seq := n |}] |}
| log_rearm a id st n : sl_state a !! id = Some (st, n) ->
    log_step a {| sl_state := <[id := (StatusPending, n + 1)]> (sl_state a); sl_log := sl_log a |}.

Definition flipAt (id : string) (n : Z) (e : MonitorTransition) : bool :=
  bool_decide (mt_MonitorID e = id) && negb (mt_Reminder e) && (mt_Seq e =? n).

(** What the log says of one monitor. *)
Record announces (log : list MonitorTransition) (id : string) (st : MonitorStatus) (n : Z) : Prop := {
  an_nonneg : 0 <= n;
  an_seq : forall e, e ∈ log -> mt_MonitorID e = id -> 1 <= mt_Seq e <= n;
  an_cur : forall e, e ∈ log -> mt_MonitorID e = id -> mt_Seq e = n -> mt_Cur e = st;
  an_flip : st <> StatusPending ->
    exists e, List.filter (flipAt id n) log = [e] /\ mt_Cur e = st /\ mt_Prev e <> mt_Cur e;
}.

Lemma announces_other log e id st n : mt_MonitorID e <> id -> announces log id st n -> announces (log ++ [e]) id st n.
Proof.
  intros Hne [Hn Hs Hc Hf]. split; [done| | |].
  1,2: intros e' [He'|He'%list_elem_of_singleton]%elem_of_app; [auto|by subst].
  intros Hst. destruct (Hf Hst) as (e0 & He0 & Hr). exists e0. split; [|done].
  rewrite List.filter_app, He0. simpl. unfold flipAt. by rewrite bool_decide_eq_false_2.
Qed.

Lemma announces_fresh log id st n m : announces log id st n -> n < m -> List.filter (flipAt id m) log = [].
Proof.
  intros [_ Hs _ _] Hnm. apply filter_none_b. intros e He. unfold flipAt.
  case_bool_decide as Hid; [|done]. specialize (Hs e He Hid).
  destruct (negb _); [|done]. apply Z.eqb_neq. lia.
Qed.

(** The invariant of the machine. *)
Definition log_sound (a : StatusLog) : Prop :=
  forall id st n, sl_state a !! id = Some (st, n) -> announces (sl_log a) id st n.

Lemma log_step_sound a a' : log_step a a' -> log_sound a -> log_sound a'.
Proof.
  intros Hstep Hs. destruct Hstep as [a id prev cur n Hid Hne|a id n Hid|a id st n Hid];
    intros id' st' n' Hl; simpl in *.
  - destruct (decide (id' = id)) as [->|Hid'].
    + rewrite lookup_insert_eq in Hl. simplify_eq. pose proof (Hs _ _ _ Hid) as Ha.
      pose proof (announces_fresh _ _ _ _ (n + 1) Ha ltac:(lia)) as Hfr. destruct Ha as [Hn Hseq _ _].
      split; [lia| | |].
      * intros e [He| ->%list_elem_of_singleton]%elem_of_app Heid; [specialize (Hseq e He Heid); lia|simpl; lia].
      * intros e [He| ->%list_elem_of_singleton]%elem_of_app Heid Hen; [|done]. specialize (Hseq e He Heid). lia.
      * intros _. eexists. rewrite List.filter_app, Hfr. simpl. unfold flipAt. simpl.
        rewrite bool_decide_eq_true_2, Z.eqb_refl by done. done.
    + rewrite lookup_insert_ne in Hl by done. apply announces_other; [done|]. by apply Hs.
  - destruct (decide (id' = id)) as [->|Hid']; [|apply announces_other; [done|]; by apply Hs].
    simplify_eq. destruct (Hs _ _ _ Hid) as [Hn Hseq Hcur Hf].
    destruct (Hf ltac:(done)) as (e0 & He0 & He0').
    assert (1 <= n) as Hn1.
    { assert (e0 ∈ List.filter (flipAt id n) (sl_log a)) as [Hin Hfl]%elem_of_filter_b by (rewrite He0; set_solver).
      unfold flipAt in Hfl. case_bool_decide as Hi0; [|done]. specialize (Hseq _ Hin Hi0).
      simpl in Hfl. bool_facts. lia. }
    split; [done| | |].
    + intros e [He| ->%list_elem_of_singleton]%elem_of_app Heid; [auto|simpl; lia].
    + intros e [He| ->%list_elem_of_singleton]%elem_of_app Heid Hen; [auto|done].
    + intros _. exists e0. split; [|done]. rewrite List.filter_app, He0. simpl.
      unfold flipAt. simpl. by rewrite andb_false_r.
  - destruct (decide (id' = id)) as [->|Hid'].
    + rewrite lookup_insert_eq in Hl. simplify_eq. destruct (Hs _ _ _ Hid) as [Hn Hseq _ _].
      split; [lia| | |done].
      * intros e He Heid. specialize (Hseq e He Heid). lia.
      * intros e He Heid Hen. specialize (Hseq e He Heid). lia.
    + rewrite lookup_insert_ne in Hl by done. by apply Hs.
Qed.

Lemma log_steps_sound a a' : rtc log_step a a' -> log_sound a -> log_sound a'.
Proof. induction 1; [done|]. intros. by apply IHrtc, (log_step_sound x). Qed.

(** ** The result path as a system *)
Section system.
Context {S : Type} `{ServiceSink S} (pol : ResultPolicy).
Implicit Types (w : World S).

(** Every transaction that writes a monitor, and whatever the scheduler does to the ledger, the
    services to their facts and an operator to the maintenance windows in between. *)
Inductive ingest_step : relation (World S) :=
| st_scheduled w c hb w' out : hb_MonitorID hb <> "" ->
    RecordScheduledResult pol c hb w = Ok (w', out) -> ingest_step w w'
| st_push w c id up msg rcv obs w' out : id <> "" -> IsZero rcv = false ->
    RecordPushResult c id up msg rcv obs w = Ok (w', out) -> ingest_step w w'
| st_deadman w c id rev cutoff w' out : id <> "" -> IsZero (ck_stmt c) = false ->
    RecordDeadmanResult c id rev cutoff w = Ok (w', out) -> ingest_step w w'
| st_probe_error w c at_ hb w' out :
    RecordProbeError pol c at_ hb w = Ok (w', out) -> ingest_step w w'
| st_set_status w id status w' prev :
    SetMonitorStatus id status w = Ok (w', prev) -> ingest_step w w'
| st_remind w c : ingest_step w (EnqueueRenotifyReminders c w).1
| st_config w c id cw w' :
    updateMonitorTxPrepared pol c id cw w = Ok w' -> ingest_step w w'
| st_ledger w db : lg_monitors db = wd_monitors w -> ingest_step w (setLedger w db)
| st_services w s : (sink_sound (wd_heartbeats w) (wd_services w) -> sink_sound (wd_heartbeats w) s) ->
    ingest_step w (setHeartbeats w (wd_heartbeats w) s)
| st_maintenance w ws :
    ingest_step w {| wd_ledger := wd_ledger w; wd_heartbeats := wd_heartbeats w; wd_maintenance := ws;
                     wd_canary_inflight := wd_canary_inflight w; wd_outbox := wd_outbox w;
                     wd_confirm_notified := wd_confirm_notified w;
                     wd_observed_before_issue := wd_observed_before_issue w; wd_services := wd_services w |}.

(** An instance that starts with new monitors, an empty queue and services that keep their promise. *)
Definition ingest_init w : Prop :=
  wd_outbox w = [] /\
  (forall id m, wd_monitors w !! id = Some m -> mo_Status m = StatusPending /\ 0 <= mo_state_sequence m) /\
  sink_sound (wd_heartbeats w) (wd_services w).

Definition ingest_system : system (World S) := System ingest_init ingest_step.

(** The abstraction function. *)
Definition statusOf (m : MonitorRow) : MonitorStatus * Z := (mo_Status m, mo_state_sequence m).
Definition logOf w : StatusLog :=
  {| sl_state := statusOf <$> wd_monitors w; sl_log := wd_outbox w |}.

Lemma logOf_lookup w id m : wd_monitors w !! id = Some m -> sl_state (logOf w) !! id = Some (statusOf m).
Proof. intros Hm. simpl. by rewrite lookup_fmap, Hm. Qed.

Lemma logOf_same_live w w' : same_live w w' -> logOf w' = logOf w.
Proof. intros [Hm Ho _]. unfold logOf. by rewrite Hm, Ho. Qed.

Lemma logOf_row w w' id m m' :
  wd_monitors w !! id = Some m -> wd_monitors w' = <[id := m']> (wd_monitors w) ->
  wd_outbox w' = wd_outbox w -> statusOf m' = statusOf m -> logOf w' = logOf w.
Proof.
  intros Hm Hms Ho Hs. unfold logOf. rewrite Hms, Ho, fmap_insert, Hs. f_equal.
  apply insert_id. by rewrite lookup_fmap, Hm.
Qed.

Lemma logOf_flip w w' id m m' prev cur :
  wd_monitors w !! id = Some m -> wd_monitors w' = <[id := m']> (wd_monitors w) ->
  prev = mo_Status m -> cur = mo_Status m' -> mo_state_sequence m' = mo_state_sequence m + 1 -> prev <> cur ->
  wd_outbox w' = wd_outbox w ++ [{| mt_MonitorID := id; mt_Prev := prev; mt_Cur := cur;
                                    mt_Reminder := false; mt_Seq := mo_state_sequence m + 1 |}] ->
  log_step (logOf w) (logOf w').
Proof.
  intros Hm Hms -> -> Hseq Hne Ho. unfold logOf at 2. rewrite Hms, fmap_insert, Ho.
  replace (statusOf m') with (mo_Status m', mo_state_sequence m + 1) by (unfold statusOf; congruence).
  apply (log_flip (logOf w)); [|done]. by apply logOf_lookup.
Qed.

Lemma check_refines c id up w w' r :
  recordCheckStatusTx c id up w = Ok (w', r) -> rtc log_step (logOf w) (logOf w').
Proof.
  destruct r as [[prev cur] sup]. intros Hc.
  apply recordCheckStatusTx_inv in Hc as (m & Hm & -> & -> & _ & [(Heq & Hms & Ho)|(Hne & Hms & Ho)]).
  - rewrite (logOf_row w w' _ _ _ Hm Hms Ho); [done|]. unfold statusOf. by rewrite <- Heq.
  - apply rtc_once. by eapply logOf_flip.
Qed.

Lemma setWatermark_status ts at_ m : statusOf (setWatermark ts at_ m) = statusOf m.
Proof. done. Qed.

Lemma modifyMonitor_log f w id :
  (forall m, statusOf (f m) = statusOf m) -> logOf (modifyMonitor f id w) = logOf w.
Proof.
  intros Hf. destruct (wd_monitors w !! id) as [m|] eqn:Hm.
  - destruct (modifyMonitor_frame f w id) as (_ & Ho & Hms). eapply logOf_row; eauto.
  - unfold modifyMonitor. by rewrite Hm.
Qed.

Lemma remind_steps now due w :
  (forall id m, (id, m) ∈ due -> sl_state (logOf w) !! id = Some (StatusDown, mo_state_sequence m)
     /\ mo_Status m = StatusDown) ->
  rtc log_step (logOf w) (logOf (foldl (remind now) w due)).
Proof.
  revert w. induction due as [|[id m] due IH]; intros w Hdue; [done|]. cbn [foldl].
  destruct (Hdue id m ltac:(set_solver)) as [Hl Hst].
  assert (logOf (remind now w (id, m)) =
          {| sl_state := sl_state (logOf w);
             sl_log := sl_log (logOf w) ++ [{| mt_MonitorID := id; mt_Prev := StatusDown; mt_Cur := StatusDown;
                                                mt_Reminder := true; mt_Seq := mo_state_sequence m |}] |}) as Heq.
  { unfold logOf at 1, remind. rewrite wd_monitors_setMonitor. rewrite fmap_insert.
    rewrite (insert_id (statusOf <$> wd_monitors w)); [done|].
    simpl in Hl. rewrite Hl. unfold statusOf. simpl. by rewrite Hst. }
  eapply rtc_l; [|apply IH; intros id' m' Hin; rewrite Heq; apply Hdue; set_solver].
  rewrite Heq. by apply log_remind.
Qed.

Lemma accept_refines c w m hb ref w' out :
  acceptResult c w m hb ref = Ok (w', out) -> rtc log_step (logOf w) (logOf w').
Proof.
  intros Ha. apply acceptResult_inv in Ha as (w1 & w2 & ins & Hl1 & _ & _ & Hi & _ & Ho).
  apply insertAndNote_inv in Hi as (Hl2 & _).
  rewrite <- (logOf_same_live _ _ Hl1), <- (logOf_same_live _ _ Hl2).
  destruct ins; [|by destruct Ho as [-> _]].
  destruct (match mo_last_result_ts m with Some _ => _ | None => _ end); [by destruct Ho as [-> _]|].
  destruct Ho as (w3 & prev & cur & sup & Hc & -> & _).
  rewrite modifyMonitor_log by done. by eapply check_refines.
Qed.

Lemma scheduled_refines c hb w w' out :
  RecordScheduledResult pol c hb w = Ok (w', out) -> rtc log_step (logOf w) (logOf w').
Proof.
  intros Hr. apply RecordScheduledResult_inv in Hr as [(_ & -> & _)|(_ & m & _ & Hl & _ & _ & Hcase)]; [done|].
  rewrite <- (logOf_same_live _ _ Hl).
  destruct Hcase as [[_ Hr]|[_ (out' & Ha & _)]]; [|by eapply accept_refines].
  apply refuseWithLedger_inv in Hr as (_ & Hl' & _). by rewrite (logOf_same_live _ _ Hl').
Qed.

(** The push and dead-man paths share their tail. *)
Lemma note_check_refines c w id ts r up w1 w2 ins x :
  insertAndNote c w id ts r = Ok (w1, ins) -> recordCheckStatusTx c id up w1 = Ok (w2, x) ->
  rtc log_step (logOf w) (logOf w2).
Proof.
  intros Hi Hc. apply insertAndNote_inv in Hi as (Hl & _).
  rewrite <- (logOf_same_live _ _ Hl). by eapply check_refines.
Qed.

Lemma push_inv c id up msg rcv obs w w' out :
  RecordPushResult c id up msg rcv obs w = Ok (w', out) ->
  w' = w /\ out_Applied out = false \/
  exists r w1 ins w2 x, out_Applied out = true /\ insertAndNote c w id rcv r = Ok (w1, ins) /\
    recordCheckStatusTx c id up w1 = Ok (w2, x) /\
    w' = modifyMonitor (setWatermark rcv (pgTime rcv)) id w2.
Proof.
  unfold RecordPushResult. destruct (wd_monitors w !! id) as [m|]; [|done].
  destruct (_ || _); [intros; simplify_eq; by left|]. set (r := {| hr_up := up |}).
  destruct (insertAndNote _ _ _ _ _) as [[w1 ins]|e] eqn:Hi; simpl; [|done].
  destruct (recordCheckStatusTx _ _ _ _) as [[w2 [[prev cur] sup]]|e] eqn:Hc; simpl; [|done].
  intros; simplify_eq. right. by exists r, w1, ins, w2, (prev, cur, sup).
Qed.

Lemma deadman_inv c id rev cutoff w w' out :
  RecordDeadmanResult c id rev cutoff w = Ok (w', out) ->
  w' = w \/
  exists r w1 ins x, insertAndNote c w id (ck_stmt c) r = Ok (w1, ins) /\
    recordCheckStatusTx c id false w1 = Ok (w', x).
Proof.
  unfold RecordDeadmanResult. destruct (wd_monitors w !! id) as [m|]; [|done].
  destruct (negb _); [intros; simplify_eq; by left|]. set (r := {| hr_up := false |}).
  destruct (insertAndNote _ _ _ _ _) as [[w1 ins]|e] eqn:Hi; simpl; [|done].
  destruct (recordCheckStatusTx _ _ _ _) as [[w2 [[prev cur] sup]]|e] eqn:Hc; simpl; [|done].
  intros; simplify_eq. right. by exists r, w1, ins, (prev, cur, sup).
Qed.

Lemma probe_error_frame c at_ hb w w' out :
  RecordProbeError pol c at_ hb w = Ok (w', out) -> logOf w' = logOf w /\ same_evidence w w'.
Proof.
  unfold RecordProbeError. destruct (hb_ProbeError hb) as [[reason job]|]; [|done].
  unfold refuse_if at 1. destruct (_ || _); simpl; [done|].
  destruct (wd_monitors w !! _) as [m|] eqn:Hm; [|done]. destruct (_ && _).
  - destruct (fillFor _ _ _ _ _) as [w1|e] eqn:Hf; simpl; [|done]. intros; simplify_eq.
    apply fillFor_frame in Hf as [Hl He]. split; [|etrans; [|exact He]; done].
    rewrite (logOf_same_live _ _ Hl). by eapply logOf_row.
  - destruct (refuseWithLedger _ _ _ _ _) as [[w1 o]|e] eqn:Hr; simpl; [|done]. intros; simplify_eq.
    apply refuseWithLedger_inv in Hr as (_ & Hl & He & _). by rewrite (logOf_same_live _ _ Hl).
Qed.

Lemma set_status_inv id status w w' prev :
  SetMonitorStatus id status w = Ok (w', prev) -> rtc log_step (logOf w) (logOf w') /\ same_evidence w w'.
Proof.
  unfold SetMonitorStatus. destruct (wd_monitors w !! id) as [m|] eqn:Hm; [|done].
  set (m' := setLive m status _ _). destruct (announceFlip _ _ _ _) as [w1|e] eqn:Hf; simpl; [|done].
  intros; simplify_eq. apply (announceFlip_inv _ _ _ _ _ m') in Hf as (Hl & _ & Hcase);
    [|by rewrite wd_monitors_setMonitor, lookup_insert_eq].
  split; [|apply only_live_evidence in Hl; etrans; [|exact Hl]; done].
  destruct Hcase as [[Heq ->]|(Hne & Hms & Ho)].
  - rewrite (logOf_row w _ _ _ _ Hm (wd_monitors_setMonitor w id m')); [done..|].
    unfold statusOf. simpl. by rewrite Heq.
  - rewrite wd_monitors_setMonitor, insert_insert_eq in Hms.
    apply rtc_once. by eapply logOf_flip; [exact Hm|exact Hms|..].
Qed.

Lemma sync_monitors p now ids db : lg_monitors (syncMonitorScheduleTx p now ids db) = lg_monitors db.
Proof.
  unfold syncMonitorScheduleTx.
  enough (forall (f : Ledger -> string -> Ledger), (forall d i, lg_monitors (f d i) = lg_monitors d) ->
          forall l d, lg_monitors (foldl f d l) = lg_monitors d) as Hf.
  { rewrite !Hf; [done|intros d i; unfold closeSegment; by repeat case_match
                 |intros d i; unfold participation; by repeat case_match]. }
  intros f Hf l. induction l as [|i l IH]; intros d; [done|]. simpl. by rewrite IH.
Qed.

Lemma config_inv c id cw w w' :
  updateMonitorTxPrepared pol c id cw w = Ok w' ->
  exists m, wd_monitors w !! id = Some m /\ same_evidence w w' /\ wd_outbox w' = wd_outbox w /\
    wd_monitors w' = <[id := updatedRow (ck_stmt c) cw m]> (wd_monitors w).
Proof.
  unfold updateMonitorTxPrepared. destruct (wd_monitors w !! id) as [m|] eqn:Hm; [|done].
  unfold refuse_if. destruct (_ || _); simpl; [done|]. intros; simplify_eq. exists m. split; [done|].
  split; [by split|]. split; [done|]. unfold wd_monitors at 1. simpl. rewrite sync_monitors.
  unfold writeRevisionTimeline. by repeat case_match.
Qed.

Lemma config_refines c id cw w w' :
  updateMonitorTxPrepared pol c id cw w = Ok w' -> rtc log_step (logOf w) (logOf w').
Proof.
  intros Hc. apply config_inv in Hc as (m & Hm & _ & Ho & Hms).
  destruct (negb (mo_Enabled m) && cw_Enabled cw) eqn:Hr.
  - apply rtc_once.
    assert (logOf w' = {| sl_state := <[id := (StatusPending, mo_state_sequence m + 1)]> (sl_state (logOf w));
                          sl_log := sl_log (logOf w) |}) as ->.
    { unfold logOf. rewrite Hms, Ho, fmap_insert. unfold statusOf at 1. simpl. by rewrite Hr. }
    apply (log_rearm _ _ (mo_Status m)). by apply logOf_lookup.
  - rewrite (logOf_row w w' _ _ _ Hm Hms Ho); [done|]. unfold statusOf. simpl. by rewrite Hr.
Qed.

Lemma step_refines w w' : ingest_step w w' -> rtc log_step (logOf w) (logOf w').
Proof.
  destruct 1 as [w c hb w' out _ Hr|w c id up msg rcv obs w' out _ _ Hr|w c id rev cutoff w' out _ _ Hr
    |w c at_ hb w' out Hr|w id st w' prev Hr|w c|w c id cw w' Hr|w db Hdb|w s Hs|w ws].
  - by eapply scheduled_refines.
  - apply push_inv in Hr as [[-> _]|(r & w1 & ins & w2 & x & _ & Hi & Hc & ->)]; [done|].
    rewrite modifyMonitor_log by done. by eapply note_check_refines.
  - apply deadman_inv in Hr as [->|(r & w1 & ins & x & Hi & Hc)]; [done|]. by eapply note_check_refines.
  - apply probe_error_frame in Hr as [-> _]. done.
  - by apply set_status_inv in Hr as [Hr _].
  - apply remind_steps. intros id m [Hin Hdue]%elem_of_filter_b. apply elem_of_map_to_list in Hin.
    rewrite (logOf_lookup _ _ _ Hin). unfold renotifyDue in Hdue. simpl in Hdue.
    assert (mo_Status m = StatusDown) as Hst by (bool_facts; by eapply bool_decide_eq_true_1).
    unfold statusOf. by rewrite Hst.
  - by eapply config_refines.
  - unfold logOf, wd_monitors. simpl. rewrite Hdb. done.
  - done.
  - done.
Qed.

(** ** The services' promise *)

Lemma note_check_sound c w id ts r up w1 ins w2 x :
  insertAndNote c w id ts r = Ok (w1, ins) -> recordCheckStatusTx c id up w1 = Ok (w2, x) ->
  id <> "" -> IsZero ts = false ->
  sink_sound (wd_heartbeats w) (wd_services w) -> sink_sound (wd_heartbeats w2) (wd_services w2).
Proof.
  intros Hi Hc Hid Hts Hs. destruct x as [[prev cur] sup].
  apply recordCheckStatusTx_inv in Hc as (m & _ & _ & _ & Hol & _).
  apply (sound_evidence w1); [by apply only_live_evidence|]. by eapply insertAndNote_sound.
Qed.

Lemma scheduled_sound c hb w w' out :
  RecordScheduledResult pol c hb w = Ok (w', out) -> hb_MonitorID hb <> "" ->
  sink_sound (wd_heartbeats w) (wd_services w) -> sink_sound (wd_heartbeats w') (wd_services w').
Proof.
  intros Hr Hid Hs.
  apply RecordScheduledResult_inv in Hr as [(_ & -> & _)|(Hz & m & _ & _ & He & _ & Hcase)]; [done|].
  apply (sound_evidence _ _ He) in Hs. destruct Hcase as [[_ Hr]|[_ (out' & Ha & _)]].
  { apply refuseWithLedger_inv in Hr as (_ & _ & He' & _). by eapply sound_evidence. }
  apply acceptResult_inv in Ha as (w1 & w2 & ins & _ & He1 & _ & Hi & _ & Ho).
  apply (sound_evidence _ _ He1) in Hs.
  destruct ins; [|destruct Ho as [-> _]; by eapply insertAndNote_sound].
  destruct (match mo_last_result_ts m with Some _ => _ | None => _ end);
    [destruct Ho as [-> _]; by eapply insertAndNote_sound|].
  destruct Ho as (w3 & prev & cur & sup & Hc & -> & _).
  apply (sound_evidence w3); [by apply modifyMonitor_frame|]. by eapply note_check_sound.
Qed.

Lemma remind_evidence now due w : same_evidence w (foldl (remind now) w due).
Proof.
  revert w. induction due as [|[id m] due IH]; intros w; [done|]. simpl. etrans; [|apply IH]. done.
Qed.

Lemma step_sound w w' :
  ingest_step w w' -> sink_sound (wd_heartbeats w) (wd_services w) ->
  sink_sound (wd_heartbeats w') (wd_services w').
Proof.
  destruct 1 as [w c hb w' out Hid Hr|w c id up msg rcv obs w' out Hid Hz Hr|w c id rev cutoff w' out Hid Hz Hr
    |w c at_ hb w' out Hr|w id st w' prev Hr|w c|w c id cw w' Hr|w db Hdb|w s Hs|w ws]; intros Hsound.
  - by eapply scheduled_sound.
  - apply push_inv in Hr as [[-> _]|(r & w1 & ins & w2 & x & _ & Hi & Hc & ->)]; [done|].
    apply (sound_evidence w2); [by apply modifyMonitor_frame|]. by eapply note_check_sound.
  - apply deadman_inv in Hr as [->|(r & w1 & ins & x & Hi & Hc)]; [done|]. by eapply note_check_sound.
  - apply probe_error_frame in Hr as [_ He]. by eapply sound_evidence.
  - apply set_status_inv in Hr as [_ He]. by eapply sound_evidence.
  - eapply sound_evidence; [apply remind_evidence|done].
  - apply config_inv in Hr as (m & _ & He & _). by eapply sound_evidence.
  - done.
  - by apply Hs.
  - done.
Qed.

(** ** Heartbeats are only added *)

Lemma note_check_grows c w id ts r up w1 ins w2 x :
  insertAndNote c w id ts r = Ok (w1, ins) -> recordCheckStatusTx c id up w1 = Ok (w2, x) ->
  wd_heartbeats w ⊆ wd_heartbeats w2.
Proof.
  intros Hi Hc. destruct x as [[prev cur] sup].
  apply recordCheckStatusTx_inv in Hc as (m & _ & _ & _ & Hol & _). rewrite (ol_heartbeats _ _ Hol).
  apply insertAndNote_inv in Hi as (_ & _ & _ & _ & Hi). destruct ins; [|by destruct Hi as [-> _]].
  destruct Hi as (Hn & -> & _). by apply insert_subseteq.
Qed.

Lemma step_grows w w' : ingest_step w w' -> wd_heartbeats w ⊆ wd_heartbeats w'.
Proof.
  destruct 1 as [w c hb w' out Hid Hr|w c id up msg rcv obs w' out Hid Hz Hr|w c id rev cutoff w' out Hid Hz Hr
    |w c at_ hb w' out Hr|w id st w' prev Hr|w c|w c id cw w' Hr|w db Hdb|w s Hs|w ws]; try done.
  - apply RecordScheduledResult_inv in Hr as [(_ & -> & _)|(Hz & m & _ & _ & He & _ & Hcase)]; [done|].
    rewrite <- (se_heartbeats _ _ He). destruct Hcase as [[_ Hr]|[_ (out' & Ha & _)]].
    { apply refuseWithLedger_inv in Hr as (_ & _ & [-> _] & _). done. }
    apply acceptResult_inv in Ha as (w1 & w2 & ins & _ & He1 & _ & Hi & _ & Ho).
    rewrite <- (se_heartbeats _ _ He1).
    assert (wd_heartbeats w1 ⊆ wd_heartbeats w2) as H12.
    { apply insertAndNote_inv in Hi as (_ & _ & _ & _ & Hi). destruct ins; [|by destruct Hi as [-> _]].
      destruct Hi as (Hn & -> & _). by apply insert_subseteq. }
    destruct ins; [|by destruct Ho as [-> _]].
    destruct (match mo_last_result_ts m with Some _ => _ | None => _ end); [by destruct Ho as [-> _]|].
    destruct Ho as (w3 & prev & cur & sup & Hc & -> & _).
    rewrite modifyMonitor_heartbeats. by eapply note_check_grows.
  - apply push_inv in Hr as [[-> _]|(r & w1 & ins & w2 & x & _ & Hi & Hc & ->)]; [done|].
    rewrite modifyMonitor_heartbeats. by eapply note_check_grows.
  - apply deadman_inv in Hr as [->|(r & w1 & ins & x & Hi & Hc)]; [done|]. by eapply note_check_grows.
  - by apply probe_error_frame in Hr as [_ [-> _]].
  - by apply set_status_inv in Hr as [_ [-> _]].
  - unfold EnqueueRenotifyReminders. cbv zeta. cbn [fst].
    by rewrite (se_heartbeats _ _ (remind_evidence _ _ _)).
  - by apply config_inv in Hr as (m & _ & [-> _] & _).
Qed.

Lemma steps_grow w w' : rtc ingest_step w w' -> wd_heartbeats w ⊆ wd_heartbeats w'.
Proof. induction 1; [done|]. etrans; [by apply step_grows|done]. Qed.

(** ** The theorems *)

(** once a scheduled result has been recorded, delivering it again - however late, under
    whatever clock, and after any number of other transactions - inserts nothing, changes no
    live status, queues no transition and marks no service bucket. *)
Theorem redelivery_changes_nothing c hb w w1 out w2 c' w3 out' :
  RecordScheduledResult pol c hb w = Ok (w1, out) -> out_Inserted out = true ->
  rtc ingest_step w1 w2 ->
  RecordScheduledResult pol c' hb w2 = Ok (w3, out') ->
  same_live w2 w3 /\ same_evidence w2 w3.
Proof.
  intros Hr Hins Hsteps Hr'. eapply present_result_is_duplicate; [|exact Hr'].
  destruct (inserted_row_present _ _ _ _ _ _ Hr Hins) as [r Hp].
  exists r. eapply lookup_weaken; [exact Hp|]. by apply steps_grow.
Qed.

(** C15: the queue of transitions announces exactly the live status. In every reachable state an
    event that survives the delivery worker's staleness gate carries the monitor's current
    status, and a monitor that is up or down has exactly one unsuperseded flip in the queue,
    into that status: no stale alert can be delivered, and no current one is missing. *)
Theorem status_log_announces w id m :
  sys_reachable ingest_system w -> wd_monitors w !! id = Some m ->
  (forall e, e ∈ wd_outbox w -> mt_MonitorID e = id -> superseded m e = false -> mt_Cur e = mo_Status m) /\
  (mo_Status m <> StatusPending ->
   exists e, List.filter (fun e => bool_decide (mt_MonitorID e = id) && negb (mt_Reminder e)
                                   && negb (superseded m e)) (wd_outbox w) = [e]
     /\ mt_Cur e = mo_Status m /\ mt_Prev e <> mt_Cur e).
Proof.
  intros (w0 & (Ho & Hm0 & _) & Hsteps) Hm.
  assert (rtc log_step (logOf w0) (logOf w)) as Hlog.
  { clear -Hsteps. induction Hsteps as [|x y z Hxy _ IH]; [done|]. etrans; [by apply step_refines|done]. }
  apply log_steps_sound in Hlog.
  2: { intros i st n Hl. simpl in Hl. rewrite lookup_fmap_Some in Hl. destruct Hl as (m0 & Heq & Hl).
       destruct (Hm0 _ _ Hl) as [Hp Hn]. unfold statusOf in Heq. simplify_eq. simpl. rewrite Ho.
       split; [done|set_solver..|done]. }
  destruct (Hlog id (mo_Status m) (mo_state_sequence m)) as [Hn Hseq Hcur Hflip]; [by apply logOf_lookup|].
  assert (forall e, e ∈ wd_outbox w -> mt_MonitorID e = id ->
            superseded m e = negb (mt_Seq e =? mo_state_sequence m)) as Hsup.
  { intros e He Hid. specialize (Hseq e He Hid). unfold superseded.
    destruct (Z.eqb_spec (mt_Seq e) (mo_state_sequence m)), (Z.ltb_spec 0 (mt_Seq e)),
      (Z.ltb_spec (mt_Seq e) (mo_state_sequence m)); done || lia. }
  split.
  - intros e He Hid Hs. rewrite Hsup in Hs by done. bool_facts. by apply Hcur.
  - intros Hst. destruct (Hflip Hst) as (e & He & Hr). exists e. split; [|done].
    rewrite <- He. apply filter_ext_elem. intros e' He'. unfold flipAt.
    case_bool_decide; [|done]. rewrite Hsup, negb_involutive by done. done.
Qed.

(** Every transaction of the result path keeps what the services promise about the
    heartbeats: a row is never inserted without the mark that the promise needs. *)
Lemma ingest_reachable_sound w :
  sys_reachable ingest_system w -> sink_sound (wd_heartbeats w) (wd_services w).
Proof.
  apply (invariant_rule ingest_system (fun w => sink_sound (wd_heartbeats w) (wd_services w)));
    [by intros x (_ & _ & Hs)|intros x y; apply step_sound].
Qed.
End system.

(** ** The live status as a function of the applied results *)

Lemma trailing_snoc ups up : trailing (ups ++ [up]) = if up then 0 else 1 + trailing ups.
Proof. unfold trailing. rewrite rev_app_distr. by destruct up. Qed.

Lemma trailing_nonneg ups : 0 <= trailing ups.
Proof.
  unfold trailing. induction (rev ups) as [|[|] l IH]; simpl; lia.
Qed.

Lemma existsb_snoc ups up : existsb id (ups ++ [up]) = existsb id ups || up.
Proof. rewrite existsb_app. simpl. unfold id at 2. by rewrite orb_false_r. Qed.

Definition countedFailures (f0 : Z) (ups : list bool) : Z :=
  if existsb id ups then trailing ups else f0 + trailing ups.

Lemma countedFailures_snoc f0 ups up :
  countedFailures f0 (ups ++ [up]) = if up then 0 else countedFailures f0 ups + 1.
Proof.
  unfold countedFailures. rewrite existsb_snoc, trailing_snoc.
  destruct up, (existsb id ups); simpl; lia.
Qed.

(** One more result, on the reference side: exactly the [CASE] of the [UPDATE]. *)
Lemma liveStatus_snoc threshold s0 f0 ups up :
  1 <= threshold ->
  liveStatus threshold s0 f0 (ups ++ [up]) =
    if up then StatusUp
    else if threshold <=? countedFailures f0 ups + 1 then StatusDown
    else liveStatus threshold s0 f0 ups.
Proof.
  intros Ht. unfold liveStatus. fold (countedFailures f0 (ups ++ [up])). fold (countedFailures f0 ups).
  rewrite countedFailures_snoc, existsb_snoc, trailing_snoc. pose proof (trailing_nonneg ups).
  destruct up; [rewrite andb_false_r, orb_true_r; done|]. rewrite orb_false_r.
  replace (0 <? 1 + trailing ups) with true by (symmetry; apply Z.ltb_lt; lia). rewrite andb_true_r.
  destruct (Z.leb_spec threshold (countedFailures f0 ups + 1)) as [Hle|Hgt]; [done|].
  by rewrite (proj2 (Z.leb_gt _ _)) by lia.
Qed.

Section live.
Context {S : Type} `{ServiceSink S} (pol : ResultPolicy).
Implicit Types (w : World S).

(** The three columns of a row the live status depends on. *)
Definition liveOf (m : MonitorRow) : Z * MonitorStatus * Z :=
  (mo_FailureThreshold m, mo_Status m, mo_ConsecutiveFailures m).

Definition applyLive (up : bool) (x : Z * MonitorStatus * Z) : Z * MonitorStatus * Z :=
  let '(t, s, f) := x in
  (t, if up then StatusUp else if t <=? f + 1 then StatusDown else s, if up then 0 else f + 1).

Lemma same_live_row w w' i : same_live w w' -> liveOf <$> wd_monitors w' !! i = liveOf <$> wd_monitors w !! i.
Proof. by intros [-> _ _]. Qed.

Lemma scheduled_live c hb w w' out i :
  RecordScheduledResult pol c hb w = Ok (w', out) ->
  liveOf <$> wd_monitors w' !! i =
    if out_Applied out && bool_decide (hb_MonitorID hb = i)
    then applyLive (hb_Up hb) <$> (liveOf <$> wd_monitors w !! i)
    else liveOf <$> wd_monitors w !! i.
Proof.
  intros Hr. apply RecordScheduledResult_inv in Hr as [(_ & -> & ->)|(_ & m & _ & Hl & _ & _ & Hcase)]; [done|].
  rewrite <- (same_live_row _ _ i Hl). destruct Hcase as [[_ Hr]|[_ (out' & Ha & ->)]].
  { apply refuseWithLedger_inv in Hr as (-> & Hl' & _). by rewrite (same_live_row _ _ i Hl'). }
  apply acceptResult_inv in Ha as (w1 & w2 & ins & Hl1 & _ & _ & Hi & _ & Ho).
  apply insertAndNote_inv in Hi as (Hl2 & _).
  rewrite <- (same_live_row _ _ i Hl1), <- (same_live_row _ _ i Hl2). unfold withMissing. simpl.
  destruct ins; [|by destruct Ho as [-> ->]].
  destruct (match mo_last_result_ts m with Some _ => _ | None => _ end); [by destruct Ho as [-> ->]|].
  destruct Ho as (w3 & prev & cur & sup & Hc & -> & -> & _).
  apply recordCheckStatusTx_inv in Hc as (m2 & Hm2 & _ & _ & _ & Hcase). simpl.
  assert (exists m3, wd_monitors w3 = <[hb_MonitorID hb := m3]> (wd_monitors w2) /\
            liveOf m3 = applyLive (hb_Up hb) (liveOf m2)) as (m3 & Hm3 & Hlive)
    by (destruct Hcase as [(_ & Hms & _)|(_ & Hms & _)]; eexists; split; [exact Hms|done|exact Hms|done]).
  assert (wd_monitors (modifyMonitor (setWatermark (hb_Ts hb) (ck_stmt c)) (hb_MonitorID hb) w3)
          = <[hb_MonitorID hb := setWatermark (hb_Ts hb) (ck_stmt c) m3]> (wd_monitors w2)) as ->.
  { destruct (modifyMonitor_frame (setWatermark (hb_Ts hb) (ck_stmt c)) w3 (hb_MonitorID hb)) as (_ & _ & Hf).
    rewrite (Hf m3) by (rewrite Hm3; apply lookup_insert_eq). by rewrite Hm3, insert_insert_eq. }
  case_bool_decide as Hid.
  - subst i. rewrite lookup_insert_eq, Hm2.
    change (Some (liveOf m3) = Some (applyLive (hb_Up hb) (liveOf m2))). by rewrite Hlive.
  - by rewrite lookup_insert_ne.
Qed.

Lemma deliverAll_live i w l w' ups t s f :
  deliverAll pol i w l = (w', ups) -> liveOf <$> wd_monitors w !! i = Some (t, s, f) ->
  liveOf <$> wd_monitors w' !! i = Some (foldl (fun x up => applyLive up x) (t, s, f) ups).
Proof.
  revert w ups t s f. induction l as [|[c hb] l IH]; intros w ups t s f Hd Hl; simpl in Hd; [by simplify_eq|].
  destruct (RecordScheduledResult pol c hb w) as [[w1 out]|e] eqn:Hr; [|by eapply IH].
  destruct (deliverAll pol i w1 l) as [w2 ups'] eqn:Hd'. simplify_eq.
  pose proof (scheduled_live _ _ _ _ _ i Hr) as Hs. rewrite Hl in Hs.
  destruct (out_Applied out && bool_decide (hb_MonitorID hb = i)); simpl in Hs;
    rewrite (IH _ _ _ _ _ Hd' Hs); done.
Qed.

Lemma applyLive_fold t s f ups : 1 <= t ->
  foldl (fun x up => applyLive up x) (t, s, f) ups = (t, liveStatus t s f ups, countedFailures f ups).
Proof.
  intros Ht. induction ups as [|up ups IH] using rev_ind.
  - unfold liveStatus, countedFailures, trailing. simpl. rewrite andb_false_r. by rewrite Z.add_0_r.
  - rewrite foldl_app, IH. simpl. rewrite liveStatus_snoc, countedFailures_snoc by done. done.
Qed.

(** C16: whatever results are delivered, in whatever order and with whatever failures, the live
    status of a monitor is a function of the verdicts that were applied to it: down exactly
    when as many failures as the threshold follow its last success (or the failures counted
    before, if it never succeeded), up after a success, and its former status otherwise. *)
Theorem live_status_from_history i w l w' ups m :
  deliverAll pol i w l = (w', ups) -> wd_monitors w !! i = Some m -> 1 <= mo_FailureThreshold m ->
  exists m', wd_monitors w' !! i = Some m' /\
    mo_Status m' = liveStatus (mo_FailureThreshold m) (mo_Status m) (mo_ConsecutiveFailures m) ups /\
    mo_ConsecutiveFailures m' =
      (if existsb id ups then trailing ups else mo_ConsecutiveFailures m + trailing ups).
Proof.
  intros Hd Hm Ht.
  assert (liveOf <$> wd_monitors w !! i
          = Some (mo_FailureThreshold m, mo_Status m, mo_ConsecutiveFailures m)) as Hl by by rewrite Hm.
  apply (deliverAll_live _ _ _ _ _ _ _ _ Hd) in Hl. rewrite applyLive_fold in Hl by done.
  destruct (wd_monitors w' !! i) as [m'|]; [|done]. simplify_eq/=. exists m'.
  unfold liveOf in *. by simplify_eq/=.
Qed.
End live.

(** ** The dead-man switch *)
Section deadman.
Context {S : Type} `{ServiceSink S}.
Implicit Types (w : World S).

Lemma push_watermark c id up msg rcv obs w w' out :
  RecordPushResult c id up msg rcv obs w = Ok (w', out) -> out_Applied out = true ->
  exists m, wd_monitors w' !! id = Some m /\ mo_last_result_ts m = Some (pgTime rcv).
Proof.
  intros Hr Ha. apply push_inv in Hr as [[_ Hf]|(r & w1 & ins & w2 & [[prev cur] sup] & _ & _ & Hc & ->)];
    [congruence|].
  apply recordCheckStatusTx_inv in Hc as (m & _ & _ & _ & _ & Hcase).
  assert (exists m2, wd_monitors w2 !! id = Some m2) as [m2 Hm2]
    by (destruct Hcase as [(_ & -> & _)|(_ & -> & _)]; rewrite lookup_insert_eq; eauto).
  destruct (modifyMonitor_frame (setWatermark rcv (pgTime rcv)) w2 id) as (_ & _ & Hf).
  rewrite (Hf m2 Hm2), lookup_insert_eq. by eexists.
Qed.

(** a push ping that is applied before the dead-man decision commits prevents it: whatever
    revision the scheduler evaluated, a cutoff at or before the ping's receipt drops the
    synthetic DOWN and changes nothing. *)
Theorem deadman_yields_to_ping c id up msg rcv obs w w' out c' rev cutoff :
  RecordPushResult c id up msg rcv obs w = Ok (w', out) -> out_Applied out = true ->
  cutoff <= pgTime rcv -> RecordDeadmanResult c' id rev cutoff w' = Ok (w', refusal "").
Proof.
  intros Hr Ha Hcut. destruct (push_watermark _ _ _ _ _ _ _ _ _ Hr Ha) as (m & Hm & Hl).
  unfold RecordDeadmanResult. rewrite Hm.
  assert (stale m rev cutoff = false) as ->; [|done]. unfold stale, lastOrCreated, Before. rewrite Hl.
  apply andb_false_intro2. apply Z.ltb_ge. destruct (mo_push_armed_at m); lia.
Qed.
End deadman.

(** ** Concrete runs *)
Module Example.

(** A sink that records each marked row: every heartbeat is marked. *)
#[export] Instance markSink : ServiceSink (gset (string * Time)).
Proof.
  refine {| noteHeartbeatForServices _ _ id ts s := Some ({[(id, pgTime ts)]} ∪ s);
            sink_sound hs s := dom hs ⊆ s |}.
  intros now hs id ts r s s' _ _ _ Hs [= <-]. rewrite dom_insert_L. set_solver.
Defined.

Definition monitor (t : MonitorType) : MonitorRow :=
  {| mo_project := "p"; mo_Type := t; mo_Enabled := true; mo_IntervalSeconds := 60;
     mo_ConfirmIntervalSeconds := 10; mo_FailureThreshold := 2; mo_RenotifySeconds := 600;
     mo_EscalationPolicyID := None; mo_Region := "core"; mo_execution_revision := 1;
     mo_Status := StatusPending; mo_ConsecutiveFailures := 0; mo_state_sequence := 0;
     mo_last_result_ts := None; mo_last_notified_at := None; mo_last_probe_error := None;
     mo_push_armed_at := None; mo_created_at := 0 |}.

Definition world : World (gset (string * Time)) :=
  {| wd_ledger := {| lg_runs := ∅; lg_schedule := ∅;
                     lg_monitors := <["http" := monitor MonitorHTTP]> {["push" := monitor MonitorPush]};
                     lg_revisions := ∅ |};
     wd_heartbeats := ∅; wd_maintenance := []; wd_canary_inflight := ∅; wd_outbox := [];
     wd_confirm_notified := []; wd_observed_before_issue := 0; wd_services := ∅ |}.

Definition policy : ResultPolicy :=
  {| rp_skew := 0; rp_retention := 0; rp_observe := false;
     rp_ledger := {| lp_retentionDays := 0; lp_gapCap := 0 |} |}.

Definition at_second (n : Z) : Time := unixEpoch + n * Second.
Definition clock (n : Z) : Clock := {| ck_tx := at_second n; ck_stmt := at_second n |}.

Definition result_at (n : Z) (up : bool) (rev : Z) : ResultMsg :=
  {| hb_MonitorID := "http"; hb_Ts := at_second n; hb_Up := up; hb_LatencyMS := 5; hb_Code := 200;
     hb_Msg := ""; hb_ExecutionRevision := rev;
     hb_Correlation := {| co_JobID := ""; co_DueAt := 0; co_JobIssuedAt := 0 |};
     hb_CanaryRunKey := ""; hb_ProbeError := None |}.

Definition force {A} (r : result IngestError (A * ResultOutcome)) (a : A) : A :=
  match r with Ok (x, _) => x | Err _ => a end.
Definition outcome {A} (r : result IngestError (A * ResultOutcome)) : ResultOutcome :=
  match r with Ok (_, o) => o | Err _ => refusal "" end.

Definition deliver (n : Z) (up : bool) (rev : Z) (w : World (gset (string * Time))) :=
  RecordScheduledResult policy (clock n) (result_at n up rev) w.
Definition world1 := force (deliver 60 true 1 world) world.
Definition world2 := force (deliver 120 false 1 world1) world1.
Definition world3 := force (deliver 180 false 1 world2) world2.

Definition http3 : MonitorRow := default (monitor MonitorHTTP) (wd_monitors world3 !! "http").

(** Two results, a duplicate, a result of a stale revision, and the second failure. *)
Definition stream : list (Clock * ResultMsg) :=
  [(clock 60, result_at 60 true 1); (clock 120, result_at 120 false 1); (clock 120, result_at 120 false 1);
   (clock 130, result_at 180 false 2); (clock 180, result_at 180 false 1)].

Definition ping (n rcv : Z) (up : bool) (w : World (gset (string * Time))) :=
  RecordPushResult (clock n) "push" up "" (at_second rcv) 0 w.

Lemma world_init : ingest_init world.
Proof.
  split; [done|]. split; [|vm_compute; set_solver].
  intros id m Hm. unfold wd_monitors in Hm. simpl in Hm.
  rewrite lookup_insert_Some, lookup_singleton_Some in Hm. naive_solver.
Qed.

Lemma run_ok {A} (r : result IngestError (A * ResultOutcome)) a :
  is_ok r = true -> r = Ok (force r a, outcome r).
Proof. by destruct r as [[]|]. Qed.

Lemma deliver_step n up rev w w' out : deliver n up rev w = Ok (w', out) -> ingest_step policy w w'.
Proof. by apply st_scheduled. Qed.

Lemma step1 : ingest_step policy world world1.
Proof. eapply deliver_step, (run_ok (deliver 60 true 1 world)). vm_compute. reflexivity. Qed.
Lemma step2 : ingest_step policy world1 world2.
Proof. eapply deliver_step, (run_ok (deliver 120 false 1 world1)). vm_compute. reflexivity. Qed.
Lemma step3 : ingest_step policy world2 world3.
Proof. eapply deliver_step, (run_ok (deliver 180 false 1 world2)). vm_compute. reflexivity. Qed.

Lemma world3_reachable : sys_reachable (ingest_system policy) world3.
Proof.
  exists world. split; [apply world_init|].
  exact (rtc_l _ _ _ _ step1 (rtc_l _ _ _ _ step2 (rtc_once _ _ step3))).
Qed.
End Example.
Import Example.

Lemma refused_result_is_not_evidence_witness :
  out_Reason (outcome (deliver 120 false 2 world1)) = ReasonStaleRevision /\
  same_live world1 (force (deliver 120 false 2 world1) world1).
Proof.
  split; [vm_compute; reflexivity|].
  refine (proj1 (refused_result_is_not_evidence policy (clock 120) (result_at 120 false 2) world1 _
            (outcome (deliver 120 false 2 world1)) (run_ok _ world1 _) _ _));
    [vm_compute; reflexivity|vm_compute; reflexivity|vm_compute; discriminate].
Defined.

Lemma redelivery_changes_nothing_witness :
  same_live world3 (force (deliver 60 true 1 world3) world3).
Proof.
  refine (proj1 (redelivery_changes_nothing policy (clock 60) (result_at 60 true 1) world world1
            (outcome (deliver 60 true 1 world)) world3 (clock 60) _ (outcome (deliver 60 true 1 world3))
            (run_ok _ world _) _ (rtc_l _ _ _ _ step2 (rtc_once _ _ step3)) (run_ok _ world3 _)));
    vm_compute; reflexivity.
Defined.

Lemma status_log_announces_witness :
  exists e, List.filter (fun e => bool_decide (mt_MonitorID e = "http") && negb (mt_Reminder e)
              && negb (superseded http3 e)) (wd_outbox world3) = [e]
    /\ mt_Cur e = mo_Status http3 /\ mt_Prev e <> mt_Cur e.
Proof.
  refine (proj2 (status_log_announces policy world3 "http" http3 world3_reachable _) _).
  - vm_compute. reflexivity.
  - vm_compute. discriminate.
Defined.

Lemma live_status_from_history_witness :
  exists m', wd_monitors (deliverAll policy "http" world stream).1 !! "http" = Some m' /\
    mo_Status m' = StatusDown /\ mo_ConsecutiveFailures m' = 2.
Proof.
  destruct (live_status_from_history policy "http" world stream _ _ (monitor MonitorHTTP)
    (surjective_pairing _) eq_refl) as (m' & Hm & Hs & Hf); [vm_compute; discriminate|].
  exists m'. split; [exact Hm|]. rewrite Hs, Hf. split; vm_compute; reflexivity.
Defined.

Lemma deadman_yields_to_ping_witness :
  RecordDeadmanResult (clock 130) "push" 1 (at_second 60) (force (ping 60 60 true world) world)
  = Ok (force (ping 60 60 true world) world, refusal "").
Proof.
  refine (deadman_yields_to_ping (clock 60) "push" true "" (at_second 60) 0 world _
            (outcome (ping 60 60 true world)) (clock 130) 1 (at_second 60) (run_ok _ world _) _ _);
    [vm_compute; reflexivity|vm_compute; reflexivity|vm_compute; discriminate].
Defined.

(** The push path does not order pings by their receipt: one that commits late with an earlier
    instant moves the watermark back, and the dead-man switch then fires although the monitor
    pinged after the cutoff. *)
Example late_ping_rewinds_the_watermark :
  let w1 := force (ping 60 60 true world) world in
  let w2 := force (ping 61 50 true w1) w1 in
  (mo_last_result_ts <$> wd_monitors w1 !! "push") = Some (Some (at_second 60)) /\
  (mo_last_result_ts <$> wd_monitors w2 !! "push") = Some (Some (at_second 50)) /\
  out_Applied (outcome (RecordDeadmanResult (clock 120) "push" 1 (at_second 55) w2)) = true.
Proof. vm_compute. split_and!; reflexivity. Qed.
