(* ===== verification/Pipeline.v ===== *)
(** * From a probe result to a sealed number
    (the result path of [internal/store/monitors.go] over the services of
    [internal/store/serviceingest.go], [servicematerialize.go] and [servicerepair.go])

    The result path is verified against what a family of services promises of the heartbeats
    ([ServiceSink]); the measuring system keeps that promise.  Here the two are put together. *)

From S2P Require Import Prelude ServicePolicy MonitorRow Heartbeats Effective Aggregate Reduce Materialize ServiceRepair ServiceIngest ServiceReach ServiceWatermark ServiceWrites ServiceSeal ServiceSystem ExpectedRuns MonitorState MonitorStateFacts.

(** The monitors, with the services and their repair workers beside them. *)
Definition SealWorld : Type := World (Services * list RepairRange).

(** A step of the measuring system that does not touch the heartbeats is a step between two
    results. *)
Lemma measuring_step pol (w : SealWorld) db ws :
  seal_step (mk (wd_heartbeats w) (wd_services w).1 (wd_services w).2) (mk (wd_heartbeats w) db ws) ->
  ingest_step pol w (setHeartbeats w (wd_heartbeats w) (db, ws)).
Proof. intros Hs. apply st_services. intros Hinv. exact (seal_step_inv _ _ Hs Hinv). Qed.



(** ** A run *)
Module Run.

Definition probed : Member :=
  {| m_MonitorID := "http"; m_Region := "core"; m_Enabled := true; m_Type := MonitorHTTP;
     m_StaleAfter := 600 * Second; m_ArmedAt := 0 |}.

Definition probedService : ServiceState :=
  {| ss_project := "p";
     ss_revisions := [ {| dr_revision := 1; dr_effective_at := at_ 0; dr_effective := true; dr_sli := ["http"] |} ];
     ss_epochs := [ {| ep_id := "e1"; ep_seq := 1; ep_effective_at := at_ 0; ep_effective := true;
                       ep_members := [probed]; ep_policies := demoPolicy |} ];
     ss_mat := None; ss_ingest := ∅; ss_facts := ∅; ss_late := ∅; ss_ranges := ∅ |}.

Definition sdb0 : Services :=
  {| sv_services := {[ "svc" := probedService ]}; sv_generation := ∅; sv_monitors := {[ "http" := "p" ]};
     sv_windows := []; sv_next_range := 1; sv_late_arrivals := 0; sv_late_overflow := 0;
     sv_recompute_audits := []; sv_services_per_monitor := 64 |}.

Definition httpMonitor : MonitorRow :=
  {| mo_project := "p"; mo_Type := MonitorHTTP; mo_Enabled := true; mo_IntervalSeconds := 60;
     mo_ConfirmIntervalSeconds := 10; mo_FailureThreshold := 2; mo_RenotifySeconds := 600;
     mo_EscalationPolicyID := None; mo_Region := "core"; mo_execution_revision := 1;
     mo_Status := StatusPending; mo_ConsecutiveFailures := 0; mo_state_sequence := 0;
     mo_last_result_ts := None; mo_last_notified_at := None; mo_last_probe_error := None;
     mo_push_armed_at := None; mo_created_at := 0 |}.

Definition start : SealWorld :=
  {| wd_ledger := {| lg_runs := ∅; lg_schedule := ∅; lg_monitors := {["http" := httpMonitor]}; lg_revisions := ∅ |};
     wd_heartbeats := ∅; wd_maintenance := []; wd_canary_inflight := ∅; wd_outbox := [];
     wd_confirm_notified := []; wd_observed_before_issue := 0; wd_services := (sdb0, []) |}.

Definition policy : ResultPolicy :=
  {| rp_skew := 0; rp_retention := 0; rp_observe := false;
     rp_ledger := {| lp_retentionDays := 0; lp_gapCap := 0 |} |}.

Definition deliver (at_n n : Z) (up : bool) (w : SealWorld) : result IngestError (SealWorld * ResultOutcome) :=
  RecordScheduledResult policy {| ck_tx := at_ at_n; ck_stmt := at_ at_n |}
    {| hb_MonitorID := "http"; hb_Ts := at_ n; hb_Up := up; hb_LatencyMS := 5; hb_Code := 200;
       hb_Msg := ""; hb_ExecutionRevision := 1;
       hb_Correlation := {| co_JobID := ""; co_DueAt := 0; co_JobIssuedAt := 0 |};
       hb_CanaryRunKey := ""; hb_ProbeError := None |} w.

Definition forced (r : result IngestError (SealWorld * ResultOutcome)) (w : SealWorld) : SealWorld :=
  match r with Ok (x, _) => x | Err _ => w end.

Lemma forced_ok r w : is_ok r = true -> exists out, r = Ok (forced r w, out).
Proof. destruct r as [[x out]|]; [by exists out|done]. Qed.

Definition dbOf (w : SealWorld) : Services := (wd_services w).1.
Definition onServices (w : SealWorld) (db : Services) : SealWorld := setHeartbeats w (wd_heartbeats w) (db, []).

Definition w1 : SealWorld :=
  onServices start (setService sdb0 "svc" (ensureMaterializationRowTx (at_ 0) probedService)).
Definition w2 : SealWorld := forced (deliver 60 60 true w1) w1.
Definition w3 : SealWorld := forced (deliver 240 240 true w2) w2.
Definition w4 : SealWorld :=
  onServices w3 (okOr (AdvanceServiceMaterialization (wd_heartbeats w3) (at_ 600) "svc" 240 (dbOf w3)) (dbOf w3)).
Definition w5 : SealWorld := forced (deliver 610 120 false w4) w4.

Lemma start_init : ingest_init start.
Proof.
  split; [done|]. split.
  - intros id m Hm. unfold wd_monitors in Hm. cbn in Hm. apply lookup_singleton_Some in Hm as [_ <-]. done.
  - apply (seal_start_inv (mk ∅ sdb0 [])). split; [|done]. intros sid s. cbn.
    intros [<- <-]%lookup_singleton_Some. done.
Qed.

Lemma delivered_step at_n n up w w' : is_ok (deliver at_n n up w) = true -> forced (deliver at_n n up w) w = w' ->
  ingest_step policy w w'.
Proof. intros Hok <-. destruct (forced_ok _ w Hok) as [out Hr]. by eapply st_scheduled, Hr. Qed.

Lemma w5_reachable : sys_reachable (ingest_system policy) w5.
Proof.
  exists start. split; [apply start_init|].
  eapply rtc_l; [apply (measuring_step policy start), (step_ensure _ _ _ "svc" probedService (at_ 0));
    [reflexivity|exists 1035593280; reflexivity]|].
  eapply rtc_l; [apply (delivered_step 60 60 true w1 w2); [vm_compute; reflexivity|reflexivity]|].
  eapply rtc_l; [apply (delivered_step 240 240 true w2 w3); [vm_compute; reflexivity|reflexivity]|].
  eapply rtc_l; [apply (measuring_step policy w3 (dbOf w4) []);
    apply (step_forward _ _ _ (at_ 600) "svc" 240); apply okOr_ok; vm_compute; reflexivity|].
  eapply rtc_l; [apply (delivered_step 610 120 false w4 w5); [vm_compute; reflexivity|reflexivity]|].
  apply rtc_refl.
Qed.
End Run.

