(* ===== verification/Gate.v ===== *)
(** * The reliability gate: vocabulary and pure decisions
    ([internal/domain/gate.go], the identifier of [internal/store/gate.go])

    The policy document and its exhaustive validation, the status function of an override,
    the decision algebra and the time-ordered decision identifier. *)

From S2P Require Import Prelude ServicePolicy GoFloat GoString.

(** ** Vocabulary *)
Inductive GateState := StateAllow | StateWarn | StateBlock | GateUnknown | NotConfigured.
Inductive GateAction := ActionAllow | ActionWarn | ActionBlock.
Inductive ClauseAssignment := AssignBlock | AssignWarn | AssignIgnore | AssignOther (s : string).
Inductive GateClause :=
| BudgetExhausted | BudgetConsumed | PageBurnFiring | TicketBurnFiring | ServiceIncidentOpen
| ClauseOther (s : string).
Inductive GateWindowMode := ModeOne | ModeAll | ModeOther (s : string).
Inductive GateReason :=
| BudgetWithheld | SealStale | FactsStale | NoObjective | WindowTargetMissing | NeverSealed
| NeverEvaluated | NoGoverningRevision | ReasonNotConfigured.
Inductive GateUnknownBehavior := UnknownWarn | UnknownBlock | BehaviorOther (s : string).

#[global] Instance GateState_eq_dec : EqDecision GateState.
Proof. solve_decision. Defined.
#[global] Instance GateAction_eq_dec : EqDecision GateAction.
Proof. solve_decision. Defined.
#[global] Instance ClauseAssignment_eq_dec : EqDecision ClauseAssignment.
Proof. solve_decision. Defined.
#[global] Instance GateClause_eq_dec : EqDecision GateClause.
Proof. solve_decision. Defined.
#[global] Instance GateWindowMode_eq_dec : EqDecision GateWindowMode.
Proof. solve_decision. Defined.
#[global] Instance GateReason_eq_dec : EqDecision GateReason.
Proof. solve_decision. Defined.
#[global] Instance GateUnknownBehavior_eq_dec : EqDecision GateUnknownBehavior.
Proof. solve_decision. Defined.

(** Clauses are map keys. *)
#[global] Instance GateClause_countable : Countable GateClause.
Proof.
  refine (inj_countable'
    (fun c => match c with
      | BudgetExhausted => inl 0%nat | BudgetConsumed => inl 1%nat | PageBurnFiring => inl 2%nat
      | TicketBurnFiring => inl 3%nat | ServiceIncidentOpen => inl 4%nat | ClauseOther s => inr s end)
    (fun x => match x with
      | inl 0%nat => BudgetExhausted | inl 1%nat => BudgetConsumed | inl 2%nat => PageBurnFiring
      | inl 3%nat => TicketBurnFiring | inl _ => ServiceIncidentOpen | inr s => ClauseOther s end) _).
  by intros [].
Defined.

Definition ValidClauseAssignment (a : ClauseAssignment) : bool :=
  match a with AssignBlock | AssignWarn | AssignIgnore => true | AssignOther _ => false end.

Definition Constrains (a : ClauseAssignment) : bool :=
  bool_decide (a = AssignBlock) || bool_decide (a = AssignWarn).

Definition ValidGateWindowMode (mode : GateWindowMode) : bool :=
  bool_decide (mode = ModeOne) || bool_decide (mode = ModeAll).

Definition GatePolicySchemaV1 : Z := 1.
Definition GatePolicySchemaV2 : Z := 2.

Definition GateClausesV1 : list GateClause :=
  [BudgetExhausted; BudgetConsumed; PageBurnFiring; TicketBurnFiring; ServiceIncidentOpen].

Definition GateClausesFor (schemaVersion : Z) : list GateClause :=
  if (schemaVersion =? GatePolicySchemaV1) || (schemaVersion =? GatePolicySchemaV2)
  then GateClausesV1 else [].

Definition ValidGateUnknownBehavior (b : GateUnknownBehavior) : bool :=
  bool_decide (b = UnknownWarn) || bool_decide (b = UnknownBlock).

(** [GateUnknownBehavior.Action]. *)
Definition UnknownAction (b : GateUnknownBehavior) : GateAction :=
  if bool_decide (b = UnknownBlock) then ActionBlock else ActionWarn.

Definition GateBudgetConsumedPercentMin : Z := 1.
Definition GateBudgetConsumedPercentMax : Z := 100.
Definition GateSealLagStep : Duration := Minute.

(** ** The policy document *)
Record GateClauseEntry := { ce_Clause : GateClause; ce_Assignment : ClauseAssignment }.

Record GatePolicyDocument := {
  doc_SchemaVersion : Z;
  doc_WindowMode : GateWindowMode;
  doc_Window : string;
  doc_Clauses : list GateClauseEntry;
  doc_BudgetConsumedPercent : Z;
  doc_MaxSealLagSeconds : Z;
  doc_UnknownBehavior : GateUnknownBehavior;
}.

(** [GatePolicyError]: the refusals, by the field they name. *)
Inductive GatePolicyError :=
| ErrSchemaVersion (got : Z)
| ErrWindow (got : string)
| ErrWindowMode (got : GateWindowMode)
| ErrUnknownClause (c : GateClause)
| ErrDuplicateClause (c : GateClause)
| ErrAssignment (c : GateClause) (a : ClauseAssignment)
| ErrMissingClause (c : GateClause)
| ErrBudgetConsumedPercent (got : Z)
| ErrSealLagRange (got : Z)
| ErrSealLagStep (got : Z)
| ErrUnknownBehavior (got : GateUnknownBehavior)
| ErrNotAnSLAWindow (got : string)
| ErrNoTargetForWindow (got : string).

Fixpoint readClauses (entries : list GateClauseEntry) (clauses : gmap GateClause ClauseAssignment)
    : result GatePolicyError (gmap GateClause ClauseAssignment) :=
  match entries with
  | [] => Ok clauses
  | e :: rest =>
    if negb (bool_decide (ce_Clause e ∈ GateClausesV1)) then Err (ErrUnknownClause (ce_Clause e))
    else match clauses !! ce_Clause e with
         | Some _ => Err (ErrDuplicateClause (ce_Clause e))
         | None =>
           if negb (ValidClauseAssignment (ce_Assignment e))
           then Err (ErrAssignment (ce_Clause e) (ce_Assignment e))
           else readClauses rest (<[ce_Clause e := ce_Assignment e]> clauses)
         end
  end.

Fixpoint firstMissing (cs : list GateClause) (clauses : gmap GateClause ClauseAssignment)
    : result GatePolicyError unit :=
  match cs with
  | [] => Ok tt
  | c :: rest => match clauses !! c with None => Err (ErrMissingClause c) | Some _ => firstMissing rest clauses end
  end.

Definition windowNamed (w : string) : bool :=
  negb (bool_decide (TrimSpace w = "")) && bool_decide (w = TrimSpace w).

Definition ValidateGatePolicyV1 (doc : GatePolicyDocument)
    : result GatePolicyError (gmap GateClause ClauseAssignment) :=
  let! _ := refuse_if (negb (doc_SchemaVersion doc =? GatePolicySchemaV1))
              (ErrSchemaVersion (doc_SchemaVersion doc)) in
  let! _ := refuse_if (bool_decide (TrimSpace (doc_Window doc) = "")
                       || negb (bool_decide (doc_Window doc = TrimSpace (doc_Window doc))))
              (ErrWindow (doc_Window doc)) in
  let! clauses := readClauses (doc_Clauses doc) ∅ in
  let! _ := firstMissing GateClausesV1 clauses in
  let! _ := refuse_if ((doc_BudgetConsumedPercent doc <? GateBudgetConsumedPercentMin)
                       || (GateBudgetConsumedPercentMax <? doc_BudgetConsumedPercent doc))
              (ErrBudgetConsumedPercent (doc_BudgetConsumedPercent doc)) in
  let minLag := Z.quot MinSealLag Second in
  let maxLag := Z.quot MaxSealLag Second in
  let step := Z.quot GateSealLagStep Second in
  let! _ := refuse_if ((doc_MaxSealLagSeconds doc <? minLag) || (maxLag <? doc_MaxSealLagSeconds doc))
              (ErrSealLagRange (doc_MaxSealLagSeconds doc)) in
  let! _ := refuse_if (negb (Z.rem (doc_MaxSealLagSeconds doc) step =? 0))
              (ErrSealLagStep (doc_MaxSealLagSeconds doc)) in
  let! _ := refuse_if (negb (ValidGateUnknownBehavior (doc_UnknownBehavior doc)))
              (ErrUnknownBehavior (doc_UnknownBehavior doc)) in
  Ok clauses.

Definition ValidateGatePolicy (doc : GatePolicyDocument)
    : result GatePolicyError (gmap GateClause ClauseAssignment) :=
  if doc_SchemaVersion doc =? GatePolicySchemaV1 then
    if negb (bool_decide (doc_WindowMode doc = ModeOther "")) && negb (bool_decide (doc_WindowMode doc = ModeOne))
    then Err (ErrWindowMode (doc_WindowMode doc))
    else ValidateGatePolicyV1 doc
  else if negb (doc_SchemaVersion doc =? GatePolicySchemaV2)
  then Err (ErrSchemaVersion (doc_SchemaVersion doc))
  else if negb (ValidGateWindowMode (doc_WindowMode doc)) then Err (ErrWindowMode (doc_WindowMode doc))
  else if bool_decide (doc_WindowMode doc = ModeOne)
          && (bool_decide (TrimSpace (doc_Window doc) = "")
              || negb (bool_decide (doc_Window doc = TrimSpace (doc_Window doc))))
  then Err (ErrWindow (doc_Window doc))
  else if bool_decide (doc_WindowMode doc = ModeAll) && negb (bool_decide (doc_Window doc = ""))
  then Err (ErrWindow (doc_Window doc))
  else
    ValidateGatePolicyV1
      {| doc_SchemaVersion := GatePolicySchemaV1; doc_WindowMode := ModeOther ""; doc_Window := "v2";
         doc_Clauses := doc_Clauses doc; doc_BudgetConsumedPercent := doc_BudgetConsumedPercent doc;
         doc_MaxSealLagSeconds := doc_MaxSealLagSeconds doc;
         doc_UnknownBehavior := doc_UnknownBehavior doc |}.

(** ** The stored policy *)
Record GatePolicy := {
  gp_ServiceID : string;
  gp_ProjectID : string;
  gp_Window : string;
  gp_WindowMode : GateWindowMode;
  gp_SchemaVersion : Z;
  gp_Clauses : gmap GateClause ClauseAssignment;
  gp_BudgetConsumedPercent : Z;
  gp_MaxSealLagSeconds : Z;
  gp_UnknownBehavior : GateUnknownBehavior;
  gp_Revision : Z;
  gp_DeletedAt : option Time;
  gp_UpdatedAt : Time;
  gp_UpdatedBy : string;
}.

Inductive GatePolicySource := SourceService | SourceProject.

#[global] Instance GatePolicySource_eq_dec : EqDecision GatePolicySource.
Proof. solve_decision. Defined.

Record EffectiveGatePolicy := {
  eff_Policy : GatePolicy;
  eff_Source : GatePolicySource;
  eff_OwnerID : string;
  eff_ServiceOverrideRevision : option Z;
}.

Definition Live (p : GatePolicy) : bool :=
  match gp_DeletedAt p with None => true | Some _ => false end.

(** [GatePolicy.Document]: the stored policy as a document, in the version's clause order. *)
Definition Document (p : GatePolicy) : GatePolicyDocument :=
  {| doc_SchemaVersion := gp_SchemaVersion p; doc_WindowMode := gp_WindowMode p; doc_Window := gp_Window p;
     doc_Clauses := omap (fun c => (fun a => {| ce_Clause := c; ce_Assignment := a |}) <$> gp_Clauses p !! c)
                      (GateClausesFor (gp_SchemaVersion p));
     doc_BudgetConsumedPercent := gp_BudgetConsumedPercent p;
     doc_MaxSealLagSeconds := gp_MaxSealLagSeconds p; doc_UnknownBehavior := gp_UnknownBehavior p |}.

(** ** Overrides *)
Inductive GateRevokedReason := RevokedManual | RevokedExpired | RevokedPolicyChanged | RevokedPolicyDeleted.
Inductive GateOverrideStatus := OverrideActive | OverrideExpired | OverrideRevoked | OverrideInert.

#[global] Instance GateRevokedReason_eq_dec : EqDecision GateRevokedReason.
Proof. solve_decision. Defined.
#[global] Instance GateOverrideStatus_eq_dec : EqDecision GateOverrideStatus.
Proof. solve_decision. Defined.

(** [RevokedReason] is [None] while the row is open (the empty string). *)
Record GateOverride := {
  ov_ID : string;
  ov_ServiceID : string;
  ov_ProjectID : string;
  ov_PolicyRevision : Z;
  ov_PolicySource : GatePolicySource;
  ov_PolicyOwnerID : string;
  ov_ActorUserID : option string;
  ov_ViaToken : bool;
  ov_ActorLabel : string;
  ov_Reason : string;
  ov_CreatedAt : Time;
  ov_ExpiresAt : Time;
  ov_RevokedAt : option Time;
  ov_RevokedReason : option GateRevokedReason;
  ov_RevokedByUserID : option string;
  ov_RevokedViaToken : option bool;
  ov_RevokedByLabel : option string;
}.

Definition Open (o : GateOverride) : bool :=
  match ov_RevokedAt o, ov_RevokedReason o with None, None => true | _, _ => false end.

Definition GateOverrideStatusAt (o : GateOverride) (now : Time) (currentLiveRevision : option Z)
    : GateOverrideStatus :=
  if bool_decide (ov_RevokedReason o = Some RevokedManual) then OverrideRevoked
  else if bool_decide (ov_RevokedReason o = Some RevokedPolicyChanged)
          || bool_decide (ov_RevokedReason o = Some RevokedPolicyDeleted)
          || negb (bool_decide (currentLiveRevision = Some (ov_PolicyRevision o)))
  then OverrideInert
  else if bool_decide (ov_RevokedReason o = Some RevokedExpired) || negb (After (ov_ExpiresAt o) now)
  then OverrideExpired
  else OverrideActive.

Definition GateOverrideMaxDuration : Duration := 7 * 24 * Hour.
Definition GateOverrideReasonMinLen : Z := 1.
Definition GateOverrideReasonMaxLen : Z := 500.

(** ** The algebra *)

(** [Value any]: the burned percent, the firing rule keys or the incident id. *)
Inductive ClauseValue := NoValue | FloatValue (f : float64) | StringValue (s : string).

(** A reason code: a matched clause's own name, or why it is unavailable. *)
Inductive ReasonCode := CodeClause (c : GateClause) | CodeReason (r : GateReason).

Record GateReasonEntry := {
  re_Code : ReasonCode;
  re_Clause : option GateClause;
  re_Assignment : option ClauseAssignment;
  re_Value : ClauseValue;
  re_Source : string;
  re_Window : string;
  re_TargetID : option string;
  re_Docs : string;
}.

Record GateClauseVerdict := {
  cv_Clause : GateClause;
  cv_Assignment : ClauseAssignment;
  cv_Matched : bool;
  cv_Unavailable : option GateReason;
  cv_Value : ClauseValue;
  cv_Source : string;
  cv_Window : string;
  cv_TargetID : option string;
}.

(** The loop state: [knownBlock], [anyUnavailable], [warnMatch] and the reasons. *)
Record algebraState := {
  al_knownBlock : bool;
  al_anyUnavailable : bool;
  al_warnMatch : bool;
  al_reasons : list GateReasonEntry;
}.

Definition reasonOf (v : GateClauseVerdict) (code : ReasonCode) (value : ClauseValue) : GateReasonEntry :=
  {| re_Code := code; re_Clause := Some (cv_Clause v); re_Assignment := Some (cv_Assignment v);
     re_Value := value; re_Source := cv_Source v; re_Window := cv_Window v;
     re_TargetID := cv_TargetID v; re_Docs := "" |}.

Definition algebraStep (st : algebraState) (v : GateClauseVerdict) : algebraState :=
  match cv_Unavailable v with
  | Some r =>
    {| al_knownBlock := al_knownBlock st;
       al_anyUnavailable := if Constrains (cv_Assignment v) then true else al_anyUnavailable st;
       al_warnMatch := al_warnMatch st;
       al_reasons := al_reasons st ++ [reasonOf v (CodeReason r) NoValue] |}
  | None =>
    if cv_Matched v then
      {| al_knownBlock := match cv_Assignment v with AssignBlock => true | _ => al_knownBlock st end;
         al_anyUnavailable := al_anyUnavailable st;
         al_warnMatch := match cv_Assignment v with AssignWarn => true | _ => al_warnMatch st end;
         al_reasons := al_reasons st ++ [reasonOf v (CodeClause (cv_Clause v)) (cv_Value v)] |}
    else st
  end.

Definition DecideGateAlgebra (verdicts : list GateClauseVerdict) (unknown : GateUnknownBehavior)
    : GateState * GateAction * list GateReasonEntry :=
  let st := foldl algebraStep
    {| al_knownBlock := false; al_anyUnavailable := false; al_warnMatch := false; al_reasons := [] |}
    verdicts in
  if al_knownBlock st then (StateBlock, ActionBlock, al_reasons st)
  else if al_anyUnavailable st then (GateUnknown, UnknownAction unknown, al_reasons st)
  else if al_warnMatch st then (StateWarn, ActionWarn, al_reasons st)
  else (StateAllow, ActionAllow, al_reasons st).

(** ** The decision identifier *)
Definition dash : Z := 45.

(** [newGateDecisionID] from its sixteen random bytes; [None] outside the 48-bit range. *)
Definition newGateDecisionID (random : bytes) (evaluatedAt : Time) : option bytes :=
  let ms := UnixMilli evaluatedAt in
  if (ms <? 0) || (2 ^ 48 <=? ms) then None
  else
    let b := drop 2 (putUint64 ms) ++ drop 6 random in
    let b := <[6%nat := Z.lor 112 (Z.land (nth 6 b 0) 15)]> b in
    let b := <[8%nat := Z.lor 128 (Z.land (nth 8 b 0) 63)]> b in
    let h := hexEncode b in
    Some (take 8 h ++ [dash] ++ take 4 (drop 8 h) ++ [dash] ++ take 4 (drop 12 h) ++ [dash]
          ++ take 4 (drop 16 h) ++ [dash] ++ take 12 (drop 20 h)).

Definition DecisionIDMillis (id : bytes) : option Z :=
  if negb (Nat.eqb (length id) 36) || negb (nth 8 id 0 =? dash) || negb (nth 13 id 0 =? dash)
     || negb (nth 18 id 0 =? dash) || negb (nth 23 id 0 =? dash)
  then None
  else
    match hexDecode (dropDashes id) with
    | Some raw => if negb (Nat.eqb (length raw) 16) then None
                  else Some (getUint64 ([0; 0] ++ take 6 raw))
    | None => None
    end.

(** ** Policy validation *)

Definition entryMap (es : list GateClauseEntry) (m : gmap GateClause ClauseAssignment)
    : gmap GateClause ClauseAssignment :=
  foldl (fun m e => <[ce_Clause e := ce_Assignment e]> m) m es.

Lemma readClauses_Ok es m0 m :
  readClauses es m0 = Ok m <->
  Forall (fun e => ce_Clause e ∈ GateClausesV1 /\ ValidClauseAssignment (ce_Assignment e) = true) es /\
  NoDup (map ce_Clause es) /\ Forall (fun e => m0 !! ce_Clause e = None) es /\ m = entryMap es m0.
Proof.
  revert m0. induction es as [|e es IH]; intros m0; cbn [readClauses map entryMap foldl].
  - split; [intros [= ->]; split_and!; try constructor; done|]. intros (_ & _ & _ & ->). done.
  - rewrite list.NoDup_cons, !list.Forall_cons. case_bool_decide as Hin; cbn [negb].
    2:{ split; [done|]. naive_solver. }
    destruct (m0 !! ce_Clause e) eqn:E; [split; [done|]; naive_solver|].
    destruct (ValidClauseAssignment (ce_Assignment e)) eqn:Ev; cbn [negb].
    2:{ split; [done|]. naive_solver. }
    rewrite IH. fold (entryMap es (<[ce_Clause e := ce_Assignment e]> m0)).
    rewrite !list.Forall_forall. setoid_rewrite lookup_insert_None. split.
    + intros (Hv & Hnd & Hnone & ->). split_and!; try done; [|intros x Hx; by apply Hnone].
      intros (x & Hc & Hx)%list_elem_of_fmap. by destruct (Hnone x Hx).
    + intros ((_ & Hv) & (Hni & Hnd) & (_ & Hnone) & ->). split_and!; try done.
      intros x Hx. split; [by apply Hnone|]. intros Hc. apply Hni, list_elem_of_fmap. eauto.
Qed.

Lemma entryMap_lookup es m0 c a :
  NoDup (map ce_Clause es) -> Forall (fun e => m0 !! ce_Clause e = None) es ->
  entryMap es m0 !! c = Some a <->
  {| ce_Clause := c; ce_Assignment := a |} ∈ es \/ m0 !! c = Some a.
Proof.
  revert m0. induction es as [|e es IH]; intros m0; cbn [map entryMap foldl].
  { intros _ _. set_solver. }
  intros [Hni Hnd]%list.NoDup_cons [He Hes]%list.Forall_cons.
  fold (entryMap es (<[ce_Clause e := ce_Assignment e]> m0)). rewrite IH; [|done|].
  2:{ rewrite list.Forall_forall in Hes |- *. intros x Hx. apply lookup_insert_None.
      split; [by apply Hes|]. intros Hc. apply Hni, list_elem_of_fmap. eauto. }
  rewrite elem_of_cons. destruct (decide (ce_Clause e = c)) as [<-|Hne].
  - rewrite lookup_insert_eq, He. split; [intros [H|[= <-]]|intros [[H|H]|H]]; auto.
    + left. left. by destruct e.
    + right. by rewrite <- H.
    + done.
  - rewrite lookup_insert_ne by done. split; [naive_solver|]. intros [[H|H]|H]; auto.
    rewrite <- H in Hne. done.
Qed.

Lemma firstMissing_Ok cs m : firstMissing cs m = Ok tt <-> Forall (fun c => is_Some (m !! c)) cs.
Proof.
  induction cs as [|c cs IH]; cbn; [split; [constructor|done]|].
  rewrite list.Forall_cons, <- IH. destruct (m !! c); [|split; [done|by intros [[] _]]].
  split; [intros H; split; [eauto|done]|by intros [_ H]].
Qed.

(** A document the validator accepts, whatever its version. *)
Record doc_wf (doc : GatePolicyDocument) : Prop := {
  dw_version : (doc_SchemaVersion doc = 1 /\ (doc_WindowMode doc = ModeOne \/ doc_WindowMode doc = ModeOther "")
                /\ windowNamed (doc_Window doc) = true) \/
               (doc_SchemaVersion doc = 2 /\ doc_WindowMode doc = ModeOne /\ windowNamed (doc_Window doc) = true) \/
               (doc_SchemaVersion doc = 2 /\ doc_WindowMode doc = ModeAll /\ doc_Window doc = "");
  dw_clauses : map ce_Clause (doc_Clauses doc) ≡ₚ GateClausesV1;
  dw_assignments : Forall (fun e => ValidClauseAssignment (ce_Assignment e) = true) (doc_Clauses doc);
  dw_percent : 1 <= doc_BudgetConsumedPercent doc <= 100;
  dw_lag : 300 <= doc_MaxSealLagSeconds doc <= 86400 /\ (60 | doc_MaxSealLagSeconds doc);
  dw_unknown : doc_UnknownBehavior doc = UnknownWarn \/ doc_UnknownBehavior doc = UnknownBlock;
}.

Definition clausesOf (doc : GatePolicyDocument) : gmap GateClause ClauseAssignment :=
  entryMap (doc_Clauses doc) ∅.

(** What both versions share. *)
Record body_wf (doc : GatePolicyDocument) : Prop := {
  bw_clauses : map ce_Clause (doc_Clauses doc) ≡ₚ GateClausesV1;
  bw_assignments : Forall (fun e => ValidClauseAssignment (ce_Assignment e) = true) (doc_Clauses doc);
  bw_percent : 1 <= doc_BudgetConsumedPercent doc <= 100;
  bw_lag : 300 <= doc_MaxSealLagSeconds doc <= 86400 /\ (60 | doc_MaxSealLagSeconds doc);
  bw_unknown : doc_UnknownBehavior doc = UnknownWarn \/ doc_UnknownBehavior doc = UnknownBlock;
}.

Lemma GateClausesV1_NoDup : NoDup GateClausesV1.
Proof. apply (bool_decide_unpack (NoDup GateClausesV1)). vm_compute. exact I. Qed.

(** Read without duplicates and with none missing: the entries are the vocabulary. *)
Lemma clauses_complete (es : list GateClauseEntry) :
  (exists m, readClauses es ∅ = Ok m /\ firstMissing GateClausesV1 m = Ok tt) <->
  map ce_Clause es ≡ₚ GateClausesV1 /\
  Forall (fun e => ValidClauseAssignment (ce_Assignment e) = true) es.
Proof.
  setoid_rewrite readClauses_Ok. setoid_rewrite firstMissing_Ok. split.
  - intros (m & (Hv & Hnd & Hnone & ->) & Hall).
    rewrite list.Forall_and in Hv. destruct Hv as [Hin Hval]. split; [|done].
    apply NoDup_Permutation; [done|apply GateClausesV1_NoDup|]. intros c. split.
    + intros (e & -> & He)%list_elem_of_fmap. rewrite list.Forall_forall in Hin. by apply Hin.
    + intros Hc. rewrite list.Forall_forall in Hall. destruct (Hall c Hc) as [a Ha].
      apply entryMap_lookup in Ha as [Ha|Ha]; [|by rewrite lookup_empty in Ha|done|done].
      apply list_elem_of_fmap. eexists; split; [|exact Ha]. done.
  - intros [Hp Hval]. assert (NoDup (map ce_Clause es)) as Hnd by (rewrite Hp; apply GateClausesV1_NoDup).
    assert (Forall (fun e => (∅ : gmap GateClause ClauseAssignment) !! ce_Clause e = None) es) as Hnone
      by (apply list.Forall_true; intros; apply lookup_empty).
    exists (entryMap es ∅). split.
    + split_and!; try done. rewrite list.Forall_forall in Hval |- *. intros e He. split; [|by apply Hval].
      rewrite <- Hp. apply list_elem_of_fmap. eauto.
    + apply list.Forall_forall. intros c Hc. rewrite <- Hp in Hc.
      apply list_elem_of_fmap in Hc as (e & -> & He). exists (ce_Assignment e).
      apply entryMap_lookup; [done|done|]. left. by destruct e.
Qed.

Lemma ValidateGatePolicyV1_Ok doc m :
  ValidateGatePolicyV1 doc = Ok m <->
  doc_SchemaVersion doc = 1 /\ windowNamed (doc_Window doc) = true /\ body_wf doc /\ m = clausesOf doc.
Proof.
  unfold ValidateGatePolicyV1.
  pose proof (clauses_complete (doc_Clauses doc)) as Hcl.
  assert (refuse_if (bool_decide (TrimSpace (doc_Window doc) = "")
            || negb (bool_decide (doc_Window doc = TrimSpace (doc_Window doc)))) (ErrWindow (doc_Window doc))
          = refuse_if (negb (windowNamed (doc_Window doc))) (ErrWindow (doc_Window doc))) as ->.
  { unfold windowNamed. by rewrite negb_andb, negb_involutive. }
  destruct (Z.eqb_spec (doc_SchemaVersion doc) GatePolicySchemaV1) as [Hv|Hv]; cbn [negb refuse_if rbind].
  2:{ split; [done|]. by intros (? & _). }
  destruct (windowNamed (doc_Window doc)) eqn:Hw; cbn [negb refuse_if rbind].
  2:{ split; [done|]. by intros (_ & ? & _). }
  destruct (readClauses (doc_Clauses doc) ∅) as [m'|e] eqn:Hr; cbn [rbind].
  2:{ split; [done|]. intros (_ & _ & [Hp Ha _ _ _] & _).
      destruct (proj2 Hcl (conj Hp Ha)) as (m' & Hm' & _). done. }
  assert (m' = clausesOf doc) as -> by (by apply readClauses_Ok in Hr as (_ & _ & _ & ->)).
  destruct (firstMissing GateClausesV1 (clausesOf doc)) as [[]|e] eqn:Hf; cbn [rbind].
  2:{ split; [done|]. intros (_ & _ & [Hp Ha _ _ _] & _).
      destruct (proj2 Hcl (conj Hp Ha)) as (m' & Hm' & Hfm). injection Hm' as <-. congruence. }
  destruct (proj1 Hcl ltac:(eauto)) as [Hp Ha].
  set (lag := doc_MaxSealLagSeconds doc).
  change (Z.quot MinSealLag Second) with 300. change (Z.quot MaxSealLag Second) with 86400.
  change (Z.quot GateSealLagStep Second) with 60.
  change GateBudgetConsumedPercentMin with 1. change GateBudgetConsumedPercentMax with 100.
  destruct (_ || _) eqn:Hpc; cbn [refuse_if rbind].
  { split; [done|]. intros (_ & _ & [_ _ H _ _] & _). apply orb_true_iff in Hpc as [?|?]; bool_facts; lia. }
  destruct ((lag <? 300) || _) eqn:Hl; cbn [refuse_if rbind].
  { split; [done|]. intros (_ & _ & [_ _ _ [H _] _] & _). fold lag in H.
    apply orb_true_iff in Hl as [?|?]; bool_facts; lia. }
  bool_facts. rewrite Z.rem_mod_nonneg by lia.
  destruct (Z.eqb_spec (lag mod 60) 0) as [Hs|Hs]; cbn [negb refuse_if rbind].
  2:{ split; [done|]. intros (_ & _ & [_ _ _ [_ Hd] _] & _). by apply Z.mod_divide in Hd. }
  apply Z.mod_divide in Hs; [|done].
  unfold ValidGateUnknownBehavior.
  destruct (doc_UnknownBehavior doc) eqn:Hu; cbn; rewrite ?bool_decide_eq_true_2, ?bool_decide_eq_false_2 by done;
    cbn [refuse_if rbind orb negb].
  - split; [intros [= <-]|by intros (_ & _ & _ & ->)]. split_and!; try done.
    split; try done; auto.
  - split; [intros [= <-]|by intros (_ & _ & _ & ->)]. split_and!; try done.
    split; try done; auto.
  - split; [done|]. intros (_ & _ & [_ _ _ _ [Hb|Hb]] & _); congruence.
Qed.

Lemma ValidateGatePolicy_Ok doc m :
  ValidateGatePolicy doc = Ok m <-> doc_wf doc /\ m = clausesOf doc.
Proof.
  assert (forall doc', doc_Clauses doc' = doc_Clauses doc ->
            doc_BudgetConsumedPercent doc' = doc_BudgetConsumedPercent doc ->
            doc_MaxSealLagSeconds doc' = doc_MaxSealLagSeconds doc ->
            doc_UnknownBehavior doc' = doc_UnknownBehavior doc -> body_wf doc' <-> body_wf doc) as Hbody.
  { intros doc' E1 E2 E3 E4. split; intros [H1 H2 H3 H4 H5]; split;
      rewrite ?E1, ?E2, ?E3, ?E4 in *; done. }
  assert (doc_wf doc <-> body_wf doc /\
     ((doc_SchemaVersion doc = 1 /\ (doc_WindowMode doc = ModeOne \/ doc_WindowMode doc = ModeOther "")
       /\ windowNamed (doc_Window doc) = true) \/
      (doc_SchemaVersion doc = 2 /\ doc_WindowMode doc = ModeOne /\ windowNamed (doc_Window doc) = true) \/
      (doc_SchemaVersion doc = 2 /\ doc_WindowMode doc = ModeAll /\ doc_Window doc = ""))) as ->.
  { split; [intros [H1 H2 H3 H4 H5 H6]|intros [[H2 H3 H4 H5 H6] H1]]; [split; [by split|done]|by split]. }
  unfold ValidateGatePolicy, GatePolicySchemaV1, GatePolicySchemaV2.
  destruct (Z.eqb_spec (doc_SchemaVersion doc) 1) as [Hv|Hv].
  - destruct (doc_WindowMode doc) as [| |s] eqn:Em;
      rewrite ?(bool_decide_eq_false_2 (ModeOne = ModeOther "")), ?(bool_decide_eq_true_2 (ModeOne = ModeOne)),
        ?(bool_decide_eq_false_2 (ModeAll = ModeOther "")), ?(bool_decide_eq_false_2 (ModeAll = ModeOne)),
        ?(bool_decide_eq_false_2 (ModeOther _ = ModeOne)) by done; cbn [negb andb].
    + rewrite ValidateGatePolicyV1_Ok. naive_solver lia.
    + split; [done|]. intros [[_ [H|[H|H]]] _]; naive_solver lia.
    + case_bool_decide as Hs; cbn [negb andb].
      * rewrite ValidateGatePolicyV1_Ok. naive_solver lia.
      * split; [done|]. intros [[_ [H|[H|H]]] _]; naive_solver lia.
  - destruct (Z.eqb_spec (doc_SchemaVersion doc) 2) as [Hv2|Hv2]; cbn [negb].
    2:{ split; [done|]. naive_solver. }
    unfold ValidGateWindowMode.
    destruct (doc_WindowMode doc) as [| |s] eqn:Em;
      rewrite ?(bool_decide_eq_true_2 (ModeOne = ModeOne)), ?(bool_decide_eq_true_2 (ModeAll = ModeAll)),
        ?(bool_decide_eq_false_2 (ModeAll = ModeOne)), ?(bool_decide_eq_false_2 (ModeOne = ModeAll)),
        ?(bool_decide_eq_false_2 (ModeOther _ = ModeOne)), ?(bool_decide_eq_false_2 (ModeOther _ = ModeAll)) by done;
      cbn [negb andb orb].
    + assert (bool_decide (TrimSpace (doc_Window doc) = "")
              || negb (bool_decide (doc_Window doc = TrimSpace (doc_Window doc)))
              = negb (windowNamed (doc_Window doc))) as ->
        by (unfold windowNamed; by rewrite negb_andb, negb_involutive).
      destruct (windowNamed (doc_Window doc)) eqn:Hw; cbn [negb].
      * rewrite ValidateGatePolicyV1_Ok, Hbody by done. cbn [doc_SchemaVersion doc_Window]. split.
        -- intros (_ & _ & Hb & ->). split; [split; [done|naive_solver]|done].
        -- intros [[Hb _] ->]. done.
      * split; [done|]. naive_solver.
    + case_bool_decide as Hw; cbn [negb].
      * rewrite ValidateGatePolicyV1_Ok, Hbody by done. cbn [doc_SchemaVersion doc_Window]. split.
        -- intros (_ & _ & Hb & ->). split; [split; [done|naive_solver]|done].
        -- intros [[Hb _] ->]. done.
      * split; [done|]. naive_solver.
    + split; [done|]. naive_solver.
Qed.

Lemma clausesOf_lookup doc c a :
  doc_wf doc -> clausesOf doc !! c = Some a <-> {| ce_Clause := c; ce_Assignment := a |} ∈ doc_Clauses doc.
Proof.
  intros [_ Hp _ _ _ _]. unfold clausesOf. rewrite entryMap_lookup.
  - rewrite lookup_empty. naive_solver.
  - rewrite Hp. apply GateClausesV1_NoDup.
  - apply list.Forall_true. intros. apply lookup_empty.
Qed.

(** [ValidateGatePolicy] accepts exactly the well-formed documents (version 1 or 2 with
    a consistent window mode, every clause of the vocabulary assigned exactly once, the
    threshold, seal-lag and unknown-behaviour bounds), and what it returns is the
    document's own assignment as a map with the five clauses as its domain. *)
Theorem ValidateGatePolicy_accepts_iff doc m :
  ValidateGatePolicy doc = Ok m <->
  doc_wf doc /\
  (forall c a, m !! c = Some a <-> {| ce_Clause := c; ce_Assignment := a |} ∈ doc_Clauses doc) /\
  dom m = list_to_set GateClausesV1.
Proof.
  rewrite ValidateGatePolicy_Ok. split.
  - intros [Hwf ->]. split; [done|]. split; [intros; by apply clausesOf_lookup|].
    apply set_eq. intros c. rewrite elem_of_dom, elem_of_list_to_set, <- (dw_clauses _ Hwf).
    rewrite list_elem_of_fmap. split.
    + intros [a Ha%clausesOf_lookup]; [|done]. eexists; split; [|exact Ha]. done.
    + intros (e & -> & He). exists (ce_Assignment e). apply clausesOf_lookup; [done|]. by destruct e.
  - intros (Hwf & Hm & _). split; [done|]. apply map_eq. intros c. apply option_eq. intros a.
    by rewrite Hm, clausesOf_lookup.
Qed.

(** the stored policy round-trips: rendering a stored policy as a document (for the
    no-op comparison and the audit) and validating that document gives back exactly the
    stored clause map, and the entries are those the author wrote, in the canonical order. *)
Theorem Document_roundtrip p doc
  (Hok : ValidateGatePolicy doc = Ok (gp_Clauses p))
  (Hver : gp_SchemaVersion p = doc_SchemaVersion doc) (Hmode : gp_WindowMode p = doc_WindowMode doc)
  (Hwin : gp_Window p = doc_Window doc)
  (Hpct : gp_BudgetConsumedPercent p = doc_BudgetConsumedPercent doc)
  (Hlag : gp_MaxSealLagSeconds p = doc_MaxSealLagSeconds doc)
  (Hunk : gp_UnknownBehavior p = doc_UnknownBehavior doc) :
  ValidateGatePolicy (Document p) = Ok (gp_Clauses p) /\
  doc_Clauses (Document p) ≡ₚ doc_Clauses doc /\
  map ce_Clause (doc_Clauses (Document p)) = GateClausesV1.
Proof.
  apply ValidateGatePolicy_Ok in Hok as [Hwf Hm].
  assert (GateClausesFor (gp_SchemaVersion p) = GateClausesV1) as Hfor.
  { rewrite Hver. destruct (dw_version _ Hwf) as [[-> _]|[[-> _]|[-> _]]]; done. }
  set (pick c := {| ce_Clause := c; ce_Assignment := default AssignIgnore (gp_Clauses p !! c) |}).
  assert (forall c, c ∈ GateClausesV1 -> is_Some (gp_Clauses p !! c)) as Hdom.
  { intros c Hc. rewrite <- (dw_clauses _ Hwf) in Hc. apply list_elem_of_fmap in Hc as (e & -> & He).
    rewrite Hm. exists (ce_Assignment e). apply clausesOf_lookup; [done|]. by destruct e. }
  assert (doc_Clauses (Document p) = map pick GateClausesV1) as Hd.
  { unfold Document. cbn [doc_Clauses]. rewrite Hfor. apply omap_total. intros c [a Ha]%Hdom.
    unfold pick. by rewrite Ha. }
  assert (map ce_Clause (doc_Clauses (Document p)) = GateClausesV1) as Hc
    by (rewrite Hd, map_map; reflexivity).
  assert (forall e, e ∈ doc_Clauses (Document p) <-> e ∈ doc_Clauses doc) as Hel.
  { intros e. rewrite Hd, list_elem_of_fmap. split.
    - intros (c & -> & [a Ha]%Hdom). unfold pick. rewrite Ha. cbn. rewrite Hm in Ha.
      by apply clausesOf_lookup in Ha.
    - intros He. exists (ce_Clause e). assert (gp_Clauses p !! ce_Clause e = Some (ce_Assignment e)) as Hl.
      { rewrite Hm. apply clausesOf_lookup; [done|]. by destruct e. }
      unfold pick. rewrite Hl. split; [by destruct e|]. rewrite <- (dw_clauses _ Hwf).
      apply list_elem_of_fmap. eauto. }
  assert (doc_Clauses (Document p) ≡ₚ doc_Clauses doc) as Hperm.
  { apply NoDup_Permutation; [..|done]; apply (NoDup_fmap_1 ce_Clause).
    - change (ce_Clause <$> doc_Clauses (Document p)) with (map ce_Clause (doc_Clauses (Document p))).
      rewrite Hc. apply GateClausesV1_NoDup.
    - change (ce_Clause <$> doc_Clauses doc) with (map ce_Clause (doc_Clauses doc)).
      rewrite (dw_clauses _ Hwf). apply GateClausesV1_NoDup. }
  split; [|done]. apply ValidateGatePolicy_Ok.
  assert (doc_wf (Document p)) as Hwf'.
  { destruct Hwf as [H1 H2 H3 H4 H5 H6]. split; cbn [Document doc_SchemaVersion doc_WindowMode doc_Window
      doc_BudgetConsumedPercent doc_MaxSealLagSeconds doc_UnknownBehavior];
      rewrite ?Hver, ?Hmode, ?Hwin, ?Hpct, ?Hlag, ?Hunk; try done.
    - by rewrite Hc.
    - by rewrite Hperm. }
  split; [done|]. apply map_eq. intros c. apply option_eq. intros a.
  rewrite clausesOf_lookup by done. rewrite Hm, clausesOf_lookup by done. by rewrite Hel.
Qed.

(** A complete document of version 1, for the witnesses. *)
Definition demoDoc : GatePolicyDocument :=
  {| doc_SchemaVersion := 1; doc_WindowMode := ModeOne; doc_Window := "30d";
     doc_Clauses := [ {| ce_Clause := ServiceIncidentOpen; ce_Assignment := AssignBlock |};
                      {| ce_Clause := BudgetExhausted; ce_Assignment := AssignBlock |};
                      {| ce_Clause := PageBurnFiring; ce_Assignment := AssignBlock |};
                      {| ce_Clause := BudgetConsumed; ce_Assignment := AssignWarn |};
                      {| ce_Clause := TicketBurnFiring; ce_Assignment := AssignIgnore |} ];
     doc_BudgetConsumedPercent := 80; doc_MaxSealLagSeconds := 600; doc_UnknownBehavior := UnknownBlock |}.

Definition demoPolicyRow : GatePolicy :=
  {| gp_ServiceID := "s"; gp_ProjectID := "p"; gp_Window := "30d"; gp_WindowMode := ModeOne;
     gp_SchemaVersion := 1; gp_Clauses := clausesOf demoDoc; gp_BudgetConsumedPercent := 80;
     gp_MaxSealLagSeconds := 600; gp_UnknownBehavior := UnknownBlock; gp_Revision := 1;
     gp_DeletedAt := None; gp_UpdatedAt := 0; gp_UpdatedBy := "user:a" |}.

Example Document_roundtrip_witness :
  ValidateGatePolicy (Document demoPolicyRow) = Ok (gp_Clauses demoPolicyRow) /\
  doc_Clauses (Document demoPolicyRow) ≡ₚ doc_Clauses demoDoc /\
  map ce_Clause (doc_Clauses (Document demoPolicyRow)) = GateClausesV1.
Proof. apply (Document_roundtrip demoPolicyRow demoDoc); reflexivity. Defined.

(** ** The decision algebra *)

Definition isMatch (v : GateClauseVerdict) : bool :=
  match cv_Unavailable v with None => cv_Matched v | Some _ => false end.
Definition isUnavailable (v : GateClauseVerdict) : bool :=
  match cv_Unavailable v with None => false | Some _ => true end.
Definition assigned (a : ClauseAssignment) (v : GateClauseVerdict) : bool :=
  bool_decide (cv_Assignment v = a).

(** The reason a clause contributes, if any. *)
Definition verdictReason (v : GateClauseVerdict) : option GateReasonEntry :=
  match cv_Unavailable v with
  | Some r => Some (reasonOf v (CodeReason r) NoValue)
  | None => if cv_Matched v then Some (reasonOf v (CodeClause (cv_Clause v)) (cv_Value v)) else None
  end.

Lemma algebra_fold verdicts :
  let st := foldl algebraStep
    {| al_knownBlock := false; al_anyUnavailable := false; al_warnMatch := false; al_reasons := [] |}
    verdicts in
  al_knownBlock st = existsb (fun v => isMatch v && assigned AssignBlock v) verdicts /\
  al_anyUnavailable st = existsb (fun v => isUnavailable v && Constrains (cv_Assignment v)) verdicts /\
  al_warnMatch st = existsb (fun v => isMatch v && assigned AssignWarn v) verdicts /\
  al_reasons st = omap verdictReason verdicts.
Proof.
  induction verdicts as [|v verdicts IH] using rev_ind; [done|]. cbv zeta in *.
  rewrite foldl_app. cbn [foldl]. set (st := foldl _ _ verdicts) in *.
  rewrite !existsb_app, omap_app. destruct IH as (<- & <- & <- & <-). cbn [existsb omap list_omap].
  unfold algebraStep, verdictReason, isMatch, isUnavailable, assigned.
  destruct (cv_Unavailable v), (cv_Matched v), (cv_Assignment v);
    rewrite ?bool_decide_eq_true_2, ?bool_decide_eq_false_2 by done;
    cbn; rewrite ?orb_false_r, ?orb_true_r, ?app_nil_r; done.
Qed.

(** Nothing constraining matched or unavailable. *)
Definition quiet (v : GateClauseVerdict) : Prop :=
  Constrains (cv_Assignment v) = true -> isUnavailable v = false /\ cv_Matched v = false.

Lemma algebra_quiet verdicts :
  let st := foldl algebraStep
    {| al_knownBlock := false; al_anyUnavailable := false; al_warnMatch := false; al_reasons := [] |}
    verdicts in
  al_knownBlock st || al_anyUnavailable st || al_warnMatch st = false <-> Forall quiet verdicts.
Proof.
  cbv zeta. destruct (algebra_fold verdicts) as (Hb & Hu & Hw & _). cbv zeta in *.
  set (st := foldl _ _ verdicts) in *. unfold quiet.
  rewrite !orb_false_iff, Hb, Hu, Hw. rewrite <- !not_true_iff_false.
    rewrite !existsb_exists. rewrite list.Forall_forall. setoid_rewrite <- list_elem_of_In. split.
    - intros [[H1 H2] H3] v Hv Hc.
      unfold isMatch, isUnavailable, assigned, Constrains in *.
      assert (cv_Unavailable v = None) as Hn.
      { destruct (cv_Unavailable v) eqn:E; [|done]. exfalso. apply H2. exists v. by rewrite E. }
      rewrite Hn. split; [done|]. destruct (cv_Matched v) eqn:Em; [|done]. exfalso.
      apply orb_true_iff in Hc as [Hc|Hc]; [apply H1|apply H3]; exists v; by rewrite Hn, Em, Hc.
    - intros H. split_and!; intros (v & Hv & [Hm Ha]%andb_true_iff);
        unfold isMatch, isUnavailable, assigned, Constrains in *.
      + apply bool_decide_eq_true in Ha. specialize (H v Hv). rewrite Ha in H.
        destruct (cv_Unavailable v); [done|]. destruct H as [_ H]; [done|]. congruence.
      + destruct (H v Hv Ha) as [H1 _]. congruence.
      + apply bool_decide_eq_true in Ha. specialize (H v Hv). rewrite Ha in H.
        destruct (cv_Unavailable v); [done|]. destruct H as [_ H]; [done|]. congruence.
Qed.

Lemma algebra_allow verdicts unknown :
  (DecideGateAlgebra verdicts unknown).1.2 = ActionAllow <-> Forall quiet verdicts.
Proof.
  rewrite <- algebra_quiet. unfold DecideGateAlgebra. cbv zeta. set (st := foldl _ _ verdicts).
  assert (UnknownAction unknown <> ActionAllow) as Hna by (unfold UnknownAction; by case_bool_decide).
  destruct (al_knownBlock st), (al_anyUnavailable st), (al_warnMatch st); cbn; done.
Qed.

Lemma existsb_Permutation {A} (f : A -> bool) l1 l2 : l1 ≡ₚ l2 -> existsb f l1 = existsb f l2.
Proof.
  induction 1 as [|x l1 l2 _ IH|x y l|l1 l2 l3 _ IH1 _ IH2]; cbn; [done|by rewrite IH| |congruence].
  destruct (f x), (f y); done.
Qed.

(** the gate fails closed: a decision lets the pipeline proceed (ALLOW) exactly when
    every clause the policy constrains is both answerable and not matched; an UNKNOWN
    state never becomes ALLOW; a matched blocking clause always blocks, whatever else is
    unavailable; the state and the action do not depend on the order of the clauses; and
    every matched or unavailable clause, and no other, is reported, in clause order. *)
Theorem gate_algebra_fails_closed verdicts unknown :
  let '(state, action, reasons) := DecideGateAlgebra verdicts unknown in
  (action = ActionAllow <->
   Forall (fun v => Constrains (cv_Assignment v) = true -> isUnavailable v = false /\ cv_Matched v = false)
     verdicts) /\
  (state = StateAllow <-> action = ActionAllow) /\
  (state = StateBlock <-> Exists (fun v => isMatch v = true /\ cv_Assignment v = AssignBlock) verdicts) /\
  (state = StateBlock -> action = ActionBlock) /\
  (state = GateUnknown -> action = UnknownAction unknown) /\
  (forall verdicts', verdicts ≡ₚ verdicts' ->
     (DecideGateAlgebra verdicts' unknown).1 = (state, action)) /\
  reasons = omap verdictReason verdicts.
Proof.
  unfold DecideGateAlgebra.
  destruct (algebra_fold verdicts) as (Hb & Hu & Hw & Hr). cbv zeta in *.
  set (st := foldl _ _ verdicts) in *.
  pose proof (algebra_quiet verdicts) as Hallow. cbv zeta in Hallow. fold st in Hallow.
  assert (al_knownBlock st = true <->
          Exists (fun v => isMatch v = true /\ cv_Assignment v = AssignBlock) verdicts) as Hblock.
  { rewrite Hb, existsb_exists, list.Exists_exists. setoid_rewrite <- list_elem_of_In.
    setoid_rewrite andb_true_iff. unfold assigned. setoid_rewrite bool_decide_eq_true. done. }
  assert (forall verdicts', verdicts ≡ₚ verdicts' ->
    let st' := foldl algebraStep
      {| al_knownBlock := false; al_anyUnavailable := false; al_warnMatch := false; al_reasons := [] |} verdicts' in
    al_knownBlock st' = al_knownBlock st /\ al_anyUnavailable st' = al_anyUnavailable st /\
    al_warnMatch st' = al_warnMatch st) as Hperm.
  { intros vs' Hp. cbv zeta. destruct (algebra_fold vs') as (-> & -> & -> & _). rewrite Hb, Hu, Hw.
    rewrite !(existsb_Permutation _ _ _ Hp). done. }
  assert (UnknownAction unknown <> ActionAllow) as Hna by (unfold UnknownAction; by case_bool_decide).
  destruct (al_knownBlock st) eqn:E1, (al_anyUnavailable st) eqn:E2, (al_warnMatch st) eqn:E3; cbn in *;
    (split_and!; rewrite <- ?Hallow, <- ?Hblock; try done;
     intros vs' Hp; destruct (Hperm vs' Hp) as (H1 & H2 & H3); rewrite ?H1, ?H2, ?H3; done).
Qed.

(** ** Override status *)

(** The closures the system writes on an open row without a human: an expired row, or a
    row whose policy moved. *)
Definition closeAs (o : GateOverride) (at_ : Time) (r : GateRevokedReason) : GateOverride :=
  {| ov_ID := ov_ID o; ov_ServiceID := ov_ServiceID o; ov_ProjectID := ov_ProjectID o;
     ov_PolicyRevision := ov_PolicyRevision o; ov_PolicySource := ov_PolicySource o;
     ov_PolicyOwnerID := ov_PolicyOwnerID o; ov_ActorUserID := ov_ActorUserID o;
     ov_ViaToken := ov_ViaToken o; ov_ActorLabel := ov_ActorLabel o; ov_Reason := ov_Reason o;
     ov_CreatedAt := ov_CreatedAt o; ov_ExpiresAt := ov_ExpiresAt o;
     ov_RevokedAt := Some at_; ov_RevokedReason := Some r;
     ov_RevokedByUserID := ov_RevokedByUserID o; ov_RevokedViaToken := ov_RevokedViaToken o;
     ov_RevokedByLabel := ov_RevokedByLabel o |}.

(** housekeeping never moves a status: closing an open override as [expired] once its
    expiry has passed, or as [policy_changed]/[policy_deleted] once the live revision is
    another one (or there is none), leaves its read-time status exactly what it was, at
    that instant and every later one while the revision stays away from the override's. *)
Theorem housekeeping_keeps_status o closedAt now live reason
  (Hopen : Open o = true) (Hnow : closedAt <= now)
  (Hfact : match reason with
           | RevokedManual => False
           | RevokedExpired => ov_ExpiresAt o <= closedAt
           | RevokedPolicyChanged | RevokedPolicyDeleted => live <> Some (ov_PolicyRevision o)
           end) :
  GateOverrideStatusAt (closeAs o closedAt reason) now live = GateOverrideStatusAt o now live.
Proof.
  unfold Open in Hopen.
  assert (ov_RevokedReason o = None) as Hr by (by destruct (ov_RevokedAt o), (ov_RevokedReason o)).
  unfold GateOverrideStatusAt, After. cbn [closeAs ov_RevokedReason ov_PolicyRevision ov_ExpiresAt].
  rewrite Hr. destruct reason; cbn; try done.
  - destruct (bool_decide (live = _)); [|done]. cbn.
    destruct (Z.ltb_spec now (ov_ExpiresAt o)); [lia|]. done.
  - by rewrite (bool_decide_eq_false_2 (live = _)).
  - by rewrite (bool_decide_eq_false_2 (live = _)).
Qed.

Definition demoOverride : GateOverride :=
  {| ov_ID := "o1"; ov_ServiceID := "s"; ov_ProjectID := "p"; ov_PolicyRevision := 3;
     ov_PolicySource := SourceService; ov_PolicyOwnerID := "s"; ov_ActorUserID := None;
     ov_ViaToken := true; ov_ActorLabel := "token:ci"; ov_Reason := "hotfix"; ov_CreatedAt := 100;
     ov_ExpiresAt := 200; ov_RevokedAt := None; ov_RevokedReason := None;
     ov_RevokedByUserID := None; ov_RevokedViaToken := None; ov_RevokedByLabel := None |}.

Example housekeeping_keeps_status_witness :
  GateOverrideStatusAt (closeAs demoOverride 250 RevokedExpired) 300 (Some 3)
  = GateOverrideStatusAt demoOverride 300 (Some 3) /\
  GateOverrideStatusAt demoOverride 300 (Some 3) = OverrideExpired.
Proof.
  split; [|reflexivity].
  apply (housekeeping_keeps_status demoOverride 250 300 (Some 3) RevokedExpired);
    [reflexivity|lia|cbn; lia].
Defined.

(** ** Decision identifiers *)

Lemma tagged_byte tag n x :
  0 <= n <= 8 -> 0 <= tag < 256 -> Z.land tag (Z.ones n) = 0 ->
  byte_ok (Z.lor tag (Z.land x (Z.ones n))).
Proof.
  intros Hn Htag Hdis. unfold byte_ok. rewrite Z.land_ones by lia.
  assert (0 <= x mod 2 ^ n < 2 ^ n) as Hx by (apply Z.mod_pos_bound; lia).
  assert (2 ^ n <= 256) by (change 256 with (2 ^ 8); apply Z.pow_le_mono_r; lia).
  split; [apply Z.lor_nonneg; lia|].
  destruct (decide (Z.lor tag (x mod 2 ^ n) = 0)) as [->|Hne]; [lia|].
  assert (0 <= Z.lor tag (x mod 2 ^ n)) by (apply Z.lor_nonneg; lia).
  change 256 with (2 ^ 8). apply Z.log2_lt_pow2; [lia|].
  rewrite Z.log2_lor by lia. apply Z.max_lub_lt.
  - destruct (decide (tag = 0)) as [->|]; [done|]. apply Z.log2_lt_pow2; lia.
  - destruct (decide (x mod 2 ^ n = 0)) as [->|]; [done|]. apply Z.log2_lt_pow2; lia.
Qed.

(** Cutting a 32-digit text at 8-4-4-4-12 loses nothing. *)
Lemma uuid_chunks (h : bytes) :
  length h = 32%nat ->
  take 8 h ++ take 4 (drop 8 h) ++ take 4 (drop 12 h) ++ take 4 (drop 16 h) ++ take 12 (drop 20 h) = h.
Proof.
  intros Hl. do 32 (destruct h as [|? h]; [discriminate|]).
  destruct h; [reflexivity|discriminate].
Qed.

Lemma uuid_shape (h : bytes) :
  length h = 32%nat ->
  let id := take 8 h ++ [dash] ++ take 4 (drop 8 h) ++ [dash] ++ take 4 (drop 12 h) ++ [dash]
            ++ take 4 (drop 16 h) ++ [dash] ++ take 12 (drop 20 h) in
  length id = 36%nat /\ nth 8 id 0 = dash /\ nth 13 id 0 = dash /\ nth 18 id 0 = dash /\ nth 23 id 0 = dash.
Proof.
  intros Hl. do 32 (destruct h as [|? h]; [discriminate|]).
  destruct h; [|discriminate]. repeat split.
Qed.

Lemma Forall_take_drop {A} (P : A -> Prop) n m l : Forall P l -> Forall P (take n (drop m l)).
Proof. intros H. by apply Forall_take, Forall_drop. Qed.

(** a decision identifier carries its evaluation instant: for every instant in the
    48-bit millisecond range, whatever the random bytes, the identifier is built, has the
    canonical text shape, and reading it back gives exactly the millisecond it was made
    from, so the ledger partition can be derived from the identifier alone. *)
Theorem decision_id_roundtrip random evaluatedAt
  (Hlen : length random = 16%nat) (Hrand : Forall byte_ok random)
  (Hms : 0 <= UnixMilli evaluatedAt < 2 ^ 48) :
  exists id, newGateDecisionID random evaluatedAt = Some id /\ length id = 36%nat /\
             DecisionIDMillis id = Some (UnixMilli evaluatedAt).
Proof.
  destruct (uint48_roundtrip _ Hms) as (Hget & Hts & Htl).
  unfold newGateDecisionID. set (ms := UnixMilli evaluatedAt) in *. set (ts := drop 2 (putUint64 ms)) in *.
  destruct (Z.ltb_spec ms 0), (Z.leb_spec (2 ^ 48) ms); try lia. cbn [orb].
  set (b0 := ts ++ drop 6 random).
  set (b1 := <[6%nat := Z.lor 112 (Z.land (nth 6 b0 0) 15)]> b0).
  set (b2 := <[8%nat := Z.lor 128 (Z.land (nth 8 b1 0) 63)]> b1).
  assert (length b2 = 16%nat) as Hl2.
  { unfold b2, b1, b0. rewrite !length_insert, length_app, length_drop, Htl, Hlen. done. }
  assert (Forall byte_ok b2) as Hok2.
  { unfold b2, b1. apply Forall_insert; [apply Forall_insert; [apply Forall_app; split; [done|by apply Forall_drop]|]|].
    - apply (tagged_byte 112 4); done.
    - apply (tagged_byte 128 6); done. }
  assert (take 6 b2 = ts) as Htake.
  { unfold b2, b1, b0. rewrite !take_insert_ge by lia. rewrite take_app_le by lia.
    rewrite take_ge by lia. done. }
  eexists. split; [reflexivity|].
  set (h := hexEncode b2). assert (length h = 32%nat) as Hlh by (unfold h; rewrite hexEncode_length; lia).
  destruct (uuid_shape h Hlh) as (Hid & H8 & H13 & H18 & H23). cbv zeta in *.
  set (id := take 8 h ++ _) in *. split; [done|].
  unfold DecisionIDMillis. rewrite Hid, H8, H13, H18, H23. cbn [Nat.eqb negb orb].
  rewrite !Z.eqb_refl. cbn [negb orb].
  assert (dropDashes id = h) as ->.
  { assert (Forall (fun b => b <> 45) h) as Hnd by (by apply hexEncode_no_dash).
    unfold id. rewrite !dropDashes_app. change (dropDashes [dash]) with (@nil Z). cbn [app].
    rewrite !dropDashes_id by (by apply Forall_take_drop || by apply Forall_take).
    by apply uuid_chunks. }
  unfold h. rewrite hexDecode_encode by done. rewrite Hl2. cbn [Nat.eqb negb].
  rewrite Htake. by rewrite Hget.
Qed.

Example decision_id_roundtrip_witness :
  exists id, newGateDecisionID (repeat 171 16) (unixEpoch + 1700000000123 * 1000000) = Some id /\
             length id = 36%nat /\ DecisionIDMillis id = Some 1700000000123.
Proof.
  destruct (decision_id_roundtrip (repeat 171 16) (unixEpoch + 1700000000123 * 1000000))
    as (id & H1 & H2 & H3).
  - reflexivity.
  - repeat constructor; discriminate.
  - vm_compute. split; [discriminate|reflexivity].
  - exists id. split; [exact H1|]. split; [exact H2|]. rewrite H3. vm_compute. reflexivity.
Defined.
