(* ===== verification/GateDecision.v ===== *)
(** * The gate decision
    ([internal/store/gatedecision.go])

    From the facts one snapshot holds (policy, report, target and burn latches, incident,
    coverage, governing revision, override) to the recorded decision: the clause verdicts,
    the algebra, the override, the evidence and the freshness horizon, for the one-window
    and the all-windows policies. *)

From S2P Require Import Prelude ServicePolicy GoFloat Sla Report GoString Gate.

(** ** Data *)
Record gateTarget := {
  tg_id : string;
  tg_window : string;
  tg_objective : float64;
  tg_objectiveUpdatedAt : Time;
  tg_rules : list BurnRule;
  tg_burnAlertEnabled : bool;
}.

Record burnRuleLatch := {
  la_firing : bool;
  la_seq : Z;
  la_undelivered : Z;
  la_lastVerdict : string;
  la_evaluatedAt : Time;
  la_leaseUntil : Time;
}.

(** [burnLatchKey]: (target id, rule key). *)
Definition burnLatchKey : Type := string * string.

Record gateClauseInputs := {
  gi_policy : GatePolicy;
  gi_evaluatedAt : Time;
  gi_report : ServiceWindowReport;
  gi_target : option gateTarget;
  gi_latches : gmap burnLatchKey burnRuleLatch;
  gi_incident : option string;
}.

Definition gateSourceReportBudget : string := "service_reliability_report:budget.burned_percent".
Definition gateSourceBurnLatch : string := "service_burn_alert_state".
Definition gateSourceIncidents : string := "incidents".
Definition gateSourceRevisions : string := "service_definition_revisions".
Definition gateSourceCoverage : string := "service_alert_state".
Definition GateDocsURL : string :=
  "https://github.com/teamlead-com/cerbix/blob/main/docs/specs/func-reliability-gate.md".

Record ServiceSignalState := {
  ss_Armed : bool;
  ss_Reason : string;
  ss_EvaluatedAt : option Time;
  ss_LeaseUntil : option Time;
  ss_LastError : string;
}.

Record ServiceAlertingState := { as_Live : ServiceSignalState; as_Burn : ServiceSignalState }.

Record GateGoverningRevision := { gr_ID : string; gr_Revision : Z }.

Record GateBurnLease := {
  gl_RuleKey : string;
  gl_Severity : string;
  gl_Firing : option bool;
  gl_LastVerdict : option string;
  gl_EvaluatedAt : option Time;
  gl_LeaseUntil : option Time;
  gl_Fresh : bool;
}.

Record GateFactRevisions := {
  fr_Count : Z;
  fr_FirstID : option string;
  fr_LastID : option string;
  fr_Digest : string;
}.

Record GateCoverageSignal := { cs_Armed : bool; cs_Reason : string }.
Record GateCoverageState := { gc_Live : GateCoverageSignal; gc_Burn : GateCoverageSignal }.

Record GateOverrideApplied := {
  oa_ID : string;
  oa_ActorLabel : string;
  oa_Reason : string;
  oa_ExpiresAt : Time;
}.

Record GateEvaluatedWindow := {
  ew_Window : string;
  ew_TargetID : option string;
  ew_Objective : option float64;
  ew_ObjectiveUpdatedAt : option Time;
  ew_SealedThrough : option Time;
  ew_SealLagSeconds : option float64;
  ew_FactRevisions : option GateFactRevisions;
  ew_BurnLeases : list GateBurnLease;
  ew_FactsFreshUntil : option Time;
  ew_Reasons : list GateReasonEntry;
}.

(** [GateDecision] with its embedded evidence. *)
Record GateDecision := {
  d_SchemaVersion : Z;
  d_DecisionID : bytes;
  d_EvaluatedAt : Time;
  d_ServiceID : option string;
  d_ServiceSlug : string;
  d_ServiceName : string;
  d_State : GateState;
  d_Action : option GateAction;
  d_Reasons : list GateReasonEntry;
  d_PolicyRevision : option Z;
  d_PolicySource : option GatePolicySource;
  d_PolicyOwnerID : option string;
  d_WindowMode : option GateWindowMode;
  d_Window : option string;
  d_OverrideID : option string;
  d_SealedThrough : option Time;
  d_EvaluatedWindows : list GateEvaluatedWindow;
  d_UnoverriddenAction : option GateAction;
  d_UnknownBehavior : option GateUnknownBehavior;
  d_MaxSealLagSeconds : option Z;
  d_TargetID : option string;
  d_Objective : option float64;
  d_ObjectiveUpdatedAt : option Time;
  d_SealLagSeconds : option float64;
  d_FactRevisions : option GateFactRevisions;
  d_GoverningRevision : option GateGoverningRevision;
  d_BurnLeases : option (list GateBurnLease);
  d_CoverageLeaseUntil : option Time;
  d_CoverageState : option GateCoverageState;
  d_Override : option GateOverrideApplied;
  d_FactsFreshUntil : option Time;
}.

Section decision.
(** [strconv.FormatFloat(x, 'g', -1, 64)] of a rule key, and the hexadecimal SHA-256 of a
    text. *)
Context (FormatFloat : float64 -> string) (sha256hex : string -> string).

Notation Key := (Key FormatFloat).

(** ** Clause verdicts *)
Definition dedupedStep (acc : gset string * list BurnRule) (r : BurnRule) : gset string * list BurnRule :=
  let '(seen, out) := acc in
  if bool_decide (Key r ∈ seen) then (seen, out) else ({[Key r]} ∪ seen, out ++ [r]).

Definition dedupedRules (rules : list BurnRule) : list BurnRule :=
  (foldl dedupedStep (∅, []) rules).2.

Definition latchFresh (l : burnRuleLatch) (at_ : Time) : bool := Before at_ (la_leaseUntil l).

Definition plainVerdict (c : GateClause) (a : ClauseAssignment) (source : string) (matched : bool)
    (unavailable : option GateReason) (value : ClauseValue) : GateClauseVerdict :=
  {| cv_Clause := c; cv_Assignment := a; cv_Matched := matched; cv_Unavailable := unavailable;
     cv_Value := value; cv_Source := source; cv_Window := ""; cv_TargetID := None |}.

Definition budgetVerdict (i : gateClauseInputs) (c : GateClause) (a : ClauseAssignment)
    (threshold : float64) : GateClauseVerdict :=
  let unavailable r := plainVerdict c a gateSourceReportBudget false (Some r) NoValue in
  match gi_target i, SealLag (gi_report i) with
  | None, _ => unavailable WindowTargetMissing
  | Some _, None => unavailable NeverSealed
  | Some _, Some lag =>
    if mul64 (gp_MaxSealLagSeconds (gi_policy i)) Second <? lag then unavailable SealStale
    else match rep_Budget (gi_report i) with
         | None => unavailable BudgetWithheld
         | Some b =>
           let pct := sb_BurnedPercent b in
           plainVerdict c a gateSourceReportBudget (fge pct threshold) None (FloatValue pct)
         end
  end.

Definition burnStep (i : gateClauseInputs) (target : gateTarget) (severity : string)
    (acc : list string * bool) (r : BurnRule) : list string * bool :=
  let '(firing, stale) := acc in
  if negb (bool_decide (Severity r = severity)) then (firing, stale)
  else
    match gi_latches i !! (tg_id target, Key r) with
    | None => (firing, true)
    | Some l =>
      if negb (latchFresh l (gi_evaluatedAt i)) then (firing, true)
      else if la_firing l then (firing ++ [Key r], stale) else (firing, stale)
    end.

Definition burnVerdict (i : gateClauseInputs) (c : GateClause) (a : ClauseAssignment)
    (severity : string) : GateClauseVerdict :=
  match gi_target i with
  | None => plainVerdict c a gateSourceBurnLatch false (Some WindowTargetMissing) NoValue
  | Some target =>
    let '(firing, stale) := foldl (burnStep i target severity) ([], false) (dedupedRules (tg_rules target)) in
    match firing with
    | _ :: _ => plainVerdict c a gateSourceBurnLatch true None (StringValue (String.concat "," firing))
    | [] => if stale then plainVerdict c a gateSourceBurnLatch false (Some FactsStale) NoValue
            else plainVerdict c a gateSourceBurnLatch false None NoValue
    end
  end.

Definition incidentVerdict (c : GateClause) (a : ClauseAssignment) (incident : option string)
    : GateClauseVerdict :=
  match incident with
  | Some id => plainVerdict c a gateSourceIncidents true None (StringValue id)
  | None => plainVerdict c a gateSourceIncidents false None NoValue
  end.

(** [policy.Clauses[c]]: the empty string when the map has no entry. *)
Definition assignment (p : GatePolicy) (c : GateClause) : ClauseAssignment :=
  default (AssignOther "") (gp_Clauses p !! c).

Definition evaluateClause (i : gateClauseInputs) (c : GateClause) : option GateClauseVerdict :=
  let a := assignment (gi_policy i) c in
  match c with
  | BudgetExhausted => Some (budgetVerdict i c a (fofZ 100))
  | BudgetConsumed => Some (budgetVerdict i c a (fofZ (gp_BudgetConsumedPercent (gi_policy i))))
  | PageBurnFiring => Some (burnVerdict i c a BurnSeverityPage)
  | TicketBurnFiring => Some (burnVerdict i c a BurnSeverityTicket)
  | ServiceIncidentOpen => Some (incidentVerdict c a (gi_incident i))
  | ClauseOther _ => None
  end.

Definition evaluateGateClauses (i : gateClauseInputs) : list GateClauseVerdict :=
  omap (evaluateClause i) (GateClausesFor (gp_SchemaVersion (gi_policy i))).

(** ** Evidence *)
Definition gateBurnLeases (i : gateClauseInputs) : list GateBurnLease :=
  match gi_target i with
  | None => []
  | Some target =>
    map (fun rule =>
      match gi_latches i !! (tg_id target, Key rule) with
      | Some l => {| gl_RuleKey := Key rule; gl_Severity := Severity rule; gl_Firing := Some (la_firing l);
                     gl_LastVerdict := Some (la_lastVerdict l); gl_EvaluatedAt := Some (la_evaluatedAt l);
                     gl_LeaseUntil := Some (la_leaseUntil l); gl_Fresh := latchFresh l (gi_evaluatedAt i) |}
      | None => {| gl_RuleKey := Key rule; gl_Severity := Severity rule; gl_Firing := None;
                   gl_LastVerdict := None; gl_EvaluatedAt := None; gl_LeaseUntil := None; gl_Fresh := false |}
      end) (dedupedRules (tg_rules target))
  end.

(** Distinct revision ids of the segments, sorted. *)
Definition revisionIDs (rep : ServiceWindowReport) : list string :=
  merge_sort String.le
    (foldl (fun ids seg => if bool_decide (sg_RevisionID seg ∈ ids) then ids else ids ++ [sg_RevisionID seg])
       [] (rep_Segments rep)).

Definition newline : string := String (Ascii.ascii_of_nat 10) EmptyString.

Definition factRevisionsOf (rep : ServiceWindowReport) : GateFactRevisions :=
  let ids := revisionIDs rep in
  {| fr_Count := Z.of_nat (length ids); fr_FirstID := head ids; fr_LastID := list.last ids;
     fr_Digest := sha256hex (String.concat newline ids) |}.

(** ** The freshness horizon *)
Definition consider (m : option Time) (t : Time) : option Time :=
  match m with
  | None => Some t
  | Some u => if Before t u then Some t else Some u
  end.

Definition severityClause (severity : string) : option GateClause :=
  if bool_decide (severity = BurnSeverityPage) then Some PageBurnFiring
  else if bool_decide (severity = BurnSeverityTicket) then Some TicketBurnFiring
  else None.

Definition considerRule (i : gateClauseInputs) (target : gateTarget) (m : option Time) (r : BurnRule)
    : option Time :=
  match severityClause (Severity r) with
  | None => m
  | Some clause =>
    if negb (Constrains (assignment (gi_policy i) clause)) then m
    else match gi_latches i !! (tg_id target, Key r) with
         | Some l => consider m (la_leaseUntil l)
         | None => m
         end
  end.

Definition factsFreshUntil (i : gateClauseInputs) : option Time :=
  let budgetConstrains := Constrains (assignment (gi_policy i) BudgetExhausted)
                          || Constrains (assignment (gi_policy i) BudgetConsumed) in
  let m := match rep_SealedThrough (gi_report i) with
           | Some sealed =>
             if budgetConstrains
             then consider None (Add sealed (mul64 (gp_MaxSealLagSeconds (gi_policy i)) Second))
             else None
           | None => None
           end in
  match gi_target i with
  | None => m
  | Some target => foldl (considerRule i target) m (dedupedRules (tg_rules target))
  end.

(** ** Assembly *)
Definition bareReason (r : GateReason) (source docs : string) : GateReasonEntry :=
  {| re_Code := CodeReason r; re_Clause := None; re_Assignment := None; re_Value := NoValue;
     re_Source := source; re_Window := ""; re_TargetID := None; re_Docs := docs |}.

(** The reasons of the governing revision and of coverage, when they are absent. *)
Definition absenceReasons (coverage : ServiceAlertingState) (governing : option GateGoverningRevision)
    : list GateReasonEntry :=
  match governing with Some _ => [] | None => [bareReason NoGoverningRevision gateSourceRevisions ""] end
  ++ match ss_EvaluatedAt (as_Live coverage) with
     | Some _ => []
     | None => [bareReason NeverEvaluated gateSourceCoverage ""]
     end.

Definition coverageState (coverage : ServiceAlertingState) : option GateCoverageState :=
  match ss_EvaluatedAt (as_Live coverage) with
  | Some _ => Some {| gc_Live := {| cs_Armed := ss_Armed (as_Live coverage); cs_Reason := ss_Reason (as_Live coverage) |};
                      gc_Burn := {| cs_Armed := ss_Armed (as_Burn coverage); cs_Reason := ss_Reason (as_Burn coverage) |} |}
  | None => None
  end.

Definition coverageLease (coverage : ServiceAlertingState) : option Time :=
  match ss_EvaluatedAt (as_Live coverage) with
  | Some _ => ss_LeaseUntil (as_Live coverage)
  | None => None
  end.

(** The override step: a BLOCK action becomes ALLOW; nothing else changes. *)
Definition applyOverride (dec : GateDecision) (action : GateAction) (override : option GateOverride)
    : GateDecision :=
  match override with
  | Some o =>
    if bool_decide (action = ActionBlock) then
      {| d_SchemaVersion := d_SchemaVersion dec; d_DecisionID := d_DecisionID dec;
         d_EvaluatedAt := d_EvaluatedAt dec; d_ServiceID := d_ServiceID dec;
         d_ServiceSlug := d_ServiceSlug dec; d_ServiceName := d_ServiceName dec;
         d_State := d_State dec; d_Action := Some ActionAllow; d_Reasons := d_Reasons dec;
         d_PolicyRevision := d_PolicyRevision dec; d_PolicySource := d_PolicySource dec;
         d_PolicyOwnerID := d_PolicyOwnerID dec; d_WindowMode := d_WindowMode dec;
         d_Window := d_Window dec; d_OverrideID := Some (ov_ID o);
         d_SealedThrough := d_SealedThrough dec; d_EvaluatedWindows := d_EvaluatedWindows dec;
         d_UnoverriddenAction := Some action; d_UnknownBehavior := d_UnknownBehavior dec;
         d_MaxSealLagSeconds := d_MaxSealLagSeconds dec; d_TargetID := d_TargetID dec;
         d_Objective := d_Objective dec; d_ObjectiveUpdatedAt := d_ObjectiveUpdatedAt dec;
         d_SealLagSeconds := d_SealLagSeconds dec; d_FactRevisions := d_FactRevisions dec;
         d_GoverningRevision := d_GoverningRevision dec; d_BurnLeases := d_BurnLeases dec;
         d_CoverageLeaseUntil := d_CoverageLeaseUntil dec; d_CoverageState := d_CoverageState dec;
         d_Override := Some {| oa_ID := ov_ID o; oa_ActorLabel := ov_ActorLabel o;
                               oa_Reason := ov_Reason o; oa_ExpiresAt := ov_ExpiresAt o |};
         d_FactsFreshUntil := d_FactsFreshUntil dec |}
    else dec
  | None => dec
  end.

Definition assembleGateDecision (dec : GateDecision) (i : gateClauseInputs)
    (override : option GateOverride) (coverage : ServiceAlertingState)
    (governing : option GateGoverningRevision) : GateDecision :=
  let policy := gi_policy i in
  let '(state, action, reasons) := DecideGateAlgebra (evaluateGateClauses i) (gp_UnknownBehavior policy) in
  let lag := SealLag (gi_report i) in
  applyOverride
    {| d_SchemaVersion := d_SchemaVersion dec; d_DecisionID := d_DecisionID dec;
       d_EvaluatedAt := d_EvaluatedAt dec; d_ServiceID := d_ServiceID dec;
       d_ServiceSlug := d_ServiceSlug dec; d_ServiceName := d_ServiceName dec;
       d_State := state; d_Action := Some action;
       d_Reasons := reasons ++ absenceReasons coverage governing;
       d_PolicyRevision := Some (gp_Revision policy); d_PolicySource := d_PolicySource dec;
       d_PolicyOwnerID := d_PolicyOwnerID dec; d_WindowMode := Some (gp_WindowMode policy);
       d_Window := Some (gp_Window policy); d_OverrideID := d_OverrideID dec;
       d_SealedThrough := match lag with Some _ => rep_SealedThrough (gi_report i) | None => d_SealedThrough dec end;
       d_EvaluatedWindows := d_EvaluatedWindows dec; d_UnoverriddenAction := d_UnoverriddenAction dec;
       d_UnknownBehavior := Some (gp_UnknownBehavior policy);
       d_MaxSealLagSeconds := Some (gp_MaxSealLagSeconds policy);
       d_TargetID := match gi_target i with Some t => Some (tg_id t) | None => d_TargetID dec end;
       d_Objective := match gi_target i with Some t => Some (tg_objective t) | None => d_Objective dec end;
       d_ObjectiveUpdatedAt :=
         match gi_target i with Some t => Some (tg_objectiveUpdatedAt t) | None => d_ObjectiveUpdatedAt dec end;
       d_SealLagSeconds := match lag with Some l => Some (Seconds l) | None => d_SealLagSeconds dec end;
       d_FactRevisions := match lag with Some _ => Some (factRevisionsOf (gi_report i)) | None => d_FactRevisions dec end;
       d_GoverningRevision := match governing with Some g => Some g | None => d_GoverningRevision dec end;
       d_BurnLeases := match gi_target i with Some _ => Some (gateBurnLeases i) | None => d_BurnLeases dec end;
       d_CoverageLeaseUntil :=
         match coverageLease coverage with Some t => Some t | None => d_CoverageLeaseUntil dec end;
       d_CoverageState := match coverageState coverage with Some s => Some s | None => d_CoverageState dec end;
       d_Override := d_Override dec; d_FactsFreshUntil := factsFreshUntil i |}
    action override.

(** ** The all-windows policy *)
Definition windowScoped (target : gateTarget) (v : GateClauseVerdict) : GateClauseVerdict :=
  {| cv_Clause := cv_Clause v; cv_Assignment := cv_Assignment v; cv_Matched := cv_Matched v;
     cv_Unavailable := cv_Unavailable v; cv_Value := cv_Value v; cv_Source := cv_Source v;
     cv_Window := tg_window target; cv_TargetID := Some (tg_id target) |}.

Definition windowScopedGateVerdicts (verdicts : list GateClauseVerdict) (target : gateTarget)
    : list GateClauseVerdict :=
  map (windowScoped target)
    (List.filter (fun v => negb (bool_decide (cv_Clause v = ServiceIncidentOpen))) verdicts).

Definition gateEvaluatedWindowOf (i : gateClauseInputs) (target : gateTarget)
    (reasons : list GateReasonEntry) : GateEvaluatedWindow :=
  let lag := SealLag (gi_report i) in
  {| ew_Window := tg_window target; ew_TargetID := Some (tg_id target);
     ew_Objective := Some (tg_objective target); ew_ObjectiveUpdatedAt := Some (tg_objectiveUpdatedAt target);
     ew_SealedThrough := match lag with Some _ => rep_SealedThrough (gi_report i) | None => None end;
     ew_SealLagSeconds := Seconds <$> lag;
     ew_FactRevisions := match lag with Some _ => Some (factRevisionsOf (gi_report i)) | None => None end;
     ew_BurnLeases := gateBurnLeases i; ew_FactsFreshUntil := factsFreshUntil i; ew_Reasons := reasons |}.

Definition allWindowsMissingObjectiveVerdicts (policy : GatePolicy) : list GateClauseVerdict :=
  map (fun c => plainVerdict c (assignment policy c) gateSourceReportBudget false (Some NoObjective) NoValue)
    (List.filter (fun c => negb (bool_decide (c = ServiceIncidentOpen)))
       (GateClausesFor (gp_SchemaVersion policy))).

(** The inputs of one target of the inventory; the incident is decided once, apart. *)
Definition windowInputs (policy : GatePolicy) (evaluatedAt : Time)
    (latches : gmap burnLatchKey burnRuleLatch) (tr : gateTarget * ServiceWindowReport) : gateClauseInputs :=
  {| gi_policy := policy; gi_evaluatedAt := evaluatedAt; gi_report := tr.2; gi_target := Some tr.1;
     gi_latches := latches; gi_incident := None |}.

Definition windowVerdicts (policy : GatePolicy) (evaluatedAt : Time)
    (latches : gmap burnLatchKey burnRuleLatch) (tr : gateTarget * ServiceWindowReport)
    : list GateClauseVerdict :=
  windowScopedGateVerdicts (evaluateGateClauses (windowInputs policy evaluatedAt latches tr)) tr.1.

Definition allWindowsVerdicts (policy : GatePolicy) (evaluatedAt : Time)
    (latches : gmap burnLatchKey burnRuleLatch) (incident : option string)
    (windows : list (gateTarget * ServiceWindowReport)) : list GateClauseVerdict :=
  flat_map (windowVerdicts policy evaluatedAt latches) windows
  ++ (match windows with [] => allWindowsMissingObjectiveVerdicts policy | _ => [] end)
  ++ [incidentVerdict ServiceIncidentOpen (assignment policy ServiceIncidentOpen) incident].

Definition evaluatedWindows (policy : GatePolicy) (evaluatedAt : Time)
    (latches : gmap burnLatchKey burnRuleLatch) (windows : list (gateTarget * ServiceWindowReport))
    : list GateEvaluatedWindow :=
  map (fun tr =>
    gateEvaluatedWindowOf (windowInputs policy evaluatedAt latches tr) tr.1
      (DecideGateAlgebra (windowVerdicts policy evaluatedAt latches tr) (gp_UnknownBehavior policy)).2)
    windows.

(** The minimum of the windows' horizons. *)
Definition allWindowsFreshUntil (inputs : list gateClauseInputs) (init : option Time) : option Time :=
  foldl (fun m i =>
    match factsFreshUntil i with
    | None => m
    | Some fresh => match m with
                    | Some u => if negb (Before fresh u) then m else Some fresh
                    | None => Some fresh
                    end
    end) init inputs.

Definition assembleAllWindowsGateDecision (dec : GateDecision) (policy : GatePolicy)
    (verdicts : list GateClauseVerdict) (evaluated : list GateEvaluatedWindow)
    (inputs : list gateClauseInputs) (override : option GateOverride) (coverage : ServiceAlertingState)
    (governing : option GateGoverningRevision) : GateDecision :=
  let '(state, action, reasons) := DecideGateAlgebra verdicts (gp_UnknownBehavior policy) in
  applyOverride
    {| d_SchemaVersion := d_SchemaVersion dec; d_DecisionID := d_DecisionID dec;
       d_EvaluatedAt := d_EvaluatedAt dec; d_ServiceID := d_ServiceID dec;
       d_ServiceSlug := d_ServiceSlug dec; d_ServiceName := d_ServiceName dec;
       d_State := state; d_Action := Some action;
       d_Reasons := reasons ++ absenceReasons coverage governing;
       d_PolicyRevision := Some (gp_Revision policy); d_PolicySource := d_PolicySource dec;
       d_PolicyOwnerID := d_PolicyOwnerID dec; d_WindowMode := Some ModeAll; d_Window := d_Window dec;
       d_OverrideID := d_OverrideID dec; d_SealedThrough := d_SealedThrough dec;
       d_EvaluatedWindows := evaluated; d_UnoverriddenAction := d_UnoverriddenAction dec;
       d_UnknownBehavior := Some (gp_UnknownBehavior policy);
       d_MaxSealLagSeconds := Some (gp_MaxSealLagSeconds policy); d_TargetID := d_TargetID dec;
       d_Objective := d_Objective dec; d_ObjectiveUpdatedAt := d_ObjectiveUpdatedAt dec;
       d_SealLagSeconds := d_SealLagSeconds dec; d_FactRevisions := d_FactRevisions dec;
       d_GoverningRevision := match governing with Some g => Some g | None => d_GoverningRevision dec end;
       d_BurnLeases := d_BurnLeases dec;
       d_CoverageLeaseUntil :=
         match coverageLease coverage with Some t => Some t | None => d_CoverageLeaseUntil dec end;
       d_CoverageState := match coverageState coverage with Some s => Some s | None => d_CoverageState dec end;
       d_Override := d_Override dec;
       d_FactsFreshUntil := allWindowsFreshUntil inputs (d_FactsFreshUntil dec) |}
    action override.

(** ** One decision transaction *)

(** Everything the transaction reads, at one snapshot: the service row, the effective
    policy, the service's overrides, the report rows, its targets in row order, the burn
    latches, the open auto-incident, the coverage and the governing revision. *)
Record GateSnapshot := {
  sn_evaluatedAt : Time;
  sn_service : option (string * string);
  sn_effective : option EffectiveGatePolicy;
  sn_overrides : list GateOverride;
  sn_rows : ReportRows;
  sn_targets : list gateTarget;
  sn_latches : gmap burnLatchKey burnRuleLatch;
  sn_incident : option string;
  sn_coverage : ServiceAlertingState;
  sn_governing : option GateGoverningRevision;
}.

Inductive GateError :=
| GateNotFound
| GateIDRange
| GateNotAnSLAWindow (name : string).

(** [ORDER BY created_at DESC, id DESC]. *)
Definition override_le (a b : GateOverride) : Prop :=
  ov_CreatedAt b < ov_CreatedAt a \/ (ov_CreatedAt a = ov_CreatedAt b /\ String.le (ov_ID b) (ov_ID a)).

#[global] Instance override_le_dec a b : Decision (override_le a b).
Proof. unfold override_le. apply _. Defined.

Definition activeGateOverrideTx (overrides : list GateOverride) (serviceID : string) (at_ : Time)
    (effective : EffectiveGatePolicy) : option GateOverride :=
  List.find (fun o =>
      bool_decide (ov_PolicySource o = eff_Source effective)
      && bool_decide (ov_PolicyOwnerID o = eff_OwnerID effective)
      && bool_decide (GateOverrideStatusAt o at_ (Some (gp_Revision (eff_Policy effective))) = OverrideActive))
    (merge_sort override_le
       (List.filter (fun o => bool_decide (ov_ServiceID o = serviceID)
                              && match ov_RevokedAt o with None => true | Some _ => false end) overrides)).

Definition gateWindowRank (name : string) : nat :=
  (fix rank (ws : list Window) : nat :=
     match ws with
     | [] => O
     | w :: rest => if bool_decide (win_Name w = name) then O else S (rank rest)
     end) StandardWindows.

Definition target_le (a b : gateTarget) : Prop := (gateWindowRank (tg_window a) <= gateWindowRank (tg_window b))%nat.

#[local] Instance target_le_dec a b : Decision (target_le a b).
Proof. unfold target_le. apply _. Defined.

(** [gateTargetsTx]: refuses a target outside the standard windows, orders by window. *)
Definition gateTargetsTx (targets : list gateTarget) : result GateError (list gateTarget) :=
  match List.find (fun t => negb (bool_decide (is_Some (WindowByName (tg_window t))))) targets with
  | Some t => Err (GateNotAnSLAWindow (tg_window t))
  | None => Ok (merge_sort target_le targets)
  end.

Definition gateTargetTx (targets : list gateTarget) (window : string) : option gateTarget :=
  List.find (fun t => bool_decide (tg_window t = window)) targets.

Definition emptyDecision (id : bytes) (evaluatedAt : Time) (serviceID slug name : string) : GateDecision :=
  {| d_SchemaVersion := 1; d_DecisionID := id; d_EvaluatedAt := evaluatedAt; d_ServiceID := Some serviceID;
     d_ServiceSlug := slug; d_ServiceName := name; d_State := NotConfigured; d_Action := None;
     d_Reasons := []; d_PolicyRevision := None; d_PolicySource := None; d_PolicyOwnerID := None;
     d_WindowMode := None; d_Window := None; d_OverrideID := None; d_SealedThrough := None;
     d_EvaluatedWindows := []; d_UnoverriddenAction := None; d_UnknownBehavior := None;
     d_MaxSealLagSeconds := None; d_TargetID := None; d_Objective := None; d_ObjectiveUpdatedAt := None;
     d_SealLagSeconds := None; d_FactRevisions := None; d_GoverningRevision := None; d_BurnLeases := None;
     d_CoverageLeaseUntil := None; d_CoverageState := None; d_Override := None; d_FactsFreshUntil := None |}.

Definition withPolicy (dec : GateDecision) (e : EffectiveGatePolicy) : GateDecision :=
  {| d_SchemaVersion := gp_SchemaVersion (eff_Policy e); d_DecisionID := d_DecisionID dec;
     d_EvaluatedAt := d_EvaluatedAt dec; d_ServiceID := d_ServiceID dec;
     d_ServiceSlug := d_ServiceSlug dec; d_ServiceName := d_ServiceName dec; d_State := d_State dec;
     d_Action := d_Action dec; d_Reasons := d_Reasons dec; d_PolicyRevision := d_PolicyRevision dec;
     d_PolicySource := Some (eff_Source e); d_PolicyOwnerID := Some (eff_OwnerID e);
     d_WindowMode := d_WindowMode dec; d_Window := d_Window dec; d_OverrideID := d_OverrideID dec;
     d_SealedThrough := d_SealedThrough dec; d_EvaluatedWindows := d_EvaluatedWindows dec;
     d_UnoverriddenAction := d_UnoverriddenAction dec; d_UnknownBehavior := d_UnknownBehavior dec;
     d_MaxSealLagSeconds := d_MaxSealLagSeconds dec; d_TargetID := d_TargetID dec;
     d_Objective := d_Objective dec; d_ObjectiveUpdatedAt := d_ObjectiveUpdatedAt dec;
     d_SealLagSeconds := d_SealLagSeconds dec; d_FactRevisions := d_FactRevisions dec;
     d_GoverningRevision := d_GoverningRevision dec; d_BurnLeases := d_BurnLeases dec;
     d_CoverageLeaseUntil := d_CoverageLeaseUntil dec; d_CoverageState := d_CoverageState dec;
     d_Override := d_Override dec; d_FactsFreshUntil := d_FactsFreshUntil dec |}.

Definition reportError (e : ReportError) : GateError :=
  match e with ReportNotFound => GateNotFound | NotAnSLAWindow n => GateNotAnSLAWindow n end.

Definition liftReport {A} (r : result ReportError A) : result GateError A :=
  match r with Ok a => Ok a | Err e => Err (reportError e) end.

Definition windowTargetOf (t : gateTarget) : windowTarget :=
  {| wt_window := tg_window t; wt_objective := tg_objective t;
     wt_objectiveUpdatedAt := tg_objectiveUpdatedAt t |}.

Definition decideAllWindowsGateTx (sn : GateSnapshot) (projectID serviceID : string)
    (dec : GateDecision) (e : EffectiveGatePolicy) : result GateError GateDecision :=
  let policy := eff_Policy e in
  let override := activeGateOverrideTx (sn_overrides sn) serviceID (sn_evaluatedAt sn) e in
  let! targets := gateTargetsTx (sn_targets sn) in
  let! reports := liftReport (gateAllWindowReportsTx (sn_rows sn) projectID serviceID
                                (map windowTargetOf targets) (sn_evaluatedAt sn)) in
  let windows := combine targets reports in
  Ok (assembleAllWindowsGateDecision dec policy
        (allWindowsVerdicts policy (sn_evaluatedAt sn) (sn_latches sn) (sn_incident sn) windows)
        (evaluatedWindows policy (sn_evaluatedAt sn) (sn_latches sn) windows)
        (map (windowInputs policy (sn_evaluatedAt sn) (sn_latches sn)) windows)
        override (sn_coverage sn) (sn_governing sn)).

(** [decideGateOnce] up to the ledger insert, from its snapshot and the random bytes of
    the identifier. *)
Definition decideGateOnce (sn : GateSnapshot) (random : bytes) (projectID serviceID : string)
    : result GateError GateDecision :=
  match sn_service sn with
  | None => Err GateNotFound
  | Some (slug, name) =>
    match newGateDecisionID random (sn_evaluatedAt sn) with
    | None => Err GateIDRange
    | Some id =>
      let dec := emptyDecision id (sn_evaluatedAt sn) serviceID slug name in
      match sn_effective sn with
      | None =>
        Ok {| d_SchemaVersion := 1; d_DecisionID := id; d_EvaluatedAt := sn_evaluatedAt sn;
              d_ServiceID := Some serviceID; d_ServiceSlug := slug; d_ServiceName := name;
              d_State := NotConfigured; d_Action := None;
              d_Reasons := [bareReason ReasonNotConfigured "" GateDocsURL]; d_PolicyRevision := None;
              d_PolicySource := None; d_PolicyOwnerID := None; d_WindowMode := None; d_Window := None;
              d_OverrideID := None; d_SealedThrough := None; d_EvaluatedWindows := [];
              d_UnoverriddenAction := None; d_UnknownBehavior := None; d_MaxSealLagSeconds := None;
              d_TargetID := None; d_Objective := None; d_ObjectiveUpdatedAt := None;
              d_SealLagSeconds := None; d_FactRevisions := None; d_GoverningRevision := None;
              d_BurnLeases := None; d_CoverageLeaseUntil := None; d_CoverageState := None;
              d_Override := None; d_FactsFreshUntil := None |}
      | Some e =>
        let policy := eff_Policy e in
        let dec := withPolicy dec e in
        if (gp_SchemaVersion policy =? GatePolicySchemaV2) && bool_decide (gp_WindowMode policy = ModeAll)
        then decideAllWindowsGateTx sn projectID serviceID dec e
        else
          match WindowByName (gp_Window policy) with
          | None => Err (GateNotAnSLAWindow (gp_Window policy))
          | Some window =>
            let override := activeGateOverrideTx (sn_overrides sn) serviceID (sn_evaluatedAt sn) e in
            let! report := liftReport (serviceReliabilityReportTx (sn_rows sn) projectID serviceID
                                         window (sn_evaluatedAt sn)) in
            let i := {| gi_policy := policy; gi_evaluatedAt := sn_evaluatedAt sn; gi_report := report;
                        gi_target := gateTargetTx (sn_targets sn) (gp_Window policy);
                        gi_latches := sn_latches sn; gi_incident := sn_incident sn |} in
            Ok (assembleGateDecision dec i override (sn_coverage sn) (sn_governing sn))
          end
      end
    end
  end.
End decision.

(** ** What an override may change *)

(** The decision with its override fields cleared and its action restored. *)
Definition withoutOverride (dec : GateDecision) : GateDecision :=
  {| d_SchemaVersion := d_SchemaVersion dec; d_DecisionID := d_DecisionID dec;
     d_EvaluatedAt := d_EvaluatedAt dec; d_ServiceID := d_ServiceID dec;
     d_ServiceSlug := d_ServiceSlug dec; d_ServiceName := d_ServiceName dec; d_State := d_State dec;
     d_Action := match d_UnoverriddenAction dec with Some a => Some a | None => d_Action dec end;
     d_Reasons := d_Reasons dec; d_PolicyRevision := d_PolicyRevision dec;
     d_PolicySource := d_PolicySource dec; d_PolicyOwnerID := d_PolicyOwnerID dec;
     d_WindowMode := d_WindowMode dec; d_Window := d_Window dec; d_OverrideID := None;
     d_SealedThrough := d_SealedThrough dec; d_EvaluatedWindows := d_EvaluatedWindows dec;
     d_UnoverriddenAction := None; d_UnknownBehavior := d_UnknownBehavior dec;
     d_MaxSealLagSeconds := d_MaxSealLagSeconds dec; d_TargetID := d_TargetID dec;
     d_Objective := d_Objective dec; d_ObjectiveUpdatedAt := d_ObjectiveUpdatedAt dec;
     d_SealLagSeconds := d_SealLagSeconds dec; d_FactRevisions := d_FactRevisions dec;
     d_GoverningRevision := d_GoverningRevision dec; d_BurnLeases := d_BurnLeases dec;
     d_CoverageLeaseUntil := d_CoverageLeaseUntil dec; d_CoverageState := d_CoverageState dec;
     d_Override := None; d_FactsFreshUntil := d_FactsFreshUntil dec |}.

(** an override changes only the action: whatever snapshot is decided, the decision
    taken with the service's overrides is, once its override fields are cleared and the
    recorded unoverridden action restored, exactly the decision the same snapshot gives
    with no override at all (same state, reasons and evidence); and an override is recorded
    exactly when the recorded unoverridden action is BLOCK, and then the action is ALLOW. *)
Theorem override_changes_only_action FormatFloat sha256hex sn random projectID serviceID dec
  (Hdec : decideGateOnce FormatFloat sha256hex sn random projectID serviceID = Ok dec) :
  let bare := {| sn_evaluatedAt := sn_evaluatedAt sn; sn_service := sn_service sn;
                 sn_effective := sn_effective sn; sn_overrides := []; sn_rows := sn_rows sn;
                 sn_targets := sn_targets sn; sn_latches := sn_latches sn;
                 sn_incident := sn_incident sn; sn_coverage := sn_coverage sn;
                 sn_governing := sn_governing sn |} in
  decideGateOnce FormatFloat sha256hex bare random projectID serviceID = Ok (withoutOverride dec) /\
  (is_Some (d_Override dec) <-> d_UnoverriddenAction dec = Some ActionBlock) /\
  (is_Some (d_Override dec) -> d_Action dec = Some ActionAllow).
Proof.
  assert (forall base action o,
    d_Action base = Some action -> d_UnoverriddenAction base = None -> d_OverrideID base = None ->
    d_Override base = None ->
    let d := applyOverride base action o in
    applyOverride base action None = withoutOverride d /\
    (is_Some (d_Override d) <-> d_UnoverriddenAction d = Some ActionBlock) /\
    (is_Some (d_Override d) -> d_Action d = Some ActionAllow)) as Happ.
  { intros base action o Ha Hu Hi Ho. destruct base. cbn in *. subst. cbv zeta. unfold applyOverride.
    destruct o as [o|]; [case_bool_decide as Hb|]; cbn.
    - subst. split_and!; (reflexivity || done).
    - split; [reflexivity|]. split; [split; [by intros []|done]|by intros []].
    - split; [reflexivity|]. split; [split; [by intros []|done]|by intros []]. }
  cbv zeta. unfold decideGateOnce in *. cbn [sn_service sn_evaluatedAt sn_effective sn_rows sn_targets
    sn_latches sn_incident sn_coverage sn_governing sn_overrides] in *.
  destruct (sn_service sn) as [[slug name]|]; [|done].
  destruct (newGateDecisionID random (sn_evaluatedAt sn)) as [id|]; [|done].
  destruct (sn_effective sn) as [e|].
  2:{ injection Hdec as <-. cbn. split; [reflexivity|]. split; [split; [by intros []|done]|by intros []]. }
  assert (forall at_, activeGateOverrideTx [] serviceID at_ e = None) as Hnone by done.
  destruct (_ && _).
  - unfold decideAllWindowsGateTx in *. cbn [sn_service sn_evaluatedAt sn_effective sn_rows sn_targets
      sn_latches sn_incident sn_coverage sn_governing sn_overrides] in *.
    destruct (gateTargetsTx (sn_targets sn)) as [targets|]; [cbn [rbind] in *|done].
    destruct (liftReport _) as [reports|]; [cbn [rbind] in *|done].
    injection Hdec as <-. rewrite Hnone. unfold assembleAllWindowsGateDecision.
    destruct (DecideGateAlgebra _ _) as [[state action] reasons].
    match goal with |- context [applyOverride ?b _ None] =>
      destruct (Happ b action (activeGateOverrideTx (sn_overrides sn) serviceID (sn_evaluatedAt sn) e)
                  eq_refl eq_refl eq_refl eq_refl) as (H1 & H2 & H3) end.
    split; [by rewrite H1|done].
  - destruct (WindowByName _) as [w|]; [|done].
    destruct (liftReport _) as [report|]; [cbn [rbind] in *|done].
    injection Hdec as <-. rewrite Hnone. unfold assembleGateDecision.
    destruct (DecideGateAlgebra _ _) as [[state action] reasons].
    match goal with |- context [applyOverride ?b _ None] =>
      destruct (Happ b action (activeGateOverrideTx (sn_overrides sn) serviceID (sn_evaluatedAt sn) e)
                  eq_refl eq_refl eq_refl eq_refl) as (H1 & H2 & H3) end.
    split; [by rewrite H1|done].
Qed.

(** ** The freshness horizon *)

(** The same facts read at a later instant. *)
Definition atInstant (i : gateClauseInputs) (t : Time) : gateClauseInputs :=
  {| gi_policy := gi_policy i; gi_evaluatedAt := t;
     gi_report :=
       let r := gi_report i in
       {| rep_ServiceID := rep_ServiceID r; rep_Window := rep_Window r; rep_AsOf := t;
          rep_SealedThrough := rep_SealedThrough r; rep_From := rep_From r; rep_To := rep_To r;
          rep_Status := rep_Status r; rep_Reason := rep_Reason r;
          rep_StorageContinuity := rep_StorageContinuity r; rep_ExpectedBuckets := rep_ExpectedBuckets r;
          rep_SealedBuckets := rep_SealedBuckets r; rep_Coverage := rep_Coverage r;
          rep_Durations := rep_Durations r; rep_Availability := rep_Availability r;
          rep_AggregateWithheld := rep_AggregateWithheld r; rep_Objective := rep_Objective r;
          rep_ObjectiveUpdatedAt := rep_ObjectiveUpdatedAt r; rep_Budget := rep_Budget r;
          rep_Burn := rep_Burn r; rep_Segments := rep_Segments r; rep_Repairing := rep_Repairing r;
          rep_RetractedAt := rep_RetractedAt r; rep_RetractedTo := rep_RetractedTo r |};
     gi_target := gi_target i; gi_latches := gi_latches i; gi_incident := gi_incident i |}.

(** State and action read only the verdicts of constraining clauses. *)
Lemma algebra_pointwise vs1 vs2 ub :
  Forall2 (fun v1 v2 => v1 = v2 \/ (Constrains (cv_Assignment v1) = false /\
                                    Constrains (cv_Assignment v2) = false)) vs1 vs2 ->
  (DecideGateAlgebra vs1 ub).1 = (DecideGateAlgebra vs2 ub).1.
Proof.
  intros HF. unfold DecideGateAlgebra.
  destruct (algebra_fold vs1) as (-> & -> & -> & _), (algebra_fold vs2) as (-> & -> & -> & _).
  cbv zeta.
  assert (existsb (fun v => isMatch v && assigned AssignBlock v) vs1
          = existsb (fun v => isMatch v && assigned AssignBlock v) vs2 /\
          existsb (fun v => isUnavailable v && Constrains (cv_Assignment v)) vs1
          = existsb (fun v => isUnavailable v && Constrains (cv_Assignment v)) vs2 /\
          existsb (fun v => isMatch v && assigned AssignWarn v) vs1
          = existsb (fun v => isMatch v && assigned AssignWarn v) vs2) as (-> & -> & ->).
  { induction HF as [|v1 v2 l1 l2 [->|[H1 H2]] _ (IH1 & IH2 & IH3)]; [done|..]; cbn; rewrite IH1, IH2, IH3;
      [done|]. unfold assigned. rewrite H1, H2. unfold Constrains in H1, H2.
    apply orb_false_iff in H1 as [-> ->]. apply orb_false_iff in H2 as [-> ->].
    by rewrite !andb_false_r. }
  destruct (existsb _ vs2); [done|]. destruct (existsb _ vs2); [done|]. by destruct (existsb _ vs2).
Qed.

Section horizon.
Context (FormatFloat : float64 -> string) (i : gateClauseInputs).
Notation Key := (Key FormatFloat).

Definition lower (m : option Time) (x : Time) : Prop := exists h, m = Some h /\ h <= x.

Lemma consider_lower m x : lower (consider m x) x /\ (forall y, lower m y -> lower (consider m x) y).
Proof.
  unfold lower, consider, Before. destruct m as [u|].
  - destruct (Z.ltb_spec x u); split.
    + eexists; split; [done|lia].
    + intros y (h & [= <-] & Hy). eexists; split; [done|lia].
    + eexists; split; [done|lia].
    + intros y Hy. done.
  - split; [eexists; split; [done|lia]|]. by intros y (h & ? & _).
Qed.

Lemma considerRule_mono target m r y : lower m y -> lower (considerRule FormatFloat i target m r) y.
Proof.
  unfold considerRule. destruct (severityClause _); [|done]. destruct (negb _); [done|].
  destruct (_ !! _); [|done]. apply consider_lower.
Qed.

Lemma considerRules_mono target rs m y :
  lower m y -> lower (foldl (considerRule FormatFloat i target) m rs) y.
Proof.
  revert m. induction rs as [|r rs IH]; intros m Hm; cbn; [done|]. by apply IH, considerRule_mono.
Qed.

Lemma considerRules_lower target rs m r c l :
  r ∈ rs -> severityClause (Severity r) = Some c ->
  Constrains (assignment (gi_policy i) c) = true ->
  gi_latches i !! (tg_id target, Key r) = Some l ->
  lower (foldl (considerRule FormatFloat i target) m rs) (la_leaseUntil l).
Proof.
  intros Hr Hc Ha Hl. revert m. induction rs as [|r' rs IH]; intros m; [set_solver|]. cbn.
  apply elem_of_cons in Hr as [<-|Hr]; [|by apply IH].
  apply considerRules_mono. unfold considerRule. rewrite Hc, Ha, Hl. cbn [negb].
  apply (proj1 (consider_lower m (la_leaseUntil l))).
Qed.

Lemma horizon_seal sealed :
  rep_SealedThrough (gi_report i) = Some sealed ->
  Constrains (assignment (gi_policy i) BudgetExhausted)
    || Constrains (assignment (gi_policy i) BudgetConsumed) = true ->
  lower (factsFreshUntil FormatFloat i) (sealed + mul64 (gp_MaxSealLagSeconds (gi_policy i)) Second).
Proof.
  intros Hs Hc. unfold factsFreshUntil. rewrite Hs, Hc.
  assert (lower (consider None (Add sealed (mul64 (gp_MaxSealLagSeconds (gi_policy i)) Second)))
            (sealed + mul64 (gp_MaxSealLagSeconds (gi_policy i)) Second)) as H
    by (apply (proj1 (consider_lower None _))).
  destruct (gi_target i); [|done]. by apply considerRules_mono.
Qed.

Lemma horizon_lease target r c l :
  gi_target i = Some target -> r ∈ dedupedRules FormatFloat (tg_rules target) ->
  severityClause (Severity r) = Some c -> Constrains (assignment (gi_policy i) c) = true ->
  gi_latches i !! (tg_id target, Key r) = Some l ->
  lower (factsFreshUntil FormatFloat i) (la_leaseUntil l).
Proof.
  intros Ht Hr Hc Ha Hl. unfold factsFreshUntil. rewrite Ht. by eapply considerRules_lower.
Qed.

Context (t : Time).
Hypothesis Hlag : 0 <= gp_MaxSealLagSeconds (gi_policy i) <= 86400.
Hypothesis Hasof : rep_AsOf (gi_report i) = gi_evaluatedAt i.
Hypothesis Hlater : gi_evaluatedAt i <= t.
Hypothesis Hfresh : forall h, factsFreshUntil FormatFloat i = Some h -> t < h.

Lemma lower_fresh x : lower (factsFreshUntil FormatFloat i) x -> t < x.
Proof. intros (h & Hh & Hx). specialize (Hfresh h Hh). lia. Qed.

Lemma Sub_gt a b L : int64_min <= L < int64_max -> (L <? Sub a b) = (L <? a - b).
Proof.
  intros HL. unfold Sub, int64_min, int64_max in *.
  destruct (Z.ltb_spec (a - b) (- 2 ^ 63)), (Z.ltb_spec (2 ^ 63 - 1) (a - b));
    repeat match goal with |- context [?x <? ?y] => destruct (Z.ltb_spec x y) end; (done || lia).
Qed.

Lemma budgetVerdict_fresh c a threshold :
  Constrains (assignment (gi_policy i) BudgetExhausted)
    || Constrains (assignment (gi_policy i) BudgetConsumed) = true ->
  budgetVerdict (atInstant i t) c a threshold = budgetVerdict i c a threshold.
Proof.
  intros Hc. unfold budgetVerdict, SealLag. cbn [atInstant gi_target gi_report rep_SealedThrough rep_AsOf
    gi_policy rep_Budget].
  destruct (gi_target i) as [target|]; [|done].
  destruct (rep_SealedThrough (gi_report i)) as [sealed|] eqn:Es; [|done].
  pose proof (lower_fresh _ (horizon_seal sealed Es Hc)) as Ht.
  assert (mul64 (gp_MaxSealLagSeconds (gi_policy i)) Second
          = gp_MaxSealLagSeconds (gi_policy i) * Second) as Hm.
  { unfold mul64. apply wrap64_id. unfold int64_min, int64_max, Second. lia. }
  rewrite Hm in *. rewrite !Sub_gt by (unfold int64_min, int64_max, Second; lia). rewrite Hasof.
  destruct (Z.ltb_spec (gp_MaxSealLagSeconds (gi_policy i) * Second) (t - sealed)),
    (Z.ltb_spec (gp_MaxSealLagSeconds (gi_policy i) * Second) (gi_evaluatedAt i - sealed)); (done || lia).
Qed.

Lemma burnVerdict_fresh c a severity clause :
  severityClause severity = Some clause -> Constrains (assignment (gi_policy i) clause) = true ->
  burnVerdict FormatFloat (atInstant i t) c a severity = burnVerdict FormatFloat i c a severity.
Proof.
  intros Hsev Hc. unfold burnVerdict. cbn [atInstant gi_target].
  destruct (gi_target i) as [target|] eqn:Et; [|done].
  assert (forall rs acc, (forall r, r ∈ rs -> r ∈ dedupedRules FormatFloat (tg_rules target)) ->
    foldl (burnStep FormatFloat (atInstant i t) target severity) acc rs
    = foldl (burnStep FormatFloat i target severity) acc rs) as ->; [|done|done].
  induction rs as [|r rs IH]; intros acc Hsub; cbn [foldl]; [done|].
  assert (burnStep FormatFloat (atInstant i t) target severity acc r
          = burnStep FormatFloat i target severity acc r) as ->; [|apply IH; set_solver].
  unfold burnStep. cbn [atInstant gi_latches gi_evaluatedAt]. destruct acc as [firing stale].
  case_bool_decide as Hs; [|done]. cbn [negb].
  destruct (gi_latches i !! (tg_id target, Key r)) as [l|] eqn:El; [|done].
  rewrite <- Hs in Hsev.
  pose proof (lower_fresh _ (horizon_lease target r clause l Et (Hsub r ltac:(set_solver)) Hsev Hc El)).
  unfold latchFresh, Before.
  destruct (Z.ltb_spec t (la_leaseUntil l)), (Z.ltb_spec (gi_evaluatedAt i) (la_leaseUntil l)); (done || lia).
Qed.

Lemma evaluateClause_fresh c v1 v2 :
  evaluateClause FormatFloat (atInstant i t) c = Some v1 -> evaluateClause FormatFloat i c = Some v2 ->
  v1 = v2 \/ (Constrains (cv_Assignment v1) = false /\ Constrains (cv_Assignment v2) = false).
Proof.
  assert (forall j c a th, cv_Assignment (budgetVerdict j c a th) = a) as Hba.
  { intros j c' a th. unfold budgetVerdict. break_goal; done. }
  assert (forall j c a s, cv_Assignment (burnVerdict FormatFloat j c a s) = a) as Hua.
  { intros j c' a s. unfold burnVerdict. break_goal; done. }
  unfold evaluateClause. cbn [atInstant gi_policy gi_incident].
  destruct c; intros [= <-] [= <-]; rewrite ?Hba, ?Hua.
  - destruct (Constrains (assignment (gi_policy i) BudgetExhausted)) eqn:E; [left|by right].
    apply budgetVerdict_fresh. by rewrite E.
  - destruct (Constrains (assignment (gi_policy i) BudgetConsumed)) eqn:E; [left|by right].
    apply budgetVerdict_fresh. by rewrite E, orb_true_r.
  - destruct (Constrains (assignment (gi_policy i) PageBurnFiring)) eqn:E; [left|by right].
    by eapply burnVerdict_fresh.
  - destruct (Constrains (assignment (gi_policy i) TicketBurnFiring)) eqn:E; [left|by right].
    by eapply burnVerdict_fresh.
  - by left.
Qed.
End horizon.

(** C33: the freshness horizon is sound: at every instant from the evaluation up to (and not
    including) [facts_fresh_until], re-reading the same facts gives the same state and the
    same action: no constraining seal lag or burn lease can expire before the horizon, and
    when there is no horizon nothing constraining ever expires. *)
Theorem facts_fresh_until_sound FormatFloat i t
  (Hlag : 0 <= gp_MaxSealLagSeconds (gi_policy i) <= 86400)
  (Hasof : rep_AsOf (gi_report i) = gi_evaluatedAt i)
  (Hlater : gi_evaluatedAt i <= t)
  (Hfresh : forall h, factsFreshUntil FormatFloat i = Some h -> t < h) :
  (DecideGateAlgebra (evaluateGateClauses FormatFloat (atInstant i t)) (gp_UnknownBehavior (gi_policy i))).1
  = (DecideGateAlgebra (evaluateGateClauses FormatFloat i) (gp_UnknownBehavior (gi_policy i))).1.
Proof.
  apply algebra_pointwise. unfold evaluateGateClauses. cbn [atInstant gi_policy].
  induction (GateClausesFor (gp_SchemaVersion (gi_policy i))) as [|c cs IH]; [constructor|].
  cbn [omap list_omap].
  destruct (evaluateClause FormatFloat (atInstant i t) c) as [v1|] eqn:E1,
    (evaluateClause FormatFloat i c) as [v2|] eqn:E2.
  - constructor; [|exact IH]. by eapply evaluateClause_fresh.
  - by destruct c.
  - by destruct c.
  - exact IH.
Qed.

(** ** What an ALLOW rests on *)
Section clearance.
Context (FormatFloat : float64 -> string).
Notation Key := (Key FormatFloat).

(** A target exists, the seal is within the policy's lag, and the quoted budget is below
    the threshold. *)
Definition budgetBelow (i : gateClauseInputs) (threshold : float64) : Prop :=
  exists t lag b, gi_target i = Some t /\ SealLag (gi_report i) = Some lag /\
    lag <= mul64 (gp_MaxSealLagSeconds (gi_policy i)) Second /\
    rep_Budget (gi_report i) = Some b /\ fge (sb_BurnedPercent b) threshold = false.

(** A target exists and each of its rules of the severity has an unexpired latch that is
    not firing. *)
Definition burnQuiet (i : gateClauseInputs) (severity : string) : Prop :=
  exists t, gi_target i = Some t /\
    forall r, r ∈ dedupedRules FormatFloat (tg_rules t) -> Severity r = severity ->
      exists l, gi_latches i !! (tg_id t, Key r) = Some l /\
        gi_evaluatedAt i < la_leaseUntil l /\ la_firing l = false.

Definition clauseClear (i : gateClauseInputs) (c : GateClause) : Prop :=
  match c with
  | BudgetExhausted => budgetBelow i (fofZ 100)
  | BudgetConsumed => budgetBelow i (fofZ (gp_BudgetConsumedPercent (gi_policy i)))
  | PageBurnFiring => burnQuiet i BurnSeverityPage
  | TicketBurnFiring => burnQuiet i BurnSeverityTicket
  | ServiceIncidentOpen => gi_incident i = None
  | ClauseOther _ => True
  end.

Definition inputsClear (i : gateClauseInputs) : Prop :=
  forall c, c ∈ GateClausesFor (gp_SchemaVersion (gi_policy i)) ->
    Constrains (assignment (gi_policy i) c) = true -> clauseClear i c.

Definition clear (v : GateClauseVerdict) : Prop := isUnavailable v = false /\ cv_Matched v = false.

Lemma budgetVerdict_clear i c a threshold :
  clear (budgetVerdict i c a threshold) <-> budgetBelow i threshold.
Proof.
  unfold clear, budgetVerdict, budgetBelow, isUnavailable.
  destruct (gi_target i) as [t|]; cbn; [|by split; [intros []|intros (? & ? & ? & ? & _)]].
  destruct (SealLag _) as [lag|]; cbn; [|by split; [intros []|intros (? & ? & ? & _ & ? & _)]].
  destruct (Z.ltb_spec (mul64 (gp_MaxSealLagSeconds (gi_policy i)) Second) lag); cbn.
  { split; [by intros []|]. intros (? & ? & ? & _ & [= <-] & ? & _). lia. }
  destruct (rep_Budget _) as [b|]; cbn; [|by split; [intros []|intros (? & ? & ? & _ & _ & _ & ? & _)]].
  split; [intros [_ Hf]; by eexists _, _, _|]. by intros (? & ? & ? & _ & _ & _ & [= <-] & Hf).
Qed.

Lemma burnSteps_quiet i t severity rs firing stale :
  foldl (burnStep FormatFloat i t severity) (firing, stale) rs = ([], false) <->
  firing = [] /\ stale = false /\
  forall r, r ∈ rs -> Severity r = severity ->
    exists l, gi_latches i !! (tg_id t, Key r) = Some l /\
      gi_evaluatedAt i < la_leaseUntil l /\ la_firing l = false.
Proof.
  revert firing stale. induction rs as [|r rs IH]; intros firing stale; cbn [foldl].
  { split; [intros [= -> ->]|intros (-> & -> & _); done]. split_and!; [done..|set_solver]. }
  unfold burnStep at 2. case_bool_decide as Hs; cbn [negb].
  2:{ rewrite IH. setoid_rewrite elem_of_cons. naive_solver. }
  destruct (gi_latches i !! (tg_id t, Key r)) as [l|] eqn:El.
  2:{ rewrite IH. split; [by intros (_ & ? & _)|]. intros (_ & _ & H). destruct (H r ltac:(set_solver) Hs) as (? & ? & _). congruence. }
  unfold latchFresh, Before. destruct (Z.ltb_spec (gi_evaluatedAt i) (la_leaseUntil l)); cbn [negb].
  2:{ rewrite IH. split; [by intros (_ & ? & _)|]. intros (_ & _ & H').
      destruct (H' r ltac:(set_solver) Hs) as (l' & ? & ? & _). simplify_eq. lia. }
  destruct (la_firing l) eqn:Ef; rewrite IH; setoid_rewrite elem_of_cons.
  - split; [by intros (?%eq_sym%app_cons_not_nil & _)|]. intros (_ & _ & H').
    destruct (H' r (or_introl eq_refl) Hs) as (l' & ? & _ & ?). congruence.
  - split; [|naive_solver]. intros (-> & -> & H'). split_and!; [done..|].
    intros r' [->|Hr'] Hs'; [by exists l|by apply H'].
Qed.

Lemma burnVerdict_clear i c a severity :
  clear (burnVerdict FormatFloat i c a severity) <-> burnQuiet i severity.
Proof.
  unfold clear, burnVerdict, burnQuiet, isUnavailable.
  destruct (gi_target i) as [t|]; [|cbn; by split; [intros []|intros (? & ? & _)]].
  pose proof (burnSteps_quiet i t severity (dedupedRules FormatFloat (tg_rules t)) [] false) as Hq.
  destruct (foldl _ _ _) as [firing stale]. split.
  - intros [Hu Hm]. exists t. split; [done|]. apply Hq.
    destruct firing; [|done]. by destruct stale.
  - intros (t' & [= <-] & H). assert ((firing, stale) = ([], false)) as [= -> ->] by by apply Hq. done.
Qed.

Lemma incidentVerdict_clear c a incident : clear (incidentVerdict c a incident) <-> incident = None.
Proof. unfold clear, incidentVerdict, isUnavailable. destruct incident; cbn; naive_solver. Qed.

Lemma evaluateClause_clear i c v :
  evaluateClause FormatFloat i c = Some v ->
  cv_Clause v = c /\ cv_Assignment v = assignment (gi_policy i) c /\ (clear v <-> clauseClear i c).
Proof.
  unfold evaluateClause. destruct c; intros [= <-]; cbn [clauseClear].
  1, 2: split; [by unfold budgetVerdict; break_goal|]; split; [by unfold budgetVerdict; break_goal|].
  1, 2: apply budgetVerdict_clear.
  1, 2: split; [by unfold burnVerdict; break_goal|]; split; [by unfold burnVerdict; break_goal|].
  1, 2: apply burnVerdict_clear.
  split; [by unfold incidentVerdict; break_goal|]; split; [by unfold incidentVerdict; break_goal|].
  apply incidentVerdict_clear.
Qed.

Lemma evaluateGateClauses_quiet i :
  Forall quiet (evaluateGateClauses FormatFloat i) <-> inputsClear i.
Proof.
  unfold evaluateGateClauses, inputsClear. rewrite list.Forall_forall. setoid_rewrite list_elem_of_omap. split.
  - intros H c Hc Ha. destruct (evaluateClause FormatFloat i c) as [v|] eqn:E; [|by destruct c].
    destruct (evaluateClause_clear i c v E) as (_ & Hva & Hcl). apply Hcl. apply H; [by exists c|by rewrite Hva].
  - intros H v (c & Hc & E) Ha. destruct (evaluateClause_clear i c v E) as (_ & Hva & Hcl).
    apply Hcl, H; [done|by rewrite <- Hva].
Qed.

(** The windows of an all-windows decision: one per target, or none. *)
Definition windowsClear (policy : GatePolicy) (evaluatedAt : Time)
    (latches : gmap burnLatchKey burnRuleLatch) (windows : list (gateTarget * ServiceWindowReport)) : Prop :=
  (forall c, c ∈ GateClausesFor (gp_SchemaVersion policy) -> c <> ServiceIncidentOpen ->
     Constrains (assignment policy c) = true -> windows <> []) /\
  (forall tr, tr ∈ windows -> inputsClear (windowInputs policy evaluatedAt latches tr)).

Lemma windowVerdicts_quiet policy evaluatedAt latches tr :
  Forall quiet (windowVerdicts FormatFloat policy evaluatedAt latches tr) <->
  inputsClear (windowInputs policy evaluatedAt latches tr).
Proof.
  rewrite <- evaluateGateClauses_quiet. unfold windowVerdicts, windowScopedGateVerdicts.
  rewrite !list.Forall_forall. setoid_rewrite list_elem_of_In.
  split; intros H v Hv.
  - destruct (decide (cv_Clause v = ServiceIncidentOpen)) as [Hi|Hi].
    + intros _. apply list_elem_of_In, list_elem_of_omap in Hv as (c & _ & E).
      destruct (evaluateClause_clear _ c v E) as (Hc & _ & Hcl). rewrite Hi in Hc. subst c. by apply Hcl.
    + specialize (H (windowScoped tr.1 v)). unfold quiet, isUnavailable in *.
      apply H. apply in_map, filter_In. split; [done|by rewrite bool_decide_eq_false_2].
  - apply in_map_iff in Hv as (v' & <- & Hv'). apply filter_In in Hv' as [Hv' _].
    specialize (H v' Hv'). by destruct v'.
Qed.

Lemma missingObjective_quiet policy :
  Forall quiet (allWindowsMissingObjectiveVerdicts policy) <->
  forall c, c ∈ GateClausesFor (gp_SchemaVersion policy) -> c <> ServiceIncidentOpen ->
    Constrains (assignment policy c) = true -> False.
Proof.
  unfold allWindowsMissingObjectiveVerdicts. rewrite Forall_map, list.Forall_forall. split.
  - intros H c Hc Hi Ha. destruct (H c); [|done..]. apply list_elem_of_In, filter_In.
    split; [by apply list_elem_of_In|]. by rewrite bool_decide_eq_false_2.
  - intros H c Hc Ha. apply list_elem_of_In, filter_In in Hc as [Hc Hi].
    destruct (H c); [by apply list_elem_of_In| |done]. intros ->. by rewrite bool_decide_eq_true_2 in Hi.
Qed.

Lemma allWindowsVerdicts_quiet policy evaluatedAt latches incident windows :
  Forall quiet (allWindowsVerdicts FormatFloat policy evaluatedAt latches incident windows) <->
  windowsClear policy evaluatedAt latches windows /\
  (Constrains (assignment policy ServiceIncidentOpen) = true -> incident = None).
Proof.
  unfold allWindowsVerdicts, windowsClear. rewrite app_assoc, !list.Forall_app, list.Forall_singleton. f_equiv.
  - destruct windows as [|tr0 ws] eqn:Ew; [rewrite missingObjective_quiet|].
    + split; [intros [_ H]; split; [intros c Hc Hi Ha; by destruct (H c)|set_solver]|].
      intros [H _]. split; [constructor|]. intros c Hc Hi Ha. by destruct (H c).
    + rewrite <- Ew. split.
      * intros [H _]. split; [by subst|]. intros tr Htr. apply windowVerdicts_quiet.
        rewrite list.Forall_forall in *. intros v Hv. apply H. apply list_elem_of_In, in_flat_map.
        exists tr. by rewrite <- !list_elem_of_In.
      * intros [_ H]. split; [|constructor]. apply list.Forall_forall. intros v Hv.
        apply list_elem_of_In, in_flat_map in Hv as (tr & Htr%list_elem_of_In & Hv%list_elem_of_In).
        specialize (H tr Htr). apply windowVerdicts_quiet in H. rewrite list.Forall_forall in H. by apply H.
  - unfold quiet. rewrite <- (incidentVerdict_clear ServiceIncidentOpen (assignment policy ServiceIncidentOpen)).
    assert (cv_Assignment (incidentVerdict ServiceIncidentOpen (assignment policy ServiceIncidentOpen) incident)
            = assignment policy ServiceIncidentOpen) as -> by by destruct incident. done.
Qed.
End clearance.

Lemma applyOverride_bare dec action o :
  d_Action dec = Some action -> d_Override (applyOverride dec action o) = None ->
  d_Action (applyOverride dec action o) = Some action.
Proof. intros Ha. unfold applyOverride. destruct o; [case_bool_decide|]; done. Qed.

(** The decision of a configured service, before its override: what each kind of policy
    has to find clear. *)
Definition snapshotClear FormatFloat (sn : GateSnapshot) (projectID serviceID : string)
    (e : EffectiveGatePolicy) : Prop :=
  let policy := eff_Policy e in
  if (gp_SchemaVersion policy =? GatePolicySchemaV2) && bool_decide (gp_WindowMode policy = ModeAll) then
    exists targets reports,
      gateTargetsTx (sn_targets sn) = Ok targets /\
      gateAllWindowReportsTx (sn_rows sn) projectID serviceID (map windowTargetOf targets) (sn_evaluatedAt sn)
      = Ok reports /\
      windowsClear FormatFloat policy (sn_evaluatedAt sn) (sn_latches sn) (combine targets reports) /\
      (Constrains (assignment policy ServiceIncidentOpen) = true -> sn_incident sn = None)
  else
    exists window report,
      WindowByName (gp_Window policy) = Some window /\
      serviceReliabilityReportTx (sn_rows sn) projectID serviceID window (sn_evaluatedAt sn) = Ok report /\
      inputsClear FormatFloat
        {| gi_policy := policy; gi_evaluatedAt := sn_evaluatedAt sn; gi_report := report;
           gi_target := gateTargetTx (sn_targets sn) (gp_Window policy);
           gi_latches := sn_latches sn; gi_incident := sn_incident sn |}.

(** C9: what an ALLOW rests on. A decision on which no override was used is ALLOW exactly
    when every constraining clause of the policy is positively clear at the snapshot: a
    budget clause needs a target, a seal within the policy's lag and a quoted budget below
    the threshold; a burn clause needs a target all of whose rules of that severity have an
    unexpired, non-firing latch; the incident clause needs no open incident; and under an
    all-windows policy this holds of every target of the inventory, which may not be empty
    when a window clause constrains. Missing or stale evidence never allows. *)
Theorem allow_iff_positively_clear FormatFloat sha256hex sn random projectID serviceID dec e
  (Hdec : decideGateOnce FormatFloat sha256hex sn random projectID serviceID = Ok dec)
  (Heff : sn_effective sn = Some e)
  (Hno : d_Override dec = None) :
  d_Action dec = Some ActionAllow <-> snapshotClear FormatFloat sn projectID serviceID e.
Proof.
  unfold decideGateOnce in Hdec. destruct (sn_service sn) as [[slug name]|]; [|done].
  destruct (newGateDecisionID _ _); [|done]. rewrite Heff in Hdec. unfold snapshotClear.
  destruct (_ && _).
  - unfold decideAllWindowsGateTx in Hdec.
    destruct (gateTargetsTx _) as [targets|] eqn:Et; [cbn [rbind] in Hdec|done].
    destruct (gateAllWindowReportsTx _ _ _ _ _) as [reports|] eqn:Er; [cbn [rbind liftReport] in Hdec|done].
    injection Hdec as <-. unfold assembleAllWindowsGateDecision in *.
    pose proof (algebra_allow (allWindowsVerdicts FormatFloat (eff_Policy e) (sn_evaluatedAt sn) (sn_latches sn)
      (sn_incident sn) (combine targets reports)) (gp_UnknownBehavior (eff_Policy e))) as Hal.
    rewrite allWindowsVerdicts_quiet in Hal.
    destruct (DecideGateAlgebra _ _) as [[state action] reasons]. cbn in Hal.
    rewrite applyOverride_bare by done. split.
    + intros [= ->]. exists targets, reports. split_and!; [done..|apply Hal; done|apply Hal; done].
    + intros (? & ? & [= <-] & Hr & Hc). rewrite Er in Hr. injection Hr as <-. f_equal. by apply Hal.
  - destruct (WindowByName _) as [w|] eqn:Ew; [|done].
    destruct (serviceReliabilityReportTx _ _ _ _ _) as [report|] eqn:Er; [cbn [rbind liftReport] in Hdec|done].
    injection Hdec as <-. unfold assembleGateDecision in *.
    match goal with |- context [evaluateGateClauses FormatFloat ?i] =>
      pose proof (algebra_allow (evaluateGateClauses FormatFloat i) (gp_UnknownBehavior (eff_Policy e))) as Hal end.
    rewrite evaluateGateClauses_quiet in Hal. cbn [gi_policy] in *.
    destruct (DecideGateAlgebra _ _) as [[state action] reasons]. cbn in Hal.
    rewrite applyOverride_bare by done. split.
    + intros [= ->]. exists w, report. split_and!; [done..|by apply Hal].
    + intros (? & ? & [= <-] & Hr & Hc). rewrite Er in Hr. injection Hr as <-. f_equal. by apply Hal.
Qed.

(** ** A concrete service, for the witnesses *)
Definition demoAt : Time := unixEpoch + 1700000000000 * 1000000.
Definition demoFormat (x : float64) : string := "6".
Definition demoSha (s : string) : string := s.

Definition demoRule : BurnRule :=
  {| LongWindowSeconds := 21600; ShortWindowSeconds := 1800; Threshold := fofZ 6;
     Severity := BurnSeverityPage; Firing := false |}.

Definition demoTarget : gateTarget :=
  {| tg_id := "t1"; tg_window := "30d"; tg_objective := fofZ 99; tg_objectiveUpdatedAt := demoAt - Hour;
     tg_rules := [demoRule]; tg_burnAlertEnabled := true |}.

Definition demoLatch : burnRuleLatch :=
  {| la_firing := false; la_seq := 1; la_undelivered := 0; la_lastVerdict := "clear";
     la_evaluatedAt := demoAt - Minute; la_leaseUntil := demoAt + Minute |}.

Definition demoSignal : ServiceSignalState :=
  {| ss_Armed := true; ss_Reason := "armed"; ss_EvaluatedAt := Some (demoAt - Minute);
     ss_LeaseUntil := Some (demoAt + Minute); ss_LastError := "" |}.

(** Burn pages and incidents block, the budget clauses are ignored. *)
Definition demoEffective : EffectiveGatePolicy :=
  {| eff_Policy :=
       {| gp_ServiceID := "s"; gp_ProjectID := "p"; gp_Window := "30d"; gp_WindowMode := ModeOne;
          gp_SchemaVersion := 1;
          gp_Clauses := <[PageBurnFiring := AssignBlock]> (<[ServiceIncidentOpen := AssignBlock]> ∅);
          gp_BudgetConsumedPercent := 80; gp_MaxSealLagSeconds := 600; gp_UnknownBehavior := UnknownBlock;
          gp_Revision := 3; gp_DeletedAt := None; gp_UpdatedAt := 0; gp_UpdatedBy := "user:a" |};
     eff_Source := SourceService; eff_OwnerID := "s"; eff_ServiceOverrideRevision := Some 3 |}.

Definition demoActiveOverride : GateOverride :=
  {| ov_ID := "o1"; ov_ServiceID := "s"; ov_ProjectID := "p"; ov_PolicyRevision := 3;
     ov_PolicySource := SourceService; ov_PolicyOwnerID := "s"; ov_ActorUserID := None;
     ov_ViaToken := true; ov_ActorLabel := "token:ci"; ov_Reason := "hotfix"; ov_CreatedAt := demoAt - Hour;
     ov_ExpiresAt := demoAt + Hour; ov_RevokedAt := None; ov_RevokedReason := None;
     ov_RevokedByUserID := None; ov_RevokedViaToken := None; ov_RevokedByLabel := None |}.

Definition demoSnapshot (incident : option string) (overrides : list GateOverride) : GateSnapshot :=
  {| sn_evaluatedAt := demoAt; sn_service := Some ("api", "API"); sn_effective := Some demoEffective;
     sn_overrides := overrides;
     sn_rows := {| rr_materialization := None; rr_owned := true; rr_sliMembers := 1;
                   rr_target := fun _ => None; rr_buckets := []; rr_revision1 := None; rr_repairs := [] |};
     sn_targets := [demoTarget];
     sn_latches := {[ ("t1", Key demoFormat demoRule) := demoLatch ]};
     sn_incident := incident; sn_coverage := {| as_Live := demoSignal; as_Burn := demoSignal |};
     sn_governing := Some {| gr_ID := "g1"; gr_Revision := 1 |} |}.

Definition demoDecide (sn : GateSnapshot) : GateDecision :=
  match decideGateOnce demoFormat demoSha sn (repeat 171 16) "p" "s" with
  | Ok dec => dec
  | Err _ => emptyDecision [] 0 "" "" ""
  end.

Example override_changes_only_action_witness :
  let dec := demoDecide (demoSnapshot (Some "inc1") [demoActiveOverride]) in
  decideGateOnce demoFormat demoSha (demoSnapshot (Some "inc1") []) (repeat 171 16) "p" "s"
  = Ok (withoutOverride dec) /\
  d_UnoverriddenAction dec = Some ActionBlock /\ d_Action dec = Some ActionAllow.
Proof.
  set (sn := demoSnapshot (Some "inc1") [demoActiveOverride]). cbv zeta.
  destruct (override_changes_only_action demoFormat demoSha sn (repeat 171 16) "p" "s" (demoDecide sn))
    as (H1 & H2 & H3); [by vm_compute|].
  split; [exact H1|]. assert (is_Some (d_Override (demoDecide sn))) as Hov by by (vm_compute; eexists).
  split; [by apply H2|by apply H3].
Defined.

Definition demoInputs : gateClauseInputs :=
  {| gi_policy := eff_Policy demoEffective; gi_evaluatedAt := demoAt;
     gi_report := emptyReport "s" "30d" demoAt ReportInsufficientSealed ReasonNothingSealed None None None;
     gi_target := Some demoTarget; gi_latches := sn_latches (demoSnapshot None []); gi_incident := None |}.

Example facts_fresh_until_sound_witness :
  factsFreshUntil demoFormat demoInputs = Some (demoAt + Minute) /\
  (DecideGateAlgebra (evaluateGateClauses demoFormat (atInstant demoInputs (demoAt + Second))) UnknownBlock).1
  = (DecideGateAlgebra (evaluateGateClauses demoFormat demoInputs) UnknownBlock).1.
Proof.
  assert (factsFreshUntil demoFormat demoInputs = Some (demoAt + Minute)) as Hh by by vm_compute.
  split; [exact Hh|].
  apply (facts_fresh_until_sound demoFormat demoInputs (demoAt + Second)).
  - split; discriminate.
  - reflexivity.
  - discriminate.
  - intros h. rewrite Hh. intros [= <-]. reflexivity.
Defined.

Example allow_iff_positively_clear_witness :
  snapshotClear demoFormat (demoSnapshot None []) "p" "s" demoEffective /\
  ~ snapshotClear demoFormat (demoSnapshot (Some "inc1") []) "p" "s" demoEffective.
Proof.
  pose proof (fun sn => allow_iff_positively_clear demoFormat demoSha sn (repeat 171 16) "p" "s"
                (demoDecide sn) demoEffective) as Hiff.
  split.
  - refine (proj1 (Hiff (demoSnapshot None []) _ _ _) _); by vm_compute.
  - intros H. assert (d_Action (demoDecide (demoSnapshot (Some "inc1") [])) = Some ActionAllow) as Ha.
    + refine (proj2 (Hiff (demoSnapshot (Some "inc1") []) _ _ _) H); by vm_compute.
    + by vm_compute in Ha.
Defined.
