(* ===== verification/GateStore.v ===== *)
(** * The gate's transactional store
    ([internal/store/gatepolicy.go], [projectgatepolicy.go], [gateoverride.go] and the shared
    part of [gate.go])

    The policy generations of services and projects, the override slot of a service, and the
    transactions that move them, as functions on the rows they touch; then the transactions
    as a step relation, with override creation split at the point where it has read the
    policy but not yet written, because a project policy write is not excluded there. *)

From S2P Require Import Prelude ServicePolicy GoFloat Sla GoString Gate GateDecision.

(** ** Rows *)

(** The typed half of an audit row's actor, and the label. *)
Record GateActor := { ga_ActorUserID : string; ga_ViaToken : bool; ga_Label : string }.

Definition userID (a : GateActor) : option string :=
  if bool_decide (ga_ActorUserID a = "") then None else Some (ga_ActorUserID a).

(** The facts an audit row's target text renders. *)
Inductive AuditTarget :=
| AuditPolicyWrite (service : string) (before : option (GatePolicyDocument * gmap GateClause ClauseAssignment))
    (beforeRevision revision : Z) (after : GatePolicyDocument * gmap GateClause ClauseAssignment)
| AuditPolicyDelete (service : string) (before : GatePolicyDocument * gmap GateClause ClauseAssignment)
    (beforeRevision revision : Z)
| AuditProjectPolicy (project : string) (revision : Z)
| AuditOverrideCreate (service override : string) (source : GatePolicySource) (owner : string)
    (revision : Z) (expiresAt : Time)
| AuditOverrideRevoke (service override : string).

Record AuditRow := {
  au_project : string;
  au_actorUserID : option string;
  au_viaToken : bool;
  au_action : string;
  au_target : AuditTarget;
  au_label : string;
}.

(** The tables the transactions read and write: service id to project id, the projects, the
    (service, window) pairs that have a target, the policy rows, the override rows in
    insertion order and the audit log. *)
Record GateDB := {
  db_services : gmap string string;
  db_projects : gset string;
  db_targets : gset (string * string);
  db_policies : gmap string GatePolicy;
  db_projectPolicies : gmap string GatePolicy;
  db_overrides : list GateOverride;
  db_audit : list AuditRow;
}.

Definition withPolicies (db : GateDB) (m : gmap string GatePolicy) : GateDB :=
  {| db_services := db_services db; db_projects := db_projects db; db_targets := db_targets db;
     db_policies := m; db_projectPolicies := db_projectPolicies db;
     db_overrides := db_overrides db; db_audit := db_audit db |}.

Definition withProjectPolicies (db : GateDB) (m : gmap string GatePolicy) : GateDB :=
  {| db_services := db_services db; db_projects := db_projects db; db_targets := db_targets db;
     db_policies := db_policies db; db_projectPolicies := m;
     db_overrides := db_overrides db; db_audit := db_audit db |}.

Definition withOverrides (db : GateDB) (os : list GateOverride) : GateDB :=
  {| db_services := db_services db; db_projects := db_projects db; db_targets := db_targets db;
     db_policies := db_policies db; db_projectPolicies := db_projectPolicies db;
     db_overrides := os; db_audit := db_audit db |}.

Inductive GateStoreError :=
| ErrNotFound
| ErrGatePolicyNotConfigured
| ErrGateRevisionConflict
| ErrGateOverrideActive
| ErrGateOverrideNotActive
| ErrGateOverrideNone
| ErrActorLabelRequired
| ErrPolicyInvalid (e : GatePolicyError)
| ErrReasonLength (n : Z)
| ErrExpiresAtPast
| ErrExpiresAtTooFar
| ErrBigintOutOfRange.

(** [insertGateAudit]: [INSERT ... SELECT FROM projects], no row for an unknown project. *)
Definition insertGateAudit (db : GateDB) (projectID : string) (actor : GateActor) (action : string)
    (target : AuditTarget) : GateDB :=
  if bool_decide (projectID ∈ db_projects db) then
    {| db_services := db_services db; db_projects := db_projects db; db_targets := db_targets db;
       db_policies := db_policies db; db_projectPolicies := db_projectPolicies db;
       db_overrides := db_overrides db;
       db_audit := db_audit db ++ [{| au_project := projectID; au_actorUserID := userID actor;
                                      au_viaToken := ga_ViaToken actor; au_action := action;
                                      au_target := target; au_label := ga_Label actor |}] |}
  else db.

(** [lockServiceRowTx] and [lockProjectRowTx]: the existence half; the lock itself is the
    exclusion of the step relation below. *)
Definition lockServiceRowTx (db : GateDB) (projectID serviceID : string) : result GateStoreError unit :=
  refuse_if (negb (bool_decide (db_services db !! serviceID = Some projectID))) ErrNotFound.

Definition lockProjectRowTx (db : GateDB) (projectID : string) : result GateStoreError unit :=
  refuse_if (negb (bool_decide (projectID ∈ db_projects db))) ErrNotFound.

(** [revision + 1] of a [bigint] column. *)
Definition bumpRevision (r : Z) : result GateStoreError Z :=
  if r =? int64_max then Err ErrBigintOutOfRange else Ok (r + 1).

(** A policy row that is found and live. *)
Definition livePolicy (row : option GatePolicy) : option GatePolicy :=
  match row with
  | Some p => if Live p then Some p else None
  | None => None
  end.

(** ** Reads *)
Definition GetGatePolicy (db : GateDB) (projectID serviceID : string) : result GateStoreError GatePolicy :=
  let! _ := lockServiceRowTx db projectID serviceID in
  match livePolicy (db_policies db !! serviceID) with
  | Some p => Ok p
  | None => Err ErrGatePolicyNotConfigured
  end.

Definition GetProjectGatePolicy (db : GateDB) (projectID : string) : result GateStoreError GatePolicy :=
  let! _ := lockProjectRowTx db projectID in
  match livePolicy (db_projectPolicies db !! projectID) with
  | Some p => Ok p
  | None => Err ErrGatePolicyNotConfigured
  end.

(** [effectiveGatePolicyTx]: the service's live policy wins, else the project's. *)
Definition effectiveGatePolicyTx (db : GateDB) (projectID serviceID : string)
    : result GateStoreError EffectiveGatePolicy :=
  match livePolicy (db_policies db !! serviceID) with
  | Some p => Ok {| eff_Policy := p; eff_Source := SourceService; eff_OwnerID := serviceID;
                    eff_ServiceOverrideRevision := Some (gp_Revision p) |}
  | None =>
    match livePolicy (db_projectPolicies db !! projectID) with
    | Some p => Ok {| eff_Policy := p; eff_Source := SourceProject; eff_OwnerID := projectID;
                      eff_ServiceOverrideRevision := None |}
    | None => Err ErrGatePolicyNotConfigured
    end
  end.

Definition GetEffectiveGatePolicy (db : GateDB) (projectID serviceID : string)
    : result GateStoreError EffectiveGatePolicy :=
  let! _ := lockServiceRowTx db projectID serviceID in
  effectiveGatePolicyTx db projectID serviceID.

(** ** Validation *)
Definition isAllWindows (doc : GatePolicyDocument) : bool :=
  (doc_SchemaVersion doc =? GatePolicySchemaV2) && bool_decide (doc_WindowMode doc = ModeAll).

Definition validateProjectGatePolicyDocument (doc : GatePolicyDocument)
    : result GateStoreError (gmap GateClause ClauseAssignment) :=
  match ValidateGatePolicy doc with
  | Err e => Err (ErrPolicyInvalid e)
  | Ok clauses =>
    if isAllWindows doc then Ok clauses
    else match WindowByName (doc_Window doc) with
         | None => Err (ErrPolicyInvalid (ErrNotAnSLAWindow (doc_Window doc)))
         | Some _ => Ok clauses
         end
  end.

Definition validateGatePolicyDocumentTx (db : GateDB) (serviceID : string) (doc : GatePolicyDocument)
    : result GateStoreError (gmap GateClause ClauseAssignment) :=
  match ValidateGatePolicy doc with
  | Err e => Err (ErrPolicyInvalid e)
  | Ok clauses =>
    if isAllWindows doc then Ok clauses
    else match WindowByName (doc_Window doc) with
         | None => Err (ErrPolicyInvalid (ErrNotAnSLAWindow (doc_Window doc)))
         | Some _ =>
           if bool_decide ((serviceID, doc_Window doc) ∈ db_targets db) then Ok clauses
           else Err (ErrPolicyInvalid (ErrNoTargetForWindow (doc_Window doc)))
         end
  end.

(** The empty mode of a version 1 body is stored as [one]. *)
Definition defaultMode (mode : GateWindowMode) : GateWindowMode :=
  if bool_decide (mode = ModeOther "") then ModeOne else mode.

Definition normalizeMode (doc : GatePolicyDocument) : GatePolicyDocument :=
  {| doc_SchemaVersion := doc_SchemaVersion doc; doc_WindowMode := defaultMode (doc_WindowMode doc);
     doc_Window := doc_Window doc; doc_Clauses := doc_Clauses doc;
     doc_BudgetConsumedPercent := doc_BudgetConsumedPercent doc;
     doc_MaxSealLagSeconds := doc_MaxSealLagSeconds doc;
     doc_UnknownBehavior := doc_UnknownBehavior doc |}.

(** [gatePolicyDocumentEqual]: [stored.Clauses[c]] is the empty string when absent. *)
Definition gatePolicyDocumentEqual (stored : GatePolicy) (doc : GatePolicyDocument)
    (clauses : gmap GateClause ClauseAssignment) : bool :=
  (gp_SchemaVersion stored =? doc_SchemaVersion doc)
  && bool_decide (gp_WindowMode stored = defaultMode (doc_WindowMode doc))
  && bool_decide (gp_Window stored = doc_Window doc)
  && (gp_BudgetConsumedPercent stored =? doc_BudgetConsumedPercent doc)
  && (gp_MaxSealLagSeconds stored =? doc_MaxSealLagSeconds doc)
  && bool_decide (gp_UnknownBehavior stored = doc_UnknownBehavior doc)
  && (size (gp_Clauses stored) =? size clauses)%nat
  && forallb (fun ca => bool_decide (default (AssignOther "") (gp_Clauses stored !! ca.1) = ca.2))
       (map_to_list clauses).

(** ** Closing overrides *)
Definition unrevoked (o : GateOverride) : bool :=
  match ov_RevokedAt o with None => true | Some _ => false end.

(** [UPDATE ... SET revoked_at, revoked_reason WHERE p AND revoked_at IS NULL]. *)
Definition closeWhere (p : GateOverride -> bool) (at_ : Time) (reason : GateRevokedReason)
    (os : list GateOverride) : list GateOverride :=
  map (fun o => if p o && unrevoked o then closeAs o at_ reason else o) os.

Definition closeGateOverridesTx (db : GateDB) (serviceID : string) (reason : GateRevokedReason)
    (at_ : Time) : GateDB :=
  withOverrides db (closeWhere (fun o => bool_decide (ov_ServiceID o = serviceID)) at_ reason (db_overrides db)).

(** The override's service exists and has no live policy of its own. *)
Definition inherits (db : GateDB) (projectID : string) (o : GateOverride) : bool :=
  bool_decide (is_Some (db_services db !! ov_ServiceID o))
  && bool_decide (livePolicy (db_policies db !! ov_ServiceID o) = None)
  && bool_decide (ov_ProjectID o = projectID)
  && bool_decide (ov_PolicySource o = SourceProject).

Definition closeInheritedProjectGateOverridesTx (db : GateDB) (projectID : string)
    (reason : GateRevokedReason) (at_ : Time) : GateDB :=
  withOverrides db (closeWhere (inherits db projectID) at_ reason (db_overrides db)).

(** ** Policy writes *)

(** The compare-and-set: [None] wants no live row, [Some r] the live row at [r]. *)
Definition casMatches (live : option GatePolicy) (expected : option Z) : bool :=
  match expected, live with
  | None, None => true
  | Some r, Some p => gp_Revision p =? r
  | _, _ => false
  end.

Definition policyRow (serviceID projectID : string) (doc : GatePolicyDocument)
    (clauses : gmap GateClause ClauseAssignment) (revision : Z) (at_ : Time) (label : string) : GatePolicy :=
  {| gp_ServiceID := serviceID; gp_ProjectID := projectID; gp_Window := doc_Window doc;
     gp_WindowMode := doc_WindowMode doc; gp_SchemaVersion := doc_SchemaVersion doc;
     gp_Clauses := clauses; gp_BudgetConsumedPercent := doc_BudgetConsumedPercent doc;
     gp_MaxSealLagSeconds := doc_MaxSealLagSeconds doc; gp_UnknownBehavior := doc_UnknownBehavior doc;
     gp_Revision := revision; gp_DeletedAt := None; gp_UpdatedAt := at_; gp_UpdatedBy := label |}.

Definition tombstone (p : GatePolicy) (revision : Z) (at_ : Time) (label : string) : GatePolicy :=
  {| gp_ServiceID := gp_ServiceID p; gp_ProjectID := gp_ProjectID p; gp_Window := gp_Window p;
     gp_WindowMode := gp_WindowMode p; gp_SchemaVersion := gp_SchemaVersion p;
     gp_Clauses := gp_Clauses p; gp_BudgetConsumedPercent := gp_BudgetConsumedPercent p;
     gp_MaxSealLagSeconds := gp_MaxSealLagSeconds p; gp_UnknownBehavior := gp_UnknownBehavior p;
     gp_Revision := revision; gp_DeletedAt := Some at_; gp_UpdatedAt := at_; gp_UpdatedBy := label |}.

Definition nextRevision (current : option GatePolicy) : result GateStoreError Z :=
  match current with None => Ok 1 | Some p => bumpRevision (gp_Revision p) end.

Definition requireLabel (actor : GateActor) : result GateStoreError unit :=
  refuse_if (bool_decide (ga_Label actor = "")) ErrActorLabelRequired.

(** [PutGatePolicy]: the revision, whether anything changed, and the database after commit.
    [written] and [closed] are the timestamps of the row write and of the closing update. *)
Definition PutGatePolicy (db : GateDB) (projectID serviceID : string) (expected : option Z)
    (doc : GatePolicyDocument) (actor : GateActor) (written closed : Time)
    : result GateStoreError (Z * bool * GateDB) :=
  let! _ := requireLabel actor in
  let! _ := lockServiceRowTx db projectID serviceID in
  let doc := normalizeMode doc in
  let! clauses := validateGatePolicyDocumentTx db serviceID doc in
  let current := db_policies db !! serviceID in
  let live := livePolicy current in
  let! _ := refuse_if (negb (casMatches live expected)) ErrGateRevisionConflict in
  if match live with Some p => gatePolicyDocumentEqual p doc clauses | None => false end
  then Ok (match live with Some p => gp_Revision p | None => 0 end, false, db)
  else
    let! revision := nextRevision current in
    let row := policyRow (match current with Some p => gp_ServiceID p | None => serviceID end)
                 (match current with Some p => gp_ProjectID p | None => projectID end)
                 doc clauses revision written (ga_Label actor) in
    let db1 := withPolicies db (<[serviceID := row]> (db_policies db)) in
    let db2 := closeGateOverridesTx db1 serviceID RevokedPolicyChanged closed in
    Ok (revision, true,
        insertGateAudit db2 projectID actor "gate.policy.write"
          (AuditPolicyWrite serviceID ((fun p => (Document p, gp_Clauses p)) <$> live)
             (match current with Some p => gp_Revision p | None => 0 end) revision (doc, clauses))).

Definition DeleteGatePolicy (db : GateDB) (projectID serviceID : string) (expected : Z)
    (actor : GateActor) (written closed : Time) : result GateStoreError GateDB :=
  let! _ := requireLabel actor in
  let! _ := lockServiceRowTx db projectID serviceID in
  match livePolicy (db_policies db !! serviceID) with
  | None => Err ErrGatePolicyNotConfigured
  | Some p =>
    let! _ := refuse_if (negb (gp_Revision p =? expected)) ErrGateRevisionConflict in
    let! revision := bumpRevision (gp_Revision p) in
    let db1 := withPolicies db (<[serviceID := tombstone p revision written (ga_Label actor)]> (db_policies db)) in
    let db2 := closeGateOverridesTx db1 serviceID RevokedPolicyDeleted closed in
    Ok (insertGateAudit db2 projectID actor "gate.policy.delete"
          (AuditPolicyDelete serviceID (Document p, gp_Clauses p) (gp_Revision p) revision))
  end.

Definition PutProjectGatePolicy (db : GateDB) (projectID : string) (expected : option Z)
    (doc : GatePolicyDocument) (actor : GateActor) (written closed : Time)
    : result GateStoreError (Z * bool * GateDB) :=
  let! _ := requireLabel actor in
  let! _ := lockProjectRowTx db projectID in
  let doc := normalizeMode doc in
  let! clauses := validateProjectGatePolicyDocument doc in
  let current := db_projectPolicies db !! projectID in
  let live := livePolicy current in
  let! _ := refuse_if (negb (casMatches live expected)) ErrGateRevisionConflict in
  if match live with Some p => gatePolicyDocumentEqual p doc clauses | None => false end
  then Ok (match live with Some p => gp_Revision p | None => 0 end, false, db)
  else
    let! revision := nextRevision current in
    let db1 := withProjectPolicies db
                 (<[projectID := policyRow "" projectID doc clauses revision written (ga_Label actor)]>
                    (db_projectPolicies db)) in
    let db2 := closeInheritedProjectGateOverridesTx db1 projectID RevokedPolicyChanged closed in
    Ok (revision, true,
        insertGateAudit db2 projectID actor
          (match live with Some _ => "gate.project_policy.update" | None => "gate.project_policy.create" end)
          (AuditProjectPolicy projectID revision)).

Definition DeleteProjectGatePolicy (db : GateDB) (projectID : string) (expected : Z)
    (actor : GateActor) (written closed : Time) : result GateStoreError GateDB :=
  let! _ := requireLabel actor in
  let! _ := lockProjectRowTx db projectID in
  match livePolicy (db_projectPolicies db !! projectID) with
  | None => Err ErrGatePolicyNotConfigured
  | Some p =>
    let! _ := refuse_if (negb (gp_Revision p =? expected)) ErrGateRevisionConflict in
    let! revision := bumpRevision (gp_Revision p) in
    let db1 := withProjectPolicies db
                 (<[projectID := tombstone p revision written (ga_Label actor)]> (db_projectPolicies db)) in
    let db2 := closeInheritedProjectGateOverridesTx db1 projectID RevokedPolicyDeleted closed in
    Ok (insertGateAudit db2 projectID actor "gate.project_policy.delete"
          (AuditProjectPolicy projectID (gp_Revision p)))
  end.

(** ** Overrides *)

(** What [CreateGateOverride] refuses before it opens a transaction. *)
Definition createChecks (reason : string) (actor : GateActor) : result GateStoreError unit :=
  let! _ := requireLabel actor in
  let n := RuneCountInString reason in
  refuse_if ((n <? GateOverrideReasonMinLen) || (GateOverrideReasonMaxLen <? n)) (ErrReasonLength n).

(** The reads of the creation transaction: the service lock and the effective policy, at the
    revision the caller saw. *)
Definition createRead (db : GateDB) (projectID serviceID : string) (policyRevision : Z)
    : result GateStoreError EffectiveGatePolicy :=
  let! _ := lockServiceRowTx db projectID serviceID in
  match effectiveGatePolicyTx db projectID serviceID with
  | Err ErrGatePolicyNotConfigured => Err ErrGateRevisionConflict
  | Err e => Err e
  | Ok effective =>
    let! _ := refuse_if (negb (gp_Revision (eff_Policy effective) =? policyRevision)) ErrGateRevisionConflict in
    Ok effective
  end.

(** Timestamps of the creation's statements: [dbNow], the closing update and the insert. *)
Record createClock := { cc_now : Time; cc_closed : Time; cc_inserted : Time }.

Definition overrideRow (id projectID serviceID : string) (policyRevision : Z)
    (effective : EffectiveGatePolicy) (reason : string) (expiresAt createdAt : Time)
    (actor : GateActor) : GateOverride :=
  {| ov_ID := id; ov_ServiceID := serviceID; ov_ProjectID := projectID;
     ov_PolicyRevision := policyRevision; ov_PolicySource := eff_Source effective;
     ov_PolicyOwnerID := eff_OwnerID effective; ov_ActorUserID := userID actor;
     ov_ViaToken := ga_ViaToken actor; ov_ActorLabel := ga_Label actor; ov_Reason := reason;
     ov_CreatedAt := createdAt; ov_ExpiresAt := expiresAt; ov_RevokedAt := None;
     ov_RevokedReason := None; ov_RevokedByUserID := None; ov_RevokedViaToken := None;
     ov_RevokedByLabel := None |}.

(** The rest of the transaction, from the effective policy it read; [id] is the identifier
    the database generates. *)
Definition createWrite (db : GateDB) (projectID serviceID : string) (policyRevision : Z)
    (effective : EffectiveGatePolicy) (reason : string) (expiresAt : Time) (actor : GateActor)
    (clock : createClock) (id : string) : result GateStoreError GateDB :=
  let now := cc_now clock in
  let! _ := refuse_if (negb (After expiresAt now)) ErrExpiresAtPast in
  let! _ := refuse_if (After expiresAt (Add now GateOverrideMaxDuration)) ErrExpiresAtTooFar in
  let db1 := withOverrides db
    (closeWhere (fun o => bool_decide (ov_ServiceID o = serviceID) && (ov_ExpiresAt o <=? cc_closed clock))
       (cc_closed clock) RevokedExpired (db_overrides db)) in
  let! _ := refuse_if (existsb (fun o => bool_decide (ov_ServiceID o = serviceID) && unrevoked o)
                         (db_overrides db1)) ErrGateOverrideActive in
  let row := overrideRow id projectID serviceID policyRevision effective reason expiresAt
               (cc_inserted clock) actor in
  let db2 := withOverrides db1 (db_overrides db1 ++ [row]) in
  Ok (insertGateAudit db2 projectID actor "gate.override.create"
        (AuditOverrideCreate serviceID id (eff_Source effective) (eff_OwnerID effective) policyRevision expiresAt)).

Definition CreateGateOverride (db : GateDB) (projectID serviceID : string) (policyRevision : Z)
    (reason : string) (expiresAt : Time) (actor : GateActor) (clock : createClock) (id : string)
    : result GateStoreError GateDB :=
  let! _ := createChecks reason actor in
  let! effective := createRead db projectID serviceID policyRevision in
  createWrite db projectID serviceID policyRevision effective reason expiresAt actor clock id.

(** The live revision a row's status is computed against ([gateOverrideColumns]). *)
Definition liveRevisionOf (db : GateDB) (o : GateOverride) : option Z :=
  gp_Revision <$>
  livePolicy (match ov_PolicySource o with
              | SourceService => db_policies db !! ov_ServiceID o
              | SourceProject => db_projectPolicies db !! ov_ProjectID o
              end).

(** [GateOverrideRecord] with its read-time status. *)
Definition scanGateOverride (db : GateDB) (now : Time) (o : GateOverride) : GateOverride * GateOverrideStatus :=
  (o, GateOverrideStatusAt o now (liveRevisionOf db o)).

Definition findOverride (db : GateDB) (projectID serviceID overrideID : string) : option GateOverride :=
  List.find (fun o => bool_decide (ov_ID o = overrideID) && bool_decide (ov_ServiceID o = serviceID)
                      && bool_decide (ov_ProjectID o = projectID)) (db_overrides db).

Definition GetGateOverride (db : GateDB) (projectID serviceID overrideID : string) (now : Time)
    : result GateStoreError (GateOverride * GateOverrideStatus) :=
  match findOverride db projectID serviceID overrideID with
  | None => Err ErrNotFound
  | Some o => Ok (scanGateOverride db now o)
  end.

(** The manual close, with the revoker's triple. *)
Definition revokeRow (actor : GateActor) (at_ : Time) (o : GateOverride) : GateOverride :=
  {| ov_ID := ov_ID o; ov_ServiceID := ov_ServiceID o; ov_ProjectID := ov_ProjectID o;
     ov_PolicyRevision := ov_PolicyRevision o; ov_PolicySource := ov_PolicySource o;
     ov_PolicyOwnerID := ov_PolicyOwnerID o; ov_ActorUserID := ov_ActorUserID o;
     ov_ViaToken := ov_ViaToken o; ov_ActorLabel := ov_ActorLabel o; ov_Reason := ov_Reason o;
     ov_CreatedAt := ov_CreatedAt o; ov_ExpiresAt := ov_ExpiresAt o; ov_RevokedAt := Some at_;
     ov_RevokedReason := Some RevokedManual; ov_RevokedByUserID := userID actor;
     ov_RevokedViaToken := Some (ga_ViaToken actor); ov_RevokedByLabel := Some (ga_Label actor) |}.

Definition RevokeGateOverride (db : GateDB) (projectID serviceID overrideID : string)
    (actor : GateActor) (now closed : Time) : result GateStoreError GateDB :=
  let! _ := requireLabel actor in
  let! _ := lockServiceRowTx db projectID serviceID in
  match findOverride db projectID serviceID overrideID with
  | None => Err ErrNotFound
  | Some o =>
    let! _ := refuse_if (negb (bool_decide ((scanGateOverride db now o).2 = OverrideActive)))
                ErrGateOverrideNotActive in
    let db1 := withOverrides db
      (map (fun o => if bool_decide (ov_ID o = overrideID) then revokeRow actor closed o else o)
         (db_overrides db)) in
    Ok (insertGateAudit db1 projectID actor "gate.override.revoke" (AuditOverrideRevoke serviceID overrideID))
  end.

(** [ORDER BY created_at DESC, id DESC]. *)
Definition newestFirst (os : list GateOverride) : list GateOverride :=
  @merge_sort _ override_le override_le_dec os.

Definition ActiveGateOverride (db : GateDB) (projectID serviceID : string) (now : Time)
    : result GateStoreError (GateOverride * GateOverrideStatus) :=
  let! _ := lockServiceRowTx db projectID serviceID in
  match List.find (fun r => bool_decide (r.2 = OverrideActive))
          (map (scanGateOverride db now)
             (newestFirst (List.filter (fun o => bool_decide (ov_ServiceID o = serviceID)
                                                 && bool_decide (ov_ProjectID o = projectID)
                                                 && unrevoked o) (db_overrides db)))) with
  | Some r => Ok r
  | None => Err ErrGateOverrideNone
  end.

Definition gateOverrideListLimit : nat := 50.

Definition ListGateOverrides (db : GateDB) (projectID serviceID : string) (now : Time)
    : result GateStoreError (list (GateOverride * GateOverrideStatus)) :=
  let! _ := lockServiceRowTx db projectID serviceID in
  Ok (map (scanGateOverride db now)
        (take gateOverrideListLimit
           (newestFirst (List.filter (fun o => bool_decide (ov_ServiceID o = serviceID)
                                               && bool_decide (ov_ProjectID o = projectID)) (db_overrides db))))).

(** ** The transactions, interleaved

    Each transaction is atomic except override creation, which is split after its reads. It
    holds the lock of its service row from then on, so the transactions that take the same
    lock wait; the project policy transactions take only the project row's lock and do not.
    [exclusive] restricts the relation to the executions where no project policy write falls
    between a creation's reads and its commit; the code allows the others ([false]). *)
Record creation := {
  cr_project : string;
  cr_revision : Z;
  cr_effective : EffectiveGatePolicy;
}.

(** [sys_creating]: the creations in flight, by the service whose row they hold. *)
Record gateSystem := { sys_db : GateDB; sys_creating : gmap string creation }.

Definition unlocked (sys : gateSystem) (serviceID : string) : Prop := sys_creating sys !! serviceID = None.

Inductive gate_step (exclusive : bool) : gateSystem -> gateSystem -> Prop :=
| step_put sys p s expected doc actor w c r changed db' :
    unlocked sys s ->
    PutGatePolicy (sys_db sys) p s expected doc actor w c = Ok (r, changed, db') ->
    gate_step exclusive sys {| sys_db := db'; sys_creating := sys_creating sys |}
| step_delete sys p s expected actor w c db' :
    unlocked sys s ->
    DeleteGatePolicy (sys_db sys) p s expected actor w c = Ok db' ->
    gate_step exclusive sys {| sys_db := db'; sys_creating := sys_creating sys |}
| step_project_put sys p expected doc actor w c r changed db' :
    (exclusive = true -> sys_creating sys = ∅) ->
    PutProjectGatePolicy (sys_db sys) p expected doc actor w c = Ok (r, changed, db') ->
    gate_step exclusive sys {| sys_db := db'; sys_creating := sys_creating sys |}
| step_project_delete sys p expected actor w c db' :
    (exclusive = true -> sys_creating sys = ∅) ->
    DeleteProjectGatePolicy (sys_db sys) p expected actor w c = Ok db' ->
    gate_step exclusive sys {| sys_db := db'; sys_creating := sys_creating sys |}
| step_create_read sys p s revision effective :
    unlocked sys s ->
    createRead (sys_db sys) p s revision = Ok effective ->
    gate_step exclusive sys
      {| sys_db := sys_db sys;
         sys_creating := <[s := {| cr_project := p; cr_revision := revision;
                                   cr_effective := effective |}]> (sys_creating sys) |}
| step_create_commit sys s cr reason expiresAt actor clock id db' :
    sys_creating sys !! s = Some cr ->
    id ∉ map ov_ID (db_overrides (sys_db sys)) ->
    createChecks reason actor = Ok tt ->
    createWrite (sys_db sys) (cr_project cr) s (cr_revision cr) (cr_effective cr) reason expiresAt actor clock id
    = Ok db' ->
    gate_step exclusive sys {| sys_db := db'; sys_creating := delete s (sys_creating sys) |}
| step_create_abort sys s :
    gate_step exclusive sys {| sys_db := sys_db sys; sys_creating := delete s (sys_creating sys) |}
| step_revoke sys p s id actor now closed db' :
    unlocked sys s ->
    RevokeGateOverride (sys_db sys) p s id actor now closed = Ok db' ->
    gate_step exclusive sys {| sys_db := db'; sys_creating := sys_creating sys |}.

(** The gate starts with no override and no transaction in flight; policies may exist. *)
Definition initial (sys : gateSystem) : Prop :=
  db_overrides (sys_db sys) = [] /\ sys_creating sys = ∅.

Definition gate_system (exclusive : bool) : system gateSystem := System initial (gate_step exclusive).

Definition reachable (exclusive : bool) (sys : gateSystem) : Prop := sys_reachable (gate_system exclusive) sys.

(** ** Invariants *)
Definition openFor (s : string) (o : GateOverride) : bool :=
  bool_decide (ov_ServiceID o = s) && unrevoked o.

(** What an override (or a creation in flight) for service [s] is bound to, against the
    policy rows: its own live policy at exactly that revision; or no live policy of its own
    and a project policy at or after that revision, exactly there and live when project
    writes are excluded. *)
Definition bound (exclusive : bool) (db : GateDB) (s p : string) (src : GatePolicySource)
    (owner : string) (rev : Z) : Prop :=
  db_services db !! s = Some p /\
  match src with
  | SourceService => owner = s /\ exists q, livePolicy (db_policies db !! s) = Some q /\ gp_Revision q = rev
  | SourceProject =>
    owner = p /\ livePolicy (db_policies db !! s) = None /\
    exists q, db_projectPolicies db !! p = Some q /\ rev <= gp_Revision q /\
              (exclusive = true -> Live q = true /\ gp_Revision q = rev)
  end.

Record gate_inv (exclusive : bool) (sys : gateSystem) : Prop := {
  inv_slot : forall s, count (openFor s) (db_overrides (sys_db sys)) <= 1;
  inv_bound : forall o, o ∈ db_overrides (sys_db sys) -> unrevoked o = true ->
    bound exclusive (sys_db sys) (ov_ServiceID o) (ov_ProjectID o) (ov_PolicySource o)
      (ov_PolicyOwnerID o) (ov_PolicyRevision o);
  inv_creating : forall s cr, sys_creating sys !! s = Some cr ->
    bound exclusive (sys_db sys) s (cr_project cr) (eff_Source (cr_effective cr))
      (eff_OwnerID (cr_effective cr)) (cr_revision cr);
}.

(** *** Generic facts *)
Section audit.
Context (db : GateDB) (p : string) (actor : GateActor) (action : string) (target : AuditTarget).
Let db' := insertGateAudit db p actor action target.

Lemma audit_services : db_services db' = db_services db.
Proof. unfold db', insertGateAudit. by case_bool_decide. Qed.
Lemma audit_policies : db_policies db' = db_policies db.
Proof. unfold db', insertGateAudit. by case_bool_decide. Qed.
Lemma audit_projectPolicies : db_projectPolicies db' = db_projectPolicies db.
Proof. unfold db', insertGateAudit. by case_bool_decide. Qed.
Lemma audit_overrides : db_overrides db' = db_overrides db.
Proof. unfold db', insertGateAudit. by case_bool_decide. Qed.
End audit.

Ltac db_fields :=
  rewrite ?audit_services, ?audit_policies, ?audit_projectPolicies, ?audit_overrides;
  cbn [db_services db_policies db_projectPolicies db_overrides withPolicies withProjectPolicies
       withOverrides closeGateOverridesTx closeInheritedProjectGateOverridesTx sys_db sys_creating].

Lemma unrevoked_closeWhere P at_ r os o :
  o ∈ closeWhere P at_ r os -> unrevoked o = true -> o ∈ os /\ P o = false.
Proof.
  unfold closeWhere. intros (o' & -> & Ho')%list_elem_of_fmap Hu.
  destruct (P o') eqn:EP; cbn [andb] in *; [|done]. by destruct (unrevoked o') eqn:E; [|congruence].
Qed.

Lemma count_closeWhere s P at_ r os : count (openFor s) (closeWhere P at_ r os) <= count (openFor s) os.
Proof.
  apply count_map_le. intros o. unfold openFor. destruct (P o && unrevoked o) eqn:E; [|done].
  cbn. by rewrite andb_false_r.
Qed.

Lemma bound_ext exclusive db db' s p src owner rev :
  db_services db' = db_services db -> db_policies db' !! s = db_policies db !! s ->
  db_projectPolicies db' !! p = db_projectPolicies db !! p ->
  bound exclusive db s p src owner rev -> bound exclusive db' s p src owner rev.
Proof. unfold bound. by intros -> -> ->. Qed.

(** A write of a service's policy row that closes all its overrides. *)
Lemma inv_service_write exclusive sys db' s row at_ r :
  gate_inv exclusive sys -> unlocked sys s ->
  db_services db' = db_services (sys_db sys) ->
  db_policies db' = <[s := row]> (db_policies (sys_db sys)) ->
  db_projectPolicies db' = db_projectPolicies (sys_db sys) ->
  db_overrides db' = closeWhere (fun o => bool_decide (ov_ServiceID o = s)) at_ r (db_overrides (sys_db sys)) ->
  gate_inv exclusive {| sys_db := db'; sys_creating := sys_creating sys |}.
Proof.
  intros [Hslot Hbound Hcr] Hun Hs Hp Hpp Ho. split; cbn [sys_db sys_creating].
  - intros s'. rewrite Ho. etrans; [apply count_closeWhere|apply Hslot].
  - intros o Hin Hu. rewrite Ho in Hin. destruct (unrevoked_closeWhere _ _ _ _ _ Hin Hu) as [Hin' Hne].
    apply bool_decide_eq_false in Hne.
    eapply bound_ext; [done|rewrite Hp; by apply lookup_insert_ne|by rewrite Hpp|by apply Hbound].
  - intros s' cr Hc. assert (s <> s') by (intros <-; unfold unlocked in Hun; congruence).
    eapply bound_ext; [done|rewrite Hp; by apply lookup_insert_ne|by rewrite Hpp|by apply Hcr].
Qed.

(** A write of a project's policy row that closes the overrides inheriting it. *)
Lemma inv_project_write exclusive sys db' p row at_ r :
  gate_inv exclusive sys -> (exclusive = true -> sys_creating sys = ∅) ->
  (forall q, db_projectPolicies (sys_db sys) !! p = Some q -> gp_Revision q <= gp_Revision row) ->
  db_services db' = db_services (sys_db sys) ->
  db_policies db' = db_policies (sys_db sys) ->
  db_projectPolicies db' = <[p := row]> (db_projectPolicies (sys_db sys)) ->
  db_overrides db' = closeWhere (inherits (sys_db sys) p) at_ r (db_overrides (sys_db sys)) ->
  gate_inv exclusive {| sys_db := db'; sys_creating := sys_creating sys |}.
Proof.
  intros [Hslot Hbound Hcr] Hex Hmono Hs Hp Hpp Ho. split; cbn [sys_db sys_creating].
  - intros s'. rewrite Ho. etrans; [apply count_closeWhere|apply Hslot].
  - intros o Hin Hu. rewrite Ho in Hin. destruct (unrevoked_closeWhere _ _ _ _ _ Hin Hu) as [Hin' Hne].
    specialize (Hbound o Hin' Hu). unfold bound in *. rewrite Hs, Hp, Hpp.
    destruct Hbound as [Hsv Hb]. split; [done|]. destruct (ov_PolicySource o) eqn:Esrc; [done|].
    destruct Hb as (? & Hl & q & Hq & Hrest). split_and!; [done..|].
    rewrite lookup_insert_ne; [by exists q|]. intros ->. unfold inherits in Hne.
    by rewrite Hsv, Hl, Esrc, !bool_decide_eq_true_2 in Hne by first [done | by eexists].
  - intros s' cr Hc. specialize (Hcr s' cr Hc). unfold bound in *. rewrite Hs, Hp, Hpp.
    destruct Hcr as [Hsv Hb]. split; [done|]. destruct (eff_Source _); [done|].
    destruct Hb as (? & Hl & q & Hq & Hle & Hstrict). split_and!; [done..|].
    destruct (decide (p = cr_project cr)) as [->|Hne]; [|rewrite lookup_insert_ne by done; by exists q].
    rewrite lookup_insert_eq. exists row. split_and!; [done|specialize (Hmono q Hq); lia|].
    intros He. rewrite (Hex He) in Hc. by rewrite lookup_empty in Hc.
Qed.

(** *** One lemma per transaction *)
Lemma lock_service db p s : lockServiceRowTx db p s = Ok tt -> db_services db !! s = Some p.
Proof. unfold lockServiceRowTx. rewrite refuse_if_Ok, negb_false_iff. apply bool_decide_eq_true. Qed.

Lemma nextRevision_ge current r q :
  nextRevision current = Ok r -> current = Some q -> r = gp_Revision q + 1.
Proof. intros H ->. revert H. cbn. unfold bumpRevision. destruct (_ =? _); [done|]. by intros [= <-]. Qed.

Lemma livePolicy_Some row q : livePolicy row = Some q -> row = Some q /\ Live q = true.
Proof. destruct row as [p|]; cbn; [|done]. destruct (Live p) eqn:E; [|done]. by intros [= <-]. Qed.

(** What a policy write does to the rows: nothing, or the next revision of one service. *)
Lemma PutGatePolicy_rows db p s expected doc actor w c r changed db' :
  PutGatePolicy db p s expected doc actor w c = Ok (r, changed, db') ->
  db_services db !! s = Some p /\
  casMatches (livePolicy (db_policies db !! s)) expected = true /\
  exists clauses, validateGatePolicyDocumentTx db s (normalizeMode doc) = Ok clauses /\
  if changed then
    nextRevision (db_policies db !! s) = Ok r /\
    exists sid pid, db_policies db' = <[s := policyRow sid pid (normalizeMode doc) clauses r w (ga_Label actor)]> (db_policies db) /\
    db_services db' = db_services db /\
    db_projectPolicies db' = db_projectPolicies db /\
    db_overrides db' = closeWhere (fun o => bool_decide (ov_ServiceID o = s)) c RevokedPolicyChanged (db_overrides db)
  else db' = db /\ exists q, livePolicy (db_policies db !! s) = Some q /\ gp_Revision q = r /\
                             gatePolicyDocumentEqual q (normalizeMode doc) clauses = true.
Proof.
  unfold PutGatePolicy. destruct (requireLabel actor); [|done]. cbn [rbind].
  destruct (lockServiceRowTx db p s) as [[]|] eqn:El; [|done]. cbn [rbind].
  apply lock_service in El.
  destruct (validateGatePolicyDocumentTx db s (normalizeMode doc)) as [clauses|] eqn:Ev; [|done]. cbn [rbind].
  destruct (refuse_if _ _) as [[]|] eqn:Ec; [|done]. apply refuse_if_Ok, negb_false_iff in Ec. cbn [rbind].
  destruct (livePolicy (db_policies db !! s)) as [q|] eqn:Eq.
  - destruct (gatePolicyDocumentEqual q _ _) eqn:Eeq.
    + intros [= <- <- <-]. split_and!; [done..|]. exists clauses. split_and!; [done..|]. by exists q.
    + destruct (nextRevision _) as [r'|] eqn:En; [|done]. cbn [rbind]. intros [= <- <- <-].
      split_and!; [done..|]. exists clauses. split_and!; [done..|]. eexists _, _. db_fields. split_and!; reflexivity.
  - destruct (nextRevision _) as [r'|] eqn:En; [|done]. cbn [rbind]. intros [= <- <- <-].
    split_and!; [done..|]. exists clauses. split_and!; [done..|]. eexists _, _. db_fields. split_and!; reflexivity.
Qed.

Lemma DeleteGatePolicy_rows db p s expected actor w c db' :
  DeleteGatePolicy db p s expected actor w c = Ok db' ->
  exists q, livePolicy (db_policies db !! s) = Some q /\ gp_Revision q = expected /\
  db_policies db' = <[s := tombstone q (gp_Revision q + 1) w (ga_Label actor)]> (db_policies db) /\
  db_services db' = db_services db /\
  db_projectPolicies db' = db_projectPolicies db /\
  db_overrides db' = closeWhere (fun o => bool_decide (ov_ServiceID o = s)) c RevokedPolicyDeleted (db_overrides db).
Proof.
  unfold DeleteGatePolicy. destruct (requireLabel actor); [|done]. cbn [rbind].
  destruct (lockServiceRowTx db p s); [|done]. cbn [rbind].
  destruct (livePolicy _) as [q|] eqn:Eq; [|done].
  destruct (refuse_if _ _) as [[]|] eqn:Ec; [|done]. apply refuse_if_Ok, negb_false_iff in Ec. cbn [rbind].
  unfold bumpRevision. destruct (_ =? int64_max); [done|]. cbn [rbind]. intros [= <-].
  exists q. db_fields. split_and!; [done|lia|reflexivity..].
Qed.

Lemma PutProjectGatePolicy_rows db p expected doc actor w c r changed db' :
  PutProjectGatePolicy db p expected doc actor w c = Ok (r, changed, db') ->
  casMatches (livePolicy (db_projectPolicies db !! p)) expected = true /\
  if changed then
    exists clauses, nextRevision (db_projectPolicies db !! p) = Ok r /\
    db_projectPolicies db' = <[p := policyRow "" p (normalizeMode doc) clauses r w (ga_Label actor)]> (db_projectPolicies db) /\
    db_services db' = db_services db /\
    db_policies db' = db_policies db /\
    db_overrides db' = closeWhere (inherits db p) c RevokedPolicyChanged (db_overrides db)
  else db' = db.
Proof.
  unfold PutProjectGatePolicy. destruct (requireLabel actor); [|done]. cbn [rbind].
  destruct (lockProjectRowTx db p); [|done]. cbn [rbind].
  destruct (validateProjectGatePolicyDocument (normalizeMode doc)) as [clauses|] eqn:Ev; [|done]. cbn [rbind].
  destruct (refuse_if _ _) as [[]|] eqn:Ec; [|done]. apply refuse_if_Ok, negb_false_iff in Ec. cbn [rbind].
  destruct (match livePolicy _ with Some _ => _ | None => _ end).
  - intros [= <- <- <-]. done.
  - destruct (nextRevision _) as [r'|] eqn:En; [|done]. cbn [rbind]. intros [= <- <- <-].
    split; [done|]. exists clauses. db_fields. split_and!; reflexivity || done.
Qed.

Lemma DeleteProjectGatePolicy_rows db p expected actor w c db' :
  DeleteProjectGatePolicy db p expected actor w c = Ok db' ->
  exists q, livePolicy (db_projectPolicies db !! p) = Some q /\ gp_Revision q = expected /\
  db_projectPolicies db' = <[p := tombstone q (gp_Revision q + 1) w (ga_Label actor)]> (db_projectPolicies db) /\
  db_services db' = db_services db /\
  db_policies db' = db_policies db /\
  db_overrides db' = closeWhere (inherits db p) c RevokedPolicyDeleted (db_overrides db).
Proof.
  unfold DeleteProjectGatePolicy. destruct (requireLabel actor); [|done]. cbn [rbind].
  destruct (lockProjectRowTx db p); [|done]. cbn [rbind].
  destruct (livePolicy _) as [q|] eqn:Eq; [|done].
  destruct (refuse_if _ _) as [[]|] eqn:Ec; [|done]. apply refuse_if_Ok, negb_false_iff in Ec. cbn [rbind].
  unfold bumpRevision. destruct (_ =? int64_max); [done|]. cbn [rbind]. intros [= <-].
  exists q. db_fields. split_and!; [done|lia|reflexivity..].
Qed.

Lemma createWrite_rows db p s rev e reason expiresAt actor clock id db' :
  createWrite db p s rev e reason expiresAt actor clock id = Ok db' ->
  cc_now clock < expiresAt <= cc_now clock + GateOverrideMaxDuration /\
  db_policies db' = db_policies db /\
  db_services db' = db_services db /\
  db_projectPolicies db' = db_projectPolicies db /\
  let closed := closeWhere (fun o => bool_decide (ov_ServiceID o = s) && (ov_ExpiresAt o <=? cc_closed clock))
                  (cc_closed clock) RevokedExpired (db_overrides db) in
  count (openFor s) closed = 0 /\
  db_overrides db' = closed ++ [overrideRow id p s rev e reason expiresAt (cc_inserted clock) actor].
Proof.
  unfold createWrite. destruct (refuse_if _ _) as [[]|] eqn:E1; [|done]. cbn [rbind].
  destruct (refuse_if (After _ _) _) as [[]|] eqn:E2; [|done]. cbn [rbind].
  destruct (refuse_if (existsb _ _) _) as [[]|] eqn:E3; [|done]. cbn [rbind]. intros [= <-].
  apply refuse_if_Ok in E1, E2, E3. unfold After, Add in E1, E2. apply negb_false_iff, Z.ltb_lt in E1.
  apply Z.ltb_ge in E2. split; [lia|]. db_fields. split_and!; [done..| |done].
  apply count_none. intros o Ho. destruct (openFor s o) eqn:Eo; [|done].
  rewrite <- E3. symmetry. apply existsb_exists. exists o. split; [by apply list_elem_of_In|done].
Qed.

Lemma RevokeGateOverride_rows db p s id actor now closed db' :
  RevokeGateOverride db p s id actor now closed = Ok db' ->
  db_policies db' = db_policies db /\ db_services db' = db_services db /\
  db_projectPolicies db' = db_projectPolicies db /\
  db_overrides db' = map (fun o => if bool_decide (ov_ID o = id) then revokeRow actor closed o else o) (db_overrides db).
Proof.
  unfold RevokeGateOverride. destruct (requireLabel actor); [|done]. cbn [rbind].
  destruct (lockServiceRowTx db p s); [|done]. cbn [rbind].
  destruct (findOverride _ _ _ _) as [o|]; [|done]. destruct (refuse_if _ _); [|done]. cbn [rbind].
  intros [= <-]. db_fields. split_and!; reflexivity.
Qed.

Lemma effectiveGatePolicyTx_bound exclusive db p s e :
  db_services db !! s = Some p -> effectiveGatePolicyTx db p s = Ok e ->
  bound exclusive db s p (eff_Source e) (eff_OwnerID e) (gp_Revision (eff_Policy e)).
Proof.
  intros Hs. unfold effectiveGatePolicyTx, bound. destruct (livePolicy (db_policies db !! s)) as [q|] eqn:E1.
  { intros [= <-]. cbn. split; [done|]. split; [done|]. by exists q. }
  destruct (livePolicy (db_projectPolicies db !! p)) as [q|] eqn:E2; [|done].
  intros [= <-]. cbn. apply livePolicy_Some in E2 as [E2 Hl]. split_and!; [done..|].
  exists q. split_and!; [done|lia|done].
Qed.

Lemma createRead_bound exclusive db p s rev e :
  createRead db p s rev = Ok e -> bound exclusive db s p (eff_Source e) (eff_OwnerID e) rev.
Proof.
  unfold createRead. destruct (lockServiceRowTx db p s) as [[]|] eqn:El; [|done]. cbn [rbind].
  destruct (effectiveGatePolicyTx db p s) as [e'|[]] eqn:Ee; try done.
  destruct (refuse_if _ _) as [[]|] eqn:Ec; [|done]. apply refuse_if_Ok, negb_false_iff, Z.eqb_eq in Ec.
  cbn [rbind]. intros [= <-]. rewrite <- Ec. apply lock_service in El. by apply effectiveGatePolicyTx_bound.
Qed.

Lemma gate_step_inv exclusive sys sys' :
  gate_step exclusive sys sys' -> gate_inv exclusive sys -> gate_inv exclusive sys'.
Proof.
  intros Hstep Hinv. destruct Hstep as
    [sys p s expected doc actor w c r changed db' Hun Hop
    |sys p s expected actor w c db' Hun Hop
    |sys p expected doc actor w c r changed db' Hex Hop
    |sys p expected actor w c db' Hex Hop
    |sys p s revision effective Hun Hop
    |sys s cr reason expiresAt actor clock id db' Hcr Hid Hchk Hop
    |sys s
    |sys p s id actor now closed db' Hun Hop].
  - apply PutGatePolicy_rows in Hop as (_ & _ & clauses & _ & Hop). destruct changed.
    + destruct Hop as (_ & sid & pid & ? & ? & ? & ?). by eapply inv_service_write.
    + destruct Hop as [-> _]. by destruct sys.
  - apply DeleteGatePolicy_rows in Hop as (q & _ & _ & ? & ? & ? & ?). by eapply inv_service_write.
  - apply PutProjectGatePolicy_rows in Hop as (_ & Hop). destruct changed; [|subst; by destruct sys].
    destruct Hop as (clauses & Hr & ? & ? & ? & ?). eapply inv_project_write; try done.
    intros q Hq. cbn. rewrite (nextRevision_ge _ _ _ Hr Hq). lia.
  - apply DeleteProjectGatePolicy_rows in Hop as (q & Hl & _ & ? & ? & ? & ?). eapply inv_project_write; try done.
    intros q' Hq. apply livePolicy_Some in Hl as [Hl _]. assert (q' = q) as -> by congruence. cbn. lia.
  - destruct Hinv as [Hslot Hbound Hcr]. split; cbn [sys_db sys_creating]; [done..|].
    intros s' cr. destruct (decide (s = s')) as [->|Hne].
    + rewrite lookup_insert_eq. intros [= <-]. cbn. by eapply createRead_bound.
    + rewrite lookup_insert_ne by done. apply Hcr.
  - pose proof (inv_creating _ _ Hinv s cr Hcr) as Hb. destruct Hinv as [Hslot Hbound Hcreating].
    apply createWrite_rows in Hop as (_ & Hp & Hs & Hpp & Hnone & Ho). cbv zeta in *.
    split; cbn [sys_db sys_creating].
    + intros s'. rewrite Ho. autorewrite with cerbix. unfold openFor at 2. cbn [ov_ServiceID overrideRow].
      destruct (decide (s = s')) as [<-|Hne].
      * rewrite Hnone. rewrite bool_decide_eq_true_2 by done. cbn. lia.
      * rewrite bool_decide_eq_false_2 by done. cbn [andb Z.b2z].
        pose proof (count_closeWhere s' (fun o => bool_decide (ov_ServiceID o = s) && (ov_ExpiresAt o <=? cc_closed clock))
          (cc_closed clock) RevokedExpired (db_overrides (sys_db sys))). specialize (Hslot s'). lia.
    + intros o Hin Hu. rewrite Ho in Hin. apply elem_of_app in Hin as [Hin|Hin].
      * destruct (unrevoked_closeWhere _ _ _ _ _ Hin Hu) as [Hin' _].
        eapply bound_ext; [done|by rewrite Hp|by rewrite Hpp|by apply Hbound].
      * apply list_elem_of_singleton in Hin as ->. cbn. eapply bound_ext; [done|by rewrite Hp|by rewrite Hpp|done].
    + intros s' cr' Hc. apply lookup_delete_Some in Hc as [_ Hc].
      eapply bound_ext; [done|by rewrite Hp|by rewrite Hpp|by apply Hcreating].
  - destruct Hinv as [Hslot Hbound Hcr]. split; cbn [sys_db sys_creating]; [done..|].
    intros s' cr Hc. apply lookup_delete_Some in Hc as [_ Hc]. by apply Hcr.
  - destruct Hinv as [Hslot Hbound Hcr]. apply RevokeGateOverride_rows in Hop as (Hp & Hs & Hpp & Ho).
    split; cbn [sys_db sys_creating].
    + intros s'. rewrite Ho. etrans; [apply count_map_le|apply Hslot].
      intros o. case_bool_decide; [|done]. unfold openFor. cbn. by rewrite andb_false_r.
    + intros o Hin Hu. rewrite Ho in Hin. apply list_elem_of_fmap in Hin as (o' & -> & Hin).
      case_bool_decide; [done|]. eapply bound_ext; [done|by rewrite Hp|by rewrite Hpp|by apply Hbound].
    + intros s' cr Hc. eapply bound_ext; [done|by rewrite Hp|by rewrite Hpp|by apply Hcr].
Qed.

Lemma reachable_inv exclusive sys : reachable exclusive sys -> gate_inv exclusive sys.
Proof.
  apply (invariant_rule (gate_system exclusive)); [|apply gate_step_inv].
  intros sys0 [Ho Hc]. split; [intros s; by rewrite Ho, count_nil|intros o; rewrite Ho; set_solver|].
  intros s cr. rewrite Hc. by rewrite lookup_empty.
Qed.

(** ** Generations *)

(** The evolution of one policy row: unchanged, first written at revision 1, or moved to the
    next revision. *)
Definition row_advance (r r' : option GatePolicy) : Prop :=
  r' = r \/ exists q', r' = Some q' /\
    match r with None => gp_Revision q' = 1 | Some q => gp_Revision q' = gp_Revision q + 1 end.

Lemma insert_advance (m : gmap string GatePolicy) s row x :
  (match m !! s with None => gp_Revision row = 1 | Some q => gp_Revision row = gp_Revision q + 1 end) ->
  row_advance (m !! x) (<[s := row]> m !! x).
Proof.
  intros H. destruct (decide (s = x)) as [->|Hne]; [|left; by apply lookup_insert_ne].
  right. exists row. by rewrite lookup_insert_eq.
Qed.

Lemma nextRevision_advance current r (row : GatePolicy) :
  nextRevision current = Ok r -> gp_Revision row = r ->
  match current with None => gp_Revision row = 1 | Some q => gp_Revision row = gp_Revision q + 1 end.
Proof.
  destruct current as [q|]; [|by intros [= <-]]. intros H ->. by apply (nextRevision_ge _ _ q H).
Qed.

Lemma step_advance exclusive sys sys' :
  gate_step exclusive sys sys' ->
  (forall s, row_advance (db_policies (sys_db sys) !! s) (db_policies (sys_db sys') !! s)) /\
  (forall p, row_advance (db_projectPolicies (sys_db sys) !! p) (db_projectPolicies (sys_db sys') !! p)).
Proof.
  assert (forall r, row_advance r r) as Hrefl by by left.
  intros Hstep. destruct Hstep as
    [sys p s expected doc actor w c r changed db' Hun Hop
    |sys p s expected actor w c db' Hun Hop
    |sys p expected doc actor w c r changed db' Hex Hop
    |sys p expected actor w c db' Hex Hop
    |sys p s revision effective Hun Hop
    |sys s cr reason expiresAt actor clock id db' Hcr Hid Hchk Hop
    |sys s
    |sys p s id actor now closed db' Hun Hop]; cbn [sys_db]; [..|done|].
  - apply PutGatePolicy_rows in Hop as (_ & _ & clauses & _ & Hop). destruct changed.
    + destruct Hop as (Hr & sid & pid & -> & _ & -> & _). split; [|done]. intros x. apply insert_advance.
      by eapply nextRevision_advance.
    + by destruct Hop as [-> _].
  - apply DeleteGatePolicy_rows in Hop as (q & Hl & _ & -> & _ & -> & _). split; [|done]. intros x.
    apply insert_advance. apply livePolicy_Some in Hl as [-> _]. done.
  - apply PutProjectGatePolicy_rows in Hop as (_ & Hop). destruct changed; [|by subst].
    destruct Hop as (clauses & Hr & -> & _ & -> & _). split; [done|]. intros x. apply insert_advance.
    by eapply nextRevision_advance.
  - apply DeleteProjectGatePolicy_rows in Hop as (q & Hl & _ & -> & _ & -> & _). split; [done|]. intros x.
    apply insert_advance. apply livePolicy_Some in Hl as [-> _]. done.
  - done.
  - apply createWrite_rows in Hop as (_ & -> & _ & -> & _). done.
  - apply RevokeGateOverride_rows in Hop as (-> & _ & -> & _). done.
Qed.

(** Along an execution a row's revision never decreases, and keeps its value only as long as
    the row itself does not change. *)
Definition row_later (r r' : option GatePolicy) : Prop :=
  r' = r \/ exists q', r' = Some q' /\ match r with None => True | Some q => gp_Revision q < gp_Revision q' end.

Lemma row_later_trans a b c : row_advance a b -> row_later b c -> row_later a c.
Proof.
  intros [->|(b' & -> & Hb)] [->|(c' & -> & Hc)]; [by left|by right; exists c'|..].
  - right. exists b'. split; [done|]. destruct a; [lia|done].
  - right. exists c'. split; [done|]. destruct a; [lia|done].
Qed.

Lemma steps_later exclusive sys sys' :
  rtc (gate_step exclusive) sys sys' ->
  (forall s, row_later (db_policies (sys_db sys) !! s) (db_policies (sys_db sys') !! s)) /\
  (forall p, row_later (db_projectPolicies (sys_db sys) !! p) (db_projectPolicies (sys_db sys') !! p)).
Proof.
  induction 1 as [sys|x y z Hstep _ [IH1 IH2]]; [split; by left|].
  apply step_advance in Hstep as [H1 H2]. split; intros k; by eapply row_later_trans.
Qed.

Lemma row_later_same r r' q q' :
  row_later r r' -> r = Some q -> r' = Some q' ->
  gp_Revision q <= gp_Revision q' /\ (gp_Revision q = gp_Revision q' -> q = q').
Proof.
  intros [->|(x & -> & Hlt)] -> Hq.
  - injection Hq as <-. split; [lia|done].
  - injection Hq as <-. split; [lia|]. lia.
Qed.

(** revisions are generations that are never reused: along every execution of the gate's
    transactions, in any interleaving, the policy row of a service (and of a project) only
    moves to higher revisions, across deletion and re-creation too, so two observations of
    the same revision are observations of the very same row. *)
Theorem revision_identifies_policy exclusive sys sys'
  (Hsteps : rtc (gate_step exclusive) sys sys') :
  (forall s q q', db_policies (sys_db sys) !! s = Some q -> db_policies (sys_db sys') !! s = Some q' ->
     gp_Revision q <= gp_Revision q' /\ (gp_Revision q = gp_Revision q' -> q = q')) /\
  (forall p q q', db_projectPolicies (sys_db sys) !! p = Some q ->
     db_projectPolicies (sys_db sys') !! p = Some q' ->
     gp_Revision q <= gp_Revision q' /\ (gp_Revision q = gp_Revision q' -> q = q')).
Proof.
  apply steps_later in Hsteps as [H1 H2]. split; intros k q q' Hq Hq'; [eapply row_later_same; [apply H1|done..]|eapply row_later_same; [apply H2|done..]].
Qed.

(** the slot: in every interleaving of the transactions a service has at most one open
    override, and whatever that override is bound to still holds of the policy rows: either
    the service's own live policy at exactly the recorded revision, or no live policy of its
    own and the project's row at or after the recorded revision. *)
Theorem one_open_override_per_service sys (Hreach : reachable false sys) :
  (forall s, count (openFor s) (db_overrides (sys_db sys)) <= 1) /\
  (forall o, o ∈ db_overrides (sys_db sys) -> unrevoked o = true ->
     bound false (sys_db sys) (ov_ServiceID o) (ov_ProjectID o) (ov_PolicySource o)
       (ov_PolicyOwnerID o) (ov_PolicyRevision o)).
Proof. apply reachable_inv in Hreach as [Hslot Hb _]. done. Qed.

(** when no project policy write falls inside a creation, every open override is bound
    to the policy that governs its service: the effective policy exists, and the override
    records its source, its owner and its revision; so an unexpired one is active. *)
Theorem open_overrides_bind_the_effective_policy sys o
  (Hreach : reachable true sys)
  (Ho : o ∈ db_overrides (sys_db sys))
  (Hopen : Open o = true) :
  (exists e, effectiveGatePolicyTx (sys_db sys) (ov_ProjectID o) (ov_ServiceID o) = Ok e /\
     eff_Source e = ov_PolicySource o /\ eff_OwnerID e = ov_PolicyOwnerID o /\
     gp_Revision (eff_Policy e) = ov_PolicyRevision o) /\
  (forall now, now < ov_ExpiresAt o -> (scanGateOverride (sys_db sys) now o).2 = OverrideActive).
Proof.
  apply reachable_inv in Hreach as [_ Hb _].
  assert (ov_RevokedAt o = None /\ ov_RevokedReason o = None) as [Hra Hrr]
    by (unfold Open in Hopen; destruct (ov_RevokedAt o), (ov_RevokedReason o); done).
  destruct (Hb o Ho) as [Hs Hsrc]; [unfold unrevoked; by rewrite Hra|].
  assert (forall live, live = Some (ov_PolicyRevision o) -> forall now, now < ov_ExpiresAt o ->
    GateOverrideStatusAt o now live = OverrideActive) as Hact.
  { intros live -> now Hn. unfold GateOverrideStatusAt, After. rewrite Hrr.
    rewrite (bool_decide_eq_true_2 (Some (ov_PolicyRevision o) = _)) by done. cbn. by destruct (Z.ltb_spec now (ov_ExpiresAt o)); [|lia]. }
  unfold scanGateOverride, liveRevisionOf, effectiveGatePolicyTx. cbn [snd].
  destruct (ov_PolicySource o).
  - destruct Hsrc as (Hown & q & Hq & Hrev). rewrite Hq. split; [by eexists; split_and!; [reflexivity|..]|].
    apply Hact. cbn. by rewrite Hrev.
  - destruct Hsrc as (Hown & Hnone & q & Hq & _ & Hx). destruct (Hx eq_refl) as [Hlive Hrev].
    rewrite Hnone, Hq. cbn. rewrite Hlive. split; [by eexists; split_and!; [reflexivity|..]|]. apply Hact. cbn. by rewrite Hrev.
Qed.

(** no lost update: once a policy write has been accepted against revision [r], every
    later write of that service's policy that still names [r] is refused, whatever happened
    in between and whatever it carries. *)
Theorem accepted_write_outdates_its_revision exclusive sys0 sys1 sys2 p s r doc actor w c r1
  (Hput : PutGatePolicy (sys_db sys0) p s (Some r) doc actor w c = Ok (r1, true, sys_db sys1))
  (Hsteps : rtc (gate_step exclusive) sys1 sys2) :
  forall p' doc' actor' w' c' out, PutGatePolicy (sys_db sys2) p' s (Some r) doc' actor' w' c' <> Ok out.
Proof.
  intros p' doc' actor' w' c' [[r2 changed] db2] Hlater.
  apply PutGatePolicy_rows in Hput as (_ & Hcas & clauses & _ & Hr1 & sid & pid & Hp & _).
  apply PutGatePolicy_rows in Hlater as (_ & Hcas' & _).
  unfold casMatches in *.
  destruct (livePolicy (db_policies (sys_db sys0) !! s)) as [q|] eqn:Eq; [|done].
  destruct (livePolicy (db_policies (sys_db sys2) !! s)) as [q2|] eqn:Eq2; [|done].
  apply Z.eqb_eq in Hcas, Hcas'. apply livePolicy_Some in Eq as [Eq _], Eq2 as [Eq2 _].
  pose proof (nextRevision_ge _ _ _ Hr1 Eq).
  apply steps_later in Hsteps as [Hl _]. specialize (Hl s). rewrite Hp, lookup_insert_eq in Hl.
  destruct (row_later_same _ _ _ _ Hl eq_refl Eq2) as [Hle _]. cbn in Hle. lia.
Qed.

(** ** What a policy write leaves *)
Lemma normalizeMode_idem doc : normalizeMode (normalizeMode doc) = normalizeMode doc.
Proof.
  unfold normalizeMode, defaultMode. cbn [doc_WindowMode doc_SchemaVersion doc_Window doc_Clauses
    doc_BudgetConsumedPercent doc_MaxSealLagSeconds doc_UnknownBehavior]. f_equal.
  by destruct (decide (doc_WindowMode doc = ModeOther "")) as [->|Hne]; [|rewrite !(bool_decide_eq_false_2 _ Hne)].
Qed.

Lemma default_normalizeMode doc : defaultMode (doc_WindowMode (normalizeMode doc)) = doc_WindowMode (normalizeMode doc).
Proof. pose proof (normalizeMode_idem doc) as H. by injection H. Qed.

(** The comparison of the no-op rule decides equality of the stored content. *)
Lemma gatePolicyDocumentEqual_content q doc clauses :
  defaultMode (doc_WindowMode doc) = doc_WindowMode doc ->
  (forall c a, clauses !! c = Some a -> a <> AssignOther "") ->
  gatePolicyDocumentEqual q doc clauses = true <->
  gp_SchemaVersion q = doc_SchemaVersion doc /\ gp_WindowMode q = doc_WindowMode doc /\
  gp_Window q = doc_Window doc /\ gp_BudgetConsumedPercent q = doc_BudgetConsumedPercent doc /\
  gp_MaxSealLagSeconds q = doc_MaxSealLagSeconds doc /\ gp_UnknownBehavior q = doc_UnknownBehavior doc /\
  gp_Clauses q = clauses.
Proof.
  intros Hmode Hne. unfold gatePolicyDocumentEqual. rewrite Hmode, !andb_true_iff, !bool_decide_eq_true, !Z.eqb_eq.
  assert ((size (gp_Clauses q) =? size clauses)%nat = true /\
          forallb (fun ca => bool_decide (default (AssignOther "") (gp_Clauses q !! ca.1) = ca.2))
            (map_to_list clauses) = true <-> gp_Clauses q = clauses) as <-.
  2:{ tauto. }
  rewrite Nat.eqb_eq, forallb_forall. split.
  - intros [Hsize Hall]. symmetry. apply map_subseteq_size_eq; [|lia].
    apply map_subseteq_spec. intros c a Hc.
    specialize (Hall (c, a)). rewrite bool_decide_eq_true in Hall. cbn in Hall.
    specialize (Hall (proj1 (list_elem_of_In _ _) (proj2 (elem_of_map_to_list _ _ _) Hc))).
    destruct (gp_Clauses q !! c); cbn in Hall; [by subst|]. by destruct (Hne c a Hc).
  - intros ->. split; [done|]. intros [c a] Hin%list_elem_of_In%elem_of_map_to_list. cbn.
    apply bool_decide_eq_true. by rewrite Hin.
Qed.

Lemma ValidateGatePolicy_valid doc clauses :
  ValidateGatePolicy doc = Ok clauses -> forall c a, clauses !! c = Some a -> a <> AssignOther "".
Proof.
  intros [Hwf ->]%ValidateGatePolicy_Ok c a Hc ->. apply clausesOf_lookup in Hc; [|done].
  pose proof (dw_assignments _ Hwf) as Hv. rewrite list.Forall_forall in Hv. by specialize (Hv _ Hc).
Qed.

Lemma validateTx_valid db s doc clauses :
  validateGatePolicyDocumentTx db s doc = Ok clauses -> ValidateGatePolicy doc = Ok clauses.
Proof.
  unfold validateGatePolicyDocumentTx. destruct (ValidateGatePolicy doc) as [m|]; [|done].
  destruct (isAllWindows doc); [by intros [= <-]|]. destruct (WindowByName _); [|done].
  case_bool_decide; [by intros [= <-]|done].
Qed.

Lemma PutGatePolicy_same_tables db p s expected doc actor w c r changed db' :
  PutGatePolicy db p s expected doc actor w c = Ok (r, changed, db') ->
  db_targets db' = db_targets db /\ db_services db' = db_services db.
Proof.
  intros H. split; [|].
  - revert H. unfold PutGatePolicy. destruct (requireLabel actor); [|done]. cbn [rbind].
    destruct (lockServiceRowTx db p s); [|done]. cbn [rbind].
    destruct (validateGatePolicyDocumentTx _ _ _); [|done]. cbn [rbind]. destruct (refuse_if _ _); [|done]. cbn [rbind].
    destruct (match livePolicy _ with Some _ => _ | None => _ end); [by intros [= <- <- <-]|].
    destruct (nextRevision _); [|done]. cbn [rbind]. intros [= <- <- <-]. unfold insertGateAudit. by case_bool_decide.
  - apply PutGatePolicy_rows in H as (_ & _ & cl & _ & H). destruct changed; [|by destruct H as [-> _]].
    by destruct H as (_ & ? & ? & _ & -> & _).
Qed.

(** what an accepted policy write leaves: the service's live policy is at the returned
    revision and holds exactly the validated content of the request; when it reports a change
    no override of the service is left open, and when it reports none nothing was written;
    and sending the same document again against the returned revision is accepted as a
    no-op that changes nothing. *)
Theorem put_policy_installs_and_is_idempotent db p s expected doc actor w c r changed db'
  (Hput : PutGatePolicy db p s expected doc actor w c = Ok (r, changed, db')) :
  (exists q clauses, GetGatePolicy db' p s = Ok q /\ gp_Revision q = r /\
     ValidateGatePolicy (normalizeMode doc) = Ok clauses /\ gp_Clauses q = clauses /\
     gp_Window q = doc_Window doc /\ gp_WindowMode q = defaultMode (doc_WindowMode doc) /\
     gp_SchemaVersion q = doc_SchemaVersion doc /\
     gp_BudgetConsumedPercent q = doc_BudgetConsumedPercent doc /\
     gp_MaxSealLagSeconds q = doc_MaxSealLagSeconds doc /\ gp_UnknownBehavior q = doc_UnknownBehavior doc) /\
  (if changed then count (openFor s) (db_overrides db') = 0 else db' = db) /\
  (forall w' c', PutGatePolicy db' p s (Some r) doc actor w' c' = Ok (r, false, db')).
Proof.
  pose proof (PutGatePolicy_same_tables _ _ _ _ _ _ _ _ _ _ _ Hput) as [Htg Hsv].
  pose proof (PutGatePolicy_rows _ _ _ _ _ _ _ _ _ _ _ Hput) as (Hs & _ & clauses & Hv & Hrows).
  assert (requireLabel actor = Ok tt) as Hlabel.
  { revert Hput. unfold PutGatePolicy. by destruct (requireLabel actor) as [[]|]. }
  pose proof (validateTx_valid _ _ _ _ Hv) as Hv'. pose proof (ValidateGatePolicy_valid _ _ Hv') as Hne.
  pose proof (fun q => gatePolicyDocumentEqual_content q (normalizeMode doc) clauses
                         (default_normalizeMode doc) Hne) as Hcontent.
  assert (exists q, livePolicy (db_policies db' !! s) = Some q /\ gp_Revision q = r /\
            gatePolicyDocumentEqual q (normalizeMode doc) clauses = true) as (q & Hq & Hrev & Heq).
  { destruct changed; [|destruct Hrows as [-> ?]; done].
    destruct Hrows as (_ & sid & pid & -> & _). rewrite lookup_insert_eq. eexists.
    split_and!; [reflexivity..|]. by apply Hcontent. }
  split_and!.
  - exists q, clauses. apply Hcontent in Heq as (? & ? & ? & ? & ? & ? & ?).
    split_and!; try done. unfold GetGatePolicy, lockServiceRowTx. rewrite Hsv, Hs, bool_decide_eq_true_2 by done.
    cbn. by rewrite Hq.
  - destruct changed; [|by destruct Hrows]. destruct Hrows as (_ & sid & pid & _ & _ & _ & ->).
    apply count_none. intros o Ho. destruct (openFor s o) eqn:E; [|done].
    apply andb_prop in E as [E1 E2]. destruct (unrevoked_closeWhere _ _ _ _ _ Ho E2) as [_ H]. congruence.
  - intros w' c'. unfold PutGatePolicy. rewrite Hlabel. cbn [rbind].
    unfold lockServiceRowTx. rewrite Hsv, Hs, bool_decide_eq_true_2 by done. cbn [negb refuse_if rbind].
    assert (validateGatePolicyDocumentTx db' s (normalizeMode doc) = Ok clauses) as ->.
    { rewrite <- Hv. unfold validateGatePolicyDocumentTx. by rewrite Htg. }
    cbn [rbind]. rewrite Hq. cbn [casMatches]. rewrite Hrev, Z.eqb_refl. cbn [negb refuse_if rbind]. by rewrite Heq.
Qed.

(** ** What a creation leaves *)
Lemma count_zero_filter s os :
  count (openFor s) os = 0 -> List.filter (fun o => bool_decide (ov_ServiceID o = s) && unrevoked o) os = [].
Proof. unfold count. intros H. apply length_zero_iff_nil. change (fun o => _) with (openFor s). lia. Qed.

Lemma merge_sort_singleton {A} (R : relation A) `{∀ x y, Decision (R x y)} (x : A) : merge_sort R [x] = [x].
Proof. apply Permutation_singleton_r. by rewrite merge_sort_Permutation. Qed.

(** a created override is the one decisions use: after a successful creation the service
    is still governed by the policy the creation saw, and until the override expires the
    decision path selects exactly this override. *)
Theorem created_override_is_selected db p s rev reason expiresAt actor clock id db' at_
  (Hcreate : CreateGateOverride db p s rev reason expiresAt actor clock id = Ok db')
  (Hat : at_ < expiresAt) :
  exists e o, effectiveGatePolicyTx db' p s = Ok e /\ gp_Revision (eff_Policy e) = rev /\
    activeGateOverrideTx (db_overrides db') s at_ e = Some o /\
    ov_ID o = id /\ ov_ExpiresAt o = expiresAt /\ ov_ActorLabel o = ga_Label actor /\
    expiresAt <= cc_now clock + 7 * 24 * Hour.
Proof.
  unfold CreateGateOverride in Hcreate. destruct (createChecks reason actor); [|done]. cbn [rbind] in Hcreate.
  unfold createRead in Hcreate. destruct (lockServiceRowTx db p s) as [[]|]; [|done]. cbn [rbind] in Hcreate.
  destruct (effectiveGatePolicyTx db p s) as [e|[]] eqn:Ee; try done.
  destruct (refuse_if _ _) as [[]|] eqn:Ec; [|done]. apply refuse_if_Ok, negb_false_iff, Z.eqb_eq in Ec.
  cbn [rbind] in Hcreate. apply createWrite_rows in Hcreate as (Hexp & Hp & Hs & Hpp & Hnone & Ho). cbv zeta in *.
  exists e, (overrideRow id p s rev e reason expiresAt (cc_inserted clock) actor).
  split_and!; [unfold effectiveGatePolicyTx; by rewrite Hp, Hpp|done| |done..|unfold GateOverrideMaxDuration in Hexp; lia].
  unfold activeGateOverrideTx. rewrite Ho, List.filter_app.
  change (fun o => bool_decide (ov_ServiceID o = s) && match ov_RevokedAt o with None => true | Some _ => false end)
    with (fun o => bool_decide (ov_ServiceID o = s) && unrevoked o).
  rewrite count_zero_filter by done. cbn [List.filter app overrideRow ov_ServiceID unrevoked ov_RevokedAt].
  rewrite bool_decide_eq_true_2 by done. cbn [andb]. rewrite merge_sort_singleton.
  cbn [List.find overrideRow ov_PolicySource ov_PolicyOwnerID]. rewrite !bool_decide_eq_true_2; [done|..|done|done].
  unfold GateOverrideStatusAt, After. cbn [overrideRow ov_RevokedReason ov_PolicyRevision ov_ExpiresAt].
  rewrite Ec, (bool_decide_eq_true_2 (Some rev = Some rev)) by done. cbn.
  by destruct (Z.ltb_spec at_ expiresAt); [|lia].
Qed.

(** ** A concrete database, for the witnesses *)
Definition demoActor : GateActor := {| ga_ActorUserID := "u1"; ga_ViaToken := false; ga_Label := "user:ann" |}.

Definition demoDB : GateDB :=
  {| db_services := {[ "s" := "p" ]}; db_projects := {[ "p" ]}; db_targets := {[ ("s", "30d") ]};
     db_policies := ∅; db_projectPolicies := ∅; db_overrides := []; db_audit := [] |}.

(** [demoDoc] with another consumed-percent threshold. *)
Definition demoDoc2 : GatePolicyDocument :=
  {| doc_SchemaVersion := 1; doc_WindowMode := ModeOne; doc_Window := "30d";
     doc_Clauses := doc_Clauses demoDoc; doc_BudgetConsumedPercent := 50; doc_MaxSealLagSeconds := 600;
     doc_UnknownBehavior := UnknownBlock |}.

Definition okOr {E A} (d : A) (r : result E A) : A := match r with Ok a => a | Err _ => d end.

Definition putDB (db : GateDB) (expected : option Z) (doc : GatePolicyDocument) : GateDB :=
  (okOr (0, false, db) (PutGatePolicy db "p" "s" expected doc demoActor demoAt demoAt)).2.
Definition putProjectDB (db : GateDB) (expected : option Z) (doc : GatePolicyDocument) : GateDB :=
  (okOr (0, false, db) (PutProjectGatePolicy db "p" expected doc demoActor demoAt demoAt)).2.

Definition demoClock : createClock := {| cc_now := demoAt; cc_closed := demoAt; cc_inserted := demoAt |}.

(** The service's policy at revision 1, then an override bound to it. *)
Definition demoDB1 : GateDB := putDB demoDB None demoDoc.
Definition demoDB2 : GateDB :=
  okOr demoDB1 (CreateGateOverride demoDB1 "p" "s" 1 "hotfix" (demoAt + Hour) demoActor demoClock "o1").

Definition sysOf (db : GateDB) : gateSystem := {| sys_db := db; sys_creating := ∅ |}.

Definition demoCreation (db : GateDB) (rev : Z) : creation :=
  {| cr_project := "p"; cr_revision := rev;
     cr_effective := match createRead db "p" "s" rev with
                     | Ok e => e
                     | Err _ => demoEffective
                     end |}.

(** Reading and committing a creation with nothing in between. *)
Lemma create_steps exclusive db s p rev e reason expiresAt actor clock id db' :
  createRead db p s rev = Ok e -> id ∉ map ov_ID (db_overrides db) -> createChecks reason actor = Ok tt ->
  createWrite db p s rev e reason expiresAt actor clock id = Ok db' ->
  rtc (gate_step exclusive) (sysOf db) (sysOf db').
Proof.
  intros Hr Hid Hc Hw. eapply rtc_l; [eapply (step_create_read exclusive (sysOf db)); [|exact Hr]|].
  { apply lookup_empty. }
  eapply rtc_once.
  pose proof (step_create_commit exclusive
    {| sys_db := db; sys_creating := <[s := {| cr_project := p; cr_revision := rev; cr_effective := e |}]> ∅ |}
    s {| cr_project := p; cr_revision := rev; cr_effective := e |} reason expiresAt actor clock id db') as Hstep.
  cbn [sys_db sys_creating cr_project cr_revision cr_effective] in Hstep. unfold sysOf. cbn [sys_db sys_creating].
  rewrite delete_insert_id in Hstep by apply lookup_empty. apply Hstep; [by rewrite lookup_insert_eq|done..].
Qed.

Lemma demo_reachable : reachable true (sysOf demoDB2).
Proof.
  exists (sysOf demoDB). split; [done|]. eapply rtc_l.
  - apply (step_put true (sysOf demoDB) "p" "s" None demoDoc demoActor demoAt demoAt 1 true demoDB1); by vm_compute.
  - apply (create_steps true demoDB1 "s" "p" 1 (cr_effective (demoCreation demoDB1 1)) "hotfix" (demoAt + Hour)
             demoActor demoClock "o1"); [by vm_compute|by vm_compute; inversion 1|by vm_compute..].
Qed.

Lemma reachable_weaken sys : reachable true sys -> reachable false sys.
Proof.
  apply reachable_mono; [done|]. intros x y Hs.
  destruct Hs; [by eapply step_put|by eapply step_delete|by eapply step_project_put|by eapply step_project_delete
    |by apply step_create_read|by eapply step_create_commit|by apply step_create_abort|by eapply step_revoke].
Qed.

(** ** The race: an override nobody can use, replace or revoke *)

(** An unexpired open override blocks every creation for its service. *)
Lemma open_override_blocks db o p rev reason expiresAt actor clock id out :
  o ∈ db_overrides db -> unrevoked o = true -> cc_closed clock < ov_ExpiresAt o ->
  CreateGateOverride db p (ov_ServiceID o) rev reason expiresAt actor clock id <> Ok out.
Proof.
  intros Ho Hu Hexp Hc. unfold CreateGateOverride in Hc.
  destruct (createChecks _ _); [|done]. cbn [rbind] in Hc.
  destruct (createRead _ _ _ _) as [e|]; [|done]. cbn [rbind] in Hc.
  apply createWrite_rows in Hc as (_ & _ & _ & _ & Hnone & _). cbv zeta in Hnone.
  assert (openFor (ov_ServiceID o) o = false) as Hf.
  { apply (count_zero _ _ Hnone). unfold closeWhere. apply list_elem_of_fmap. exists o. split; [|done].
    destruct (Z.leb_spec (ov_ExpiresAt o) (cc_closed clock)); [lia|]. by rewrite andb_false_r. }
  unfold openFor in Hf. by rewrite bool_decide_eq_true_2, Hu in Hf.
Qed.

(** The project policy at revision 1, then at revision 2 while a creation that read
    revision 1 is in flight, then the creation's commit. *)
Definition raceDB1 : GateDB := putProjectDB demoDB None demoDoc.
Definition raceDB2 : GateDB := putProjectDB raceDB1 (Some 1) demoDoc2.
Definition raceEffective : EffectiveGatePolicy := cr_effective (demoCreation raceDB1 1).
Definition raceDB3 : GateDB :=
  okOr raceDB2 (createWrite raceDB2 "p" "s" 1 raceEffective "hotfix" (demoAt + Hour) demoActor demoClock "o1").
Definition raceOverride : GateOverride :=
  overrideRow "o1" "p" "s" 1 raceEffective "hotfix" (demoAt + Hour) demoAt demoActor.

Lemma race_reachable : reachable false (sysOf raceDB3).
Proof.
  exists (sysOf demoDB). split; [done|]. eapply rtc_l.
  { by apply (step_project_put false (sysOf demoDB) "p" None demoDoc demoActor demoAt demoAt 1 true raceDB1); vm_compute. }
  eapply rtc_l; [eapply (step_create_read false (sysOf raceDB1) "p" "s" 1 raceEffective); by vm_compute|].
  eapply rtc_l.
  { by apply (step_project_put false
      {| sys_db := raceDB1;
         sys_creating := <["s" := {| cr_project := "p"; cr_revision := 1; cr_effective := raceEffective |}]> ∅ |}
      "p" (Some 1) demoDoc2 demoActor demoAt demoAt 2 true raceDB2); vm_compute. }
  eapply rtc_once.
  pose proof (step_create_commit false
    {| sys_db := raceDB2;
       sys_creating := <["s" := {| cr_project := "p"; cr_revision := 1; cr_effective := raceEffective |}]> ∅ |}
    "s" {| cr_project := "p"; cr_revision := 1; cr_effective := raceEffective |} "hotfix" (demoAt + Hour)
    demoActor demoClock "o1" raceDB3) as Hstep.
  cbn [sys_db sys_creating cr_project cr_revision cr_effective] in Hstep.
  rewrite delete_insert_id in Hstep by apply lookup_empty.
  apply Hstep; [by rewrite lookup_insert_eq|by vm_compute; inversion 1|by vm_compute..].
Qed.

(** override creation reads the project policy without excluding its writers: there is a
    reachable state, with no transaction in flight, in which an open override of the service
    is bound to a project revision that is already superseded. It is inert at every instant,
    so no decision uses it; it refuses every new override until it expires, including one
    for the current revision; and no revocation of it succeeds. *)
Theorem racing_project_write_strands_an_override :
  exists sys o, reachable false sys /\ sys_creating sys = ∅ /\
    o ∈ db_overrides (sys_db sys) /\ Open o = true /\
    (forall now, (scanGateOverride (sys_db sys) now o).2 = OverrideInert) /\
    (forall at_ e, effectiveGatePolicyTx (sys_db sys) (ov_ProjectID o) (ov_ServiceID o) = Ok e ->
       activeGateOverrideTx (db_overrides (sys_db sys)) (ov_ServiceID o) at_ e = None) /\
    (forall p rev reason expiresAt actor clock id out, cc_closed clock < ov_ExpiresAt o ->
       CreateGateOverride (sys_db sys) p (ov_ServiceID o) rev reason expiresAt actor clock id <> Ok out) /\
    CreateGateOverride (sys_db sys) (ov_ProjectID o) (ov_ServiceID o) 2 "hotfix" (demoAt + Hour) demoActor
      demoClock "o2" = Err ErrGateOverrideActive /\
    (forall p s actor now closed out, RevokeGateOverride (sys_db sys) p s (ov_ID o) actor now closed <> Ok out).
Proof.
  exists (sysOf raceDB3), raceOverride. cbn [sys_db sysOf sys_creating].
  assert (db_overrides raceDB3 = [raceOverride]) as Hos by by vm_compute.
  assert (forall now, (scanGateOverride raceDB3 now raceOverride).2 = OverrideInert) as Hinert.
  { intros now. unfold scanGateOverride. cbn [snd].
    assert (liveRevisionOf raceDB3 raceOverride = Some 2) as -> by by vm_compute. reflexivity. }
  assert (raceOverride ∈ db_overrides raceDB3) as Hin by (rewrite Hos; by apply list_elem_of_singleton).
  split; [exact race_reachable|]. split; [reflexivity|]. split; [exact Hin|]. split; [by vm_compute|].
  split; [exact Hinert|]. split; [|split; [|split]].
  - intros at_ e He.
    assert (match effectiveGatePolicyTx raceDB3 (ov_ProjectID raceOverride) (ov_ServiceID raceOverride) with
            | Ok e => gp_Revision (eff_Policy e) | Err _ => 0 end = 2) as Hr by by vm_compute.
    rewrite He in Hr. unfold activeGateOverrideTx. rewrite Hos. cbn [List.filter].
    replace (bool_decide _ && _) with true by by vm_compute. rewrite merge_sort_singleton. cbn [List.find].
    rewrite Hr. assert (GateOverrideStatusAt raceOverride at_ (Some 2) = OverrideInert) as -> by reflexivity.
    rewrite (bool_decide_eq_false_2 (OverrideInert = OverrideActive)) by discriminate. by rewrite andb_false_r.
  - intros p rev reason expiresAt actor clock id out Hexp. apply open_override_blocks; [exact Hin|by vm_compute|exact Hexp].
  - by vm_compute.
  - intros p s actor now closed out. unfold RevokeGateOverride. destruct (requireLabel actor); [|done]. cbn [rbind].
    destruct (lockServiceRowTx raceDB3 p s); [|done]. cbn [rbind].
    unfold findOverride. rewrite Hos. cbn [List.find]. destruct (_ && _); [|done].
    by rewrite Hinert.
Qed.

Example one_open_override_per_service_witness :
  count (openFor "s") (db_overrides demoDB2) = 1 /\ count (openFor "s") (db_overrides demoDB2) <= 1.
Proof.
  split; [by vm_compute|].
  apply (proj1 (one_open_override_per_service (sysOf demoDB2) (reachable_weaken _ demo_reachable)) "s").
Defined.

Definition demoOpen : GateOverride :=
  overrideRow "o1" "p" "s" 1 (cr_effective (demoCreation demoDB1 1)) "hotfix" (demoAt + Hour) demoAt demoActor.

Example open_overrides_bind_the_effective_policy_witness :
  (scanGateOverride demoDB2 demoAt demoOpen).2 = OverrideActive.
Proof.
  apply (proj2 (open_overrides_bind_the_effective_policy (sysOf demoDB2) demoOpen demo_reachable
    ltac:(vm_compute; by left) ltac:(by vm_compute)) demoAt). reflexivity.
Defined.

Example revision_identifies_policy_witness :
  exists q q', db_policies demoDB1 !! "s" = Some q /\ db_policies (putDB demoDB1 (Some 1) demoDoc2) !! "s" = Some q' /\
    gp_Revision q <= gp_Revision q'.
Proof.
  assert (rtc (gate_step false) (sysOf demoDB1) (sysOf (putDB demoDB1 (Some 1) demoDoc2))) as Hsteps.
  { eapply rtc_once. by apply (step_put false (sysOf demoDB1) "p" "s" (Some 1) demoDoc2 demoActor demoAt demoAt 2 true); vm_compute. }
  eexists _, _. split; [by vm_compute|]. split; [by vm_compute|].
  eapply (proj1 (revision_identifies_policy false _ _ Hsteps) "s"); by vm_compute.
Defined.

Example accepted_write_outdates_its_revision_witness :
  PutGatePolicy (putDB demoDB1 (Some 1) demoDoc2) "p" "s" (Some 1) demoDoc demoActor demoAt demoAt
  <> Ok (2, true, demoDB1).
Proof.
  apply (accepted_write_outdates_its_revision false (sysOf demoDB1) (sysOf (putDB demoDB1 (Some 1) demoDoc2))
           (sysOf (putDB demoDB1 (Some 1) demoDoc2)) "p" "s" 1 demoDoc2 demoActor demoAt demoAt 2);
    [by vm_compute|constructor].
Defined.

Example put_policy_installs_and_is_idempotent_witness :
  exists q, GetGatePolicy demoDB1 "p" "s" = Ok q /\ gp_Revision q = 1.
Proof.
  destruct (put_policy_installs_and_is_idempotent demoDB "p" "s" None demoDoc demoActor demoAt demoAt 1 true demoDB1)
    as ((q & clauses & Hq & Hr & _) & _ & _); [by vm_compute|]. by exists q.
Defined.

Example created_override_is_selected_witness :
  exists e o, effectiveGatePolicyTx demoDB2 "p" "s" = Ok e /\
    activeGateOverrideTx (db_overrides demoDB2) "s" (demoAt + Minute) e = Some o /\ ov_ID o = "o1".
Proof.
  destruct (created_override_is_selected demoDB1 "p" "s" 1 "hotfix" (demoAt + Hour) demoActor demoClock "o1"
              demoDB2 (demoAt + Minute)) as (e & o & He & _ & Ho & Hid & _); [by vm_compute|reflexivity|].
  by exists e, o.
Defined.
