(* ===== verification/OnCall.v ===== *)
(** * On-call rotations and alert routing
    ([internal/domain/escalation.go], [resolveServiceRecipientsTx] of
    [internal/store/servicealerteval.go])

    The escalation policy and rotation records with their validators, the rotation as a pure
    function of time, and the recipients of a service alert. *)

From S2P Require Import Prelude GoFloat GoString.

(** ** Escalation policies *)
Inductive EscalationTargetType := TargetChannel | TargetSchedule | TargetOther (s : string).

Definition EscalationTargetType_Valid (t : EscalationTargetType) : bool :=
  match t with TargetChannel | TargetSchedule => true | TargetOther _ => false end.

Record EscalationTarget := { et_Type : EscalationTargetType; et_ID : string }.
Record EscalationStep := { es_AfterSeconds : Z; es_Targets : list EscalationTarget }.

Record EscalationPolicy := {
  ep_ID : string;
  ep_ProjectID : string;
  ep_Name : string;
  ep_RepeatLast : bool;
  ep_Steps : list EscalationStep;
}.

(** The refusals; steps and participants are numbered from 1. *)
Inductive EscalationError :=
| EscNameRequired
| EscProjectRequired
| EscNoSteps
| EscNegativeAfter (step : Z)
| EscDecreasingAfter (step : Z)
| EscNoTargets (step : Z)
| EscUnknownTargetType (step : Z) (t : EscalationTargetType)
| EscEmptyTargetID (step : Z)
| EscChannelRequired
| EscEndsBeforeStarts
| EscShiftNotPositive
| EscNoParticipants
| EscEmptyParticipant (i : Z).

Definition blank (s : string) : bool := bool_decide (TrimSpace s = "").

Fixpoint validateTargets (step : Z) (ts : list EscalationTarget) : result EscalationError unit :=
  match ts with
  | [] => Ok tt
  | t :: rest =>
    let! _ := refuse_if (negb (EscalationTargetType_Valid (et_Type t))) (EscUnknownTargetType step (et_Type t)) in
    let! _ := refuse_if (blank (et_ID t)) (EscEmptyTargetID step) in
    validateTargets step rest
  end.

Fixpoint validateSteps (step prev : Z) (ss : list EscalationStep) : result EscalationError unit :=
  match ss with
  | [] => Ok tt
  | s :: rest =>
    let! _ := refuse_if (es_AfterSeconds s <? 0) (EscNegativeAfter step) in
    let! _ := refuse_if (es_AfterSeconds s <? prev) (EscDecreasingAfter step) in
    let! _ := refuse_if (Nat.eqb (length (es_Targets s)) 0) (EscNoTargets step) in
    let! _ := validateTargets step (es_Targets s) in
    validateSteps (step + 1) (es_AfterSeconds s) rest
  end.

Definition EscalationPolicy_Validate (p : EscalationPolicy) : result EscalationError unit :=
  let! _ := refuse_if (blank (ep_Name p)) EscNameRequired in
  let! _ := refuse_if (bool_decide (ep_ProjectID p = "")) EscProjectRequired in
  let! _ := refuse_if (Nat.eqb (length (ep_Steps p)) 0) EscNoSteps in
  validateSteps 1 (-1) (ep_Steps p).

(** ** Rotations *)
Record OnCallOverride := {
  oo_ID : string;
  oo_ScheduleID : string;
  oo_ChannelID : string;
  oo_StartsAt : Time;
  oo_EndsAt : Time;
}.

Definition OnCallOverride_Validate (o : OnCallOverride) : result EscalationError unit :=
  let! _ := refuse_if (blank (oo_ChannelID o)) EscChannelRequired in
  refuse_if (negb (After (oo_EndsAt o) (oo_StartsAt o))) EscEndsBeforeStarts.

Record OnCallSchedule := {
  oc_ID : string;
  oc_ProjectID : string;
  oc_Name : string;
  oc_ShiftSeconds : Z;
  oc_AnchorAt : Time;
  oc_Participants : list string;
  oc_Overrides : list OnCallOverride;
}.

Fixpoint validateParticipants (i : Z) (ps : list string) : result EscalationError unit :=
  match ps with
  | [] => Ok tt
  | c :: rest =>
    let! _ := refuse_if (blank c) (EscEmptyParticipant i) in
    validateParticipants (i + 1) rest
  end.

Definition OnCallSchedule_Validate (s : OnCallSchedule) : result EscalationError unit :=
  let! _ := refuse_if (blank (oc_Name s)) EscNameRequired in
  let! _ := refuse_if (bool_decide (oc_ProjectID s = "")) EscProjectRequired in
  let! _ := refuse_if (oc_ShiftSeconds s <=? 0) EscShiftNotPositive in
  let! _ := refuse_if (Nat.eqb (length (oc_Participants s)) 0) EscNoParticipants in
  validateParticipants 1 (oc_Participants s).

(** [IsChannelID], on bytes: a code point outside ASCII starts at some byte offset and is
    neither a dash nor a hexadecimal digit, so it is refused there. *)
Definition channelIDByte (i : nat) (b : Z) : bool :=
  if bool_decide (i ∈ [8; 13; 18; 23]%nat) then b =? 45
  else inRange 48 57 b || inRange 97 102 b || inRange 65 70 b.

Fixpoint channelIDBytes (i : nat) (l : bytes) : bool :=
  match l with
  | [] => true
  | b :: rest => channelIDByte i b && channelIDBytes (S i) rest
  end.

Definition IsChannelID (s : string) : bool :=
  let l := bytesOf s in Nat.eqb (length l) 36 && channelIDBytes 0 l.

(** [OnCall]: the rotation slot is computed in [float64]. *)
Definition slotOf (s : OnCallSchedule) (t : Time) : Z :=
  toInt64 (Floor (fdiv (Seconds (Sub t (oc_AnchorAt s))) (fofZ (oc_ShiftSeconds s)))).

Definition slotIndex (slot n : Z) : Z := Z.rem (add64 (Z.rem slot n) n) n.

Definition overrideActive (t : Time) (o : OnCallOverride) : bool :=
  negb (Before t (oo_StartsAt o)) && Before t (oo_EndsAt o).

Definition OnCall (s : OnCallSchedule) (t : Time) : string :=
  match List.find (overrideActive t) (oc_Overrides s) with
  | Some o => oo_ChannelID o
  | None =>
    match oc_Participants s with
    | [] => ""
    | first :: _ =>
      if oc_ShiftSeconds s <=? 0 then first
      else
        let n := Z.of_nat (length (oc_Participants s)) in
        nth (Z.to_nat (slotIndex (slotOf s t) n)) (oc_Participants s) ""
    end
  end.

(** ** Routing *)
Record NotificationChannel := { nc_ID : string; nc_ProjectID : string; nc_Enabled : bool }.

Inductive RouteError := NotAChannelID (schedule participant : string).

Definition projectChannels (channels : list NotificationChannel) (projectID : string) : list string :=
  merge_sort String.le
    (map nc_ID (List.filter (fun c => bool_decide (nc_ProjectID c = projectID) && nc_Enabled c) channels)).

(** [resolveServiceRecipientsTx]: [schedule] is the service's schedule row when it names one
    that still exists, with its overrides loaded. *)
Definition resolveServiceRecipientsTx (channels : list NotificationChannel) (projectID : string)
    (schedule : option OnCallSchedule) (at_ : Time) : result RouteError (list string) :=
  match schedule with
  | Some sc =>
    let ch := OnCall sc at_ in
    if bool_decide (ch = "") then Ok (projectChannels channels projectID)
    else if negb (IsChannelID ch) then Err (NotAChannelID (oc_ID sc) ch)
    else if existsb (fun c => bool_decide (nc_ID c = ch) && bool_decide (nc_ProjectID c = projectID) && nc_Enabled c)
              channels
         then Ok [ch]
         else Ok (projectChannels channels projectID)
  | None => Ok (projectChannels channels projectID)
  end.

(** ** The rotation always names somebody *)
Lemma slotIndex_range slot n :
  int64_min <= slot <= int64_max -> 0 < n <= 2 ^ 31 -> 0 <= slotIndex slot n < n /\
  slotIndex slot n = slot mod n.
Proof.
  intros Hs Hn. pose proof (Z.rem_bound_abs slot n ltac:(lia)) as Hr.
  assert (- n < Z.rem slot n < n) as Hb by lia. unfold slotIndex, add64.
  rewrite wrap64_id by (unfold int64_min, int64_max; lia).
  rewrite Z.rem_mod_nonneg by lia.
  assert (Z.rem slot n mod n = slot mod n) as Hm.
  { pose proof (Z.quot_rem' slot n) as Hq. rewrite Hq at 2.
    rewrite Z.add_comm, Z.mul_comm, Z_mod_plus_full. done. }
  rewrite <- Hm. rewrite <- (Z_mod_plus_full (Z.rem slot n) 1 n). rewrite Z.mul_1_l.
  split; [apply Z.mod_pos_bound; lia|done].
Qed.

Lemma toInt64_range x : int64_min <= toInt64 x <= int64_max.
Proof.
  assert (int64_min <= int64_min <= int64_max) by (unfold int64_min, int64_max; lia).
  assert (int64_min <= 0 <= int64_max) by (unfold int64_min, int64_max; lia).
  unfold toInt64. destruct x; [done..|]. cbv zeta.
  match goal with |- context [(int64_min <=? ?v) && _] => set (v' := v) end.
  destruct (Z.leb_spec int64_min v'), (Z.leb_spec v' int64_max); cbn [andb]; (done || lia).
Qed.

(** the rotation always names somebody: for a schedule the validator accepts, at every
    instant (before the anchor and arbitrarily far from it too) the answer is either the
    channel of the first override in force, or the participant at the rotation slot modulo
    the number of participants; it is never an index out of range and never empty. *)
Theorem on_call_is_always_somebody s t
  (Hvalid : OnCallSchedule_Validate s = Ok tt)
  (Hoverrides : Forall (fun o => OnCallOverride_Validate o = Ok tt) (oc_Overrides s))
  (Hlen : Z.of_nat (length (oc_Participants s)) <= 2 ^ 31) :
  OnCall s t <> "" /\
  match List.find (overrideActive t) (oc_Overrides s) with
  | Some o => OnCall s t = oo_ChannelID o
  | None => oc_Participants s !! Z.to_nat (slotOf s t mod Z.of_nat (length (oc_Participants s))) = Some (OnCall s t)
  end.
Proof.
  assert (forall c, TrimSpace c <> "" -> c <> "") as Htrim by (intros c H ->; by apply H).
  revert Hvalid. unfold OnCallSchedule_Validate, blank.
  destruct (refuse_if _ EscNameRequired) as [[]|]; [|done]. cbn [rbind].
  destruct (refuse_if _ EscProjectRequired) as [[]|]; [|done]. cbn [rbind].
  destruct (refuse_if _ EscShiftNotPositive) as [[]|] eqn:Es; [|done]. cbn [rbind].
  destruct (refuse_if _ EscNoParticipants) as [[]|] eqn:Ep; [|done]. cbn [rbind].
  apply refuse_if_Ok in Es, Ep. intros Hps.
  assert (forall i ps, validateParticipants i ps = Ok tt -> Forall (fun c => c <> "") ps) as Hne.
  { intros i ps. revert i. induction ps as [|c ps IH]; intros i; cbn; [constructor|].
    destruct (blank c) eqn:Eb; [done|]. cbn [refuse_if rbind]. intros H.
    apply bool_decide_eq_false in Eb. constructor; [by apply Htrim|by eapply IH]. }
  apply Hne in Hps. unfold OnCall.
  destruct (List.find (overrideActive t) (oc_Overrides s)) as [o|] eqn:Ef.
  - apply find_some in Ef as [Ho _]. split; [|done]. rewrite list.Forall_forall in Hoverrides.
    specialize (Hoverrides o (proj2 (list_elem_of_In _ _) Ho)). revert Hoverrides.
    unfold OnCallOverride_Validate, blank. case_bool_decide as Eb; [done|]. intros _. by apply Htrim.
  - destruct (oc_Participants s) as [|first rest] eqn:Eps; [done|]. rewrite Es.
    set (ps := first :: rest) in *. set (n := Z.of_nat (length ps)) in *.
    destruct (slotIndex_range (slotOf s t) n (toInt64_range _)) as [Hr Hm]; [unfold n, ps in *; cbn [length] in *; lia|].
    rewrite Hm in *. assert (ps !! Z.to_nat (slotOf s t mod n) = Some (nth (Z.to_nat (slotOf s t mod n)) ps "")) as Hl.
    { destruct (lookup_lt_is_Some_2 ps (Z.to_nat (slotOf s t mod n))) as [x Hx]; [unfold n in *; lia|].
      by rewrite nth_lookup, Hx. }
    split; [|done]. rewrite list.Forall_forall in Hps. apply Hps. by eapply list_elem_of_lookup_2.
Qed.

Definition demoSchedule : OnCallSchedule :=
  {| oc_ID := "r1"; oc_ProjectID := "p"; oc_Name := "primary"; oc_ShiftSeconds := 604800;
     oc_AnchorAt := unixEpoch; oc_Participants := ["ann"; "bob"; "cy"]; oc_Overrides := [] |}.

Example on_call_is_always_somebody_witness :
  OnCall demoSchedule (unixEpoch - Hour) = "cy" /\ OnCall demoSchedule (unixEpoch - Hour) <> "".
Proof.
  split; [by vm_compute|].
  apply (on_call_is_always_somebody demoSchedule (unixEpoch - Hour)); [by vm_compute|constructor|done].
Defined.

(** The slot is floor((t - anchor) / shift) only up to the precision of [float64]: two years
    after the anchor the last nanosecond of a shift already belongs to the next one. *)
Example on_call_hands_over_a_nanosecond_early :
  let t := unixEpoch + 104 * 604800 * Second - 1 in
  (t - oc_AnchorAt demoSchedule) / (oc_ShiftSeconds demoSchedule * Second) = 103 /\ slotOf demoSchedule t = 104.
Proof. split; by vm_compute. Qed.
