(* ===== verification/Incidents.v ===== *)
(** * Incidents (domain/incident.go, store/incidents.go, store/serviceincidents.go,
      store/incidentaudit.go, store/incidentcontext.go)

    The lifecycle of an incident, the rows the store keeps about it, and one function per
    transaction.  A transaction that takes the incident's row lock reads its clock after the
    lock: [asOf]; [txNow] is the start of the transaction, the default of the time columns.
    Identifiers the database generates are arguments.  Payloads of the outbox are built
    through the class [IncidentPayload]. *)

From S2P Require Import Prelude GoFloat GoString Outbox OnCall.

(** ** The lifecycle *)

Inductive IncidentStatus :=
| IncidentInvestigating | IncidentIdentified | IncidentMonitoring | IncidentResolved
| IncidentStatusOther (s : string).
#[export] Instance incidentStatus_eq : EqDecision IncidentStatus.
Proof. solve_decision. Defined.

Definition IncidentStatus_text (s : IncidentStatus) : string :=
  match s with
  | IncidentInvestigating => "investigating" | IncidentIdentified => "identified"
  | IncidentMonitoring => "monitoring" | IncidentResolved => "resolved"
  | IncidentStatusOther s => s
  end.

Definition IncidentStatus_Valid (s : IncidentStatus) : bool :=
  match s with
  | IncidentInvestigating | IncidentIdentified | IncidentMonitoring | IncidentResolved => true
  | IncidentStatusOther _ => false
  end.

Definition Terminal (s : IncidentStatus) : bool := bool_decide (s = IncidentResolved).

Definition rank (s : IncidentStatus) : Z :=
  match s with
  | IncidentInvestigating => 0 | IncidentIdentified => 1 | IncidentMonitoring => 2
  | IncidentResolved => 3 | IncidentStatusOther _ => -1
  end.

Definition CanFollow (s current : IncidentStatus) : bool :=
  if Terminal current then false
  else if (rank current <? 0) || (rank s <? 0) then false
  else rank current <=? rank s.

Inductive IncidentImpact := ImpactNone | ImpactMinor | ImpactMajor | ImpactCritical | ImpactOther (s : string).
Definition IncidentImpact_Valid (i : IncidentImpact) : bool :=
  match i with ImpactOther _ => false | _ => true end.
Definition IncidentImpact_text (i : IncidentImpact) : string :=
  match i with
  | ImpactNone => "none" | ImpactMinor => "minor" | ImpactMajor => "major" | ImpactCritical => "critical"
  | ImpactOther s => s
  end.

Inductive IncidentSource := SourceManual | SourceAPI | SourceAuto | SourceOther (s : string).
#[export] Instance incidentSource_eq : EqDecision IncidentSource.
Proof. solve_decision. Defined.
Definition IncidentSource_Valid (s : IncidentSource) : bool :=
  match s with SourceOther _ => false | _ => true end.
Definition IncidentSource_text (s : IncidentSource) : string :=
  match s with SourceManual => "manual" | SourceAPI => "api" | SourceAuto => "auto" | SourceOther s => s end.

(** [domain.Incident]; an empty string stands for a NULL column. *)
Record Incident := {
  in_ID : string;
  in_ProjectID : string;
  in_MonitorID : string;
  in_ServiceID : string;
  in_ExternalKey : string;
  in_Title : string;
  in_Status : IncidentStatus;
  in_Impact : IncidentImpact;
  in_Source : IncidentSource;
  in_StartedAt : Time;
  in_ResolvedAt : option Time;
  in_AcknowledgedAt : option Time;
  in_AcknowledgedBy : string;
  in_AcknowledgedByName : string;
  in_EscalationStep : Z;
  in_LastEscalatedAt : option Time;
  in_CreatedAt : Time;
  in_UpdatedAt : Time;
}.

Definition Incident_PublicRedacted (i : Incident) : Incident :=
  {| in_ID := in_ID i; in_ProjectID := ""; in_MonitorID := ""; in_ServiceID := ""; in_ExternalKey := "";
     in_Title := in_Title i; in_Status := in_Status i; in_Impact := in_Impact i; in_Source := in_Source i;
     in_StartedAt := in_StartedAt i; in_ResolvedAt := in_ResolvedAt i; in_AcknowledgedAt := in_AcknowledgedAt i;
     in_AcknowledgedBy := ""; in_AcknowledgedByName := ""; in_EscalationStep := in_EscalationStep i;
     in_LastEscalatedAt := in_LastEscalatedAt i; in_CreatedAt := in_CreatedAt i; in_UpdatedAt := in_UpdatedAt i |}.

Inductive IncidentInvalid :=
| IncTitleRequired | IncProjectRequired | IncUnknownStatus | IncUnknownImpact | IncUnknownSource
| UpdIncidentRequired | UpdUnknownStatus.

Definition Incident_Validate (i : Incident) : result IncidentInvalid unit :=
  let! _ := refuse_if (bool_decide (TrimSpace (in_Title i) = "")) IncTitleRequired in
  let! _ := refuse_if (bool_decide (in_ProjectID i = "")) IncProjectRequired in
  let! _ := refuse_if (negb (IncidentStatus_Valid (in_Status i))) IncUnknownStatus in
  let! _ := refuse_if (negb (IncidentImpact_Valid (in_Impact i))) IncUnknownImpact in
  refuse_if (negb (IncidentSource_Valid (in_Source i))) IncUnknownSource.

Record IncidentUpdate := {
  iu_ID : string;
  iu_IncidentID : string;
  iu_Status : IncidentStatus;
  iu_Body : string;
  iu_Author : string;
  iu_CreatedAt : Time;
}.

Definition IncidentUpdate_PublicRedacted (u : IncidentUpdate) : IncidentUpdate :=
  {| iu_ID := ""; iu_IncidentID := ""; iu_Status := iu_Status u; iu_Body := iu_Body u; iu_Author := "";
     iu_CreatedAt := iu_CreatedAt u |}.

(** The keep-current intent of an update that names no status. *)
Definition keepCurrent (s : IncidentStatus) : bool := bool_decide (s = IncidentStatusOther "").

Definition IncidentUpdate_Validate (u : IncidentUpdate) : result IncidentInvalid unit :=
  let! _ := refuse_if (bool_decide (iu_IncidentID u = "")) UpdIncidentRequired in
  refuse_if (negb (keepCurrent (iu_Status u)) && negb (IncidentStatus_Valid (iu_Status u))) UpdUnknownStatus.

Record Postmortem := {
  pm_ID : string; pm_IncidentID : string; pm_Body : string; pm_Author : string;
  pm_PublishedAt : Time; pm_CreatedAt : Time; pm_UpdatedAt : Time;
}.

Record IncidentMember := { im_MonitorID : string; im_Name : string; im_Roles : list string }.

(** [domain.IncidentEvent]. *)
Inductive IncidentEventType := EventIncidentOpened | EventIncidentUpdated | EventIncidentResolved.
#[export] Instance incidentEventType_eq : EqDecision IncidentEventType.
Proof. solve_decision. Defined.

Record IncidentEvent := {
  ie_Type : IncidentEventType;
  ie_Incident : Incident;
  ie_Update : option IncidentUpdate;
  ie_Seq : Z;
}.

(** What the writers put in the outbox. *)
Class IncidentPayload (P : Type) `{!Payload P} := {
  ip_event : IncidentEvent -> P;
  ip_correlation : string -> P;
  ip_event_incident : forall e, pl_incident (ip_event e) = Some (in_ID (ie_Incident e));
  ip_event_seq : forall e, ie_Seq e <> 0 -> pl_seq (ip_event e) = Some (ie_Seq e);
}.

(** ** The rows *)

Record IncidentRow := { ir_incident : Incident; ir_event_seq : Z }.

(** [incident_escalation_snapshots]. *)
Record LadderSnapshot := { ls_policy : EscalationPolicy; ls_due_base : Time }.

Record AuditActor := { aa_ActorUserID : string; aa_ViaToken : bool; aa_Label : string }.

Inductive IncidentAuditAction :=
| IncidentAuditCreate | IncidentAuditStatus | IncidentAuditNote | IncidentAuditAcknowledge | IncidentAuditPostmortem.

(** A row of [audit_logs]. *)
Record AuditRow := {
  au_org : string; au_actor : option string; au_via_token : bool; au_action : IncidentAuditAction; au_target : string;
}.

(** A governing declaration: the service and project it belongs to, and its member rows. *)
Record RevisionRow := { rv_service : string; rv_project : string; rv_members : list (string * string * string) }.

Record IncidentDB (P : Type) := {
  db_incidents : gmap string IncidentRow;
  db_updates : list IncidentUpdate;
  db_postmortems : gmap string Postmortem;
  db_audit : list AuditRow;
  db_outbox : gmap string (OutboxRow P);
  db_members : gmap string (list IncidentMember);
  db_ladders : gmap string LadderSnapshot;
  db_orgs : gmap string string;
  db_service_policy : gmap string EscalationPolicy;
  db_revisions : gmap string RevisionRow;
}.
Arguments db_incidents {P}. Arguments db_updates {P}. Arguments db_postmortems {P}. Arguments db_audit {P}.
Arguments db_outbox {P}. Arguments db_members {P}. Arguments db_ladders {P}. Arguments db_orgs {P}.
Arguments db_service_policy {P}. Arguments db_revisions {P}.

Inductive IncidentError :=
| ErrInvalidIncident (e : IncidentInvalid) | ErrIncidentNotFound | ErrAlreadyOpen | ErrIncidentTerminal
| ErrStatusRegression | ErrIncidentConstraint | ErrUnattributable | ErrRevisionNotOwned
| ErrIncidentOutbox (e : OutboxError).

(** ** Audit *)

Definition AuditActor_valid (a : AuditActor) : bool :=
  negb (bool_decide (TrimSpace (aa_Label a) = ""))
  && negb (bool_decide (aa_ActorUserID a = "") && negb (aa_ViaToken a)).

Definition AuditActor_userID (a : AuditActor) : option string :=
  if bool_decide (aa_ActorUserID a = "") then None else Some (aa_ActorUserID a).

Definition incidentAuditTarget (a : AuditActor) (body : string) : string :=
  if aa_ViaToken a then body +:+ " · actor=" +:+ aa_Label a else body.

Definition incidentAuditAnchor (i : Incident) : string :=
  if negb (bool_decide (in_MonitorID i = "")) then "monitor " +:+ in_MonitorID i
  else if negb (bool_decide (in_ServiceID i = "")) then "service " +:+ in_ServiceID i
  else "project-level".

Definition IncidentCreateTarget (a : AuditActor) (i : Incident) : string :=
  incidentAuditTarget a ("incident " +:+ in_ID i +:+ " · " +:+ incidentAuditAnchor i
    +:+ " · impact=" +:+ IncidentImpact_text (in_Impact i) +:+ " · source=" +:+ IncidentSource_text (in_Source i)).
Definition IncidentStatusTarget (a : AuditActor) (id : string) (from to : IncidentStatus) : string :=
  incidentAuditTarget a ("incident " +:+ id +:+ " · " +:+ IncidentStatus_text from +:+ " → " +:+ IncidentStatus_text to).
Definition IncidentNoteTarget (a : AuditActor) (id : string) : string :=
  incidentAuditTarget a ("incident " +:+ id +:+ " · note").
Definition IncidentAcknowledgeTarget (a : AuditActor) (id : string) : string :=
  incidentAuditTarget a ("incident " +:+ id +:+ " · acknowledged").
Definition IncidentPostmortemTarget (a : AuditActor) (id : string) (created : bool) : string :=
  incidentAuditTarget a ("incident " +:+ id +:+ " · postmortem " +:+ (if created then "created" else "updated")).

Section store.
Context {P : Type} `{!Payload P, !IncidentPayload P}.
Implicit Types (db : IncidentDB P).

Definition withIncidents db (m : gmap string IncidentRow) : IncidentDB P :=
  {| db_incidents := m; db_updates := db_updates db; db_postmortems := db_postmortems db; db_audit := db_audit db;
     db_outbox := db_outbox db; db_members := db_members db; db_ladders := db_ladders db; db_orgs := db_orgs db;
     db_service_policy := db_service_policy db; db_revisions := db_revisions db |}.
Definition addUpdateRow db (u : IncidentUpdate) : IncidentDB P :=
  {| db_incidents := db_incidents db; db_updates := db_updates db ++ [u]; db_postmortems := db_postmortems db;
     db_audit := db_audit db; db_outbox := db_outbox db; db_members := db_members db; db_ladders := db_ladders db;
     db_orgs := db_orgs db; db_service_policy := db_service_policy db; db_revisions := db_revisions db |}.
Definition withPostmortem db (id : string) (p : Postmortem) : IncidentDB P :=
  {| db_incidents := db_incidents db; db_updates := db_updates db; db_postmortems := <[id := p]> (db_postmortems db);
     db_audit := db_audit db; db_outbox := db_outbox db; db_members := db_members db; db_ladders := db_ladders db;
     db_orgs := db_orgs db; db_service_policy := db_service_policy db; db_revisions := db_revisions db |}.
Definition addAudit db (a : AuditRow) : IncidentDB P :=
  {| db_incidents := db_incidents db; db_updates := db_updates db; db_postmortems := db_postmortems db;
     db_audit := db_audit db ++ [a]; db_outbox := db_outbox db; db_members := db_members db; db_ladders := db_ladders db;
     db_orgs := db_orgs db; db_service_policy := db_service_policy db; db_revisions := db_revisions db |}.
Definition withOutbox db (ob : gmap string (OutboxRow P)) : IncidentDB P :=
  {| db_incidents := db_incidents db; db_updates := db_updates db; db_postmortems := db_postmortems db;
     db_audit := db_audit db; db_outbox := ob; db_members := db_members db; db_ladders := db_ladders db;
     db_orgs := db_orgs db; db_service_policy := db_service_policy db; db_revisions := db_revisions db |}.
Definition addMembers db (id : string) (ms : list IncidentMember) : IncidentDB P :=
  {| db_incidents := db_incidents db; db_updates := db_updates db; db_postmortems := db_postmortems db;
     db_audit := db_audit db; db_outbox := db_outbox db;
     db_members := (if db_members db !! id is Some _ then db_members db else <[id := ms]> (db_members db));
     db_ladders := db_ladders db;
     db_orgs := db_orgs db; db_service_policy := db_service_policy db; db_revisions := db_revisions db |}.
Definition addLadder db (id : string) (l : LadderSnapshot) : IncidentDB P :=
  {| db_incidents := db_incidents db; db_updates := db_updates db; db_postmortems := db_postmortems db;
     db_audit := db_audit db; db_outbox := db_outbox db; db_members := db_members db;
     db_ladders := (if db_ladders db !! id is Some _ then db_ladders db else <[id := l]> (db_ladders db));
     db_orgs := db_orgs db; db_service_policy := db_service_policy db; db_revisions := db_revisions db |}.

(** [insertProjectAudit]: the tenant is resolved by the insert, and no row is a failure. *)
Definition insertIncidentAudit (project : string) (a : AuditActor) (action : IncidentAuditAction) (target : string) db :
    result IncidentError (IncidentDB P) :=
  let! _ := refuse_if (negb (AuditActor_valid a)) ErrUnattributable in
  match db_orgs db !! project with
  | None => Err ErrUnattributable
  | Some org => Ok (addAudit db {| au_org := org; au_actor := AuditActor_userID a; au_via_token := aa_ViaToken a;
                                   au_action := action; au_target := target |})
  end.

Definition auditedBy (actor : option AuditActor) (project : string)
    (entry : AuditActor -> IncidentAuditAction * string) db : result IncidentError (IncidentDB P) :=
  match actor with
  | None => Ok db
  | Some a => insertIncidentAudit project a (entry a).1 (entry a).2 db
  end.

Definition liftOutbox {A} (r : result OutboxError A) : result IncidentError A :=
  match r with Ok x => Ok x | Err e => Err (ErrIncidentOutbox e) end.

Definition enqueueTx (id topic : string) (payload : P) (at_ : Time) db : result IncidentError (IncidentDB P) :=
  let! ob := liftOutbox (enqueueOutboxAtTx id topic payload at_ (db_outbox db)) in
  Ok (withOutbox db ob).

Definition nextIncidentEventSeqTx (id : string) db : result IncidentError (IncidentDB P * Z) :=
  match db_incidents db !! id with
  | None => Err ErrIncidentNotFound
  | Some r =>
    let seq := ir_event_seq r + 1 in
    Ok (withIncidents db (<[id := {| ir_incident := ir_incident r; ir_event_seq := seq |}]> (db_incidents db)), seq)
  end.

(** The sequence and the event of a lifecycle change, in its transaction. *)
Definition announceIncident (evID : string) (ty : IncidentEventType) (i : Incident) (u : option IncidentUpdate)
    (at_ : Time) db : result IncidentError (IncidentDB P) :=
  let! (db1, seq) := nextIncidentEventSeqTx (in_ID i) db in
  enqueueTx evID TopicIncidentEvent (ip_event {| ie_Type := ty; ie_Incident := i; ie_Update := u; ie_Seq := seq |}) at_ db1.

(** *** Constraints of the table *)

Definition unresolved (r : IncidentRow) : bool := negb (bool_decide (in_Status (ir_incident r) = IncidentResolved)).

Definition oneAnchor (i : Incident) : bool :=
  bool_decide (in_MonitorID i = "") || bool_decide (in_ServiceID i = "").

Definition someRow (p : Incident -> bool) db : bool :=
  existsb (fun kv => unresolved kv.2 && p (ir_incident kv.2)) (map_to_list (db_incidents db)).

Definition openAutoOfMonitor (m : string) (i : Incident) : bool :=
  bool_decide (in_Source i = SourceAuto) && bool_decide (in_MonitorID i = m) && negb (bool_decide (m = "")).
Definition openAutoOfService (s : string) (i : Incident) : bool :=
  bool_decide (in_Source i = SourceAuto) && bool_decide (in_ServiceID i = s) && negb (bool_decide (s = "")).
Definition openByExternalKey (project k : string) (i : Incident) : bool :=
  bool_decide (in_ProjectID i = project) && bool_decide (in_ExternalKey i = k) && negb (bool_decide (k = "")).

(** The three partial unique indexes, which see unresolved rows only. *)
Definition violates (i : Incident) db : option IncidentError :=
  if bool_decide (in_Status i = IncidentResolved) then None
  else if bool_decide (in_Source i = SourceAuto) && someRow (openAutoOfMonitor (in_MonitorID i)) db then Some ErrAlreadyOpen
  else if someRow (openByExternalKey (in_ProjectID i) (in_ExternalKey i)) db then Some ErrAlreadyOpen
  else if bool_decide (in_Source i = SourceAuto) && someRow (openAutoOfService (in_ServiceID i)) db then Some ErrIncidentConstraint
  else None.

(** The [INSERT], with the checks of the table. *)
Definition insertIncident (i : Incident) db : result IncidentError (IncidentDB P) :=
  let! _ := refuse_if (bool_decide (is_Some (db_incidents db !! in_ID i))) ErrIncidentConstraint in
  let! _ := refuse_if (negb (oneAnchor i)) ErrIncidentConstraint in
  let! _ := refuse_if (negb (bool_decide (is_Some (db_orgs db !! in_ProjectID i)))) ErrIncidentConstraint in
  match violates i db with
  | Some e => Err e
  | None => Ok (withIncidents db (<[in_ID i := {| ir_incident := i; ir_event_seq := 0 |}]> (db_incidents db)))
  end.

(** *** Snapshots *)

Definition snapshotEscalationPolicyTx (i : Incident) db : IncidentDB P :=
  match db_service_policy db !! in_ServiceID i with
  | Some p => if bool_decide (ep_ProjectID p = in_ProjectID i)
              then addLadder db (in_ID i) {| ls_policy := p; ls_due_base := in_StartedAt i |} else db
  | None => db
  end.

Fixpoint insertMember (m : string * string * string) (ms : list IncidentMember) : list IncidentMember :=
  let '(id, name, role) := m in
  match ms with
  | [] => [{| im_MonitorID := id; im_Name := name; im_Roles := [role] |}]
  | x :: rest =>
    if bool_decide (im_MonitorID x = id)
    then {| im_MonitorID := id; im_Name := (if decide (String.le (im_Name x) name) then im_Name x else name);
            im_Roles := merge_sort String.le (im_Roles x ++ [role]) |} :: rest
    else x :: insertMember m rest
  end.

Definition member_le (a b : IncidentMember) : Prop := String.le (im_Name a) (im_Name b).
#[local] Instance member_le_dec a b : Decision (member_le a b).
Proof. unfold member_le. apply _. Defined.

(** One entry per monitor, its roles sorted, ordered by name. *)
Definition membersOf (rows : list (string * string * string)) : list IncidentMember :=
  merge_sort member_le (foldl (fun acc m => insertMember m acc) [] rows).

Definition snapshotServiceMembersTx (incidentID project service : string) (revision : option string) db :
    result IncidentError (IncidentDB P) :=
  match revision with
  | None => Ok db
  | Some rev =>
    if bool_decide (rev = "") then Ok db
    else match db_revisions db !! rev with
    | Some rv =>
      if bool_decide (rv_service rv = service) && bool_decide (rv_project rv = project)
      then Ok (addMembers db incidentID (membersOf (rv_members rv)))
      else Err ErrRevisionNotOwned
    | None => Err ErrRevisionNotOwned
    end
  end.

(** ** The transactions *)

(** [createIncident]: [ids] are the identifiers of the incident, its opening update, its event
    and its correlation event; [stmtNow] is the clock of the insert. *)
Record NewIDs := { id_incident : string; id_update : string; id_event : string; id_correlation : string }.

Definition storedIncident (i : Incident) (id : string) (txNow stmtNow : Time) : Incident :=
  {| in_ID := id; in_ProjectID := in_ProjectID i; in_MonitorID := in_MonitorID i; in_ServiceID := in_ServiceID i;
     in_ExternalKey := in_ExternalKey i; in_Title := in_Title i; in_Status := in_Status i; in_Impact := in_Impact i;
     in_Source := in_Source i; in_StartedAt := txNow;
     in_ResolvedAt := (if bool_decide (in_Status i = IncidentResolved) then Some stmtNow else None);
     in_AcknowledgedAt := None; in_AcknowledgedBy := ""; in_AcknowledgedByName := ""; in_EscalationStep := 0;
     in_LastEscalatedAt := None; in_CreatedAt := txNow; in_UpdatedAt := txNow |}.

Definition liftInvalid (r : result IncidentInvalid unit) : result IncidentError unit :=
  match r with Ok x => Ok x | Err e => Err (ErrInvalidIncident e) end.

Definition anchored (i : Incident) : bool :=
  negb (bool_decide (in_MonitorID i = "")) || negb (bool_decide (in_ServiceID i = "")).

Definition createIncident (i : Incident) (openingBody author : string) (actor : option AuditActor)
    (ids : NewIDs) (txNow stmtNow : Time) db : result IncidentError (IncidentDB P * Incident) :=
  let! _ := liftInvalid (Incident_Validate i) in
  let created := storedIncident i (id_incident ids) txNow stmtNow in
  let! db := insertIncident created db in
  let db := addUpdateRow db {| iu_ID := id_update ids; iu_IncidentID := in_ID created; iu_Status := in_Status created;
                               iu_Body := openingBody; iu_Author := author; iu_CreatedAt := txNow |} in
  let db := if bool_decide (in_ServiceID created = "") then db else snapshotEscalationPolicyTx created db in
  let! db := announceIncident (id_event ids) EventIncidentOpened created None txNow db in
  let! db := if anchored created
             then enqueueTx (id_correlation ids) TopicIncidentCorrelation (ip_correlation (in_ID created)) txNow db
             else Ok db in
  let! db := auditedBy actor (in_ProjectID created)
               (fun a => (IncidentAuditCreate, IncidentCreateTarget a created)) db in
  Ok (db, created).

Definition CreateIncidentByPrincipal (i : Incident) (body author : string) (a : AuditActor) :=
  createIncident i body author (Some a).
Definition CreateIncidentBySystem (i : Incident) (body author : string) := createIncident i body author None.

(** [status = $2, updated_at = $3, resolved_at] stamped once. *)
Definition withIncidentStatus (i : Incident) (s : IncidentStatus) (at_ : Time) : Incident :=
  {| in_ID := in_ID i; in_ProjectID := in_ProjectID i; in_MonitorID := in_MonitorID i; in_ServiceID := in_ServiceID i;
     in_ExternalKey := in_ExternalKey i; in_Title := in_Title i; in_Status := s; in_Impact := in_Impact i;
     in_Source := in_Source i; in_StartedAt := in_StartedAt i;
     in_ResolvedAt := (if bool_decide (s = IncidentResolved)
                       then match in_ResolvedAt i with None => Some at_ | t => t end else in_ResolvedAt i);
     in_AcknowledgedAt := in_AcknowledgedAt i; in_AcknowledgedBy := in_AcknowledgedBy i;
     in_AcknowledgedByName := in_AcknowledgedByName i; in_EscalationStep := in_EscalationStep i;
     in_LastEscalatedAt := in_LastEscalatedAt i; in_CreatedAt := in_CreatedAt i; in_UpdatedAt := at_ |}.

Definition setIncident db (i : Incident) (seq : Z) : IncidentDB P :=
  withIncidents db (<[in_ID i := {| ir_incident := i; ir_event_seq := seq |}]> (db_incidents db)).

(** [addIncidentUpdate]: [upID] and [evID] are generated, [asOf] is read after the row lock. *)
Definition addIncidentUpdate (upd : IncidentUpdate) (actor : option AuditActor) (upID evID : string) (asOf : Time) db :
    result IncidentError (IncidentDB P * IncidentUpdate) :=
  let! _ := liftInvalid (IncidentUpdate_Validate upd) in
  match db_incidents db !! iu_IncidentID upd with
  | None => Err ErrIncidentNotFound
  | Some r =>
    let current := in_Status (ir_incident r) in
    let next := if keepCurrent (iu_Status upd) then current else iu_Status upd in
    let! _ := refuse_if (Terminal current) ErrIncidentTerminal in
    let! _ := refuse_if (negb (CanFollow next current)) ErrStatusRegression in
    let i := withIncidentStatus (ir_incident r) next asOf in
    let db := setIncident db i (ir_event_seq r) in
    let created := {| iu_ID := upID; iu_IncidentID := iu_IncidentID upd; iu_Status := next; iu_Body := iu_Body upd;
                      iu_Author := iu_Author upd; iu_CreatedAt := asOf |} in
    let db := addUpdateRow db created in
    let ty := if bool_decide (next = IncidentResolved) then EventIncidentResolved else EventIncidentUpdated in
    let! db := announceIncident evID ty i (Some created) asOf db in
    let! db := auditedBy actor (in_ProjectID i)
                 (fun a => if bool_decide (next = current)
                           then (IncidentAuditNote, IncidentNoteTarget a (iu_IncidentID upd))
                           else (IncidentAuditStatus, IncidentStatusTarget a (iu_IncidentID upd) current next)) db in
    Ok (db, created)
  end.

Definition AddIncidentUpdateByPrincipal (u : IncidentUpdate) (a : AuditActor) := addIncidentUpdate u (Some a).
Definition AddIncidentUpdateBySystem (u : IncidentUpdate) := addIncidentUpdate u None.

(** The two columns are only ever written together, here. *)
Definition acked (i : Incident) (by_ : string) (asOf : Time) : Incident :=
  {| in_ID := in_ID i; in_ProjectID := in_ProjectID i; in_MonitorID := in_MonitorID i; in_ServiceID := in_ServiceID i;
     in_ExternalKey := in_ExternalKey i; in_Title := in_Title i; in_Status := in_Status i; in_Impact := in_Impact i;
     in_Source := in_Source i; in_StartedAt := in_StartedAt i; in_ResolvedAt := in_ResolvedAt i;
     in_AcknowledgedAt := Some (default asOf (in_AcknowledgedAt i));
     in_AcknowledgedBy := match in_AcknowledgedAt i with None => by_ | Some _ => in_AcknowledgedBy i end;
     in_AcknowledgedByName := in_AcknowledgedByName i; in_EscalationStep := in_EscalationStep i;
     in_LastEscalatedAt := in_LastEscalatedAt i; in_CreatedAt := in_CreatedAt i;
     in_UpdatedAt := match in_AcknowledgedAt i with None => asOf | Some _ => in_UpdatedAt i end |}.

Definition acknowledgeIncident (id by_ : string) (a : AuditActor) (asOf : Time) db :
    result IncidentError (IncidentDB P * Incident) :=
  match db_incidents db !! id with
  | None => Err ErrIncidentNotFound
  | Some r =>
    let! _ := refuse_if (Terminal (in_Status (ir_incident r))) ErrIncidentNotFound in
    let i := acked (ir_incident r) by_ asOf in
    let db := setIncident db i (ir_event_seq r) in
    let! db := if bool_decide (in_AcknowledgedAt i = Some asOf)
               then insertIncidentAudit (in_ProjectID i) a IncidentAuditAcknowledge (IncidentAcknowledgeTarget a (in_ID i)) db
               else Ok db in
    Ok (db, i)
  end.

Definition UpsertPostmortemByPrincipal (incidentID body author : string) (a : AuditActor) (newID : string) (txNow : Time) db :
    result IncidentError (IncidentDB P * Postmortem) :=
  match db_incidents db !! incidentID with
  | None => Err ErrIncidentNotFound
  | Some r =>
    let old := db_postmortems db !! incidentID in
    let p := match old with
      | None => {| pm_ID := newID; pm_IncidentID := incidentID; pm_Body := body; pm_Author := author;
                   pm_PublishedAt := txNow; pm_CreatedAt := txNow; pm_UpdatedAt := txNow |}
      | Some o => {| pm_ID := pm_ID o; pm_IncidentID := pm_IncidentID o; pm_Body := body; pm_Author := author;
                     pm_PublishedAt := pm_PublishedAt o; pm_CreatedAt := pm_CreatedAt o; pm_UpdatedAt := txNow |}
      end in
    let! db := insertIncidentAudit (in_ProjectID (ir_incident r)) a IncidentAuditPostmortem
                 (IncidentPostmortemTarget a incidentID (bool_decide (old = None))) (withPostmortem db incidentID p) in
    Ok (db, p)
  end.

(** *** The incident of a service *)

Definition isOpenAutoOf (service : string) (r : IncidentRow) : bool :=
  unresolved r && openAutoOfService service (ir_incident r).

(** The open auto-incident of a service; the unique index makes it the only one. *)
Definition FindOpenAutoIncidentByService (service : string) db : option Incident :=
  match List.find (fun kv => isOpenAutoOf service kv.2) (map_to_list (db_incidents db)) with
  | Some kv => Some (ir_incident kv.2)
  | None => None
  end.

Definition serviceIncident (service project title id : string) (txNow : Time) : Incident :=
  {| in_ID := id; in_ProjectID := project; in_MonitorID := ""; in_ServiceID := service; in_ExternalKey := "";
     in_Title := title; in_Status := IncidentInvestigating; in_Impact := ImpactMajor; in_Source := SourceAuto;
     in_StartedAt := txNow; in_ResolvedAt := None; in_AcknowledgedAt := None; in_AcknowledgedBy := "";
     in_AcknowledgedByName := ""; in_EscalationStep := 0; in_LastEscalatedAt := None;
     in_CreatedAt := txNow; in_UpdatedAt := txNow |}.

(** [OpenServiceIncidentTx]; [body] is the rendered opening note. *)
Definition OpenServiceIncidentTx (service project title body : string) (revision : option string)
    (ids : NewIDs) (txNow : Time) db : result IncidentError (IncidentDB P * (Incident * bool)) :=
  match FindOpenAutoIncidentByService service db with
  | Some existing => Ok (db, (existing, false))
  | None =>
    let i := serviceIncident service project title (id_incident ids) txNow in
    let! db := insertIncident i db in
    let! db := snapshotServiceMembersTx (in_ID i) project service revision db in
    let db := addUpdateRow db {| iu_ID := id_update ids; iu_IncidentID := in_ID i; iu_Status := IncidentInvestigating;
                                 iu_Body := body; iu_Author := "system"; iu_CreatedAt := txNow |} in
    let! db := enqueueTx (id_correlation ids) TopicIncidentCorrelation (ip_correlation (in_ID i)) txNow db in
    let db := snapshotEscalationPolicyTx i db in
    let! db := announceIncident (id_event ids) EventIncidentOpened i None txNow db in
    Ok (db, (i, true))
  end.

(** [resolved_at = $2] whatever it held. *)
Definition resolvedNow (i : Incident) (asOf : Time) : Incident :=
  {| in_ID := in_ID i; in_ProjectID := in_ProjectID i; in_MonitorID := in_MonitorID i; in_ServiceID := in_ServiceID i;
     in_ExternalKey := in_ExternalKey i; in_Title := in_Title i; in_Status := IncidentResolved; in_Impact := in_Impact i;
     in_Source := in_Source i; in_StartedAt := in_StartedAt i; in_ResolvedAt := Some asOf;
     in_AcknowledgedAt := in_AcknowledgedAt i; in_AcknowledgedBy := in_AcknowledgedBy i;
     in_AcknowledgedByName := in_AcknowledgedByName i; in_EscalationStep := in_EscalationStep i;
     in_LastEscalatedAt := in_LastEscalatedAt i; in_CreatedAt := in_CreatedAt i; in_UpdatedAt := asOf |}.

Definition resolveServiceIncidentTx (service body upID evID : string) (asOf : Time) db :
    result IncidentError (IncidentDB P * bool) :=
  match FindOpenAutoIncidentByService service db with
  | None => Ok (db, false)
  | Some i0 =>
    match db_incidents db !! in_ID i0 with
    | None => Ok (db, false)
    | Some r =>
      let i := resolvedNow (ir_incident r) asOf in
      let db := setIncident db i (ir_event_seq r) in
      let upd := {| iu_ID := upID; iu_IncidentID := in_ID i; iu_Status := IncidentResolved; iu_Body := body;
                    iu_Author := "system"; iu_CreatedAt := asOf |} in
      let db := addUpdateRow db upd in
      let! db := announceIncident evID EventIncidentResolved i (Some upd) asOf db in
      Ok (db, true)
    end
  end.

(** *** The system's own notes (store/incidentcontext.go, store/dependencies.go)

    One [INSERT ... SELECT] without a row lock: the status comes from the statement's
    snapshot, the time column from the start of the statement. *)
Definition marked (marker incidentID : string) (u : IncidentUpdate) : bool :=
  bool_decide (iu_IncidentID u = incidentID) && bool_decide (iu_Author u = "system") && String.prefix marker (iu_Body u).

(** What the statement reads in its snapshot. *)
Definition noteFor (incidentID marker body upID : string) (txNow : Time) db : option IncidentUpdate :=
  match db_incidents db !! incidentID with
  | None => None
  | Some r =>
    if existsb (marked marker incidentID) (db_updates db) then None
    else Some {| iu_ID := upID; iu_IncidentID := incidentID; iu_Status := in_Status (ir_incident r);
                 iu_Body := body; iu_Author := "system"; iu_CreatedAt := txNow |}
  end.

Definition AppendIncidentContext (incidentID marker body upID : string) (txNow : Time) db : IncidentDB P * bool :=
  match noteFor incidentID marker body upID txNow db with
  | Some u => (addUpdateRow db u, true)
  | None => (db, false)
  end.

(** *** Timelines *)

Definition created_le (a b : IncidentUpdate) : Prop := iu_CreatedAt a <= iu_CreatedAt b.
#[local] Instance created_le_dec a b : Decision (created_le a b).
Proof. unfold created_le. apply _. Defined.

Definition updatesOf (incidentID : string) db : list IncidentUpdate :=
  List.filter (fun u => bool_decide (iu_IncidentID u = incidentID)) (db_updates db).

Definition ListIncidentUpdates (incidentID : string) db : list IncidentUpdate :=
  merge_sort created_le (updatesOf incidentID db).
End store.
