(* ===== verification/IncidentFacts.v ===== *)
(** * The incident store: what one transaction does

    Every lifecycle transaction has one shape, [lifecycle_write]: one incident row, one
    timeline entry, one event numbered by the row, and perhaps a correlation event.  The
    invariants of IncidentDelivery.v are proved over that shape. *)

From S2P Require Import Prelude GoFloat GoString Outbox OutboxFacts OnCall Incidents.

Definition seqAfter (old : option IncidentRow) : Z :=
  match old with None => 1 | Some r => ir_event_seq r + 1 end.

Section shapes.
Context {P : Type} `{!Payload P, !IncidentPayload P}.
Implicit Types (db : IncidentDB P).

Definition eventRow (ty : IncidentEventType) (i : Incident) (u : option IncidentUpdate) (seq : Z) (at_ : Time) : OutboxRow P :=
  newRow TopicIncidentEvent (ip_event {| ie_Type := ty; ie_Incident := i; ie_Update := u; ie_Seq := seq |}) at_.

Definition correlationRow (i : Incident) (at_ : Time) : OutboxRow P :=
  newRow TopicIncidentCorrelation (ip_correlation (in_ID i)) at_.

Definition withCorrelation (corr : option string) (i : Incident) (at_ : Time) (ob : gmap string (OutboxRow P)) :
    gmap string (OutboxRow P) :=
  match corr with None => ob | Some c => <[c := correlationRow i at_]> ob end.

Record lifecycle_write db db' (old : option IncidentRow) (i : Incident) (u : IncidentUpdate) (noted : option IncidentUpdate)
    (ty : IncidentEventType) (evID : string) (corr : option string) (at_ : Time) : Prop := {
  lw_old : db_incidents db !! in_ID i = old;
  lw_incidents : db_incidents db' = <[in_ID i := {| ir_incident := i; ir_event_seq := seqAfter old |}]> (db_incidents db);
  lw_updates : db_updates db' = db_updates db ++ [u];
  lw_update : iu_IncidentID u = in_ID i /\ iu_Status u = in_Status i;
  lw_outbox : db_outbox db' = withCorrelation corr i at_ (<[evID := eventRow ty i noted (seqAfter old) at_]> (db_outbox db));
  lw_fresh : db_outbox db !! evID = None /\ (forall c, corr = Some c -> db_outbox db !! c = None /\ c <> evID);
  lw_orgs : db_orgs db' = db_orgs db;
}.

(** *** The pieces *)

Lemma audited_frame actor project entry db db' :
  auditedBy actor project entry db = Ok db' ->
  db_incidents db' = db_incidents db /\ db_updates db' = db_updates db /\ db_outbox db' = db_outbox db /\
  db_orgs db' = db_orgs db /\
  exists rows, db_audit db' = db_audit db ++ rows /\
    match actor with
    | None => rows = []
    | Some a => AuditActor_valid a = true /\
        exists org, db_orgs db !! project = Some org /\
          rows = [{| au_org := org; au_actor := AuditActor_userID a; au_via_token := aa_ViaToken a;
                     au_action := (entry a).1; au_target := (entry a).2 |}]
    end.
Proof.
  unfold auditedBy, insertIncidentAudit. intros H. destruct actor as [a|].
  - destruct (AuditActor_valid a) eqn:Hv; [|done]. cbn [negb refuse_if rbind] in H.
    destruct (db_orgs db !! project) as [org|] eqn:Ho; [|done]. injection H as <-. cbn.
    split_and!; [done..|]. eexists. split; [done|]. split; [done|]. by exists org.
  - injection H as <-. split_and!; [done..|]. exists []. by rewrite app_nil_r.
Qed.

Lemma enqueueTx_frame id topic p at_ db db' :
  enqueueTx id topic p at_ db = Ok db' ->
  db' = withOutbox db (<[id := newRow topic p at_]> (db_outbox db)) /\ db_outbox db !! id = None.
Proof.
  unfold enqueueTx, enqueueOutboxAtTx. intros H.
  destruct (negb _); [done|]. cbn [refuse_if rbind] in H.
  destruct (bool_decide (is_Some (db_outbox db !! id))) eqn:Hb; [done|]. cbn in H.
  injection H as <-. split; [done|]. apply bool_decide_eq_false in Hb. by apply eq_None_not_Some.
Qed.

Lemma announce_frame evID ty i u at_ db db' :
  announceIncident evID ty i u at_ db = Ok db' ->
  exists r, db_incidents db !! in_ID i = Some r /\
    db_incidents db' = <[in_ID i := {| ir_incident := ir_incident r; ir_event_seq := ir_event_seq r + 1 |}]> (db_incidents db) /\
    db_outbox db' = <[evID := eventRow ty i u (ir_event_seq r + 1) at_]> (db_outbox db) /\
    db_outbox db !! evID = None /\
    db_updates db' = db_updates db /\ db_audit db' = db_audit db /\ db_orgs db' = db_orgs db.
Proof.
  unfold announceIncident, nextIncidentEventSeqTx. intros H.
  destruct (db_incidents db !! in_ID i) as [r|] eqn:Hr; [|done]. cbn [rbind] in H.
  apply enqueueTx_frame in H as [-> Hn]. exists r. done.
Qed.

Lemma insertIncident_frame i db db' :
  insertIncident i db = Ok db' ->
  db_incidents db !! in_ID i = None /\ oneAnchor i = true /\ violates i db = None /\
  is_Some (db_orgs db !! in_ProjectID i) /\
  db' = withIncidents db (<[in_ID i := {| ir_incident := i; ir_event_seq := 0 |}]> (db_incidents db)).
Proof.
  unfold insertIncident. intros H.
  destruct (bool_decide (is_Some (db_incidents db !! in_ID i))) eqn:H1; [done|]. cbn [refuse_if rbind] in H.
  destruct (oneAnchor i) eqn:H2; [|done]. cbn [negb refuse_if rbind] in H.
  destruct (bool_decide (is_Some (db_orgs db !! in_ProjectID i))) eqn:H3; [|done]. cbn [negb refuse_if rbind] in H.
  destruct (violates i db) eqn:H4; [done|]. injection H as <-.
  apply bool_decide_eq_false in H1. apply bool_decide_eq_true in H3.
  split_and!; [by apply eq_None_not_Some|done..].
Qed.

Lemma snapshotEscalation_frame i db :
  db_incidents (snapshotEscalationPolicyTx i db) = db_incidents db /\
  db_updates (snapshotEscalationPolicyTx i db) = db_updates db /\
  db_outbox (snapshotEscalationPolicyTx i db) = db_outbox db /\
  db_audit (snapshotEscalationPolicyTx i db) = db_audit db /\
  db_orgs (snapshotEscalationPolicyTx i db) = db_orgs db.
Proof. unfold snapshotEscalationPolicyTx. by repeat case_match. Qed.

Lemma snapshotMembers_frame id project service rev db db' :
  snapshotServiceMembersTx id project service rev db = Ok db' ->
  db_incidents db' = db_incidents db /\ db_updates db' = db_updates db /\ db_outbox db' = db_outbox db /\
  db_audit db' = db_audit db /\ db_orgs db' = db_orgs db.
Proof. unfold snapshotServiceMembersTx. intros H. repeat case_match; simplify_eq; done. Qed.

(** *** The transactions *)

Lemma createIncident_writes i body author actor ids txNow stmtNow db db' created :
  createIncident i body author actor ids txNow stmtNow db = Ok (db', created) ->
  created = storedIncident i (id_incident ids) txNow stmtNow /\ Incident_Validate i = Ok tt /\
  violates created db = None /\ oneAnchor created = true /\
  lifecycle_write db db' None created
    {| iu_ID := id_update ids; iu_IncidentID := in_ID created; iu_Status := in_Status created;
       iu_Body := body; iu_Author := author; iu_CreatedAt := txNow |} None
    EventIncidentOpened (id_event ids) (if anchored created then Some (id_correlation ids) else None) txNow.
Proof.
  unfold createIncident. intros H. destruct (Incident_Validate i) as [[]|] eqn:Hv; [|done]. cbn [liftInvalid rbind] in H.
  set (c := storedIncident i (id_incident ids) txNow stmtNow) in *.
  destruct (insertIncident c db) as [db1|] eqn:Hi; [|done]. cbn [rbind] in H.
  apply insertIncident_frame in Hi as (Hn & Ha & Hvi & _ & ->).
  set (db2 := addUpdateRow _ _) in H.
  set (db3 := if bool_decide _ then db2 else _) in H.
  assert (db_incidents db3 = db_incidents db2 /\ db_updates db3 = db_updates db2 /\ db_outbox db3 = db_outbox db2 /\
          db_orgs db3 = db_orgs db2) as (H3i & H3u & H3o & H3g).
  { unfold db3. destruct (bool_decide _); [done|]. destruct (snapshotEscalation_frame c db2) as (? & ? & ? & _ & ?). done. }
  destruct (announceIncident _ _ _ _ _ db3) as [db4|] eqn:Han; [|done]. cbn [rbind] in H.
  apply announce_frame in Han as (r & Hr & H4i & H4o & H4n & H4u & _ & H4g).
  rewrite H3i in Hr, H4i. rewrite H3o in H4o, H4n. rewrite H3u in H4u. rewrite H3g in H4g.
  cbn in Hr, H4i, H4o, H4n, H4u, H4g. rewrite lookup_insert_eq in Hr. injection Hr as <-.
  rewrite insert_insert_eq in H4i.
  destruct (if anchored c then _ else _) as [db5|] eqn:Hc; [|done]. cbn [rbind] in H.
  destruct (auditedBy _ _ _ db5) as [db6|] eqn:Hau; [|done]. injection H as <- <-.
  apply audited_frame in Hau as (H6i & H6u & H6o & H6g & _).
  split_and!; [done..|]. destruct (anchored c).
  - apply enqueueTx_frame in Hc as [-> Hcn]. rewrite H4o in Hcn. apply lookup_insert_None in Hcn as [Hcn Hne].
    constructor; rewrite ?H6i, ?H6u, ?H6o, ?H6g; cbn; try done.
    + by rewrite H4o.
    + split; [done|]. intros x [= <-]. by auto.
  - injection Hc as <-. constructor; rewrite ?H6i, ?H6u, ?H6o, ?H6g; cbn; try done.
Qed.

(** A change of an incident that exists, its note and its announcement. *)
Lemma announce_update db r i upNote ty evID at_ db' :
  db_incidents db !! in_ID i = Some r ->
  iu_IncidentID upNote = in_ID i -> iu_Status upNote = in_Status i ->
  announceIncident evID ty i (Some upNote) at_ (addUpdateRow (setIncident db i (ir_event_seq r)) upNote) = Ok db' ->
  lifecycle_write db db' (Some r) i upNote (Some upNote) ty evID None at_ /\ db_audit db' = db_audit db.
Proof.
  intros Hr Hu1 Hu2 (r' & Hr' & Hi & Ho & Hn & Hu & Ha & Hg)%announce_frame. cbn in Hr', Hi, Ho, Hn, Hu, Ha, Hg.
  rewrite lookup_insert_eq in Hr'. injection Hr' as <-. rewrite insert_insert_eq in Hi.
  split; [|done]. by constructor.
Qed.

Lemma addIncidentUpdate_writes upd actor upID evID asOf db db' created :
  addIncidentUpdate upd actor upID evID asOf db = Ok (db', created) ->
  (forall id r, db_incidents db !! id = Some r -> in_ID (ir_incident r) = id) ->
  exists r next,
    db_incidents db !! iu_IncidentID upd = Some r /\
    next = (if keepCurrent (iu_Status upd) then in_Status (ir_incident r) else iu_Status upd) /\
    Terminal (in_Status (ir_incident r)) = false /\ CanFollow next (in_Status (ir_incident r)) = true /\
    created = {| iu_ID := upID; iu_IncidentID := iu_IncidentID upd; iu_Status := next; iu_Body := iu_Body upd;
                 iu_Author := iu_Author upd; iu_CreatedAt := asOf |} /\
    lifecycle_write db db' (Some r) (withIncidentStatus (ir_incident r) next asOf) created (Some created)
      (if bool_decide (next = IncidentResolved) then EventIncidentResolved else EventIncidentUpdated) evID None asOf.
Proof.
  unfold addIncidentUpdate. intros H Hkey. destruct (liftInvalid _); [|done]. cbn [rbind] in H.
  destruct (db_incidents db !! iu_IncidentID upd) as [r|] eqn:Hr; [|done].
  set (next := if keepCurrent (iu_Status upd) then _ else _) in *.
  destruct (Terminal _) eqn:Ht; [done|]. cbn [refuse_if rbind] in H.
  destruct (CanFollow next _) eqn:Hf; [|done]. cbn [negb refuse_if rbind] in H.
  destruct (announceIncident _ _ _ _ _ _) as [db1|] eqn:Han; [|done]. cbn [rbind] in H.
  destruct (auditedBy _ _ _ _) as [db2|] eqn:Hau; [|done]. injection H as <- <-.
  pose proof (Hkey _ _ Hr) as Hid.
  assert (in_ID (withIncidentStatus (ir_incident r) next asOf) = iu_IncidentID upd) as Hid' by done.
  apply announce_update with (r := r) in Han as [Hw _]; [|by rewrite Hid'|by rewrite Hid'|done].
  apply audited_frame in Hau as (Hi & Hu & Ho & Hg & _).
  exists r, next. split_and!; [done..|]. destruct Hw. constructor; try done; congruence.
Qed.

Lemma findOpenAuto_spec service db i :
  FindOpenAutoIncidentByService service db = Some i ->
  exists id r, db_incidents db !! id = Some r /\ isOpenAutoOf service r = true /\ ir_incident r = i.
Proof.
  unfold FindOpenAutoIncidentByService. intros H. destruct (List.find _ _) as [[id r]|] eqn:Hf; [|done].
  injection H as <-. apply List.find_some in Hf as [Hin Ho].
  apply list_elem_of_In, elem_of_map_to_list in Hin. by exists id, r.
Qed.

Lemma findOpenAuto_none service db :
  FindOpenAutoIncidentByService service db = None ->
  forall id r, db_incidents db !! id = Some r -> isOpenAutoOf service r = false.
Proof.
  unfold FindOpenAutoIncidentByService. intros H id r Hr.
  destruct (List.find _ _) as [kv|] eqn:Hf; [done|].
  apply (List.find_none _ _ Hf (id, r)). by apply list_elem_of_In, elem_of_map_to_list.
Qed.

Lemma OpenServiceIncidentTx_writes service project title body rev ids txNow db db' i created :
  OpenServiceIncidentTx service project title body rev ids txNow db = Ok (db', (i, created)) ->
  (created = false /\ db' = db /\ FindOpenAutoIncidentByService service db = Some i) \/
  (created = true /\ FindOpenAutoIncidentByService service db = None /\
   i = serviceIncident service project title (id_incident ids) txNow /\ violates i db = None /\
   lifecycle_write db db' None i
     {| iu_ID := id_update ids; iu_IncidentID := in_ID i; iu_Status := IncidentInvestigating;
        iu_Body := body; iu_Author := "system"; iu_CreatedAt := txNow |} None
     EventIncidentOpened (id_event ids) (Some (id_correlation ids)) txNow).
Proof.
  unfold OpenServiceIncidentTx. intros H.
  destruct (FindOpenAutoIncidentByService service db) as [ex|] eqn:Hfind; [injection H as <- <- <-; by left|].
  right. set (c := serviceIncident _ _ _ _ _) in *.
  destruct (insertIncident c db) as [db1|] eqn:Hi; [|done]. cbn [rbind] in H.
  apply insertIncident_frame in Hi as (Hn & Ha & Hvi & _ & ->).
  destruct (snapshotServiceMembersTx _ _ _ _ _) as [db2|] eqn:Hs; [|done]. cbn [rbind] in H.
  apply snapshotMembers_frame in Hs as (H2i & H2u & H2o & _ & H2g).
  destruct (enqueueTx _ _ _ _ _) as [db3|] eqn:Hc; [|done]. cbn [rbind] in H.
  apply enqueueTx_frame in Hc as [-> Hcn]. cbn in Hcn. rewrite H2o in Hcn. cbn in Hcn.
  set (db3 := withOutbox _ _) in H.
  destruct (snapshotEscalation_frame c db3) as (H4i & H4u & H4o & _ & H4g).
  destruct (announceIncident _ _ _ _ _ _) as [db5|] eqn:Han; [|done]. injection H as <- <- <-.
  apply announce_frame in Han as (r & Hr & H5i & H5o & H5n & H5u & _ & H5g).
  rewrite H4i in Hr, H5i. rewrite H4o in H5o, H5n. rewrite H4u in H5u. rewrite H4g in H5g.
  unfold db3 in *. cbn in Hr, H5i, H5o, H5n, H5u, H5g.
  rewrite H2i in Hr, H5i. cbn in Hr, H5i. rewrite lookup_insert_eq in Hr. injection Hr as <-.
  rewrite insert_insert_eq in H5i. rewrite H2o in H5o, H5n. rewrite H2u in H5u. rewrite H2g in H5g. cbn in H5o, H5n, H5u, H5g.
  apply lookup_insert_None in H5n as [Hen Hne].
  split_and!; [done..|]. constructor; try done.
  - rewrite H5o. cbn [withCorrelation]. by rewrite insert_insert_ne by done.
  - split; [done|]. by intros x [= <-].
Qed.

Lemma resolveServiceIncidentTx_writes service body upID evID asOf db db' b :
  resolveServiceIncidentTx service body upID evID asOf db = Ok (db', b) ->
  (forall id r, db_incidents db !! id = Some r -> in_ID (ir_incident r) = id) ->
  (b = false /\ db' = db /\ FindOpenAutoIncidentByService service db = None) \/
  (b = true /\ exists r, isOpenAutoOf service r = true /\
   let i := resolvedNow (ir_incident r) asOf in
   let u := {| iu_ID := upID; iu_IncidentID := in_ID i; iu_Status := IncidentResolved; iu_Body := body;
               iu_Author := "system"; iu_CreatedAt := asOf |} in
   lifecycle_write db db' (Some r) i u (Some u) EventIncidentResolved evID None asOf).
Proof.
  unfold resolveServiceIncidentTx. intros H Hkey.
  destruct (FindOpenAutoIncidentByService service db) as [i0|] eqn:Hfind; [|injection H as <- <-; by left].
  destruct (findOpenAuto_spec _ _ _ Hfind) as (id & r & Hr & Ho & <-). rewrite (Hkey _ _ Hr), Hr in H.
  destruct (announceIncident _ _ _ _ _ _) as [db1|] eqn:Han; [|done]. injection H as <- <-.
  right. split; [done|]. exists r. split; [done|].
  pose proof (Hkey _ _ Hr) as Hid.
  apply announce_update with (r := r) in Han as [Hw _]; [exact Hw|by cbn; rewrite Hid|done..].
Qed.

Lemma acknowledgeIncident_frame id by_ a asOf db db' i :
  acknowledgeIncident id by_ a asOf db = Ok (db', i) ->
  (forall id r, db_incidents db !! id = Some r -> in_ID (ir_incident r) = id) ->
  exists r, db_incidents db !! id = Some r /\ Terminal (in_Status (ir_incident r)) = false /\
    i = acked (ir_incident r) by_ asOf /\
    db_incidents db' = <[id := {| ir_incident := i; ir_event_seq := ir_event_seq r |}]> (db_incidents db) /\
    db_updates db' = db_updates db /\ db_outbox db' = db_outbox db /\ db_orgs db' = db_orgs db.
Proof.
  unfold acknowledgeIncident. intros H Hkey. destruct (db_incidents db !! id) as [r|] eqn:Hr; [|done].
  destruct (Terminal _) eqn:Ht; [done|]. cbn [refuse_if rbind] in H.
  set (c := acked (ir_incident r) by_ asOf) in *.
  assert (in_ID c = id) as Hid by (by apply Hkey in Hr).
  destruct (bool_decide (in_AcknowledgedAt c = Some asOf)).
  - destruct (insertIncidentAudit _ _ _ _ _) as [db1|] eqn:Ha; [|done]. injection H as <- <-.
    apply (audited_frame (Some a) _ (fun _ => (_, _))) in Ha as (Hi & Hu & Ho & Hg & _). exists r.
    rewrite Hi, Hu, Ho, Hg. unfold setIncident. rewrite Hid. done.
  - injection H as <- <-. exists r. unfold setIncident. rewrite Hid. done.
Qed.

Lemma postmortem_frame id body author a newID txNow db db' p :
  UpsertPostmortemByPrincipal id body author a newID txNow db = Ok (db', p) ->
  db_incidents db' = db_incidents db /\ db_updates db' = db_updates db /\ db_outbox db' = db_outbox db /\
  db_orgs db' = db_orgs db.
Proof.
  unfold UpsertPostmortemByPrincipal. intros H. destruct (db_incidents db !! id) as [r|]; [|done].
  destruct (insertIncidentAudit _ _ _ _ _) as [db1|] eqn:Ha; [|done]. injection H as <- _.
  apply (audited_frame (Some a) _ (fun _ => (_, _))) in Ha as (Hi & Hu & Ho & Hg & _). by rewrite Hi, Hu, Ho, Hg.
Qed.
End shapes.
