(* ===== verification/IncidentDelivery.v ===== *)
(** * Incidents and their delivery, together

    The writers of the incident store and the outbox workers share one database.  The state
    is that database, the highest clock a locked transaction has read, the events in the hands
    of workers, the log of delivery calls and the identifiers generated so far.  Reachable
    states satisfy: an incident's timeline only moves forward; at most one incident per
    anchor is open; and nobody is told of an event of an incident before every earlier event
    of it was accepted. *)

From S2P Require Import Prelude GoFloat GoString Outbox OutboxFacts OnCall Incidents IncidentFacts.

Record DeliveryWorld (P : Type) := {
  dw_db : IncidentDB P;
  dw_clock : Time;
  dw_flights : list (Flight P);
  dw_log : list (DeliveryNote P);
  dw_uuids : gset string;
}.
Arguments dw_db {P}. Arguments dw_clock {P}. Arguments dw_flights {P}. Arguments dw_log {P}. Arguments dw_uuids {P}.

Section delivery.
Context {P : Type} `{!Payload P, !IncidentPayload P}.
Implicit Types (db : IncidentDB P) (w : DeliveryWorld P).

Definition outboxOf w : OutboxWorld P :=
  {| ow_rows := db_outbox (dw_db w); ow_flights := dw_flights w; ow_log := dw_log w; ow_uuids := dw_uuids w |}.

Definition workedOn w (o : OutboxWorld P) : DeliveryWorld P :=
  {| dw_db := withOutbox (dw_db w) (ow_rows o); dw_clock := dw_clock w; dw_flights := ow_flights o;
     dw_log := ow_log o; dw_uuids := ow_uuids o |}.

(** A committed transaction: its clock, and the outbox identifiers it generated. *)
Definition committed w db (asOf : Time) (ids : list string) : DeliveryWorld P :=
  {| dw_db := db; dw_clock := asOf; dw_flights := dw_flights w; dw_log := dw_log w;
     dw_uuids := list_to_set ids ∪ dw_uuids w |}.

Definition fresh w (ids : list string) : Prop := forall id, id ∈ ids -> id ∉ dw_uuids w.

(** A transaction that holds the incident's row reads a clock no earlier than the ones read
    under that lock before ([dw_clock w <= asOf]). *)
Inductive delivery_step : DeliveryWorld P -> DeliveryWorld P -> Prop :=
| ds_create w i body author actor ids txNow stmtNow db' created :
    createIncident i body author actor ids txNow stmtNow (dw_db w) = Ok (db', created) ->
    txNow <= stmtNow -> dw_clock w <= stmtNow -> fresh w [id_event ids; id_correlation ids] ->
    delivery_step w (committed w db' stmtNow [id_event ids; id_correlation ids])
| ds_update w upd actor upID evID asOf db' created :
    addIncidentUpdate upd actor upID evID asOf (dw_db w) = Ok (db', created) ->
    dw_clock w <= asOf -> fresh w [evID] ->
    delivery_step w (committed w db' asOf [evID])
| ds_acknowledge w id by_ actor asOf db' i :
    acknowledgeIncident id by_ actor asOf (dw_db w) = Ok (db', i) -> dw_clock w <= asOf ->
    delivery_step w (committed w db' asOf [])
| ds_postmortem w id body author actor newID txNow db' p :
    UpsertPostmortemByPrincipal id body author actor newID txNow (dw_db w) = Ok (db', p) ->
    delivery_step w (committed w db' (dw_clock w) [])
| ds_open w service project title body rev ids txNow asOf db' res :
    OpenServiceIncidentTx service project title body rev ids txNow (dw_db w) = Ok (db', res) ->
    txNow <= asOf -> dw_clock w <= asOf -> fresh w [id_event ids; id_correlation ids] ->
    delivery_step w (committed w db' asOf [id_event ids; id_correlation ids])
| ds_resolve w service body upID evID asOf db' b :
    resolveServiceIncidentTx service body upID evID asOf (dw_db w) = Ok (db', b) ->
    dw_clock w <= asOf -> fresh w [evID] ->
    delivery_step w (committed w db' asOf [evID])
| ds_worker w o' : worker_step (outboxOf w) o' -> delivery_step w (workedOn w o').

(** An empty store with its projects, policies and declarations. *)
Definition delivery_initial w : Prop :=
  db_incidents (dw_db w) = ∅ /\ db_updates (dw_db w) = [] /\ db_outbox (dw_db w) = ∅ /\
  dw_flights w = [] /\ dw_log w = [].

Definition delivery_system : system (DeliveryWorld P) := System delivery_initial delivery_step.

(** ** One shape for the writers *)

Definition sameAnchor (i j : Incident) : Prop :=
  in_ID i = in_ID j /\ in_ProjectID i = in_ProjectID j /\ in_MonitorID i = in_MonitorID j /\
  in_ServiceID i = in_ServiceID j /\ in_ExternalKey i = in_ExternalKey j /\ in_Source i = in_Source j.

Definition stamped (i : Incident) : Prop :=
  IncidentStatus_Valid (in_Status i) = true /\ (in_Status i = IncidentResolved <-> is_Some (in_ResolvedAt i)).

(** What an accepted change of status does to the row. *)
Record status_change (i i' : Incident) : Prop := {
  sc_anchor : sameAnchor i i';
  sc_open : in_Status i <> IncidentResolved;
  sc_rank : rank (in_Status i) <= rank (in_Status i');
  sc_stamped : stamped i -> stamped i';
}.

Inductive incident_write db (db' : IncidentDB P) (asOf : Time) (ids : list string) : Prop :=
| iw_open i u ev corr txNow :
    lifecycle_write db db' None i u None EventIncidentOpened ev corr txNow ->
    txNow <= asOf -> iu_CreatedAt u = txNow -> violates i db = None -> stamped i ->
    ev ∈ ids -> (forall c, corr = Some c -> c ∈ ids) ->
    incident_write db db' asOf ids
| iw_change r i u ty ev :
    lifecycle_write db db' (Some r) i u (Some u) ty ev None asOf ->
    iu_CreatedAt u = asOf -> status_change (ir_incident r) i ->
    ty = (if bool_decide (in_Status i = IncidentResolved) then EventIncidentResolved else EventIncidentUpdated) ->
    ev ∈ ids ->
    incident_write db db' asOf ids
| iw_quiet id r i :
    db_outbox db' = db_outbox db -> db_updates db' = db_updates db ->
    db_incidents db !! id = Some r -> in_ID i = id -> sameAnchor (ir_incident r) i ->
    in_Status i = in_Status (ir_incident r) -> in_ResolvedAt i = in_ResolvedAt (ir_incident r) ->
    db_incidents db' = <[id := {| ir_incident := i; ir_event_seq := ir_event_seq r |}]> (db_incidents db) ->
    incident_write db db' asOf ids
| iw_none :
    db_outbox db' = db_outbox db -> db_updates db' = db_updates db -> db_incidents db' = db_incidents db ->
    incident_write db db' asOf ids.

Definition keyed db : Prop := forall id r, db_incidents db !! id = Some r -> in_ID (ir_incident r) = id.

Lemma canFollow_spec s current :
  CanFollow s current = true ->
  current <> IncidentResolved /\ rank current <= rank s /\ IncidentStatus_Valid s = true.
Proof.
  unfold CanFollow, Terminal. intros H.
  destruct (bool_decide (current = IncidentResolved)) eqn:Ht; [done|].
  apply bool_decide_eq_false in Ht. destruct ((rank current <? 0) || (rank s <? 0)) eqn:Hr; [done|].
  bool_facts. split_and!; [done|lia|]. by destruct s.
Qed.

Lemma withIncidentStatus_change i s asOf :
  CanFollow s (in_Status i) = true -> status_change i (withIncidentStatus i s asOf).
Proof.
  intros (Hn & Hr & Hv)%canFollow_spec. constructor; [done|done|done|].
  intros [_ Hs]. split; [done|]. cbn. destruct (bool_decide (s = IncidentResolved)) eqn:Hd.
  - apply bool_decide_eq_true in Hd. split; [|done]. intros _. destruct (in_ResolvedAt i); by eexists.
  - apply bool_decide_eq_false in Hd. split; [done|]. intros Hx. by apply Hs in Hx.
Qed.

Lemma resolvedNow_change i asOf : in_Status i <> IncidentResolved -> status_change i (resolvedNow i asOf).
Proof.
  intros Hn. constructor; [done|done| |].
  - cbn. destruct (in_Status i); cbn; lia.
  - intros _. split; [done|]. cbn. split; [by eexists|done].
Qed.

Lemma valid_created i id txNow stmtNow :
  Incident_Validate i = Ok tt -> stamped (storedIncident i id txNow stmtNow).
Proof.
  unfold Incident_Validate. rewrite !rbind_unit_Ok, !refuse_if_Ok. intros (_ & _ & Hv%negb_false_iff & _).
  split; [done|]. cbn. destruct (bool_decide _) eqn:Hd.
  - apply bool_decide_eq_true in Hd. split; [by eexists|done].
  - apply bool_decide_eq_false in Hd. split; [done|]. by intros [? ?].
Qed.

Lemma step_writes w w' :
  delivery_step w w' -> keyed (dw_db w) ->
  (exists db' asOf ids, w' = committed w db' asOf ids /\ incident_write (dw_db w) db' asOf ids /\
                        dw_clock w <= asOf /\ fresh w ids) \/
  (exists o', w' = workedOn w o' /\ worker_step (outboxOf w) o').
Proof.
  intros Hs Hkey. destruct Hs as
    [w i body author actor ids txNow stmtNow db' c Hc Ht Hclk Hf|w upd actor upID evID asOf db' c Hc Hclk Hf
    |w id by_ actor asOf db' i Hc Hclk|w id body author actor newID txNow db' p Hc
    |w service project title body rev ids txNow asOf db' [i b] Hc Ht Hclk Hf
    |w service body upID evID asOf db' b Hc Hclk Hf|w o' Hw]; [left|left|left|left|left|left|right; by exists o'].
  - exists db', stmtNow, [id_event ids; id_correlation ids]. split_and!; [done| |done|done].
    apply createIncident_writes in Hc as (-> & Hv & Hvi & _ & Hlw).
    eapply iw_open; [exact Hlw|done|done|done|by apply valid_created|set_solver|].
    intros x Hx. destruct (anchored _); simplify_eq. set_solver.
  - exists db', asOf, [evID]. split_and!; [done| |done|done].
    apply addIncidentUpdate_writes in Hc as (r & next & Hr & _ & _ & Hcf & -> & Hlw); [|done].
    eapply iw_change; [exact Hlw|done|by apply withIncidentStatus_change|done|set_solver].
  - exists db', asOf, []. split_and!; [done| |done|by intros ? ?%elem_of_nil].
    apply acknowledgeIncident_frame in Hc as (r & Hr & _ & -> & Hi & Hu & Ho & _); [|done].
    apply (iw_quiet _ _ _ _ id r (acked (ir_incident r) by_ asOf)); try done; first [by apply Hkey in Hr|by repeat split].
  - exists db', (dw_clock w), []. split_and!; [done| |done|by intros ? ?%elem_of_nil].
    apply postmortem_frame in Hc as (Hi & Hu & Ho & _). by apply iw_none.
  - exists db', asOf, [id_event ids; id_correlation ids]. split_and!; [done| |done|done].
    apply OpenServiceIncidentTx_writes in Hc as [(_ & -> & _)|(_ & _ & -> & Hvi & Hlw)]; [by apply iw_none|].
    eapply iw_open; [exact Hlw|done|done|done| |set_solver|].
    + split; [done|]. cbn. split; [done|by intros [? ?]].
    + intros x [= <-]. set_solver.
  - exists db', asOf, [evID]. split_and!; [done| |done|done].
    apply resolveServiceIncidentTx_writes in Hc as [(_ & -> & _)|(_ & r & Ho & Hlw)]; [by apply iw_none| |done].
    eapply iw_change; [exact Hlw|done|apply resolvedNow_change|by rewrite bool_decide_true|set_solver].
    unfold isOpenAutoOf, unresolved in Ho. bool_facts. by apply bool_decide_eq_false in H.
Qed.

(** ** The timeline of an incident *)

Definition rank_le (a b : IncidentUpdate) : Prop := rank (iu_Status a) <= rank (iu_Status b).

(** The timeline of one incident, in the order it was written: forward in status and in time,
    ending at the status the row holds; one entry per event the row has numbered. *)
Record timeline_ok (us : list IncidentUpdate) (r : IncidentRow) (clock : Time) : Prop := {
  tl_last : exists us' u, us = us' ++ [u] /\ iu_Status u = in_Status (ir_incident r);
  tl_ranks : StronglySorted rank_le us;
  tl_times : StronglySorted created_le us;
  tl_bounds : forall u, u ∈ us -> iu_CreatedAt u <= clock /\ rank (iu_Status u) <= rank (in_Status (ir_incident r));
  tl_count : Z.of_nat (length us) = ir_event_seq r;
}.

(** Two incidents the unique indexes keep from being open together. *)
Definition clash (i j : Incident) : Prop :=
  (in_Source i = SourceAuto /\ in_Source j = SourceAuto /\
   ((in_MonitorID i = in_MonitorID j /\ in_MonitorID i <> "") \/
    (in_ServiceID i = in_ServiceID j /\ in_ServiceID i <> ""))) \/
  (in_ProjectID i = in_ProjectID j /\ in_ExternalKey i = in_ExternalKey j /\ in_ExternalKey i <> "").

Record store_inv db (clock : Time) : Prop := {
  si_key : keyed db;
  si_stamped : forall id r, db_incidents db !! id = Some r -> stamped (ir_incident r);
  si_timeline : forall id r, db_incidents db !! id = Some r -> timeline_ok (updatesOf id db) r clock;
  si_orphans : forall id, db_incidents db !! id = None -> updatesOf id db = [];
  si_open : forall id1 id2 r1 r2, db_incidents db !! id1 = Some r1 -> db_incidents db !! id2 = Some r2 ->
    unresolved r1 = true -> unresolved r2 = true -> clash (ir_incident r1) (ir_incident r2) -> id1 = id2;
}.

Lemma unresolved_spec r : unresolved r = true <-> in_Status (ir_incident r) <> IncidentResolved.
Proof. unfold unresolved. rewrite negb_true_iff, bool_decide_eq_false. done. Qed.

Lemma someRow_false p db :
  someRow p db = false -> forall id r, db_incidents db !! id = Some r -> unresolved r = true -> p (ir_incident r) = false.
Proof.
  unfold someRow. intros H id r Hr Hu. destruct (p (ir_incident r)) eqn:Hp; [|done].
  assert (existsb (fun kv => unresolved kv.2 && p (ir_incident kv.2)) (map_to_list (db_incidents db)) = true) as He;
    [|by rewrite He in H].
  apply existsb_exists. exists (id, r). split; [by apply list_elem_of_In, elem_of_map_to_list|]. cbn. by rewrite Hu, Hp.
Qed.

Lemma violates_none i db :
  violates i db = None -> in_Status i <> IncidentResolved ->
  forall id r, db_incidents db !! id = Some r -> unresolved r = true -> ~ clash (ir_incident r) i.
Proof.
  unfold violates. intros H Hs id r Hr Hu Hc. rewrite bool_decide_false in H by done.
  destruct (bool_decide (in_Source i = SourceAuto) && someRow (openAutoOfMonitor (in_MonitorID i)) db) eqn:H1; [done|].
  destruct (someRow (openByExternalKey (in_ProjectID i) (in_ExternalKey i)) db) eqn:H2; [done|].
  destruct (bool_decide (in_Source i = SourceAuto) && someRow (openAutoOfService (in_ServiceID i)) db) eqn:H3; [done|].
  destruct Hc as [(Ha1 & Ha2 & [[Hm Hne]|[Hm Hne]])|(Hp & He & Hne)].
  - rewrite bool_decide_true in H1 by done. pose proof (someRow_false _ _ H1 id r Hr Hu) as Hf.
    unfold openAutoOfMonitor in Hf. rewrite !bool_decide_true, bool_decide_false in Hf by congruence. done.
  - rewrite bool_decide_true in H3 by done. pose proof (someRow_false _ _ H3 id r Hr Hu) as Hf.
    unfold openAutoOfService in Hf. rewrite !bool_decide_true, bool_decide_false in Hf by congruence. done.
  - pose proof (someRow_false _ _ H2 id r Hr Hu) as Hf.
    unfold openByExternalKey in Hf. rewrite !bool_decide_true, bool_decide_false in Hf by congruence. done.
Qed.

Lemma clash_sym i j : clash i j -> clash j i.
Proof. unfold clash. intros [(? & ? & [[? ?]|[? ?]])|(? & ? & ?)]; [left|left|right]; split_and!; try congruence; [left|right]; split; congruence. Qed.

Lemma clash_anchor i i' j : sameAnchor i i' -> clash i' j -> clash i j.
Proof. unfold clash. intros (_ & -> & -> & -> & -> & ->). done. Qed.

Lemma updatesOf_snoc db db' u id :
  db_updates db' = db_updates db ++ [u] ->
  updatesOf id db' = updatesOf id db ++ (if bool_decide (iu_IncidentID u = id) then [u] else []).
Proof. unfold updatesOf. intros ->. rewrite List.filter_app. by cbn; case_match. Qed.

Lemma timeline_later us r c1 c2 : c1 <= c2 -> timeline_ok us r c1 -> timeline_ok us r c2.
Proof. intros Hc [Hl Hr Ht Hb Hn]. constructor; [done..| |done]. intros u Hu. destruct (Hb u Hu). lia. Qed.

Lemma StronglySorted_snoc {A} (R : relation A) l x :
  StronglySorted R l -> (forall y, y ∈ l -> R y x) -> StronglySorted R (l ++ [x]).
Proof.
  intros Hl Hx. apply StronglySorted_app_2; [|done|by repeat constructor].
  intros y z Hy Hz%list_elem_of_singleton. subst. by apply Hx.
Qed.

Lemma timeline_extend us r clock u i asOf :
  timeline_ok us r clock -> clock <= asOf -> iu_CreatedAt u = asOf -> iu_Status u = in_Status i ->
  rank (in_Status (ir_incident r)) <= rank (in_Status i) ->
  timeline_ok (us ++ [u]) {| ir_incident := i; ir_event_seq := ir_event_seq r + 1 |} asOf.
Proof.
  intros [Hl Hr Ht Hb Hn] Hc Ha Hs Hk. constructor; cbn.
  - by exists us, u.
  - apply StronglySorted_snoc; [done|]. intros v Hv. unfold rank_le. rewrite Hs. destruct (Hb v Hv). lia.
  - apply StronglySorted_snoc; [done|]. intros v Hv. unfold created_le. destruct (Hb v Hv). lia.
  - intros v [Hv| ->%list_elem_of_singleton]%elem_of_app; [destruct (Hb v Hv); lia|rewrite Hs; lia].
  - rewrite length_app. cbn. lia.
Qed.

Lemma timeline_single u i asOf :
  iu_CreatedAt u <= asOf -> iu_Status u = in_Status i ->
  timeline_ok [u] {| ir_incident := i; ir_event_seq := 1 |} asOf.
Proof.
  intros Ha Hs. constructor; cbn; [by exists [], u|by repeat constructor|by repeat constructor| |done].
  intros v ->%list_elem_of_singleton. rewrite Hs. lia.
Qed.

(** A write leaves the unique indexes satisfied when the new row clashes with no other. *)
Lemma open_insert db db' i seq clock :
  store_inv db clock ->
  db_incidents db' = <[in_ID i := {| ir_incident := i; ir_event_seq := seq |}]> (db_incidents db) ->
  (in_Status i <> IncidentResolved -> forall id r, id <> in_ID i -> db_incidents db !! id = Some r ->
     unresolved r = true -> ~ clash (ir_incident r) i) ->
  forall id1 id2 r1 r2, db_incidents db' !! id1 = Some r1 -> db_incidents db' !! id2 = Some r2 ->
    unresolved r1 = true -> unresolved r2 = true -> clash (ir_incident r1) (ir_incident r2) -> id1 = id2.
Proof.
  intros Hinv Hi Hn id1 id2 r1 r2 H1 H2 Hu1 Hu2 Hc. rewrite Hi in H1, H2.
  apply lookup_insert_Some in H1 as [[<- <-]|[Hne1 H1]]; apply lookup_insert_Some in H2 as [[<- <-]|[Hne2 H2]].
  - done.
  - destruct (Hn (proj1 (unresolved_spec _) Hu1) id2 r2 (not_eq_sym Hne2) H2 Hu2). by apply clash_sym.
  - by destruct (Hn (proj1 (unresolved_spec _) Hu2) id1 r1 (not_eq_sym Hne1) H1 Hu1).
  - by eapply (si_open _ _ Hinv).
Qed.

Lemma write_store_inv db db' clock asOf ids :
  incident_write db db' asOf ids -> clock <= asOf -> store_inv db clock -> store_inv db' asOf.
Proof.
  intros Hw Hc Hinv. destruct Hw as
    [i u ev corr txNow Hlw Ht Hu Hv Hst _ _|r i u ty ev Hlw Hu Hsc _ _|id r i Ho Hu Hr Hid Han Hs Hres Hi|Ho Hu Hi].
  - destruct (lw_update _ _ _ _ _ _ _ _ _ _ Hlw) as [Hui Hus].
    pose proof (lw_incidents _ _ _ _ _ _ _ _ _ _ Hlw) as Hi. pose proof (lw_old _ _ _ _ _ _ _ _ _ _ Hlw) as Hold.
    pose proof (lw_updates _ _ _ _ _ _ _ _ _ _ Hlw) as Hups.
    constructor.
    + intros k x. rewrite Hi. intros [[<- <-]|[_ Hx]]%lookup_insert_Some; [done|by apply (si_key _ _ Hinv)].
    + intros k x. rewrite Hi. intros [[<- <-]|[_ Hx]]%lookup_insert_Some; [done|by eapply (si_stamped _ _ Hinv)].
    + intros k x. rewrite Hi, (updatesOf_snoc _ _ _ k Hups), Hui.
      intros [[<- <-]|[Hne Hx]]%lookup_insert_Some.
      * rewrite bool_decide_true, (si_orphans _ _ Hinv _ Hold) by done. apply timeline_single; [lia|done].
      * rewrite bool_decide_false, app_nil_r by done. by eapply timeline_later, (si_timeline _ _ Hinv).
    + intros k. rewrite Hi, (updatesOf_snoc _ _ _ k Hups), Hui. intros [Hk Hne]%lookup_insert_None.
      rewrite bool_decide_false, app_nil_r by done. by apply (si_orphans _ _ Hinv).
    + eapply open_insert; [done|done|]. intros Hn k x _. by apply violates_none.
  - destruct (lw_update _ _ _ _ _ _ _ _ _ _ Hlw) as [Hui Hus].
    pose proof (lw_incidents _ _ _ _ _ _ _ _ _ _ Hlw) as Hi. pose proof (lw_old _ _ _ _ _ _ _ _ _ _ Hlw) as Hold.
    pose proof (lw_updates _ _ _ _ _ _ _ _ _ _ Hlw) as Hups.
    constructor.
    + intros k x. rewrite Hi. intros [[<- <-]|[_ Hx]]%lookup_insert_Some; [done|by apply (si_key _ _ Hinv)].
    + intros k x. rewrite Hi. intros [[<- <-]|[_ Hx]]%lookup_insert_Some; [|by eapply (si_stamped _ _ Hinv)].
      by eapply (sc_stamped _ _ Hsc), (si_stamped _ _ Hinv).
    + intros k x. rewrite Hi, (updatesOf_snoc _ _ _ k Hups), Hui.
      intros [[<- <-]|[Hne Hx]]%lookup_insert_Some.
      * rewrite bool_decide_true by done.
        eapply timeline_extend; [by apply (si_timeline _ _ Hinv)|done|done|done|]. apply (sc_rank _ _ Hsc).
      * rewrite bool_decide_false, app_nil_r by done. by eapply timeline_later, (si_timeline _ _ Hinv).
    + intros k. rewrite Hi, (updatesOf_snoc _ _ _ k Hups), Hui. intros [Hk Hne]%lookup_insert_None.
      rewrite bool_decide_false, app_nil_r by done. by apply (si_orphans _ _ Hinv).
    + eapply open_insert; [done|done|]. intros Hn k x Hk Hx Hux Hcl. apply Hk.
      apply (si_open _ _ Hinv k (in_ID i) x r Hx Hold Hux); [by apply unresolved_spec, (sc_open _ _ Hsc)|].
      by apply clash_sym, (clash_anchor _ _ _ (sc_anchor _ _ Hsc)), clash_sym.
  - subst id. constructor.
    + intros k x. rewrite Hi. intros [[<- <-]|[_ Hx]]%lookup_insert_Some; [done|by apply (si_key _ _ Hinv)].
    + intros k x. rewrite Hi. intros [[<- <-]|[_ Hx]]%lookup_insert_Some; [|by eapply (si_stamped _ _ Hinv)].
      unfold stamped. cbn. rewrite Hs, Hres. by eapply (si_stamped _ _ Hinv).
    + intros k x. unfold updatesOf. rewrite Hi, Hu. intros [[<- <-]|[_ Hx]]%lookup_insert_Some.
      * destruct (timeline_later _ _ _ _ Hc (si_timeline _ _ Hinv _ _ Hr)) as [Hl Hrk Htm Hb Hn].
        constructor; cbn; rewrite ?Hs; done.
      * by eapply timeline_later, (si_timeline _ _ Hinv).
    + intros k. unfold updatesOf. rewrite Hi, Hu. intros [Hk _]%lookup_insert_None. by apply (si_orphans _ _ Hinv).
    + eapply open_insert; [done|done|]. intros Hn k x Hk Hx Hux Hcl. apply Hk.
      apply (si_open _ _ Hinv k (in_ID i) x r Hx Hr Hux); [apply unresolved_spec; by rewrite <- Hs|].
      by apply clash_sym, (clash_anchor _ _ _ Han), clash_sym.
  - destruct Hinv as [H1 H2 H3 H4 H5]. constructor; unfold keyed, updatesOf; rewrite ?Hi, ?Hu; try done.
    intros k x Hx. by eapply timeline_later, H3.
Qed.

(** ** What has been told *)

Definition carries (p : P) (i : string) (k : Z) : Prop := pl_incident p = Some i /\ pl_seq p = Some k.

(** A delivery call for the [k]-th event of incident [i] was accepted. *)
Definition acceptedIn (log : list (DeliveryNote P)) (i : string) (k : Z) : Prop :=
  exists p, NoteAccepted TopicIncidentEvent p ∈ log /\ carries p i k.

Lemma carries_inj p i j k l : carries p i k -> carries p j l -> i = j /\ k = l.
Proof. unfold carries. intros [H1 H2] [H3 H4]. split; congruence. Qed.

Lemma accepted_app log log' i k : acceptedIn log i k -> acceptedIn (log ++ log') i k.
Proof. intros (p & Hp & Hc). exists p. split; [set_solver|done]. Qed.

Definition numbered db (p : P) : Prop :=
  exists i k r, carries p i k /\ db_incidents db !! i = Some r /\ 1 <= k <= ir_event_seq r.

Record log_inv w : Prop := {
  li_rows : forall oid o, db_outbox (dw_db w) !! oid = Some o -> ob_topic o = TopicIncidentEvent ->
    numbered (dw_db w) (ob_payload o);
  li_flights : forall f, f ∈ dw_flights w -> ev_Topic (fl_event f) = TopicIncidentEvent ->
    numbered (dw_db w) (ev_Payload (fl_event f)) /\
    (fl_phase f = Accepted -> NoteAccepted TopicIncidentEvent (ev_Payload (fl_event f)) ∈ dw_log w);
  li_cover : forall i r j, db_incidents (dw_db w) !! i = Some r -> 1 <= j <= ir_event_seq r ->
    acceptedIn (dw_log w) i j \/
    exists oid o, db_outbox (dw_db w) !! oid = Some o /\ ob_topic o = TopicIncidentEvent /\ carries (ob_payload o) i j;
  li_delivered : forall oid o i k, db_outbox (dw_db w) !! oid = Some o -> ob_topic o = TopicIncidentEvent ->
    ob_status o = OutboxDelivered -> carries (ob_payload o) i k -> acceptedIn (dw_log w) i k;
  li_order : forall l1 p l2 i k j, dw_log w = l1 ++ NoteBegun TopicIncidentEvent p :: l2 ->
    carries p i k -> 1 <= j < k -> acceptedIn l1 i j;
}.

Definition told_inv w : Prop :=
  store_inv (dw_db w) (dw_clock w) /\ (worker_inv (outboxOf w) /\ flight_causal (outboxOf w)) /\ log_inv w.

(** *** A worker's step *)

Lemma rev_case {A} (l : list A) : l = [] \/ exists l' x, l = l' ++ [x].
Proof. induction l as [|x l _] using rev_ind; [by left|right; by eexists _, _]. Qed.

Lemma note_split {A} (l1 l : list A) x l2 y :
  l ++ [y] = l1 ++ x :: l2 -> (exists l3, l2 = l3 ++ [y] /\ l = l1 ++ x :: l3) \/ (l2 = [] /\ x = y /\ l1 = l).
Proof.
  intros H. destruct (rev_case l2) as [->|(l3 & z & ->)].
  - right. apply app_inj_2 in H as [-> [= ->]]; done.
  - left. exists l3. rewrite app_comm_cons, app_assoc in H. apply app_inj_2 in H as [-> [= ->]]; done.
Qed.

Lemma worker_log_inv w o' :
  told_inv w -> worker_step (outboxOf w) o' -> log_inv (workedOn w o').
Proof.
  intros (_ & [Hwi Hfc] & [Hrows Hfl Hcov Hdel Hord]) Hs.
  assert (ow_log o' = dw_log w \/ exists n, ow_log o' = dw_log w ++ [n]) as Hlog.
  { destruct (log_step _ _ Hs) as [[-> _]|[(f & _ & -> & _)|(f & _ & -> & _)]]; [by left|right; by eexists..]. }
  assert (forall i k, acceptedIn (dw_log w) i k -> acceptedIn (ow_log o') i k) as Hacc.
  { intros i k Ha. destruct Hlog as [->|[n ->]]; [done|]. by apply accepted_app. }
  constructor; cbn [workedOn dw_db dw_flights dw_log withOutbox db_outbox db_incidents].
  - intros oid r' Hr' Ht. destruct (row_origin _ _ _ _ Hs Hwi Hr') as (r & Hr & Ht' & Hp').
    rewrite Hp'. rewrite Ht' in Ht. by eapply Hrows.
  - intros f' Hf' Ht. destruct (flight_origin _ _ _ Hs Hwi Hf') as [(f & Hf & He)|(Hph & r & Hr & Htr & Hpr)].
    + rewrite <- He in Ht |- *. split; [by apply Hfl|]. intros Hph.
      assert (f' ∈ dw_flights w -> NoteAccepted TopicIncidentEvent (ev_Payload (fl_event f)) ∈ ow_log o') as Hold.
      { intros Hin. rewrite He in Ht |- *. destruct (Hfl f' Hin Ht) as [_ Hn]. specialize (Hn Hph).
        destruct Hlog as [->|[n ->]]; set_solver. }
      destruct (log_step _ _ Hs) as [[_ Hph']|[(g & _ & _ & Hph')|(g & Hg & Hl & Hph')]]; [by apply Hold, Hph'..|].
      destruct (Hph' f' Hf' Hph) as [Hin|Heq]; [by apply Hold|].
      rewrite Hl, <- Heq, <- He, Ht. set_solver.
    + rewrite <- Hpr. split; [by eapply Hrows; [exact Hr|rewrite Htr]|]. by rewrite Hph.
  - intros i r j Hi Hj. destruct (Hcov i r j Hi Hj) as [Ha|(oid & o & Ho & Ht & Hc)]; [left; by apply Hacc|].
    destruct (removed_delivered _ _ _ _ Hs Ho) as [Hd|[o1 Ho1]]; [left; by eapply Hacc, Hdel|].
    right. exists oid, o1. destruct (row_origin _ _ _ _ Hs Hwi Ho1) as (o2 & Ho2 & -> & ->).
    cbn in Ho2. rewrite Ho in Ho2. by injection Ho2 as <-.
  - intros oid o1 i k Ho1 Ht Hd Hc. destruct (delivered_by_mark _ _ _ _ Hs Ho1 Hd) as
      [(r & Hr & Hdr & Ht' & Hp')|(f & r & Hf & Hm & <- & Hr & Ht' & Hp')]; rewrite Ht' in Ht; rewrite Hp' in Hc.
    + by eapply Hacc, Hdel.
    + destruct (wi_flight_row _ Hwi f r Hf Hr) as [Htf Hpf]. rewrite Hpf in Hc. rewrite Htf in Ht.
      apply Hacc. exists (ev_Payload (fl_event f)). split; [|done]. apply (Hfl f Hf Ht). by apply Hm.
  - intros l1 p l2 i k j Hl Hc Hj.
    destruct (log_step _ _ Hs) as [[He _]|[(f & Hf & He & _)|(f & Hf & He & _)]]; cbn in He; rewrite He in Hl.
    + by eapply Hord.
    + destruct (note_split _ _ _ _ _ Hl) as [(l3 & _ & Hl')|(-> & [= Ht Hp] & ->)]; [by eapply Hord|].
      destruct (Hfl f Hf (eq_sym Ht)) as [(i' & k' & r & Hc' & Hi & Hk) _]. rewrite <- Hp in Hc'.
      destruct (carries_inj _ _ _ _ _ Hc Hc') as [<- <-].
      destruct (Hcov i r j Hi) as [Ha|(oid & o & Ho & Hto & Hco)]; [lia|done|].
      apply (Hdel oid o i j Ho Hto); [|done]. destruct Hc as [Hpi Hpk]. destruct Hco as [Hoi Hok].
      rewrite Hp in Hpi, Hpk. apply (Hfc f oid o i k); auto. unfold seqOf. rewrite Hok. cbn. lia.
    + destruct (note_split _ _ _ _ _ Hl) as [(l3 & _ & Hl')|(_ & Hx & _)]; [by eapply Hord|done].
Qed.

(** *** A writer's step *)

Definition eventOf_ (ty : IncidentEventType) (i : Incident) (u : option IncidentUpdate) (seq : Z) : P :=
  ip_event {| ie_Type := ty; ie_Incident := i; ie_Update := u; ie_Seq := seq |}.

Lemma event_carries ty i u seq : 1 <= seq -> carries (eventOf_ ty i u seq) (in_ID i) seq.
Proof. intros H. split; [apply ip_event_incident|]. apply (ip_event_seq {| ie_Seq := seq |}). cbn. lia. Qed.

(** The outbox after a lifecycle write, seen by the workers. *)
Lemma lifecycle_worker_inv w db' old i u noted ty ev corr at_ asOf ids :
  worker_inv (outboxOf w) /\ flight_causal (outboxOf w) ->
  lifecycle_write (dw_db w) db' old i u noted ty ev corr at_ -> fresh w ids ->
  ev ∈ ids -> (forall c, corr = Some c -> c ∈ ids) -> 1 <= seqAfter old ->
  (forall f k, f ∈ dw_flights w -> ev_Topic (fl_event f) = TopicIncidentEvent ->
     carries (ev_Payload (fl_event f)) (in_ID i) k -> k <= seqAfter old) ->
  worker_inv (outboxOf (committed w db' asOf ids)) /\ flight_causal (outboxOf (committed w db' asOf ids)).
Proof.
  intros [Hw Hc] Hlw Hf Hev Hcorr Hseq Hfl.
  destruct (lw_fresh _ _ _ _ _ _ _ _ _ _ Hlw) as [Hen Hcn].
  pose proof (lw_outbox _ _ _ _ _ _ _ _ _ _ Hlw) as Ho.
  set (w1 := written (outboxOf w) ev (eventRow ty i noted (seqAfter old) at_) (dw_log w)).
  assert (worker_inv w1) as Hw1 by (apply outbox_enqueue_inv; [done|by apply Hf]).
  assert (flight_causal w1) as Hc1.
  { apply enqueue_causal; [done|]. intros _ f j k Hf' Ht Hj Hi Hk.
    destruct (event_carries ty i noted (seqAfter old) Hseq) as [Hei Hes]. unfold eventOf_ in Hei, Hes.
    rewrite Hei in Hi. injection Hi as <-. rewrite Hes. cbn. eapply Hfl; [exact Hf'|exact Ht|by split]. }
  set (w2 := match corr with None => w1 | Some c => written w1 c (correlationRow i at_) (dw_log w) end).
  assert (worker_inv w2 /\ flight_causal w2) as [Hw2 Hc2].
  { unfold w2. destruct corr as [c|]; [|done]. destruct (Hcn c eq_refl) as [_ Hne]. split.
    - apply outbox_enqueue_inv; [done|]. pose proof (Hf c (Hcorr c eq_refl)). cbn. set_solver.
    - apply enqueue_causal; [done|]. intros Ht. discriminate Ht. }
  assert (ow_rows w2 = db_outbox db' /\ ow_flights w2 = dw_flights w /\ list_to_set ids ∪ ow_uuids w2 = list_to_set ids ∪ dw_uuids w)
    as (Hr & Hfs & Hu).
  { rewrite Ho. unfold w2. destruct corr as [c|]; cbn; (split_and!; [done|done|]).
    - pose proof (Hcorr c eq_refl). apply set_eq. intros x. rewrite !elem_of_union, !elem_of_singleton, elem_of_list_to_set.
      naive_solver.
    - apply set_eq. intros x. rewrite !elem_of_union, !elem_of_singleton, elem_of_list_to_set. naive_solver. }
  pose proof (worker_inv_more_uuids _ (list_to_set ids) Hw2) as Hw3.
  rewrite Hr, Hfs, Hu in Hw3. split.
  - destruct Hw3. by constructor.
  - intros f pid pr j k Hf'. cbn. rewrite <- Hr. cbn in Hf'. rewrite <- Hfs in Hf'. by apply Hc2.
Qed.

(** The rows of the outbox after a lifecycle write. *)
Lemma lifecycle_row db db' old i u noted ty ev corr at_ oid o :
  lifecycle_write db db' old i u noted ty ev corr at_ -> db_outbox db' !! oid = Some o -> ob_topic o = TopicIncidentEvent ->
  db_outbox db !! oid = Some o \/ (oid = ev /\ o = eventRow ty i noted (seqAfter old) at_).
Proof.
  intros Hlw Ho Ht. rewrite (lw_outbox _ _ _ _ _ _ _ _ _ _ Hlw) in Ho. destruct corr as [c|]; cbn in Ho.
  - apply lookup_insert_Some in Ho as [[<- <-]|[_ Ho]]; [done|].
    apply lookup_insert_Some in Ho as [[<- <-]|[_ Ho]]; [by right|by left].
  - apply lookup_insert_Some in Ho as [[<- <-]|[_ Ho]]; [by right|by left].
Qed.

Lemma lifecycle_row_kept db db' old i u noted ty ev corr at_ oid o :
  lifecycle_write db db' old i u noted ty ev corr at_ -> db_outbox db !! oid = Some o -> db_outbox db' !! oid = Some o.
Proof.
  intros Hlw Ho. destruct (lw_fresh _ _ _ _ _ _ _ _ _ _ Hlw) as [Hen Hcn].
  rewrite (lw_outbox _ _ _ _ _ _ _ _ _ _ Hlw). destruct corr as [c|]; cbn; [destruct (Hcn c eq_refl)|];
    by rewrite ?lookup_insert_ne by congruence.
Qed.

Lemma lifecycle_event_row db db' old i u noted ty ev corr at_ :
  lifecycle_write db db' old i u noted ty ev corr at_ -> db_outbox db' !! ev = Some (eventRow ty i noted (seqAfter old) at_).
Proof.
  intros Hlw. destruct (lw_fresh _ _ _ _ _ _ _ _ _ _ Hlw) as [Hen Hcn].
  rewrite (lw_outbox _ _ _ _ _ _ _ _ _ _ Hlw). destruct corr as [c|]; cbn; [destruct (Hcn c eq_refl)|];
    by rewrite ?lookup_insert_ne, ?lookup_insert_eq by congruence.
Qed.

(** Incident rows only gain events. *)
Lemma numbered_later db db' p :
  (forall i r, db_incidents db !! i = Some r ->
     exists r', db_incidents db' !! i = Some r' /\ ir_event_seq r <= ir_event_seq r') ->
  numbered db p -> numbered db' p.
Proof.
  intros H (i & k & r & Hc & Hi & Hk). destruct (H i r Hi) as (r' & Hi' & Hle). exists i, k, r'. split_and!; [done|done|lia|lia].
Qed.

Lemma lifecycle_log_inv w db' old i u noted ty ev corr at_ asOf ids :
  log_inv w -> lifecycle_write (dw_db w) db' old i u noted ty ev corr at_ -> 1 <= seqAfter old ->
  log_inv (committed w db' asOf ids).
Proof.
  intros [Hrows Hfl Hcov Hdel Hord] Hlw Hseq.
  pose proof (lw_incidents _ _ _ _ _ _ _ _ _ _ Hlw) as Hi. pose proof (lw_old _ _ _ _ _ _ _ _ _ _ Hlw) as Hold.
  assert (forall j r, db_incidents (dw_db w) !! j = Some r ->
     exists r', db_incidents db' !! j = Some r' /\ ir_event_seq r <= ir_event_seq r') as Hmono.
  { intros j r Hr. rewrite Hi. destruct (decide (j = in_ID i)) as [->|Hne].
    - rewrite lookup_insert_eq. eexists. split; [done|]. rewrite Hold in Hr. rewrite Hr. cbn. lia.
    - rewrite lookup_insert_ne by done. eauto with lia. }
  assert (numbered db' (ob_payload (eventRow ty i noted (seqAfter old) at_))) as Hnew.
  { exists (in_ID i), (seqAfter old), {| ir_incident := i; ir_event_seq := seqAfter old |}.
    rewrite Hi, lookup_insert_eq. split_and!; [by apply event_carries|done|lia|cbn; lia]. }
  constructor; cbn [committed dw_db dw_flights dw_log].
  - intros oid o Ho Ht. destruct (lifecycle_row _ _ _ _ _ _ _ _ _ _ _ _ Hlw Ho Ht) as [Ho'|[_ ->]]; [|done].
    eapply numbered_later; [exact Hmono|by eapply Hrows].
  - intros f Hf Ht. destruct (Hfl f Hf Ht) as [Hn Ha]. split; [by eapply numbered_later|done].
  - intros j r k Hr Hk. rewrite Hi in Hr. apply lookup_insert_Some in Hr as [[<- <-]|[Hne Hr]].
    + cbn in Hk. destruct (decide (k = seqAfter old)) as [->|Hkn].
      * right. exists ev. eexists. split_and!; [by eapply lifecycle_event_row|done|by apply event_carries].
      * destruct old as [r|]; cbn in Hk, Hkn; [|lia].
        destruct (Hcov _ r k Hold) as [Ha|(oid & o & Ho & Ht & Hc)]; [lia|by left|].
        right. exists oid, o. split_and!; [by eapply lifecycle_row_kept|done|done].
    + destruct (Hcov j r k Hr Hk) as [Ha|(oid & o & Ho & Ht & Hc)]; [by left|].
      right. exists oid, o. split_and!; [by eapply lifecycle_row_kept|done|done].
  - intros oid o j k Ho Ht Hd Hc. destruct (lifecycle_row _ _ _ _ _ _ _ _ _ _ _ _ Hlw Ho Ht) as [Ho'|[_ ->]];
      [by eapply Hdel|]. discriminate Hd.
  - exact Hord.
Qed.

Lemma quiet_told w db' asOf ids :
  db_outbox db' = db_outbox (dw_db w) ->
  (forall j r, db_incidents (dw_db w) !! j = Some r ->
     exists r', db_incidents db' !! j = Some r' /\ ir_event_seq r' = ir_event_seq r) ->
  (forall j r', db_incidents db' !! j = Some r' ->
     exists r, db_incidents (dw_db w) !! j = Some r /\ ir_event_seq r' = ir_event_seq r) ->
  (worker_inv (outboxOf w) /\ flight_causal (outboxOf w)) /\ log_inv w ->
  (worker_inv (outboxOf (committed w db' asOf ids)) /\ flight_causal (outboxOf (committed w db' asOf ids))) /\
  log_inv (committed w db' asOf ids).
Proof.
  intros Ho Hto Hfrom [[Hw Hc] [Hrows Hfl Hcov Hdel Hord]].
  assert (forall p, numbered (dw_db w) p -> numbered db' p) as Hnum.
  { intros p. apply numbered_later. intros j r Hr. destruct (Hto j r Hr) as (r' & Hr' & He). exists r'. split; [done|lia]. }
  split; [split|].
  - pose proof (worker_inv_more_uuids _ (list_to_set ids) Hw) as Hw'. unfold outboxOf in *. cbn in *. by rewrite Ho.
  - unfold flight_causal, outboxOf in *. cbn in *. by rewrite Ho.
  - constructor; cbn; rewrite ?Ho; [..|exact Hord].
    + intros oid o H Ht. by eapply Hnum, Hrows.
    + intros f Hf Ht. destruct (Hfl f Hf Ht). split; [by apply Hnum|done].
    + intros j r' k Hr' Hk. destruct (Hfrom j r' Hr') as (r & Hr & He). apply (Hcov j r k Hr). lia.
    + exact Hdel.
Qed.

(** ** Every reachable state *)

Lemma lifecycle_told w db' old i u noted ty ev corr at_ asOf ids :
  told_inv w -> lifecycle_write (dw_db w) db' old i u noted ty ev corr at_ -> fresh w ids -> ev ∈ ids ->
  (forall c, corr = Some c -> c ∈ ids) -> 1 <= seqAfter old ->
  (worker_inv (outboxOf (committed w db' asOf ids)) /\ flight_causal (outboxOf (committed w db' asOf ids))) /\
  log_inv (committed w db' asOf ids).
Proof.
  intros (_ & Hwork & Hlog) Hlw Hf Hev Hcorr Hseq. split; [|by eapply lifecycle_log_inv].
  eapply lifecycle_worker_inv; try done. intros f k Hfl Ht Hc.
  destruct (li_flights _ Hlog f Hfl Ht) as [(i' & k' & r & Hc' & Hi & Hk) _].
  destruct (carries_inj _ _ _ _ _ Hc Hc') as [<- <-].
  rewrite (lw_old _ _ _ _ _ _ _ _ _ _ Hlw) in Hi. subst old. cbn. lia.
Qed.

Lemma told_step w w' : delivery_step w w' -> told_inv w -> told_inv w'.
Proof.
  intros Hs Hinv. pose proof Hinv as (Hst & Hwork & Hlog).
  destruct (step_writes w w' Hs (si_key _ _ Hst)) as [(db' & asOf & ids & -> & Hw & Hc & Hf)|(o' & -> & Hwk)].
  - split; [by eapply write_store_inv|]. destruct Hw as
      [i u ev corr txNow Hlw Ht Hu Hv Hst' Hev Hcorr|r i u ty ev Hlw Hu Hsc _ Hev|id r i Ho Hu Hr Hid Han Hs' Hres Hi|Ho Hu Hi].
    + eapply lifecycle_told; try done.
    + eapply lifecycle_told; try done. cbn. pose proof (lw_old _ _ _ _ _ _ _ _ _ _ Hlw) as Hold.
      pose proof (tl_count _ _ _ (si_timeline _ _ Hst _ _ Hold)). lia.
    + apply quiet_told; [done| | |by split].
      * intros j x Hx. rewrite Hi. destruct (decide (j = id)) as [->|]; [|rewrite lookup_insert_ne by done; eauto].
        rewrite lookup_insert_eq. eexists. split; [done|]. cbn. congruence.
      * intros j x. rewrite Hi. intros [[<- <-]|[_ Hx]]%lookup_insert_Some; eauto.
    + apply quiet_told; [done|rewrite Hi; eauto|rewrite Hi; eauto|by split].
  - split; [|split].
    + destruct Hst. by constructor.
    + apply (worker_step_inv _ _ Hwk) in Hwork as [H1 H2]. split; [by destruct H1; constructor|exact H2].
    + by apply worker_log_inv.
Qed.

Lemma told_initial w : delivery_initial w -> told_inv w.
Proof.
  intros (Hi & Hu & Ho & Hf & Hl). split; [|split; [split|]].
  - constructor; unfold keyed, updatesOf; rewrite ?Hi, ?Hu; try done.
  - constructor; cbn; rewrite ?Hf, ?Ho; try done; try (by intros ? ?%elem_of_nil). constructor.
  - intros f pid pr i k Hin. cbn in Hin. rewrite Hf in Hin. by apply elem_of_nil in Hin.
  - constructor; rewrite ?Hi, ?Ho, ?Hf, ?Hl; try done; [by intros f ?%elem_of_nil|].
    intros l1 p l2 i k j He. by destruct l1.
Qed.

Lemma told_reachable w : sys_reachable delivery_system w -> told_inv w.
Proof. apply invariant_rule; [exact told_initial|exact told_step]. Qed.

(** C3: nobody is told of an event of an incident before every earlier event of that incident has
    been accepted: whatever workers crash, overlap, release or replay, when a delivery call for
    the k-th event begins, an accepted call for each of the events 1 .. k-1 precedes it. *)
Theorem incident_story_is_told_in_order w l1 p l2 i k j :
  sys_reachable delivery_system w ->
  dw_log w = l1 ++ NoteBegun TopicIncidentEvent p :: l2 -> pl_incident p = Some i -> pl_seq p = Some k ->
  1 <= j < k ->
  exists q, NoteAccepted TopicIncidentEvent q ∈ l1 /\ pl_incident q = Some i /\ pl_seq q = Some j.
Proof.
  intros (_ & _ & Hlog)%told_reachable Hl Hi Hk Hj.
  exact (li_order _ Hlog l1 p l2 i k j Hl (conj Hi Hk) Hj).
Qed.


(** C10: at most one incident is open for one monitor's or one service's automatic incidents, and for
    one external key of a project. *)
Theorem one_open_incident_per_anchor w id1 id2 r1 r2 :
  sys_reachable delivery_system w ->
  db_incidents (dw_db w) !! id1 = Some r1 -> db_incidents (dw_db w) !! id2 = Some r2 ->
  unresolved r1 = true -> unresolved r2 = true -> clash (ir_incident r1) (ir_incident r2) -> id1 = id2.
Proof. intros (Hst & _)%told_reachable. apply (si_open _ _ Hst). Qed.

(** A step keeps a resolved row. *)
Lemma resolved_step w w' id r :
  delivery_step w w' -> told_inv w -> db_incidents (dw_db w) !! id = Some r ->
  in_Status (ir_incident r) = IncidentResolved -> 
  exists r', db_incidents (dw_db w') !! id = Some r' /\ in_Status (ir_incident r') = IncidentResolved /\
             in_ResolvedAt (ir_incident r') = in_ResolvedAt (ir_incident r) /\ ir_event_seq r' = ir_event_seq r.
Proof.
  intros Hs (Hst & _) Hr Hres.
  destruct (step_writes w w' Hs (si_key _ _ Hst)) as [(db' & asOf & ids & -> & Hw & _)|(o' & -> & _)]; [|by exists r].
  cbn. destruct Hw as
    [i u ev corr txNow Hlw _ _ _ _ _ _|x i u ty ev Hlw _ Hsc _ _|k x i _ _ Hx Hid _ Hs' Hrs' Hi|_ _ Hi].
  - rewrite (lw_incidents _ _ _ _ _ _ _ _ _ _ Hlw). pose proof (lw_old _ _ _ _ _ _ _ _ _ _ Hlw).
    exists r. by rewrite lookup_insert_ne by congruence.
  - rewrite (lw_incidents _ _ _ _ _ _ _ _ _ _ Hlw). pose proof (lw_old _ _ _ _ _ _ _ _ _ _ Hlw) as Hold.
    exists r. rewrite lookup_insert_ne; [done|]. intros <-. rewrite Hr in Hold. injection Hold as <-.
    by destruct (sc_open _ _ Hsc).
  - rewrite Hi. destruct (decide (id = k)) as [->|]; [|exists r; by rewrite lookup_insert_ne by done].
    rewrite lookup_insert_eq. rewrite Hr in Hx. injection Hx as <-. eexists. split; [done|]. cbn. by rewrite Hs'.
  - exists r. by rewrite Hi.
Qed.

(** a resolution is final: whatever happens afterwards, the incident stays resolved, keeps its
    resolution time, and announces nothing more. *)
Theorem resolved_incident_is_final w w' id r :
  sys_reachable delivery_system w -> rtc delivery_step w w' ->
  db_incidents (dw_db w) !! id = Some r -> in_Status (ir_incident r) = IncidentResolved ->
  exists r', db_incidents (dw_db w') !! id = Some r' /\ in_Status (ir_incident r') = IncidentResolved /\
             in_ResolvedAt (ir_incident r') = in_ResolvedAt (ir_incident r) /\ ir_event_seq r' = ir_event_seq r.
Proof.
  intros Hinv%told_reachable Hs. revert Hinv r. induction Hs as [w|w w1 w' Hs _ IH]; intros Hinv r Hr Hres; [by exists r|].
  destruct (resolved_step w w1 id r Hs Hinv Hr Hres) as (r1 & Hr1 & Hres1 & <- & <-).
  apply (IH (told_step _ _ Hs Hinv) r1 Hr1 Hres1).
Qed.

(** ** Notes without a lock *)

Lemma sorted_last (l : list IncidentUpdate) u :
  StronglySorted created_le l -> u ∈ l -> (forall v, v ∈ l -> v = u \/ iu_CreatedAt v < iu_CreatedAt u) ->
  exists l', l = l' ++ [u].
Proof.
  intros Hs Hu Hlt. destruct (rev_case l) as [->|(l' & x & ->)]; [by apply elem_of_nil in Hu|].
  destruct (Hlt x) as [->|Hx]; [set_solver|by exists l'|].
  apply elem_of_app in Hu as [Hu| ->%list_elem_of_singleton]; [|lia].
  pose proof (StronglySorted_app_1_elem_of created_le l' [x] u x Hs Hu ltac:(set_solver)) as Hle.
  unfold created_le in Hle. lia.
Qed.

(** a system note is written without the incident's row lock: when its statement starts while an
    accepted status change is not yet committed, the listed timeline ends at the status of
    before the change, although the incident holds the later one. *)
Theorem unlocked_note_reverts_timeline db id marker body nID t u upd actor upID evID asOf db' created r :
  keyed db -> iu_IncidentID upd = id -> db_incidents db !! id = Some r ->
  (forall v, v ∈ updatesOf id db -> iu_CreatedAt v <= asOf) ->
  noteFor id marker body nID t db = Some u ->
  addIncidentUpdate upd actor upID evID asOf db = Ok (db', created) -> asOf < t ->
  iu_Status created <> in_Status (ir_incident r) ->
  exists shown r', ListIncidentUpdates id (addUpdateRow db' u) = shown ++ [u] /\
    db_incidents (addUpdateRow db' u) !! id = Some r' /\
    rank (iu_Status u) < rank (in_Status (ir_incident r')).
Proof.
  intros Hkey Hid Hr Hb Hn Hup Ht Hne.
  unfold noteFor in Hn. rewrite Hr in Hn. destruct (existsb _ _); [done|]. injection Hn as Hn.
  apply addIncidentUpdate_writes in Hup as (r0 & next & Hr0 & _ & _ & (Hnr & Hrk & Hv)%canFollow_spec & Hcr & Hlw); [|done].
  rewrite Hid, Hr in Hr0. injection Hr0 as <-. subst created. cbn in Hne.
  assert (in_ID (withIncidentStatus (ir_incident r) next asOf) = id) as Hiid by (by apply (Hkey id r)).
  pose proof (lw_updates _ _ _ _ _ _ _ _ _ _ Hlw) as Hus. pose proof (lw_incidents _ _ _ _ _ _ _ _ _ _ Hlw) as Hi.
  set (us := updatesOf id (addUpdateRow db' u)).
  assert (forall v, v ∈ us -> v = u \/ iu_CreatedAt v < iu_CreatedAt u) as Hlt.
  { intros v Hin. unfold us in Hin. rewrite (updatesOf_snoc db' _ u) in Hin by done.
    rewrite (updatesOf_snoc db _ _ _ Hus) in Hin. rewrite <- Hn in Hin |- *. cbn in Hin |- *.
    rewrite Hid, !bool_decide_true in Hin by done. rewrite !elem_of_app, !list_elem_of_singleton in Hin.
    destruct Hin as [[Hin| ->]| ->]; [right; specialize (Hb v Hin); lia|right; cbn; lia|by left]. }
  assert (u ∈ us) as Hin.
  { unfold us. rewrite (updatesOf_snoc db' _ u) by done. rewrite <- Hn. cbn. rewrite bool_decide_true by done. set_solver. }
  assert (ListIncidentUpdates id (addUpdateRow db' u) ≡ₚ us) as Hp by apply merge_sort_Permutation.
  destruct (sorted_last (ListIncidentUpdates id (addUpdateRow db' u)) u) as [shown Hs].
  - apply StronglySorted_merge_sort; [intros x y z|intros x y]; unfold created_le; lia.
  - by rewrite Hp.
  - intros v Hv'. rewrite Hp in Hv'. by apply Hlt.
  - exists shown, {| ir_incident := withIncidentStatus (ir_incident r) next asOf; ir_event_seq := ir_event_seq r + 1 |}.
    split; [done|]. split; [cbn; by rewrite Hi, Hiid, lookup_insert_eq|].
    rewrite <- Hn. cbn. destruct (in_Status (ir_incident r)), next; cbn in *; try lia; done.
Qed.

(** The workers' steps, inside the system. *)
Lemma workedOn_steps w o : rtc worker_step (outboxOf w) o -> rtc delivery_step w (workedOn w o).
Proof.
  intros Hs. remember (outboxOf w) as o0 eqn:Ho. revert w Ho.
  induction Hs as [o|o o1 o2 Hs _ IH]; intros w ->.
  - destruct w as [[] ? ? ? ?]. apply rtc_refl.
  - eapply rtc_l; [by apply ds_worker|].
    assert (workedOn w o2 = workedOn (workedOn w o1) o2) as -> by by destruct w as [[] ? ? ? ?].
    apply IH. by destruct o1.
Qed.
End delivery.

(** ** A run *)

Module Run.

Inductive DemoPayload := DemoEvent (e : IncidentEvent) | DemoCorrelation (incident : string).

#[export] Instance demoPayload : Payload DemoPayload := {
  pl_incident p := match p with DemoEvent e => Some (in_ID (ie_Incident e)) | DemoCorrelation _ => None end;
  pl_seq p := match p with DemoEvent e => if ie_Seq e =? 0 then None else Some (ie_Seq e) | DemoCorrelation _ => None end;
}.

Lemma demo_seq e : ie_Seq e <> 0 -> pl_seq (DemoEvent e) = Some (ie_Seq e).
Proof. intros He. cbn. by destruct (Z.eqb_spec (ie_Seq e) 0). Qed.

#[export] Instance demoIncidentPayload : IncidentPayload DemoPayload := {
  ip_event := DemoEvent; ip_correlation := DemoCorrelation;
  ip_event_incident := fun _ => eq_refl; ip_event_seq := demo_seq;
}.

Definition db0 : IncidentDB DemoPayload :=
  {| db_incidents := ∅; db_updates := []; db_postmortems := ∅; db_audit := []; db_outbox := ∅; db_members := ∅;
     db_ladders := ∅; db_orgs := {["p" := "org"]}; db_service_policy := ∅; db_revisions := ∅ |}.

Definition w0 : DeliveryWorld DemoPayload :=
  {| dw_db := db0; dw_clock := 0; dw_flights := []; dw_log := []; dw_uuids := ∅ |}.

Definition ids : NewIDs := {| id_incident := "i"; id_update := "u1"; id_event := "e1"; id_correlation := "c1" |}.

Definition outage : Incident :=
  {| in_ID := ""; in_ProjectID := "p"; in_MonitorID := "m"; in_ServiceID := ""; in_ExternalKey := "";
     in_Title := "down"; in_Status := IncidentInvestigating; in_Impact := ImpactMajor; in_Source := SourceAuto;
     in_StartedAt := 0; in_ResolvedAt := None; in_AcknowledgedAt := None; in_AcknowledgedBy := "";
     in_AcknowledgedByName := ""; in_EscalationStep := 0; in_LastEscalatedAt := None; in_CreatedAt := 0;
     in_UpdatedAt := 0 |}.

Definition resolution : IncidentUpdate :=
  {| iu_ID := ""; iu_IncidentID := "i"; iu_Status := IncidentResolved; iu_Body := "fixed"; iu_Author := "ann";
     iu_CreatedAt := 0 |}.

Definition ann : AuditActor := {| aa_ActorUserID := "ann"; aa_ViaToken := false; aa_Label := "ann" |}.

Definition created : IncidentDB DemoPayload * Incident :=
  okOr (CreateIncidentBySystem outage "opened" "system" ids 100 100 db0) (db0, outage).
Definition w1 := committed w0 created.1 100 ["e1"; "c1"].
Definition updated : IncidentDB DemoPayload * IncidentUpdate :=
  okOr (AddIncidentUpdateByPrincipal resolution ann "u2" "e2" 200 (dw_db w1)) (dw_db w1, resolution).
Definition w2 := committed w1 updated.1 200 ["e2"].

(** Both events are due; the claim hands out the opening only. *)
Definition claim1 := ClaimDueOutbox 300 ["e1"; "e2"] (fun id => "t1" +:+ id) batchLimit (db_outbox (dw_db w2)).
Definition f1 : Flight DemoPayload :=
  inHand (default (eventOf 0 (fun _ => "") ("", newRow "" (DemoCorrelation "") 0)) (head claim1.1)).
Definition o3 : OutboxWorld DemoPayload :=
  {| ow_rows := claim1.2; ow_flights := map inHand claim1.1; ow_log := []; ow_uuids := list_to_set (map ev_ClaimToken claim1.1) ∪ dw_uuids w2 |}.
Definition note1 := NoteBegun (ev_Topic (fl_event f1)) (ev_Payload (fl_event f1)).
Definition note2 := NoteAccepted (ev_Topic (fl_event f1)) (ev_Payload (fl_event f1)).
Definition o5 : OutboxWorld DemoPayload :=
  {| ow_rows := claim1.2; ow_flights := [inPhase Accepted f1]; ow_log := [note1; note2]; ow_uuids := ow_uuids o3 |}.
Definition o6 : OutboxWorld DemoPayload :=
  settled o5 (MarkOutboxDelivered 301 (ev_ID (fl_event f1)) (ev_ClaimToken (fl_event f1)) claim1.2).2 [] [].
Definition claim2 := ClaimDueOutbox 302 ["e1"; "e2"] (fun id => "t2" +:+ id) batchLimit (ow_rows o6).
Definition f2 : Flight DemoPayload :=
  inHand (default (fl_event f1) (head claim2.1)).
Definition o7 : OutboxWorld DemoPayload :=
  {| ow_rows := claim2.2; ow_flights := map inHand claim2.1; ow_log := [note1; note2];
     ow_uuids := list_to_set (map ev_ClaimToken claim2.1) ∪ ow_uuids o6 |}.
Definition note3 := NoteBegun (ev_Topic (fl_event f2)) (ev_Payload (fl_event f2)).
Definition o8 : OutboxWorld DemoPayload :=
  {| ow_rows := claim2.2; ow_flights := [inPhase Calling f2]; ow_log := [note1; note2; note3]; ow_uuids := ow_uuids o7 |}.
Definition w8 := workedOn w2 o8.

Lemma created_step : delivery_step w0 w1.
Proof.
  eapply (ds_create w0 outage "opened" "system" None ids 100 100 created.1 created.2); [|cbn; lia..|].
  - transitivity (Ok (E := IncidentError) created); [apply okOr_ok; vm_compute; reflexivity|by destruct created].
  - intros x _. apply not_elem_of_empty.
Qed.

Lemma updated_step : delivery_step w1 w2.
Proof.
  eapply (ds_update w1 resolution (Some ann) "u2" "e2" 200 updated.1 updated.2); [|cbn; lia|].
  - transitivity (Ok (E := IncidentError) updated); [apply okOr_ok; vm_compute; reflexivity|by destruct updated].
  - intros x ->%list_elem_of_singleton. by_decision.
Qed.

Lemma fresh_tokens {P} (events : list (OutboxEvent P)) (used : gset string) :
  forallb (fun e => negb (bool_decide (ev_ClaimToken e ∈ used))) events = true ->
  forall e, e ∈ events -> ev_ClaimToken e ∉ used.
Proof.
  rewrite forallb_forall. intros H e He Hin. specialize (H e (proj1 (list_elem_of_In _ _) He)).
  by rewrite bool_decide_true in H.
Qed.

Lemma scan_nodup : NoDup ["e1"; "e2"].
Proof. repeat constructor; set_solver. Qed.

Lemma claim1_step : worker_step (outboxOf w2) o3.
Proof.
  apply (ws_claim (outboxOf w2) 300 ["e1"; "e2"] (fun id => "t1" +:+ id) batchLimit claim1.1 claim1.2);
    [apply surjective_pairing|apply scan_nodup|by_decision|apply fresh_tokens; vm_compute; reflexivity].
Qed.

Lemma mark_step : worker_step o5 o6.
Proof.
  apply (ws_mark o5 [] (inPhase Accepted f1) [] 301
    (MarkOutboxDelivered 301 (ev_ID (fl_event f1)) (ev_ClaimToken (fl_event f1)) claim1.2).1);
    [reflexivity|intros _; reflexivity|apply surjective_pairing].
Qed.

Lemma claim2_step : worker_step o6 o7.
Proof.
  apply (ws_claim o6 302 ["e1"; "e2"] (fun id => "t2" +:+ id) batchLimit claim2.1 claim2.2);
    [apply surjective_pairing|apply scan_nodup|by_decision|apply fresh_tokens; vm_compute; reflexivity].
Qed.

Lemma delivered_steps : rtc worker_step (outboxOf w2) o8.
Proof.
  eapply rtc_l; [apply claim1_step|].
  eapply rtc_l; [apply (ws_call o3 [] f1 []); [vm_compute; reflexivity|reflexivity]|].
  eapply rtc_l; [apply (ws_accepted _ [] (inPhase Calling f1) []); reflexivity|].
  eapply rtc_l; [apply mark_step|]. eapply rtc_l; [apply claim2_step|].
  eapply rtc_l; [apply (ws_call o7 [] f2 []); [vm_compute; reflexivity|reflexivity]|].
  apply rtc_refl.
Qed.

Lemma w8_reachable : sys_reachable delivery_system w8.
Proof.
  exists w0. split; [done|]. eapply rtc_l; [apply created_step|]. eapply rtc_l; [apply updated_step|].
  apply workedOn_steps, delivered_steps.
Qed.
End Run.
Import Run.

Lemma incident_story_is_told_in_order_witness :
  dw_log Run.w8 = [Run.note1; Run.note2; Run.note3] /\
  exists q : Run.DemoPayload, NoteAccepted TopicIncidentEvent q ∈ [Run.note1; Run.note2] /\ pl_incident q = Some "i" /\ pl_seq q = Some 1.
Proof.
  split; [reflexivity|].
  refine (incident_story_is_told_in_order Run.w8 [Run.note1; Run.note2] (ev_Payload (fl_event Run.f2)) [] "i" 2 1
    Run.w8_reachable _ _ _ _); [vm_compute; reflexivity|vm_compute; reflexivity|vm_compute; reflexivity|lia].
Defined.

Module Witness.


Lemma w2_reachable : sys_reachable delivery_system w2.
Proof. exists w0. split; [done|]. eapply rtc_l; [apply created_step|]. apply rtc_once, updated_step. Qed.

Lemma w1_reachable : sys_reachable delivery_system w1.
Proof. exists w0. split; [done|]. apply rtc_once, created_step. Qed.

Definition rowIn (w : DeliveryWorld DemoPayload) : IncidentRow :=
  default {| ir_incident := outage; ir_event_seq := 0 |} (db_incidents (dw_db w) !! "i").

Lemma row1 : db_incidents (dw_db w1) !! "i" = Some (rowIn w1).
Proof. apply default_lookup. by_decision. Qed.
Lemma row2 : db_incidents (dw_db w2) !! "i" = Some (rowIn w2).
Proof. apply default_lookup. by_decision. Qed.
End Witness.


Lemma one_open_incident_per_anchor_witness :
  is_ok (CreateIncidentBySystem Run.outage "again" "system" Run.ids 150 150 (dw_db Run.w1)) = false /\
  (forall id r, db_incidents (dw_db Run.w1) !! id = Some r -> unresolved r = true ->
     clash (ir_incident (Witness.rowIn Run.w1)) (ir_incident r) -> "i" = id).
Proof.
  split; [vm_compute; reflexivity|]. intros id r Hr Hu Hc.
  refine (one_open_incident_per_anchor Run.w1 "i" id (Witness.rowIn Run.w1) r Witness.w1_reachable Witness.row1 Hr _ Hu Hc).
  vm_compute. reflexivity.
Defined.

Lemma resolved_incident_is_final_witness :
  exists r', db_incidents (dw_db Run.w8) !! "i" = Some r' /\ in_Status (ir_incident r') = IncidentResolved /\
    in_ResolvedAt (ir_incident r') = in_ResolvedAt (ir_incident (Witness.rowIn Run.w2)) /\
    ir_event_seq r' = ir_event_seq (Witness.rowIn Run.w2).
Proof.
  refine (resolved_incident_is_final Run.w2 Run.w8 "i" (Witness.rowIn Run.w2) Witness.w2_reachable
    (workedOn_steps _ _ Run.delivered_steps) Witness.row2 _).
  vm_compute. reflexivity.
Defined.

Lemma unlocked_note_reverts_timeline_witness :
  exists u shown r',
    noteFor "i" "Context:" "Context: none" "n1" 250 (dw_db Run.w1) = Some u /\
    ListIncidentUpdates "i" (addUpdateRow (dw_db Run.w2) u) = shown ++ [u] /\
    db_incidents (addUpdateRow (dw_db Run.w2) u) !! "i" = Some r' /\
    rank (iu_Status u) < rank (in_Status (ir_incident r')).
Proof.
  set (u := {| iu_ID := "n1"; iu_IncidentID := "i"; iu_Status := IncidentInvestigating; iu_Body := "Context: none";
               iu_Author := "system"; iu_CreatedAt := 250 |}).
  enough (exists shown r', ListIncidentUpdates "i" (addUpdateRow (dw_db Run.w2) u) = shown ++ [u] /\
    db_incidents (addUpdateRow (dw_db Run.w2) u) !! "i" = Some r' /\ rank (iu_Status u) < rank (in_Status (ir_incident r')))
    as (shown & r' & H) by (exists u, shown, r'; split; [vm_compute; reflexivity|exact H]).
  refine (unlocked_note_reverts_timeline (dw_db Run.w1) "i" "Context:" "Context: none" "n1" 250 u Run.resolution
    (Some Run.ann) "u2" "e2" 200 (dw_db Run.w2) Run.updated.2 (Witness.rowIn Run.w1) _ eq_refl Witness.row1 _ _ _ _ _).
  - intros id r Hr. destruct (decide (id = "i")) as [->|Hne]; [rewrite Witness.row1 in Hr; injection Hr as <-; vm_compute; reflexivity|].
    exfalso. revert Hr. change (db_incidents (dw_db Run.w1)) with (<["i" := Witness.rowIn Run.w1]> (∅ : gmap string IncidentRow)).
    rewrite lookup_insert_ne, lookup_empty by done. discriminate.
  - intros v Hv. assert (forallb (fun v => iu_CreatedAt v <=? 200) (updatesOf "i" (dw_db Run.w1)) = true) as Hb by (vm_compute; reflexivity).
    rewrite forallb_forall in Hb. by apply Z.leb_le, Hb, list_elem_of_In.
  - vm_compute. reflexivity.
  - transitivity (Ok (E := IncidentError) Run.updated); [apply okOr_ok; vm_compute; reflexivity|exact (f_equal Ok (surjective_pairing Run.updated))].
  - lia.
  - vm_compute. discriminate.
Defined.
