(* ===== verification/ServiceAlert.v ===== *)
(** * Service alerting
    ([internal/domain/servicealert.go], [internal/store/servicealerteval.go],
    [servicealertlifecycle.go], [servicealertpolicy.go], [alertdelegation.go])

    The paging policy and the edge rule, then the live signal of one service as a state
    machine over its stored rows: the alert state row, the episodes, the auto-incidents and
    the outbox. Its transitions are the evaluation of one service, the policy write with its
    lifecycle close, the delivery credit and condemnation, and a human resolving the
    incident. *)

From S2P Require Import Prelude GoFloat GoString OnCall.

(** ** The paging policy *)
Inductive ServiceAlertState :=
| AlertHealthy | AlertDegraded | AlertDown | AlertUnknown | AlertExcluded | AlertStateOther (s : string).

#[global] Instance ServiceAlertState_eq_dec : EqDecision ServiceAlertState.
Proof. solve_decision. Defined.

Definition stateText (s : ServiceAlertState) : string :=
  match s with
  | AlertHealthy => "healthy" | AlertDegraded => "degraded" | AlertDown => "down"
  | AlertUnknown => "unknown" | AlertExcluded => "excluded" | AlertStateOther s => s
  end.

Record ServiceAlertPolicy := {
  OwnsPaging : bool;
  PageOn : list ServiceAlertState;
  PageOnUnknown : bool;
  ConfirmEvaluations : Z;
  RenotifySeconds : Z;
}.

Definition DefaultServiceAlertPolicy : ServiceAlertPolicy :=
  {| OwnsPaging := false; PageOn := [AlertDown]; PageOnUnknown := false; ConfirmEvaluations := 2;
     RenotifySeconds := 0 |}.

Definition state_le (a b : ServiceAlertState) : Prop := String.le (stateText a) (stateText b).

#[global] Instance state_le_dec a b : Decision (state_le a b).
Proof. unfold state_le. apply _. Defined.

(** First occurrences, then sorted by text. *)
Definition dedupStates (ss : list ServiceAlertState) : list ServiceAlertState :=
  foldl (fun out s => if bool_decide (s ∈ out) then out else out ++ [s]) [] ss.

Definition Canonical (p : ServiceAlertPolicy) : ServiceAlertPolicy :=
  {| OwnsPaging := OwnsPaging p; PageOn := merge_sort state_le (dedupStates (PageOn p));
     PageOnUnknown := PageOnUnknown p; ConfirmEvaluations := ConfirmEvaluations p;
     RenotifySeconds := RenotifySeconds p |}.

Inductive AlertPolicyError :=
| RenotifyOutOfRange (got : Z)
| ConfirmOutOfRange (got : Z)
| UnknownHasItsOwnSwitch
| CannotPageOn (s : ServiceAlertState).

Fixpoint validatePageOn (ss : list ServiceAlertState) : result AlertPolicyError unit :=
  match ss with
  | [] => Ok tt
  | AlertDown :: rest | AlertDegraded :: rest => validatePageOn rest
  | AlertUnknown :: _ => Err UnknownHasItsOwnSwitch
  | s :: _ => Err (CannotPageOn s)
  end.

Definition ServiceAlertPolicy_Validate (p : ServiceAlertPolicy) : result AlertPolicyError unit :=
  let r := RenotifySeconds p in
  let c := ConfirmEvaluations p in
  let! _ := refuse_if (negb (r =? 0) && ((r <? 60) || (86400 <? r))) (RenotifyOutOfRange r) in
  let! _ := refuse_if ((c <? 1) || (10 <? c)) (ConfirmOutOfRange c) in
  validatePageOn (PageOn p).

Definition Pages (p : ServiceAlertPolicy) (s : ServiceAlertState) : bool :=
  match s with
  | AlertExcluded | AlertHealthy => false
  | AlertUnknown => PageOnUnknown p
  | _ => existsb (fun want => bool_decide (want = s)) (PageOn p)
  end.

(** ** The edge rule *)
Inductive ServiceAlertCloseReason :=
| CloseRecovered | CloseVisibilityLost | CloseEnteredMaintenance | CloseOwnershipDisabled
| ClosePolicyChanged | CloseBurnDisabled | CloseRuleRemoved | CloseServiceDeleted | CloseUndelivered.

#[global] Instance CloseReason_eq_dec : EqDecision ServiceAlertCloseReason.
Proof. solve_decision. Defined.

(** Why nothing was sent. *)
Inductive SilenceReason :=
| NotPaging
| NotConfirmed (s : ServiceAlertState) (streak needed : Z)
| AlreadyAnnounced (s : ServiceAlertState)
| DoesNotPage (s : ServiceAlertState).

(** [CloseReason], [NextEmitted] and [Reason] are [None] for the empty string. *)
Record ServiceAlertDecision := {
  dc_Notify : bool;
  dc_Close : bool;
  dc_CloseReason : option ServiceAlertCloseReason;
  dc_NextEmitted : option ServiceAlertState;
  dc_NextFiring : bool;
  dc_Reason : option SilenceReason;
}.

Definition silent (firing : bool) (r : SilenceReason) : ServiceAlertDecision :=
  {| dc_Notify := false; dc_Close := false; dc_CloseReason := None; dc_NextEmitted := None;
     dc_NextFiring := firing; dc_Reason := Some r |}.

Definition closeReasonFor (current : ServiceAlertState) : ServiceAlertCloseReason :=
  match current with
  | AlertHealthy => CloseRecovered
  | AlertExcluded => CloseEnteredMaintenance
  | AlertUnknown => CloseVisibilityLost
  | _ => ClosePolicyChanged
  end.

Definition DecideServiceAlert (p : ServiceAlertPolicy) (current : ServiceAlertState) (streak : Z)
    (firing : bool) (emitted : option ServiceAlertState) : ServiceAlertDecision :=
  if negb (OwnsPaging p) then silent false NotPaging
  else if streak <? ConfirmEvaluations p
  then silent firing (NotConfirmed current streak (ConfirmEvaluations p))
  else
    let pageable := Pages p current in
    if pageable && firing && bool_decide (emitted = Some current)
    then silent true (AlreadyAnnounced current)
    else if pageable
    then {| dc_Notify := true; dc_Close := false; dc_CloseReason := None; dc_NextEmitted := Some current;
            dc_NextFiring := true; dc_Reason := None |}
    else if negb firing then silent false (DoesNotPage current)
    else {| dc_Notify := true; dc_Close := true; dc_CloseReason := Some (closeReasonFor current);
            dc_NextEmitted := Some current; dc_NextFiring := false; dc_Reason := None |}.

(** ** The rows of one service *)

(** [service_alert_state]. *)
Record AlertRow := {
  ar_observed : ServiceAlertState;
  ar_candidate : ServiceAlertState;
  ar_streak : Z;
  ar_firing : bool;
  ar_emitted : option ServiceAlertState;
  ar_emittedSeq : Z;
  ar_emittedAt : option Time;
  ar_deliveredSeq : Z;
  ar_undeliveredSeq : Z;
  ar_generation : Z;
  ar_revision : option string;
  ar_evaluatedAt : Time;
  ar_leaseUntil : Time;
  ar_lastError : option string;
}.

(** [service_alert_episodes], the rows of the health signal. *)
Record Episode := {
  epi_ID : string;
  epi_state : ServiceAlertState;
  epi_startedAt : Time;
  epi_recipients : list string;
  epi_emittedSeq : Z;
  epi_closedAt : option Time;
  epi_closeReason : option ServiceAlertCloseReason;
}.

(** An auto-incident of the service: its identifier and whether it is unresolved. *)
Record AutoIncident := { inc_ID : string; inc_open : bool }.

(** The outbox payload, the fields the health signal fills. *)
Record ServiceAlert := {
  sa_Firing : bool;
  sa_CloseReason : option ServiceAlertCloseReason;
  sa_EpisodeID : string;
  sa_Seq : Z;
  sa_Recipients : list string;
  sa_State : ServiceAlertState;
  sa_ConfirmedOver : Z;
}.

(** One service: its declaration with the generation the database keeps for it, its alert
    rows, and the [service_alert] events enqueued for its health signal, oldest first. *)
Record AlertWorld := {
  w_policy : ServiceAlertPolicy;
  w_generation : Z;
  w_row : option AlertRow;
  w_episodes : list Episode;
  w_incidents : list AutoIncident;
  w_outbox : list ServiceAlert;
}.

Definition isOpen (e : Episode) : bool := match epi_closedAt e with None => true | Some _ => false end.

Definition closeEpisode (asOf : Time) (reason : ServiceAlertCloseReason) (e : Episode) : Episode :=
  if isOpen e then
    {| epi_ID := epi_ID e; epi_state := epi_state e; epi_startedAt := epi_startedAt e;
       epi_recipients := epi_recipients e; epi_emittedSeq := epi_emittedSeq e;
       epi_closedAt := Some asOf; epi_closeReason := Some reason |}
  else e.

Definition firingOf (w : AlertWorld) : bool := match w_row w with Some r => ar_firing r | None => false end.
Definition emittedOf (w : AlertWorld) : option ServiceAlertState :=
  match w_row w with Some r => ar_emitted r | None => None end.
Definition emittedSeqOf (w : AlertWorld) : Z := match w_row w with Some r => ar_emittedSeq r | None => 0 end.
Definition undeliveredSeqOf (w : AlertWorld) : Z :=
  match w_row w with Some r => ar_undeliveredSeq r | None => 0 end.

(** ** Emission *)
Record emission := {
  em_close : bool;
  em_closeReason : option ServiceAlertCloseReason;
  em_state : ServiceAlertState;
  em_seq : Z;
  em_asOf : Time;
  em_supersede : option ServiceAlertCloseReason;
  em_confirmedOver : Z;
  em_route : list string;
  em_newID : string;
}.

Definition alertOf (e : emission) (episodeID : string) (recipients : list string) : ServiceAlert :=
  {| sa_Firing := negb (em_close e); sa_CloseReason := em_closeReason e; sa_EpisodeID := episodeID;
     sa_Seq := em_seq e; sa_Recipients := recipients; sa_State := em_state e;
     sa_ConfirmedOver := em_confirmedOver e |}.

(** [emitServiceAlertTx] for the health signal: the episodes and the event. [em_route] is
    [resolveServiceRecipientsTx] at this snapshot, [em_newID] the identifier the database
    generates. *)
Definition emitServiceAlertTx (eps : list Episode) (e : emission) : list Episode * ServiceAlert :=
  if em_close e then
    let reason := default ClosePolicyChanged (em_closeReason e) in
    let eps' := map (closeEpisode (em_asOf e) reason) eps in
    match List.find isOpen eps with
    | Some o => (eps', alertOf e (epi_ID o) (epi_recipients o))
    | None => (eps', alertOf e "" (em_route e))
    end
  else
    let supersede := default ClosePolicyChanged (em_supersede e) in
    (map (closeEpisode (em_asOf e) supersede) eps
     ++ [{| epi_ID := em_newID e; epi_state := em_state e; epi_startedAt := em_asOf e;
            epi_recipients := em_route e; epi_emittedSeq := em_seq e; epi_closedAt := None;
            epi_closeReason := None |}],
     alertOf e (em_newID e) (em_route e)).

(** [OpenServiceIncidentTx]: the partial unique index keeps one open auto-incident. *)
Definition OpenServiceIncidentTx (incs : list AutoIncident) (newID : string) : list AutoIncident * bool :=
  if existsb inc_open incs then (incs, false)
  else (incs ++ [{| inc_ID := newID; inc_open := true |}], true).

Definition resolveServiceIncidentTx (incs : list AutoIncident) : list AutoIncident :=
  map (fun i => {| inc_ID := inc_ID i; inc_open := false |}) incs.

(** ** One evaluation *)
Inductive WithheldReason := WithheldUnroutable | WithheldNoGoverningRevision.

(** What the evaluation of one service reads besides its rows: the snapshot instant, the
    page projection's state ([None] when the projection has no row), the governing
    revision, the resolved route, the lease and the identifiers the database generates. *)
Record evalInput := {
  ei_asOf : Time;
  ei_observed : option ServiceAlertState;
  ei_revision : option string;
  ei_route : list string;
  ei_lease : Time;
  ei_episodeID : string;
  ei_incidentID : string;
}.

Inductive AlertError :=
| LostToNewerEvaluation
| AlertPolicyInvalid (e : AlertPolicyError)
| AlertFileManaged.

(** The candidate state and its streak, this evaluation included. *)
Definition observe (row : option AlertRow) (observed : ServiceAlertState) : ServiceAlertState * Z :=
  match row with
  | Some r => if bool_decide (ar_candidate r = observed) then (ar_candidate r, ar_streak r + 1) else (observed, 1)
  | None => (observed, 1)
  end.

(** A condemned announcement of the state still observed is announced again. *)
Definition reannounce (w : AlertWorld) (d : ServiceAlertDecision) (candidate : ServiceAlertState) : bool :=
  negb (dc_Notify d) && firingOf w && (0 <? emittedSeqOf w) && (undeliveredSeqOf w =? emittedSeqOf w)
  && bool_decide (emittedOf w = Some candidate) && Pages (w_policy w) candidate.

Definition reannounced (d : ServiceAlertDecision) (candidate : ServiceAlertState) : ServiceAlertDecision :=
  {| dc_Notify := true; dc_Close := false; dc_CloseReason := dc_CloseReason d;
     dc_NextEmitted := Some candidate; dc_NextFiring := true; dc_Reason := dc_Reason d |}.

(** An onset is withheld when nothing governs the service or nobody can be reached. *)
Definition withheld (i : evalInput) (d : ServiceAlertDecision) : option WithheldReason :=
  if dc_Notify d && negb (dc_Close d) then
    match ei_revision i with
    | None => Some WithheldNoGoverningRevision
    | Some _ => match ei_route i with [] => Some WithheldUnroutable | _ => None end
    end
  else None.

Definition suppressed (firing : bool) (d : ServiceAlertDecision) : ServiceAlertDecision :=
  {| dc_Notify := false; dc_Close := dc_Close d; dc_CloseReason := dc_CloseReason d;
     dc_NextEmitted := dc_NextEmitted d; dc_NextFiring := firing; dc_Reason := dc_Reason d |}.

(** [writeAlertErrorTx]. *)
Definition writeAlertErrorTx (w : AlertWorld) (asOf : Time) (reason : string) : AlertWorld :=
  {| w_policy := w_policy w; w_generation := w_generation w;
     w_row := Some
       match w_row w with
       | None =>
         {| ar_observed := AlertUnknown; ar_candidate := AlertUnknown; ar_streak := 1; ar_firing := false;
            ar_emitted := None; ar_emittedSeq := 0; ar_emittedAt := None; ar_deliveredSeq := 0;
            ar_undeliveredSeq := 0; ar_generation := w_generation w; ar_revision := None;
            ar_evaluatedAt := asOf; ar_leaseUntil := asOf; ar_lastError := Some reason |}
       | Some r =>
         {| ar_observed := ar_observed r; ar_candidate := ar_candidate r; ar_streak := ar_streak r;
            ar_firing := ar_firing r; ar_emitted := ar_emitted r; ar_emittedSeq := ar_emittedSeq r;
            ar_emittedAt := ar_emittedAt r; ar_deliveredSeq := ar_deliveredSeq r;
            ar_undeliveredSeq := ar_undeliveredSeq r; ar_generation := ar_generation r;
            ar_revision := ar_revision r; ar_evaluatedAt := asOf; ar_leaseUntil := asOf;
            ar_lastError := Some reason |}
       end;
     w_episodes := w_episodes w; w_incidents := w_incidents w; w_outbox := w_outbox w |}.

Definition upsertRow (w : AlertWorld) (i : evalInput) (observed candidate : ServiceAlertState) (streak : Z)
    (d : ServiceAlertDecision) (emitted : option ServiceAlertState) (emittedSeq : Z) : AlertRow :=
  {| ar_observed := observed; ar_candidate := candidate; ar_streak := streak; ar_firing := dc_NextFiring d;
     ar_emitted := emitted; ar_emittedSeq := emittedSeq;
     ar_emittedAt := if dc_Notify d then Some (ei_asOf i)
                     else match w_row w with Some r => ar_emittedAt r | None => None end;
     ar_deliveredSeq := match w_row w with Some r => ar_deliveredSeq r | None => 0 end;
     ar_undeliveredSeq := undeliveredSeqOf w; ar_generation := w_generation w;
     ar_revision := ei_revision i; ar_evaluatedAt := ei_asOf i; ar_leaseUntil := ei_lease i;
     ar_lastError := None |}.

(** The decision of one evaluation, after re-announcement and withholding; whether it is a
    re-announcement; and why an onset was withheld. *)
Definition decideEvaluation (w : AlertWorld) (i : evalInput) (candidate : ServiceAlertState) (streak : Z)
    : ServiceAlertDecision * bool * option WithheldReason :=
  let d0 := DecideServiceAlert (w_policy w) candidate streak (firingOf w) (emittedOf w) in
  let again := reannounce w d0 candidate in
  let d1 := if again then reannounced d0 candidate else d0 in
  let why := withheld i d1 in
  let silenced := negb (dc_Notify d1) || match why with Some _ => true | None => false end in
  (if silenced then suppressed (firingOf w) d1 else d1, again, why).

(** The loop body of [evaluateServiceAlertsOn] for one service that owns paging. *)
Definition evaluateOne (w : AlertWorld) (i : evalInput) : result AlertError (AlertWorld * option WithheldReason) :=
  match ei_observed i with
  | None => Ok (writeAlertErrorTx w (ei_asOf i) "projection returned no row", None)
  | Some observed =>
    let '(candidate, streak) := observe (w_row w) observed in
    let '(d, again, why) := decideEvaluation w i candidate streak in
    let seq := emittedSeqOf w + 1 in
    let e := {| em_close := dc_Close d; em_closeReason := dc_CloseReason d; em_state := candidate;
                em_seq := seq; em_asOf := ei_asOf i;
                em_supersede := if again then Some CloseUndelivered else None;
                em_confirmedOver := streak; em_route := ei_route i; em_newID := ei_episodeID i |} in
    let '(eps, ev) := emitServiceAlertTx (w_episodes w) e in
    let lost := match w_row w with Some r => ei_asOf i <? ar_evaluatedAt r | None => false end in
    if lost then Err LostToNewerEvaluation
    else if dc_Notify d then
      Ok ({| w_policy := w_policy w; w_generation := w_generation w;
             w_row := Some (upsertRow w i observed candidate streak d (dc_NextEmitted d) seq);
             w_episodes := eps;
             w_incidents := if dc_Close d then resolveServiceIncidentTx (w_incidents w)
                            else (OpenServiceIncidentTx (w_incidents w) (ei_incidentID i)).1;
             w_outbox := w_outbox w ++ [ev] |}, why)
    else
      Ok ({| w_policy := w_policy w; w_generation := w_generation w;
             w_row := Some (upsertRow w i observed candidate streak d (emittedOf w) (emittedSeqOf w));
             w_episodes := w_episodes w; w_incidents := w_incidents w; w_outbox := w_outbox w |}, why)
  end.

(** ** Lifecycle closes and the policy write *)

(** [closeServiceEpisodesTx] restricted to the health signal: one close event per open
    episode, continuing its sequence to its own recipients; the latch follows. *)
Definition lifecycleEvent (reason : ServiceAlertCloseReason) (e : Episode) : ServiceAlert :=
  {| sa_Firing := false; sa_CloseReason := Some reason; sa_EpisodeID := epi_ID e;
     sa_Seq := epi_emittedSeq e + 1; sa_Recipients := epi_recipients e; sa_State := epi_state e;
     sa_ConfirmedOver := 0 |}.

Definition clearLatch (asOf : Time) (seq : Z) (r : AlertRow) : AlertRow :=
  {| ar_observed := ar_observed r; ar_candidate := ar_candidate r; ar_streak := ar_streak r;
     ar_firing := false; ar_emitted := ar_emitted r; ar_emittedSeq := seq; ar_emittedAt := Some asOf;
     ar_deliveredSeq := ar_deliveredSeq r; ar_undeliveredSeq := ar_undeliveredSeq r;
     ar_generation := ar_generation r; ar_revision := ar_revision r; ar_evaluatedAt := ar_evaluatedAt r;
     ar_leaseUntil := ar_leaseUntil r; ar_lastError := ar_lastError r |}.

Definition closeServiceEpisodesTx (w : AlertWorld) (asOf : Time) (reason : ServiceAlertCloseReason) : AlertWorld :=
  let endings := List.filter isOpen (w_episodes w) in
  {| w_policy := w_policy w; w_generation := w_generation w;
     w_row := foldl (fun row e => clearLatch asOf (epi_emittedSeq e + 1) <$> row) (w_row w) endings;
     w_episodes := map (closeEpisode asOf reason) (w_episodes w);
     w_incidents := match endings with [] => w_incidents w | _ => resolveServiceIncidentTx (w_incidents w) end;
     w_outbox := w_outbox w ++ map (lifecycleEvent reason) endings |}.

(** A partial declaration: [None] leaves the field alone. *)
Record ServiceAlertPolicyPatch := {
  pt_OwnsPaging : option bool;
  pt_PageOn : option (list ServiceAlertState);
  pt_PageOnUnknown : option bool;
  pt_ConfirmEvaluations : option Z;
  pt_RenotifySeconds : option Z;
}.

Definition Merged (pt : ServiceAlertPolicyPatch) (base : ServiceAlertPolicy) : ServiceAlertPolicy :=
  {| OwnsPaging := default (OwnsPaging base) (pt_OwnsPaging pt);
     PageOn := default (PageOn base) (pt_PageOn pt);
     PageOnUnknown := default (PageOnUnknown base) (pt_PageOnUnknown pt);
     ConfirmEvaluations := default (ConfirmEvaluations base) (pt_ConfirmEvaluations pt);
     RenotifySeconds := default (RenotifySeconds base) (pt_RenotifySeconds pt) |}.

Definition pagingStatesChanged (before next : ServiceAlertPolicy) : bool :=
  negb (Bool.eqb (PageOnUnknown before) (PageOnUnknown next))
  || negb (bool_decide (PageOn before = PageOn next)).

(** Whether [alertPolicyDiff] names no field. *)
Definition noDiff (before next : ServiceAlertPolicy) : bool :=
  Bool.eqb (OwnsPaging before) (OwnsPaging next) && bool_decide (PageOn before = PageOn next)
  && Bool.eqb (PageOnUnknown before) (PageOnUnknown next)
  && (ConfirmEvaluations before =? ConfirmEvaluations next) && (RenotifySeconds before =? RenotifySeconds next).

(** The database's trigger on [services]. *)
Definition bumpGeneration (before next : ServiceAlertPolicy) (g : Z) : Z :=
  if negb (Bool.eqb (OwnsPaging before) (OwnsPaging next)) || pagingStatesChanged before next
     || negb (ConfirmEvaluations before =? ConfirmEvaluations next)
  then g + 1 else g.

(** The closes of a policy write, decided from the state before it. *)
Definition closeUncovered (w : AlertWorld) (before next : ServiceAlertPolicy) (asOf : Time) : AlertWorld :=
  if OwnsPaging before && negb (OwnsPaging next) then closeServiceEpisodesTx w asOf CloseOwnershipDisabled
  else if pagingStatesChanged before next then
    match List.find isOpen (w_episodes w) with
    | Some e => if Pages next (epi_state e) then w else closeServiceEpisodesTx w asOf ClosePolicyChanged
    | None => w
    end
  else w.

Definition UpdateServiceAlertPolicy (w : AlertWorld) (pt : ServiceAlertPolicyPatch) (fileManaged : bool)
    (asOf : Time) : result AlertError (ServiceAlertPolicy * AlertWorld) :=
  let before := Canonical (w_policy w) in
  let! _ := refuse_if fileManaged AlertFileManaged in
  let next := Canonical (Merged pt before) in
  match ServiceAlertPolicy_Validate next with
  | Err e => Err (AlertPolicyInvalid e)
  | Ok _ =>
    if noDiff before next then Ok (next, w)
    else
      let closed := closeUncovered w before next asOf in
      Ok (next, {| w_policy := next; w_generation := bumpGeneration (w_policy w) next (w_generation w);
                   w_row := w_row closed; w_episodes := w_episodes closed;
                   w_incidents := w_incidents closed; w_outbox := w_outbox closed |})
  end.

(** ** Delivery credit and condemnation *)
Definition withSeqs (delivered undelivered : Z) (r : AlertRow) : AlertRow :=
  {| ar_observed := ar_observed r; ar_candidate := ar_candidate r; ar_streak := ar_streak r;
     ar_firing := ar_firing r; ar_emitted := ar_emitted r; ar_emittedSeq := ar_emittedSeq r;
     ar_emittedAt := ar_emittedAt r; ar_deliveredSeq := delivered; ar_undeliveredSeq := undelivered;
     ar_generation := ar_generation r; ar_revision := ar_revision r; ar_evaluatedAt := ar_evaluatedAt r;
     ar_leaseUntil := ar_leaseUntil r; ar_lastError := ar_lastError r |}.

Definition withRow (w : AlertWorld) (row : option AlertRow) : AlertWorld :=
  {| w_policy := w_policy w; w_generation := w_generation w; w_row := row; w_episodes := w_episodes w;
     w_incidents := w_incidents w; w_outbox := w_outbox w |}.

Definition MarkServiceAlertDelivered (w : AlertWorld) (a : ServiceAlert) : AlertWorld :=
  if negb (sa_Firing a) then w
  else withRow w ((fun r =>
    if (ar_emittedSeq r =? sa_Seq a) && (ar_deliveredSeq r <? sa_Seq a)
    then withSeqs (sa_Seq a) (ar_undeliveredSeq r) r else r) <$> w_row w).

Definition MarkServiceAlertUndeliverable (w : AlertWorld) (a : ServiceAlert) : AlertWorld :=
  if negb (sa_Firing a) then w
  else withRow w ((fun r =>
    if (ar_emittedSeq r =? sa_Seq a) && (ar_undeliveredSeq r <? sa_Seq a) && (ar_deliveredSeq r <? sa_Seq a)
    then withSeqs (ar_deliveredSeq r) (sa_Seq a) r else r) <$> w_row w).

(** ** The step relation *)
Inductive alert_step : AlertWorld -> AlertWorld -> Prop :=
| step_evaluate w i w' why :
    OwnsPaging (w_policy w) = true -> ei_episodeID i <> "" ->
    evaluateOne w i = Ok (w', why) -> alert_step w w'
| step_policy w pt managed asOf p w' :
    UpdateServiceAlertPolicy w pt managed asOf = Ok (p, w') -> alert_step w w'
| step_delivered w a : a ∈ w_outbox w -> alert_step w (MarkServiceAlertDelivered w a)
| step_condemned w a : a ∈ w_outbox w -> alert_step w (MarkServiceAlertUndeliverable w a)
| step_human_resolves w id :
    alert_step w
      {| w_policy := w_policy w; w_generation := w_generation w; w_row := w_row w;
         w_episodes := w_episodes w;
         w_incidents := map (fun i => if bool_decide (inc_ID i = id)
                                      then {| inc_ID := inc_ID i; inc_open := false |} else i) (w_incidents w);
         w_outbox := w_outbox w |}.

(** A service never evaluated, with any stored declaration. *)
Definition alert_initial (w : AlertWorld) : Prop :=
  w_row w = None /\ w_episodes w = [] /\ w_incidents w = [] /\ w_outbox w = [].

Definition alert_system : system AlertWorld := System alert_initial alert_step.

Definition alert_reachable (w : AlertWorld) : Prop := sys_reachable alert_system w.

(** ** What the announcements promise

    The log a recipient may see: onsets and closes with increasing sequence numbers, where a
    close ends the onset before it, names its episode and goes to its recipients. *)
Inductive alert_log : list ServiceAlert -> option ServiceAlert -> Z -> Prop :=
| log_nil : alert_log [] None 0
| log_onset log cur n a :
    alert_log log cur n -> sa_Firing a = true -> sa_CloseReason a = None -> sa_Recipients a <> [] ->
    n < sa_Seq a -> alert_log (log ++ [a]) (Some a) (sa_Seq a)
| log_close log o n a :
    alert_log log (Some o) n -> sa_Firing a = false -> is_Some (sa_CloseReason a) ->
    sa_EpisodeID a = sa_EpisodeID o -> sa_Recipients a = sa_Recipients o ->
    n < sa_Seq a -> alert_log (log ++ [a]) None (sa_Seq a).

(** The open announcement and the rows describe the same thing. *)
Definition current_ok (w : AlertWorld) (cur : option ServiceAlert) : Prop :=
  match cur with
  | None => List.filter isOpen (w_episodes w) = [] /\ firingOf w = false
  | Some o =>
    exists e, List.filter isOpen (w_episodes w) = [e] /\ firingOf w = true /\
      epi_ID e = sa_EpisodeID o /\ epi_recipients e = sa_Recipients o /\ epi_emittedSeq e = emittedSeqOf w /\
      OwnsPaging (w_policy w) = true /\ Pages (w_policy w) (epi_state e) = true
  end.

Record alert_inv (w : AlertWorld) : Prop := {
  ai_log : exists cur, alert_log (w_outbox w) cur (emittedSeqOf w) /\ current_ok w cur;
  ai_slot : count inc_open (w_incidents w) <= 1;
  ai_incident : existsb inc_open (w_incidents w) = true -> firingOf w = true;
}.

(** ** Lemmas *)
Lemma filter_closeEpisode asOf r eps : List.filter isOpen (map (closeEpisode asOf r) eps) = [].
Proof.
  induction eps as [|e eps IH]; cbn; [done|]. unfold closeEpisode at 1.
  destruct (isOpen e) eqn:E; cbn [isOpen epi_closedAt]; [done|]. by rewrite E.
Qed.

Lemma find_filter {A} (f : A -> bool) l : List.find f l = head (List.filter f l).
Proof. induction l as [|x l IH]; cbn; [done|]. by destruct (f x). Qed.

Lemma dedupStates_elem ss s : s ∈ dedupStates ss <-> s ∈ ss.
Proof.
  unfold dedupStates. assert (forall acc,
    s ∈ foldl (fun out s => if bool_decide (s ∈ out) then out else out ++ [s]) acc ss <-> s ∈ acc \/ s ∈ ss) as H.
  { induction ss as [|x ss IH]; intros acc; cbn [foldl]; [set_solver|]. rewrite IH, elem_of_cons.
    case_bool_decide; set_solver. }
  rewrite H. set_solver.
Qed.

Lemma existsb_iff {A} (f : A -> bool) l l' :
  (forall x, x ∈ l <-> x ∈ l') -> existsb f l = existsb f l'.
Proof.
  intros H. apply eq_iff_eq_true. rewrite !existsb_exists. setoid_rewrite <- list_elem_of_In.
  by setoid_rewrite H.
Qed.

Lemma Pages_Canonical p s : Pages (Canonical p) s = Pages p s.
Proof.
  unfold Pages. destruct s; try done; cbn [PageOn Canonical];
    apply existsb_iff; intros x; rewrite merge_sort_Permutation; apply dedupStates_elem.
Qed.

Lemma Pages_ext p q s : PageOn p = PageOn q -> PageOnUnknown p = PageOnUnknown q -> Pages p s = Pages q s.
Proof. unfold Pages. by intros -> ->. Qed.

(** What one evaluation may decide. *)
Lemma decideEvaluation_spec w i candidate streak d again why :
  decideEvaluation w i candidate streak = (d, again, why) ->
  OwnsPaging (w_policy w) = true ->
  if dc_Notify d then
    dc_NextEmitted d = Some candidate /\
    if dc_Close d then
      firingOf w = true /\ dc_NextFiring d = false /\ dc_CloseReason d = Some (closeReasonFor candidate) /\
      Pages (w_policy w) candidate = false /\ ConfirmEvaluations (w_policy w) <= streak
    else
      dc_NextFiring d = true /\ dc_CloseReason d = None /\ Pages (w_policy w) candidate = true /\
      is_Some (ei_revision i) /\ ei_route i <> [] /\
      (ConfirmEvaluations (w_policy w) <= streak \/
       (emittedOf w = Some candidate /\ firingOf w = true /\ 0 < emittedSeqOf w /\
        undeliveredSeqOf w = emittedSeqOf w))
  else dc_NextFiring d = firingOf w.
Proof.
  unfold decideEvaluation. intros Hd Hown.
  set (d0 := DecideServiceAlert (w_policy w) candidate streak (firingOf w) (emittedOf w)) in *.
  set (ag := reannounce w d0 candidate) in *.
  assert (dc_Notify d0 = true -> ag = false) as Hag by (unfold ag, reannounce; by intros ->).
  assert (ag = true -> Pages (w_policy w) candidate = true /\ emittedOf w = Some candidate /\ firingOf w = true /\
            0 < emittedSeqOf w /\ undeliveredSeqOf w = emittedSeqOf w) as Hag'.
  { unfold ag, reannounce. rewrite !andb_true_iff, Z.ltb_lt, Z.eqb_eq, bool_decide_eq_true. tauto. }
  assert (dc_Notify d0 = true ->
    dc_NextEmitted d0 = Some candidate /\ ConfirmEvaluations (w_policy w) <= streak /\
    if dc_Close d0 then firingOf w = true /\ dc_NextFiring d0 = false /\
      dc_CloseReason d0 = Some (closeReasonFor candidate) /\ Pages (w_policy w) candidate = false
    else dc_NextFiring d0 = true /\ dc_CloseReason d0 = None /\ Pages (w_policy w) candidate = true) as Hd0.
  { unfold d0, DecideServiceAlert. rewrite Hown. cbn [negb].
    destruct (Z.ltb_spec streak (ConfirmEvaluations (w_policy w))); [done|]. cbv zeta.
    destruct (Pages (w_policy w) candidate) eqn:Ep; cbn [andb].
    - destruct (firingOf w && _); cbn; [done|]. done.
    - destruct (firingOf w); cbn; done. }
  assert (dc_Notify d0 = false -> dc_CloseReason d0 = None) as Hnone.
  { unfold d0, DecideServiceAlert. rewrite Hown. cbn [negb]. destruct (_ <? _); [done|]. cbv zeta.
    destruct (_ && _); [done|]. destruct (Pages _ _); [done|]. destruct (negb (firingOf w)); cbn; done. }
  injection Hd as <- <- <-. destruct ag eqn:Eag.
  - destruct (Hag' eq_refl) as (Hp & He & Hf & Hs & Hu). cbn [reannounced dc_Notify negb orb].
    destruct (withheld i (reannounced d0 candidate)) as [r|] eqn:Ew; [done|].
    cbn [reannounced dc_NextEmitted dc_Close dc_NextFiring dc_CloseReason]. split; [done|].
    unfold withheld in Ew. cbn in Ew. destruct (ei_revision i); [|done]. destruct (ei_route i); [done|].
    split_and!; try done; [|by right]. apply Hnone. destruct (dc_Notify d0) eqn:E; [|done]. by specialize (Hag eq_refl).
  - destruct (dc_Notify d0) eqn:En; cbn [negb orb]; [|done].
    destruct (Hd0 eq_refl) as (Hne & Hst & Hcase).
    destruct (withheld i d0) as [r|] eqn:Ew; [done|]. rewrite En. split; [done|].
    destruct (dc_Close d0) eqn:Ec; [tauto|]. unfold withheld in Ew. rewrite En, Ec in Ew. cbn in Ew.
    destruct (ei_revision i); [|done]. destruct (ei_route i); [done|]. split_and!; try tauto; try done.
Qed.

Lemma observe_fst row observed : (observe row observed).1 = observed.
Proof. unfold observe. destruct row; [|done]. by case_bool_decide. Qed.

Lemma OpenServiceIncident_slot incs id :
  count inc_open incs <= 1 -> count inc_open (OpenServiceIncidentTx incs id).1 <= 1.
Proof.
  unfold OpenServiceIncidentTx. destruct (existsb inc_open incs) eqn:E; cbn; [done|]. intros _.
  apply existsb_count_zero in E. autorewrite with cerbix. rewrite E. cbn. lia.
Qed.

Lemma resolve_closed incs : count inc_open (resolveServiceIncidentTx incs) = 0.
Proof.
  apply count_none. intros i Hi. unfold resolveServiceIncidentTx in Hi.
  by apply list_elem_of_fmap in Hi as (j & -> & _).
Qed.

(** *** Preservation *)

(** A change that touches none of what the invariant reads. *)
Lemma inv_frame w w' :
  w_policy w' = w_policy w -> w_episodes w' = w_episodes w -> w_outbox w' = w_outbox w ->
  firingOf w' = firingOf w -> emittedSeqOf w' = emittedSeqOf w ->
  count inc_open (w_incidents w') <= count inc_open (w_incidents w) ->
  alert_inv w -> alert_inv w'.
Proof.
  intros Hp He Ho Hf Hs Hi [(cur & Hlog & Hcur) Hslot Hinc]. split.
  - exists cur. rewrite Ho, Hs. split; [done|]. unfold current_ok in *. by rewrite He, Hf, Hs, Hp.
  - lia.
  - intros H. rewrite Hf. apply Hinc. apply not_false_iff_true. intros Hn. apply existsb_count_zero in Hn.
    apply not_false_iff_true in H. apply H, existsb_count_zero. pose proof (count_nonneg inc_open (w_incidents w')). lia.
Qed.

(** The open announcement ends: its episode closes, its incident resolves. *)
Lemma inv_close w w' o n a e :
  alert_log (w_outbox w) (Some o) n -> current_ok w (Some o) -> n = emittedSeqOf w ->
  List.filter isOpen (w_episodes w) = [e] ->
  w_outbox w' = w_outbox w ++ [a] -> sa_Firing a = false -> is_Some (sa_CloseReason a) ->
  sa_EpisodeID a = epi_ID e -> sa_Recipients a = epi_recipients e -> sa_Seq a = emittedSeqOf w + 1 ->
  List.filter isOpen (w_episodes w') = [] -> firingOf w' = false -> emittedSeqOf w' = sa_Seq a ->
  count inc_open (w_incidents w') = 0 -> alert_inv w'.
Proof.
  intros Hlog (e' & He' & Hf & Hid & Hrec & Hseq & _) -> He Ho Ha Hc Hida Hreca Hsa Hep Hf' Hs' Hinc.
  rewrite He in He'. injection He' as <-. split.
  - exists None. rewrite Ho, Hs'. split; [|done]. eapply log_close; [done..|congruence|congruence|lia].
  - lia.
  - apply existsb_count_zero in Hinc. by rewrite Hinc.
Qed.

Lemma inv_evaluate w i w' why :
  OwnsPaging (w_policy w) = true -> evaluateOne w i = Ok (w', why) -> alert_inv w -> alert_inv w'.
Proof.
  intros Hown Hev Hinv. unfold evaluateOne in Hev. destruct (ei_observed i) as [observed|].
  2:{ injection Hev as <- <-. apply (inv_frame w); try done; unfold firingOf, emittedSeqOf; cbn; by destruct (w_row w). }
  pose proof (observe_fst (w_row w) observed) as Hobs.
  destruct (observe (w_row w) observed) as [candidate streak]. cbn in Hobs. subst candidate.
  destruct (decideEvaluation w i observed streak) as [[d again] why'] eqn:Ed.
  pose proof (decideEvaluation_spec _ _ _ _ _ _ _ Ed Hown) as Hspec.
  destruct (emitServiceAlertTx _ _) as [eps ev] eqn:Eem.
  destruct (match w_row w with Some _ => _ | None => _ end); [done|].
  destruct (dc_Notify d) eqn:En.
  2:{ injection Hev as <- <-. apply (inv_frame w); try done. }
  destruct Hspec as [Hne Hspec]. injection Hev as <- <-. destruct Hinv as [(cur & Hlog & Hcur) Hslot Hinc].
  unfold emitServiceAlertTx in Eem. cbn [em_close em_closeReason em_state em_seq em_asOf em_supersede
    em_confirmedOver em_route em_newID] in Eem. destruct (dc_Close d) eqn:Ec.
  - destruct Hspec as (Hf & Hnf & Hcr & _ & _).
    destruct cur as [o|]; [|by destruct Hcur as [_ ?]; congruence].
    pose proof Hcur as (e & He & _). rewrite find_filter, He in Eem. cbn [head] in Eem. injection Eem as <- <-.
    eapply (inv_close w); try done; cbn; try done.
    + apply filter_closeEpisode.
    + apply resolve_closed.
  - destruct Hspec as (Hnf & Hcr & Hpg & _ & Hroute & _). injection Eem as <- Hev. split.
    + exists (Some ev). unfold emittedSeqOf at 1. cbn [w_row w_outbox upsertRow ar_emittedSeq].
      assert (sa_Seq ev = emittedSeqOf w + 1) as Hseq by by rewrite <- Hev. rewrite <- Hseq. split.
      * eapply log_onset; [exact Hlog|..]; rewrite <- Hev; cbn; try done. lia.
      * unfold current_ok. eexists. cbn [w_episodes w_policy]. rewrite List.filter_app, filter_closeEpisode.
        unfold firingOf, emittedSeqOf. cbn. rewrite <- Hev. split_and!; done.
    + by apply OpenServiceIncident_slot.
    + unfold firingOf. cbn. by rewrite Hnf.
Qed.

Lemma inv_lifecycle w asOf reason :
  alert_inv w ->
  alert_inv (closeServiceEpisodesTx w asOf reason) /\ firingOf (closeServiceEpisodesTx w asOf reason) = false /\
  List.filter isOpen (w_episodes (closeServiceEpisodesTx w asOf reason)) = [].
Proof.
  intros Hinv. pose proof Hinv as [([o|] & Hlog & Hcur) Hslot Hinc].
  - pose proof Hcur as (e & He & Hf & _ & _ & Hs & _). unfold closeServiceEpisodesTx. rewrite He.
    assert (exists r, w_row w = Some r) as [r Hr] by (unfold firingOf in Hf; destruct (w_row w); [by eexists|done]).
    split; [|split; [cbn; by rewrite Hr|apply filter_closeEpisode]].
    eapply (inv_close w); try done; cbn; try done; rewrite ?Hr; cbn; try done.
    + lia.
    + apply filter_closeEpisode.
    + apply resolve_closed.
  - destruct Hcur as [He Hf]. unfold closeServiceEpisodesTx. rewrite He. cbn [foldl map].
    assert (map (closeEpisode asOf reason) (w_episodes w) = w_episodes w) as Hid.
    { clear -He. induction (w_episodes w) as [|e eps IH]; cbn in *; [done|]. unfold closeEpisode at 1.
      destruct (isOpen e); [done|]. by rewrite IH. }
    rewrite Hid, app_nil_r. split; [by destruct w|]. split; [exact Hf|exact He].
Qed.

Lemma closeServiceEpisodes_policy w asOf reason : w_policy (closeServiceEpisodesTx w asOf reason) = w_policy w.
Proof. done. Qed.

(** The declaration may change when what is open stays pageable under it. *)
Lemma inv_new_policy w next g :
  alert_inv w ->
  (forall e, List.filter isOpen (w_episodes w) = [e] -> OwnsPaging next = true /\ Pages next (epi_state e) = true) ->
  alert_inv {| w_policy := next; w_generation := g; w_row := w_row w; w_episodes := w_episodes w;
               w_incidents := w_incidents w; w_outbox := w_outbox w |}.
Proof.
  intros [(cur & Hlog & Hcur) Hslot Hinc] Hnext. split; [|done..]. exists cur. split; [done|].
  destruct cur as [o|]; [|done]. destruct Hcur as (e & He & Hf & Hid & Hrec & Hs & _).
  destruct (Hnext e He). by exists e.
Qed.

Lemma inv_policy w pt managed asOf p w' :
  UpdateServiceAlertPolicy w pt managed asOf = Ok (p, w') -> alert_inv w -> alert_inv w'.
Proof.
  unfold UpdateServiceAlertPolicy. destruct managed; [done|]. cbn [refuse_if rbind].
  set (before := Canonical (w_policy w)). set (next := Canonical (Merged pt before)).
  destruct (ServiceAlertPolicy_Validate next); [|done]. destruct (noDiff before next); [by intros [= _ <-]|].
  intros Hok Hinv. assert (w' = {| w_policy := next; w_generation := bumpGeneration (w_policy w) next (w_generation w);
    w_row := w_row (closeUncovered w before next asOf); w_episodes := w_episodes (closeUncovered w before next asOf);
    w_incidents := w_incidents (closeUncovered w before next asOf);
    w_outbox := w_outbox (closeUncovered w before next asOf) |}) as -> by congruence. clear Hok.
  assert (forall e, List.filter isOpen (w_episodes w) = [e] ->
            OwnsPaging before = true /\ Pages before (epi_state e) = true) as Hopen.
  { intros e He. destruct Hinv as [([o|] & _ & Hcur) _ _]; [|destruct Hcur as [He' _]; congruence].
    destruct Hcur as (e' & He' & _ & _ & _ & _ & Ho & Hp). rewrite He in He'. injection He' as <-.
    unfold before. by rewrite Pages_Canonical. }
  assert (forall r g, alert_inv {| w_policy := next; w_generation := g;
            w_row := w_row (closeServiceEpisodesTx w asOf r);
            w_episodes := w_episodes (closeServiceEpisodesTx w asOf r);
            w_incidents := w_incidents (closeServiceEpisodesTx w asOf r);
            w_outbox := w_outbox (closeServiceEpisodesTx w asOf r) |}) as Hclosed.
  { intros r g. destruct (inv_lifecycle w asOf r Hinv) as (H1 & _ & H3).
    apply (inv_new_policy _ next g H1). intros e He. by rewrite H3 in He. }
  unfold closeUncovered. destruct (OwnsPaging before && negb (OwnsPaging next)) eqn:Eown; [apply Hclosed|].
  assert (OwnsPaging before = true -> OwnsPaging next = true) as Hstay.
  { intros Hb. rewrite Hb in Eown. cbn in Eown. by apply negb_false_iff in Eown. }
  destruct (pagingStatesChanged before next) eqn:Ech.
  - destruct (List.find isOpen (w_episodes w)) as [e|] eqn:Ef.
    + destruct (Pages next (epi_state e)) eqn:Epg; [|apply Hclosed].
      apply inv_new_policy; [done|]. intros e' He'. rewrite find_filter, He' in Ef. injection Ef as ->.
      split; [|done]. apply Hstay. by apply (Hopen e).
    + apply inv_new_policy; [done|]. intros e' He'. by rewrite find_filter, He' in Ef.
  - apply inv_new_policy; [done|]. intros e He. destruct (Hopen e He) as [Ho Hp]. split; [by apply Hstay|].
    unfold pagingStatesChanged in Ech. apply orb_false_iff in Ech as [E1 E2].
    apply negb_false_iff, eqb_prop in E1. apply negb_false_iff, bool_decide_eq_true in E2.
    by rewrite <- (Pages_ext before next).
Qed.

Lemma alert_step_inv w w' : alert_step w w' -> alert_inv w -> alert_inv w'.
Proof.
  intros Hstep Hinv. destruct Hstep as [w i w' why Hown _ Hev|w pt managed asOf p w' Hup|w a _|w a _|w id].
  - by eapply inv_evaluate.
  - by eapply inv_policy.
  - unfold MarkServiceAlertDelivered. destruct (negb _); [done|].
    apply (inv_frame w); try done; unfold firingOf, emittedSeqOf; cbn; destruct (w_row w) as [r|]; cbn; try done;
      by destruct (_ && _).
  - unfold MarkServiceAlertUndeliverable. destruct (negb _); [done|].
    apply (inv_frame w); try done; unfold firingOf, emittedSeqOf; cbn; destruct (w_row w) as [r|]; cbn; try done;
      by destruct (_ && _).
  - apply (inv_frame w); try done. apply count_map_le. intros x. by case_bool_decide.
Qed.

Lemma alert_reachable_inv w : alert_reachable w -> alert_inv w.
Proof.
  apply (invariant_rule alert_system); [|apply alert_step_inv].
  intros w0 (Hr & He & Hi & Ho). split; [|by rewrite Hi|by rewrite Hi]. exists None.
  unfold emittedSeqOf, current_ok, firingOf. rewrite Hr, He, Ho. split; [constructor|done].
Qed.

(** ** Properties *)

(** C14: the announcements of a service refine the recipients' log, whatever the order of
    evaluations, policy edits, deliveries, condemnations and human actions: sequence numbers
    strictly increase, every onset has recipients, a close ends the onset immediately before
    it, names that onset's episode and goes to exactly its recipients; and the stored level
    is firing exactly while an onset is not closed, with one open episode that describes it
    and a declaration that still pages for it. *)
Theorem announcements_refine_the_log w (Hreach : alert_reachable w) :
  exists cur, alert_log (w_outbox w) cur (emittedSeqOf w) /\
    (firingOf w = true <-> is_Some cur) /\
    match cur with
    | None => List.filter isOpen (w_episodes w) = []
    | Some o => exists e, List.filter isOpen (w_episodes w) = [e] /\ epi_ID e = sa_EpisodeID o /\
                  epi_recipients e = sa_Recipients o /\
                  OwnsPaging (w_policy w) = true /\ Pages (w_policy w) (epi_state e) = true
    end.
Proof.
  apply alert_reachable_inv in Hreach as [(cur & Hlog & Hcur) _ _]. exists cur. split; [done|].
  destruct cur as [o|]; cbn in Hcur.
  - destruct Hcur as (e & He & Hf & Hid & Hrec & _ & Ho & Hp). split; [by split|]. by exists e.
  - destruct Hcur as [He Hf]. split; [|done]. rewrite Hf. split; [done|by intros []].
Qed.

(** an auto-incident never outlives its announcement: at every reachable state a service
    has at most one unresolved auto-incident, and while one is unresolved the announcement
    it was opened with is still open, so that some later event can still resolve it. *)
Theorem incident_never_outlives_announcement w (Hreach : alert_reachable w) :
  count inc_open (w_incidents w) <= 1 /\
  (existsb inc_open (w_incidents w) = true -> exists e, List.filter isOpen (w_episodes w) = [e]).
Proof.
  apply alert_reachable_inv in Hreach as [(cur & _ & Hcur) Hslot Hinc]. split; [done|]. intros H.
  destruct cur as [o|]; [by destruct Hcur as (e & He & _); exists e|].
  destruct Hcur as [_ Hf]. rewrite Hinc in Hf; done.
Qed.

(** what one evaluation may announce. An onset needs a state the declaration pages for, a
    governing revision and at least one recipient, and either the confirmed streak or a
    condemned announcement of that very state; a close needs an open announcement and a
    confirmed state that does not page, and it claims a recovery exactly when that state is
    healthy; and an evaluation that announces nothing, because it has nothing to say or may
    not say it, leaves the level, the announced state and the sequence as they were. *)
Theorem evaluation_announces_soundly w i observed w' why
  (Hown : OwnsPaging (w_policy w) = true)
  (Hobs : ei_observed i = Some observed)
  (Heval : evaluateOne w i = Ok (w', why)) :
  let streak := (observe (w_row w) observed).2 in
  (w_outbox w' = w_outbox w /\ firingOf w' = firingOf w /\ emittedOf w' = emittedOf w /\
   emittedSeqOf w' = emittedSeqOf w) \/
  (exists a, w_outbox w' = w_outbox w ++ [a] /\ sa_State a = observed /\ sa_Seq a = emittedSeqOf w + 1 /\
     if sa_Firing a then
       Pages (w_policy w) observed = true /\ is_Some (ei_revision i) /\ sa_Recipients a = ei_route i /\
       ei_route i <> [] /\
       (ConfirmEvaluations (w_policy w) <= streak \/
        (emittedOf w = Some observed /\ firingOf w = true /\ undeliveredSeqOf w = emittedSeqOf w))
     else
       firingOf w = true /\ Pages (w_policy w) observed = false /\ ConfirmEvaluations (w_policy w) <= streak /\
       (sa_CloseReason a = Some CloseRecovered <-> observed = AlertHealthy)).
Proof.
  cbv zeta. unfold evaluateOne in Heval. rewrite Hobs in Heval.
  pose proof (observe_fst (w_row w) observed) as Hfst.
  destruct (observe (w_row w) observed) as [candidate streak]. cbn [fst snd] in Hfst |- *. subst candidate.
  destruct (decideEvaluation w i observed streak) as [[d again] why'] eqn:Ed.
  pose proof (decideEvaluation_spec _ _ _ _ _ _ _ Ed Hown) as Hspec.
  destruct (emitServiceAlertTx _ _) as [eps ev] eqn:Eem.
  destruct (match w_row w with Some _ => _ | None => _ end); [done|].
  destruct (dc_Notify d) eqn:En; injection Heval as <- <-.
  2:{ left. unfold firingOf at 1, emittedOf at 1, emittedSeqOf at 1. cbn. done. }
  right. exists ev. destruct Hspec as [Hne Hspec]. unfold emitServiceAlertTx in Eem.
  cbn [em_close em_closeReason em_state em_seq em_asOf em_supersede em_confirmedOver em_route em_newID] in Eem.
  destruct (dc_Close d) eqn:Ec.
  - destruct Hspec as (Hf & Hnf & Hcr & Hpg & Hconf).
    assert (sa_Firing ev = false /\ sa_CloseReason ev = Some (closeReasonFor observed) /\ sa_State ev = observed /\
            sa_Seq ev = emittedSeqOf w + 1) as (-> & -> & -> & ->).
    { destruct (List.find isOpen _); injection Eem as _ <-; by rewrite Hcr. }
    split_and!; try done. split; [|intros ->; done]. unfold closeReasonFor. by destruct observed.
  - destruct Hspec as (Hnf & Hcr & Hpg & Hrev & Hroute & Hwhy). injection Eem as _ <-. cbn.
    split_and!; try done. destruct Hwhy as [?|(? & ? & _ & ?)]; [by left|by right].
Qed.

(** *** Liveness *)

(** The same observation repeated, with a route and a governing revision, later and later. *)
Inductive evaluated_with (observed : ServiceAlertState) : nat -> AlertWorld -> AlertWorld -> Prop :=
| evaluated_zero w : evaluated_with observed 0 w w
| evaluated_more n w i w1 w2 why :
    ei_observed i = Some observed -> is_Some (ei_revision i) -> ei_route i <> [] ->
    evaluateOne w i = Ok (w1, why) -> evaluated_with observed n w1 w2 ->
    evaluated_with observed (S n) w w2.

Lemma evaluateOne_policy w i w' why : evaluateOne w i = Ok (w', why) -> w_policy w' = w_policy w.
Proof.
  unfold evaluateOne. destruct (ei_observed i); [|by intros [= <- <-]].
  destruct (observe _ _). destruct (decideEvaluation _ _ _ _) as [[d ag] y].
  destruct (emitServiceAlertTx _ _). destruct (match w_row w with Some _ => _ | None => _ end); [done|].
  destruct (dc_Notify d); by intros [= <- _].
Qed.

Lemma evaluateOne_outbox w i w' why :
  evaluateOne w i = Ok (w', why) -> exists l, w_outbox w' = w_outbox w ++ l.
Proof.
  unfold evaluateOne. destruct (ei_observed i); [|intros [= <- <-]; exists []; by rewrite app_nil_r].
  destruct (observe _ _). destruct (decideEvaluation _ _ _ _) as [[d ag] y].
  destruct (emitServiceAlertTx _ _). destruct (match w_row w with Some _ => _ | None => _ end); [done|].
  destruct (dc_Notify d); intros [= <- _]; [by eexists|exists []; by rewrite app_nil_r].
Qed.

Lemma evaluated_outbox observed n w w' : evaluated_with observed n w w' -> exists l, w_outbox w' = w_outbox w ++ l.
Proof.
  induction 1 as [w|n w i w1 w2 why _ _ _ Hev _ [l Hl]]; [exists []; by rewrite app_nil_r|].
  destruct (evaluateOne_outbox _ _ _ _ Hev) as [l1 Hl1]. exists (l1 ++ l). by rewrite Hl, Hl1, app_assoc.
Qed.

(** The streak after one more evaluation of the same state. *)
Lemma evaluateOne_streak w i w' why observed :
  ei_observed i = Some observed -> evaluateOne w i = Ok (w', why) ->
  (exists r, w_row w' = Some r /\ ar_candidate r = observed /\ ar_streak r = (observe (w_row w) observed).2).
Proof.
  intros Hobs. unfold evaluateOne. rewrite Hobs. pose proof (observe_fst (w_row w) observed) as Hfst.
  destruct (observe _ _) as [c s]. cbn [fst snd] in Hfst |- *. subst c.
  destruct (decideEvaluation _ _ _ _) as [[d ag] y].
  destruct (emitServiceAlertTx _ _). destruct (match w_row w with Some _ => _ | None => _ end); [done|].
  destruct (dc_Notify d); intros [= <- _]; (eexists; split_and!; reflexivity).
Qed.

(** A confirmed, pageable, unannounced state with a route and a revision is announced now. *)
Lemma confirmed_onset w i w' why observed :
  OwnsPaging (w_policy w) = true -> Pages (w_policy w) observed = true ->
  firingOf w = false -> ei_observed i = Some observed -> is_Some (ei_revision i) -> ei_route i <> [] ->
  ConfirmEvaluations (w_policy w) <= (observe (w_row w) observed).2 ->
  evaluateOne w i = Ok (w', why) ->
  exists a, w_outbox w' = w_outbox w ++ [a] /\ sa_Firing a = true /\ sa_State a = observed.
Proof.
  intros Hown Hpg Hf Hobs [rev Hrev] Hroute Hconf Hev. unfold evaluateOne in Hev. rewrite Hobs in Hev.
  pose proof (observe_fst (w_row w) observed) as Hfst.
  destruct (observe (w_row w) observed) as [c streak]. cbn in Hfst, Hconf. subst c.
  unfold decideEvaluation, reannounce in Hev. rewrite Hf, andb_false_r in Hev. cbn [andb] in Hev.
  unfold DecideServiceAlert in Hev. rewrite Hown, Hpg in Hev. cbn [negb andb] in Hev.
  destruct (Z.ltb_spec streak (ConfirmEvaluations (w_policy w))); [lia|]. cbv zeta in Hev.
  unfold withheld in Hev. rewrite Hrev in Hev. destruct (ei_route i) eqn:Er; [done|].
  cbn [dc_Notify dc_Close negb andb orb] in Hev. unfold emitServiceAlertTx in Hev. cbn [em_close] in Hev.
  destruct (match w_row w with Some _ => _ | None => _ end); [done|]. injection Hev as <- _. by eexists.
Qed.

Lemma unconfirmed_quiet w i w' why observed :
  OwnsPaging (w_policy w) = true -> firingOf w = false -> ei_observed i = Some observed ->
  (observe (w_row w) observed).2 < ConfirmEvaluations (w_policy w) ->
  evaluateOne w i = Ok (w', why) -> firingOf w' = false /\ w_outbox w' = w_outbox w.
Proof.
  intros Hown Hf Hobs Hconf Hev. unfold evaluateOne in Hev. rewrite Hobs in Hev.
  pose proof (observe_fst (w_row w) observed) as Hfst.
  destruct (observe (w_row w) observed) as [c streak]. cbn in Hfst, Hconf. subst c.
  unfold decideEvaluation, reannounce in Hev. rewrite Hf, andb_false_r in Hev. cbn [andb] in Hev.
  unfold DecideServiceAlert in Hev. rewrite Hown in Hev. cbn [negb] in Hev.
  destruct (Z.ltb_spec streak (ConfirmEvaluations (w_policy w))); [|lia].
  cbn [silent dc_Notify negb orb suppressed] in Hev. destruct (emitServiceAlertTx _ _).
  destruct (match w_row w with Some _ => _ | None => _ end); [done|]. by injection Hev as <- _.
Qed.

(** a persistent outage is announced in time: whatever was stored about earlier
    evaluations, once a service with nothing announced is evaluated [confirm_evaluations]
    times in a row in a state its declaration pages for, each time with a governing
    revision and somebody to tell, an onset for that state has been enqueued. *)
Theorem persistent_state_is_announced observed w w'
  (Hown : OwnsPaging (w_policy w) = true)
  (Hpages : Pages (w_policy w) observed = true)
  (Hquiet : firingOf w = false)
  (Hconfirm : 1 <= ConfirmEvaluations (w_policy w))
  (Hstreak : match w_row w with Some r => 0 <= ar_streak r | None => True end)
  (Hruns : evaluated_with observed (Z.to_nat (ConfirmEvaluations (w_policy w))) w w') :
  exists a l, w_outbox w' = w_outbox w ++ a :: l /\ sa_Firing a = true /\ sa_State a = observed.
Proof.
  assert (forall n w w', evaluated_with observed n w w' ->
    OwnsPaging (w_policy w) = true -> Pages (w_policy w) observed = true -> firingOf w = false ->
    ConfirmEvaluations (w_policy w) <= (observe (w_row w) observed).2 - 1 + Z.of_nat n -> (0 < n)%nat ->
    exists a l, w_outbox w' = w_outbox w ++ a :: l /\ sa_Firing a = true /\ sa_State a = observed) as Hgen.
  { clear. induction 1 as [w|n w i w1 w2 why Hobs Hrev Hroute Hev Hrest IH]; intros Hown Hpg Hf Hconf Hn; [lia|].
    destruct (Z.le_gt_cases (ConfirmEvaluations (w_policy w)) (observe (w_row w) observed).2) as [Hc|Hc].
    - destruct (confirmed_onset _ _ _ _ _ Hown Hpg Hf Hobs Hrev Hroute Hc Hev) as (a & Ha & Haf & Has).
      destruct (evaluated_outbox _ _ _ _ Hrest) as [l Hl]. exists a, l. rewrite Hl, Ha, <- app_assoc. done.
    - pose proof (evaluateOne_policy _ _ _ _ Hev) as Hp.
      destruct (evaluateOne_streak _ _ _ _ _ Hobs Hev) as (r & Hr & Hrc & Hrs).
      assert ((observe (w_row w1) observed).2 = (observe (w_row w) observed).2 + 1) as Hnext.
      { rewrite Hr. unfold observe at 1. rewrite Hrc, bool_decide_eq_true_2 by done. cbn. lia. }
      destruct (unconfirmed_quiet _ _ _ _ _ Hown Hf Hobs Hc Hev) as [Hf1 Ho1].
      destruct (IH ltac:(by rewrite Hp) ltac:(by rewrite Hp) Hf1) as (a & l & Ho & Ha); [rewrite Hp; lia|lia|].
      exists a, l. by rewrite Ho, Ho1. }
  apply (Hgen _ _ _ Hruns); try done; [|lia].
  assert (1 <= (observe (w_row w) observed).2) as H1.
  { unfold observe. destruct (w_row w) as [r|]; [|done]. case_bool_decide; cbn; lia. }
  lia.
Qed.

(** ** A concrete service, for the witnesses *)
Definition demoAlertPolicy : ServiceAlertPolicy :=
  {| OwnsPaging := true; PageOn := [AlertDown]; PageOnUnknown := false; ConfirmEvaluations := 2;
     RenotifySeconds := 0 |}.

Definition demoWorld : AlertWorld :=
  {| w_policy := demoAlertPolicy; w_generation := 1; w_row := None; w_episodes := []; w_incidents := [];
     w_outbox := [] |}.

Definition demoEval (at_ : Time) (s : ServiceAlertState) (id : string) : evalInput :=
  {| ei_asOf := at_; ei_observed := Some s; ei_revision := Some "rev1"; ei_route := ["ch1"];
     ei_lease := at_ + Minute; ei_episodeID := id; ei_incidentID := "inc" +:+ id |}.

Definition runEval (w : AlertWorld) (i : evalInput) : AlertWorld :=
  match evaluateOne w i with Ok (w', _) => w' | Err _ => w end.

Definition demoDown1 : AlertWorld := runEval demoWorld (demoEval 1 AlertDown "e1").
Definition demoDown2 : AlertWorld := runEval demoDown1 (demoEval 2 AlertDown "e1").

Lemma demo_down_reachable : alert_reachable demoDown2.
Proof.
  exists demoWorld. split; [done|].
  eapply rtc_l; [by apply (step_evaluate demoWorld (demoEval 1 AlertDown "e1") demoDown1 None)|].
  eapply rtc_once. by apply (step_evaluate demoDown1 (demoEval 2 AlertDown "e1") demoDown2 None).
Qed.

Example announcements_refine_the_log_witness :
  length (w_outbox demoDown2) = 1%nat /\
  exists cur, alert_log (w_outbox demoDown2) cur (emittedSeqOf demoDown2) /\ is_Some cur.
Proof.
  split; [reflexivity|].
  destruct (announcements_refine_the_log demoDown2 demo_down_reachable) as (cur & Hlog & Hf & _).
  exists cur. split; [exact Hlog|]. by apply Hf.
Defined.

Example incident_never_outlives_announcement_witness :
  exists e, List.filter isOpen (w_episodes demoDown2) = [e].
Proof. by apply (proj2 (incident_never_outlives_announcement demoDown2 demo_down_reachable)). Defined.

Example evaluation_announces_soundly_witness :
  exists a, w_outbox demoDown2 = w_outbox demoDown1 ++ [a] /\ sa_State a = AlertDown.
Proof.
  destruct (evaluation_announces_soundly demoDown1 (demoEval 2 AlertDown "e1") AlertDown demoDown2 None)
    as [(H & _)|(a & Ha & Hs & _)]; [reflexivity|reflexivity|reflexivity|discriminate H|by exists a].
Defined.

Example persistent_state_is_announced_witness :
  exists a l, w_outbox demoDown2 = w_outbox demoWorld ++ a :: l /\ sa_Firing a = true /\ sa_State a = AlertDown.
Proof.
  apply (persistent_state_is_announced AlertDown demoWorld demoDown2); [done..|].
  eapply (evaluated_more _ _ _ (demoEval 1 AlertDown "e1")); [done|by eexists|done|reflexivity|].
  eapply (evaluated_more _ _ _ (demoEval 2 AlertDown "e1")); [done|by eexists|done|reflexivity|constructor].
Defined.

(** Leaving a paged state for one that is not paged closes as [policy_changed], with no
    policy edit in between. *)
Example degraded_after_down_closes_as_policy_changed :
  let w := runEval (runEval demoDown2 (demoEval 3 AlertDegraded "e2")) (demoEval 4 AlertDegraded "e2") in
  w_policy w = demoAlertPolicy /\
  map sa_CloseReason (w_outbox w) = [None; Some ClosePolicyChanged].
Proof. by vm_compute. Qed.
