(* ===== verification/IncidentRefine.v ===== *)
(** * The incident half of service alerting

    ServiceAlert.v sees the incidents of a service as a list of identifiers, each open or not.
    Here that list is computed from the incident store, and the store's transactions are shown
    to do to it what the alerting model says: opening adds one only when none is open, and
    resolving leaves none open, for this service and no other. *)

From S2P Require Import Prelude GoFloat GoString OnCall ServiceAlert Outbox OutboxFacts Incidents IncidentFacts IncidentDelivery.

Section refine.
Context {P : Type} `{!Payload P, !IncidentPayload P}.
Implicit Types (db : IncidentDB P).

Definition autoOf (service : string) (i : Incident) : bool :=
  bool_decide (in_Source i = SourceAuto) && bool_decide (in_ServiceID i = service) && negb (bool_decide (service = "")).

Definition absIncident (r : IncidentRow) : AutoIncident :=
  {| inc_ID := in_ID (ir_incident r); inc_open := unresolved r |}.

Definition viewRow (service : string) (kv : string * IncidentRow) : option AutoIncident :=
  if autoOf service (ir_incident kv.2) then Some (absIncident kv.2) else None.

(** The automatic incidents of a service. *)
Definition autoIncidents (service : string) db : list AutoIncident :=
  omap (viewRow service) (map_to_list (db_incidents db)).

Lemma elem_of_autoIncidents service db a :
  a ∈ autoIncidents service db <->
  exists id r, db_incidents db !! id = Some r /\ autoOf service (ir_incident r) = true /\ a = absIncident r.
Proof.
  unfold autoIncidents. rewrite list_elem_of_omap. unfold viewRow. split.
  - intros ([id r] & Hin%elem_of_map_to_list & H). cbn in H. destruct (autoOf _ _) eqn:Ha; [|done].
    injection H as <-. by exists id, r.
  - intros (id & r & Hr & Ha & ->). exists (id, r). rewrite elem_of_map_to_list. cbn. by rewrite Ha.
Qed.

Lemma isOpenAutoOf_spec service r :
  isOpenAutoOf service r = unresolved r && autoOf service (ir_incident r).
Proof. done. Qed.

Lemma open_iff service db :
  existsb inc_open (autoIncidents service db) = bool_decide (is_Some (FindOpenAutoIncidentByService service db)).
Proof.
  apply eq_true_iff_eq. rewrite existsb_exists, bool_decide_eq_true. split.
  - intros (a & Hin & Ho). apply list_elem_of_In, elem_of_autoIncidents in Hin as (id & r & Hr & Ha & ->).
    destruct (FindOpenAutoIncidentByService service db) eqn:Hf; [by eexists|].
    pose proof (findOpenAuto_none _ _ Hf id r Hr) as Hn. rewrite isOpenAutoOf_spec, Ha in Hn. cbn in Ho. by rewrite Ho in Hn.
  - intros [i Hi]. destruct (findOpenAuto_spec _ _ _ Hi) as (id & r & Hr & Ho & _).
    rewrite isOpenAutoOf_spec in Ho. apply andb_prop in Ho as [Hu Ha].
    exists (absIncident r). split; [|done]. apply list_elem_of_In, elem_of_autoIncidents. by exists id, r.
Qed.

Lemma view_fresh service db db' id r :
  db_incidents db !! id = None -> db_incidents db' = <[id := r]> (db_incidents db) ->
  autoIncidents service db' ≡ₚ autoIncidents service db ++ (if autoOf service (ir_incident r) then [absIncident r] else []).
Proof.
  intros Hn Hi. unfold autoIncidents. rewrite Hi, map_to_list_insert by done. cbn [omap list_omap].
  unfold viewRow at 1. cbn [snd]. destruct (autoOf _ _); [by rewrite Permutation_app_comm|by rewrite app_nil_r].
Qed.

Lemma view_update service db db' id r r' :
  db_incidents db !! id = Some r -> db_incidents db' = <[id := r']> (db_incidents db) ->
  exists rest, autoIncidents service db ≡ₚ (if autoOf service (ir_incident r) then [absIncident r] else []) ++ rest /\
    autoIncidents service db' ≡ₚ (if autoOf service (ir_incident r') then [absIncident r'] else []) ++ rest /\
    (forall a, a ∈ rest -> exists k x, k <> id /\ db_incidents db !! k = Some x /\ autoOf service (ir_incident x) = true /\ a = absIncident x).
Proof.
  intros Hr Hi. exists (omap (viewRow service) (map_to_list (delete id (db_incidents db)))). split_and!.
  - unfold autoIncidents. rewrite <- (insert_delete_id (db_incidents db) id r Hr) at 1.
    rewrite map_to_list_insert by apply lookup_delete_eq. cbn [omap list_omap]. unfold viewRow at 1. cbn [snd].
    by destruct (autoOf _ _).
  - unfold autoIncidents. rewrite Hi, <- insert_delete_eq.
    rewrite map_to_list_insert by apply lookup_delete_eq. cbn [omap list_omap]. unfold viewRow at 1. cbn [snd].
    by destruct (autoOf _ _).
  - intros a ([k x] & Hin%elem_of_map_to_list & H)%list_elem_of_omap. apply lookup_delete_Some in Hin as [Hne Hx].
    unfold viewRow in H. cbn in H. destruct (autoOf _ _) eqn:Ha; [|done]. injection H as <-. by exists k, x.
Qed.

(** the incident store implements the incidents of the alerting model: opening a service's incident
    adds one exactly when none is open and otherwise changes nothing, and the incidents of every
    other service are untouched. *)
Theorem opening_refines_alerting service project title body rev ids txNow db db' i created other :
  OpenServiceIncidentTx service project title body rev ids txNow db = Ok (db', (i, created)) -> service <> "" ->
  (ServiceAlert.OpenServiceIncidentTx (autoIncidents service db) (in_ID i)).2 = created /\
  autoIncidents service db' ≡ₚ (ServiceAlert.OpenServiceIncidentTx (autoIncidents service db) (in_ID i)).1 /\
  (other <> service -> autoIncidents other db' ≡ₚ autoIncidents other db).
Proof.
  intros H Hs. unfold ServiceAlert.OpenServiceIncidentTx. rewrite open_iff.
  apply OpenServiceIncidentTx_writes in H as [(-> & -> & Hf)|(-> & Hf & -> & _ & Hlw)]; rewrite Hf.
  - rewrite bool_decide_true by by eexists. done.
  - rewrite bool_decide_false by (by intros [? ?]). split; [done|].
    pose proof (view_fresh service _ _ _ _ (lw_old _ _ _ _ _ _ _ _ _ _ Hlw) (lw_incidents _ _ _ _ _ _ _ _ _ _ Hlw)) as H1.
    pose proof (view_fresh other _ _ _ _ (lw_old _ _ _ _ _ _ _ _ _ _ Hlw) (lw_incidents _ _ _ _ _ _ _ _ _ _ Hlw)) as H2.
    unfold autoOf in H1, H2. cbn in H1, H2. rewrite !bool_decide_true, (bool_decide_false (service = "")) in H1 by done.
    split; [exact H1|]. intros Hne. rewrite (bool_decide_false (service = other)) in H2 by congruence.
    cbn in H2. by rewrite app_nil_r in H2.
Qed.

(** resolving a service's incident leaves none of them open and reports whether one was, as the
    alerting model says, and the incidents of every other service are untouched. *)
Theorem resolving_refines_alerting service body upID evID asOf db db' b clock other :
  store_inv db clock ->
  resolveServiceIncidentTx service body upID evID asOf db = Ok (db', b) ->
  b = existsb inc_open (autoIncidents service db) /\
  autoIncidents service db' ≡ₚ ServiceAlert.resolveServiceIncidentTx (autoIncidents service db) /\
  (other <> service -> autoIncidents other db' ≡ₚ autoIncidents other db).
Proof.
  intros Hinv H. rewrite open_iff.
  assert (forall l, (forall a, a ∈ l -> inc_open a = false) -> ServiceAlert.resolveServiceIncidentTx l = l) as Hid.
  { intros l. unfold ServiceAlert.resolveServiceIncidentTx. induction l as [|[k o] l IH]; intros Hl; [done|]. cbn.
    rewrite IH by set_solver. by rewrite <- (Hl {| inc_ID := k; inc_open := o |}) by set_solver. }
  apply resolveServiceIncidentTx_writes in H as [(-> & -> & Hf)|(-> & r & Ho & Hlw)]; [..|by apply (si_key _ _ Hinv)].
  - rewrite Hf. rewrite bool_decide_false by (by intros [? ?]). split; [done|]. rewrite Hid; [done|].
    intros a (id & r & Hr & Ha & ->)%elem_of_autoIncidents. cbn.
    pose proof (findOpenAuto_none _ _ Hf id r Hr) as Hn. rewrite isOpenAutoOf_spec, Ha in Hn. by rewrite andb_true_r in Hn.
  - pose proof (lw_old _ _ _ _ _ _ _ _ _ _ Hlw) as Hr. pose proof (lw_incidents _ _ _ _ _ _ _ _ _ _ Hlw) as Hi.
    rewrite isOpenAutoOf_spec in Ho. apply andb_prop in Ho as [Hu Ha]. cbn in Hr.
    split; [|split].
    + destruct (FindOpenAutoIncidentByService service db) eqn:Hf; [by rewrite bool_decide_true by by eexists|].
      pose proof (findOpenAuto_none _ _ Hf _ r Hr) as Hn. rewrite isOpenAutoOf_spec in Hn. by rewrite Hu, Ha in Hn.
    + destruct (view_update service _ _ _ _ _ Hr Hi) as (rest & H1 & H2 & H3).
      rewrite Ha in H1. change (autoOf service (resolvedNow (ir_incident r) asOf)) with (autoOf service (ir_incident r)) in H2.
      cbn [ir_incident] in H2. change (autoOf service (resolvedNow (ir_incident r) asOf)) with (autoOf service (ir_incident r)) in H2.
      rewrite Ha in H2. rewrite H2. unfold ServiceAlert.resolveServiceIncidentTx. rewrite H1, map_app. cbn [map].
      apply Permutation_app; [done|].
      change (map _ rest) with (ServiceAlert.resolveServiceIncidentTx rest). rewrite Hid; [done|].
      intros a Hin. destruct (H3 a Hin) as (k & x & Hne & Hx & Hax & ->). cbn.
      destruct (unresolved x) eqn:Hux; [|done]. exfalso. apply Hne.
      apply (si_open _ _ Hinv k _ x r Hx Hr Hux Hu). left. unfold autoOf in Ha, Hax. bool_facts.
      repeat match goal with Hb : bool_decide _ = true |- _ => apply bool_decide_eq_true in Hb
             | Hb : bool_decide _ = false |- _ => apply bool_decide_eq_false in Hb end.
      split_and!; [done|done|right]. split; congruence.
    + intros Hne. destruct (view_update other _ _ _ _ _ Hr Hi) as (rest & H1 & H2 & _).
      assert (autoOf other (ir_incident r) = false) as Hao.
      { unfold autoOf in Ha |- *. bool_facts.
        repeat match goal with Hb : bool_decide _ = true |- _ => apply bool_decide_eq_true in Hb end.
        rewrite (bool_decide_false (in_ServiceID (ir_incident r) = other)) by congruence. by rewrite andb_false_r. }
      rewrite Hao in H1. cbn [ir_incident] in H2.
      change (autoOf other (resolvedNow (ir_incident r) asOf)) with (autoOf other (ir_incident r)) in H2.
      rewrite Hao in H2. by rewrite H1, H2.
Qed.
End refine.

(** ** A concrete outage *)
Module Outage.
Import IncidentDelivery.Run.

Definition opening := OpenServiceIncidentTx "svc" "p" "svc is down" "opened" None ids 100 db0.
Definition opened : IncidentDB DemoPayload * (Incident * bool) := okOr opening (db0, (outage, false)).
Definition world : DeliveryWorld DemoPayload := committed w0 opened.1 100 ["e1"; "c1"].
Definition closing := resolveServiceIncidentTx "svc" "recovered" "u9" "e9" 500 (dw_db world).
Definition closed : IncidentDB DemoPayload * bool := okOr closing (db0, false).

Lemma opening_ok : opening = Ok (opened.1, (opened.2.1, opened.2.2)).
Proof.
  transitivity (Ok (E := IncidentError) opened); [apply okOr_ok; vm_compute; reflexivity|].
  by rewrite <- !surjective_pairing.
Qed.

Lemma closing_ok : closing = Ok (closed.1, closed.2).
Proof.
  transitivity (Ok (E := IncidentError) closed); [apply okOr_ok; vm_compute; reflexivity|].
  by rewrite <- surjective_pairing.
Qed.

Lemma world_reachable : sys_reachable delivery_system world.
Proof.
  exists w0. split; [done|]. apply rtc_once.
  eapply (ds_open w0 "svc" "p" "svc is down" "opened" None ids 100 100 opened.1 opened.2); [|cbn; lia..|].
  - rewrite (surjective_pairing opened.2). apply opening_ok.
  - intros x _. apply not_elem_of_empty.
Qed.
End Outage.

Lemma opening_refines_alerting_witness :
  Outage.opened.2.2 = true /\
  autoIncidents "svc" Outage.opened.1 ≡ₚ
    (ServiceAlert.OpenServiceIncidentTx (autoIncidents "svc" Run.db0) (in_ID Outage.opened.2.1)).1.
Proof.
  split; [vm_compute; reflexivity|].
  refine (proj1 (proj2 (opening_refines_alerting "svc" "p" "svc is down" "opened" None Run.ids 100 Run.db0
    Outage.opened.1 Outage.opened.2.1 Outage.opened.2.2 "other" Outage.opening_ok _))).
  done.
Defined.

Lemma resolving_refines_alerting_witness :
  Outage.closed.2 = true /\ Outage.closed.2 = existsb inc_open (autoIncidents "svc" (dw_db Outage.world)).
Proof.
  split; [vm_compute; reflexivity|].
  refine (proj1 (resolving_refines_alerting "svc" "recovered" "u9" "e9" 500 (dw_db Outage.world)
    Outage.closed.1 Outage.closed.2 (dw_clock Outage.world) "other" _ Outage.closing_ok)).
  exact (proj1 (told_reachable _ Outage.world_reachable)).
Defined.
