(* ===== verification/Delegation.v ===== *)
(** * Alert delegation
    ([internal/store/servicealertstate.go], [internal/store/alertdelegation.go])

    Which service answers for a monitor: every clause of the two arming conjunctions as a
    function of the rows of one snapshot, the two verdict functions with their reasons, the
    badge read [ServiceAlertingState] and the delivery-time lookup [ActiveDelegation].  A
    column of a missing [LEFT JOIN] row is NULL, and every clause that could be NULL is
    coalesced to false. *)

From S2P Require Import Prelude GoFloat Sla GoString OnCall ServiceAlert GateDecision.

(** ** Reasons *)
Definition AlertReasonNoOwningService := "no_owning_service".
Definition AlertReasonNotOwned := "not_owned".
Definition AlertReasonPolicyPagesNothing := "policy_pages_nothing".
Definition AlertReasonStateNotPageable := "state_not_pageable".
Definition AlertReasonOnsetPending := "onset_pending".
Definition AlertReasonNeverEvaluated := "never_evaluated".
Definition AlertReasonGenerationChanged := "generation_changed".
Definition AlertReasonRevisionChanged := "revision_changed".
Definition AlertReasonEvaluationError := "evaluation_error".
Definition AlertReasonStaleLease := "stale_lease".
Definition AlertReasonNoEnabledTarget := "no_enabled_target".
Definition AlertReasonHeld := "held".
Definition AlertReasonRuleUnevaluated := "rule_unevaluated".
Definition AlertReasonUnroutable := "unroutable".
Definition AlertReasonLatchInconsistent := "latch_inconsistent".
Definition AlertReasonOnsetUndelivered := "onset_undelivered".

(** ** Rows *)

(** [service_burn_alert_state]. *)
Record BurnLatchRow := {
  bl_target : string;
  bl_rule : string;
  bl_firing : bool;
  bl_verdict : BurnVerdict;
  bl_reason : ReportReason;
  bl_target_generation : Z;
  bl_config_generation : Z;
  bl_emitted_seq : Z;
  bl_emitted_at : option Time;
  bl_delivered_seq : Z;
  bl_undelivered_seq : Z;
  bl_evaluated_at : Time;
  bl_lease_until : Time;
  bl_last_error : option string;
}.

(** The columns of [sla_targets] the arming reads. *)
Record BurnTarget := {
  bt_id : string;
  bt_enabled : bool;
  bt_rules : list BurnRule;
  bt_generation : Z;
}.

(** [service_definition_revisions] with the SLI members of each. *)
Record DeclaredRevision := {
  dr_id : string;
  dr_revision : Z;
  dr_effective : bool;
  dr_effective_at : Time;
  dr_sli : list string;
}.

(** One service with the rows joined to it; [sv_schedule] is the participants of its
    schedule, when it names one of its project. *)
Record CoverageService := {
  sv_ID : string;
  sv_ProjectID : string;
  sv_Slug : string;
  sv_Name : string;
  sv_policy : ServiceAlertPolicy;
  sv_generation : Z;
  sv_state : option AlertRow;
  sv_schedule : option (list string);
  sv_revisions : list DeclaredRevision;
  sv_targets : list BurnTarget;
  sv_latches : list BurnLatchRow;
}.

Section coverage.
Context (now : Time) (channels : list NotificationChannel).
Implicit Types (s : CoverageService) (t : BurnTarget) (b : BurnLatchRow).

(** ** Clauses *)

(** [effectiveRevisionSQL]. *)
Definition declared_after (a b : DeclaredRevision) : bool :=
  (dr_effective_at b <? dr_effective_at a)
  || (dr_effective_at a =? dr_effective_at b) && (dr_revision b <? dr_revision a).

Definition effectiveRevision s : option DeclaredRevision :=
  maxBy declared_after (List.filter (fun r => dr_effective r && (dr_effective_at r <=? now)) (sv_revisions s)).

Definition policyPages s : bool :=
  negb (Nat.eqb (length (PageOn (sv_policy s))) 0) || PageOnUnknown (sv_policy s).

(** A clause on the state row; false without one. *)
Definition onRow s (f : AlertRow -> bool) : bool :=
  match sv_state s with Some r => f r | None => false end.

Definition nothingToAnnounce (r : AlertRow) : bool :=
  bool_decide (ar_observed r = AlertHealthy) || bool_decide (ar_observed r = AlertExcluded).

Definition livePageableState s : bool :=
  policyPages s && onRow s (fun r =>
    nothingToAnnounce r
    || existsb (fun p => bool_decide (p = ar_observed r)) (PageOn (sv_policy s))
    || bool_decide (ar_observed r = AlertUnknown) && PageOnUnknown (sv_policy s)).

Definition liveOnsetCommitted s : bool :=
  onRow s (fun r => nothingToAnnounce r
    || ar_firing r && bool_decide (ar_emitted r = Some (ar_observed r)) && (0 <? ar_emittedSeq r)).

Definition liveOnsetDelivered s : bool :=
  onRow s (fun r => nothingToAnnounce r || (ar_emittedSeq r <=? ar_deliveredSeq r)).

Definition liveChannelOf s (c : NotificationChannel) : bool :=
  bool_decide (nc_ProjectID c = sv_ProjectID s) && nc_Enabled c.

(** [routablePredicate]. *)
Definition routable s : bool :=
  match sv_schedule s with
  | Some participants => existsb (fun c => liveChannelOf s c && bool_decide (nc_ID c ∈ participants)) channels
  | None => false
  end
  || existsb (liveChannelOf s) channels.

(** [burnRuleCoversSQL]. *)
Definition burnRuleCovers s t b : bool :=
  (bool_decide (bl_verdict b = BurnClear) && negb (bl_firing b)
   || bool_decide (bl_verdict b = BurnFire) && bl_firing b && (0 <? bl_emitted_seq b)
      && (bl_emitted_seq b <=? bl_delivered_seq b))
  && (bl_config_generation b =? sv_generation s)
  && (bl_target_generation b =? bt_generation t)
  && bool_decide (bl_last_error b = None)
  && (now <? bl_lease_until b).

Definition latchesOf s t : list BurnLatchRow :=
  List.filter (fun b => bool_decide (bl_target b = bt_id t)) (sv_latches s).

Definition enabledTargets s : list BurnTarget := List.filter bt_enabled (sv_targets s).

Definition hasTarget s : bool := existsb (fun t => negb (Nat.eqb (length (bt_rules t)) 0)) (enabledTargets s).

Definition burnReplacementExists s : bool :=
  existsb (fun t => existsb (burnRuleCovers s t) (latchesOf s t)) (enabledTargets s).

(** The left join yields one row without a latch when the target has none. *)
Definition burnNothingBlind s : bool :=
  forallb (fun t => negb (Nat.eqb (length (latchesOf s t)) 0) && forallb (burnRuleCovers s t) (latchesOf s t))
          (enabledTargets s).

Definition burnEveryRuleLatched s : bool :=
  forallb (fun t => Nat.eqb (length (latchesOf s t)) (length (bt_rules t))) (enabledTargets s).

(** [burnEligibleTargetSQL]: some latch of an enabled target. *)
Definition someEligible s (f : BurnTarget -> BurnLatchRow -> bool) : bool :=
  existsb (fun t => existsb (f t) (latchesOf s t)) (enabledTargets s).

Definition fireUnannounced b : bool :=
  bool_decide (bl_verdict b = BurnFire) && negb (bl_firing b && (0 <? bl_emitted_seq b)).
Definition fireUnheard b : bool :=
  bool_decide (bl_verdict b = BurnFire) && bl_firing b && (0 <? bl_emitted_seq b)
  && (bl_delivered_seq b <? bl_emitted_seq b).
Definition mismatched s t b : bool :=
  negb (bl_config_generation b =? sv_generation s) || negb (bl_target_generation b =? bt_generation t).

(** [string_agg(DISTINCT last_error, '; ')], the empty string when there is none. *)
Definition burnErrors s : list string :=
  merge_sort String.le (remove_dups (flat_map (fun t => omap bl_last_error (latchesOf s t)) (enabledTargets s))).
Fixpoint joinWith (sep : string) (l : list string) : string :=
  match l with [] => "" | [x] => x | x :: rest => x +:+ sep +:+ joinWith sep rest end.

(** ** Verdicts *)
Record serviceCoverageClauses := {
  cl_ownsPaging : bool;
  cl_policyPages : bool;
  cl_pageableState : bool;
  cl_onsetCommitted : bool;
  cl_onsetDelivered : bool;
  cl_routable : bool;
  cl_evaluated : bool;
  cl_genOK : bool;
  cl_revOK : bool;
  cl_liveErr : string;
  cl_fresh : bool;
  cl_hasTarget : bool;
  cl_replacement : bool;
  cl_nothingBlind : bool;
  cl_allLatched : bool;
  cl_burnFresh : bool;
  cl_burnOnsetPending : bool;
  cl_burnOnsetUndelivered : bool;
  cl_anyHold : bool;
  cl_anyGenMismatch : bool;
  cl_burnErr : string;
}.

(** [serviceCoverageClausesSQL]. *)
Definition clausesOf s : serviceCoverageClauses := {|
  cl_ownsPaging := OwnsPaging (sv_policy s);
  cl_policyPages := policyPages s;
  cl_pageableState := livePageableState s;
  cl_onsetCommitted := liveOnsetCommitted s;
  cl_onsetDelivered := liveOnsetDelivered s;
  cl_routable := routable s;
  cl_evaluated := bool_decide (is_Some (sv_state s));
  cl_genOK := onRow s (fun r => ar_generation r =? sv_generation s);
  cl_revOK := onRow s (fun r => bool_decide (is_Some (ar_revision r))
                                && bool_decide (ar_revision r = dr_id <$> effectiveRevision s));
  cl_liveErr := match sv_state s with Some r => default "" (ar_lastError r) | None => "" end;
  cl_fresh := onRow s (fun r => now <? ar_leaseUntil r);
  cl_hasTarget := hasTarget s;
  cl_replacement := burnReplacementExists s;
  cl_nothingBlind := burnNothingBlind s;
  cl_allLatched := burnEveryRuleLatched s;
  cl_burnFresh := negb (someEligible s (fun _ b => bl_lease_until b <=? now));
  cl_burnOnsetPending := someEligible s (fun _ b => fireUnannounced b);
  cl_burnOnsetUndelivered := someEligible s (fun _ b => fireUnheard b);
  cl_anyHold := someEligible s (fun _ b => bool_decide (bl_verdict b = BurnHold));
  cl_anyGenMismatch := someEligible s (mismatched s);
  cl_burnErr := joinWith "; " (burnErrors s);
|}.

Definition liveVerdict (c : serviceCoverageClauses) : bool * string :=
  if negb (cl_ownsPaging c) then (false, AlertReasonNotOwned)
  else if negb (cl_evaluated c) then (false, AlertReasonNeverEvaluated)
  else if negb (cl_policyPages c) then (false, AlertReasonPolicyPagesNothing)
  else if negb (cl_pageableState c) then (false, AlertReasonStateNotPageable)
  else if negb (cl_genOK c) then (false, AlertReasonGenerationChanged)
  else if negb (cl_revOK c) then (false, AlertReasonRevisionChanged)
  else if negb (bool_decide (cl_liveErr c = "")) then (false, AlertReasonEvaluationError)
  else if negb (cl_fresh c) then (false, AlertReasonStaleLease)
  else if negb (cl_routable c) then (false, AlertReasonUnroutable)
  else if negb (cl_onsetCommitted c) then (false, AlertReasonOnsetPending)
  else if negb (cl_onsetDelivered c) then (false, AlertReasonOnsetUndelivered)
  else (true, "").

(** The inner switch of [burnVerdict]: why the gate refused. *)
Definition burnRefusal (c : serviceCoverageClauses) : string :=
  if cl_anyHold c then AlertReasonHeld
  else if cl_anyGenMismatch c then AlertReasonGenerationChanged
  else if negb (bool_decide (cl_burnErr c = "")) then AlertReasonEvaluationError
  else if negb (cl_burnFresh c) then AlertReasonStaleLease
  else if cl_burnOnsetPending c && negb (cl_routable c) then AlertReasonUnroutable
  else if cl_burnOnsetPending c then AlertReasonOnsetPending
  else if cl_burnOnsetUndelivered c then AlertReasonOnsetUndelivered
  else AlertReasonLatchInconsistent.

Definition burnVerdict (c : serviceCoverageClauses) : bool * string :=
  if negb (cl_ownsPaging c) then (false, AlertReasonNotOwned)
  else if negb (cl_hasTarget c) then (false, AlertReasonNoEnabledTarget)
  else if negb (cl_allLatched c) then (false, AlertReasonRuleUnevaluated)
  else if negb (cl_replacement c) || negb (cl_nothingBlind c) then (false, burnRefusal c)
  else if negb (cl_routable c) then (false, AlertReasonUnroutable)
  else (true, "").

(** ** The badge *)
Definition minTime (l : list Time) : option Time :=
  match l with [] => None | t :: rest => Some (foldl Z.min t rest) end.

Definition eligibleLatches s : list BurnLatchRow := flat_map (latchesOf s) (enabledTargets s).

Definition serviceAlertingStateOn s : ServiceAlertingState :=
  let c := clausesOf s in
  let live := liveVerdict c in
  let burn := burnVerdict c in
  {| as_Live := {| ss_Armed := live.1; ss_Reason := live.2;
                   ss_EvaluatedAt := ar_evaluatedAt <$> sv_state s; ss_LeaseUntil := ar_leaseUntil <$> sv_state s;
                   ss_LastError := cl_liveErr c |};
     as_Burn := {| ss_Armed := burn.1; ss_Reason := burn.2;
                   ss_EvaluatedAt := minTime (map bl_evaluated_at (eligibleLatches s));
                   ss_LeaseUntil := minTime (map bl_lease_until (eligibleLatches s));
                   ss_LastError := cl_burnErr c |} |}.

(** ** The delivery-time lookup *)
Inductive DelegationSignal := DelegationLive | DelegationBurn.
#[export] Instance delegationSignal_eq : EqDecision DelegationSignal.
Proof. solve_decision. Defined.

Record DelegationOwner := { do_ServiceID : string; do_Slug : string; do_Name : string }.
Record DelegationVerdict := { dv_Owners : list DelegationOwner; dv_FailOpenReason : string }.

Definition Suppress (v : DelegationVerdict) : bool := negb (Nat.eqb (length (dv_Owners v)) 0).

(** The order of the ranks. *)
Definition rankedReasons : list string :=
  [AlertReasonNoOwningService; AlertReasonNotOwned; AlertReasonNeverEvaluated; AlertReasonNoEnabledTarget;
   AlertReasonPolicyPagesNothing; AlertReasonStateNotPageable; AlertReasonRuleUnevaluated; AlertReasonHeld;
   AlertReasonGenerationChanged; AlertReasonRevisionChanged; AlertReasonEvaluationError; AlertReasonStaleLease;
   AlertReasonUnroutable; AlertReasonOnsetPending; AlertReasonOnsetUndelivered; AlertReasonLatchInconsistent].

Fixpoint indexIn (i : Z) (l : list string) (r : string) : Z :=
  match l with [] => 0 | x :: rest => if bool_decide (x = r) then i else indexIn (i + 1) rest r end.

Definition coverageReasonRank (reason : string) : Z := indexIn 0 rankedReasons reason.

(** [effectiveSLIClause]. *)
Definition isEffectiveSLI (monitorID : string) s : bool :=
  match effectiveRevision s with Some r => bool_decide (monitorID ∈ dr_sli r) | None => false end.

Definition slug_le s s' : Prop := String.le (sv_Slug s) (sv_Slug s').
#[local] Instance slug_le_dec s s' : Decision (slug_le s s').
Proof. unfold slug_le. apply _. Defined.

(** [candidateCoverageSQL]. *)
Definition candidates (services : list CoverageService) (monitorID projectID : string) : list CoverageService :=
  merge_sort slug_le
    (List.filter (fun s => bool_decide (sv_ProjectID s = projectID) && isEffectiveSLI monitorID s) services).

Definition verdictFor (signal : DelegationSignal) s : bool * string :=
  match signal with DelegationLive => liveVerdict (clausesOf s) | DelegationBurn => burnVerdict (clausesOf s) end.

Definition ownerOf s : DelegationOwner := {| do_ServiceID := sv_ID s; do_Slug := sv_Slug s; do_Name := sv_Name s |}.

(** One row of the loop: the owners, the reason and its rank so far. *)
Definition considerCandidate (signal : DelegationSignal) (acc : list DelegationOwner * string * Z) s :
    list DelegationOwner * string * Z :=
  let '(owners, reason, best) := acc in
  let '(armed, why) := verdictFor signal s in
  if armed then (owners ++ [ownerOf s], reason, best)
  else if best <? coverageReasonRank why then (owners, why, coverageReasonRank why)
  else (owners, reason, best).

Definition ActiveDelegation (services : list CoverageService) (monitorID projectID : string)
    (signal : DelegationSignal) : DelegationVerdict :=
  let '(owners, reason, _) :=
    foldl (considerCandidate signal) ([], "", -1) (candidates services monitorID projectID) in
  if negb (Nat.eqb (length owners) 0) then {| dv_Owners := owners; dv_FailOpenReason := "" |}
  else {| dv_Owners := [];
          dv_FailOpenReason := if bool_decide (reason = "") then AlertReasonNoOwningService else reason |}.

Definition MonitorDelegation (services : list CoverageService) (monitorID projectID : string) :
    DelegationVerdict * DelegationVerdict :=
  (ActiveDelegation services monitorID projectID DelegationLive,
   ActiveDelegation services monitorID projectID DelegationBurn).
End coverage.
