(* ===== verification/DelegationFacts.v ===== *)
(** * Facts on delegation

    The arming conjunctions said in terms of the rows, what a refusal names, and that the
    badge, the delivery-time lookup and the router agree. *)

From S2P Require Import Prelude GoFloat Sla GoString OnCall ServiceAlert GateDecision Delegation.

(** One step of a Go [switch]: the first case holds, or none of its effects. *)
Ltac next_case H := match type of H with
  | (if negb ?c then _ else _) = _ => destruct c eqn:?; cbn [negb] in H; [|done]
  | (if ?c then _ else _) = _ => destruct c eqn:?; [done|]
  end.

Section facts.
Context (now : Time) (channels : list NotificationChannel).
Implicit Types (s : CoverageService) (r : AlertRow) (t : BurnTarget) (b : BurnLatchRow).

Notation clauses := (clausesOf now channels).

(** ** The live conjunction *)
Definition announced (p : ServiceAlertPolicy) r : Prop :=
  Pages p (ar_observed r) = true /\ ar_firing r = true /\ ar_emitted r = Some (ar_observed r) /\
  0 < ar_emittedSeq r <= ar_deliveredSeq r.

(** What the state row of a service that covers its members says. *)
Record live_covers s r : Prop := {
  lc_owns : OwnsPaging (sv_policy s) = true;
  lc_pages : policyPages s = true;
  lc_generation : ar_generation r = sv_generation s;
  lc_revision : exists rev, effectiveRevision now s = Some rev /\ ar_revision r = Some (dr_id rev);
  lc_clean : default "" (ar_lastError r) = "";
  lc_lease : now < ar_leaseUntil r;
  lc_routable : routable channels s = true;
  lc_told : nothingToAnnounce r = true \/ announced (sv_policy s) r;
}.

Lemma onRow_true s f : onRow s f = true <-> exists r, sv_state s = Some r /\ f r = true.
Proof. unfold onRow. destruct (sv_state s); naive_solver. Qed.

Lemma pages_listed p st :
  is_ok (ServiceAlertPolicy_Validate p) = true -> st <> AlertHealthy -> st <> AlertExcluded ->
  (existsb (fun q => bool_decide (q = st)) (PageOn p) || bool_decide (st = AlertUnknown) && PageOnUnknown p)
  = Pages p st.
Proof.
  intros Hv Hh Hx.
  assert (Forall (fun q => q = AlertDown \/ q = AlertDegraded) (PageOn p)) as Hall.
  { unfold ServiceAlertPolicy_Validate in Hv. revert Hv.
    destruct (refuse_if _ _); [|done]. cbn [rbind]. destruct (refuse_if _ _); [|done]. cbn [rbind].
    induction (PageOn p) as [|q l IH]; intros Hv; [constructor|].
    destruct q; cbn in Hv; try done; constructor; auto. }
  destruct st; try done; cbn [Pages];
    [rewrite bool_decide_eq_false_2, andb_false_l, orb_false_r by done; done..| |].
  - rewrite bool_decide_eq_true_2, andb_true_l by done.
    assert (existsb (fun q => bool_decide (q = AlertUnknown)) (PageOn p) = false) as ->; [|done].
    clear Hv. induction Hall as [|q l Hq _ IH]; [done|]. cbn. rewrite IH, orb_false_r.
    apply bool_decide_eq_false. naive_solver.
  - rewrite bool_decide_eq_false_2, andb_false_l, orb_false_r by done. done.
Qed.

Lemma live_armed_spec s :
  (liveVerdict (clauses s)).1 = true <->
  exists r, sv_state s = Some r /\
    (cl_ownsPaging (clauses s) && cl_policyPages (clauses s) && cl_pageableState (clauses s) && cl_genOK (clauses s)
     && cl_revOK (clauses s) && bool_decide (cl_liveErr (clauses s) = "") && cl_fresh (clauses s)
     && cl_routable (clauses s) && cl_onsetCommitted (clauses s) && cl_onsetDelivered (clauses s)) = true.
Proof.
  unfold liveVerdict.
  destruct (cl_ownsPaging _) eqn:E1; cbn [negb]; [|naive_solver].
  destruct (cl_evaluated _) eqn:E2; cbn [negb].
  2:{ split; [done|]. intros (r & Hr & _). cbn in E2. rewrite Hr in E2. by apply bool_decide_eq_false in E2 as []. }
  assert (exists r, sv_state s = Some r) as [r Hr].
  { cbn in E2. apply bool_decide_eq_true in E2. naive_solver. }
  repeat (let c := match goal with |- context [if negb ?c then _ else _] => c end in
          destruct c eqn:?; cbn [negb]; [|split; [done|intros (? & ? & Hc); rewrite ?andb_false_r in Hc; cbn in Hc;
                                                  rewrite ?andb_false_r in Hc; done]]).
  split; [|done]. intros _. exists r. done.
Qed.

(** The verdict is the conjunction of the rows' facts. *)
Lemma live_armed_iff s :
  is_ok (ServiceAlertPolicy_Validate (sv_policy s)) = true ->
  (liveVerdict (clauses s)).1 = true <-> exists r, sv_state s = Some r /\ live_covers s r.
Proof.
  intros Hv. rewrite live_armed_spec. split; intros (r & Hr & H); exists r; (split; [done|]).
  - cbn in H. unfold livePageableState, liveOnsetCommitted, liveOnsetDelivered, onRow in H. rewrite Hr in H.
    bool_facts. split; try done.
    + match goal with H : bool_decide (ar_revision r = _) = true |- _ => apply bool_decide_eq_true in H; rename H into Hrev end.
      match goal with H : bool_decide (is_Some (ar_revision r)) = true |- _ => apply bool_decide_eq_true in H end.
      destruct (effectiveRevision now s) as [rev|] eqn:Er; cbn in Hrev; [by exists rev|].
      rewrite Hrev in *. by destruct H as [? ?].
    + by eapply bool_decide_eq_true_1.
    + destruct (nothingToAnnounce r) eqn:En; [by left|right]. cbn [orb] in *. bool_facts.
      unfold announced. rewrite <- (pages_listed (sv_policy s) (ar_observed r)) by
        (done || (intros Hq; unfold nothingToAnnounce in En; rewrite Hq in En; done)).
      split; [by destruct (existsb _ _); [done|]|].
      match goal with H : bool_decide (ar_emitted r = _) = true |- _ => apply bool_decide_eq_true in H end.
      split_and!; try done.
  - destruct H as [Ho Hp Hg (rev & Hrev & Hrr) Hc Hl Hro Ht].
    cbn. unfold livePageableState, liveOnsetCommitted, liveOnsetDelivered, onRow. rewrite Hr, Ho, Hp, Hro, Hrev, Hrr. cbn.
    rewrite Hg, Z.eqb_refl, Hc. cbn [andb].
    rewrite (bool_decide_eq_true_2 (Some (dr_id rev) = Some (dr_id rev))) by done. cbn [andb].
    apply Z.ltb_lt in Hl as ->.
    destruct (nothingToAnnounce r) eqn:En; cbn [orb andb]; [done|].
    destruct Ht as [?|(Hpg & Hf & He & H1 & H2)]; [done|].
    rewrite (pages_listed (sv_policy s) (ar_observed r)), Hpg, Hf, He by
      (done || (intros Hq; unfold nothingToAnnounce in En; rewrite Hq in En; done)).
    rewrite (bool_decide_eq_true_2 (Some _ = Some _)) by done. cbn [andb].
    apply Z.ltb_lt in H1 as ->. apply Z.leb_le in H2 as ->. done.
Qed.

(** ** The burn conjunction *)
Definition rule_announces b : Prop :=
  bl_verdict b = BurnClear /\ bl_firing b = false \/
  bl_verdict b = BurnFire /\ bl_firing b = true /\ 0 < bl_emitted_seq b <= bl_delivered_seq b.

Record rule_covers s t b : Prop := {
  rc_speaks : rule_announces b;
  rc_config : bl_config_generation b = sv_generation s;
  rc_target : bl_target_generation b = bt_generation t;
  rc_clean : bl_last_error b = None;
  rc_lease : now < bl_lease_until b;
}.

Lemma burnRuleCovers_spec s t b : burnRuleCovers now s t b = true <-> rule_covers s t b.
Proof.
  unfold burnRuleCovers. rewrite !andb_true_iff, !orb_true_iff, !andb_true_iff, negb_true_iff, !bool_decide_eq_true.
  rewrite !Z.eqb_eq, !Z.ltb_lt, Z.leb_le. split.
  - intros [[[[H1 H2] H3] H4] H5]. split; try done. unfold rule_announces. naive_solver lia.
  - intros [H1 H2 H3 H4 H5]. unfold rule_announces in H1. naive_solver lia.
Qed.

Lemma elem_of_enabled s t : t ∈ enabledTargets s <-> t ∈ sv_targets s /\ bt_enabled t = true.
Proof. apply elem_of_filter_b. Qed.

Lemma someEligible_true s f :
  someEligible s f = true <->
  exists t b, t ∈ enabledTargets s /\ b ∈ latchesOf s t /\ f t b = true.
Proof.
  unfold someEligible. rewrite existsb_elem. setoid_rewrite existsb_elem. naive_solver.
Qed.

Definition burn_covers s : Prop :=
  OwnsPaging (sv_policy s) = true /\ routable channels s = true /\ hasTarget s = true /\
  forall t, t ∈ enabledTargets s ->
    bt_rules t <> [] /\ length (latchesOf s t) = length (bt_rules t) /\
    forall b, b ∈ latchesOf s t -> rule_covers s t b.

Lemma nothingBlind_spec s :
  burnNothingBlind now s = true <->
  forall t, t ∈ enabledTargets s ->
    latchesOf s t <> [] /\ forall b, b ∈ latchesOf s t -> rule_covers s t b.
Proof.
  unfold burnNothingBlind. rewrite forallb_elem. setoid_rewrite andb_true_iff. setoid_rewrite forallb_elem.
  setoid_rewrite burnRuleCovers_spec. setoid_rewrite negb_true_iff. setoid_rewrite Nat.eqb_neq.
  split; intros H t Ht; destruct (H t Ht) as [H1 H2]; (split; [|done]).
  - intros Hn. by rewrite Hn in H1.
  - by intros Hn%nil_length_inv.
Qed.

Lemma everyRuleLatched_spec s :
  burnEveryRuleLatched s = true <->
  forall t, t ∈ enabledTargets s -> length (latchesOf s t) = length (bt_rules t).
Proof. unfold burnEveryRuleLatched. rewrite forallb_elem. by setoid_rewrite Nat.eqb_eq. Qed.

Lemma hasTarget_spec s : hasTarget s = true <-> exists t, t ∈ enabledTargets s /\ bt_rules t <> [].
Proof.
  unfold hasTarget. rewrite existsb_elem. setoid_rewrite negb_true_iff. setoid_rewrite Nat.eqb_neq.
  split; intros (t & Ht & H); exists t; (split; [done|]).
  - intros Hn. by rewrite Hn in H.
  - by intros Hn%nil_length_inv.
Qed.

Lemma burn_armed_iff s : (burnVerdict (clauses s)).1 = true <-> burn_covers s.
Proof.
  unfold burnVerdict, burn_covers. cbn [clausesOf cl_ownsPaging cl_hasTarget cl_allLatched cl_replacement cl_nothingBlind cl_routable].
  destruct (OwnsPaging _); cbn [negb]; [|split; [done|by intros [? _]]].
  destruct (hasTarget s) eqn:Eh; cbn [negb]; [|split; [done|by intros (_ & _ & ? & _)]].
  destruct (burnEveryRuleLatched s) eqn:El; cbn [negb].
  2:{ split; [done|]. intros (_ & _ & _ & H). rewrite <- not_true_iff_false, everyRuleLatched_spec in El.
      destruct El. intros t Ht. by apply H. }
  rewrite everyRuleLatched_spec in El.
  destruct (burnNothingBlind now s) eqn:Eb; cbn [negb]; rewrite ?orb_true_r, ?orb_false_r.
  2:{ split; [done|]. intros (_ & _ & _ & H). rewrite <- not_true_iff_false, nothingBlind_spec in Eb.
      destruct Eb. intros t Ht. destruct (H t Ht) as (Hr & Hl & Hc). split; [|done].
      intros Hn. rewrite Hn in Hl. by apply Hr, nil_length_inv. }
  rewrite nothingBlind_spec in Eb.
  assert (burnReplacementExists now s = true) as ->.
  { unfold burnReplacementExists. apply hasTarget_spec in Eh as (t & Ht & _).
    apply existsb_elem. exists t. split; [done|]. destruct (Eb t Ht) as [Hne Hc].
    destruct (latchesOf s t) as [|b l] eqn:E; [done|]. cbn.
    assert (burnRuleCovers now s t b = true) as -> by (apply burnRuleCovers_spec, Hc; set_solver). done. }
  cbn [negb]. destruct (routable channels s) eqn:Ero; cbn [negb]; [|split; [done|by intros (_ & ? & _)]].
  split; [|done]. intros _. split_and!; try done. intros t Ht. destruct (Eb t Ht) as [Hne Hc].
  split_and!; [|by apply El|done]. intros Hn. specialize (El t Ht). rewrite Hn in El. by apply Hne, nil_length_inv.
Qed.

(** ** What a refusal names *)
Inductive live_reason s : string -> Prop :=
| lr_not_owned : OwnsPaging (sv_policy s) = false -> live_reason s AlertReasonNotOwned
| lr_never : sv_state s = None -> live_reason s AlertReasonNeverEvaluated
| lr_pages_nothing : policyPages s = false -> live_reason s AlertReasonPolicyPagesNothing
| lr_state r : sv_state s = Some r -> nothingToAnnounce r = false -> ar_observed r ∉ PageOn (sv_policy s) ->
    live_reason s AlertReasonStateNotPageable
| lr_generation r : sv_state s = Some r -> ar_generation r <> sv_generation s ->
    live_reason s AlertReasonGenerationChanged
| lr_revision r : sv_state s = Some r ->
    ar_revision r = None \/ ar_revision r <> dr_id <$> effectiveRevision now s ->
    live_reason s AlertReasonRevisionChanged
| lr_error r e : sv_state s = Some r -> ar_lastError r = Some e -> live_reason s AlertReasonEvaluationError
| lr_stale r : sv_state s = Some r -> ar_leaseUntil r <= now -> live_reason s AlertReasonStaleLease
| lr_unroutable : routable channels s = false -> live_reason s AlertReasonUnroutable
| lr_pending r : sv_state s = Some r -> nothingToAnnounce r = false ->
    ar_firing r = false \/ ar_emitted r <> Some (ar_observed r) \/ ar_emittedSeq r <= 0 ->
    live_reason s AlertReasonOnsetPending
| lr_undelivered r : sv_state s = Some r -> nothingToAnnounce r = false -> ar_firing r = true ->
    ar_deliveredSeq r < ar_emittedSeq r -> live_reason s AlertReasonOnsetUndelivered.

Inductive burn_reason s : string -> Prop :=
| br_not_owned : OwnsPaging (sv_policy s) = false -> burn_reason s AlertReasonNotOwned
| br_no_target : (forall t, t ∈ enabledTargets s -> bt_rules t = []) -> burn_reason s AlertReasonNoEnabledTarget
| br_unevaluated t : t ∈ enabledTargets s -> length (latchesOf s t) <> length (bt_rules t) ->
    burn_reason s AlertReasonRuleUnevaluated
| br_held t b : t ∈ enabledTargets s -> b ∈ latchesOf s t -> bl_verdict b = BurnHold -> burn_reason s AlertReasonHeld
| br_generation t b : t ∈ enabledTargets s -> b ∈ latchesOf s t ->
    bl_config_generation b <> sv_generation s \/ bl_target_generation b <> bt_generation t ->
    burn_reason s AlertReasonGenerationChanged
| br_error t b e : t ∈ enabledTargets s -> b ∈ latchesOf s t -> bl_last_error b = Some e ->
    burn_reason s AlertReasonEvaluationError
| br_stale t b : t ∈ enabledTargets s -> b ∈ latchesOf s t -> bl_lease_until b <= now ->
    burn_reason s AlertReasonStaleLease
| br_unroutable : routable channels s = false -> burn_reason s AlertReasonUnroutable
| br_pending t b : t ∈ enabledTargets s -> b ∈ latchesOf s t -> fireUnannounced b = true ->
    burn_reason s AlertReasonOnsetPending
| br_undelivered t b : t ∈ enabledTargets s -> b ∈ latchesOf s t -> fireUnheard b = true ->
    burn_reason s AlertReasonOnsetUndelivered
| br_inconsistent t b : t ∈ enabledTargets s -> b ∈ latchesOf s t ->
    bl_verdict b = BurnClear /\ bl_firing b = true \/ bl_last_error b = Some "" ->
    burn_reason s AlertReasonLatchInconsistent
| br_no_rules t : t ∈ enabledTargets s -> bt_rules t = [] -> burn_reason s AlertReasonLatchInconsistent.

Definition reason_holds (signal : DelegationSignal) s (why : string) : Prop :=
  match signal with DelegationLive => live_reason s why | DelegationBurn => burn_reason s why end.

Lemma onRow_false s f r : sv_state s = Some r -> onRow s f = false -> f r = false.
Proof. intros Hr. unfold onRow. by rewrite Hr. Qed.

Section live.
Context (s : CoverageService) (r : AlertRow) (Hr : sv_state s = Some r).

Lemma refused_state : policyPages s = true -> livePageableState s = false -> live_reason s AlertReasonStateNotPageable.
Proof.
  intros Hp. unfold livePageableState. rewrite Hp. intros H%(onRow_false _ _ _ Hr).
  apply orb_false_iff in H as [[H1 H2]%orb_false_iff _]. apply (lr_state s r Hr H1). intros Hin.
  rewrite <- not_true_iff_false, existsb_elem in H2. apply H2. eexists. by rewrite bool_decide_eq_true_2.
Qed.

Lemma refused_revision : cl_revOK (clauses s) = false -> live_reason s AlertReasonRevisionChanged.
Proof.
  intros H%(onRow_false _ _ _ Hr). apply (lr_revision s r Hr).
  apply andb_false_iff in H as [H|H]; apply bool_decide_eq_false in H; [left|by right].
  destruct (ar_revision r); [by destruct H|done].
Qed.

Lemma refused_error : bool_decide (cl_liveErr (clauses s) = "") = false -> live_reason s AlertReasonEvaluationError.
Proof.
  intros H%bool_decide_eq_false. cbn in H. rewrite Hr in H.
  destruct (ar_lastError r) as [e|] eqn:E; [by apply (lr_error s r e)|done].
Qed.

Lemma refused_pending :
  liveOnsetCommitted s = false -> live_reason s AlertReasonOnsetPending.
Proof.
  intros H%(onRow_false _ _ _ Hr). apply orb_false_iff in H as [H1 H2].
  apply (lr_pending s r Hr H1). apply andb_false_iff in H2 as [[H2|H2]%andb_false_iff|H2]; [by left| |].
  - right; left. by apply bool_decide_eq_false in H2.
  - right; right. by apply Z.ltb_ge in H2.
Qed.

Lemma refused_undelivered :
  liveOnsetCommitted s = true -> liveOnsetDelivered s = false -> live_reason s AlertReasonOnsetUndelivered.
Proof.
  unfold liveOnsetCommitted. rewrite onRow_true. intros (r' & Hr' & Hc) H%(onRow_false _ _ _ Hr). simplify_eq.
  apply orb_false_iff in H as [H1 H2]. rewrite H1 in Hc. cbn in Hc. bool_facts. by apply (lr_undelivered s r).
Qed.
End live.

Lemma live_refusal s :
  (liveVerdict (clauses s)).1 = false -> live_reason s (liveVerdict (clauses s)).2.
Proof.
  unfold liveVerdict.
  destruct (cl_ownsPaging _) eqn:E1; cbn [negb]; [|by constructor].
  destruct (cl_evaluated _) eqn:E2; cbn [negb].
  2:{ intros _. constructor. apply bool_decide_eq_false in E2. destruct (sv_state s); [by destruct E2|done]. }
  apply bool_decide_eq_true in E2 as [r Hr].
  destruct (cl_policyPages _) eqn:E3; cbn [negb]; [|by constructor].
  destruct (cl_pageableState _) eqn:E4; cbn [negb]; [|intros _; by eapply refused_state].
  destruct (cl_genOK _) eqn:E5; cbn [negb].
  2:{ intros _. apply (onRow_false _ _ _ Hr) in E5. apply (lr_generation s r Hr). by apply Z.eqb_neq. }
  destruct (cl_revOK _) eqn:E6; cbn [negb]; [|intros _; by eapply refused_revision].
  destruct (bool_decide (cl_liveErr _ = "")) eqn:E7; cbn [negb]; [|intros _; by eapply refused_error].
  destruct (cl_fresh _) eqn:E8; cbn [negb].
  2:{ intros _. apply (onRow_false _ _ _ Hr) in E8. apply (lr_stale s r Hr). by apply Z.ltb_ge. }
  destruct (cl_routable _) eqn:E9; cbn [negb]; [|by constructor].
  destruct (cl_onsetCommitted _) eqn:E10; cbn [negb]; [|intros _; by eapply refused_pending].
  destruct (cl_onsetDelivered _) eqn:E11; cbn [negb]; [done|intros _; by eapply refused_undelivered].
Qed.

Lemma joinWith_nonempty sep l : joinWith sep l <> "" -> exists e, e ∈ l.
Proof. destruct l as [|e l]; [done|]. intros _. exists e. set_solver. Qed.

Lemma joinWith_empty sep l e : sep <> "" -> joinWith sep l = "" -> e ∈ l -> e = "".
Proof.
  intros Hs. destruct l as [|x [|y l]]; cbn [joinWith]; [set_solver|set_solver|].
  intros H. exfalso. destruct x; [destruct sep|]; done.
Qed.

Lemma elem_of_burnErrors s e :
  e ∈ burnErrors s <-> exists t b, t ∈ enabledTargets s /\ b ∈ latchesOf s t /\ bl_last_error b = Some e.
Proof.
  unfold burnErrors. rewrite merge_sort_Permutation, elem_of_remove_dups, elem_of_flat_map.
  setoid_rewrite list_elem_of_omap. naive_solver.
Qed.

(** Nothing the classifier asked about explains the refusal. *)
Lemma unexplained s t b :
  t ∈ enabledTargets s -> b ∈ latchesOf s t -> burnRuleCovers now s t b = false ->
  cl_anyHold (clauses s) = false -> cl_anyGenMismatch (clauses s) = false -> cl_burnErr (clauses s) = "" ->
  cl_burnFresh (clauses s) = true -> cl_burnOnsetPending (clauses s) = false ->
  cl_burnOnsetUndelivered (clauses s) = false ->
  bl_verdict b = BurnClear /\ bl_firing b = true \/ bl_last_error b = Some "".
Proof.
  intros Ht Hb Hc Hh Hg He Hf Hp Hu. cbn in Hh, Hg, He, Hf, Hp, Hu.
  assert (forall f, someEligible s f = false -> f t b = false) as Hno.
  { intros f Hfa. apply not_true_iff_false. intros Hft. rewrite <- not_true_iff_false, someEligible_true in Hfa.
    apply Hfa. by exists t, b. }
  apply Hno in Hh, Hg, Hp, Hu. apply negb_true_iff, Hno in Hf. apply bool_decide_eq_false in Hh.
  apply orb_false_iff in Hg as [Hg1%negb_false_iff%Z.eqb_eq Hg2%negb_false_iff%Z.eqb_eq]. apply Z.leb_gt in Hf.
  destruct (bl_last_error b) as [e|] eqn:El.
  { right. f_equal. eapply joinWith_empty; [|exact He|]; [done|]. apply elem_of_burnErrors. by exists t, b. }
  left. apply not_true_iff_false in Hc. rewrite burnRuleCovers_spec in Hc.
  unfold fireUnannounced, fireUnheard in *.
  destruct (bl_verdict b) eqn:Ev; [|destruct (bl_firing b) eqn:Efi; [by split|]|done]; exfalso; apply Hc; (split; [|done..]).
  - right. cbn [bool_decide] in Hp, Hu. rewrite bool_decide_eq_true_2, andb_true_l in Hp, Hu by done.
    apply negb_false_iff, andb_true_iff in Hp as [Hp1 Hp2]. rewrite Hp1, Hp2 in Hu. cbn in Hu.
    apply Z.ltb_lt in Hp2. apply Z.ltb_ge in Hu. split_and!; done.
  - by left.
Qed.

Lemma some_eligible s f (why : string) :
  (forall t b, t ∈ enabledTargets s -> b ∈ latchesOf s t -> f t b = true -> burn_reason s why) ->
  someEligible s f = true -> burn_reason s why.
Proof. intros H (t & b & Ht & Hb & Hf)%someEligible_true. by eapply H. Qed.

Lemma burn_refusal_gate s :
  hasTarget s = true -> burnEveryRuleLatched s = true ->
  burnReplacementExists now s = false \/ burnNothingBlind now s = false ->
  burn_reason s (burnRefusal (clauses s)).
Proof.
  intros Hh Hl Hgate. rewrite everyRuleLatched_spec in Hl. unfold burnRefusal.
  destruct (cl_anyHold _) eqn:E1.
  { revert E1. apply some_eligible. intros t b Ht Hb H%bool_decide_eq_true. by eapply br_held. }
  destruct (cl_anyGenMismatch _) eqn:E2.
  { revert E2. apply some_eligible. intros t b Ht Hb H. eapply br_generation; [done..|].
    unfold mismatched in H. rewrite orb_true_iff, !negb_true_iff, !Z.eqb_neq in H. done. }
  destruct (bool_decide (cl_burnErr _ = "")) eqn:E3; cbn [negb].
  2:{ apply bool_decide_eq_false, joinWith_nonempty in E3 as [e He]. apply elem_of_burnErrors in He as (t & b & Ht & Hb & He).
      by eapply br_error. }
  apply bool_decide_eq_true in E3.
  destruct (cl_burnFresh _) eqn:E4; cbn [negb].
  2:{ apply negb_false_iff in E4. revert E4. apply some_eligible. intros t b Ht Hb H%Z.leb_le. by eapply br_stale. }
  destruct (cl_burnOnsetPending _) eqn:E5; cbn [andb].
  { destruct (cl_routable _) eqn:Er; cbn [negb]; [|by constructor].
    revert E5. apply some_eligible. intros t b Ht Hb H. by eapply br_pending. }
  destruct (cl_burnOnsetUndelivered _) eqn:E6.
  { revert E6. apply some_eligible. intros t b Ht Hb H. by eapply br_undelivered. }
  assert (burnNothingBlind now s = false) as Hb.
  { destruct Hgate as [Hg|Hg]; [|done]. apply not_true_iff_false. intros Hb. rewrite nothingBlind_spec in Hb.
    apply hasTarget_spec in Hh as (t & Ht & _). destruct (Hb t Ht) as [Hne Hc].
    rewrite <- not_true_iff_false in Hg. apply Hg. apply existsb_elem. exists t. split; [done|].
    destruct (latchesOf s t) as [|b l]; [done|]. cbn.
    assert (burnRuleCovers now s t b = true) as -> by (apply burnRuleCovers_spec, Hc; set_solver). done. }
  apply not_true_iff_false in Hb. unfold burnNothingBlind in Hb. rewrite forallb_elem in Hb.
  assert (exists t, t ∈ enabledTargets s /\
    (negb (Nat.eqb (length (latchesOf s t)) 0) && forallb (burnRuleCovers now s t) (latchesOf s t)) = false)
    as (t & Ht & H).
  { destruct (decide (Exists (fun t => (negb (Nat.eqb (length (latchesOf s t)) 0)
      && forallb (burnRuleCovers now s t) (latchesOf s t)) = false) (enabledTargets s))) as [He|He].
    - apply Exists_exists in He as (t & Ht & H). exists t. by rewrite list_elem_of_In.
    - destruct Hb. intros t Ht. apply not_false_iff_true. intros Hf. apply He, Exists_exists.
      exists t. by rewrite <- list_elem_of_In. }
  apply andb_false_iff in H as [H|H].
  - apply negb_false_iff, Nat.eqb_eq in H. apply (br_no_rules s t Ht).
    apply nil_length_inv. by rewrite <- (Hl t Ht).
  - assert (exists b, b ∈ latchesOf s t /\ burnRuleCovers now s t b = false) as (b & Hbin & Hcov).
    { clear -H. induction (latchesOf s t) as [|b l IH]; [done|]. cbn in H. destruct (burnRuleCovers now s t b) eqn:E.
      - destruct (IH H) as (x & Hx & ?). exists x. set_solver.
      - exists b. set_solver. }
    eapply (br_inconsistent s t b); [done..|]. by eapply unexplained.
Qed.

Lemma burn_refusal s : (burnVerdict (clauses s)).1 = false -> burn_reason s (burnVerdict (clauses s)).2.
Proof.
  unfold burnVerdict.
  destruct (cl_ownsPaging _) eqn:E1; cbn [negb]; [|by constructor].
  destruct (cl_hasTarget _) eqn:E2; cbn [negb].
  2:{ intros _. constructor. intros t Ht. destruct (bt_rules t) eqn:Er; [done|]. exfalso.
      apply not_true_iff_false in E2. apply E2, hasTarget_spec. exists t. by rewrite Er. }
  destruct (cl_allLatched _) eqn:E3; cbn [negb].
  2:{ intros _. cbn in E3. apply not_true_iff_false in E3. rewrite everyRuleLatched_spec in E3.
      destruct (decide (Exists (fun t => length (latchesOf s t) <> length (bt_rules t)) (enabledTargets s))) as [He|He].
      - apply Exists_exists in He as (t & Ht%list_elem_of_In & H). by apply (br_unevaluated s t).
      - destruct E3. intros t Ht. destruct (decide (length (latchesOf s t) = length (bt_rules t))); [done|].
        destruct He. apply Exists_exists. exists t. by rewrite <- list_elem_of_In. }
  destruct (negb (cl_replacement _) || negb (cl_nothingBlind _)) eqn:E4.
  { intros _. apply burn_refusal_gate; [done..|]. apply orb_true_iff in E4. rewrite !negb_true_iff in E4. done. }
  destruct (cl_routable _) eqn:E5; cbn [negb]; [done|by constructor].
Qed.

Lemma refusal_holds signal s :
  (verdictFor now channels signal s).1 = false -> reason_holds signal s (verdictFor now channels signal s).2.
Proof. destruct signal; [apply live_refusal|apply burn_refusal]. Qed.

Lemma armed_no_reason signal s :
  (verdictFor now channels signal s).1 = true -> (verdictFor now channels signal s).2 = "".
Proof.
  destruct signal; cbn [verdictFor]; unfold liveVerdict, burnVerdict; intros H;
    repeat (match type of H with (if ?c then _ else _).1 = _ => destruct c; [done|] end); done.
Qed.

Lemma reason_nonempty signal s why : reason_holds signal s why -> why <> "".
Proof. destruct signal; destruct 1; done. Qed.

(** ** The lookup *)
Lemma indexIn_nonneg l : forall i (x : string), 0 <= i -> 0 <= indexIn i l x.
Proof. induction l as [|y l IH]; intros i x Hi; cbn; [done|]. case_bool_decide; [done|]. apply IH. lia. Qed.

Lemma rank_nonneg (x : string) : 0 <= coverageReasonRank x.
Proof. by apply indexIn_nonneg. Qed.

Notation armed signal s := ((verdictFor now channels signal s).1).
Notation reason signal s := ((verdictFor now channels signal s).2).

Lemma consider_fold signal l : forall owners0 reason0 best0 owners why best,
  foldl (considerCandidate now channels signal) (owners0, reason0, best0) l = (owners, why, best) ->
  owners = owners0 ++ map ownerOf (List.filter (fun s => armed signal s) l) /\ best0 <= best /\
  (best = best0 /\ why = reason0 \/
   exists s, s ∈ l /\ armed signal s = false /\ why = reason signal s /\ best = coverageReasonRank why) /\
  forall s, s ∈ l -> armed signal s = false -> coverageReasonRank (reason signal s) <= best.
Proof.
  induction l as [|s l IH]; intros owners0 reason0 best0 owners why best; cbn [foldl].
  { intros [= <- <- <-]. rewrite app_nil_r. split_and!; [done|lia|by left|set_solver]. }
  unfold considerCandidate at 2. destruct (verdictFor now channels signal s) as [a why0] eqn:Ev.
  cbn [List.filter]. rewrite Ev. cbn [fst].
  destruct a; [|destruct (Z.ltb_spec best0 (coverageReasonRank why0))]; intros Hf; apply IH in Hf as (H1 & H2 & H3 & H4).
  - split_and!; [by rewrite H1, <- app_assoc|done| |].
    + destruct H3 as [?|(x & ? & ?)]; [by left|right; exists x; set_solver].
    + intros x [->|Hx]%elem_of_cons; [by rewrite Ev|by apply H4].
  - split_and!; [done|lia| |].
    + right. destruct H3 as [[-> ->]|(x & ? & ?)]; [exists s; rewrite Ev; split; [set_solver|done]|exists x; set_solver].
    + intros x [->|Hx]%elem_of_cons; [rewrite Ev; done|by apply H4].
  - split_and!; [done|done| |].
    + destruct H3 as [?|(x & ? & ?)]; [by left|right; exists x; set_solver].
    + intros x [->|Hx]%elem_of_cons; [rewrite Ev; intros _; cbn [snd]; lia|by apply H4].
Qed.

Definition badgeOf (signal : DelegationSignal) s : ServiceSignalState :=
  match signal with
  | DelegationLive => as_Live (serviceAlertingStateOn now channels s)
  | DelegationBurn => as_Burn (serviceAlertingStateOn now channels s)
  end.

Lemma badge_verdict signal s :
  ss_Armed (badgeOf signal s) = armed signal s /\ ss_Reason (badgeOf signal s) = reason signal s.
Proof. by destruct signal. Qed.

Definition candidate (monitorID projectID : string) s : Prop :=
  sv_ProjectID s = projectID /\ exists rev, effectiveRevision now s = Some rev /\ monitorID ∈ dr_sli rev.

Lemma elem_of_candidates services monitorID projectID s :
  s ∈ candidates now services monitorID projectID <-> s ∈ services /\ candidate monitorID projectID s.
Proof.
  unfold candidates. rewrite merge_sort_Permutation, elem_of_filter_b, andb_true_iff, bool_decide_eq_true.
  unfold candidate, isEffectiveSLI. destruct (effectiveRevision now s).
  - rewrite bool_decide_eq_true. naive_solver.
  - naive_solver.
Qed.

Lemma owners_are_armed services monitorID projectID signal o :
  o ∈ dv_Owners (ActiveDelegation now channels services monitorID projectID signal) <->
  exists s, s ∈ services /\ candidate monitorID projectID s /\ armed signal s = true /\ o = ownerOf s.
Proof.
  unfold ActiveDelegation. destruct (foldl _ _ _) as [[owners why] best] eqn:Ef.
  apply consider_fold in Ef as (Ho & _). cbn [app] in Ho.
  assert (o ∈ owners <->
    exists s, s ∈ services /\ candidate monitorID projectID s /\ armed signal s = true /\ o = ownerOf s) as Hown.
  { rewrite Ho, list_elem_of_fmap. setoid_rewrite elem_of_filter_b. setoid_rewrite elem_of_candidates. naive_solver. }
  by destruct owners.
Qed.

(** C37: delivery and the badge answer alike.  The lookup withholds a monitor's alert exactly
    when the badge of some service shows the signal armed, among the services of the project
    whose governing declaration names the monitor; it names exactly those services.  When it
    does not withhold, it gives a reason, never an empty one: that no service declares the
    monitor, or a badge's reason, the furthest any candidate got, and that reason is true of
    the rows. *)
Theorem delegation_answers_like_the_badge services monitorID projectID signal :
  let v := ActiveDelegation now channels services monitorID projectID signal in
  (forall o, o ∈ dv_Owners v <->
     exists s, s ∈ services /\ candidate monitorID projectID s /\ ss_Armed (badgeOf signal s) = true /\ o = ownerOf s) /\
  (Suppress v = true <-> dv_FailOpenReason v = "") /\
  (Suppress v = false ->
     (dv_FailOpenReason v = AlertReasonNoOwningService /\
      forall s, s ∈ services -> ~ candidate monitorID projectID s) \/
     exists s, s ∈ services /\ candidate monitorID projectID s /\
       dv_FailOpenReason v = ss_Reason (badgeOf signal s) /\ reason_holds signal s (dv_FailOpenReason v) /\
       forall s', s' ∈ services -> candidate monitorID projectID s' ->
         coverageReasonRank (ss_Reason (badgeOf signal s')) <= coverageReasonRank (dv_FailOpenReason v)).
Proof.
  cbv zeta. unfold ActiveDelegation.
  destruct (foldl _ _ _) as [[owners why] best] eqn:Ef.
  apply consider_fold in Ef as (Ho & Hb & Hw & Hmax). cbn [app] in Ho.
  assert (forall o, o ∈ owners <->
    exists s, s ∈ services /\ candidate monitorID projectID s /\ ss_Armed (badgeOf signal s) = true /\ o = ownerOf s) as Hown.
  { intros o. rewrite Ho, list_elem_of_fmap. setoid_rewrite elem_of_filter_b. setoid_rewrite elem_of_candidates.
    setoid_rewrite (fun s => proj1 (badge_verdict signal s)). naive_solver. }
  destruct owners as [|o rest]; cbn [length Nat.eqb negb dv_Owners dv_FailOpenReason Suppress].
  2:{ split; [done|]. split; [done|]. done. }
  assert (forall s, s ∈ services -> candidate monitorID projectID s -> armed signal s = false) as Hnone.
  { intros s Hs Hc. destruct (armed signal s) eqn:Ea; [|done].
    assert (ownerOf s ∈ @nil DelegationOwner) as Hin; [|by apply not_elem_of_nil in Hin].
    apply Hown. exists s. by rewrite (proj1 (badge_verdict signal s)). }
  split; [done|]. destruct Hw as [[-> ->]|(s & Hs & Ha & -> & ->)].
  - cbn. split; [done|]. intros _. left. split; [done|]. intros s Hs Hc.
    assert (s ∈ candidates now services monitorID projectID) as Hin by (by apply elem_of_candidates).
    specialize (Hmax s Hin (Hnone s Hs Hc)). pose proof (rank_nonneg (reason signal s)). lia.
  - pose proof (refusal_holds signal s Ha) as Hr. pose proof (reason_nonempty _ _ _ Hr) as Hne.
    rewrite (bool_decide_eq_false_2 (reason signal s = "")) by done. split; [done|]. intros _. right.
    apply elem_of_candidates in Hs as [Hs Hc]. exists s. rewrite (proj2 (badge_verdict signal s)).
    split; [exact Hs|]. split; [exact Hc|]. split; [reflexivity|]. split; [exact Hr|].
    intros s' Hs' Hc'. rewrite (proj2 (badge_verdict signal s')).
    apply Hmax; [by apply elem_of_candidates|by apply Hnone].
Qed.

(** ** Routing *)

(** a service whose coverage is armed, on either signal, has somewhere to send its own
    page: at that instant the router resolves at least one recipient, as long as whoever the
    rotation names is spelled like a channel (the write path refuses a rotation that is not).
    Delegation is never more permissive than the router. *)
Theorem armed_service_reaches_somebody s schedule signal :
  ss_Armed (badgeOf signal s) = true ->
  sv_schedule s = oc_Participants <$> schedule ->
  (forall sc, schedule = Some sc -> OnCall sc now = "" \/ IsChannelID (OnCall sc now) = true) ->
  exists route, resolveServiceRecipientsTx channels (sv_ProjectID s) schedule now = Ok route /\ route <> [].
Proof.
  intros Ha Hsch Hwf. rewrite (proj1 (badge_verdict signal s)) in Ha.
  assert (routable channels s = true) as Hr.
  { destruct signal.
    - apply live_armed_spec in Ha as (r & _ & H). cbn in H. bool_facts. done.
    - apply burn_armed_iff in Ha. by destruct Ha as (_ & ? & _). }
  assert (projectChannels channels (sv_ProjectID s) <> []) as Hp.
  { assert (exists c, c ∈ channels /\ liveChannelOf s c = true) as (c & Hc & Hl).
    { unfold routable in Hr. apply orb_true_iff in Hr as [Hr|Hr].
      - destruct (sv_schedule s); [|done]. apply existsb_elem in Hr as (c & Hc & H). bool_facts. by exists c.
      - apply existsb_elem in Hr as (c & Hc & H). by exists c. }
    intros Hn. assert (nc_ID c ∈ projectChannels channels (sv_ProjectID s)) as Hin; [|rewrite Hn in Hin; set_solver].
    unfold projectChannels. rewrite merge_sort_Permutation. apply list_elem_of_fmap. exists c. split; [done|].
    by apply elem_of_filter_b. }
  unfold resolveServiceRecipientsTx. destruct schedule as [sc|]; [|by eexists].
  cbv zeta. case_bool_decide as He; [by eexists|].
  destruct (Hwf sc eq_refl) as [?|Hid]; [done|]. rewrite Hid. cbn [negb].
  destruct (existsb _ _); by eexists.
Qed.
End facts.
