(* ===== verification/Interact.v ===== *)
(** * Programs that call their environment

    A program is a finite tree of calls and what to do with each answer; the environment is a
    function from calls to answers (for one run) or a handler over a state.  A run records
    its calls in order.  Programs built this way terminate by construction: the Go code they
    model has no loop but the ones over lists. *)

From S2P Require Import Prelude.

Section programs.
Context {C : Type} (ans : C -> Type).

Inductive prog (A : Type) : Type :=
| Ret (a : A)
| Ask (c : C) (k : ans c -> prog A).
Arguments Ret {A}. Arguments Ask {A}.

Fixpoint pbind {A B} (p : prog A) (f : A -> prog B) : prog B :=
  match p with
  | Ret a => f a
  | Ask c k => Ask c (fun x => pbind (k x) f)
  end.

Definition ask (c : C) : prog (ans c) := Ask c Ret.

Fixpoint pfold {A B} (f : B -> A -> prog B) (l : list A) (b : B) : prog B :=
  match l with
  | [] => Ret b
  | x :: rest => pbind (f b x) (pfold f rest)
  end.

(** The calls of a run, in order, and its result. *)
Fixpoint exec {A} (env : forall c, ans c) (p : prog A) : list C * A :=
  match p with
  | Ret a => ([], a)
  | Ask c k => let r := exec env (k (env c)) in (c :: r.1, r.2)
  end.

Definition calls {A} env (p : prog A) : list C := (exec env p).1.
Definition outcome {A} env (p : prog A) : A := (exec env p).2.

(** Answers that depend on, and change, a state. *)
Fixpoint interp {S A} (h : forall c, S -> ans c * S) (p : prog A) (s : S) : A * S :=
  match p with
  | Ret a => (a, s)
  | Ask c k => let r := h c s in interp h (k r.1) r.2
  end.
End programs.
Arguments Ret {C ans A}. Arguments Ask {C ans A}. Arguments pbind {C ans A B}. Arguments ask {C ans}.
Arguments pfold {C ans A B}. Arguments exec {C ans A}. Arguments calls {C ans A}. Arguments outcome {C ans A}.
Arguments interp {C ans S A}.

Notation "'do' x <- p ; k" := (pbind p (fun x => k))
  (at level 200, x pattern, p at level 100, k at level 200,
   format "'[v' 'do'  x  <-  p ;  '/' k ']'") : cerbix_scope.

Section facts.
Context {C : Type} {ans : C -> Type} (env : forall c, ans c).
Implicit Types (c : C).

Lemma exec_bind {A B} (p : prog ans A) (f : A -> prog ans B) :
  exec env (pbind p f) = (calls env p ++ calls env (f (outcome env p)), outcome env (f (outcome env p))).
Proof.
  unfold calls, outcome. induction p as [a|c k IH]; cbn; [by destruct (exec env (f a))|]. rewrite IH. done.
Qed.

Lemma calls_bind {A B} (p : prog ans A) (f : A -> prog ans B) :
  calls env (pbind p f) = calls env p ++ calls env (f (outcome env p)).
Proof. unfold calls at 1. by rewrite exec_bind. Qed.

Lemma outcome_bind {A B} (p : prog ans A) (f : A -> prog ans B) :
  outcome env (pbind p f) = outcome env (f (outcome env p)).
Proof. unfold outcome at 1. by rewrite exec_bind. Qed.

Lemma calls_Ret {A} (a : A) : calls env (Ret (ans := ans) a) = [].
Proof. done. Qed.
Lemma outcome_Ret {A} (a : A) : outcome env (Ret (ans := ans) a) = a.
Proof. done. Qed.
Lemma calls_ask c : calls env (ask c) = [c].
Proof. done. Qed.
Lemma outcome_ask c : outcome env (ask c) = env c.
Proof. done. Qed.

(** A run against a handler that answers from [env] leaves the calls in the log. *)
Lemma interp_exec {A} (p : prog ans A) log :
  interp (fun c s => (env c, s ++ [c])) p log = (outcome env p, log ++ calls env p).
Proof.
  revert log. unfold outcome, calls. induction p as [a|c k IH]; intros log; cbn; [by rewrite app_nil_r|].
  rewrite IH. by rewrite <- app_assoc.
Qed.

(** A program depends on the answers to the calls it makes, and on nothing else. *)
Lemma exec_ext {A} (env' : forall c, ans c) (p : prog ans A) :
  (forall c, c ∈ calls env p -> env c = env' c) -> exec env p = exec env' p.
Proof.
  unfold calls. induction p as [a|c k IH]; cbn; intros H; [done|].
  rewrite <- (H c) by set_solver. rewrite <- IH; [done|]. intros c' Hc'. apply H. set_solver.
Qed.
End facts.

#[export] Hint Rewrite @calls_bind @outcome_bind @calls_Ret @outcome_Ret @calls_ask @outcome_ask : cerbix.
