(* ===== verification/Dispatch.v ===== *)
(** * The delivery worker
    ([internal/outbox/outbox.go]: [deliver] and what it calls, [process]'s condemnation;
    [internal/notify/notify.go]: the sending loops; the payloads of [internal/domain/outbox.go])

    One program per topic, over the calls the worker makes: its store queries, the writes that
    record what a delivery did, the sends and the counters.  Contexts and logging are left out;
    a message is the value it renders.  JSON decoding is the class [Wire]. *)

From S2P Require Import Prelude GoFloat GoString OnCall MonitorRow MonitorState Outbox Incidents ServiceAlert Delegation Interact.

(** ** Payloads *)
Record SLOBurnAlert := {
  sb_MonitorID : string; sb_Window : string; sb_WindowSeconds : Z; sb_Objective : float64; sb_BurnRate : float64;
  sb_Threshold : float64; sb_Firing : bool; sb_At : Time; sb_ShortWindowSeconds : Z; sb_Severity : string;
}.

Record RegionWorkerAlert := { rw_Region : string; rw_ProjectID : string; rw_MonitorCount : Z; rw_Missing : bool }.

Record EscalationStepAlert := {
  ea_IncidentID : string; ea_MonitorID : string; ea_MonitorName : string; ea_ServiceID : string;
  ea_SubjectName : string; ea_Step : Z; ea_Repeat : bool; ea_ChannelIDs : list string;
}.

(** [EscalationStepAlert.Subject]. *)
Definition Subject (a : EscalationStepAlert) : string :=
  if bool_decide (ea_SubjectName a = "") then ea_MonitorName a else ea_SubjectName a.

Record SLAReportWindow := { sw_Window : string; sw_UptimePercent : float64; sw_Up : Z; sw_Total : Z }.
Record SLAReport := { sr_ProjectID : string; sr_ProjectName : string; sr_Windows : list SLAReportWindow }.
Record SubscriberConfirm := { sc_To : string; sc_Subject : string; sc_Body : string }.

Inductive ServiceAlertSignal := ServiceSignalHealth | ServiceSignalBurn.
#[export] Instance serviceAlertSignal_eq : EqDecision ServiceAlertSignal.
Proof. solve_decision. Defined.

(** [domain.ServiceAlert]: the identity of the latch around the fields of [ServiceAlert]. *)
Record ServiceAlertEvent := {
  ae_ServiceID : string;
  ae_ProjectID : string;
  ae_Signal : ServiceAlertSignal;
  ae_RuleKey : string;
  ae_SLATargetID : string;
  ae_alert : ServiceAlert;
}.

(** [json.Unmarshal] of a payload, per topic. *)
Class Wire (P : Type) := {
  wire_correlation : P -> result string string;
  wire_incident : P -> result string IncidentEvent;
  wire_transition : P -> result string MonitorTransition;
  wire_burn : P -> result string SLOBurnAlert;
  wire_service : P -> result string ServiceAlertEvent;
  wire_report : P -> result string SLAReport;
  wire_region : P -> result string RegionWorkerAlert;
  wire_step : P -> result string EscalationStepAlert;
  wire_confirm : P -> result string SubscriberConfirm;
}.

(** ** What the worker calls *)

(** [domain.Monitor], the fields a delivery reads. *)
Record Monitor := {
  mn_ID : string;
  mn_Name : string;
  mn_AutoIncident : bool;
  mn_DependsOn : list string;
  mn_row : MonitorRow;
}.

Inductive LookupError := LookupNotFound | LookupFailed (msg : string).

Record DownAncestor := { da_ID : string; da_Name : string }.

(** A text, as the value that renders it. *)
Inductive Message :=
| TransitionMessage (m : Monitor) (up : bool)
| BurnMessage (a : SLOBurnAlert) (monitorName : string)
| ServiceMessage (a : ServiceAlertEvent)
| ReportMessage (r : SLAReport)
| RegionMessage (a : RegionWorkerAlert)
| StepMessage (a : EscalationStepAlert).

Inductive Metric :=
| RecordImpactLinks (role : string) (n : Z) | RecordImpactFailure | RecordImpactWitnessOverflow (n : Z)
| RecordAlertSuppressed (topic : string) | RecordDelegationFailOpen (reason : string)
| RecordServiceDelegation (signal : DelegationSignal) (state : string)
| RecordServiceAlertUndeliverable (signal : ServiceAlertSignal) | RecordServiceAlertRecipientMissing (n : Z)
| RecordChangeCorrelations (role : string) (n : Z) | RecordChangeCorrelationError.

Inductive Call :=
| AskSilenced
| AskMonitor (id : string)
| AskDownAncestors (id : string)
| WriteSuppressionNote (id rootName : string)
| AskInMaintenance (id : string)
| AskDelegation (monitorID projectID : string) (signal : DelegationSignal)
| WriteSuppression (eventID monitorID projectID topic : string) (owners : list DelegationOwner)
| WriteCorrelation (incidentID : string)
| WriteChangeLinks (incidentID : string) (window : Duration) (noteMax : Z)
| AskIncidentContext (i : Incident)
| WriteIncidentContext (incidentID body : string)
| AskAlertSequence (a : ServiceAlertEvent)
| WriteAlertDelivered (a : ServiceAlertEvent)
| WriteAlertUndeliverable (a : ServiceAlertEvent)
| AskChannelsForMonitor (id : string)
| AskChannelsByProject (projectID : string)
| AskChannelsByIDs (ids : list string)
| PostWebhooks (ev : IncidentEvent)
| SendChannel (ch : NotificationChannel) (m : Message)
| SendMail (to subject body : string)
| Count (m : Metric).

(** [LinkPrecedingChanges]: the roles linked, and whether there was anything to do. *)
Record ChangeCorrelation := { cc_Skipped : bool; cc_Links : list string }.

(** The answer to each call; [AskIncidentContext] gives the rendered context, [None] when it
    is empty; [WriteCorrelation] the roles linked and the overflow. *)
Definition answer (c : Call) : Type :=
  match c with
  | AskSilenced => bool
  | AskMonitor _ => result LookupError Monitor
  | AskDownAncestors _ => result string (list DownAncestor)
  | WriteSuppressionNote _ _ => result string bool
  | AskInMaintenance _ => result string bool
  | AskDelegation _ _ _ => result string DelegationVerdict
  | WriteSuppression _ _ _ _ _ => result string unit
  | WriteCorrelation _ => result string (list string * Z)
  | WriteChangeLinks _ _ _ => result string ChangeCorrelation
  | AskIncidentContext _ => result string (option string)
  | WriteIncidentContext _ _ => result string bool
  | AskAlertSequence _ => result LookupError Z
  | WriteAlertDelivered _ => result string unit
  | WriteAlertUndeliverable _ => result string unit
  | AskChannelsForMonitor _ | AskChannelsByProject _ | AskChannelsByIDs _ => result string (list NotificationChannel)
  | PostWebhooks _ => result string unit
  | SendChannel _ _ => result string unit
  | SendMail _ _ _ => result string unit
  | Count _ => unit
  end.

Notation Prog := (prog answer).

(** What the worker was wired with. *)
Record WorkerConfig := {
  wk_webhooks : bool;
  wk_notifs : bool;
  wk_mail : bool;
  wk_changeWindow : Duration;
  wk_changeNoteMax : Z;
}.

Definition errorOf {A} (r : result string A) : option string := match r with Ok _ => None | Err e => Some e end.

(** ** Sending (notify/notify.go) *)

(** [errors.Join]. *)
Definition joinErrors (errs : list string) : option string :=
  match errs with [] => None | _ => Some (joinWith "
" errs) end.

(** One round of a sending loop: the channels that accepted, and the errors, so far. *)
Definition sendOne (m : Message) (acc : Z * list string) (ch : NotificationChannel) : Prog (Z * list string) :=
  do r <- ask (SendChannel ch m);
  Ret match r with
      | Ok _ => (acc.1 + 1, acc.2)
      | Err e => (acc.1, acc.2 ++ [e])
      end.

Definition sendAll (m : Message) (channels : list NotificationChannel) : Prog (Z * list string) :=
  pfold (sendOne m) channels (0, []).

(** [Dispatcher.Deliver], [DeliverText] and [DeliverProjectText] differ in the listing. *)
Definition sendListed (listing : result string (list NotificationChannel)) (m : Message) : Prog (option string) :=
  match listing with
  | Err e => Ret (Some e)
  | Ok channels => do r <- sendAll m channels; Ret (joinErrors r.2)
  end.

Definition Notify_Deliver (monitor : Monitor) (up : bool) : Prog (option string) :=
  do l <- ask (AskChannelsForMonitor (mn_ID monitor)); sendListed l (TransitionMessage monitor up).
Definition DeliverText (monitor : Monitor) (m : Message) : Prog (option string) :=
  do l <- ask (AskChannelsForMonitor (mn_ID monitor)); sendListed l m.
Definition DeliverProjectText (projectID : string) (m : Message) : Prog (option string) :=
  do l <- ask (AskChannelsByProject projectID); sendListed l m.

Record ChannelDelivery := { cd_Requested : Z; cd_Resolved : Z; cd_Delivered : Z }.

Definition DeliverChannelsReporting (ids : list string) (m : Message) : Prog (ChannelDelivery * option string) :=
  let requested := Z.of_nat (length ids) in
  do l <- ask (AskChannelsByIDs ids);
  match l with
  | Err e => Ret ({| cd_Requested := requested; cd_Resolved := 0; cd_Delivered := 0 |}, Some e)
  | Ok channels =>
    do r <- sendAll m channels;
    Ret ({| cd_Requested := requested; cd_Resolved := Z.of_nat (length channels); cd_Delivered := r.1 |}, joinErrors r.2)
  end.

Definition DeliverChannels (ids : list string) (m : Message) : Prog (option string) :=
  do r <- DeliverChannelsReporting ids m; Ret r.2.

(** ** The worker's helpers *)
Definition count_ (m : Metric) : Prog unit := ask (Count m).

Definition dependencySuppressed (monitor : Monitor) : Prog bool :=
  match mn_DependsOn monitor with
  | [] => Ret false
  | _ =>
    do r <- ask (AskDownAncestors (mn_ID monitor));
    match r with
    | Err _ => Ret false
    | Ok [] => Ret false
    | Ok (root :: _) => do _ <- ask (WriteSuppressionNote (mn_ID monitor) (da_Name root)); Ret true
    end
  end.

Definition condemn (a : ServiceAlertEvent) : Prog unit :=
  if sa_Firing (ae_alert a) then do _ <- ask (WriteAlertUndeliverable a); Ret tt else Ret tt.

Definition failOpen (signal : DelegationSignal) (reason state : string) : Prog bool :=
  do _ <- count_ (RecordDelegationFailOpen reason);
  do _ <- count_ (RecordServiceDelegation signal state);
  Ret false.

Definition serviceDelegationSuppressed (eventID : string) (monitor : Monitor) (signal : DelegationSignal)
    (topic : string) : Prog bool :=
  do r <- ask (AskDelegation (mn_ID monitor) (mo_project (mn_row monitor)) signal);
  match r with
  | Err _ => failOpen signal "error" "degraded"
  | Ok v =>
    if negb (Suppress v) then failOpen signal (dv_FailOpenReason v) "disarmed"
    else
      do w <- ask (WriteSuppression eventID (mn_ID monitor) (mo_project (mn_row monitor)) topic (dv_Owners v));
      match w with
      | Err _ => failOpen signal "record_failed" "degraded"
      | Ok _ =>
        do _ <- count_ (RecordAlertSuppressed topic);
        do _ <- count_ (RecordServiceDelegation signal "armed");
        Ret true
      end
  end.

Definition attachIncidentContext (i : Incident) : Prog unit :=
  do r <- ask (AskIncidentContext i);
  match r with
  | Err _ | Ok None => Ret tt
  | Ok (Some body) => do _ <- ask (WriteIncidentContext (in_ID i) body); Ret tt
  end.

(** One counter per role. *)
Definition countRoles (metric : string -> Z -> Metric) (roles : list string) : Prog unit :=
  pfold (fun _ role => count_ (metric role (count (fun r => bool_decide (r = role)) roles))) (remove_dups roles) tt.

Definition linkPrecedingChanges (cfg : WorkerConfig) (i : Incident) : Prog unit :=
  do r <- ask (WriteChangeLinks (in_ID i) (wk_changeWindow cfg) (wk_changeNoteMax cfg));
  match r with
  | Err _ => count_ RecordChangeCorrelationError
  | Ok res =>
    if cc_Skipped res || Nat.eqb (length (cc_Links res)) 0 then Ret tt
    else countRoles RecordChangeCorrelations (cc_Links res)
  end.

(** ** Topics

    One program per case of [deliver]; its result is the error, [None] for a handled event.
    [notifsMissing] is the answer of a worker built without a notification deliverer. *)
Definition notifsMissing : Prog (option string) := Ret (Some "no notification deliverer configured").

Section topics.
Context {P : Type} `{!Wire P} (cfg : WorkerConfig).
Implicit Types (payload : P) (eventID : string).

(** The decoded payload, or its error. *)
Definition decoded {A} (d : result string A) (k : A -> Prog (option string)) : Prog (option string) :=
  match d with Ok a => k a | Err e => Ret (Some e) end.

(** [GetMonitor]: a monitor that is gone is nothing to notify. *)
Definition withMonitor (id : string) (k : Monitor -> Prog (option string)) : Prog (option string) :=
  do r <- ask (AskMonitor id);
  match r with
  | Ok m => k m
  | Err LookupNotFound => Ret None
  | Err (LookupFailed msg) => Ret (Some msg)
  end.

(** The instance-wide silence, then the missing deliverer, in the order of the cases. *)
Definition unlessSilenced (k : Prog (option string)) : Prog (option string) :=
  do silenced <- (ask AskSilenced : Prog bool); if silenced then Ret None else k.
Definition withNotifs (k : Prog (option string)) : Prog (option string) :=
  if wk_notifs cfg then k else notifsMissing.

Definition deliverCorrelation payload : Prog (option string) :=
  decoded (wire_correlation payload) (fun incident =>
    do r <- ask (WriteCorrelation incident);
    match r with
    | Err e => do _ <- count_ RecordImpactFailure; Ret (Some e)
    | Ok (roles, overflow) =>
      do _ <- (if 0 <? overflow then count_ (RecordImpactWitnessOverflow overflow) else Ret tt);
      do _ <- countRoles RecordImpactLinks roles;
      Ret None
    end).

Definition openedAuto (ev : IncidentEvent) : bool :=
  bool_decide (ie_Type ev = EventIncidentOpened) && bool_decide (in_Source (ie_Incident ev) = SourceAuto).

Definition deliverIncident payload : Prog (option string) :=
  decoded (wire_incident payload) (fun ev =>
    do derr <- (if wk_webhooks cfg then (do r <- ask (PostWebhooks ev); Ret (errorOf r))
                else Ret (Some "no webhook deliverer configured"));
    do _ <- (if openedAuto ev && negb (bool_decide (in_ServiceID (ie_Incident ev) = ""))
             then linkPrecedingChanges cfg (ie_Incident ev) else Ret tt);
    match derr with
    | Some e => Ret (Some e)
    | None =>
      do _ <- (if openedAuto ev && negb (bool_decide (in_MonitorID (ie_Incident ev) = ""))
               then attachIncidentContext (ie_Incident ev) else Ret tt);
      Ret None
    end).

(** The escalation ladder of a monitor speaks for it. *)
Definition hasLadder (m : Monitor) : bool :=
  bool_decide (is_Some (mo_EscalationPolicyID (mn_row m))) && mn_AutoIncident m.

Definition inMaintenance (m : Monitor) : Prog bool :=
  do r <- ask (AskInMaintenance (mn_ID m)); Ret match r with Ok b => b | Err _ => false end.

(** The gates of a DOWN, in their order. *)
Definition downSuppressed eventID (m : Monitor) : Prog bool :=
  if hasLadder m then Ret true
  else
    do delegated <- serviceDelegationSuppressed eventID m DelegationLive TopicMonitorTransition;
    if delegated then Ret true
    else
      do dependent <- dependencySuppressed m;
      if dependent then Ret true else inMaintenance m.

Definition deliverTransition eventID payload : Prog (option string) :=
  decoded (wire_transition payload) (fun mt =>
    if negb (ShouldNotify mt) then Ret None
    else unlessSilenced (withNotifs (withMonitor (mt_MonitorID mt) (fun monitor =>
      if superseded (mn_row monitor) mt then Ret None
      else
        do suppressed <- (if bool_decide (mt_Cur mt = StatusDown) then downSuppressed eventID monitor else Ret false);
        if suppressed then Ret None
        else Notify_Deliver monitor (bool_decide (mt_Cur mt = StatusUp)))))).

Definition deliverBurn eventID payload : Prog (option string) :=
  decoded (wire_burn payload) (fun a =>
    unlessSilenced (withNotifs (withMonitor (sb_MonitorID a) (fun monitor =>
      do delegated <- (if sb_Firing a
                       then serviceDelegationSuppressed eventID monitor DelegationBurn TopicSLOBurnAlert
                       else Ret false);
      if delegated then Ret None
      else
        do dependent <- (if sb_Firing a then dependencySuppressed monitor else Ret false);
        if dependent then Ret None else DeliverText monitor (BurnMessage a (mn_Name monitor)))))).

(** The reading of the current sequence: what stops an announcement before it is sent. *)
Definition announcementStopped (a : ServiceAlertEvent) (current : result LookupError Z) : option (option string) :=
  match current with
  | Err LookupNotFound => if sa_Firing (ae_alert a) then Some None else None
  | Err (LookupFailed msg) => Some (Some msg)
  | Ok seq => if sa_Firing (ae_alert a) && (sa_Seq (ae_alert a) <? seq) then Some None else None
  end.

(** Terminal: nobody was, or ever will be, told. *)
Definition undeliverable (a : ServiceAlertEvent) : Prog (option string) :=
  do _ <- count_ (RecordServiceAlertUndeliverable (ae_Signal a));
  do _ <- condemn a;
  Ret None.

Definition announce (a : ServiceAlertEvent) : Prog (option string) :=
  do r <- DeliverChannelsReporting (sa_Recipients (ae_alert a)) (ServiceMessage a);
  let '(res, err) := r in
  do _ <- (if 0 <? cd_Requested res - cd_Resolved res
           then count_ (RecordServiceAlertRecipientMissing (cd_Requested res - cd_Resolved res)) else Ret tt);
  if bool_decide (err = None) && (cd_Resolved res =? 0) then undeliverable a
  else
    do _ <- (if sa_Firing (ae_alert a) && (0 <? cd_Delivered res)
             then (do _ <- ask (WriteAlertDelivered a); Ret tt) else Ret tt);
    Ret err.

Definition deliverServiceAlert payload : Prog (option string) :=
  decoded (wire_service payload) (fun a =>
    unlessSilenced (withNotifs (
      do current <- ask (AskAlertSequence a);
      match announcementStopped a current with
      | Some stopped => Ret stopped
      | None => if Nat.eqb (length (sa_Recipients (ae_alert a))) 0 then undeliverable a else announce a
      end))).

Definition deliverReport payload : Prog (option string) :=
  decoded (wire_report payload) (fun rep => withNotifs (DeliverProjectText (sr_ProjectID rep) (ReportMessage rep))).

Definition deliverRegion payload : Prog (option string) :=
  decoded (wire_region payload) (fun a =>
    unlessSilenced (withNotifs (DeliverProjectText (rw_ProjectID a) (RegionMessage a)))).

(** Whether a service answers for the monitor of a ladder step; a step of a service is that
    service's page. *)
Definition stepDelegated eventID (a : EscalationStepAlert) : Prog bool :=
  if bool_decide (ea_ServiceID a = "") then
    do r <- ask (AskMonitor (ea_MonitorID a));
    match r with
    | Err _ => do _ <- count_ (RecordDelegationFailOpen "error"); Ret false
    | Ok mon => serviceDelegationSuppressed eventID mon DelegationLive TopicEscalationStep
    end
  else Ret false.

Definition deliverStep eventID payload : Prog (option string) :=
  decoded (wire_step payload) (fun a =>
    unlessSilenced (
      do delegated <- stepDelegated eventID a;
      if delegated then Ret None
      else withNotifs (DeliverChannels (ea_ChannelIDs a) (StepMessage a)))).

Definition deliverConfirm payload : Prog (option string) :=
  decoded (wire_confirm payload) (fun sc =>
    if wk_mail cfg then (do r <- ask (SendMail (sc_To sc) (sc_Subject sc) (sc_Body sc)); Ret (errorOf r))
    else Ret (Some "no mailer configured")).

Definition deliver (eventID topic : string) payload : Prog (option string) :=
  if bool_decide (topic = TopicIncidentCorrelation) then deliverCorrelation payload
  else if bool_decide (topic = TopicIncidentEvent) then deliverIncident payload
  else if bool_decide (topic = TopicMonitorTransition) then deliverTransition eventID payload
  else if bool_decide (topic = TopicSLOBurnAlert) then deliverBurn eventID payload
  else if bool_decide (topic = TopicServiceAlert) then deliverServiceAlert payload
  else if bool_decide (topic = TopicSLAReport) then deliverReport payload
  else if bool_decide (topic = TopicRegionWorkerAlert) then deliverRegion payload
  else if bool_decide (topic = TopicEscalationStep) then deliverStep eventID payload
  else if bool_decide (topic = TopicSubscriberConfirm) then deliverConfirm payload
  else Ret (Some ("unknown outbox topic: " +:+ topic)).

(** The same condemnation, for an announcement that exhausted its attempts. *)
Definition condemnDead (topic : string) payload : Prog unit :=
  if bool_decide (topic = TopicServiceAlert) then
    match wire_service payload with Ok a => condemn a | Err _ => Ret tt end
  else Ret tt.

(** [Worker.process] over the table: what the delivery asked and wrote, and the settling
    write.  The log holds the calls; [env] answers them. *)
Definition processEvent `{!Payload P} (now : Time) (elapsed : Duration) (env : forall c, answer c)
    (e : OutboxEvent P) (ob : gmap string (OutboxRow P)) : list Call * gmap string (OutboxRow P) :=
  if expired e elapsed then ([], (ReleaseOutboxClaim now (ev_ID e) (ev_ClaimToken e) ob).2)
  else
    let run := exec env (deliver (ev_ID e) (ev_Topic e) (ev_Payload e)) in
    match run.2 with
    | None => (run.1, (MarkOutboxDelivered now (ev_ID e) (ev_ClaimToken e) ob).2)
    | Some err =>
      let '(applied, ob') := FailOutbox now (ev_ID e) (ev_ClaimToken e) err maxAttempts ob in
      (if applied && (maxAttempts <=? ev_Attempts e)
       then run.1 ++ calls env (condemnDead (ev_Topic e) (ev_Payload e)) else run.1, ob')
    end.
End topics.
