(* ===== verification/DispatchFacts.v ===== *)
(** * What a delivery does

    The runs of the worker's programs against any answers: which calls reach somebody, which
    writes credit or condemn an announcement, and what decides it. *)

From S2P Require Import Prelude GoFloat GoString OnCall ServicePolicy MonitorRow MonitorState Outbox Incidents ServiceAlert Delegation Interact Dispatch.

(** A call that reaches somebody outside. *)
Definition reaches (c : Call) : Prop :=
  match c with SendChannel _ _ | SendMail _ _ _ | PostWebhooks _ => True | _ => False end.

(** A write that records what became of an announcement. *)
Definition records (c : Call) : Prop :=
  match c with WriteAlertDelivered _ | WriteAlertUndeliverable _ => True | _ => False end.

#[export] Instance records_dec c : Decision (records c).
Proof. destruct c; cbn; apply _. Defined.
#[export] Instance reaches_dec c : Decision (reaches c).
Proof. destruct c; cbn; apply _. Defined.

Definition accepted {A} (r : result string A) : bool := match r with Ok _ => true | Err _ => false end.

Section facts.
Context (env : forall c, answer c).

(** ** Sending *)
Definition acceptedBy (m : Message) (ch : NotificationChannel) : bool := accepted (env (SendChannel ch m)).

Definition refusals (m : Message) (channels : list NotificationChannel) : list string :=
  omap (fun ch => errorOf (env (SendChannel ch m))) channels.

Lemma exec_sendAll m channels :
  exec env (sendAll m channels) =
  (map (fun ch => SendChannel ch m) channels, (count (acceptedBy m) channels, refusals m channels)).
Proof.
  unfold sendAll. enough (forall acc, exec env (pfold (sendOne m) channels acc) =
    (map (fun ch => SendChannel ch m) channels,
     (acc.1 + count (acceptedBy m) channels, acc.2 ++ refusals m channels))) as H by (by rewrite H).
  induction channels as [|ch rest IH]; intros [n errs]; cbn [pfold exec fst snd refusals omap list_omap map].
  { by rewrite app_nil_r, count_nil, Z.add_0_r. }
  unfold sendOne, ask. cbn [pbind exec]. rewrite IH, count_cons. unfold acceptedBy at 3.
  unfold refusals. cbn [omap list_omap fst snd]. destruct (env (SendChannel ch m)) as [u|e]; cbn [accepted errorOf Z.b2z fst snd].
  - replace (n + 1 + count (acceptedBy m) rest) with (n + (1 + count (acceptedBy m) rest)) by lia. done.
  - rewrite <- app_assoc, Z.add_0_l. done.
Qed.

Lemma calls_sendAll m channels : calls env (sendAll m channels) = map (fun ch => SendChannel ch m) channels.
Proof. unfold calls. by rewrite exec_sendAll. Qed.
Lemma outcome_sendAll m channels : outcome env (sendAll m channels) = (count (acceptedBy m) channels, refusals m channels).
Proof. unfold outcome. by rewrite exec_sendAll. Qed.

(** ** What mutes an alert *)

(** A service answers for the monitor, and the suppression was recorded. *)
Definition delegated eventID (m : Monitor) signal topic : bool :=
  match env (AskDelegation (mn_ID m) (mo_project (mn_row m)) signal) with
  | Ok v =>
    Suppress v
    && accepted (env (WriteSuppression eventID (mn_ID m) (mo_project (mn_row m)) topic (dv_Owners v)))
  | Err _ => false
  end.

(** Some ancestor of the monitor is down. *)
Definition dependent (m : Monitor) : bool :=
  negb (Nat.eqb (length (mn_DependsOn m)) 0)
  && match env (AskDownAncestors (mn_ID m)) with Ok (_ :: _) => true | _ => false end.

(** The monitor is inside an active window. *)
Definition maintained (m : Monitor) : bool :=
  match env (AskInMaintenance (mn_ID m)) with Ok b => b | Err _ => false end.

(** A program that reaches nobody and records nothing about an announcement. *)
Definition quiet {A} (p : Prog A) : Prop := Forall (fun c => ~ reaches c /\ ~ records c) (calls env p).

Lemma quiet_Ret {A} (a : A) : quiet (Ret a).
Proof. constructor. Qed.
Lemma quiet_Ask {A} c (k : answer c -> Prog A) : ~ reaches c -> ~ records c -> quiet (k (env c)) -> quiet (Ask c k).
Proof. by constructor. Qed.
Lemma quiet_bind {A B} (p : Prog A) (f : A -> Prog B) : quiet p -> quiet (f (outcome env p)) -> quiet (pbind p f).
Proof. unfold quiet. rewrite calls_bind, Forall_app. done. Qed.
Lemma quiet_count m : quiet (count_ m).
Proof. apply quiet_Ask; [cbn; tauto..|apply quiet_Ret]. Qed.

Lemma quiet_pfold {A B} (f : B -> A -> Prog B) l b : (forall b x, quiet (f b x)) -> quiet (pfold f l b).
Proof. intros H. revert b. induction l as [|x l IH]; intros b; cbn; [apply quiet_Ret|]. apply quiet_bind; [apply H|apply IH]. Qed.

Lemma quiet_countRoles metric roles : quiet (countRoles metric roles).
Proof. apply quiet_pfold. intros. apply quiet_count. Qed.

#[local] Hint Resolve quiet_Ret quiet_count quiet_countRoles : core.
Lemma quiet_asking {B} c (k : answer c -> Prog B) :
  ~ reaches c -> ~ records c -> quiet (k (env c)) -> quiet (pbind (ask c) k).
Proof. intros. by apply quiet_bind; [apply quiet_Ask|]. Qed.

Ltac quiets :=
  repeat first
    [ apply quiet_Ret | apply quiet_count | apply quiet_countRoles
    | apply quiet_asking; [cbn; tauto..|]
    | apply quiet_bind
    | match goal with |- quiet (match ?x with _ => _ end) => destruct x eqn:? end ].

Lemma quiet_delegation eventID m signal topic : quiet (serviceDelegationSuppressed eventID m signal topic).
Proof. unfold serviceDelegationSuppressed, failOpen. quiets. Qed.

Lemma outcome_delegation eventID m signal topic :
  outcome env (serviceDelegationSuppressed eventID m signal topic) = delegated eventID m signal topic.
Proof.
  unfold serviceDelegationSuppressed, delegated, failOpen. rewrite outcome_bind, outcome_ask.
  destruct (env (AskDelegation _ _ _)) as [v|e]; [|done]. destruct (Suppress v); cbn [negb andb]; [|done].
  rewrite outcome_bind, outcome_ask. by destruct (env (WriteSuppression _ _ _ _ _)).
Qed.

Lemma quiet_dependency m : quiet (dependencySuppressed m).
Proof. unfold dependencySuppressed. quiets. Qed.

Lemma outcome_dependency m : outcome env (dependencySuppressed m) = dependent m.
Proof.
  unfold dependencySuppressed, dependent. destruct (mn_DependsOn m) as [|d ds]; cbn [length Nat.eqb negb andb]; [done|].
  rewrite outcome_bind, outcome_ask. by destruct (env (AskDownAncestors _)) as [[|root l]|e].
Qed.

Lemma quiet_maintenance m : quiet (inMaintenance m).
Proof. unfold inMaintenance. quiets. Qed.
Lemma outcome_maintenance m : outcome env (inMaintenance m) = maintained m.
Proof. done. Qed.

Definition muted eventID (m : Monitor) : bool :=
  hasLadder m || delegated eventID m DelegationLive TopicMonitorTransition || dependent m || maintained m.

Lemma quiet_downSuppressed eventID m : quiet (downSuppressed eventID m).
Proof.
  unfold downSuppressed. quiets; auto using quiet_delegation, quiet_dependency, quiet_maintenance.
Qed.

Lemma outcome_downSuppressed eventID m : outcome env (downSuppressed eventID m) = muted eventID m.
Proof.
  unfold downSuppressed, muted. destruct (hasLadder m); [done|]. cbn [orb].
  rewrite outcome_bind, outcome_delegation. destruct (delegated _ _ _ _); [done|]. cbn [orb].
  rewrite outcome_bind, outcome_dependency. by destruct (dependent m).
Qed.
(** ** Who is told *)

(** The calls of a run that reach somebody. *)
Definition sends {A} (p : Prog A) : list Call := base.filter reaches (calls env p).

Lemma sends_bind {A B} (p : Prog A) (f : A -> Prog B) : sends (pbind p f) = sends p ++ sends (f (outcome env p)).
Proof. unfold sends. by rewrite calls_bind, list.filter_app. Qed.

Lemma sends_quiet {A} (p : Prog A) : quiet p -> sends p = [].
Proof.
  unfold quiet, sends. induction 1 as [|c l [Hc _] _ IH]; [done|]. by rewrite filter_cons_False.
Qed.

Lemma sends_asking {B} c (k : answer c -> Prog B) :
  ~ reaches c -> sends (pbind (ask c) k) = sends (k (env c)).
Proof. intros Hc. rewrite sends_bind. unfold sends at 1. rewrite calls_ask, filter_cons_False by done. done. Qed.

Lemma outcome_asking {B} c (k : answer c -> Prog B) : outcome env (pbind (ask c) k) = outcome env (k (env c)).
Proof. by rewrite outcome_bind. Qed.

Definition toChannels (m : Message) (channels : list NotificationChannel) : list Call :=
  map (fun ch => SendChannel ch m) channels.

Lemma sends_sendAll m channels : sends (sendAll m channels) = toChannels m channels.
Proof.
  unfold sends, toChannels. rewrite calls_sendAll. induction channels as [|ch l IH]; [done|].
  cbn [map]. rewrite filter_cons_True by done. by rewrite IH.
Qed.

(** The channels of a listing; none when it fails. *)
Definition listed (l : result string (list NotificationChannel)) : list NotificationChannel :=
  match l with Ok channels => channels | Err _ => [] end.

(** What a delivery to a listing reports: the listing's error, or the refusals. *)
Definition reported (m : Message) (l : result string (list NotificationChannel)) : option string :=
  match l with Ok channels => joinErrors (refusals m channels) | Err e => Some e end.

Lemma sends_sendListed l m : sends (sendListed l m) = toChannels m (listed l).
Proof.
  destruct l as [channels|e]; [|done]. unfold sendListed. rewrite sends_bind, sends_sendAll. apply app_nil_r.
Qed.
Lemma outcome_sendListed l m : outcome env (sendListed l m) = reported m l.
Proof. destruct l as [channels|e]; [|done]. unfold sendListed. by rewrite outcome_bind, outcome_sendAll. Qed.

Lemma sends_listing (c : Call) (k : answer c -> result string (list NotificationChannel)) m :
  ~ reaches c -> sends (do l <- ask c; sendListed (k l) m) = toChannels m (listed (k (env c))).
Proof. intros. by rewrite sends_asking, sends_sendListed. Qed.

(** A down or recovery that is announced: the policy notifies it, nothing silences the
    instance, the monitor exists and has not moved on, and nothing mutes its DOWN. *)
Record notified eventID (mt : MonitorTransition) (m : Monitor) : Prop := {
  nt_policy : ShouldNotify mt = true;
  nt_loud : env AskSilenced = false;
  nt_found : env (AskMonitor (mt_MonitorID mt)) = Ok m;
  nt_current : superseded (mn_row m) mt = false;
  nt_unmuted : mt_Cur mt = StatusDown -> muted eventID m = false;
}.
(** The writes of a run that credit or condemn. *)
Definition recorded {A} (p : Prog A) : list Call := base.filter records (calls env p).

Lemma recorded_bind {A B} (p : Prog A) (f : A -> Prog B) :
  recorded (pbind p f) = recorded p ++ recorded (f (outcome env p)).
Proof. unfold recorded. by rewrite calls_bind, list.filter_app. Qed.

Lemma recorded_quiet {A} (p : Prog A) : quiet p -> recorded p = [].
Proof.
  unfold quiet, recorded. induction 1 as [|c l [_ Hc] _ IH]; [done|]. by rewrite filter_cons_False.
Qed.

Lemma recorded_asking {B} c (k : answer c -> Prog B) :
  ~ records c -> recorded (pbind (ask c) k) = recorded (k (env c)).
Proof. intros Hc. rewrite recorded_bind. unfold recorded at 1. rewrite calls_ask, filter_cons_False by done. done. Qed.

Section events.
Context {P : Type} `{!Wire P} (cfg : WorkerConfig).

Lemma run_unlessSilenced (k : Prog (option string)) :
  sends (unlessSilenced k) = (if env AskSilenced then [] else sends k) /\
  recorded (unlessSilenced k) = (if env AskSilenced then [] else recorded k) /\
  outcome env (unlessSilenced k) = (if env AskSilenced then None else outcome env k).
Proof.
  unfold unlessSilenced. rewrite sends_bind, recorded_bind, outcome_bind. cbn. by destruct (env AskSilenced).
Qed.

Lemma run_withMonitor id k :
  sends (withMonitor id k) = match env (AskMonitor id) with Ok m => sends (k m) | Err _ => [] end /\
  outcome env (withMonitor id k) =
    match env (AskMonitor id) with
    | Ok m => outcome env (k m) | Err LookupNotFound => None | Err (LookupFailed msg) => Some msg
    end.
Proof.
  unfold withMonitor. rewrite sends_asking by (cbn; tauto). rewrite outcome_asking.
  by destruct (env (AskMonitor id)) as [m|[]].
Qed.

Lemma run_downGate eventID mt m (k : Prog (option string)) :
  let p := (do suppressed <- (if bool_decide (mt_Cur mt = StatusDown) then downSuppressed eventID m else Ret false);
            if suppressed then Ret None else k) in
  let audible := negb (bool_decide (mt_Cur mt = StatusDown) && muted eventID m) in
  sends p = (if audible then sends k else []) /\ outcome env p = (if audible then outcome env k else None).
Proof.
  cbv zeta. rewrite sends_bind, outcome_bind. case_bool_decide; cbn [andb negb].
  - rewrite (sends_quiet _ (quiet_downSuppressed eventID m)), outcome_downSuppressed.
    by destruct (muted eventID m).
  - done.
Qed.

(** what becomes of a monitor transition.  It is announced exactly when the policy
    notifies it, the instance is not silenced, the monitor still exists and has not moved on
    and, for a DOWN only, no escalation ladder, recorded service delegation, down ancestor or
    maintenance window mutes it; then every channel of the monitor is sent to once, in order,
    and the result joins the refusals.  Otherwise nobody is sent anything and the event is
    done, unless the monitor could not be read.  A recovery is never muted, and a lookup that
    fails mutes nothing. *)
Theorem transition_is_announced eventID payload mt :
  wire_transition payload = Ok mt -> wk_notifs cfg = true ->
  let p := deliverTransition cfg eventID payload in
  (exists m, notified eventID mt m /\
     let msg := TransitionMessage m (bool_decide (mt_Cur mt = StatusUp)) in
     let listing := env (AskChannelsForMonitor (mn_ID m)) in
     sends p = toChannels msg (listed listing) /\ outcome env p = reported msg listing) \/
  ((forall m, ~ notified eventID mt m) /\ sends p = [] /\
     (outcome env p = None \/
      exists msg, env (AskMonitor (mt_MonitorID mt)) = Err (LookupFailed msg) /\ outcome env p = Some msg)).
Proof.
  intros Hd Hn p. unfold p, deliverTransition, decoded. rewrite Hd.
  destruct (ShouldNotify mt) eqn:Hsn; cbn [negb]; [|by right; split; [intros m []; congruence|auto]].
  destruct (run_unlessSilenced (withNotifs cfg (withMonitor (mt_MonitorID mt) (fun monitor =>
    if superseded (mn_row monitor) mt then Ret None else
      do suppressed <- (if bool_decide (mt_Cur mt = StatusDown) then downSuppressed eventID monitor else Ret false);
      if suppressed then Ret None
      else Notify_Deliver monitor (bool_decide (mt_Cur mt = StatusUp)))))) as (Hs & _ & Ho); rewrite Hs, Ho.
  destruct (env AskSilenced) eqn:Hq; [by right; split; [intros m []; congruence|auto]|].
  unfold withNotifs. rewrite Hn.
  match goal with |- context [withMonitor ?i ?k] => destruct (run_withMonitor i k) as [Hs2 Ho2] end; rewrite Hs2, Ho2.
  destruct (env (AskMonitor (mt_MonitorID mt))) as [m|[|msg]] eqn:Hm;
    [|by right; split; [intros m []; congruence|auto]..
     |right; split; [intros m []; congruence|split; [done|right; by exists msg]]].
  destruct (superseded (mn_row m) mt) eqn:Hsup; [right; split; [intros m' []; congruence|auto]|].
  destruct (run_downGate eventID mt m (Notify_Deliver m (bool_decide (mt_Cur mt = StatusUp)))) as [Hs3 Ho3].
  rewrite Hs3, Ho3. destruct (bool_decide _ && muted eventID m) eqn:Hmu; cbn [negb].
  - right. apply andb_prop in Hmu as [Hc Hmu]. apply bool_decide_eq_true in Hc.
    split; [|auto]. intros m' [_ _ Hf _ Hx]. rewrite Hm in Hf. injection Hf as <-. rewrite (Hx Hc) in Hmu. done.
  - left. exists m. split; [split; try done; intros Hc; rewrite bool_decide_eq_true_2 in Hmu by done; done|].
    cbv zeta. unfold Notify_Deliver. rewrite sends_asking by (cbn; tauto). rewrite outcome_asking.
    by rewrite sends_sendListed, outcome_sendListed.
Qed.
(** ** What becomes of an announcement *)

Lemma recorded_sendAll m channels : recorded (sendAll m channels) = [].
Proof.
  unfold recorded. rewrite calls_sendAll. induction channels as [|ch l IH]; [done|].
  cbn [map]. rewrite filter_cons_False by (cbn; tauto). done.
Qed.

Definition condemnation (a : ServiceAlertEvent) : list Call :=
  if sa_Firing (ae_alert a) then [WriteAlertUndeliverable a] else [].

Lemma run_condemn a : recorded (condemn a) = condemnation a /\ sends (condemn a) = [].
Proof. unfold condemn, condemnation. by destruct (sa_Firing _). Qed.

Lemma run_undeliverable a :
  recorded (undeliverable a) = condemnation a /\ sends (undeliverable a) = [] /\ outcome env (undeliverable a) = None.
Proof.
  unfold undeliverable. rewrite 2!recorded_bind, 2!sends_bind, 2!outcome_bind.
  destruct (run_condemn a) as [-> ->]. pose proof (quiet_count (RecordServiceAlertUndeliverable (ae_Signal a))) as Hq.
  rewrite (recorded_quiet _ Hq), (sends_quiet _ Hq).
  split; [apply app_nil_r|done].
Qed.

Lemma run_reporting ids m :
  let l := env (AskChannelsByIDs ids) in
  let p := DeliverChannelsReporting ids m in
  sends p = toChannels m (listed l) /\ recorded p = [] /\
  outcome env p = ({| cd_Requested := Z.of_nat (length ids); cd_Resolved := Z.of_nat (length (listed l));
                      cd_Delivered := count (acceptedBy m) (listed l) |}, reported m l).
Proof.
  cbv zeta. unfold DeliverChannelsReporting. rewrite sends_bind, recorded_bind, outcome_bind, outcome_ask.
  destruct (env (AskChannelsByIDs ids)) as [channels|e]; [|done].
  rewrite sends_bind, recorded_bind, outcome_bind, sends_sendAll, recorded_sendAll, outcome_sendAll.
  cbn. by rewrite app_nil_r.
Qed.

(** The delivery of an announcement to the channels its snapshot still resolves to. *)
Lemma run_announce a :
  let msg := ServiceMessage a in
  let l := env (AskChannelsByIDs (sa_Recipients (ae_alert a))) in
  sends (announce a) = toChannels msg (listed l) /\
  outcome env (announce a) = reported msg l /\
  recorded (announce a) =
    if bool_decide (reported msg l = None) && Nat.eqb (length (listed l)) 0 then condemnation a
    else if sa_Firing (ae_alert a) && (0 <? count (acceptedBy msg) (listed l)) then [WriteAlertDelivered a] else [].
Proof.
  cbv zeta. unfold announce. rewrite sends_bind, recorded_bind, outcome_bind.
  destruct (run_reporting (sa_Recipients (ae_alert a)) (ServiceMessage a)) as (-> & -> & ->).
  set (l := env _). cbn [cd_Requested cd_Resolved cd_Delivered]. rewrite sends_bind, recorded_bind, outcome_bind.
  match goal with |- context [sends (if ?b then count_ ?x else Ret tt)] =>
    assert (quiet (if b then count_ x else Ret tt)) as Hq by (destruct b; auto) end.
  rewrite (sends_quiet _ Hq), (recorded_quiet _ Hq). cbn [app].
  replace (Z.of_nat (length (listed l)) =? 0) with (Nat.eqb (length (listed l)) 0)
    by (destruct (listed l); [done|cbn; symmetry; by apply Z.eqb_neq]).
  destruct (bool_decide _ && _) eqn:Hu.
  - destruct (run_undeliverable a) as (-> & -> & ->). apply andb_prop in Hu as [Hr _].
    apply bool_decide_eq_true in Hr. rewrite Hr. by rewrite app_nil_r.
  - rewrite sends_bind, recorded_bind, outcome_bind.
    destruct (sa_Firing (ae_alert a) && _); cbn; by rewrite !app_nil_r.
Qed.
Lemma run_serviceAlert payload a :
  wire_service payload = Ok a -> wk_notifs cfg = true ->
  let p := deliverServiceAlert cfg payload in
  let q := if Nat.eqb (length (sa_Recipients (ae_alert a))) 0 then undeliverable a else announce a in
  let spoken := negb (env AskSilenced) && bool_decide (announcementStopped a (env (AskAlertSequence a)) = None) in
  sends p = (if spoken then sends q else []) /\ recorded p = (if spoken then recorded q else []) /\
  (spoken = true -> outcome env p = outcome env q).
Proof.
  intros Hd Hn p q spoken. unfold p, spoken, deliverServiceAlert, decoded. rewrite Hd.
  unfold withNotifs. rewrite Hn.
  match goal with |- context [unlessSilenced ?k] => destruct (run_unlessSilenced k) as (-> & -> & ->) end.
  destruct (env AskSilenced); [done|]. cbn [negb andb].
  rewrite sends_asking, recorded_asking, outcome_asking by (cbn; tauto).
  by destruct (announcementStopped _ _).
Qed.

Lemma refusals_none m channels : joinErrors (refusals m channels) = None -> forall ch, ch ∈ channels -> acceptedBy m ch = true.
Proof.
  intros H ch Hch. unfold acceptedBy. destruct (env (SendChannel ch m)) eqn:E; [done|]. exfalso.
  assert (e ∈ refusals m channels) as Hin by (apply list_elem_of_omap; exists ch; by rewrite E).
  unfold joinErrors in H. destruct (refusals m channels); [set_solver|done].
Qed.

(** What is promised of one announcement, of the writes, the sends and the result of a run. *)
Definition settled_right (a : ServiceAlertEvent) (wrote sent : list Call) (res : option string) : Prop :=
  (WriteAlertDelivered a ∈ wrote <->
   sa_Firing (ae_alert a) = true /\
   exists ch, SendChannel ch (ServiceMessage a) ∈ sent /\ acceptedBy (ServiceMessage a) ch = true) /\
  (WriteAlertUndeliverable a ∈ wrote -> sa_Firing (ae_alert a) = true /\ sent = [] /\ res = None) /\
  (wrote = [] \/ wrote = [WriteAlertDelivered a] \/ wrote = [WriteAlertUndeliverable a]).

Lemma condemned_right a : settled_right a (condemnation a) [] None.
Proof.
  unfold settled_right, condemnation. destruct (sa_Firing (ae_alert a)).
  - split; [|by auto]. split; [intros Hx; by apply list_elem_of_singleton in Hx|intros (_ & ch & Hx & _); by apply not_elem_of_nil in Hx].
  - split; [|split; [|by auto]]; [split; [|by intros []]|]; intros Hx; by apply not_elem_of_nil in Hx.
Qed.

Lemma unheard_right a res : settled_right a [] [] res.
Proof.
  split; [|split; [|by auto]]; [split; [|intros (_ & ch & Hx & _)]|]; try intros Hx; by apply not_elem_of_nil in Hx.
Qed.

Lemma elem_of_toChannels ch m channels : SendChannel ch m ∈ toChannels m channels <-> ch ∈ channels.
Proof. unfold toChannels. rewrite list_elem_of_fmap. split; [by intros (? & [= ->] & ?)|by exists ch]. Qed.

Lemma announced_right a channels res :
  let msg := ServiceMessage a in
  settled_right a
    (if sa_Firing (ae_alert a) && (0 <? count (acceptedBy msg) channels) then [WriteAlertDelivered a] else [])
    (toChannels msg channels) res.
Proof.
  cbv zeta. unfold settled_right. setoid_rewrite elem_of_toChannels.
  destruct (sa_Firing (ae_alert a)); cbn [andb]; [|set_solver].
  destruct (Z.ltb_spec 0 (count (acceptedBy (ServiceMessage a)) channels)) as [Hp|Hp].
  - apply count_pos_iff in Hp. split; [split; [done|intros _; by left]|]. split; [|by auto].
    intros Hx. by apply list_elem_of_singleton in Hx.
  - split; [|split; [intros Hx; by apply not_elem_of_nil in Hx|by auto]].
    split; [intros Hx; by apply not_elem_of_nil in Hx|]. intros (_ & Hx). apply count_pos_iff in Hx. lia.
Qed.

Lemma serviceAlert_settles payload a :
  wire_service payload = Ok a -> wk_notifs cfg = true ->
  let p := deliverServiceAlert cfg payload in
  settled_right a (recorded p) (sends p) (outcome env p) /\
  (sa_Firing (ae_alert a) = true -> env AskSilenced = false ->
   announcementStopped a (env (AskAlertSequence a)) = None -> outcome env p = None -> recorded p <> []).
Proof.
  intros Hd Hn p. destruct (run_serviceAlert payload a Hd Hn) as (Hs & Hr & Ho). fold p in Hs, Hr, Ho.
  destruct (env AskSilenced); cbn [negb andb] in *; [rewrite Hs, Hr; split; [apply unheard_right|done]|].
  case_bool_decide; [|rewrite Hs, Hr; split; [apply unheard_right|done]].
  specialize (Ho eq_refl). rewrite Hs, Hr, Ho. clear Hs Hr Ho.
  destruct (Nat.eqb (length (sa_Recipients (ae_alert a))) 0).
  { destruct (run_undeliverable a) as (-> & -> & ->). split; [apply condemned_right|].
    intros Hf. unfold condemnation. by rewrite Hf. }
  destruct (run_announce a) as (-> & -> & ->). set (l := env (AskChannelsByIDs _)).
  destruct (bool_decide _ && _) eqn:Hu.
  - apply andb_prop in Hu as [Hu1 Hu2]. apply bool_decide_eq_true in Hu1. apply Nat.eqb_eq, nil_length_inv in Hu2.
    rewrite Hu1, Hu2. split; [apply condemned_right|]. intros Hf. unfold condemnation. by rewrite Hf.
  - split; [apply announced_right|]. intros Hf _ _ Hnone. rewrite Hf, Hnone in *. cbn [andb].
    rewrite bool_decide_eq_true_2 in Hu by done.
    destruct l as [channels|e]; [|done]. cbn [reported listed] in *. destruct channels as [|ch rest]; [done|].
    assert (0 < count (acceptedBy (ServiceMessage a)) (ch :: rest)) as Hp.
    { apply count_pos_iff. exists ch. split; [by left|]. by apply (refusals_none _ _ Hnone); left. }
    apply Z.ltb_lt in Hp. by rewrite Hp.
Qed.

(** The same promise, from a worker without a deliverer too. *)
Lemma serviceAlert_right payload a :
  wire_service payload = Ok a ->
  let p := deliverServiceAlert cfg payload in settled_right a (recorded p) (sends p) (outcome env p).
Proof.
  intros Hd p. destruct (wk_notifs cfg) eqn:Hn; [by apply serviceAlert_settles|].
  unfold p, deliverServiceAlert, decoded, withNotifs. rewrite Hd, Hn.
  destruct (run_unlessSilenced notifsMissing) as (-> & -> & ->). destruct (env AskSilenced); apply unheard_right.
Qed.

Lemma elem_of_when {A} (x : A) (b : bool) l : x ∈ (if b then l else []) <-> b = true /\ x ∈ l.
Proof. destruct b; [tauto|]. rewrite elem_of_nil. naive_solver. Qed.

Lemma elem_of_when_app {A} (x : A) (b : bool) l l' : x ∈ (if b then l ++ l' else l) <-> x ∈ l \/ b = true /\ x ∈ l'.
Proof. destruct b; rewrite ?elem_of_app; naive_solver. Qed.

(** ** Incident events *)

(** What the webhooks answer to an event; a worker without a deliverer refuses. *)
Definition webhookSays (ev : IncidentEvent) : option string :=
  if wk_webhooks cfg then errorOf (env (PostWebhooks ev)) else Some "no webhook deliverer configured".

Definition isCount (c : Call) : bool := match c with Count _ => true | _ => false end.
Definition isContext (c : Call) : bool := match c with WriteIncidentContext _ _ => true | _ => false end.

Lemma counts_countRoles metric roles : forallb isCount (calls env (countRoles metric roles)) = true.
Proof.
  unfold countRoles. generalize tt. induction (remove_dups roles) as [|r l IH]; intros u; [done|].
  cbn [pfold]. rewrite calls_bind. cbn. apply IH.
Qed.

Lemma calls_link i :
  exists tail, calls env (linkPrecedingChanges cfg i) =
    WriteChangeLinks (in_ID i) (wk_changeWindow cfg) (wk_changeNoteMax cfg) :: tail /\ forallb isCount tail = true.
Proof.
  unfold linkPrecedingChanges. rewrite calls_bind, calls_ask, outcome_ask. cbn [app].
  destruct (env (WriteChangeLinks _ _ _)) as [r|e]; [|by eexists].
  destruct (_ || _); [by eexists|]. eexists. split; [done|apply counts_countRoles].
Qed.

Lemma calls_attach i :
  exists tail, calls env (attachIncidentContext i) = AskIncidentContext i :: tail /\ forallb isContext tail = true.
Proof.
  unfold attachIncidentContext. rewrite calls_bind, calls_ask, outcome_ask. cbn [app].
  destruct (env (AskIncidentContext i)) as [[body|]|e]; by eexists.
Qed.

Lemma quiet_link i : quiet (linkPrecedingChanges cfg i).
Proof. unfold linkPrecedingChanges. quiets. Qed.
Lemma quiet_attach i : quiet (attachIncidentContext i).
Proof. unfold attachIncidentContext. quiets. Qed.

(** The three parts of an incident delivery, one after the other. *)
Lemma run_incident payload ev :
  wire_incident payload = Ok ev ->
  let p := deliverIncident cfg payload in
  let i := ie_Incident ev in
  outcome env p = webhookSays ev /\
  calls env p =
    (if wk_webhooks cfg then [PostWebhooks ev] else [])
    ++ (if openedAuto ev && negb (bool_decide (in_ServiceID i = "")) then calls env (linkPrecedingChanges cfg i) else [])
    ++ (if bool_decide (webhookSays ev = None) && openedAuto ev && negb (bool_decide (in_MonitorID i = ""))
        then calls env (attachIncidentContext i) else []).
Proof.
  intros Hd p i. unfold p, deliverIncident, decoded. rewrite Hd. fold i.
  set (post := if wk_webhooks cfg then _ else _).
  assert (outcome env post = webhookSays ev) as Ho by (unfold post, webhookSays; by destruct (wk_webhooks cfg)).
  assert (calls env post = if wk_webhooks cfg then [PostWebhooks ev] else []) as Hc
    by (unfold post; by destruct (wk_webhooks cfg)).
  rewrite 2!outcome_bind, 2!calls_bind, Ho, Hc. clear post Ho Hc.
  set (linked := openedAuto ev && negb (bool_decide (in_ServiceID i = ""))).
  replace (calls env (if linked then linkPrecedingChanges cfg i else Ret tt))
    with (if linked then calls env (linkPrecedingChanges cfg i) else []) by (by destruct linked).
  destruct (webhookSays ev) as [e|]; [by rewrite (bool_decide_eq_false_2 (Some e = None))|].
  rewrite outcome_bind, calls_bind. cbn [bool_decide]. rewrite (bool_decide_eq_true_2 (None = None)) by done.
  split; [done|]. cbn [andb]. rewrite calls_Ret, app_nil_r.
  by destruct (openedAuto ev && negb (bool_decide (in_MonitorID i = ""))).
Qed.

(** an incident event's fate is its webhook's, and its history does not depend on it.  The
    changes before an opened service incident are looked for whatever the webhook answers and
    even when there is none; the result of the event is the webhook's, whatever the search
    answers; and the context of an opened monitor incident is looked for once the event was
    accepted. *)
Theorem incident_history_ignores_the_webhook payload ev :
  wire_incident payload = Ok ev ->
  let p := deliverIncident cfg payload in
  let i := ie_Incident ev in
  outcome env p = webhookSays ev /\
  sends p = (if wk_webhooks cfg then [PostWebhooks ev] else []) /\
  (forall id window n, WriteChangeLinks id window n ∈ calls env p <->
     openedAuto ev = true /\ in_ServiceID i <> "" /\ id = in_ID i /\
     window = wk_changeWindow cfg /\ n = wk_changeNoteMax cfg) /\
  (forall j, AskIncidentContext j ∈ calls env p <->
     openedAuto ev = true /\ in_MonitorID i <> "" /\ webhookSays ev = None /\ j = i).
Proof.
  intros Hd p i. destruct (run_incident payload ev Hd) as [Ho Hc]. fold p i in Ho, Hc.
  destruct (calls_link i) as (counts & Hl & Hcounts), (calls_attach i) as (writes & Hw & Hwrites).
  assert (forall c, c ∈ counts -> isCount c = true) as Hcounts' by (intros c Hin; by apply (forallb_elem isCount counts)).
  assert (forall c, c ∈ writes -> isContext c = true) as Hwrites' by (intros c Hin; by apply (forallb_elem isContext writes)).
  split; [done|]. split.
  { unfold sends. rewrite Hc, !list.filter_app.
    assert (forall b : bool, base.filter reaches (if b then calls env (linkPrecedingChanges cfg i) else []) = []) as ->
      by (intros []; [apply (sends_quiet _ (quiet_link i))|done]).
    assert (forall b : bool, base.filter reaches (if b then calls env (attachIncidentContext i) else []) = []) as ->
      by (intros []; [apply (sends_quiet _ (quiet_attach i))|done]).
    rewrite !app_nil_r. by destruct (wk_webhooks cfg). }
  rewrite Hc, Hl, Hw. clear Hc Hl Hw.
  assert (forall id window n, WriteChangeLinks id window n ∉ counts /\ WriteChangeLinks id window n ∉ writes) as Hn1
    by (intros ???; split; intros Hin; [apply Hcounts' in Hin|apply Hwrites' in Hin]; done).
  assert (forall j, AskIncidentContext j ∉ counts /\ AskIncidentContext j ∉ writes) as Hn2
    by (intros ?; split; intros Hin; [apply Hcounts' in Hin|apply Hwrites' in Hin]; done).
  split; [intros id window n; specialize (Hn1 id window n)|intros j; specialize (Hn2 j)];
    rewrite !elem_of_app, !elem_of_when, !elem_of_cons, !andb_true_iff, !negb_true_iff, !bool_decide_eq_false, ?bool_decide_eq_true.
  - split; [intros [[_ Hx]|[[? [[= -> -> ->]|Hx]]|[_ [Hx|Hx]]]]|].
    + destruct Hx as [Hx|Hx]; [discriminate Hx|by apply not_elem_of_nil in Hx].
    + tauto.
    + tauto.
    + discriminate Hx.
    + tauto.
    + intros (? & ? & -> & -> & ->). right. left. tauto.
  - split; [intros [[_ Hx]|[[? [Hx|Hx]]|[? [[= ->]|Hx]]]]|].
    + destruct Hx as [Hx|Hx]; [discriminate Hx|by apply not_elem_of_nil in Hx].
    + discriminate Hx.
    + tauto.
    + tauto.
    + tauto.
    + intros (? & ? & ? & ->). right. right. tauto.
Qed.
(** ** Settling *)
Context `{!Payload P}.
Implicit Types (e : OutboxEvent P) (ob : gmap string (OutboxRow P)).

(** The table after an event, as the outbox describes it from the result of the delivery. *)
Lemma processEvent_table now elapsed e ob :
  (processEvent cfg now elapsed env e ob).2 =
  process now elapsed (outcome env (deliver cfg (ev_ID e) (ev_Topic e) (ev_Payload e))) e ob.
Proof.
  unfold processEvent, process, outcome. destruct (expired e elapsed); [done|].
  destruct (exec env _).2 as [err|]; [|done]. by destruct (FailOutbox _ _ _ _ _ _).
Qed.

Lemma deliver_serviceAlert id payload :
  deliver cfg id TopicServiceAlert payload = deliverServiceAlert cfg payload.
Proof. done. Qed.

End events.
End facts.

(** ** Examples *)
Inductive DeliveryPayload := PayTransition (t : MonitorTransition) | PayService (a : ServiceAlertEvent) | PayIncident (ev : IncidentEvent).

#[export] Instance deliveryWire : Wire DeliveryPayload := {|
  wire_correlation _ := Err "not a correlation";
  wire_incident p := match p with PayIncident ev => Ok ev | _ => Err "not an incident event" end;
  wire_transition p := match p with PayTransition t => Ok t | _ => Err "not a transition" end;
  wire_burn _ := Err "not a burn alert";
  wire_service p := match p with PayService a => Ok a | _ => Err "not a service alert" end;
  wire_report _ := Err "not a report";
  wire_region _ := Err "not a region alert";
  wire_step _ := Err "not a ladder step";
  wire_confirm _ := Err "not a confirmation";
|}.

#[export] Instance deliveryPayload : Payload DeliveryPayload := {| pl_incident _ := None; pl_seq _ := None |}.

Definition wiredWorker : WorkerConfig :=
  {| wk_webhooks := true; wk_notifs := true; wk_mail := true; wk_changeWindow := Hour; wk_changeNoteMax := 5 |}.

Definition checkoutMonitor : Monitor :=
  {| mn_ID := "m1"; mn_Name := "checkout"; mn_AutoIncident := true; mn_DependsOn := ["m0"];
     mn_row := {| mo_project := "p"; mo_Type := MonitorHTTP; mo_Enabled := true; mo_IntervalSeconds := 60;
                  mo_ConfirmIntervalSeconds := 0; mo_FailureThreshold := 1; mo_RenotifySeconds := 0;
                  mo_EscalationPolicyID := None; mo_Region := ""; mo_execution_revision := 1;
                  mo_Status := StatusDown; mo_ConsecutiveFailures := 1; mo_state_sequence := 4;
                  mo_last_result_ts := None; mo_last_notified_at := None; mo_last_probe_error := None;
                  mo_push_armed_at := None; mo_created_at := 1 |} |}.

Definition pager : NotificationChannel := {| nc_ID := "ch1"; nc_ProjectID := "p"; nc_Enabled := true |}.

(** An environment in which everything but the sends answers quietly. *)
Definition answering (delegation : DelegationVerdict) (send : result string unit) (c : Call) : answer c :=
  match c return answer c with
  | AskSilenced => false
  | AskMonitor _ => Ok checkoutMonitor
  | AskDownAncestors _ => Ok []
  | AskInMaintenance _ => Ok false
  | AskDelegation _ _ _ => Ok delegation
  | WriteCorrelation _ => Ok ([], 0)
  | WriteChangeLinks _ _ _ => Err "the correlation timed out"
  | AskIncidentContext _ => Ok None
  | AskAlertSequence a => Ok (sa_Seq (ae_alert a))
  | AskChannelsForMonitor _ | AskChannelsByProject _ | AskChannelsByIDs _ => Ok [pager]
  | SendChannel _ _ | PostWebhooks _ | SendMail _ _ _ => send
  | WriteSuppressionNote _ _ | WriteIncidentContext _ _ => Ok true
  | WriteSuppression _ _ _ _ _ | WriteAlertDelivered _ | WriteAlertUndeliverable _ => Ok tt
  | Count _ => tt
  end.

Definition noOwner : DelegationVerdict := {| dv_Owners := []; dv_FailOpenReason := AlertReasonNoOwningService |}.
Definition wentDown : MonitorTransition :=
  {| mt_MonitorID := "m1"; mt_Prev := StatusUp; mt_Cur := StatusDown; mt_Reminder := false; mt_Seq := 4 |}.

Example transition_is_announced_witness :
  sends (answering noOwner (Ok tt)) (deliverTransition wiredWorker "e1" (PayTransition wentDown)) =
  [SendChannel pager (TransitionMessage checkoutMonitor false)].
Proof.
  destruct (transition_is_announced (answering noOwner (Ok tt)) wiredWorker "e1" (PayTransition wentDown) wentDown)
    as [(m & [_ _ Hm _ _] & Hs & _)|(Hno & _)]; [reflexivity|reflexivity|..].
  - injection Hm as <-. exact Hs.
  - exfalso. apply (Hno checkoutMonitor). split; reflexivity.
Defined.

Definition checkoutOnset : ServiceAlertEvent :=
  {| ae_ServiceID := "s1"; ae_ProjectID := "p"; ae_Signal := ServiceSignalHealth; ae_RuleKey := ""; ae_SLATargetID := "";
     ae_alert := {| sa_Firing := true; sa_CloseReason := None; sa_EpisodeID := "ep"; sa_Seq := 1;
                    sa_Recipients := ["ch1"]; sa_State := AlertDown; sa_ConfirmedOver := 2 |} |}.


(** A channel that refuses everything is resolved, sent to, and credits nothing. *)
Example refused_onset_is_not_credited :
  let env := answering noOwner (Err "500") in
  let p := deliverServiceAlert wiredWorker (PayService checkoutOnset) in
  recorded env p = [] /\ outcome env p = Some "500" /\ sends env p = [SendChannel pager (ServiceMessage checkoutOnset)].
Proof. by vm_compute. Qed.

Definition checkoutIncident : Incident :=
  {| in_ID := "i1"; in_ProjectID := "p"; in_MonitorID := ""; in_ServiceID := "s1"; in_ExternalKey := "";
     in_Title := "checkout is down"; in_Status := IncidentInvestigating; in_Impact := ImpactMajor;
     in_Source := SourceAuto; in_StartedAt := 1; in_ResolvedAt := None; in_AcknowledgedAt := None;
     in_AcknowledgedBy := ""; in_AcknowledgedByName := ""; in_EscalationStep := 0; in_LastEscalatedAt := None;
     in_CreatedAt := 1; in_UpdatedAt := 1 |}.
Definition checkoutOpened : IncidentEvent :=
  {| ie_Type := EventIncidentOpened; ie_Incident := checkoutIncident; ie_Update := None; ie_Seq := 1 |}.

(** The endpoint is down and the search for changes fails: the event fails for the first
    reason, and the search was made. *)
Example incident_history_ignores_the_webhook_witness :
  let env := answering noOwner (Err "connection refused") in
  let p := deliverIncident wiredWorker (PayIncident checkoutOpened) in
  outcome env p = Some "connection refused" /\ WriteChangeLinks "i1" Hour 5 ∈ calls env p.
Proof.
  destruct (incident_history_ignores_the_webhook (answering noOwner (Err "connection refused")) wiredWorker
    (PayIncident checkoutOpened) checkoutOpened) as (Ho & _ & Hl & _); [reflexivity|].
  split; [exact Ho|]. apply Hl. split_and!; try reflexivity. discriminate.
Defined.

Definition lastAttempt : OutboxEvent DeliveryPayload :=
  {| ev_ID := "e1"; ev_Topic := TopicServiceAlert; ev_Payload := PayService checkoutOnset; ev_Attempts := 10;
     ev_ClaimToken := "t"; ev_LeaseUntil := 0; ev_ClaimedAt := 0 |}.
Definition lastRow : OutboxRow DeliveryPayload :=
  {| ob_topic := TopicServiceAlert; ob_payload := PayService checkoutOnset; ob_status := OutboxPendingFenced;
     ob_fenced := true; ob_attempts := 10; ob_next_attempt_at := 0; ob_claim_token := Some "t"; ob_last_error := "";
     ob_created_at := 0; ob_updated_at := 0 |}.

