(* ===== verification/Coverage.v ===== *)
(** * From an armed service to somebody who was told

    The writers of a service's health alert beside the worker that delivers its
    announcements: the credit that arms coverage is written by deliveries only, so a service
    that answers for its members either has nothing to announce or was heard. *)

From S2P Require Import Prelude GoFloat GoString OnCall MonitorRow Outbox Incidents ServiceAlert Delegation DelegationFacts Interact Dispatch DispatchFacts.

(** One service and the announcements its channels accepted, oldest first. *)
Record CoverageWorld := {
  cw_alert : AlertWorld;
  cw_heard : list (NotificationChannel * ServiceAlert);
}.

Section coverage.
Context {P : Type} `{!Wire P, !Payload P}.

(** What a call does to the rows: a write that was answered with an error did nothing. *)
Definition applyCall (env : forall c, answer c) (w : AlertWorld) (c : Call) : AlertWorld :=
  match c with
  | WriteAlertDelivered a =>
    if accepted (env (WriteAlertDelivered a)) then MarkServiceAlertDelivered w (ae_alert a) else w
  | WriteAlertUndeliverable a =>
    if accepted (env (WriteAlertUndeliverable a)) then MarkServiceAlertUndeliverable w (ae_alert a) else w
  | _ => w
  end.

(** The announcements a run's channels accepted. *)
Definition heardBy (env : forall c, answer c) (c : Call) : option (NotificationChannel * ServiceAlert) :=
  match c with
  | SendChannel ch (ServiceMessage a) => if acceptedBy env (ServiceMessage a) ch then Some (ch, ae_alert a) else None
  | _ => None
  end.

Definition afterCalls env (log : list Call) (c : CoverageWorld) : CoverageWorld :=
  {| cw_alert := foldl (applyCall env) (cw_alert c) log; cw_heard := cw_heard c ++ omap (heardBy env) log |}.

Definition onAlert (f : AlertWorld) (c : CoverageWorld) : CoverageWorld := {| cw_alert := f; cw_heard := cw_heard c |}.

(** Evaluations, policy edits, people resolving the incident, and workers that process any
    event of this service's alerts, against any answers, as often as they like. *)
Inductive coverage_step : CoverageWorld -> CoverageWorld -> Prop :=
| cs_evaluate c i w' why :
    OwnsPaging (w_policy (cw_alert c)) = true -> ei_episodeID i <> "" ->
    evaluateOne (cw_alert c) i = Ok (w', why) -> coverage_step c (onAlert w' c)
| cs_policy c pt managed asOf p w' :
    UpdateServiceAlertPolicy (cw_alert c) pt managed asOf = Ok (p, w') -> coverage_step c (onAlert w' c)
| cs_human_resolves c id :
    coverage_step c (onAlert
      {| w_policy := w_policy (cw_alert c); w_generation := w_generation (cw_alert c); w_row := w_row (cw_alert c);
         w_episodes := w_episodes (cw_alert c);
         w_incidents := map (fun i => if bool_decide (inc_ID i = id)
                                      then {| inc_ID := inc_ID i; inc_open := false |} else i) (w_incidents (cw_alert c));
         w_outbox := w_outbox (cw_alert c) |} c)
| cs_process c cfg now elapsed env (e : OutboxEvent P) ob a :
    ev_Topic e = TopicServiceAlert -> wire_service (ev_Payload e) = Ok a ->
    ae_alert a ∈ w_outbox (cw_alert c) ->
    coverage_step c (afterCalls env (processEvent cfg now elapsed env e ob).1 c).

Definition coverage_initial (c : CoverageWorld) : Prop := alert_initial (cw_alert c) /\ cw_heard c = [].
Definition coverage_system : system CoverageWorld := System coverage_initial coverage_step.
Definition coverage_reachable (c : CoverageWorld) : Prop := sys_reachable coverage_system c.

(** ** What one event does *)
Lemma elem_of_recorded env {A} (p : Prog A) c : records c -> c ∈ calls env p <-> c ∈ recorded env p.
Proof. intros Hc. unfold recorded. rewrite list_elem_of_filter. tauto. Qed.

(** The log of one processed event records only its announcement, and credits it only when a
    channel accepted it. *)
Lemma process_log cfg now elapsed env (e : OutboxEvent P) ob a :
  ev_Topic e = TopicServiceAlert -> wire_service (ev_Payload e) = Ok a ->
  let log := (processEvent cfg now elapsed env e ob).1 in
  (forall c, c ∈ log -> records c -> c = WriteAlertDelivered a \/ c = WriteAlertUndeliverable a) /\
  (WriteAlertDelivered a ∈ log ->
   sa_Firing (ae_alert a) = true /\ exists ch, (ch, ae_alert a) ∈ omap (heardBy env) log).
Proof.
  intros Ht Hd log.
  destruct (serviceAlert_right env cfg (ev_Payload e) a Hd) as (Hcr & _ & Hshape).
  set (p := deliverServiceAlert cfg (ev_Payload e)) in *.
  assert (exists tail, (log = [] \/ log = calls env p ++ tail) /\ forall c, c ∈ tail -> c = WriteAlertUndeliverable a)
    as (tail & Hlog & Htail).
  { unfold log, processEvent. rewrite Ht, deliver_serviceAlert. fold p.
    destruct (expired e elapsed); [exists []; split; [by left|set_solver]|].
    change (exec env p).1 with (calls env p). destruct (exec env p).2; [|exists []; split; [right; by rewrite app_nil_r|set_solver]].
    destruct (FailOutbox _ _ _ _ _ _) as [applied ob']. cbn [fst].
    destruct (applied && _); [|exists []; split; [right; by rewrite app_nil_r|set_solver]].
    eexists. split; [by right|]. unfold condemnDead, condemn. rewrite bool_decide_eq_true_2, Hd by done.
    destruct (sa_Firing (ae_alert a)); [|set_solver]. intros c Hc. by apply list_elem_of_singleton in Hc. }
  destruct Hlog as [Hlog|Hlog]; rewrite Hlog; [split; [set_solver|intros Hx; by apply not_elem_of_nil in Hx]|].
  split.
  - intros c Hc Hr. apply elem_of_app in Hc as [Hc|Hc]; [|right; by apply Htail].
    apply (elem_of_recorded env p c Hr) in Hc. destruct Hshape as [Hs|[Hs|Hs]]; rewrite Hs in Hc;
      [by apply not_elem_of_nil in Hc|apply list_elem_of_singleton in Hc; by auto..].
  - intros Hc. apply elem_of_app in Hc as [Hc|Hc]; [|by apply Htail in Hc].
    apply (elem_of_recorded env p (WriteAlertDelivered a) I) in Hc. apply Hcr in Hc as (Hf & ch & Hsend & Hacc).
    split; [done|]. exists ch. apply list_elem_of_omap. exists (SendChannel ch (ServiceMessage a)).
    split; [|unfold heardBy; by rewrite Hacc]. apply elem_of_app. left.
    unfold sends in Hsend. apply list_elem_of_filter in Hsend. tauto.
Qed.

(** ** What the credit may change *)

(** The rows after some writes about one announcement: only the two sequences of the state
    row move, and the credited one only to the announcement's, when it is the current one. *)
Record credited (a : ServiceAlertEvent) (credit : Prop) (w w' : AlertWorld) : Prop := {
  cr_outbox : w_outbox w' = w_outbox w;
  cr_row : forall r', w_row w' = Some r' -> exists r, w_row w = Some r /\
    ar_firing r' = ar_firing r /\ ar_emitted r' = ar_emitted r /\ ar_emittedSeq r' = ar_emittedSeq r /\
    (ar_deliveredSeq r' = ar_deliveredSeq r \/
     credit /\ ar_deliveredSeq r' = sa_Seq (ae_alert a) /\ sa_Seq (ae_alert a) = ar_emittedSeq r /\
     ar_deliveredSeq r <= sa_Seq (ae_alert a));
}.

Lemma credited_refl a credit w : credited a credit w w.
Proof. split; [done|]. intros r Hr. exists r. split_and!; auto. Qed.

Lemma credited_trans a credit w1 w2 w3 : credited a credit w1 w2 -> credited a credit w2 w3 -> credited a credit w1 w3.
Proof.
  intros [Ho Hr] [Ho' Hr']. split; [congruence|]. intros r3 H3.
  destruct (Hr' r3 H3) as (r2 & H2 & Hf2 & He2 & Hs2 & Hd2). destruct (Hr r2 H2) as (r1 & H1 & Hf1 & He1 & Hs1 & Hd1).
  exists r1. split_and!; [done|congruence..|]. destruct Hd2 as [->|(? & -> & ? & ?)]; [done|].
  right. split_and!; [done..|congruence|]. destruct Hd1 as [<-|(_ & ? & ? & ?)]; [done|]. lia.
Qed.

Lemma credited_delivered a w : credited a True w (MarkServiceAlertDelivered w (ae_alert a)).
Proof.
  unfold MarkServiceAlertDelivered. destruct (sa_Firing (ae_alert a)); cbn [negb]; [|apply credited_refl].
  split; [done|]. cbn. destruct (w_row w) as [r|]; cbn; [|done]. intros r' [= <-]. exists r. split; [done|].
  destruct (_ && _) eqn:E; [|split_and!; auto]. bool_facts. cbn. split_and!; try done. right. split_and!; [done..|lia].
Qed.

Lemma credited_condemned a w : credited a False w (MarkServiceAlertUndeliverable w (ae_alert a)).
Proof.
  unfold MarkServiceAlertUndeliverable. destruct (sa_Firing (ae_alert a)); cbn [negb]; [|apply credited_refl].
  split; [done|]. cbn. destruct (w_row w) as [r|]; cbn; [|done]. intros r' [= <-]. exists r. split; [done|].
  destruct (_ && _) eqn:E; cbn; split_and!; auto.
Qed.

Lemma credited_weaken a (credit credit' : Prop) w w' : (credit -> credit') -> credited a credit w w' -> credited a credit' w w'.
Proof. intros H [Ho Hr]. split; [done|]. intros r' Hr'. destruct (Hr r' Hr') as (r & ?). exists r. naive_solver. Qed.

(** The calls of a log, one after the other. *)
Lemma applyCalls env a log w :
  (forall c, c ∈ log -> records c -> c = WriteAlertDelivered a \/ c = WriteAlertUndeliverable a) ->
  credited a (WriteAlertDelivered a ∈ log) w (foldl (applyCall env) w log) /\
  (ae_alert a ∈ w_outbox w -> rtc alert_step w (foldl (applyCall env) w log)).
Proof.
  revert w. induction log as [|c log IH]; intros w Hlog; [split; [apply credited_refl|constructor]|].
  cbn [foldl]. set (w1 := applyCall env w c).
  assert (credited a (WriteAlertDelivered a ∈ c :: log) w w1 /\ (ae_alert a ∈ w_outbox w -> rtc alert_step w w1)) as [H1 H2].
  { unfold w1. destruct c; cbn [applyCall]; try (split; [apply credited_refl|constructor]).
    - assert (a0 = a) as -> by (destruct (Hlog _ (list_elem_of_here _ _) I) as [[= ->]|Hx]; [done|discriminate Hx]).
      destruct (accepted _); [|split; [apply credited_refl|constructor]]. split.
      + eapply credited_weaken; [|apply credited_delivered]. intros _. by left.
      + intros Hin. apply rtc_once. by apply step_delivered.
    - assert (a0 = a) as -> by (destruct (Hlog _ (list_elem_of_here _ _) I) as [Hx|[= ->]]; [discriminate Hx|done]).
      destruct (accepted _); [|split; [apply credited_refl|constructor]]. split.
      + eapply credited_weaken; [|apply credited_condemned]. done.
      + intros Hin. apply rtc_once. by apply step_condemned. }
  destruct (IH w1) as [H3 H4]; [intros c' Hc'; apply Hlog; by right|]. split.
  - eapply credited_trans; [exact H1|]. eapply credited_weaken; [|exact H3]. intros ?. by right.
  - intros Hin. etransitivity; [by apply H2|]. apply H4. by rewrite (cr_outbox _ _ _ _ H1).
Qed.

(** ** What the system keeps *)

(** The sequences of the state row, what was heard of the credited one, and the announcement
    the level stands for. *)
Record told (c : CoverageWorld) : Prop := {
  td_bounds : forall r, w_row (cw_alert c) = Some r -> 0 <= ar_deliveredSeq r <= ar_emittedSeq r;
  td_heard : forall r, w_row (cw_alert c) = Some r -> 0 < ar_deliveredSeq r ->
    exists a ch, a ∈ w_outbox (cw_alert c) /\ sa_Firing a = true /\ sa_Seq a = ar_deliveredSeq r /\ (ch, a) ∈ cw_heard c;
  td_level : forall r, w_row (cw_alert c) = Some r -> ar_firing r = true ->
    exists a, list.last (w_outbox (cw_alert c)) = Some a /\ sa_Firing a = true /\ sa_Seq a = ar_emittedSeq r /\
      ar_emitted r = Some (sa_State a);
}.

(** The writers of the alert itself leave the credit alone. *)
Record grows (w w' : AlertWorld) : Prop := {
  gr_outbox : exists l, w_outbox w' = w_outbox w ++ l;
  gr_row : forall r', w_row w' = Some r' ->
    (exists r, w_row w = Some r /\ ar_deliveredSeq r' = ar_deliveredSeq r /\ ar_emittedSeq r <= ar_emittedSeq r') \/
    ar_deliveredSeq r' = 0 /\ 0 <= ar_emittedSeq r';
  gr_level : forall r', w_row w' = Some r' -> ar_firing r' = true ->
    (exists r, w_row w = Some r /\ ar_firing r = true /\ ar_emittedSeq r' = ar_emittedSeq r /\
       ar_emitted r' = ar_emitted r /\ w_outbox w' = w_outbox w) \/
    (exists a, list.last (w_outbox w') = Some a /\ sa_Firing a = true /\ sa_Seq a = ar_emittedSeq r' /\
       ar_emitted r' = Some (sa_State a));
}.

Lemma told_grows c w' : grows (cw_alert c) w' -> told c -> told (onAlert w' c).
Proof.
  intros [(l & Ho) Hr Hl] [Hb Hh Ht]. split; cbn [onAlert cw_alert cw_heard]; intros r' Hr'.
  - destruct (Hr r' Hr') as [(r & Hw & -> & Hle)|[-> ?]]; [|lia]. pose proof (Hb r Hw). lia.
  - destruct (Hr r' Hr') as [(r & Hw & -> & _)|[-> ?]]; [|lia]. intros Hp.
    destruct (Hh r Hw Hp) as (a & ch & Ha & ?). exists a, ch. rewrite Ho, elem_of_app. auto.
  - intros Hf. destruct (Hl r' Hr' Hf) as [(r & Hw & Hf' & -> & -> & Ho')|H]; [|done].
    rewrite Ho'. by apply Ht.
Qed.

Lemma emittedSeq_nonneg w : alert_inv w -> 0 <= emittedSeqOf w.
Proof.
  intros [(cur & Hlog & _) _ _]. clear -Hlog. induction Hlog; lia.
Qed.

Lemma grows_same_row w w' : w_row w' = w_row w -> w_outbox w' = w_outbox w -> grows w w'.
Proof.
  intros Hr Ho. split.
  - exists []. by rewrite Ho, app_nil_r.
  - intros r' H. rewrite Hr in H. left. exists r'. auto with lia.
  - intros r' H Hf. rewrite Hr in H. left. exists r'. auto.
Qed.

Lemma grows_evaluate w i w' why :
  alert_inv w -> OwnsPaging (w_policy w) = true -> evaluateOne w i = Ok (w', why) -> grows w w'.
Proof.
  intros Hinv Hown Hev. pose proof (emittedSeq_nonneg w Hinv) as Hn. unfold evaluateOne in Hev.
  destruct (ei_observed i) as [observed|].
  2:{ injection Hev as <- <-. split; cbn; [exists []; by rewrite app_nil_r|..].
      - intros r' [= <-]. destruct (w_row w) as [r|] eqn:Er; cbn; [left; exists r; auto with lia|right; done].
      - intros r' [= <-]. destruct (w_row w) as [r|] eqn:Er; cbn; [|done]. intros Hf. left. by exists r. }
  pose proof (observe_fst (w_row w) observed) as Hobs.
  destruct (observe (w_row w) observed) as [candidate streak]. cbn in Hobs. subst candidate.
  destruct (decideEvaluation w i observed streak) as [[d again] why'] eqn:Ed.
  pose proof (decideEvaluation_spec _ _ _ _ _ _ _ Ed Hown) as Hspec.
  destruct (emitServiceAlertTx _ _) as [eps ev] eqn:Eem.
  destruct (match w_row w with Some _ => _ | None => _ end); [done|].
  destruct (dc_Notify d).
  - destruct Hspec as [Hne Hspec]. injection Hev as <- <-. split; cbn; [by eexists|..]; intros r' [= <-]; cbn.
    + unfold emittedSeqOf in *. destruct (w_row w) as [r|] eqn:Er; [left; exists r; auto with lia|right; lia].
    + intros Hf. right. rewrite last_snoc. exists ev. split; [done|]. destruct (dc_Close d) eqn:Ec; [naive_solver congruence|].
      unfold emitServiceAlertTx in Eem. cbn in Eem. injection Eem as _ <-. by rewrite Hne.
  - injection Hev as <- <-. split; cbn; [exists []; by rewrite app_nil_r|..]; intros r' [= <-]; cbn; rewrite ?Hspec;
      unfold emittedSeqOf, firingOf, emittedOf; destruct (w_row w) as [r|] eqn:Er; try done.
    + left. exists r. auto with lia.
    + right. lia.
    + intros Hf. left. by exists r.
Qed.

Lemma grows_lifecycle w asOf reason : alert_inv w -> grows w (closeServiceEpisodesTx w asOf reason).
Proof.
  intros Hinv. pose proof Hinv as [(cur & Hlog & Hcur) _ _].
  destruct cur as [o|]; [|by apply grows_same_row; unfold closeServiceEpisodesTx; cbn; destruct Hcur as [-> _]; cbn;
                            rewrite ?app_nil_r].
  destruct Hcur as (e & He & Hf & _ & _ & Hs & _). unfold closeServiceEpisodesTx. rewrite He. cbn [foldl map].
  pose proof (emittedSeq_nonneg w Hinv). unfold firingOf, emittedSeqOf in *. destruct (w_row w) as [r|] eqn:Er; [|done].
  split; cbn [w_row w_outbox]; [by eexists|rewrite Er..]; intros r' [= <-]; cbn; [|done].
  left. exists r. split_and!; [done..|lia].
Qed.

Lemma grows_policy w pt managed asOf p w' :
  alert_inv w -> UpdateServiceAlertPolicy w pt managed asOf = Ok (p, w') -> grows w w'.
Proof.
  intros Hinv Hok. unfold UpdateServiceAlertPolicy in Hok. destruct managed; [done|]. cbn [refuse_if rbind] in Hok.
  set (before := Canonical (w_policy w)) in *. set (next := Canonical (Merged pt before)) in *.
  destruct (ServiceAlertPolicy_Validate next); [|done].
  destruct (noDiff before next); injection Hok as <- <-; [by apply grows_same_row|].
  assert (grows w (closeUncovered w before next asOf)) as [H1 H2 H3]; [|by split].
  unfold closeUncovered. pose proof (grows_lifecycle w asOf) as Hg.
  destruct (_ && _); [by apply Hg|]. destruct (pagingStatesChanged _ _); [|by apply grows_same_row].
  destruct (List.find _ _); [|by apply grows_same_row]. destruct (Pages _ _); [by apply grows_same_row|by apply Hg].
Qed.

Lemma coverage_step_inv c c' :
  coverage_step c c' -> alert_inv (cw_alert c) /\ told c -> alert_inv (cw_alert c') /\ told c'.
Proof.
  intros Hstep [Hinv Htold].
  destruct Hstep as [c i w' why Hown Hid Hev|c pt managed asOf p w' Hup|c id|c cfg now elapsed env e ob a Ht Hd Hin].
  - split; [by eapply alert_step_inv; [eapply step_evaluate|]|]. apply told_grows; [by eapply grows_evaluate|done].
  - split; [by eapply alert_step_inv; [eapply step_policy|]|]. apply told_grows; [by eapply grows_policy|done].
  - split; [eapply alert_step_inv; [apply step_human_resolves|done]|]. by apply told_grows; [apply grows_same_row|].
  - destruct (process_log cfg now elapsed env e ob a Ht Hd) as [Hrec Hcredit].
    set (log := (processEvent cfg now elapsed env e ob).1) in *.
    destruct (applyCalls env a log (cw_alert c) Hrec) as [[Ho Hr] Hsteps].
    unfold afterCalls. cbn [cw_alert]. specialize (Hsteps Hin). split.
    { clear -Hsteps Hinv. induction Hsteps as [|x y z Hs _ IH]; [done|]. apply IH. by eapply alert_step_inv. }
    destruct Htold as [Hb Hh Hl]. split; cbn [cw_alert cw_heard]; intros r' Hr';
      destruct (Hr r' Hr') as (r & Hw & Hf & He & Hs & Hdel).
    + pose proof (Hb r Hw). destruct Hdel as [->|(_ & -> & Hseq & Hle)]; lia.
    + rewrite Ho. destruct Hdel as [->|(Hc & -> & Hseq & _)].
      * intros Hp. destruct (Hh r Hw Hp) as (b & ch & ? & ? & ? & ?). exists b, ch. rewrite elem_of_app. auto.
      * intros _. destruct (Hcredit Hc) as (Hfire & ch & Hheard). exists (ae_alert a), ch. rewrite elem_of_app. auto.
    + rewrite Ho, Hf, He, Hs. by apply Hl.
Qed.

Lemma coverage_inv c : coverage_reachable c -> alert_inv (cw_alert c) /\ told c.
Proof.
  apply (invariant_rule coverage_system (fun c => alert_inv (cw_alert c) /\ told c)); [|apply coverage_step_inv].
  intros c0 [Hi Hh]. split.
  - apply alert_reachable_inv. exists (cw_alert c0). split; [done|constructor].
  - destruct Hi as (Hr & _). split; intros r Hr'; congruence.
Qed.

(** ** Coverage means somebody was told *)

(** In a log, sequences stay below the last one, and only the last announcement carries it. *)
Lemma log_last log cur n :
  alert_log log cur n -> forall a, a ∈ log -> sa_Seq a <= n /\ (sa_Seq a = n -> list.last log = Some a).
Proof.
  induction 1 as [|log cur n a _ IH _ _ _ Hn|log o n a _ IH _ _ _ _ Hn]; intros b Hb; [by apply not_elem_of_nil in Hb|..];
    rewrite last_snoc; apply elem_of_app in Hb as [Hb|Hb%list_elem_of_singleton];
    [destruct (IH b Hb) as [? _]; split; [lia|intros; exfalso; lia]|subst b; split; [lia|done]
    |destruct (IH b Hb) as [? _]; split; [lia|intros; exfalso; lia]|subst b; split; [lia|done]].
Qed.

(** The rows of a service in a snapshot are those of its world. *)
Definition describes (c : CoverageWorld) (s : CoverageService) : Prop :=
  coverage_reachable c /\ sv_state s = w_row (cw_alert c) /\ sv_policy s = w_policy (cw_alert c) /\
  is_ok (ServiceAlertPolicy_Validate (sv_policy s)) = true.

(** The service has nothing to announce, or the state it observes is the one it announced
    last and a channel accepted that announcement. *)
Definition answers_for_its_members (c : CoverageWorld) (r : AlertRow) : Prop :=
  nothingToAnnounce r = true \/
  exists a ch, list.last (w_outbox (cw_alert c)) = Some a /\ sa_Firing a = true /\ sa_State a = ar_observed r /\
    Pages (w_policy (cw_alert c)) (ar_observed r) = true /\ (ch, a) ∈ cw_heard c.

Lemma armed_was_heard now channels c s :
  describes c s -> (liveVerdict (clausesOf now channels s)).1 = true ->
  exists r, sv_state s = Some r /\ answers_for_its_members c r.
Proof.
  intros (Hreach & Hrow & Hpol & Hvalid) Ha. apply live_armed_iff in Ha as (r & Hr & Hc); [|done].
  exists r. split; [done|]. destruct (lc_told _ _ _ _ Hc) as [?|(Hp & Hf & He & Hs & Hd)]; [by left|right].
  destruct (coverage_inv c Hreach) as [[(cur & Hlog & _) _ _] [Hb Hh Hl]]. rewrite Hr in Hrow. symmetry in Hrow.
  destruct (Hl r Hrow Hf) as (o & Hlast & Hof & Hos & Hoe).
  destruct (Hh r Hrow) as (a & ch & Hin & Haf & Has & Hheard); [lia|].
  pose proof (Hb r Hrow) as Hbounds. unfold emittedSeqOf in Hlog. rewrite Hrow in Hlog.
  destruct (log_last _ _ _ Hlog a Hin) as [_ Hla]. rewrite Hla in Hlast by lia. injection Hlast as ->.
  exists o, ch. rewrite He in Hoe. injection Hoe as Hoe. rewrite <- Hpol, <- Hoe. rewrite Hla by lia. done.
Qed.

(** C4: nobody's alert is withheld in favour of silence.  When a worker mutes a monitor's DOWN
    or ladder step because services answer for it, there is such a service, its effective
    declaration names the monitor, and either its own state has nothing to announce or the
    state it observes is the one it announced last and at least one channel accepted that very
    announcement.  This holds after any evaluations, policy edits, deliveries, retries, lost
    claims, failed writes and condemnations, in any order. *)
Theorem withheld_alert_was_answered (env : forall c, answer c) now channels services worlds eventID m topic :
  (forall s, s ∈ services -> describes (worlds (sv_ID s)) s) ->
  env (AskDelegation (mn_ID m) (mo_project (mn_row m)) DelegationLive) =
    Ok (ActiveDelegation now channels services (mn_ID m) (mo_project (mn_row m)) DelegationLive) ->
  delegated env eventID m DelegationLive topic = true ->
  exists s r, s ∈ services /\ candidate now (mn_ID m) (mo_project (mn_row m)) s /\
    sv_state s = Some r /\ answers_for_its_members (worlds (sv_ID s)) r.
Proof.
  intros Hw Henv Hd. unfold delegated in Hd. rewrite Henv in Hd. apply andb_prop in Hd as [Hs _].
  unfold Suppress in Hs. set (v := ActiveDelegation _ _ _ _ _ _) in *.
  destruct (dv_Owners v) as [|o rest] eqn:Eo; [done|].
  assert (o ∈ dv_Owners v) as Ho by (rewrite Eo; by left).
  apply owners_are_armed in Ho as (s & Hin & Hc & Ha & _).
  destruct (armed_was_heard now channels _ s (Hw s Hin) Ha) as (r & Hr & Hans). by exists s, r.
Qed.
End coverage.

(** ** Example *)
Definition coverage0 : CoverageWorld := {| cw_alert := demoWorld; cw_heard := [] |}.
Definition coverage2 : CoverageWorld := {| cw_alert := demoDown2; cw_heard := [] |}.

(** The announcement of the outage, delivered to the pager. *)
Definition checkoutDown : ServiceAlertEvent :=
  {| ae_ServiceID := "s1"; ae_ProjectID := "p"; ae_Signal := ServiceSignalHealth; ae_RuleKey := ""; ae_SLATargetID := "";
     ae_alert := {| sa_Firing := true; sa_CloseReason := None; sa_EpisodeID := "e1"; sa_Seq := 1;
                    sa_Recipients := ["ch1"]; sa_State := AlertDown; sa_ConfirmedOver := 2 |} |}.
Definition firstAttempt : OutboxEvent DeliveryPayload :=
  {| ev_ID := "e1"; ev_Topic := TopicServiceAlert; ev_Payload := PayService checkoutDown; ev_Attempts := 1;
     ev_ClaimToken := "t"; ev_LeaseUntil := 0; ev_ClaimedAt := 0 |}.
Definition coverage3 : CoverageWorld :=
  afterCalls (answering noOwner (Ok tt)) (processEvent wiredWorker 3 0 (answering noOwner (Ok tt)) firstAttempt ∅).1 coverage2.

Definition checkoutService : CoverageService :=
  {| sv_ID := "s1"; sv_ProjectID := "p"; sv_Slug := "checkout"; sv_Name := "Checkout"; sv_policy := demoAlertPolicy;
     sv_generation := 1; sv_state := w_row (cw_alert coverage3); sv_schedule := None;
     sv_revisions := [{| dr_id := "rev1"; dr_revision := 1; dr_effective := true; dr_effective_at := 0; dr_sli := ["m1"] |}];
     sv_targets := []; sv_latches := [] |}.

Lemma coverage3_reachable : coverage_reachable (P := DeliveryPayload) coverage3.
Proof.
  exists coverage0. split; [done|].
  eapply rtc_l; [apply (cs_evaluate coverage0 (demoEval 1 AlertDown "e1") demoDown1 None); done|].
  eapply rtc_l; [apply (cs_evaluate _ (demoEval 2 AlertDown "e1") demoDown2 None); done|].
  apply rtc_once, (cs_process coverage2 wiredWorker 3 0 (answering noOwner (Ok tt)) firstAttempt ∅ checkoutDown);
    [reflexivity|reflexivity|]. left.
Qed.

Definition covering : DelegationVerdict :=
  ActiveDelegation 4 [pager] [checkoutService] "m1" "p" DelegationLive.

Example withheld_alert_was_answered_witness :
  delegated (answering covering (Ok tt)) "e2" checkoutMonitor DelegationLive TopicMonitorTransition = true /\
  exists s r, s ∈ [checkoutService] /\ candidate 4 "m1" "p" s /\ sv_state s = Some r /\ answers_for_its_members coverage3 r.
Proof.
  split; [reflexivity|].
  apply (withheld_alert_was_answered (P := DeliveryPayload) (answering covering (Ok tt)) 4 [pager] [checkoutService]
           (fun _ => coverage3) "e2" checkoutMonitor TopicMonitorTransition); [|reflexivity|reflexivity].
  intros s Hs. apply list_elem_of_singleton in Hs as ->. split; [apply coverage3_reachable|]. repeat split.
Defined.

Example armed_service_reaches_somebody_witness :
  exists route, resolveServiceRecipientsTx [pager] "p" None 4 = Ok route /\ route <> [].
Proof.
  apply (armed_service_reaches_somebody 4 [pager] checkoutService None DelegationLive); [reflexivity..|].
  intros sc [=].
Defined.
