(* ===== verification/Dependencies.v ===== *)
(** * The dependency graph of monitors
    ([internal/store/dependencies.go]; [checkDependencyDAG] of
    [internal/fileprovider/validate.go])

    The edges a child declares to its parents, the two writers that check them (one edit at a
    time over the stored graph, one bundle at a time over the declared one), and the walk that
    finds what a DOWN is a consequence of.  A recursive query is its levels: a row carries the
    level that produced it, so UNION removes the duplicates of one level.  Identifiers are the
    canonical texts of their uuids. *)

From S2P Require Import Prelude.

(** ** Rows *)
Record DepMonitor := {
  dm_project : string;
  dm_name : string;
  dm_down : bool;
  dm_autoIncident : bool;
}.

#[export] Instance depMonitor_eq : EqDecision DepMonitor.
Proof. solve_decision. Defined.

(** [monitor_dependencies]: (child, parent), oldest first. *)
Record DepDB := {
  dp_monitors : gmap string DepMonitor;
  dp_edges : list (string * string);
}.

Inductive DependencyError := ErrDependencyCycle | ErrDependencyForeign.
#[export] Instance dependencyError_eq : EqDecision DependencyError.
Proof. solve_decision. Defined.

Definition dependencyDepthCap : nat := 10.

(** ** Walking up *)
Definition parentsOf (edges : list (string * string)) (ids : list string) : list string :=
  remove_dups (omap (fun e => if bool_decide (e.1 ∈ ids) then Some e.2 else None) edges).

(** [anc]: the rows of each level, down to the depth cap. *)
Fixpoint climb (depth : nat) (edges : list (string * string)) (ids : list string) : list string :=
  match depth with
  | O => []
  | S depth' => let up := parentsOf edges ids in up ++ climb depth' edges up
  end.

(** ** Editing *)
Definition dedupe (ids : list string) : list string :=
  foldl (fun out id => if bool_decide (id = "") || bool_decide (id ∈ out) then out else out ++ [id]) [] ids.

Definition countParents (db : DepDB) (projectID monitorID : string) (parents : list string) : nat :=
  length (List.filter (fun kv => bool_decide (dm_project kv.2 = projectID) && bool_decide (kv.1 ∈ parents)
                                 && negb (bool_decide (kv.1 = monitorID))) (map_to_list (dp_monitors db))).

(** [DELETE] and the inserts. *)
Definition setParents (db : DepDB) (monitorID : string) (parents : list string) : DepDB :=
  {| dp_monitors := dp_monitors db;
     dp_edges := List.filter (fun e => negb (bool_decide (e.1 = monitorID))) (dp_edges db)
                 ++ map (fun p => (monitorID, p)) (dedupe parents) |}.

Definition ReplaceMonitorDependencies (db : DepDB) (monitorID projectID : string) (parents : list string) :
    result DependencyError DepDB :=
  let! _ := match parents with
    | [] => Ok tt
    | _ =>
      let! _ := refuse_if (negb (Nat.eqb (countParents db projectID monitorID parents) (length (dedupe parents))))
                          ErrDependencyForeign in
      refuse_if (bool_decide (monitorID ∈ climb dependencyDepthCap (dp_edges db) parents)) ErrDependencyCycle
    end in
  Ok (setParents db monitorID parents).

(** A monitor is gone with its edges ([ON DELETE CASCADE]). *)
Definition dropMonitor (db : DepDB) (id : string) : DepDB :=
  {| dp_monitors := delete id (dp_monitors db);
     dp_edges := List.filter (fun e => negb (bool_decide (e.1 = id)) && negb (bool_decide (e.2 = id))) (dp_edges db) |}.

(** ** The walk of a delivery *)
Definition countsAsDown (m : DepMonitor) : bool := dm_down m || dm_autoIncident m.

Definition name_le (a b : string * string) : Prop := String.le a.2 b.2.
#[local] Instance name_le_dec a b : Decision (name_le a b).
Proof. unfold name_le. apply _. Defined.

Definition DownAncestors (db : DepDB) (monitorID : string) : list (string * string) :=
  merge_sort name_le
    (omap (fun id => match dp_monitors db !! id with
                     | Some m => if countsAsDown m then Some (id, dm_name m) else None
                     | None => None
                     end)
          (remove_dups (climb dependencyDepthCap (dp_edges db) [monitorID]))).

(** ** The check of a bundle *)
Inductive Color := White | Gray | Black.
#[export] Instance color_eq : EqDecision Color.
Proof. solve_decision. Defined.

Inductive BundleGraphError :=
| DependsOnItself (uid : string)
| NotInThisBundle (uid dep : string)
| DependencyCycle (uid dep : string)
| OutOfFuel.

(** [dp.Monitors], the [DependsOn] of each. *)
Notation Declared := (gmap string (list string)).

Definition colorOf (color : gmap string Color) (uid : string) : Color := default White (color !! uid).

Definition checkTarget (dp : Declared) (uid : string) (r : result BundleGraphError unit) (dep : string) :
    result BundleGraphError unit :=
  let! _ := r in
  let! _ := refuse_if (bool_decide (dep = uid)) (DependsOnItself uid) in
  refuse_if (bool_decide (dp !! dep = None)) (NotInThisBundle uid dep).

(** [visit]: the fuel bounds the depth of the recursion. *)
Fixpoint visit (fuel : nat) (dp : Declared) (uid : string) (color : gmap string Color) :
    result BundleGraphError (gmap string Color) :=
  match fuel with
  | O => Err OutOfFuel
  | S fuel' =>
    let! done := foldl (fun r dep =>
        let! color := r in
        match colorOf color dep with
        | Gray => Err (DependencyCycle uid dep)
        | White => visit fuel' dp dep color
        | Black => Ok color
        end) (Ok (<[uid := Gray]> color)) (default [] (dp !! uid)) in
    Ok (<[uid := Black]> done)
  end.

Definition visitIfWhite (dp : Declared) (r : result BundleGraphError (gmap string Color)) (uid : string) :
    result BundleGraphError (gmap string Color) :=
  let! color := r in
  match colorOf color uid with White => visit (S (size dp)) dp uid color | _ => Ok color end.

Definition checkDependencyDAG (dp : Declared) : result BundleGraphError unit :=
  let! _ := foldl (fun r kv => foldl (checkTarget dp kv.1) r kv.2) (Ok tt) (map_to_list dp) in
  let! _ := foldl (visitIfWhite dp) (Ok ∅) (merge_sort String.le (map fst (map_to_list dp))) in
  Ok tt.
