(* ===== verification/DependencyFacts.v ===== *)
(** * Facts on the dependency graph

    What the edits keep, when a root of an outage is announced, and that the bundle's check
    accepts exactly the acyclic graphs. *)

From S2P Require Import Prelude Dependencies.

(** ** Walks *)

(** The child on the left, the parent on the right. *)
Definition edge (edges : list (string * string)) : relation string := fun x y => (x, y) ∈ edges.

Lemma elem_of_parentsOf edges ids y : y ∈ parentsOf edges ids <-> exists x, x ∈ ids /\ edge edges x y.
Proof.
  unfold parentsOf, edge. rewrite elem_of_remove_dups, list_elem_of_omap. split.
  - intros ([x p] & Hin & H). cbn in H. case_bool_decide; [|done]. injection H as ->. by exists x.
  - intros (x & Hx & He). exists (x, y). split; [done|]. cbn. by rewrite bool_decide_eq_true_2.
Qed.

Lemma elem_of_climb d edges ids y :
  y ∈ climb d edges ids <-> exists n x, (1 <= n <= d)%nat /\ x ∈ ids /\ nsteps (edge edges) n x y.
Proof.
  revert ids. induction d as [|d IH]; intros ids; cbn [climb].
  { rewrite elem_of_nil. split; [done|]. intros (n & x & ? & _). lia. }
  rewrite elem_of_app, IH. setoid_rewrite elem_of_parentsOf. split.
  - intros [(x & Hx & He)|(n & z & Hn & (x & Hx & He) & Hw)].
    + exists 1%nat, x. split; [lia|]. split; [done|by apply nsteps_once].
    + exists (S n), x. split; [lia|]. split; [done|by eapply nsteps_l].
  - intros (n & x & Hn & Hx & Hw). destruct Hw as [|n x z y He Hw]; [lia|].
    destruct n as [|n]; [left|right].
    + inversion Hw; subst. by exists x.
    + exists (S n), z. split; [lia|]. split; [by exists x|done].
Qed.

(** ** Edits *)

(** No closed walk as long as the check can see. *)
Definition no_short_cycle (edges : list (string * string)) : Prop :=
  forall n x, (1 <= n <= S dependencyDepthCap)%nat -> ~ nsteps (edge edges) n x x.

Lemma elem_of_dedupe ids x : x ∈ dedupe ids <-> x ∈ ids /\ x <> "".
Proof.
  unfold dedupe. enough (forall out, x ∈ foldl (fun out id =>
    if bool_decide (id = "") || bool_decide (id ∈ out) then out else out ++ [id]) out ids <-> x ∈ out \/ x ∈ ids /\ x <> "") as H
    by (rewrite H; set_solver).
  induction ids as [|id ids IH]; intros out; cbn [foldl]; [set_solver|]. rewrite IH.
  destruct (bool_decide (id = "") || bool_decide (id ∈ out)) eqn:E.
  - apply orb_true_iff in E as [E%bool_decide_eq_true|E%bool_decide_eq_true]; set_solver.
  - apply orb_false_iff in E as [E1%bool_decide_eq_false E2%bool_decide_eq_false]. set_solver.
Qed.

(** The edges of a graph that do not leave [c]. *)
Definition avoiding (c : string) (edges : list (string * string)) : list (string * string) :=
  List.filter (fun e => negb (bool_decide (e.1 = c))) edges.

Lemma edge_avoiding c edges x y : edge (avoiding c edges) x y <-> edge edges x y /\ x <> c.
Proof. unfold edge, avoiding. rewrite elem_of_filter_b, negb_true_iff, bool_decide_eq_false. done. Qed.

Section rewired.
Context (old new : list (string * string)) (c : string) (ps : list string).
Context (Hnew : forall x y, edge new x y <-> edge (avoiding c old) x y \/ x = c /\ y ∈ ps).

Lemma first_visit n x : nsteps (edge new) n x c -> exists i, (i <= n)%nat /\ nsteps (edge (avoiding c old)) i x c.
Proof.
  intros Hw. enough (forall y, nsteps (edge new) n x y -> y = c ->
    exists k, (k <= n)%nat /\ nsteps (edge (avoiding c old)) k x c) as H by (by apply (H c)).
  clear Hw. intros y. induction 1 as [x|n x y z He Hw IH]; intros Hz.
  - exists 0%nat. subst x. split; [lia|constructor].
  - destruct (decide (x = c)) as [->|Hx]; [exists 0%nat; split; [lia|constructor]|].
    destruct (IH Hz) as (k & Hk & Hw'). exists (S k). split; [lia|].
    apply Hnew in He as [He|[? _]]; [|done]. by eapply nsteps_l.
Qed.

Lemma old_or_through n x y :
  nsteps (edge new) n x y ->
  nsteps (edge (avoiding c old)) n x y \/
  exists a b p, (a + S b = n)%nat /\ nsteps (edge new) a x c /\ p ∈ ps /\ nsteps (edge new) b p y.
Proof.
  induction 1 as [x|n x z y He Hw IH]; [left; constructor|]. apply Hnew in He as [He|[-> Hp]].
  - destruct IH as [IH|(a & b & p & <- & Ha & Hp & Hb)]; [left; by eapply nsteps_l|right].
    exists (S a), b, p. split; [lia|]. split; [|done]. eapply nsteps_l; [|done]. apply Hnew. by left.
  - right. exists 0%nat, n, z. split; [lia|]. split; [constructor|done].
Qed.

(** A closed walk is one of the old graph, or leads from a new parent back to the child. *)
Lemma closed_walk n x :
  (1 <= n)%nat -> nsteps (edge new) n x x ->
  nsteps (edge (avoiding c old)) n x x \/
  exists p i, p ∈ ps /\ (S i <= n)%nat /\ nsteps (edge (avoiding c old)) i p c.
Proof.
  intros Hn Hw. destruct (old_or_through n x x Hw) as [?|(a & b & p & <- & Ha & Hp & Hb)]; [by left|right].
  destruct (first_visit (b + a) p) as (i & Hi & Hw'); [by eapply nsteps_trans|]. exists p, i. split; [done|]. split; [lia|done].
Qed.
End rewired.

(** ** The graph as a system

    The edits of one project run one at a time (they hold its lock); monitors come and go, and
    their state changes freely. *)
Inductive dep_step : DepDB -> DepDB -> Prop :=
| dp_replace db id m parents db' :
    dp_monitors db !! id = Some m ->
    ReplaceMonitorDependencies db id (dm_project m) parents = Ok db' -> dep_step db db'
| dp_drop db id : dep_step db (dropMonitor db id)
| dp_create db id m :
    id <> "" -> dp_monitors db !! id = None ->
    dep_step db {| dp_monitors := <[id := m]> (dp_monitors db); dp_edges := dp_edges db |}
| dp_observe db id m m' :
    dp_monitors db !! id = Some m -> dm_project m' = dm_project m ->
    dep_step db {| dp_monitors := <[id := m']> (dp_monitors db); dp_edges := dp_edges db |}.

Definition dep_initial (db : DepDB) : Prop := dp_monitors db = ∅ /\ dp_edges db = [].
Definition dep_system : system DepDB := System dep_initial dep_step.

Definition projectOf (db : DepDB) (id : string) : option string := dm_project <$> dp_monitors db !! id.

Record dep_inv (db : DepDB) : Prop := {
  di_short : no_short_cycle (dp_edges db);
  di_named : dp_monitors db !! "" = None;
  di_project : forall x y, edge (dp_edges db) x y -> is_Some (projectOf db x) /\ projectOf db x = projectOf db y;
}.

Lemma no_short_cycle_sub edges edges' :
  (forall x y, edge edges' x y -> edge edges x y) -> no_short_cycle edges -> no_short_cycle edges'.
Proof.
  intros H Hns n x Hn Hw. apply (Hns n x Hn).
  by eapply (nsteps_congruence (fun z : string => z)) in Hw; [exact Hw|].
Qed.

Lemma edge_setParents db c ps x y :
  edge (dp_edges (setParents db c ps)) x y <-> edge (avoiding c (dp_edges db)) x y \/ x = c /\ y ∈ dedupe ps.
Proof.
  unfold setParents, edge, avoiding. cbn. rewrite elem_of_app, list_elem_of_fmap. naive_solver.
Qed.

Lemma NoDup_dedupe ids : NoDup (dedupe ids).
Proof.
  unfold dedupe. enough (forall out, NoDup out -> NoDup (foldl (fun out id =>
    if bool_decide (id = "") || bool_decide (id ∈ out) then out else out ++ [id]) out ids)) as H by (apply H; constructor).
  induction ids as [|id ids IH]; intros out Hout; cbn [foldl]; [done|]. apply IH.
  destruct (bool_decide (id = "") || bool_decide (id ∈ out)) eqn:E; [done|].
  apply orb_false_iff in E as [_ E%bool_decide_eq_false]. apply list.NoDup_app. split; [done|]. split; [|apply NoDup_singleton].
  intros x Hx Hid. apply list_elem_of_singleton in Hid as ->. done.
Qed.

Lemma sublist_filter_b {A} (f : A -> bool) l : List.filter f l `sublist_of` l.
Proof. induction l as [|x l IH]; cbn; [constructor|]. destruct (f x); by constructor. Qed.

(** An edit whose count is right names monitors of the project other than the child. *)
Lemma counted_parents db project c ps :
  dp_monitors db !! "" = None -> countParents db project c ps = length (dedupe ps) ->
  forall p, p ∈ dedupe ps -> p <> c /\ projectOf db p = Some project.
Proof.
  unfold countParents. intros Hempty Hn. set (counted := List.filter _ _) in Hn.
  assert (forall q, q ∈ map fst counted -> q ∈ dedupe ps /\ q <> c /\ projectOf db q = Some project) as Hin.
  { intros q. unfold counted, projectOf. rewrite list_elem_of_fmap.
    intros ([k m] & -> & Hk). apply elem_of_filter_b in Hk as [Hk Hb]. apply elem_of_map_to_list in Hk. cbn in *.
    apply andb_prop in Hb as [Hb Hc]. apply andb_prop in Hb as [Hp Hps].
    apply bool_decide_eq_true in Hp, Hps. apply negb_true_iff, bool_decide_eq_false in Hc.
    rewrite Hk, elem_of_dedupe. cbn. split_and!; [done|congruence|done|congruence]. }
  assert (NoDup (map fst counted)) as Hnd.
  { eapply sublist_NoDup; [apply (NoDup_fst_map_to_list (dp_monitors db))|].
    unfold counted. apply fmap_sublist, sublist_filter_b. }
  intros p Hp. apply Hin.
  assert (map fst counted ⊆+ dedupe ps) as Hsub by (apply NoDup_submseteq; [done|]; intros q Hq; by apply Hin).
  apply submseteq_length_Permutation in Hsub; [by rewrite Hsub|]. rewrite length_map. lia.
Qed.

Lemma edge_filter f edges x y : edge (List.filter f edges) x y -> edge edges x y.
Proof. unfold edge. rewrite elem_of_filter_b. tauto. Qed.

Lemma inv_replace db c m ps db' :
  dp_monitors db !! c = Some m -> ReplaceMonitorDependencies db c (dm_project m) ps = Ok db' ->
  dep_inv db -> dep_inv db'.
Proof.
  intros Hc Hok [Hns Hnamed Hproj]. unfold ReplaceMonitorDependencies in Hok.
  assert (db' = setParents db c ps /\
    (forall p, p ∈ dedupe ps -> p <> c /\ projectOf db p = Some (dm_project m)) /\
    c ∉ climb dependencyDepthCap (dp_edges db) ps) as (-> & Hps & Hclimb).
  { destruct ps as [|p ps]; cbn [rbind] in Hok.
    - injection Hok as <-. split; [done|].
      split; [intros ? Hq; by apply not_elem_of_nil in Hq|].
      rewrite elem_of_climb. intros (? & ? & _ & Hq & _). by apply not_elem_of_nil in Hq.
    - destruct (Nat.eqb_spec (countParents db (dm_project m) c (p :: ps)) (length (dedupe (p :: ps)))) as [Hn|]; [|done].
      cbn [negb refuse_if rbind] in Hok. case_bool_decide; [done|]. cbn in Hok. injection Hok as <-.
      split; [done|]. split; [by apply counted_parents|done]. }
  pose proof (edge_setParents db c ps) as Hedge. split.
  - intros n x Hn Hw. apply (closed_walk (dp_edges db) _ c (dedupe ps) Hedge) in Hw as [Hw|(p & i & Hp & Hi & Hw)]; [| |lia].
    + eapply (no_short_cycle_sub _ (avoiding c (dp_edges db))); [|exact Hns|exact Hn|exact Hw].
      intros a b. rewrite edge_avoiding. tauto.
    + apply Hclimb, elem_of_climb. exists i, p. destruct (Hps p Hp) as [Hne _]. split.
      * destruct i; [inversion Hw; congruence|lia].
      * split; [by apply elem_of_dedupe in Hp as [? _]|].
        eapply (nsteps_congruence (fun z : string => z)) in Hw; [exact Hw|]. intros a b. cbn. by intros [? _]%edge_avoiding.
  - done.
  - intros x y Hxy. change (projectOf (setParents db c ps)) with (projectOf db).
    apply Hedge in Hxy as [Hxy|[-> Hy]].
    + apply edge_avoiding in Hxy as [Hxy _]. by apply Hproj.
    + destruct (Hps y Hy) as [_ Hy']. unfold projectOf in *. rewrite Hc, Hy'. cbn. by split.
Qed.

Lemma dep_step_inv db db' : dep_step db db' -> dep_inv db -> dep_inv db'.
Proof.
  intros Hstep Hinv. destruct Hstep as [db id m ps db' Hm Hok|db id|db id m Hid Hnone|db id m m' Hm Hp];
    [by eapply inv_replace|destruct Hinv as [Hns Hnamed Hproj]..].
  - split; cbn.
    + eapply no_short_cycle_sub; [|exact Hns]. intros x y. apply edge_filter.
    + rewrite lookup_delete_None. by right.
    + intros x y Hxy. unfold edge in Hxy. cbn in Hxy. apply elem_of_filter_b in Hxy as [Hxy Hne].
      apply andb_prop in Hne as [H1 H2]. cbn in H1, H2. apply negb_true_iff, bool_decide_eq_false in H1, H2.
      unfold projectOf. cbn. rewrite !lookup_delete_ne by done. by apply Hproj.
  - split; cbn; [done|by rewrite lookup_insert_ne|].
    intros x y Hxy. destruct (Hproj x y Hxy) as [Hx Hy]. unfold projectOf in *. cbn.
    assert (forall z, is_Some (dm_project <$> dp_monitors db !! z) -> <[id:=m]> (dp_monitors db) !! z = dp_monitors db !! z) as Hz.
    { intros z Hz. destruct (decide (z = id)) as [->|]; [|by rewrite lookup_insert_ne]. rewrite Hnone in Hz. by destruct Hz. }
    rewrite (Hz x Hx), (Hz y) by (by rewrite <- Hy). done.
  - assert (forall z, projectOf {| dp_monitors := <[id:=m']> (dp_monitors db); dp_edges := dp_edges db |} z = projectOf db z) as Hz.
    { intros z. unfold projectOf. cbn. destruct (decide (z = id)) as [->|]; [|by rewrite lookup_insert_ne].
      rewrite lookup_insert_eq, Hm. cbn. by rewrite Hp. }
    split; cbn; [done| |intros x y Hxy; rewrite !Hz; by apply Hproj].
    rewrite lookup_insert_ne; [done|]. intros ->. congruence.
Qed.

Lemma dep_reachable_inv db : sys_reachable dep_system db -> dep_inv db.
Proof.
  apply (invariant_rule dep_system dep_inv); [|apply dep_step_inv].
  intros db0 [Hm He]. split; [|by rewrite Hm, lookup_empty|].
  - intros n x Hn Hw. rewrite He in Hw. destruct Hw as [|n x y z Hxy _]; [lia|]. by apply not_elem_of_nil in Hxy.
  - intros x y Hxy. rewrite He in Hxy. by apply not_elem_of_nil in Hxy.
Qed.

(** ** Roots *)
Lemma walk_or_cycle (R : relation string) n x y :
  nsteps R n x y ->
  (exists z k, (1 <= k <= n)%nat /\ nsteps R k z z) \/
  exists l, NoDup l /\ length l = S n /\ forall v, v ∈ l -> exists j, (j <= n)%nat /\ nsteps R j x v.
Proof.
  induction 1 as [x|n x y z Hxy Hw IH].
  { right. exists [x]. split; [apply NoDup_singleton|]. split; [done|]. intros v Hv%list_elem_of_singleton.
    exists 0%nat. subst v. split; [lia|constructor]. }
  destruct IH as [(v & k & Hk & Hc)|(l & Hnd & Hlen & Hl)]; [left; exists v, k; split; [lia|done]|].
  destruct (decide (x ∈ l)) as [Hin|Hin].
  - left. destruct (Hl x Hin) as (j & Hj & Hback). exists x, (S j). split; [lia|]. by eapply nsteps_l.
  - right. exists (x :: l). split; [by constructor|]. split; [cbn; lia|]. intros v [->|Hv]%elem_of_cons.
    + exists 0%nat. split; [lia|constructor].
    + destruct (Hl v Hv) as (j & Hj & Hto). exists (S j). split; [lia|]. by eapply nsteps_l.
Qed.

Definition members (db : DepDB) (project : string) : list string :=
  map fst (List.filter (fun kv => bool_decide (dm_project kv.2 = project)) (map_to_list (dp_monitors db))).

Lemma elem_of_members db project id : id ∈ members db project <-> projectOf db id = Some project.
Proof.
  unfold members, projectOf. rewrite list_elem_of_fmap. setoid_rewrite elem_of_filter_b. split.
  - intros ([k m] & -> & Hk & Hp). apply elem_of_map_to_list in Hk. apply bool_decide_eq_true in Hp. cbn in *.
    apply fmap_Some. by exists m.
  - intros (m & Hm & ->)%fmap_Some. exists (id, m). split; [done|]. rewrite bool_decide_eq_true, elem_of_map_to_list. done.
Qed.

Lemma walk_in_project db n x y :
  dep_inv db -> nsteps (edge (dp_edges db)) n x y -> projectOf db x = projectOf db y.
Proof.
  intros [_ _ Hproj]. induction 1 as [|n x y z Hxy _ IH]; [done|]. destruct (Hproj x y Hxy). congruence.
Qed.

(** In a project of no more monitors than the check can see, a walk is shorter than that. *)
Lemma short_walks db n x y project :
  dep_inv db -> projectOf db x = Some project -> (length (members db project) <= S dependencyDepthCap)%nat ->
  nsteps (edge (dp_edges db)) n x y -> (n <= dependencyDepthCap)%nat.
Proof.
  intros Hinv Hx Hsmall Hw. destruct (decide (n <= dependencyDepthCap)%nat) as [|Hn]; [done|exfalso].
  replace n with (S dependencyDepthCap + (n - S dependencyDepthCap))%nat in Hw by lia.
  apply nsteps_add_inv in Hw as (z & Hw & _). destruct (walk_or_cycle _ _ _ _ Hw) as [(v & k & Hk & Hc)|(l & Hnd & Hlen & Hl)].
  - by apply (di_short db Hinv k v).
  - assert (l ⊆+ members db project) as Hsub.
    { apply NoDup_submseteq; [done|]. intros v Hv. destruct (Hl v Hv) as (j & _ & Hj). apply elem_of_members.
      by rewrite <- (walk_in_project db j x v Hinv Hj). }
    apply submseteq_length in Hsub. lia.
Qed.

Lemma elem_of_DownAncestors db id a name :
  (a, name) ∈ DownAncestors db id <->
  exists m, dp_monitors db !! a = Some m /\ countsAsDown m = true /\ name = dm_name m /\
    exists n, (1 <= n <= dependencyDepthCap)%nat /\ nsteps (edge (dp_edges db)) n id a.
Proof.
  unfold DownAncestors. rewrite merge_sort_Permutation, list_elem_of_omap. setoid_rewrite elem_of_remove_dups.
  setoid_rewrite elem_of_climb. split.
  - intros (x & (n & y & Hn & Hy & Hw) & H). apply list_elem_of_singleton in Hy as ->.
    destruct (dp_monitors db !! x) as [m|] eqn:Em; [|done]. destruct (countsAsDown m) eqn:Ed; [|done].
    injection H as <- <-. exists m. split_and!; try done. by exists n.
  - intros (m & Hm & Hd & -> & n & Hn & Hw). exists a. split; [exists n, id; set_solver|]. by rewrite Hm, Hd.
Qed.

Lemma outage_root db fuel : forall n x y m project,
  dep_inv db -> projectOf db x = Some project -> (length (members db project) <= S dependencyDepthCap)%nat ->
  nsteps (edge (dp_edges db)) n x y -> (dependencyDepthCap < n + fuel)%nat ->
  dp_monitors db !! y = Some m -> countsAsDown m = true ->
  exists root mr k, nsteps (edge (dp_edges db)) k x root /\
    dp_monitors db !! root = Some mr /\ countsAsDown mr = true /\ DownAncestors db root = [].
Proof.
  induction fuel as [|fuel IH]; intros n x y m project Hinv Hx Hsmall Hw Hf Hm Hd.
  { pose proof (short_walks db n x y project Hinv Hx Hsmall Hw). lia. }
  destruct (DownAncestors db y) as [|[a name] rest] eqn:Ea; [by exists y, m, n|].
  assert ((a, name) ∈ DownAncestors db y) as Ha by (rewrite Ea; by left).
  apply elem_of_DownAncestors in Ha as (ma & Hma & Hda & _ & k & Hk & Hwk).
  apply (IH (n + k)%nat x a ma project); try done; [by eapply nsteps_trans|lia].
Qed.

(** an edit never closes a cycle the check can see.  Whatever monitors come and go and
    whatever edits are accepted, the graph has no closed walk of eleven edges or fewer, every
    edge stays inside one project, and nobody depends on a monitor that is gone. *)
Theorem edits_keep_short_cycles_out db :
  sys_reachable dep_system db ->
  no_short_cycle (dp_edges db) /\
  forall x y, edge (dp_edges db) x y ->
    x <> y /\ exists mx my, dp_monitors db !! x = Some mx /\ dp_monitors db !! y = Some my /\
      dm_project mx = dm_project my.
Proof.
  intros Hr. apply dep_reachable_inv in Hr as [Hns _ Hproj]. split; [done|]. intros x y Hxy. split.
  - intros ->. apply (Hns 1%nat y); [unfold dependencyDepthCap; lia|]. by apply nsteps_once.
  - destruct (Hproj x y Hxy) as [[p Hp] Hxy']. rewrite Hp in Hxy'. symmetry in Hxy'. unfold projectOf in *.
    apply fmap_Some in Hp as (mx & Hmx & ->), Hxy' as (my & Hmy & ?). by exists mx, my.
Qed.


(** ** Beyond the cap *)
Definition ringNames : list string := ["a"; "b"; "c"; "d"; "e"; "f"; "g"; "h"; "i"; "j"; "k"; "l"].
Definition ringMonitor (down : bool) (name : string) : DepMonitor :=
  {| dm_project := "p"; dm_name := name; dm_down := down; dm_autoIncident := false |}.
Definition ringMap (down : bool) : gmap string DepMonitor :=
  list_to_map (map (fun n => (n, ringMonitor down n)) ringNames).
Definition ringDB (down : bool) (edges : list (string * string)) : DepDB :=
  {| dp_monitors := ringMap down; dp_edges := edges |}.

(** Each monitor is made to depend on the next, and the last on the first. *)
Definition ringEdits : list (string * string) :=
  [("a","b"); ("b","c"); ("c","d"); ("d","e"); ("e","f"); ("f","g"); ("g","h"); ("h","i"); ("i","j"); ("j","k");
   ("k","l"); ("l","a")].
Definition ringAfter (n : nat) : DepDB := ringDB false (firstn n ringEdits).

Definition dep_edit (db db' : DepDB) (e : string * string) : bool :=
  match dp_monitors db !! e.1, ReplaceMonitorDependencies db e.1 "p" [e.2] with
  | Some m, Ok db'' => bool_decide (dm_project m = "p") && bool_decide (dp_edges db'' = dp_edges db')
  | _, _ => false
  end.

Lemma ring_step n e : ringEdits !! n = Some e -> dep_step (ringAfter n) (ringAfter (S n)).
Proof.
  intros He. assert (forallb (fun n => match ringEdits !! n with
    | Some e => match ReplaceMonitorDependencies (ringAfter n) e.1 "p" [e.2] with
                | Ok db => bool_decide (dp_edges db = dp_edges (ringAfter (S n)))
                | Err _ => false end
    | None => true end && match ringEdits !! n with
    | Some e => bool_decide (dp_monitors (ringAfter n) !! e.1 = Some (ringMonitor false e.1)) | None => true end)
    (seq 0 12) = true) as Hall by (vm_compute; reflexivity).
  assert (n < 12)%nat as Hn by (apply lookup_lt_Some in He; exact He).
  apply forallb_elem with (x := n) in Hall; [|apply elem_of_seq; lia]. rewrite He in Hall.
  apply andb_prop in Hall as [Hok Hm]. apply bool_decide_eq_true in Hm.
  destruct (ReplaceMonitorDependencies (ringAfter n) e.1 "p" [e.2]) as [db|] eqn:Eok; [|done].
  apply bool_decide_eq_true in Hok. assert (db = ringAfter (S n)) as ->.
  { assert (dp_monitors db = dp_monitors (ringAfter n)) as Hmon.
    { unfold ReplaceMonitorDependencies in Eok. cbn [rbind] in Eok.
      destruct (refuse_if _ _); [|done]. cbn [rbind] in Eok. destruct (refuse_if _ _); [|done].
      by injection Eok as <-. }
    destruct db as [ms es]. cbn in Hmon, Hok. by subst ms es. }
  eapply (dp_replace (ringAfter n) e.1 (ringMonitor false e.1)); [exact Hm|exact Eok].
Qed.

Lemma ring_created ns :
  NoDup ns -> "" ∉ ns ->
  rtc dep_step {| dp_monitors := ∅; dp_edges := [] |}
               {| dp_monitors := list_to_map (map (fun n => (n, ringMonitor false n)) ns); dp_edges := [] |}.
Proof.
  induction ns as [|n ns IH]; intros Hnd Hne; [constructor|]. apply list.NoDup_cons in Hnd as [Hn Hnd].
  etransitivity; [apply IH; [done|set_solver]|]. apply rtc_once. cbn [map list_to_map].
  apply (dp_create {| dp_monitors := list_to_map (map (fun n => (n, ringMonitor false n)) ns); dp_edges := [] |}); [set_solver|].
  cbn [dp_monitors]. apply not_elem_of_list_to_map_1. rewrite list_elem_of_fmap. intros (x & Hnx & Hx).
  apply list_elem_of_fmap in Hx as (n' & -> & Hx). cbn in Hnx. by subst n'.
Qed.

Definition goDown (m : DepMonitor) : DepMonitor := ringMonitor true (dm_name m).

Lemma ring_goes_down ids edges ms :
  (forall id m, ms !! id = Some m -> dm_project m = "p") ->
  rtc dep_step {| dp_monitors := ms; dp_edges := edges |}
               {| dp_monitors := foldr (fun id acc => alter goDown id acc) ms ids; dp_edges := edges |}.
Proof.
  intros Hp. induction ids as [|id ids IH]; cbn [foldr]; [constructor|]. etransitivity; [exact IH|].
  set (acc := foldr _ ms ids).
  assert (forall id m, acc !! id = Some m -> dm_project m = "p") as Hacc.
  { unfold acc. clear IH acc. induction ids as [|i ids IH]; cbn; [done|]. intros j m Hj.
    apply lookup_alter_Some in Hj as [(-> & m' & Hm' & ->)|[_ Hj]]; [done|by eapply IH]. }
  destruct (acc !! id) as [m|] eqn:Em.
  - replace (alter goDown id acc) with (<[id := goDown m]> acc).
    + apply rtc_once, (dp_observe {| dp_monitors := acc; dp_edges := edges |} id m (goDown m)); [done|].
      by rewrite (Hacc id m Em).
    + apply map_eq. intros j. destruct (decide (j = id)) as [->|Hj].
      * by rewrite lookup_insert_eq, lookup_alter_eq, Em.
      * by rewrite lookup_insert_ne, lookup_alter_ne.
  - replace (alter goDown id acc) with acc; [constructor|]. apply map_eq. intros j.
    destruct (decide (j = id)) as [->|Hj]; [by rewrite lookup_alter_eq, Em|by rewrite lookup_alter_ne].
Qed.

(** the cap is not only a cost bound: twelve edits that are each accepted make twelve
    monitors depend on each other in a ring, and when they all go down each of them has a down
    ancestor, so that no alert about the outage names a root. *)
Theorem twelve_monitors_blame_each_other :
  exists db, sys_reachable dep_system db /\ length (members db "p") = 12%nat /\
    forall id m, dp_monitors db !! id = Some m -> countsAsDown m = true /\ DownAncestors db id <> [].
Proof.
  exists (ringDB true ringEdits). split; [|split; [vm_compute; reflexivity|]].
  - exists {| dp_monitors := ∅; dp_edges := [] |}. split; [done|].
    etransitivity; [apply (ring_created ringNames); by_decision|].
    etransitivity.
    + assert (forall n, (n <= 12)%nat -> rtc dep_step (ringAfter 0) (ringAfter n)) as Hn; [|exact (Hn 12%nat ltac:(lia))].
      induction n as [|n IH]; intros Hn; [constructor|]. eapply rtc_r; [apply IH; lia|].
      destruct (ringEdits !! n) as [e|] eqn:Ee; [by eapply ring_step|].
      apply lookup_ge_None in Ee. change (length ringEdits) with 12%nat in Ee. lia.
    + unfold ringAfter, ringDB.
      assert (ringMap true = foldr (fun id acc => alter goDown id acc) (ringMap false) ringNames) as -> by by_decision.
      apply ring_goes_down. intros id m Hm. apply elem_of_list_to_map_2, list_elem_of_fmap in Hm as (? & [= -> ->] & _). done.
  - intros id m Hm. apply elem_of_list_to_map_2, list_elem_of_fmap in Hm as (n & [= -> ->] & Hin). split; [done|].
    assert (forallb (fun n => negb (bool_decide (DownAncestors (ringDB true ringEdits) n = []))) ringNames = true) as Hall
      by (vm_compute; reflexivity).
    apply forallb_elem with (x := n) in Hall; [|done]. by apply negb_true_iff, bool_decide_eq_false in Hall.
Qed.

(** ** The check of a bundle *)
Section bundle.
Context (dp : Declared).

Definition depends : relation string := fun x y => exists ds, dp !! x = Some ds /\ y ∈ ds.
Definition targets_ok : Prop := forall x y, depends x y -> y <> x /\ is_Some (dp !! y).
Definition cyclic : Prop := exists n x, (1 <= n)%nat /\ nsteps depends n x x.

Lemma foldl_err {E A B} (f : result E A -> B -> result E A) (e : E) l :
  (forall b, f (Err e) b = Err e) -> foldl f (Err e) l = Err e.
Proof. intros H. induction l as [|b l IH]; cbn; [done|by rewrite H]. Qed.

Lemma checkTarget_fold uid ds r :
  foldl (checkTarget dp uid) r ds = Ok tt <-> r = Ok tt /\ forall d, d ∈ ds -> d <> uid /\ is_Some (dp !! d).
Proof.
  revert r. induction ds as [|d ds IH]; intros r; cbn [foldl]; [set_solver|]. rewrite IH.
  unfold checkTarget. destruct r as [[]|e]; cbn [rbind]; [|split; intros [? _]; done].
  setoid_rewrite elem_of_cons. rewrite rbind_unit_Ok, !refuse_if_Ok, !bool_decide_eq_false.
  setoid_rewrite <- not_eq_None_Some. split.
  - intros [[H1 H2] H]. split; [done|]. intros x [->|Hx]; auto.
  - intros [_ H]. split; [apply H; by left|]. intros x Hx. apply H. by right.
Qed.

Lemma checkTargets_ok :
  foldl (fun r kv => foldl (checkTarget dp kv.1) r kv.2) (Ok tt) (map_to_list dp) = Ok tt <-> targets_ok.
Proof.
  transitivity (forall kv, kv ∈ map_to_list dp -> forall d, d ∈ kv.2 -> d <> kv.1 /\ is_Some (dp !! d)).
  - generalize (map_to_list dp). intros l.
    enough (forall r, foldl (fun r kv => foldl (checkTarget dp kv.1) r kv.2) r l = Ok tt <->
      r = Ok tt /\ forall kv, kv ∈ l -> forall d, d ∈ kv.2 -> d <> kv.1 /\ is_Some (dp !! d)) as H by (rewrite H; naive_solver).
    induction l as [|kv l IH]; intros r; cbn [foldl]; [set_solver|]. rewrite IH, checkTarget_fold.
    setoid_rewrite elem_of_cons. naive_solver.
  - unfold targets_ok, depends. split.
    + intros H x y (ds & Hx & Hy). apply (H (x, ds)); [by apply elem_of_map_to_list|done].
    + intros H [x ds] Hx d Hd. apply elem_of_map_to_list in Hx. apply (H x d). by exists ds.
Qed.

(** *** One visit *)
Implicit Types (c : gmap string Color).

Definition whites c : list string := List.filter (fun x => bool_decide (colorOf c x = White)) (map fst (map_to_list dp)).

(** Gray nodes stay gray and black ones black. *)
Definition extends c c' : Prop :=
  (forall x, colorOf c x = Gray <-> colorOf c' x = Gray) /\ (forall x, colorOf c x = Black -> colorOf c' x = Black).

(** Nothing below a black node leads back to it. *)
Definition black_ok c : Prop := forall x, colorOf c x = Black -> Acc (fun y x => depends x y) x.

Lemma extends_refl c : extends c c.
Proof. done. Qed.
Lemma extends_trans c1 c2 c3 : extends c1 c2 -> extends c2 c3 -> extends c1 c3.
Proof. intros [H1 H2] [H3 H4]. split; [intros x; by rewrite H1|auto]. Qed.

Lemma extends_white c c' x : extends c c' -> colorOf c' x = White -> colorOf c x = White.
Proof.
  intros [Hg Hb] Hw. destruct (colorOf c x) eqn:E; [done| |].
  - apply Hg in E. congruence.
  - apply Hb in E. congruence.
Qed.

Lemma colorOf_insert c x y k : colorOf (<[x := k]> c) y = if decide (y = x) then k else colorOf c y.
Proof. unfold colorOf. destruct (decide (y = x)) as [->|]; [by rewrite lookup_insert_eq|by rewrite lookup_insert_ne]. Qed.

Lemma filter_length_sub {A} (f g : A -> bool) l :
  (forall x, g x = true -> f x = true) -> (length (List.filter g l) <= length (List.filter f l))%nat.
Proof.
  intros H. induction l as [|x l IH]; cbn; [done|]. destruct (g x) eqn:E; [rewrite (H x E); cbn; lia|].
  destruct (f x); cbn; lia.
Qed.

Lemma filter_length_lt {A} (f g : A -> bool) l x :
  (forall x, g x = true -> f x = true) -> x ∈ l -> f x = true -> g x = false ->
  (length (List.filter g l) < length (List.filter f l))%nat.
Proof.
  intros H Hx Hf Hg. induction l as [|y l IH]; [by apply not_elem_of_nil in Hx|].
  apply elem_of_cons in Hx as [->|Hx].
  - cbn. rewrite Hf, Hg. cbn. pose proof (filter_length_sub f g l H). lia.
  - specialize (IH Hx). cbn. destruct (g y) eqn:E; [rewrite (H y E); cbn; lia|]. destruct (f y); cbn; lia.
Qed.

Lemma whites_extends c c' : extends c c' -> (length (whites c') <= length (whites c))%nat.
Proof.
  intros He. apply filter_length_sub. intros x. rewrite !bool_decide_eq_true. by apply extends_white.
Qed.

Lemma whites_gray c uid :
  colorOf c uid = White -> is_Some (dp !! uid) -> (S (length (whites (<[uid := Gray]> c))) <= length (whites c))%nat.
Proof.
  intros Hw [ds Hds]. apply (filter_length_lt _ _ _ uid).
  - intros x. rewrite !bool_decide_eq_true, colorOf_insert. by destruct (decide (x = uid)).
  - apply list_elem_of_fmap. exists (uid, ds). split; [done|by apply elem_of_map_to_list].
  - by apply bool_decide_eq_true.
  - apply bool_decide_eq_false. rewrite colorOf_insert. by destruct (decide (uid = uid)).
Qed.

(** What a visit promises. *)
Definition visited uid c (r : result BundleGraphError (gmap string Color)) : Prop :=
  match r with
  | Ok c' => extends c c' /\ black_ok c' /\ colorOf c' uid = Black
  | Err (DependencyCycle _ _) => cyclic
  | Err _ => False
  end.

(** The grays lead down to the node in hand. *)
Definition stacked uid c : Prop := forall g, colorOf c g = Gray -> exists n, nsteps depends n g uid.

Definition next_dep (fuel : nat) uid (r : result BundleGraphError (gmap string Color)) (dep : string) :=
  let! color := r in
  match colorOf color dep with
  | Gray => Err (DependencyCycle uid dep)
  | White => visit fuel dp dep color
  | Black => Ok color
  end.

Lemma deps_visited fuel uid ds c :
  (forall d c, depends uid d -> colorOf c d = White -> stacked d c -> black_ok c -> (length (whites c) <= fuel)%nat ->
     visited d c (visit fuel dp d c)) ->
  (forall d, d ∈ ds -> depends uid d) ->
  colorOf c uid = Gray -> stacked uid c -> black_ok c -> (length (whites c) <= fuel)%nat ->
  match foldl (next_dep fuel uid) (Ok c) ds with
  | Ok c' => extends c c' /\ black_ok c' /\ forall d, d ∈ ds -> colorOf c' d = Black
  | Err (DependencyCycle _ _) => cyclic
  | Err _ => False
  end.
Proof.
  intros Hvisit. revert c. induction ds as [|d ds IH]; intros c Hds Hg Hst Hb Hf; cbn [foldl].
  { split; [apply extends_refl|]. split; [done|]. intros d Hd. by apply not_elem_of_nil in Hd. }
  assert (depends uid d) as Hd by (apply Hds; by left).
  assert (forall d, d ∈ ds -> depends uid d) as Hds' by (intros x Hx; apply Hds; by right).
  change (next_dep fuel uid (Ok c) d) with (match colorOf c d with
    | Gray => Err (DependencyCycle uid d) | White => visit fuel dp d c | Black => Ok c end).
  assert (forall c1, extends c c1 -> black_ok c1 -> colorOf c1 d = Black ->
    match foldl (next_dep fuel uid) (Ok c1) ds with
    | Ok c' => extends c c' /\ black_ok c' /\ forall d0, d0 ∈ d :: ds -> colorOf c' d0 = Black
    | Err (DependencyCycle _ _) => cyclic
    | Err _ => False
    end) as Hrest.
  { intros c1 He1 Hb1 Hd1. assert (stacked uid c1) as Hst1 by (intros g Hg1; apply Hst; by apply (proj1 He1)).
    specialize (IH c1 Hds' (proj1 (proj1 He1 uid) Hg) Hst1 Hb1).
    pose proof (whites_extends c c1 He1). specialize (IH ltac:(lia)).
    destruct (foldl _ _ ds) as [c'|e]; [|exact IH]. destruct IH as (He & Hb' & Hall). split; [by eapply extends_trans|].
    split; [done|]. intros x [->|Hx]%elem_of_cons; [by apply He|by apply Hall]. }
  destruct (colorOf c d) eqn:Ecol.
  - assert (stacked d c) as Hstd.
    { intros g Hg'. destruct (Hst g Hg') as (n & Hn). exists (S n). by eapply nsteps_r. }
    specialize (Hvisit d c Hd Ecol Hstd Hb Hf). destruct (visit fuel dp d c) as [c1|e].
    + destruct Hvisit as (He1 & Hb1 & Hd1). by apply Hrest.
    + rewrite (foldl_err (next_dep fuel uid)); [|done]. exact Hvisit.
  - rewrite (foldl_err (next_dep fuel uid)); [|done]. destruct (Hst d Ecol) as (n & Hn).
    exists (S n), uid. split; [lia|]. by eapply nsteps_l.
  - by apply Hrest.
Qed.

Lemma visit_S fuel uid c :
  visit (S fuel) dp uid c =
  (let! done := foldl (next_dep fuel uid) (Ok (<[uid := Gray]> c)) (default [] (dp !! uid)) in Ok (<[uid := Black]> done)).
Proof. reflexivity. Qed.

(** A visit of a white node with enough fuel: it blackens the node, or finds a cycle. *)
Lemma visit_spec (Ht : targets_ok) fuel : forall uid c,
  is_Some (dp !! uid) -> colorOf c uid = White -> stacked uid c -> black_ok c -> (length (whites c) <= fuel)%nat ->
  visited uid c (visit fuel dp uid c).
Proof.
  induction fuel as [|fuel IH]; intros uid c Hin Hw Hst Hb Hf.
  { pose proof (whites_gray c uid Hw Hin). lia. }
  pose proof (whites_gray c uid Hw Hin) as Hless. destruct Hin as [ds Hds].
  set (c1 := <[uid := Gray]> c) in *.
  assert (forall x, x <> uid -> colorOf c1 x = colorOf c x) as Hother
    by (intros x Hx; unfold c1; rewrite colorOf_insert; by destruct (decide (x = uid))).
  assert (colorOf c1 uid = Gray) as Hg1 by (unfold c1; rewrite colorOf_insert; by destruct (decide (uid = uid))).
  pose proof (deps_visited fuel uid ds c1) as Hloop. rewrite visit_S, Hds.
  change (default [] (Some ds)) with ds. fold c1.
  assert (forall x, colorOf c1 x = Black <-> colorOf c x = Black) as Hblack.
  { intros x. destruct (decide (x = uid)) as [->|Hx]; [rewrite Hg1, Hw; done|by rewrite Hother]. }
  assert (match foldl (next_dep fuel uid) (Ok c1) ds with
          | Ok c' => extends c1 c' /\ black_ok c' /\ forall d, d ∈ ds -> colorOf c' d = Black
          | Err (DependencyCycle _ _) => cyclic
          | Err _ => False
          end) as Hres.
  { apply Hloop; clear Hloop.
    - intros d c' Hd Hdw Hdst Hdb Hdf. apply IH; try assumption. by apply (Ht uid d).
    - intros d Hd. by exists ds.
    - exact Hg1.
    - intros g Hg. destruct (decide (g = uid)) as [->|Hne]; [exists 0%nat; constructor|].
      apply Hst. by rewrite <- Hother.
    - intros x Hx. apply Hb. by apply Hblack.
    - lia. }
  destruct (foldl (next_dep fuel uid) (Ok c1) ds) as [c'|e]; cbn [rbind]; [|exact Hres].
  destruct Hres as ([Hgray Hbl] & Hb' & Hall). split; [|split].
  - split; intros x; rewrite colorOf_insert; destruct (decide (x = uid)) as [->|Hx].
    + rewrite Hw. done.
    + rewrite <- Hgray, Hother by done. done.
    + done.
    + intros Hx'. apply Hbl. by apply Hblack.
  - intros x. rewrite colorOf_insert. destruct (decide (x = uid)) as [->|Hx]; [|apply Hb'].
    intros _. constructor. intros y (ds' & Hds' & Hy). rewrite Hds in Hds'. injection Hds' as <-. by apply Hb', Hall.
  - rewrite colorOf_insert. by destruct (decide (uid = uid)).
Qed.

(** The nodes of the bundle, one after the other. *)
Lemma bundle_visited (Ht : targets_ok) uids c :
  (forall u, u ∈ uids -> is_Some (dp !! u)) -> (forall x, colorOf c x <> Gray) -> black_ok c ->
  match foldl (visitIfWhite dp) (Ok c) uids with
  | Ok c' => extends c c' /\ black_ok c' /\ forall u, u ∈ uids -> colorOf c' u = Black
  | Err (DependencyCycle _ _) => cyclic
  | Err _ => False
  end.
Proof.
  revert c. induction uids as [|u uids IH]; intros c Hin Hng Hb; cbn [foldl].
  { split; [apply extends_refl|]. split; [done|]. intros d Hd. by apply not_elem_of_nil in Hd. }
  assert (forall u, u ∈ uids -> is_Some (dp !! u)) as Hin' by (intros x Hx; apply Hin; by right).
  change (visitIfWhite dp (Ok c) u) with (match colorOf c u with White => visit (S (size dp)) dp u c | _ => Ok c end).
  assert (forall c1, extends c c1 -> black_ok c1 -> colorOf c1 u = Black ->
    match foldl (visitIfWhite dp) (Ok c1) uids with
    | Ok c' => extends c c' /\ black_ok c' /\ forall d, d ∈ u :: uids -> colorOf c' d = Black
    | Err (DependencyCycle _ _) => cyclic
    | Err _ => False
    end) as Hrest.
  { intros c1 He1 Hb1 Hu1. assert (forall x, colorOf c1 x <> Gray) as Hng1 by (intros x Hx; by apply He1, Hng in Hx).
    specialize (IH c1 Hin' Hng1 Hb1). destruct (foldl _ _ uids) as [c'|e]; [|exact IH].
    destruct IH as (He & Hb' & Hall). split; [by eapply extends_trans|].
    split; [done|]. intros x [->|Hx]%elem_of_cons; [by apply He|by apply Hall]. }
  destruct (colorOf c u) eqn:Ecol; [|by apply Hng in Ecol|by apply Hrest].
  assert (visited u c (visit (S (size dp)) dp u c)) as Hv.
  { apply visit_spec; try done; [apply Hin; by left|intros g Hg; by apply Hng in Hg|].
    transitivity (length (map fst (map_to_list dp))); [apply List.filter_length_le|].
    rewrite length_map, length_map_to_list. lia. }
  destruct (visit (S (size dp)) dp u c) as [c1|e]; [by apply Hrest; apply Hv|].
  rewrite (foldl_err (visitIfWhite dp)); [exact Hv|done].
Qed.

Lemma Acc_no_loop x : Acc (fun y x => depends x y) x -> forall n, (1 <= n)%nat -> ~ nsteps depends n x x.
Proof.
  induction 1 as [x _ IH]. intros n Hn Hw. destruct n as [|n]; [lia|]. inversion Hw as [|? ? y ? Hxy Hw']; subst.
  apply (IH y Hxy (S n)); [lia|]. by eapply nsteps_r.
Qed.

Lemma foldl_not_fuel {A B} (f : result BundleGraphError A -> B -> result BundleGraphError A) l r :
  (forall r b, r <> Err OutOfFuel -> f r b <> Err OutOfFuel) -> r <> Err OutOfFuel -> foldl f r l <> Err OutOfFuel.
Proof. intros Hf. revert r. induction l as [|b l IH]; intros r Hr; cbn; [done|]. by apply IH, Hf. Qed.

Lemma first_not_fuel :
  foldl (fun r kv => foldl (checkTarget dp kv.1) r kv.2) (Ok tt) (map_to_list dp) <> Err OutOfFuel.
Proof.
  apply foldl_not_fuel; [|done]. intros r kv Hr. apply foldl_not_fuel; [|done]. clear r Hr. intros r d Hr.
  unfold checkTarget. destruct r as [[]|e]; cbn [rbind]; [|done].
  destruct (bool_decide (d = kv.1)); cbn [refuse_if rbind]; [done|]. by destruct (bool_decide _).
Qed.

(** C36: a bundle's graph is accepted exactly when every dependency is another monitor of the
    bundle and no monitor depends on itself through others; the depth-first search always
    ends, with no more nested visits than there are monitors. *)
Theorem checkDependencyDAG_iff :
  (checkDependencyDAG dp = Ok tt <-> targets_ok /\ ~ cyclic) /\ checkDependencyDAG dp <> Err OutOfFuel.
Proof.
  unfold checkDependencyDAG. set (first := foldl _ (Ok tt) _).
  assert (first = Ok tt <-> targets_ok) as Hfirst by apply checkTargets_ok.
  assert (first <> Err OutOfFuel) as Hfuel by apply first_not_fuel.
  destruct first as [[]|e]; cbn [rbind]; [|split; [split; [done|intros [Ht _]; by apply Hfirst in Ht]|exact Hfuel]].
  assert (targets_ok) as Ht by by apply Hfirst.
  set (uids := merge_sort String.le _).
  assert (forall u, u ∈ uids <-> is_Some (dp !! u)) as Hu.
  { intros u. unfold uids. rewrite merge_sort_Permutation, list_elem_of_fmap. split.
    - intros ([x ds] & -> & Hx). apply elem_of_map_to_list in Hx. by exists ds.
    - intros [ds Hds]. exists (u, ds). split; [done|by apply elem_of_map_to_list]. }
  pose proof (bundle_visited Ht uids ∅) as Hv. specialize (Hv ltac:(intros u; apply Hu)).
  assert (forall x, colorOf ∅ x = White) as Hwhite by (intros x; unfold colorOf; by rewrite lookup_empty).
  specialize (Hv ltac:(intros x; rewrite Hwhite; done) ltac:(intros x; rewrite Hwhite; done)).
  destruct (foldl (visitIfWhite dp) (Ok ∅) uids) as [c'|e]; cbn [rbind].
  - destruct Hv as (_ & Hb & Hall). split; [|done]. split; [|done]. intros _. split; [done|].
    intros (n & x & Hn & Hw). apply (Acc_no_loop x) with (n := n); [|exact Hn|exact Hw]. apply Hb, Hall, Hu.
    destruct n; [lia|]. inversion Hw as [|? ? y ? (ds & Hds & _) _]; subst. by exists ds.
  - destruct e as [u|u d|u d|]; [destruct Hv..| |destruct Hv]. split; [|discriminate]. split; [discriminate|].
    intros [_ Hc]. destruct (Hc Hv).
Qed.
End bundle.

(** A chain of three is accepted, a ring of three is not. *)
Example bundle_chain : checkDependencyDAG {["a" := ["b"]; "b" := ["c"]; "c" := []]} = Ok tt.
Proof. by vm_compute. Qed.
Example bundle_ring : checkDependencyDAG {["a" := ["b"]; "b" := ["c"]; "c" := ["a"]]} = Err (DependencyCycle "c" "a").
Proof. by vm_compute. Qed.

(** ** Example *)
Definition pairDB (edges : list (string * string)) : DepDB :=
  {| dp_monitors := {["a" := ringMonitor true "a"; "b" := ringMonitor true "b"]}; dp_edges := edges |}.

Lemma pair_reachable : sys_reachable dep_system (pairDB [("a", "b")]).
Proof.
  exists {| dp_monitors := ∅; dp_edges := [] |}. split; [done|].
  eapply rtc_l; [by apply (dp_create _ "b" (ringMonitor true "b"))|].
  eapply rtc_l; [by apply (dp_create _ "a" (ringMonitor true "a"))|].
  apply rtc_once, (dp_replace (pairDB []) "a" (ringMonitor true "a") ["b"]); reflexivity.
Qed.

Example edits_keep_short_cycles_out_witness :
  exists mx my, dp_monitors (pairDB [("a", "b")]) !! "a" = Some mx /\ dp_monitors (pairDB [("a", "b")]) !! "b" = Some my /\
    dm_project mx = dm_project my.
Proof. apply (edits_keep_short_cycles_out _ pair_reachable). left. Defined.

