(* ===== verification/Escalation.v ===== *)
(** * The on-call ladder
    ([AdvanceEscalations] of [internal/store/escalation.go])

    One pass of the leader over the open, unacknowledged auto-incidents: the two selections,
    the targets of a rung at the instant it fires, the rungs whose offset has elapsed, the
    repeats of the last one, and the latch.  A monitor's incident reads its policy live; a
    service's climbs the ladder it froze when it opened.  The identifiers of the rows, in the
    order the selections returned them, are arguments; reads that fail abort the pass and are
    left out. *)

From S2P Require Import Prelude GoFloat GoString OnCall ServicePolicy MonitorRow Incidents ServiceAlert Dependencies Interact Dispatch.

(** ** Rows *)

(** [incident_escalation_snapshots]. *)
Record LadderSnapshot := {
  sn_policyID : string;
  sn_policyName : string;
  sn_repeatLast : bool;
  sn_steps : list EscalationStep;
  sn_dueBase : Time;
}.

(** The columns of [services] a ladder reads, with the service's alert state. *)
Record LadderService := {
  ls_name : string;
  ls_project : string;
  ls_policyID : option string;
  ls_ownsPaging : bool;
  ls_renotify : Z;
  ls_state : option AlertRow;
}.

Record LadderDB := {
  ld_incidents : gmap string Incident;
  ld_monitors : gmap string Monitor;
  ld_edges : list (string * string);
  ld_services : gmap string LadderService;
  ld_snapshots : gmap string LadderSnapshot;
  ld_policies : gmap string EscalationPolicy;
  ld_schedules : gmap string OnCallSchedule;
  ld_channels : list NotificationChannel;
}.

Definition withIncidents (db : LadderDB) (incs : gmap string Incident) : LadderDB :=
  {| ld_incidents := incs; ld_monitors := ld_monitors db; ld_edges := ld_edges db; ld_services := ld_services db;
     ld_snapshots := ld_snapshots db; ld_policies := ld_policies db; ld_schedules := ld_schedules db;
     ld_channels := ld_channels db |}.

(** [openInc]: one candidate of a pass. *)
Record openInc := {
  oi_id : string;
  oi_monitorID : string;
  oi_serviceID : string;
  oi_name : string;
  oi_policyID : string;
  oi_projectID : string;
  oi_dueBase : Time;
  oi_step : Z;
  oi_lastEscalated : option Time;
  oi_renotifySeconds : Z;
  oi_frozen : option EscalationPolicy;
}.

(** ** Who escalates *)
Definition paging (i : Incident) : bool :=
  bool_decide (in_Source i = SourceAuto) && negb (bool_decide (in_Status i = IncidentResolved))
  && bool_decide (in_AcknowledgedAt i = None).

(** Some parent of the monitor, however far within the cap, is down. *)
Definition parentDown (db : LadderDB) (monitorID : string) : bool :=
  existsb (fun p => match ld_monitors db !! p with
                    | Some m => bool_decide (mo_Status (mn_row m) = StatusDown)
                    | None => false
                    end) (climb dependencyDepthCap (ld_edges db) [monitorID]).

(** The first selection. *)
Definition monitorCandidate (db : LadderDB) (id : string) : option openInc :=
  match ld_incidents db !! id with
  | None => None
  | Some i =>
    match ld_monitors db !! in_MonitorID i with
    | None => None
    | Some m =>
      match mo_EscalationPolicyID (mn_row m) with
      | None => None
      | Some policy =>
        if paging i && mo_Enabled (mn_row m) && bool_decide (mo_Status (mn_row m) = StatusDown)
           && negb (parentDown db (in_MonitorID i))
        then Some {| oi_id := id; oi_monitorID := in_MonitorID i; oi_serviceID := ""; oi_name := mn_Name m;
                     oi_policyID := policy; oi_projectID := mo_project (mn_row m); oi_dueBase := in_StartedAt i;
                     oi_step := in_EscalationStep i; oi_lastEscalated := in_LastEscalatedAt i;
                     oi_renotifySeconds := mo_RenotifySeconds (mn_row m); oi_frozen := None |}
        else None
      end
    end
  end.

(** The second selection. *)
Definition serviceFires (now : Time) (s : LadderService) : bool :=
  negb (bool_decide (ls_policyID s = None)) && ls_ownsPaging s
  && match ls_state s with Some r => ar_firing r && (now <? ar_leaseUntil r) | None => false end.

Definition frozenPolicy (project : string) (sn : LadderSnapshot) : EscalationPolicy :=
  {| ep_ID := sn_policyID sn; ep_ProjectID := project; ep_Name := sn_policyName sn;
     ep_RepeatLast := sn_repeatLast sn; ep_Steps := sn_steps sn |}.

Definition serviceCandidate (db : LadderDB) (now : Time) (id : string) : option openInc :=
  match ld_incidents db !! id, ld_snapshots db !! id with
  | Some i, Some sn =>
    match ld_services db !! in_ServiceID i with
    | None => None
    | Some s =>
      if paging i && negb (bool_decide (in_ServiceID i = "")) && serviceFires now s
      then Some {| oi_id := id; oi_monitorID := ""; oi_serviceID := in_ServiceID i; oi_name := ls_name s;
                   oi_policyID := sn_policyID sn; oi_projectID := ls_project s; oi_dueBase := sn_dueBase sn;
                   oi_step := in_EscalationStep i; oi_lastEscalated := in_LastEscalatedAt i;
                   oi_renotifySeconds := ls_renotify s; oi_frozen := Some (frozenPolicy (ls_project s) sn) |}
      else None
    end
  | _, _ => None
  end.

(** ** The targets of a rung *)
Definition loadPolicy (db : LadderDB) (projectID id : string) : option EscalationPolicy :=
  match ld_policies db !! id with
  | Some p => if bool_decide (ep_ProjectID p = projectID) then Some p else None
  | None => None
  end.

Definition loadSchedule (db : LadderDB) (projectID id : string) : option OnCallSchedule :=
  match ld_schedules db !! id with
  | Some sc => if bool_decide (oc_ProjectID sc = projectID) then Some sc else None
  | None => None
  end.

Definition channelInProject (db : LadderDB) (projectID id : string) : bool :=
  existsb (fun c => bool_decide (nc_ID c = id) && bool_decide (nc_ProjectID c = projectID)) (ld_channels db).

(** The channel one target stands for at this instant. *)
Definition targetChannel (db : LadderDB) (now : Time) (projectID : string) (t : EscalationTarget) : option string :=
  match et_Type t with
  | TargetChannel => if channelInProject db projectID (et_ID t) then Some (et_ID t) else None
  | TargetSchedule =>
    match loadSchedule db projectID (et_ID t) with
    | Some sc => if channelInProject db projectID (OnCall sc now) then Some (OnCall sc now) else None
    | None => None
    end
  | TargetOther _ => None
  end.

Definition resolveTargets (db : LadderDB) (now : Time) (projectID : string) (step : EscalationStep) : list string :=
  dedupe (omap (targetChannel db now projectID) (es_Targets step)).

(** ** One incident *)
Definition stepAlert (inc : openInc) (step : Z) (repeat : bool) (channelIDs : list string) : EscalationStepAlert :=
  {| ea_IncidentID := oi_id inc; ea_MonitorID := oi_monitorID inc; ea_MonitorName := oi_name inc;
     ea_ServiceID := oi_serviceID inc; ea_SubjectName := oi_name inc; ea_Step := step; ea_Repeat := repeat;
     ea_ChannelIDs := channelIDs |}.

(** [enqueueStep]: a rung that resolves to nobody is not sent. *)
Definition enqueueStep (inc : openInc) (step : Z) (repeat : bool) (channelIDs : list string) : list EscalationStepAlert :=
  match channelIDs with [] => [] | _ => [stepAlert inc step repeat channelIDs] end.

(** What a pass has done for an incident so far: its step, when it last paged, what it queued. *)
Record LadderRun := { lr_step : Z; lr_last : option Time; lr_alerts : list EscalationStepAlert }.

Definition paged (now : Time) (inc : openInc) (step : Z) (repeat : bool) (targets : list string) (next : Z)
    (r : LadderRun) : LadderRun :=
  {| lr_step := next;
     lr_last := match targets with [] => lr_last r | _ => Some now end;
     lr_alerts := lr_alerts r ++ enqueueStep inc step repeat targets |}.

Definition dueAt (inc : openInc) (s : EscalationStep) : Time := Add (oi_dueBase inc) (mul64 (es_AfterSeconds s) Second).

(** The loop over the rungs not yet fired. *)
Fixpoint fireElapsed (db : LadderDB) (now : Time) (inc : openInc) (rungs : list EscalationStep) (r : LadderRun) : LadderRun :=
  match rungs with
  | [] => r
  | s :: rest =>
    if now <? dueAt inc s then r
    else fireElapsed db now inc rest
           (paged now inc (lr_step r) false (resolveTargets db now (oi_projectID inc) s) (lr_step r + 1) r)
  end.

Definition repeatReady (now : Time) (inc : openInc) (r : LadderRun) : bool :=
  match lr_last r with
  | None => true
  | Some t => Add t (mul64 (oi_renotifySeconds inc) Second) <=? now
  end.

(** The repeat of the last rung on the renotify cadence. *)
Definition repeatLast (db : LadderDB) (now : Time) (inc : openInc) (p : EscalationPolicy) (r : LadderRun) : LadderRun :=
  match list.last (ep_Steps p) with
  | Some s =>
    if (Z.of_nat (length (ep_Steps p)) <=? lr_step r) && ep_RepeatLast p && (0 <? oi_renotifySeconds inc)
       && repeatReady now inc r
    then paged now inc (Z.of_nat (length (ep_Steps p)) - 1) true (resolveTargets db now (oi_projectID inc) s) (lr_step r) r
    else r
  | None => r
  end.

Definition policyOf (db : LadderDB) (inc : openInc) : option EscalationPolicy :=
  match oi_frozen inc with Some p => Some p | None => loadPolicy db (oi_projectID inc) (oi_policyID inc) end.

(** The rungs from the latched one on; [escalation_step] is never negative. *)
Definition runLadder (db : LadderDB) (now : Time) (inc : openInc) (p : EscalationPolicy) : LadderRun :=
  repeatLast db now inc p
    (fireElapsed db now inc (skipn (Z.to_nat (oi_step inc)) (ep_Steps p))
       {| lr_step := oi_step inc; lr_last := oi_lastEscalated inc; lr_alerts := [] |}).

(** The [UPDATE] of [incidents]; a run that changed nothing writes what was there. *)
Definition latched (r : LadderRun) (i : Incident) : Incident :=
  {| in_ID := in_ID i; in_ProjectID := in_ProjectID i; in_MonitorID := in_MonitorID i; in_ServiceID := in_ServiceID i;
     in_ExternalKey := in_ExternalKey i; in_Title := in_Title i; in_Status := in_Status i; in_Impact := in_Impact i;
     in_Source := in_Source i; in_StartedAt := in_StartedAt i; in_ResolvedAt := in_ResolvedAt i;
     in_AcknowledgedAt := in_AcknowledgedAt i; in_AcknowledgedBy := in_AcknowledgedBy i;
     in_AcknowledgedByName := in_AcknowledgedByName i; in_EscalationStep := lr_step r; in_LastEscalatedAt := lr_last r;
     in_CreatedAt := in_CreatedAt i; in_UpdatedAt := in_UpdatedAt i |}.

(** ** The pass *)

(** [EscalationPass]. *)
Record EscalationPass := { ps_MonitorSteps : Z; ps_ServiceSteps : Z }.
Definition Total (p : EscalationPass) : Z := ps_MonitorSteps p + ps_ServiceSteps p.

Definition countAlerts (p : EscalationPass) (inc : openInc) (alerts : list EscalationStepAlert) : EscalationPass :=
  let n := Z.of_nat (length alerts) in
  if bool_decide (oi_serviceID inc = "")
  then {| ps_MonitorSteps := ps_MonitorSteps p + n; ps_ServiceSteps := ps_ServiceSteps p |}
  else {| ps_MonitorSteps := ps_MonitorSteps p; ps_ServiceSteps := ps_ServiceSteps p + n |}.

Definition escalateOne (now : Time) (acc : LadderDB * list EscalationStepAlert * EscalationPass) (inc : openInc) :
    LadderDB * list EscalationStepAlert * EscalationPass :=
  let '(db, queued, pass) := acc in
  match policyOf db inc with
  | None => acc
  | Some p =>
    let r := runLadder db now inc p in
    (withIncidents db (alter (latched r) (oi_id inc) (ld_incidents db)), queued ++ lr_alerts r,
     countAlerts pass inc (lr_alerts r))
  end.

(** The candidates are selected before any of them is advanced. *)
Definition AdvanceEscalations (now : Time) (monitorRows serviceRows : list string) (db : LadderDB) :
    LadderDB * list EscalationStepAlert * EscalationPass :=
  foldl (escalateOne now) (db, [], {| ps_MonitorSteps := 0; ps_ServiceSteps := 0 |})
    (omap (monitorCandidate db) monitorRows ++ omap (serviceCandidate db now) serviceRows).
