(* ===== verification/EscalationFacts.v ===== *)
(** * Facts on the on-call ladder

    What one pass fires, who may page at all, and that the pages of an incident, over any
    passes and any edits between them, climb its ladder. *)

From S2P Require Import Prelude GoFloat GoString OnCall ServicePolicy MonitorRow Incidents ServiceAlert Dependencies Interact Dispatch DispatchFacts Escalation.

(** ** One run *)
Section run.
Context (db : LadderDB) (now : Time) (inc : openInc).

Notation resolve s := (resolveTargets db now (oi_projectID inc) s).

(** The pages of consecutive rungs, the first of them numbered [n]. *)
Fixpoint rungAlerts (n : Z) (rungs : list EscalationStep) : list EscalationStepAlert :=
  match rungs with
  | [] => []
  | s :: rest => enqueueStep inc n false (resolve s) ++ rungAlerts (n + 1) rest
  end.

(** The leading rungs whose offset has elapsed. *)
Fixpoint elapsed (rungs : list EscalationStep) : list EscalationStep :=
  match rungs with
  | [] => []
  | s :: rest => if now <? dueAt inc s then [] else s :: elapsed rest
  end.

Definition lastAfter (alerts : list EscalationStepAlert) (last : option Time) : option Time :=
  match alerts with [] => last | _ => Some now end.

Lemma lastAfter_app a b last : lastAfter (a ++ b) last = lastAfter b (lastAfter a last).
Proof. destruct a, b; cbn; rewrite ?app_nil_r; done. Qed.

Lemma paged_eq step repeat targets next r :
  paged now inc step repeat targets next r =
  {| lr_step := next; lr_last := lastAfter (enqueueStep inc step repeat targets) (lr_last r);
     lr_alerts := lr_alerts r ++ enqueueStep inc step repeat targets |}.
Proof. unfold paged. by destruct targets. Qed.

Lemma fireElapsed_eq rungs r :
  fireElapsed db now inc rungs r =
  {| lr_step := lr_step r + Z.of_nat (length (elapsed rungs));
     lr_last := lastAfter (rungAlerts (lr_step r) (elapsed rungs)) (lr_last r);
     lr_alerts := lr_alerts r ++ rungAlerts (lr_step r) (elapsed rungs) |}.
Proof.
  revert r. induction rungs as [|s rest IH]; intros r; cbn [fireElapsed elapsed].
  { cbn. rewrite Z.add_0_r, app_nil_r. by destruct r. }
  destruct (now <? dueAt inc s); [cbn; rewrite Z.add_0_r, app_nil_r; by destruct r|].
  rewrite IH, paged_eq. cbn [lr_step lr_last lr_alerts rungAlerts length]. rewrite lastAfter_app, app_assoc.
  replace (lr_step r + 1 + Z.of_nat (length (elapsed rest))) with (lr_step r + Z.of_nat (S (length (elapsed rest)))) by lia.
  done.
Qed.

(** The repeat a run makes after its rungs, from where they left it. *)
Definition repeated (p : EscalationPolicy) (r : LadderRun) : list EscalationStepAlert :=
  match list.last (ep_Steps p) with
  | Some s =>
    if (Z.of_nat (length (ep_Steps p)) <=? lr_step r) && ep_RepeatLast p && (0 <? oi_renotifySeconds inc)
       && repeatReady now inc r
    then enqueueStep inc (Z.of_nat (length (ep_Steps p)) - 1) true (resolve s) else []
  | None => []
  end.

Lemma repeatLast_eq p r :
  repeatLast db now inc p r =
  {| lr_step := lr_step r; lr_last := lastAfter (repeated p r) (lr_last r); lr_alerts := lr_alerts r ++ repeated p r |}.
Proof.
  unfold repeatLast, repeated. destruct (list.last (ep_Steps p)) as [s|].
  - destruct (_ && _); [by rewrite paged_eq|]. cbn. rewrite app_nil_r. by destruct r.
  - cbn. rewrite app_nil_r. by destruct r.
Qed.

Lemma repeated_shape p r : repeated p r = [] \/
  exists a, repeated p r = [a] /\ ea_Repeat a = true /\ ea_IncidentID a = oi_id inc /\
    ea_Step a = Z.of_nat (length (ep_Steps p)) - 1 /\ 0 < oi_renotifySeconds inc /\ repeatReady now inc r = true.
Proof.
  unfold repeated. destruct (list.last _) as [s|]; [|by left]. destruct (_ && _) eqn:E; [|by left]. bool_facts.
  unfold enqueueStep. destruct (resolve s) as [|c cs]; [by left|]. right. by eexists.
Qed.

Lemma rungAlerts_elem n rungs a :
  a ∈ rungAlerts n rungs ->
  ea_IncidentID a = oi_id inc /\ ea_Repeat a = false /\ ea_ServiceID a = oi_serviceID inc /\ ea_MonitorID a = oi_monitorID inc /\
  exists j s, rungs !! j = Some s /\ ea_Step a = n + Z.of_nat j /\ ea_ChannelIDs a = resolve s /\ resolve s <> [].
Proof.
  revert n. induction rungs as [|s rest IH]; intros n Ha; cbn in Ha; [by apply not_elem_of_nil in Ha|].
  apply elem_of_app in Ha as [Ha|Ha].
  - unfold enqueueStep in Ha. destruct (resolve s) as [|c cs] eqn:Er; [by apply not_elem_of_nil in Ha|].
    apply list_elem_of_singleton in Ha as ->. split_and!; try done. exists 0%nat, s. cbn. rewrite Er. split_and!; try done. lia.
  - destruct (IH _ Ha) as (H1 & H2 & H3 & H4 & j & s' & Hj & Hs & Hc). split_and!; try done. exists (S j), s'. cbn.
    split_and!; [done|lia|apply Hc..].
Qed.
End run.

(** ** What the pages of an incident look like

    Every page of a rung carries the next number that was not used; rungs that resolved to
    nobody leave gaps; a repeat comes at least a second after everything before it. *)
Inductive climbs (due : Z -> Time -> Prop) : list (Time * EscalationStepAlert) -> Z -> option Time -> Prop :=
| climbs_start : climbs due [] 0 None
| climbs_unheard pages n last m : climbs due pages n last -> n <= m -> climbs due pages m last
| climbs_rung pages n last t a :
    climbs due pages n last -> ea_Repeat a = false -> ea_Step a = n -> due n t ->
    (forall u, last = Some u -> u <= t) -> climbs due (pages ++ [(t, a)]) (n + 1) (Some t)
| climbs_repeat pages n last t a :
    climbs due pages n last -> ea_Repeat a = true -> (forall u, last = Some u -> u + Second <= t) ->
    climbs due (pages ++ [(t, a)]) n (Some t).

Lemma climbs_mono (due due' : Z -> Time -> Prop) pages n last :
  (forall k t, due k t -> due' k t) -> climbs due pages n last -> climbs due' pages n last.
Proof.
  intros H. induction 1 as [|? ? ? ? _ IH ?|? ? ? ? ? _ IH ? ? ? ?|? ? ? ? ? _ IH ? ?].
  - constructor.
  - by eapply climbs_unheard.
  - eapply climbs_rung; eauto.
  - eapply climbs_repeat; eauto.
Qed.

Lemma climbs_nonneg due pages n last : climbs due pages n last -> 0 <= n.
Proof. induction 1; lia. Qed.

Definition at_ (now : Time) (alerts : list EscalationStepAlert) : list (Time * EscalationStepAlert) :=
  map (fun a => (now, a)) alerts.

Lemma climbs_rungs due db now inc rungs : forall pages n last,
  climbs due pages n last -> (forall u, last = Some u -> u <= now) ->
  (forall j s, rungs !! j = Some s -> due (n + Z.of_nat j) now) ->
  climbs due (pages ++ at_ now (rungAlerts db now inc n rungs)) (n + Z.of_nat (length rungs))
    (lastAfter now (rungAlerts db now inc n rungs) last).
Proof.
  induction rungs as [|s rest IH]; intros pages n last Hc Hl Hd; cbn [rungAlerts length].
  { cbn. by rewrite app_nil_r, Z.add_0_r. }
  assert (forall j s', rest !! j = Some s' -> due (n + 1 + Z.of_nat j) now) as Hd'.
  { intros j s' Hj. specialize (Hd (S j) s' Hj). by replace (n + 1 + Z.of_nat j) with (n + Z.of_nat (S j)) by lia. }
  replace (n + Z.of_nat (S (length rest))) with (n + 1 + Z.of_nat (length rest)) by lia.
  rewrite lastAfter_app. unfold at_. rewrite map_app, app_assoc.
  unfold enqueueStep. destruct (resolveTargets db now (oi_projectID inc) s) as [|ch chs].
  - cbn [map lastAfter app]. rewrite app_nil_r. apply IH; [|done..]. eapply climbs_unheard; [done|lia].
  - cbn [map lastAfter]. apply IH; [|by intros u [= <-]|done].
    eapply climbs_rung; [done..| |done]. specialize (Hd 0%nat s eq_refl). by rewrite Z.add_0_r in Hd.
Qed.

(** A whole run continues what came before it. *)
Lemma climbs_run due db now inc p pages :
  climbs due pages (oi_step inc) (oi_lastEscalated inc) ->
  (forall u, oi_lastEscalated inc = Some u -> u <= now) -> oi_renotifySeconds inc < 2 ^ 31 ->
  (forall j s, elapsed now inc (skipn (Z.to_nat (oi_step inc)) (ep_Steps p)) !! j = Some s -> due (oi_step inc + Z.of_nat j) now) ->
  let r := runLadder db now inc p in climbs due (pages ++ at_ now (lr_alerts r)) (lr_step r) (lr_last r).
Proof.
  intros Hc Hl Hint Hd r. unfold r, runLadder. rewrite fireElapsed_eq, repeatLast_eq. cbn [lr_step lr_last lr_alerts app].
  pose proof (climbs_rungs due db now inc _ _ _ _ Hc Hl Hd) as Hr.
  set (rungs := elapsed _ _ _) in *. set (alerts := rungAlerts _ _ _ _ rungs) in *.
  unfold at_ in *. rewrite map_app, app_assoc.
  match goal with |- context [repeated db now inc p ?x] => set (r1 := x); destruct (repeated_shape db now inc p r1)
    as [->|(a & -> & Hrep & _ & _ & Hpos & Hready)] end.
  { cbn. by rewrite app_nil_r. }
  cbn [map lastAfter]. eapply climbs_repeat; [exact Hr|done|].
  intros u Hu. unfold repeatReady in Hready. cbn [lr_last r1] in Hready. rewrite Hu in Hready.
  apply Z.leb_le in Hready. unfold Add, mul64 in Hready. rewrite wrap64_id in Hready; unfold Second, int64_min, int64_max in *; lia.
Qed.

(** ** The ladder among everything else *)
Record LadderWorld := {
  lw_db : LadderDB;
  lw_now : Time;
  lw_log : list (Time * EscalationStepAlert);
}.

(** What the schema keeps: an incident has one anchor, cadences are 32-bit. *)
Record ladder_ok (db : LadderDB) : Prop := {
  lk_anchor : forall id i, ld_incidents db !! id = Some i -> in_MonitorID i = "" \/ in_ServiceID i = "";
  lk_named : ld_monitors db !! "" = None;
  lk_monitor : forall id m, ld_monitors db !! id = Some m -> mo_RenotifySeconds (mn_row m) < 2 ^ 31;
  lk_service : forall id s, ld_services db !! id = Some s -> ls_renotify s < 2 ^ 31;
}.

(** Between passes anything may change but the latch of an incident, its anchor and its frozen
    ladder; an incident is born with nothing fired. *)
Definition ladder_moves (log : list (Time * EscalationStepAlert)) (db db' : LadderDB) : Prop :=
  ladder_ok db' /\
  forall id i', ld_incidents db' !! id = Some i' ->
    (exists i, ld_incidents db !! id = Some i /\ in_EscalationStep i' = in_EscalationStep i /\
       in_LastEscalatedAt i' = in_LastEscalatedAt i /\ in_ServiceID i' = in_ServiceID i /\
       ld_snapshots db' !! id = ld_snapshots db !! id) \/
    (forall t a, (t, a) ∈ log -> ea_IncidentID a <> id) /\ in_EscalationStep i' = 0 /\ in_LastEscalatedAt i' = None.

Inductive ladder_step : LadderWorld -> LadderWorld -> Prop :=
| ls_pass w now monitorRows serviceRows db' alerts pass :
    lw_now w <= now -> NoDup monitorRows -> NoDup serviceRows ->
    AdvanceEscalations now monitorRows serviceRows (lw_db w) = (db', alerts, pass) ->
    ladder_step w {| lw_db := db'; lw_now := now; lw_log := lw_log w ++ at_ now alerts |}
| ls_other w now db' :
    lw_now w <= now -> ladder_moves (lw_log w) (lw_db w) db' ->
    ladder_step w {| lw_db := db'; lw_now := now; lw_log := lw_log w |}.

Definition ladder_initial (w : LadderWorld) : Prop :=
  ladder_ok (lw_db w) /\ ld_incidents (lw_db w) = ∅ /\ lw_log w = [].
Definition ladder_system : system LadderWorld := System ladder_initial ladder_step.

(** The pages of one incident. *)
Definition entriesOf (id : string) (log : list (Time * EscalationStepAlert)) : list (Time * EscalationStepAlert) :=
  base.filter (fun ta => ea_IncidentID ta.2 = id) log.

(** A rung of a frozen ladder is due when its offset from the base has elapsed. *)
Definition rungDue (db : LadderDB) (id : string) (k : Z) (t : Time) : Prop :=
  forall i sn, ld_incidents db !! id = Some i -> in_ServiceID i <> "" -> ld_snapshots db !! id = Some sn ->
    exists s, sn_steps sn !! Z.to_nat k = Some s /\ Add (sn_dueBase sn) (mul64 (es_AfterSeconds s) Second) <= t.

Record ladder_inv (db : LadderDB) (now : Time) (log : list (Time * EscalationStepAlert)) : Prop := {
  lv_ok : ladder_ok db;
  lv_climbs : forall id i, ld_incidents db !! id = Some i ->
    climbs (rungDue db id) (entriesOf id log) (in_EscalationStep i) (in_LastEscalatedAt i) /\
    (forall u, in_LastEscalatedAt i = Some u -> u <= now);
}.

(** A selected candidate that has not been advanced yet. *)
Record pending (db : LadderDB) (inc : openInc) : Prop := {
  pd_row : exists i, ld_incidents db !! oi_id inc = Some i /\ in_EscalationStep i = oi_step inc /\
    in_LastEscalatedAt i = oi_lastEscalated inc /\
    (in_ServiceID i <> "" -> forall sn, ld_snapshots db !! oi_id inc = Some sn ->
       oi_dueBase inc = sn_dueBase sn /\ exists project, oi_frozen inc = Some (frozenPolicy project sn));
  pd_int4 : oi_renotifySeconds inc < 2 ^ 31;
}.

Lemma monitorCandidate_pending db id inc : ladder_ok db -> monitorCandidate db id = Some inc -> pending db inc /\ oi_id inc = id.
Proof.
  intros Hok H. unfold monitorCandidate in H.
  destruct (ld_incidents db !! id) as [i|] eqn:Ei; [|done].
  destruct (ld_monitors db !! in_MonitorID i) as [m|] eqn:Em; [|done].
  destruct (mo_EscalationPolicyID _); [|done]. destruct (_ && _); [|done]. injection H as <-. split; [|done]. split; cbn.
  - exists i. split_and!; try done. intros Hs. destruct (lk_anchor db Hok id i Ei) as [Hm|]; [|done].
    rewrite Hm, (lk_named db Hok) in Em. done.
  - by apply (lk_monitor db Hok _ m Em).
Qed.

Lemma serviceCandidate_pending db now id inc : ladder_ok db -> serviceCandidate db now id = Some inc -> pending db inc /\ oi_id inc = id.
Proof.
  intros Hok H. unfold serviceCandidate in H.
  destruct (ld_incidents db !! id) as [i|] eqn:Ei; [|done]. destruct (ld_snapshots db !! id) as [sn|] eqn:Esn; [|done].
  destruct (ld_services db !! in_ServiceID i) as [s|] eqn:Es; [|done]. destruct (_ && _); [|done]. injection H as <-.
  split; [|done]. split; cbn.
  - exists i. split_and!; try done. intros _ sn' Hsn. rewrite Esn in Hsn. injection Hsn as <-. split; [done|by eexists].
  - by apply (lk_service db Hok _ s Es).
Qed.

Lemma elapsed_lookup now inc rungs j s :
  elapsed now inc rungs !! j = Some s -> rungs !! j = Some s /\ dueAt inc s <= now.
Proof.
  revert j. induction rungs as [|x rest IH]; intros j; cbn; [done|].
  destruct (Z.ltb_spec now (dueAt inc x)) as [Hlt|Hle]; [done|]. destruct j as [|j]; [intros [= <-]; by split|apply IH].
Qed.

Lemma entriesOf_app id l l' : entriesOf id (l ++ l') = entriesOf id l ++ entriesOf id l'.
Proof. apply list.filter_app. Qed.

Lemma entriesOf_own id now alerts :
  (forall a, a ∈ alerts -> ea_IncidentID a = id) -> entriesOf id (at_ now alerts) = at_ now alerts.
Proof.
  intros H. induction alerts as [|a l IH]; [done|].
  change (at_ now (a :: l)) with ((now, a) :: at_ now l). unfold entriesOf in *. rewrite filter_cons_True by (cbn; apply H; by left).
  f_equal. apply IH. intros b Hb. apply H. by right.
Qed.

Lemma entriesOf_other id id' now alerts :
  (forall a, a ∈ alerts -> ea_IncidentID a = id') -> id <> id' -> entriesOf id (at_ now alerts) = [].
Proof.
  intros H Hne. induction alerts as [|a l IH]; [done|].
  change (at_ now (a :: l)) with ((now, a) :: at_ now l). unfold entriesOf in *.
  rewrite filter_cons_False by (cbn; rewrite (H a) by (by left); congruence). apply IH. intros b Hb. apply H. by right.
Qed.

Lemma runLadder_ids db now inc p a : a ∈ lr_alerts (runLadder db now inc p) -> ea_IncidentID a = oi_id inc.
Proof.
  unfold runLadder. rewrite fireElapsed_eq, repeatLast_eq. cbn [lr_alerts app]. intros Ha. apply elem_of_app in Ha as [Ha|Ha].
  - by apply rungAlerts_elem in Ha as [? _].
  - match type of Ha with _ ∈ repeated db now inc p ?r =>
      destruct (repeated_shape db now inc p r) as [E|(b & E & _ & Hb & _)]; rewrite E in Ha end;
      [by apply not_elem_of_nil in Ha|by apply list_elem_of_singleton in Ha as ->].
Qed.

Lemma rungDue_alter db id r x k t :
  rungDue db x k t -> rungDue (withIncidents db (alter (latched r) id (ld_incidents db))) x k t.
Proof.
  intros H i sn Hi Hs Hsn. cbn in Hi, Hsn. destruct (decide (x = id)) as [->|Hx].
  - rewrite lookup_alter_eq in Hi. apply fmap_Some in Hi as (i0 & Hi0 & ->). by apply (H i0 sn).
  - rewrite lookup_alter_ne in Hi by done. by apply (H i sn).
Qed.

Lemma escalateOne_inv now db queued pass inc db' queued' pass' log :
  escalateOne now (db, queued, pass) inc = (db', queued', pass') ->
  ladder_inv db now (log ++ at_ now queued) -> pending db inc ->
  ladder_inv db' now (log ++ at_ now queued') /\
  (forall inc', pending db inc' -> oi_id inc' <> oi_id inc -> pending db' inc').
Proof.
  intros He [Hok Hcl] [(i & Hi & Hstep & Hlast & Hfrozen) Hint]. unfold escalateOne in He.
  destruct (policyOf db inc) as [p|] eqn:Ep; injection He as <- <- _; [|by split].
  set (r := runLadder db now inc p).
  assert (forall a, a ∈ lr_alerts r -> ea_IncidentID a = oi_id inc) as Hids by (intros a; apply runLadder_ids).
  unfold at_. rewrite map_app, app_assoc. fold (at_ now queued) (at_ now (lr_alerts r)). split; [split|].
  - destruct Hok as [Ha Hn Hm Hs]. split; cbn; [|done..]. intros id i' Hi'. destruct (decide (id = oi_id inc)) as [->|Hne].
    + rewrite lookup_alter_eq in Hi'. apply fmap_Some in Hi' as (i0 & Hi0 & ->). cbn. by apply (Ha (oi_id inc)).
    + rewrite lookup_alter_ne in Hi' by done. by apply (Ha id).
  - intros id i' Hi'. cbn in Hi'. rewrite entriesOf_app. destruct (decide (id = oi_id inc)) as [->|Hne].
    + rewrite lookup_alter_eq, Hi in Hi'. injection Hi' as <-. cbn. rewrite entriesOf_own by done.
      destruct (Hcl _ i Hi) as [Hc Hl]. rewrite Hstep, Hlast in Hc. rewrite Hlast in Hl. split.
      * eapply climbs_mono; [intros k t; by apply (rungDue_alter db (oi_id inc) r)|]. fold r.
        apply climbs_run; try done. intros j s Hj. apply elapsed_lookup in Hj as [Hj Hdue].
        intros i0 sn Hi0 Hsv Hsn. rewrite Hi in Hi0. injection Hi0 as <-. destruct (Hfrozen Hsv sn Hsn) as (Hb & project & Hf).
        unfold policyOf in Ep. rewrite Hf in Ep. injection Ep as <-. cbn in Hj. rewrite lookup_drop in Hj. exists s.
        pose proof (climbs_nonneg _ _ _ _ Hc). split; [|unfold dueAt in Hdue; by rewrite <- Hb].
        rewrite <- Hj. f_equal. lia.
      * unfold r, runLadder. rewrite fireElapsed_eq, repeatLast_eq. cbn. intros u Hu.
        rewrite <- lastAfter_app in Hu. destruct (_ ++ _) in Hu; [by apply Hl|]. injection Hu as <-. lia.
    + rewrite lookup_alter_ne in Hi' by done. rewrite (entriesOf_other id (oi_id inc)), app_nil_r by done.
      destruct (Hcl id i' Hi') as [Hc Hl]. split; [|done].
      eapply climbs_mono; [intros k t; by apply (rungDue_alter db (oi_id inc) r)|done].
  - intros inc' [(i' & Hi' & H) Hint'] Hne. split; [|done]. exists i'. cbn. by rewrite lookup_alter_ne.
Qed.

Lemma candidates_inv now incs : forall db queued pass db' queued' pass' log,
  foldl (escalateOne now) (db, queued, pass) incs = (db', queued', pass') ->
  ladder_inv db now (log ++ at_ now queued) -> Forall (pending db) incs -> NoDup (map oi_id incs) ->
  ladder_inv db' now (log ++ at_ now queued').
Proof.
  induction incs as [|inc incs IH]; intros db queued pass db' queued' pass' log He Hinv Hp Hnd; cbn [foldl] in He.
  { by injection He as <- <- _. }
  destruct (escalateOne now (db, queued, pass) inc) as [[db1 queued1] pass1] eqn:E1.
  apply Forall_cons_iff in Hp as [Hp1 Hp]. cbn in Hnd. apply list.NoDup_cons in Hnd as [Hfresh Hnd].
  destruct (escalateOne_inv _ _ _ _ _ _ _ _ _ E1 Hinv Hp1) as [Hinv1 Hkeep].
  eapply IH; [exact He|exact Hinv1| |exact Hnd].
  apply List.Forall_forall. intros x Hx. apply Hkeep; [by apply (proj1 (List.Forall_forall _ _) Hp)|].
  intros Hid. apply Hfresh. rewrite <- Hid. apply list_elem_of_fmap. exists x. split; [done|by apply list_elem_of_In].
Qed.

(** The candidates of a pass are pairwise different incidents that have not been advanced. *)
Lemma candidates_pending db now monitorRows serviceRows :
  ladder_ok db -> NoDup monitorRows -> NoDup serviceRows ->
  let incs := omap (monitorCandidate db) monitorRows ++ omap (serviceCandidate db now) serviceRows in
  Forall (pending db) incs /\ NoDup (map oi_id incs).
Proof.
  intros Hok Hm Hs incs.
  assert (forall (f : string -> option openInc) rows,
    (forall id inc, f id = Some inc -> pending db inc /\ oi_id inc = id) -> NoDup rows ->
    Forall (pending db) (omap f rows) /\ NoDup (map oi_id (omap f rows)) /\
    forall x, x ∈ map oi_id (omap f rows) -> exists inc, f x = Some inc) as Hlist.
  { intros f rows Hf Hnd. induction Hnd as [|id rows Hid Hnd IH]; cbn [omap list_omap].
    { split; [constructor|]. split; [constructor|]. intros x Hx. by apply not_elem_of_nil in Hx. }
    destruct IH as (H1 & H2 & H3). destruct (f id) as [inc|] eqn:E; [|done]. destruct (Hf id inc E) as [Hp He].
    cbn [map]. split; [by constructor|]. split.
    - constructor; [|done]. rewrite He. intros Hin. apply Hid.
      apply list_elem_of_fmap in Hin as (inc' & -> & Hin). apply list_elem_of_omap in Hin as (y & Hy & E').
      destruct (Hf y inc' E') as [_ ->]. done.
    - intros x [->|Hx]%elem_of_cons; [exists inc; by rewrite He|by apply H3]. }
  destruct (Hlist _ monitorRows (fun id inc => monitorCandidate_pending db id inc Hok) Hm) as (A1 & A2 & A3).
  destruct (Hlist _ serviceRows (fun id inc => serviceCandidate_pending db now id inc Hok) Hs) as (B1 & B2 & B3).
  unfold incs. split; [by apply Forall_app|]. rewrite map_app. apply list.NoDup_app. split; [done|]. split; [|done].
  intros x Hx Hx'. destruct (A3 x Hx) as [c1 Ec1]. destruct (B3 x Hx') as [c2 Ec2].
  unfold monitorCandidate in Ec1. unfold serviceCandidate in Ec2.
  destruct (ld_incidents db !! x) as [i|] eqn:Ei; [|done]. destruct (ld_snapshots db !! x); [|done].
  destruct (ld_monitors db !! in_MonitorID i) as [m|] eqn:Em; [|done].
  destruct (lk_anchor db Hok x i Ei) as [Hz|Hz]; [rewrite Hz, (lk_named db Hok) in Em; done|].
  destruct (ld_services db !! in_ServiceID i); [|done]. rewrite (bool_decide_eq_true_2 _ Hz) in Ec2.
  by rewrite andb_false_r in Ec2.
Qed.

Lemma ladder_moves_inv db db' now now' log :
  now <= now' -> ladder_moves log db db' -> ladder_inv db now log -> ladder_inv db' now' log.
Proof.
  intros Hnow [Hok' Hmv] [Hok Hcl]. split; [done|]. intros id i' Hi'.
  destruct (Hmv id i' Hi') as [(i & Hi & -> & -> & Hs & Hsn)|(Hfresh & -> & ->)].
  - destruct (Hcl id i Hi) as [Hc Hl]. split; [|intros u Hu; specialize (Hl u Hu); lia].
    eapply climbs_mono; [|exact Hc]. intros k t H i0 sn Hi0 Hsv Hsnap. rewrite Hi' in Hi0. injection Hi0 as <-.
    apply (H i sn Hi); [by rewrite <- Hs|by rewrite <- Hsn].
  - split; [|done]. replace (entriesOf id log) with (@nil (Time * EscalationStepAlert)); [constructor|].
    symmetry. unfold entriesOf. clear -Hfresh. induction log as [|[t a] log IH]; [done|].
    rewrite filter_cons_False by (apply (Hfresh t a); by left). apply IH. intros u b Hb. apply (Hfresh u b). by right.
Qed.

Lemma ladder_reachable_inv w : sys_reachable ladder_system w -> ladder_inv (lw_db w) (lw_now w) (lw_log w).
Proof.
  apply (invariant_rule ladder_system (fun w => ladder_inv (lw_db w) (lw_now w) (lw_log w))).
  - intros w0 (Hok & Hi & Hl). split; [done|]. intros id i. by rewrite Hi, lookup_empty.
  - intros w1 w2 Hstep Hinv. destruct Hstep as [w3 now ms ss db' alerts pass Hnow Hms Hss Hadv|w3 now db' Hnow Hmv]; cbn.
    + unfold AdvanceEscalations in Hadv.
      assert (ladder_inv (lw_db w3) now (lw_log w3)) as Hinv'.
      { destruct Hinv as [Hok Hcl]. split; [done|]. intros id i Hi. destruct (Hcl id i Hi) as [Hc Hl].
        split; [done|]. intros u Hu. specialize (Hl u Hu). lia. }
      destruct (candidates_pending (lw_db w3) now ms ss (lv_ok _ _ _ Hinv) Hms Hss) as [Hp Hnd].
      eapply candidates_inv; [exact Hadv| |exact Hp|exact Hnd]. cbn. by rewrite app_nil_r.
    + by eapply ladder_moves_inv.
Qed.

(** ** A pass as a whole *)

(** A run reads nothing the pass writes. *)
Lemma rungAlerts_withIncidents db incs now inc n rungs :
  rungAlerts (withIncidents db incs) now inc n rungs = rungAlerts db now inc n rungs.
Proof. revert n. induction rungs as [|s rest IH]; intros n; cbn; [done|]. by rewrite IH. Qed.

Lemma runLadder_withIncidents db incs now inc p : runLadder (withIncidents db incs) now inc p = runLadder db now inc p.
Proof. unfold runLadder. rewrite !fireElapsed_eq, !repeatLast_eq, !rungAlerts_withIncidents. done. Qed.

Definition ladderOf (db : LadderDB) (now : Time) (inc : openInc) : list EscalationStepAlert :=
  match policyOf db inc with Some p => lr_alerts (runLadder db now inc p) | None => [] end.

Lemma escalateAll now db0 incs : forall table queued pass db' queued' pass',
  foldl (escalateOne now) (withIncidents db0 table, queued, pass) incs = (db', queued', pass') ->
  NoDup (map oi_id incs) ->
  queued' = queued ++ concat (map (ladderOf db0 now) incs) /\
  exists table', db' = withIncidents db0 table' /\
    (forall x, x ∉ map oi_id incs -> table' !! x = table !! x) /\
    (forall inc p i, inc ∈ incs -> policyOf db0 inc = Some p -> table !! oi_id inc = Some i ->
       table' !! oi_id inc = Some (latched (runLadder db0 now inc p) i)).
Proof.
  induction incs as [|inc incs IH]; intros table queued pass db' queued' pass' He Hnd; cbn [foldl] in He.
  { injection He as <- <- _. split; [by rewrite app_nil_r|]. exists table. split_and!; try done. intros ? ? ? Hx. by apply not_elem_of_nil in Hx. }
  cbn [map] in Hnd. apply list.NoDup_cons in Hnd as [Hfresh Hnd].
  assert (exists table1 pass1, escalateOne now (withIncidents db0 table, queued, pass) inc
      = (withIncidents db0 table1, queued ++ ladderOf db0 now inc, pass1) /\
    (forall x, x <> oi_id inc -> table1 !! x = table !! x) /\
    (forall p i, policyOf db0 inc = Some p -> table !! oi_id inc = Some i ->
       table1 !! oi_id inc = Some (latched (runLadder db0 now inc p) i))) as (table1 & pass1 & E1 & H1 & H2).
  { unfold escalateOne, ladderOf. change (policyOf (withIncidents db0 table) inc) with (policyOf db0 inc).
    destruct (policyOf db0 inc) as [p|]; [|exists table, pass; rewrite app_nil_r; by split_and!].
    rewrite runLadder_withIncidents. eexists _, _. split; [reflexivity|]. cbn. split.
    - intros x Hx. by rewrite lookup_alter_ne.
    - intros p' i [= <-] Hi. by rewrite lookup_alter_eq, Hi. }
  rewrite E1 in He. destruct (IH _ _ _ _ _ _ He Hnd) as (-> & table' & -> & H3 & H4).
  split; [cbn; by rewrite app_assoc|]. exists table'. split; [done|]. split.
  - intros x Hx. cbn in Hx. rewrite H3, H1; set_solver.
  - intros c p i [->|Hc]%elem_of_cons Hp Hi; [rewrite H3 by done; by apply H2|].
    apply H4; [done..|]. rewrite H1; [done|]. intros Hid. apply Hfresh. rewrite <- Hid. by apply list_elem_of_fmap_2.
Qed.

Lemma AdvanceEscalations_spec now ms ss db db' alerts pass :
  ladder_ok db -> NoDup ms -> NoDup ss -> AdvanceEscalations now ms ss db = (db', alerts, pass) ->
  let incs := omap (monitorCandidate db) ms ++ omap (serviceCandidate db now) ss in
  alerts = concat (map (ladderOf db now) incs) /\
  forall inc p i, inc ∈ incs -> policyOf db inc = Some p -> ld_incidents db !! oi_id inc = Some i ->
    ld_incidents db' !! oi_id inc = Some (latched (runLadder db now inc p) i).
Proof.
  intros Hok Hm Hs Hadv incs. destruct (candidates_pending db now ms ss Hok Hm Hs) as [_ Hnd]. fold incs in Hnd.
  unfold AdvanceEscalations in Hadv. fold incs in Hadv.
  replace db with (withIncidents db (ld_incidents db)) in Hadv at 1 by by destruct db.
  destruct (escalateAll _ _ _ _ _ _ _ _ _ Hadv Hnd) as (-> & table' & -> & _ & H). split; [done|]. exact H.
Qed.

(** ** Properties *)
Definition rungPage (k : Z) (ta : Time * EscalationStepAlert) : bool := negb (ea_Repeat ta.2) && (ea_Step ta.2 =? k).

Lemma climbs_once due pages n last k :
  climbs due pages n last -> count (rungPage k) pages <= Z.b2z (k <? n).
Proof.
  induction 1 as [|pages n last m _ IH Hnm|pages n last t a _ IH Hr Hs _ _|pages n last t a _ IH Hr _].
  - cbn. destruct (k <? 0); done.
  - destruct (Z.ltb_spec k n), (Z.ltb_spec k m); cbn in *; lia.
  - rewrite count_app, count_cons, count_nil. unfold rungPage at 2. cbn. rewrite Hr, Hs. cbn.
    destruct (Z.ltb_spec k n), (Z.ltb_spec k (n + 1)), (Z.eqb_spec n k); cbn in *; lia.
  - rewrite count_app, count_cons, count_nil. unfold rungPage at 2. cbn. rewrite Hr. cbn. lia.
Qed.

Lemma climbs_due due pages n last t a :
  climbs due pages n last -> (t, a) ∈ pages -> ea_Repeat a = false -> due (ea_Step a) t.
Proof.
  induction 1 as [|? ? ? ? _ IH _|pages n last u b _ IH Hr Hs Hd _|pages n last u b _ IH Hr _]; intros Hin Hf.
  - by apply not_elem_of_nil in Hin.
  - by apply IH.
  - apply elem_of_app in Hin as [Hin|Hin%list_elem_of_singleton]; [by apply IH|]. injection Hin as -> ->. by rewrite Hs.
  - apply elem_of_app in Hin as [Hin|Hin%list_elem_of_singleton]; [by apply IH|]. injection Hin as -> ->. congruence.
Qed.

Lemma ladderOf_page db now inc a :
  a ∈ ladderOf db now inc ->
  ea_IncidentID a = oi_id inc /\ ea_ServiceID a = oi_serviceID inc /\ ea_ChannelIDs a <> [].
Proof.
  unfold ladderOf. destruct (policyOf db inc) as [p|]; [|by intros ?%not_elem_of_nil].
  unfold runLadder. rewrite fireElapsed_eq, repeatLast_eq. cbn [lr_alerts app]. intros Ha.
  apply elem_of_app in Ha as [Ha|Ha].
  - apply rungAlerts_elem in Ha as (H1 & _ & H2 & _ & j & s & _ & _ & -> & Hne). done.
  - unfold repeated in Ha. destruct (list.last _) as [s|]; [|by apply not_elem_of_nil in Ha].
    destruct (_ && _); [|by apply not_elem_of_nil in Ha]. unfold enqueueStep in Ha.
    destruct (resolveTargets _ _ _ _) as [|c cs] eqn:Er; [by apply not_elem_of_nil in Ha|].
    by apply list_elem_of_singleton in Ha as ->.
Qed.

(** C35: the pages of an incident climb its ladder, over any passes at any instants and any
    edits, acknowledgements, recoveries and restarts between them: each rung pages at most
    once, in order, and only below the latch; a repeat comes at least a second after every
    earlier page; the latch remembers the last page; and a rung of a service's incident pages
    only once its offset from the frozen base has elapsed, however the policy was edited. *)
Theorem ladder_climbs_in_order w id i :
  sys_reachable ladder_system w -> ld_incidents (lw_db w) !! id = Some i ->
  let pages := entriesOf id (lw_log w) in
  climbs (rungDue (lw_db w) id) pages (in_EscalationStep i) (in_LastEscalatedAt i) /\
  (forall k, count (rungPage k) pages <= Z.b2z (k <? in_EscalationStep i)) /\
  (in_ServiceID i <> "" -> forall sn t a, ld_snapshots (lw_db w) !! id = Some sn -> (t, a) ∈ pages -> ea_Repeat a = false ->
     exists s, sn_steps sn !! Z.to_nat (ea_Step a) = Some s /\
       Add (sn_dueBase sn) (mul64 (es_AfterSeconds s) Second) <= t).
Proof.
  intros Hr Hi pages. apply ladder_reachable_inv in Hr as [_ Hcl]. destruct (Hcl id i Hi) as [Hc _].
  split; [exact Hc|]. split; [intros k; by eapply climbs_once|].
  intros Hs sn t a Hsn Hin Hf. by eapply (climbs_due _ _ _ _ _ _ Hc Hin Hf).
Qed.

(** who may be paged for.  Every page of a pass is about an incident that was automatic,
    unresolved and unacknowledged, and goes to at least one channel of the project.  For a
    monitor, the monitor was enabled and down, it named a policy and no parent of it was down.
    For a service, the service still owned paging with a ladder attached and its own alert was
    firing under a live lease: an unconfirmed state pages nobody. *)
Theorem ladder_pages_only_confirmed_outages now ms ss db db' alerts pass a :
  ladder_ok db -> NoDup ms -> NoDup ss -> AdvanceEscalations now ms ss db = (db', alerts, pass) -> a ∈ alerts ->
  exists i, ld_incidents db !! ea_IncidentID a = Some i /\ paging i = true /\ ea_ChannelIDs a <> [] /\
    ((ea_ServiceID a = "" /\ exists m, ld_monitors db !! in_MonitorID i = Some m /\ mo_Enabled (mn_row m) = true /\
        mo_Status (mn_row m) = StatusDown /\ is_Some (mo_EscalationPolicyID (mn_row m)) /\
        parentDown db (in_MonitorID i) = false) \/
     (ea_ServiceID a = in_ServiceID i /\ in_ServiceID i <> "" /\ is_Some (ld_snapshots db !! ea_IncidentID a) /\
        exists s r, ld_services db !! in_ServiceID i = Some s /\ is_Some (ls_policyID s) /\ ls_ownsPaging s = true /\
          ls_state s = Some r /\ ar_firing r = true /\ now < ar_leaseUntil r)).
Proof.
  intros Hok Hm Hs Hadv Ha. destruct (AdvanceEscalations_spec _ _ _ _ _ _ _ Hok Hm Hs Hadv) as [-> _].
  apply list_elem_of_In, in_concat in Ha as (l & Hl & Ha). apply list_elem_of_In in Hl, Ha.
  apply list_elem_of_fmap in Hl as (inc & -> & Hinc).
  assert (ea_IncidentID a = oi_id inc /\ ea_ServiceID a = oi_serviceID inc /\ ea_ChannelIDs a <> []) as (-> & -> & Hch)
    by by eapply ladderOf_page.
  apply elem_of_app in Hinc as [Hinc|Hinc]; apply list_elem_of_omap in Hinc as (x & _ & Hc).
  - unfold monitorCandidate in Hc. destruct (ld_incidents db !! x) as [i|] eqn:Ei; [|done].
    destruct (ld_monitors db !! in_MonitorID i) as [m|] eqn:Em; [|done].
    destruct (mo_EscalationPolicyID (mn_row m)) as [policy|] eqn:Ep; [|done].
    destruct (_ && _) eqn:E; [|done]. injection Hc as <-. bool_facts. exists i. cbn.
    repeat match goal with H : bool_decide _ = true |- _ => apply bool_decide_eq_true in H end.
    split_and!; [done..|]. left. split; [done|]. exists m. rewrite Ep. by split_and!.
  - unfold serviceCandidate in Hc. destruct (ld_incidents db !! x) as [i|] eqn:Ei; [|done].
    destruct (ld_snapshots db !! x) as [sn|] eqn:Esn; [|done].
    destruct (ld_services db !! in_ServiceID i) as [s|] eqn:Es; [|done].
    destruct (_ && _) eqn:E; [|done]. injection Hc as <-. unfold serviceFires in E. bool_facts. exists i. cbn. rewrite Esn.
    repeat match goal with H : bool_decide _ = false |- _ => apply bool_decide_eq_false in H end.
    destruct (ls_state s) as [r|] eqn:Er; [|done]. bool_facts.
    split_and!; [done..|]. right. split_and!; [done..|by eexists|]. exists s, r. split_and!; try done. by apply not_eq_None_Some.
Qed.

(** ** Nothing elapsed is left behind *)
Definition offset_le (s s' : EscalationStep) : Prop := es_AfterSeconds s <= es_AfterSeconds s'.

Lemma validateSteps_sorted ss : forall step prev,
  validateSteps step prev ss = Ok tt ->
  StronglySorted offset_le ss /\ forall s, s ∈ ss -> prev <= es_AfterSeconds s /\ 0 <= es_AfterSeconds s.
Proof.
  induction ss as [|x rest IH]; intros step prev H; cbn in H.
  { split; [constructor|]. intros s Hs. by apply not_elem_of_nil in Hs. }
  destruct (es_AfterSeconds x <? 0) eqn:E1; [done|]. cbn in H. destruct (es_AfterSeconds x <? prev) eqn:E2; [done|]. cbn in H.
  destruct (refuse_if _ _); [|done]. cbn in H. destruct (validateTargets _ _); [|done]. cbn in H. bool_facts.
  destruct (IH _ _ H) as [Hss Hall]. split.
  - constructor; [done|]. apply List.Forall_forall. intros s Hs. apply list_elem_of_In in Hs.
    unfold offset_le. destruct (Hall s Hs). lia.
  - intros s [->|Hs]%elem_of_cons; [lia|]. destruct (Hall s Hs). lia.
Qed.

Lemma elapsed_length now inc rungs :
  StronglySorted offset_le rungs ->
  (forall s, s ∈ rungs -> 0 <= es_AfterSeconds s <= 9000000000) ->
  forall k s, rungs !! k = Some s -> (k < length (elapsed now inc rungs))%nat <-> dueAt inc s <= now.
Proof.
  intros Hss Hb. assert (forall s s', s ∈ rungs -> s' ∈ rungs -> offset_le s s' -> dueAt inc s <= dueAt inc s') as Hdue.
  { intros s s' Hs Hs' Hle. pose proof (Hb s Hs). pose proof (Hb s' Hs'). unfold dueAt, Add, mul64, offset_le in *.
    rewrite !wrap64_id by (unfold int64_min, int64_max, Second; lia). unfold Second. lia. }
  clear Hb. induction Hss as [|x rest Hss IH Hx]; intros k s Hk; [done|]. cbn [elapsed].
  destruct (Z.ltb_spec now (dueAt inc x)) as [Hlt|Hle].
  - cbn. split; [lia|]. intros Hd. destruct k as [|k]; [injection Hk as <-; lia|]. cbn in Hk.
    pose proof (list_elem_of_lookup_2 _ _ _ Hk) as Hin. rewrite List.Forall_forall in Hx.
    pose proof (Hdue x s ltac:(by left) ltac:(by right) ltac:(apply Hx; by apply list_elem_of_In)). lia.
  - destruct k as [|k]; cbn; [injection Hk as <-; split; lia|]. cbn in Hk. rewrite <- (IH ltac:(intros; apply Hdue; [by right..|done]) k s Hk). lia.
Qed.

Lemma rungAlerts_lookup db now inc rungs : forall n j s,
  rungs !! j = Some s -> resolveTargets db now (oi_projectID inc) s <> [] ->
  stepAlert inc (n + Z.of_nat j) false (resolveTargets db now (oi_projectID inc) s) ∈ rungAlerts db now inc n rungs.
Proof.
  induction rungs as [|x rest IH]; intros n j s Hj Hr; [done|]. cbn [rungAlerts]. apply elem_of_app. destruct j as [|j].
  - left. injection Hj as ->. rewrite Z.add_0_r. unfold enqueueStep. destruct (resolveTargets _ _ _ _); [done|by left].
  - right. replace (n + Z.of_nat (S j)) with (n + 1 + Z.of_nat j) by lia. by apply IH.
Qed.

(** a pass leaves no elapsed rung behind.  For every incident it selects whose policy can
    be read and is valid, the latch after the pass is past a rung exactly when it already was
    or the rung's offset has elapsed; and every rung it passes that resolves to somebody is
    queued for exactly those channels. *)
Theorem elapsed_rungs_are_fired now ms ss db db' alerts pass inc p i :
  ladder_ok db -> NoDup ms -> NoDup ss -> AdvanceEscalations now ms ss db = (db', alerts, pass) ->
  inc ∈ omap (monitorCandidate db) ms ++ omap (serviceCandidate db now) ss ->
  policyOf db inc = Some p -> is_ok (EscalationPolicy_Validate p) = true ->
  (forall s, s ∈ ep_Steps p -> es_AfterSeconds s <= 9000000000) ->
  ld_incidents db !! oi_id inc = Some i -> 0 <= oi_step inc ->
  exists i', ld_incidents db' !! oi_id inc = Some i' /\
    forall k s, ep_Steps p !! k = Some s ->
      (Z.of_nat k < in_EscalationStep i' <-> Z.of_nat k < oi_step inc \/ dueAt inc s <= now) /\
      (oi_step inc <= Z.of_nat k < in_EscalationStep i' -> resolveTargets db now (oi_projectID inc) s <> [] ->
       stepAlert inc (Z.of_nat k) false (resolveTargets db now (oi_projectID inc) s) ∈ alerts).
Proof.
  intros Hok Hm Hs Hadv Hinc Hp Hv Hb Hi Hpos.
  destruct (AdvanceEscalations_spec _ _ _ _ _ _ _ Hok Hm Hs Hadv) as [-> Hlatch].
  exists (latched (runLadder db now inc p) i). split; [by apply Hlatch|]. intros k s Hk.
  assert (validateSteps 1 (-1) (ep_Steps p) = Ok tt) as Hval.
  { unfold EscalationPolicy_Validate in Hv. revert Hv. destruct (refuse_if _ _); [|done]. cbn.
    destruct (refuse_if _ _); [|done]. cbn. destruct (refuse_if _ _); [|done]. cbn. by destruct (validateSteps _ _ _) as [[]|]. }
  destruct (validateSteps_sorted _ _ _ Hval) as [Hss Hnn].
  unfold runLadder. rewrite fireElapsed_eq, repeatLast_eq. cbn [latched in_EscalationStep lr_step].
  set (n := Z.to_nat (oi_step inc)). set (rungs := skipn n (ep_Steps p)).
  assert (StronglySorted offset_le rungs /\ forall s, s ∈ rungs -> s ∈ ep_Steps p) as [Hss' Hsub].
  { unfold rungs. clearbody n. clear -Hss. revert n. induction Hss as [|x l Hss IH Hx]; intros n; [destruct n; (split; [constructor|done])|].
    destruct n; cbn; [split; [by constructor|done]|]. destruct (IH n) as [H1 H2]. split; [done|]. intros s Hs. right. by apply H2. }
  assert (forall s, s ∈ rungs -> 0 <= es_AfterSeconds s <= 9000000000) as Hbounds.
  { intros s' Hs'%Hsub. pose proof (Hb s' Hs'). destruct (Hnn s' Hs'). lia. }
  assert (0 <= Z.of_nat (length (elapsed now inc rungs))) by lia.
  destruct (decide (k < n)%nat) as [Hlt|Hge]; [unfold n in *; split; [split; [left|]|]; intros; lia|].
  assert (rungs !! (k - n)%nat = Some s) as Hr by (unfold rungs; rewrite lookup_drop; by replace (n + (k - n))%nat with k by lia).
  pose proof (elapsed_length now inc rungs Hss' Hbounds (k - n) s Hr) as Hiff. split.
  - rewrite <- Hiff. unfold n in *. split; [intros; right; lia|intros [?|?]; lia].
  - intros [_ Hlt] Hne. apply list_elem_of_In, in_concat. exists (ladderOf db now inc).
    split; [apply list_elem_of_In, list_elem_of_fmap; by exists inc|]. apply list_elem_of_In.
    unfold ladderOf. rewrite Hp. unfold runLadder. rewrite fireElapsed_eq, repeatLast_eq. cbn [lr_alerts lr_step app].
    apply elem_of_app. left. replace (Z.of_nat k) with (oi_step inc + Z.of_nat (k - n)) by (unfold n in *; lia).
    apply rungAlerts_lookup; [|done]. fold n rungs.
    assert (k - n < length (elapsed now inc rungs))%nat as Hl by (unfold n in *; lia).
    apply lookup_lt_is_Some in Hl as [s' Hs']. pose proof (elapsed_lookup _ _ _ _ _ Hs') as [Hs'' _]. congruence.
Qed.

(** ** Example *)
Definition checkoutLadder : LadderSnapshot :=
  {| sn_policyID := "pol"; sn_policyName := "checkout"; sn_repeatLast := true;
     sn_steps := [{| es_AfterSeconds := 0; es_Targets := [{| et_Type := TargetChannel; et_ID := "ch1" |}] |};
                  {| es_AfterSeconds := 300; es_Targets := [{| et_Type := TargetChannel; et_ID := "ch1" |}] |}];
     sn_dueBase := 1 |}.

Definition firingRow : AlertRow :=
  {| ar_observed := AlertDown; ar_candidate := AlertDown; ar_streak := 2; ar_firing := true; ar_emitted := Some AlertDown;
     ar_emittedSeq := 1; ar_emittedAt := Some 1; ar_deliveredSeq := 1; ar_undeliveredSeq := 0; ar_generation := 1;
     ar_revision := Some "rev1"; ar_evaluatedAt := 1; ar_leaseUntil := Hour; ar_lastError := None |}.

Definition ladderDB (incidents : gmap string Incident) : LadderDB :=
  {| ld_incidents := incidents; ld_monitors := ∅; ld_edges := [];
     ld_services := {["s1" := {| ls_name := "Checkout"; ls_project := "p"; ls_policyID := Some "pol"; ls_ownsPaging := true;
                                 ls_renotify := 600; ls_state := Some firingRow |}]};
     ld_snapshots := {["i1" := checkoutLadder]}; ld_policies := ∅; ld_schedules := ∅; ld_channels := [pager] |}.
Definition ladderOpen : LadderDB := ladderDB {["i1" := checkoutIncident]}.

Lemma ladderDB_ok incidents :
  (forall id i, incidents !! id = Some i -> in_MonitorID i = "" \/ in_ServiceID i = "") -> ladder_ok (ladderDB incidents).
Proof.
  intros H. split; [exact H|done|done|]. intros id s Hs. cbn in Hs. apply lookup_singleton_Some in Hs as [_ <-]. done.
Qed.

Lemma ladderOpen_ok : ladder_ok ladderOpen.
Proof. apply ladderDB_ok. intros id i Hi. apply lookup_singleton_Some in Hi as [_ <-]. by left. Qed.

Definition ladderFirst : LadderDB * list EscalationStepAlert * EscalationPass := AdvanceEscalations Minute [] ["i1"] ladderOpen.
Definition ladderWorld : LadderWorld :=
  {| lw_db := ladderFirst.1.1; lw_now := Minute; lw_log := at_ Minute ladderFirst.1.2 |}.

Lemma ladder_paged : sys_reachable ladder_system ladderWorld.
Proof.
  exists {| lw_db := ladderDB ∅; lw_now := 1; lw_log := [] |}. split.
  { split; [apply ladderDB_ok|by split]. intros id i. by rewrite lookup_empty. }
  eapply rtc_l; [apply (ls_other {| lw_db := ladderDB ∅; lw_now := 1; lw_log := [] |} 1 ladderOpen); [done|]|].
  { split; [apply ladderOpen_ok|]. intros id i Hi. right. cbn in Hi. apply lookup_singleton_Some in Hi as [<- <-].
    split; [intros t a Ha; by apply not_elem_of_nil in Ha|done]. }
  apply rtc_once, (ls_pass {| lw_db := ladderOpen; lw_now := 1; lw_log := [] |} Minute [] ["i1"] ladderFirst.1.1 ladderFirst.1.2 ladderFirst.2);
    [done|constructor|apply NoDup_singleton|reflexivity].
Qed.

Definition checkoutPaged : Incident := default checkoutIncident (ld_incidents (lw_db ladderWorld) !! "i1").

Example ladder_climbs_in_order_witness :
  in_EscalationStep checkoutPaged = 1 /\ count (rungPage 0) (entriesOf "i1" (lw_log ladderWorld)) = 1 /\
  climbs (rungDue (lw_db ladderWorld) "i1") (entriesOf "i1" (lw_log ladderWorld)) (in_EscalationStep checkoutPaged)
    (in_LastEscalatedAt checkoutPaged).
Proof.
  split; [by vm_compute|]. split; [by vm_compute|].
  apply (ladder_climbs_in_order ladderWorld "i1" checkoutPaged ladder_paged). reflexivity.
Defined.

Example ladder_pages_only_confirmed_outages_witness :
  exists a i, a ∈ ladderFirst.1.2 /\ ld_incidents ladderOpen !! ea_IncidentID a = Some i /\ paging i = true.
Proof.
  destruct (ladder_pages_only_confirmed_outages Minute [] ["i1"] ladderOpen ladderFirst.1.1 ladderFirst.1.2 ladderFirst.2
    {| ea_IncidentID := "i1"; ea_MonitorID := ""; ea_MonitorName := "Checkout"; ea_ServiceID := "s1"; ea_SubjectName := "Checkout";
       ea_Step := 0; ea_Repeat := false; ea_ChannelIDs := ["ch1"] |}) as (i & Hi & Hp & _);
    [apply ladderOpen_ok|constructor|apply NoDup_singleton|reflexivity|left|].
  eexists _, i. split; [left|]. split; [exact Hi|exact Hp].
Defined.

Definition checkoutCandidate : openInc :=
  {| oi_id := "i1"; oi_monitorID := ""; oi_serviceID := "s1"; oi_name := "Checkout"; oi_policyID := "pol"; oi_projectID := "p";
     oi_dueBase := 1; oi_step := 0; oi_lastEscalated := None; oi_renotifySeconds := 600;
     oi_frozen := Some (frozenPolicy "p" checkoutLadder) |}.

Example elapsed_rungs_are_fired_witness :
  exists i', ld_incidents ladderFirst.1.1 !! "i1" = Some i' /\ 0 < in_EscalationStep i'.
Proof.
  destruct (elapsed_rungs_are_fired Minute [] ["i1"] ladderOpen ladderFirst.1.1 ladderFirst.1.2 ladderFirst.2 checkoutCandidate
    (frozenPolicy "p" checkoutLadder) checkoutIncident) as (i' & Hi & Hk);
    [apply ladderOpen_ok|constructor|apply NoDup_singleton|reflexivity|left|reflexivity|reflexivity| |reflexivity|done|].
  - intros s Hs. cbn in Hs. apply elem_of_cons in Hs as [->|Hs]; [done|]. by apply list_elem_of_singleton in Hs as ->.
  - exists i'. split; [exact Hi|]. apply (Hk 0%nat _ eq_refl). right. done.
Defined.
