(* ===== verification/BurnEval.v ===== *)
(** * The sealed burn signal
    ([internal/store/serviceburneval.go], [SetServiceBurnAlerting] of
    [internal/store/servicealertpolicy.go], the burn half of
    [internal/store/servicealerteval.go], [servicealertlifecycle.go] and
    [alertdelegation.go], the trigger of migration 00082)

    One pass of the leader over a slice of burn targets: the candidates by how long they have
    gone unevaluated, the dis-arming of targets that cannot be judged, the windows of every
    rule at one instant, the verdicts, the announcements and the latches.  Beside it, the
    writers that end announcements and the worker's credit.  A latch is one rule of one
    target.  Identifiers the database generates are arguments; audit rows are left out. *)

From S2P Require Import Prelude ServicePolicy GoFloat Sla Report GoString OnCall ServiceAlert GateDecision Delegation.

#[export] Instance burnRule_eq : EqDecision BurnRule.
Proof. solve_decision. Defined.

(** ** Rows *)

(** The columns of [services] the burn signal reads. *)
Record BurnService := {
  bs_project : string;
  bs_name : string;
  bs_slug : string;
  bs_ownsPaging : bool;
  bs_generation : Z;
  bs_schedule : option string;
  bs_fileManaged : bool;
}.

(** [sla_targets] of a service; [tr_rules] is the decoded payload, or why it does not decode. *)
Record BurnTargetRow := {
  tr_service : string;
  tr_window : string;
  tr_objective : float64;
  tr_enabled : bool;
  tr_rules : result string (list BurnRule);
  tr_generation : Z;
}.

(** [service_alert_episodes], the rows of the burn signal. *)
Record BurnEpisode := {
  be_ID : string;
  be_service : option string;
  be_name : string;
  be_target : string;
  be_window : string;
  be_rule : string;
  be_startedAt : Time;
  be_recipients : list string;
  be_emittedSeq : Z;
  be_closedAt : option Time;
  be_closeReason : option ServiceAlertCloseReason;
}.

(** What a burn payload says about the rule; a lifecycle close leaves it out. *)
Record BurnFigures := {
  bf_WindowSeconds : Z;
  bf_ShortWindowSeconds : Z;
  bf_Severity : string;
  bf_Objective : float64;
  bf_BurnRate : float64;
  bf_Threshold : float64;
  bf_SealedThrough : option Time;
}.

(** [domain.ServiceAlert], the fields the burn signal fills. *)
Record BurnAlert := {
  ba_ServiceID : string;
  ba_ProjectID : string;
  ba_ServiceName : string;
  ba_ServiceSlug : string;
  ba_Firing : bool;
  ba_CloseReason : option ServiceAlertCloseReason;
  ba_TargetID : string;
  ba_RuleKey : string;
  ba_Window : string;
  ba_EpisodeID : string;
  ba_Seq : Z;
  ba_Recipients : list string;
  ba_figures : option BurnFigures;
}.

(** The tables; a latch is keyed by its target and its rule. *)
Record BurnDB := {
  bd_services : gmap string BurnService;
  bd_targets : gmap string BurnTargetRow;
  bd_latches : gmap burnLatchKey BurnLatchRow;
  bd_episodes : list BurnEpisode;
  bd_outbox : list BurnAlert;
}.

Definition episodeKey (e : BurnEpisode) : burnLatchKey := (be_target e, be_rule e).
Definition alertKey (a : BurnAlert) : burnLatchKey := (ba_TargetID a, ba_RuleKey a).
Definition isOpenBurn (e : BurnEpisode) : bool := bool_decide (be_closedAt e = None).

(** What a pass reads besides the tables: its instant and cadence, the routes, the
    reliability rows of each service, and the identifiers of the episodes it opens. *)
Record BurnPass := {
  bp_asOf : Time;
  bp_cadence : Duration;
  bp_channels : list NotificationChannel;
  bp_schedules : gmap string OnCallSchedule;
  bp_rows : string -> ReportRows;
  bp_newID : burnLatchKey -> string;
}.

Definition ServiceAlertSliceCap : nat := 50.
Definition serviceAlertLeaseMultiplier : Z := 3.

Definition leaseOf (p : BurnPass) : Time := Add (bp_asOf p) (mul64 serviceAlertLeaseMultiplier (bp_cadence p)).

Section burn.
Context (FormatFloat : float64 -> string).
Implicit Types (db : BurnDB) (p : BurnPass).

(** [burnRuleKeys]: the canonical keys, each once. *)
Definition burnRuleKeys (rules : list BurnRule) : list string :=
  foldl (fun out r => if bool_decide (Key FormatFloat r ∈ out) then out else out ++ [Key FormatFloat r]) [] rules.

(** ** The slice *)
Record burnCandidate := {
  bc_serviceID : string;
  bc_service : BurnService;
  bc_targetID : string;
  bc_target : BurnTargetRow;
  bc_era : option Time;
  bc_sealed : option Time;
  bc_oldest : option Time;
}.

Definition noRules (t : BurnTargetRow) : bool := match tr_rules t with Ok [] => true | _ => false end.

Definition oldestEvaluation (latches : gmap burnLatchKey BurnLatchRow) (targetID : string) : option Time :=
  minTime (omap (fun kv => if bool_decide (kv.1.1 = targetID) then Some (bl_evaluated_at kv.2) else None)
                (map_to_list latches)).

Definition candidateOf db p (kv : string * BurnTargetRow) : option burnCandidate :=
  let '(id, t) := kv in
  match bd_services db !! tr_service t with
  | None => None
  | Some s =>
    if bs_ownsPaging s && tr_enabled t && negb (noRules t)
    then
      let mat := rr_materialization (bp_rows p (tr_service t)) in
      Some {| bc_serviceID := tr_service t; bc_service := s; bc_targetID := id; bc_target := t;
              bc_era := mat_era <$> mat;
              bc_sealed := match mat with Some m => mat_sealed m | None => None end;
              bc_oldest := oldestEvaluation (bd_latches db) id |}
    else None
  end.

(** [ORDER BY st.oldest ASC NULLS FIRST, t.id]. *)
Definition candidate_le (a b : burnCandidate) : Prop :=
  match bc_oldest a, bc_oldest b with
  | None, None => String.le (bc_targetID a) (bc_targetID b)
  | None, Some _ => True
  | Some _, None => False
  | Some x, Some y => x < y \/ x = y /\ String.le (bc_targetID a) (bc_targetID b)
  end.
#[export] Instance candidate_le_dec a b : Decision (candidate_le a b).
Proof. unfold candidate_le. destruct (bc_oldest a), (bc_oldest b); apply _. Defined.

Definition burnSlice db p : list burnCandidate :=
  firstn ServiceAlertSliceCap (merge_sort candidate_le (omap (candidateOf db p) (map_to_list (bd_targets db)))).

(** ** Latches *)

(** [burnLatchTx]: what the evaluator reads of a latch; a missing row is the zero value. *)
Record latchLevel := { ll_firing : bool; ll_seq : Z; ll_undelivered : Z }.

Definition levelOf (latches : gmap burnLatchKey BurnLatchRow) (k : burnLatchKey) : latchLevel :=
  match latches !! k with
  | Some b => {| ll_firing := bl_firing b; ll_seq := bl_emitted_seq b; ll_undelivered := bl_undelivered_seq b |}
  | None => {| ll_firing := false; ll_seq := 0; ll_undelivered := 0 |}
  end.

(** The update half of [disarmBurnTargetTx]: the level stays, the lease collapses. *)
Definition disarmed (asOf : Time) (reason : ReportReason) (lastError : string) (b : BurnLatchRow) : BurnLatchRow :=
  if bl_evaluated_at b <=? asOf then
    {| bl_target := bl_target b; bl_rule := bl_rule b; bl_firing := bl_firing b; bl_verdict := BurnHold;
       bl_reason := reason; bl_target_generation := bl_target_generation b;
       bl_config_generation := bl_config_generation b; bl_emitted_seq := bl_emitted_seq b;
       bl_emitted_at := bl_emitted_at b; bl_delivered_seq := bl_delivered_seq b;
       bl_undelivered_seq := bl_undelivered_seq b; bl_evaluated_at := asOf; bl_lease_until := asOf;
       bl_last_error := Some lastError |}
  else b.

Definition blindRow (c : burnCandidate) (asOf : Time) (reason : ReportReason) (lastError key : string) : BurnLatchRow :=
  {| bl_target := bc_targetID c; bl_rule := key; bl_firing := false; bl_verdict := BurnHold; bl_reason := reason;
     bl_target_generation := tr_generation (bc_target c); bl_config_generation := bs_generation (bc_service c);
     bl_emitted_seq := 0; bl_emitted_at := None; bl_delivered_seq := 0; bl_undelivered_seq := 0;
     bl_evaluated_at := asOf; bl_lease_until := asOf; bl_last_error := Some lastError |}.

Definition disarmRule (c : burnCandidate) (asOf : Time) (reason : ReportReason) (lastError : string)
    (latches : gmap burnLatchKey BurnLatchRow) (key : string) : gmap burnLatchKey BurnLatchRow :=
  <[(bc_targetID c, key) := match latches !! (bc_targetID c, key) with
                            | Some b => disarmed asOf reason lastError b
                            | None => blindRow c asOf reason lastError key
                            end]> latches.

Definition disarmBurnTargetTx (latches : gmap burnLatchKey BurnLatchRow) (c : burnCandidate) (ruleKeys : list string)
    (asOf : Time) (reason : ReportReason) (lastError : string) : gmap burnLatchKey BurnLatchRow :=
  match ruleKeys with
  | [] => map_imap (fun k b => Some (if bool_decide (k.1 = bc_targetID c) then disarmed asOf reason lastError b else b)) latches
  | _ => foldl (disarmRule c asOf reason lastError) latches ruleKeys
  end.

(** ** Announcements *)

(** [resolveServiceRecipientsTx] for a candidate; a schedule that is gone routes like none. *)
Definition routeOf p (c : burnCandidate) : result RouteError (list string) :=
  resolveServiceRecipientsTx (bp_channels p) (bs_project (bc_service c))
    (match bs_schedule (bc_service c) with Some id => bp_schedules p !! id | None => None end) (bp_asOf p).

Definition closeBurnEpisode (asOf : Time) (reason : ServiceAlertCloseReason) (matched : BurnEpisode -> bool)
    (e : BurnEpisode) : BurnEpisode :=
  if isOpenBurn e && matched e then
    {| be_ID := be_ID e; be_service := be_service e; be_name := be_name e; be_target := be_target e;
       be_window := be_window e; be_rule := be_rule e; be_startedAt := be_startedAt e;
       be_recipients := be_recipients e; be_emittedSeq := be_emittedSeq e; be_closedAt := Some asOf;
       be_closeReason := Some reason |}
  else e.

(** The identity an emission closes or supersedes. *)
Definition sameAnnouncement (serviceID : string) (k : burnLatchKey) (e : BurnEpisode) : bool :=
  bool_decide (be_service e = Some serviceID) && bool_decide (episodeKey e = k).

Record burnEmission := {
  em_candidate : burnCandidate;
  em_ruleKey : string;
  em_close : bool;
  em_reason : option ServiceAlertCloseReason;
  em_seq : Z;
  em_asOf : Time;
  em_supersede : option ServiceAlertCloseReason;
  em_figures : BurnFigures;
  em_route : list string;
  em_newID : string;
}.

Definition burnAlertOf (e : burnEmission) (episodeID : string) (recipients : list string) : BurnAlert :=
  let c := em_candidate e in
  {| ba_ServiceID := bc_serviceID c; ba_ProjectID := bs_project (bc_service c); ba_ServiceName := bs_name (bc_service c);
     ba_ServiceSlug := bs_slug (bc_service c); ba_Firing := negb (em_close e); ba_CloseReason := em_reason e;
     ba_TargetID := bc_targetID c; ba_RuleKey := em_ruleKey e; ba_Window := tr_window (bc_target c);
     ba_EpisodeID := episodeID; ba_Seq := em_seq e; ba_Recipients := recipients; ba_figures := Some (em_figures e) |}.

(** [emitServiceAlertTx] for the burn signal. *)
Definition emitBurn (eps : list BurnEpisode) (e : burnEmission) : list BurnEpisode * BurnAlert :=
  let c := em_candidate e in
  let mine := sameAnnouncement (bc_serviceID c) (bc_targetID c, em_ruleKey e) in
  if em_close e then
    let reason := default ClosePolicyChanged (em_reason e) in
    let eps' := map (closeBurnEpisode (em_asOf e) reason mine) eps in
    match List.find (fun x => isOpenBurn x && mine x) eps with
    | Some o => (eps', burnAlertOf e (be_ID o) (be_recipients o))
    | None => (eps', burnAlertOf e "" (em_route e))
    end
  else
    let supersede := default ClosePolicyChanged (em_supersede e) in
    (map (closeBurnEpisode (em_asOf e) supersede mine) eps
     ++ [{| be_ID := em_newID e; be_service := Some (bc_serviceID c); be_name := bs_name (bc_service c);
            be_target := bc_targetID c; be_window := tr_window (bc_target c); be_rule := em_ruleKey e;
            be_startedAt := em_asOf e; be_recipients := em_route e; be_emittedSeq := em_seq e;
            be_closedAt := None; be_closeReason := None |}],
     burnAlertOf e (em_newID e) (em_route e)).

(** ** One rule *)

(** [ruleSlot], with the two requests themselves. *)
Record ruleSlot := { sl_cand : burnCandidate; sl_rule : BurnRule; sl_long : burnWindowRequest; sl_short : burnWindowRequest }.

Definition slotKey (sl : ruleSlot) : burnLatchKey := (bc_targetID (sl_cand sl), Key FormatFloat (sl_rule sl)).

Definition windowRequest (c : burnCandidate) (era sealed : Time) (label : string) (seconds : Z) : burnWindowRequest :=
  {| bq_serviceID := bc_serviceID c; bq_projectID := bs_project (bc_service c); bq_label := label;
     bq_duration := mul64 seconds Second; bq_objective := tr_objective (bc_target c); bq_era := era; bq_sealed := sealed |}.

(** The rules of a candidate, the second of two with one key left out. *)
Definition distinctRules (rules : list BurnRule) : list BurnRule :=
  (foldl (fun acc r => if bool_decide (Key FormatFloat r ∈ acc.2) then acc
                       else (acc.1 ++ [r], acc.2 ++ [Key FormatFloat r])) ([], []) rules).1.

Definition slotsOf (c : burnCandidate) (rules : list BurnRule) (era sealed : Time) : list ruleSlot :=
  map (fun r => {| sl_cand := c; sl_rule := r;
                   sl_long := windowRequest c era sealed "long" (LongWindowSeconds r);
                   sl_short := windowRequest c era sealed "short" (ShortWindowSeconds r) |}) (distinctRules rules).

(** [computeBurnWindows] at one request: its lateral aggregate is over its own service. *)
Definition windowOf p (r : burnWindowRequest) : ServiceBurnWindow :=
  decideBurnWindow r (burnAggregate (bp_rows p (bq_serviceID r)) r) (bp_asOf p).

Inductive BurnError := ErrRoute (e : RouteError) | ErrLostToNewerEvaluation (k : burnLatchKey).

(** What the pass counts. *)
Record ServiceBurnEvaluation := {
  ev_Targets : Z;
  ev_Rules : Z;
  ev_Onsets : Z;
  ev_Closes : Z;
  ev_Holds : Z;
  ev_Errors : Z;
  ev_Withheld : Z;
  ev_Lag : Duration;
}.

Definition noEvaluation : ServiceBurnEvaluation :=
  {| ev_Targets := 0; ev_Rules := 0; ev_Onsets := 0; ev_Closes := 0; ev_Holds := 0; ev_Errors := 0; ev_Withheld := 0;
     ev_Lag := 0 |}.

(** The announcement that reached nobody is made again. *)
Definition reannounceBurn (prev : latchLevel) (d : BurnRuleDecision) : bool :=
  negb (brd_Edge d) && ll_firing prev && (0 <? ll_seq prev) && (ll_undelivered prev =? ll_seq prev).

Definition reannouncedBurn (d : BurnRuleDecision) : BurnRuleDecision :=
  {| brd_Verdict := brd_Verdict d; brd_Firing := true; brd_HoldReason := brd_HoldReason d; brd_Edge := true |}.

Definition withheldBurn (prev : latchLevel) (d : BurnRuleDecision) : BurnRuleDecision :=
  {| brd_Verdict := brd_Verdict d; brd_Firing := ll_firing prev; brd_HoldReason := brd_HoldReason d; brd_Edge := false |}.

(** The decision of a rule before its route is asked for, and whether it is made again. *)
Definition ruleDecision p (sl : ruleSlot) (prev : latchLevel) : BurnRuleDecision * bool :=
  let d := DecideBurnRule (windowOf p (sl_long sl)) (windowOf p (sl_short sl)) (Threshold (sl_rule sl)) (ll_firing prev) in
  if reannounceBurn prev d then (reannouncedBurn d, true) else (d, false).

(** After the route: an onset nobody can receive is withheld. *)
Definition routedDecision p (sl : ruleSlot) (prev : latchLevel) (d : BurnRuleDecision) :
    result RouteError (BurnRuleDecision * bool) :=
  if brd_Edge d && brd_Firing d then
    let! route := routeOf p (sl_cand sl) in
    match route with [] => Ok (withheldBurn prev d, true) | _ => Ok (d, false) end
  else Ok (d, false).

Definition figuresOf p (sl : ruleSlot) : BurnFigures :=
  let r := sl_rule sl in
  {| bf_WindowSeconds := LongWindowSeconds r; bf_ShortWindowSeconds := ShortWindowSeconds r; bf_Severity := Severity r;
     bf_Objective := tr_objective (bc_target (sl_cand sl)); bf_BurnRate := default (fofZ 0) (bw_Rate (windowOf p (sl_long sl)));
     bf_Threshold := Threshold r; bf_SealedThrough := bc_sealed (sl_cand sl) |}.

(** The route a close falls back on is read only when no episode is open; the error of that
    read is the pass's. *)
Definition emissionOf p (sl : ruleSlot) (d : BurnRuleDecision) (again : bool) (seq : Z) (route : list string) : burnEmission :=
  {| em_candidate := sl_cand sl; em_ruleKey := Key FormatFloat (sl_rule sl); em_close := negb (brd_Firing d);
     em_reason := if brd_Firing d then None else Some CloseRecovered; em_seq := seq; em_asOf := bp_asOf p;
     em_supersede := if again then Some CloseUndelivered else None; em_figures := figuresOf p sl;
     em_route := route; em_newID := bp_newID p (slotKey sl) |}.

Definition needsRoute (eps : list BurnEpisode) (sl : ruleSlot) (d : BurnRuleDecision) : bool :=
  brd_Firing d
  || negb (existsb (fun x => isOpenBurn x && sameAnnouncement (bc_serviceID (sl_cand sl)) (slotKey sl) x) eps).

(** The upsert of [service_burn_alert_state]. *)
Definition latchWritten p (sl : ruleSlot) (d : BurnRuleDecision) (seq : Z) (old : option BurnLatchRow) : BurnLatchRow :=
  {| bl_target := bc_targetID (sl_cand sl); bl_rule := Key FormatFloat (sl_rule sl); bl_firing := brd_Firing d;
     bl_verdict := brd_Verdict d; bl_reason := brd_HoldReason d;
     bl_target_generation := tr_generation (bc_target (sl_cand sl));
     bl_config_generation := bs_generation (bc_service (sl_cand sl)); bl_emitted_seq := seq;
     bl_emitted_at := if brd_Edge d then Some (bp_asOf p) else match old with Some b => bl_emitted_at b | None => None end;
     bl_delivered_seq := match old with Some b => bl_delivered_seq b | None => 0 end;
     bl_undelivered_seq := match old with Some b => bl_undelivered_seq b | None => 0 end;
     bl_evaluated_at := bp_asOf p; bl_lease_until := leaseOf p; bl_last_error := None |}.

Definition withTables db (latches : gmap burnLatchKey BurnLatchRow) (eps : list BurnEpisode) (outbox : list BurnAlert) : BurnDB :=
  {| bd_services := bd_services db; bd_targets := bd_targets db; bd_latches := latches; bd_episodes := eps; bd_outbox := outbox |}.

Definition countRule (out : ServiceBurnEvaluation) (d : BurnRuleDecision) (withheld : bool) : ServiceBurnEvaluation :=
  {| ev_Targets := ev_Targets out; ev_Rules := ev_Rules out + 1;
     ev_Onsets := ev_Onsets out + Z.b2z (brd_Edge d && brd_Firing d);
     ev_Closes := ev_Closes out + Z.b2z (brd_Edge d && negb (brd_Firing d));
     ev_Holds := ev_Holds out + Z.b2z (bool_decide (brd_Verdict d = BurnHold)); ev_Errors := ev_Errors out;
     ev_Withheld := ev_Withheld out + Z.b2z withheld; ev_Lag := ev_Lag out |}.

(** The second loop's body: [levels] are the latches read at the start of the pass. *)
Definition evaluateRule p (levels : gmap burnLatchKey BurnLatchRow) (acc : BurnDB * ServiceBurnEvaluation) (sl : ruleSlot) :
    result BurnError (BurnDB * ServiceBurnEvaluation) :=
  let '(db, out) := acc in
  let k := slotKey sl in
  let prev := levelOf levels k in
  let '(d0, again) := ruleDecision p sl prev in
  match routedDecision p sl prev d0 with
  | Err e => Err (ErrRoute e)
  | Ok (d, withheld) =>
    let seq := if brd_Edge d then ll_seq prev + 1 else ll_seq prev in
    let! emitted :=
      if brd_Edge d then
        match (if needsRoute (bd_episodes db) sl d then routeOf p (sl_cand sl) else Ok []) with
        | Err e => Err (ErrRoute e)
        | Ok route =>
          let '(eps, a) := emitBurn (bd_episodes db) (emissionOf p sl d again seq route) in
          Ok (eps, bd_outbox db ++ [a])
        end
      else Ok (bd_episodes db, bd_outbox db) in
    let old := bd_latches db !! k in
    let! _ := refuse_if (match old with Some b => bp_asOf p <? bl_evaluated_at b | None => false end)
                        (ErrLostToNewerEvaluation k) in
    Ok (withTables db (<[k := latchWritten p sl d seq old]> (bd_latches db)) emitted.1 emitted.2, countRule out d withheld)
  end.

(** ** The pass *)
Definition countTarget (out : ServiceBurnEvaluation) (lag : Duration) (evaluated : bool) : ServiceBurnEvaluation :=
  {| ev_Targets := ev_Targets out + Z.b2z evaluated; ev_Rules := ev_Rules out; ev_Onsets := ev_Onsets out;
     ev_Closes := ev_Closes out; ev_Holds := ev_Holds out; ev_Errors := ev_Errors out + Z.b2z (negb evaluated);
     ev_Withheld := ev_Withheld out; ev_Lag := Z.max (ev_Lag out) lag |}.

Definition lagOf p (c : burnCandidate) : Duration :=
  match bc_oldest c with Some t => Sub (bp_asOf p) t | None => 0 end.

(** The first loop's body: a target that cannot be judged is dis-armed, the others get their
    slots. *)
Definition prepareTarget p (acc : gmap burnLatchKey BurnLatchRow * list ruleSlot * ServiceBurnEvaluation)
    (c : burnCandidate) : gmap burnLatchKey BurnLatchRow * list ruleSlot * ServiceBurnEvaluation :=
  let '(latches, slots, out) := acc in
  match tr_rules (bc_target c) with
  | Err e =>
    (disarmBurnTargetTx latches c [] (bp_asOf p) ReasonNothingMeasured ("burn rules could not be decoded: " +:+ e), slots,
     countTarget out (lagOf p c) false)
  | Ok rules =>
    match bc_era c, bc_sealed c with
    | Some era, Some sealed => (latches, slots ++ slotsOf c rules era sealed, countTarget out (lagOf p c) true)
    | _, _ =>
      (disarmBurnTargetTx latches c (burnRuleKeys rules) (bp_asOf p) ReasonNothingSealed
         "the service has sealed nothing, so no window can be quoted", slots, countTarget out (lagOf p c) false)
    end
  end.

Fixpoint foldResult {E A B} (f : B -> A -> result E B) (l : list A) (b : B) : result E B :=
  match l with [] => Ok b | x :: rest => let! b' := f b x in foldResult f rest b' end.

(** [evaluateServiceBurnAlertsOn]; an error rolls the pass back. *)
Definition EvaluateServiceBurnAlerts db p : result BurnError (BurnDB * ServiceBurnEvaluation) :=
  let '(latches, slots, out) := foldl (prepareTarget p) (bd_latches db, [], noEvaluation) (burnSlice db p) in
  foldResult (evaluateRule p (bd_latches db)) slots (withTables db latches (bd_episodes db) (bd_outbox db), out).

(** ** Lifecycle closes *)

(** [episodeCloseFilter] as the burn episodes meet it. *)
Record episodeCloseFilter := { ef_targetID : option string; ef_keepRuleKeys : option (list string) }.

Definition closesEpisode (serviceID : string) (f : episodeCloseFilter) (e : BurnEpisode) : bool :=
  bool_decide (be_service e = Some serviceID)
  && match ef_targetID f with Some t => bool_decide (be_target e = t) | None => true end
  && match ef_keepRuleKeys f with Some keys => negb (bool_decide (be_rule e ∈ keys)) | None => true end.

Definition lifecycleClose (serviceID projectID slug : string) (reason : ServiceAlertCloseReason) (e : BurnEpisode) : BurnAlert :=
  {| ba_ServiceID := serviceID; ba_ProjectID := projectID; ba_ServiceName := be_name e; ba_ServiceSlug := slug;
     ba_Firing := false; ba_CloseReason := Some reason; ba_TargetID := be_target e; ba_RuleKey := be_rule e;
     ba_Window := be_window e; ba_EpisodeID := be_ID e; ba_Seq := be_emittedSeq e + 1;
     ba_Recipients := be_recipients e; ba_figures := None |}.

Definition clearedLatch (asOf : Time) (seq : Z) (b : BurnLatchRow) : BurnLatchRow :=
  {| bl_target := bl_target b; bl_rule := bl_rule b; bl_firing := false; bl_verdict := bl_verdict b;
     bl_reason := bl_reason b; bl_target_generation := bl_target_generation b;
     bl_config_generation := bl_config_generation b; bl_emitted_seq := seq; bl_emitted_at := Some asOf;
     bl_delivered_seq := bl_delivered_seq b; bl_undelivered_seq := bl_undelivered_seq b;
     bl_evaluated_at := bl_evaluated_at b; bl_lease_until := bl_lease_until b; bl_last_error := bl_last_error b |}.

(** [closeServiceEpisodesTx] for the burn signal. *)
Definition closeBurnEpisodesTx db (asOf : Time) (serviceID : string) (f : episodeCloseFilter)
    (reason : ServiceAlertCloseReason) : BurnDB :=
  let s := bd_services db !! serviceID in
  let matched := closesEpisode serviceID f in
  let endings := List.filter (fun e => isOpenBurn e && matched e) (bd_episodes db) in
  withTables db
    (foldl (fun m e => alter (clearedLatch asOf (be_emittedSeq e + 1)) (episodeKey e) m) (bd_latches db) endings)
    (map (closeBurnEpisode asOf reason matched) (bd_episodes db))
    (bd_outbox db ++ map (lifecycleClose serviceID (match s with Some x => bs_project x | None => "" end)
                            (match s with Some x => bs_slug x | None => "" end) reason) endings).

(** ** The writers *)
Inductive BurnWriteError := BurnRulesInvalid (e : BurnRuleError) | BurnNotFound | BurnManagedByFile | BurnUnknownWindow.

Definition rule_le (a b : BurnRule) : Prop := String.le (Key FormatFloat a) (Key FormatFloat b).
#[export] Instance rule_le_dec a b : Decision (rule_le a b).
Proof. unfold rule_le. apply _. Defined.

(** The stored form of a declaration: the latch zeroed, the rules in key order. *)
Definition canonicalRules (rules : list BurnRule) : list BurnRule :=
  merge_sort rule_le (map (fun r => {| LongWindowSeconds := LongWindowSeconds r; ShortWindowSeconds := ShortWindowSeconds r;
                                      Threshold := Threshold r; Severity := Severity r; Firing := false |}) rules).

(** The trigger of [sla_targets]. *)
Definition alertGenerationBump (old new : BurnTargetRow) : BurnTargetRow :=
  {| tr_service := tr_service new; tr_window := tr_window new; tr_objective := tr_objective new;
     tr_enabled := tr_enabled new; tr_rules := tr_rules new;
     tr_generation :=
       if negb (Bool.eqb (tr_enabled new) (tr_enabled old)) || negb (bool_decide (tr_objective new = tr_objective old))
          || negb (bool_decide (tr_window new = tr_window old))
          || negb (match tr_rules new, tr_rules old with
                   | Ok a, Ok b => bool_decide (a = b) | Err a, Err b => bool_decide (a = b) | _, _ => false end)
       then tr_generation old + 1 else tr_generation old |}.

Definition withTarget db (id : string) (t : BurnTargetRow) : BurnDB :=
  {| bd_services := bd_services db; bd_targets := <[id := t]> (bd_targets db); bd_latches := bd_latches db;
     bd_episodes := bd_episodes db; bd_outbox := bd_outbox db |}.

(** The row a window names. *)
Definition targetOf db (serviceID window : string) : option (string * BurnTargetRow) :=
  List.find (fun kv => bool_decide (tr_service kv.2 = serviceID) && bool_decide (tr_window kv.2 = window))
            (map_to_list (bd_targets db)).

(** [DELETE FROM service_burn_alert_state] of the rules a target no longer declares. *)
Definition pruneLatches (latches : gmap burnLatchKey BurnLatchRow) (targetID : string) (keep : option (list string)) :
    gmap burnLatchKey BurnLatchRow :=
  filter (fun kv => negb (bool_decide (kv.1.1 = targetID)
                          && match keep with Some keys => negb (bool_decide (kv.1.2 ∈ keys)) | None => true end) = true) latches.

Definition SetServiceBurnAlerting db (asOf : Time) (projectID serviceID window : string) (enabled : bool)
    (rules : list BurnRule) : result BurnWriteError BurnDB :=
  match ValidateServiceBurnRules FormatFloat rules with
  | Err e => Err (BurnRulesInvalid e)
  | Ok _ =>
    match bd_services db !! serviceID with
    | None => Err BurnNotFound
    | Some s =>
      let! _ := refuse_if (negb (bool_decide (bs_project s = projectID))) BurnNotFound in
      let! _ := refuse_if (bs_fileManaged s) BurnManagedByFile in
      match targetOf db serviceID window with
      | None => Err BurnNotFound
      | Some (targetID, before) =>
        let keys := burnRuleKeys rules in
        let stored := canonicalRules rules in
        if Bool.eqb enabled (tr_enabled before)
           && match tr_rules before with Ok b => bool_decide (stored = canonicalRules b) | Err _ => false end
        then Ok db
        else
          let db1 :=
            if tr_enabled before && negb enabled then
              closeBurnEpisodesTx db asOf serviceID {| ef_targetID := Some targetID; ef_keepRuleKeys := None |} CloseBurnDisabled
            else if enabled then
              closeBurnEpisodesTx db asOf serviceID {| ef_targetID := Some targetID; ef_keepRuleKeys := Some keys |} CloseRuleRemoved
            else db in
          let pruned := pruneLatches (bd_latches db1) targetID (if enabled then Some keys else None) in
          Ok (withTarget (withTables db1 pruned (bd_episodes db1) (bd_outbox db1)) targetID
                (alertGenerationBump before
                   {| tr_service := tr_service before; tr_window := tr_window before; tr_objective := tr_objective before;
                      tr_enabled := enabled; tr_rules := Ok stored; tr_generation := tr_generation before |}))
      end
    end
  end.

(** [UpsertServiceSLATarget]: a new target starts disabled, without rules. *)
Definition UpsertServiceSLATarget db (newID projectID serviceID window : string) (objective : float64) :
    result BurnWriteError BurnDB :=
  let! _ := refuse_if (bool_decide (WindowByName window = None)) BurnUnknownWindow in
  match bd_services db !! serviceID with
  | None => Err BurnNotFound
  | Some s =>
    let! _ := refuse_if (negb (bool_decide (bs_project s = projectID))) BurnNotFound in
    Ok match targetOf db serviceID window with
       | Some (id, t) =>
         withTarget db id (alertGenerationBump t
           {| tr_service := tr_service t; tr_window := tr_window t; tr_objective := objective;
              tr_enabled := tr_enabled t; tr_rules := tr_rules t; tr_generation := tr_generation t |})
       | None =>
         withTarget db newID
           {| tr_service := serviceID; tr_window := window; tr_objective := objective; tr_enabled := false;
              tr_rules := Ok []; tr_generation := 0 |}
       end
  end.

Definition withService db (id : string) (s : BurnService) : BurnDB :=
  {| bd_services := <[id := s]> (bd_services db); bd_targets := bd_targets db; bd_latches := bd_latches db;
     bd_episodes := bd_episodes db; bd_outbox := bd_outbox db |}.

(** The burn half of a write of the paging declaration ([UpdateServiceAlertPolicy] and the
    file provider's): disowning ends every announcement; [changed] is whether a declared field
    moved, which the trigger of [services] counts. *)
Definition writeOwnership db (asOf : Time) (serviceID : string) (owns changed : bool) : BurnDB :=
  match bd_services db !! serviceID with
  | None => db
  | Some s =>
    withService
      (if bs_ownsPaging s && negb owns
       then closeBurnEpisodesTx db asOf serviceID {| ef_targetID := None; ef_keepRuleKeys := None |} CloseOwnershipDisabled
       else db) serviceID
      {| bs_project := bs_project s; bs_name := bs_name s; bs_slug := bs_slug s; bs_ownsPaging := owns;
         bs_generation := if changed || negb (Bool.eqb owns (bs_ownsPaging s)) then bs_generation s + 1 else bs_generation s;
         bs_schedule := bs_schedule s; bs_fileManaged := bs_fileManaged s |}
  end.

(** The burn half of [DeleteService]: the announcements end, then the row goes with its
    targets and latches; an episode keeps everything but its service. *)
Definition DeleteService db (asOf : Time) (serviceID : string) : BurnDB :=
  let db1 := closeBurnEpisodesTx db asOf serviceID {| ef_targetID := None; ef_keepRuleKeys := None |} CloseServiceDeleted in
  let mine := fun t : BurnTargetRow => bool_decide (tr_service t = serviceID) in
  {| bd_services := delete serviceID (bd_services db1);
     bd_targets := filter (fun kv => negb (mine kv.2) = true) (bd_targets db1);
     bd_latches := filter (fun kv => negb (match bd_targets db1 !! kv.1.1 with Some t => mine t | None => false end) = true)
                          (bd_latches db1);
     bd_episodes := map (fun e => if bool_decide (be_service e = Some serviceID) then
       {| be_ID := be_ID e; be_service := None; be_name := be_name e; be_target := be_target e; be_window := be_window e;
          be_rule := be_rule e; be_startedAt := be_startedAt e; be_recipients := be_recipients e;
          be_emittedSeq := be_emittedSeq e; be_closedAt := be_closedAt e; be_closeReason := be_closeReason e |} else e)
       (bd_episodes db1);
     bd_outbox := bd_outbox db1 |}.

(** ** The worker's credit *)
Definition withBurnSeqs (delivered undelivered : Z) (b : BurnLatchRow) : BurnLatchRow :=
  {| bl_target := bl_target b; bl_rule := bl_rule b; bl_firing := bl_firing b; bl_verdict := bl_verdict b;
     bl_reason := bl_reason b; bl_target_generation := bl_target_generation b;
     bl_config_generation := bl_config_generation b; bl_emitted_seq := bl_emitted_seq b;
     bl_emitted_at := bl_emitted_at b; bl_delivered_seq := delivered; bl_undelivered_seq := undelivered;
     bl_evaluated_at := bl_evaluated_at b; bl_lease_until := bl_lease_until b; bl_last_error := bl_last_error b |}.

Definition deliveredLatch (seq : Z) (b : BurnLatchRow) : BurnLatchRow :=
  if (bl_emitted_seq b =? seq) && (bl_delivered_seq b <? seq) then withBurnSeqs seq (bl_undelivered_seq b) b else b.

Definition condemnedLatch (seq : Z) (b : BurnLatchRow) : BurnLatchRow :=
  if (bl_emitted_seq b =? seq) && (bl_undelivered_seq b <? seq) && (bl_delivered_seq b <? seq)
  then withBurnSeqs (bl_delivered_seq b) seq b else b.

Definition withLatches db (latches : gmap burnLatchKey BurnLatchRow) : BurnDB :=
  withTables db latches (bd_episodes db) (bd_outbox db).

(** The burn branches of [MarkServiceAlertDelivered] and [MarkServiceAlertUndeliverable]. *)
Definition MarkBurnDelivered db (k : burnLatchKey) (firing : bool) (seq : Z) : BurnDB :=
  if firing then withLatches db (alter (deliveredLatch seq) k (bd_latches db)) else db.

Definition MarkBurnUndeliverable db (k : burnLatchKey) (firing : bool) (seq : Z) : BurnDB :=
  if firing then withLatches db (alter (condemnedLatch seq) k (bd_latches db)) else db.

(** ** The composition *)
Inductive burn_step : BurnDB -> BurnDB -> Prop :=
| bst_evaluate db p db' out :
    EvaluateServiceBurnAlerts db p = Ok (db', out) -> burn_step db db'
| bst_alerting db asOf project service window enabled rules db' :
    SetServiceBurnAlerting db asOf project service window enabled rules = Ok db' -> burn_step db db'
| bst_objective db newID project service window objective db' :
    bd_targets db !! newID = None -> (forall e, e ∈ bd_episodes db -> be_target e <> newID) ->
    UpsertServiceSLATarget db newID project service window objective = Ok db' -> burn_step db db'
| bst_create db id s :
    bd_services db !! id = None -> burn_step db (withService db id s)
| bst_ownership db asOf service owns changed : burn_step db (writeOwnership db asOf service owns changed)
| bst_delete db asOf service : burn_step db (DeleteService db asOf service)
| bst_delivered db a : a ∈ bd_outbox db -> burn_step db (MarkBurnDelivered db (alertKey a) (ba_Firing a) (ba_Seq a))
| bst_condemned db a : a ∈ bd_outbox db -> burn_step db (MarkBurnUndeliverable db (alertKey a) (ba_Firing a) (ba_Seq a)).

Definition burn_initial db : Prop :=
  bd_targets db = ∅ /\ bd_latches db = ∅ /\ bd_episodes db = [] /\ bd_outbox db = [].

Definition burn_system : system BurnDB := System burn_initial burn_step.
Definition burn_reachable db : Prop := sys_reachable burn_system db.
End burn.
