(* ===== verification/BurnFacts.v ===== *)
(** * What the sealed burn signal promises

    Every rule of every target has a log of its own: onsets and closes in sequence, a close for
    every onset that ended, to the people who heard it.  The invariant is a statement about one
    rule at a time, so each operation is a lemma about the view of one rule. *)

From S2P Require Import Prelude ServicePolicy GoFloat Sla Report GoString OnCall ServiceAlert GateDecision Delegation BurnEval.

(** ** The log of one rule *)

(** Announcements number themselves from one; the number starts again once the row that keeps
    it is deleted, which happens to a rule that has nothing open. *)
Inductive burn_log : list BurnAlert -> option BurnAlert -> Z -> Prop :=
| bl_nil : burn_log [] None 0
| bl_onset log cur n a :
    burn_log log cur n -> ba_Firing a = true -> ba_CloseReason a = None -> ba_Recipients a <> [] -> ba_Seq a = n + 1 ->
    burn_log (log ++ [a]) (Some a) (n + 1)
| bl_close log o n a :
    burn_log log (Some o) n -> ba_Firing a = false -> is_Some (ba_CloseReason a) ->
    ba_EpisodeID a = ba_EpisodeID o -> ba_Recipients a = ba_Recipients o -> ba_Seq a = n + 1 ->
    burn_log (log ++ [a]) None (n + 1)
| bl_forgotten log n : burn_log log None n -> burn_log log None 0.

Definition openAt (k : burnLatchKey) (eps : list BurnEpisode) : list BurnEpisode :=
  List.filter (fun e => isOpenBurn e && bool_decide (episodeKey e = k)) eps.
Definition logAt (k : burnLatchKey) (outbox : list BurnAlert) : list BurnAlert :=
  List.filter (fun a => bool_decide (alertKey a = k)) outbox.

(** What is open and what the latch says describe the same announcement. *)
Definition describes_open (cur : option BurnAlert) (firing : bool) (seq : Z) (open : list BurnEpisode) : Prop :=
  match cur with
  | None => firing = false /\ open = []
  | Some o => firing = true /\ exists e, open = [e] /\ be_ID e = ba_EpisodeID o /\ be_recipients e = ba_Recipients o /\
                                   be_emittedSeq e = seq
  end.

Definition rule_ok (firing : bool) (seq : Z) (open : list BurnEpisode) (log : list BurnAlert) : Prop :=
  exists cur, burn_log log cur seq /\ describes_open cur firing seq open.

Definition key_ok (latches : gmap burnLatchKey BurnLatchRow) (eps : list BurnEpisode) (outbox : list BurnAlert)
    (k : burnLatchKey) : Prop :=
  rule_ok (ll_firing (levelOf latches k)) (ll_seq (levelOf latches k)) (openAt k eps) (logAt k outbox).

Lemma burn_log_nonneg log cur n : burn_log log cur n -> 0 <= n.
Proof. induction 1; lia. Qed.

Lemma rule_onset firing seq open log e a :
  rule_ok firing seq open log -> ba_Firing a = true -> ba_CloseReason a = None -> ba_Recipients a <> [] ->
  ba_Seq a = seq + 1 -> be_ID e = ba_EpisodeID a -> be_recipients e = ba_Recipients a -> be_emittedSeq e = seq + 1 ->
  rule_ok true (seq + 1) [e] (log ++ [a]).
Proof.
  intros (cur & Hl & _) Hf Hc Hr Hs Hid Hrec Hes. exists (Some a). split; [by eapply bl_onset|].
  split; [done|]. by exists e.
Qed.

Lemma rule_close seq e log a :
  rule_ok true seq [e] log -> ba_Firing a = false -> is_Some (ba_CloseReason a) ->
  ba_EpisodeID a = be_ID e -> ba_Recipients a = be_recipients e -> ba_Seq a = seq + 1 ->
  rule_ok false (seq + 1) [] (log ++ [a]).
Proof.
  intros ([o|] & Hl & Hd) Hf Hc Hid Hr Hs; [|by destruct Hd].
  destruct Hd as (_ & e' & [= <-] & Hid' & Hr' & _). exists None. split; [|done].
  eapply bl_close; [exact Hl|..]; congruence.
Qed.

Lemma rule_forget seq log : rule_ok false seq [] log -> rule_ok false 0 [] log.
Proof.
  intros ([o|] & Hl & Hd); [by destruct Hd|]. exists None. split; [|done]. by eapply bl_forgotten.
Qed.

Lemma rule_open firing seq open log e :
  rule_ok firing seq open log -> e ∈ open -> firing = true /\ open = [e] /\ be_emittedSeq e = seq.
Proof.
  intros ([o|] & _ & Hd) He.
  - destruct Hd as (-> & e' & -> & _ & _ & Hs). by apply list_elem_of_singleton in He as ->.
  - destruct Hd as [_ ->]. by apply not_elem_of_nil in He.
Qed.

Lemma rule_quiet seq open log : rule_ok false seq open log -> open = [].
Proof. intros ([o|] & _ & Hd); by destruct Hd. Qed.

Lemma rule_firing seq open log : rule_ok true seq open log -> exists e, open = [e] /\ be_emittedSeq e = seq.
Proof.
  intros ([o|] & _ & Hd); [|by destruct Hd]. destruct Hd as (_ & e & -> & _ & _ & Hs). by exists e.
Qed.

(** ** Views *)
Lemma filter_filter_b {A} (f g : A -> bool) l : List.filter f (List.filter g l) = List.filter (fun x => g x && f x) l.
Proof. induction l as [|x l IH]; cbn; [done|]. destruct (g x); cbn; [by rewrite IH|done]. Qed.

Lemma openAt_app k eps eps' : openAt k (eps ++ eps') = openAt k eps ++ openAt k eps'.
Proof. apply List.filter_app. Qed.
Lemma logAt_app k l l' : logAt k (l ++ l') = logAt k l ++ logAt k l'.
Proof. apply List.filter_app. Qed.
Lemma logAt_one k a : logAt k [a] = if bool_decide (alertKey a = k) then [a] else [].
Proof. cbn. by case_bool_decide. Qed.

Lemma elem_of_openAt k eps e : e ∈ openAt k eps <-> e ∈ eps /\ isOpenBurn e = true /\ episodeKey e = k.
Proof. unfold openAt. rewrite elem_of_filter_b, andb_true_iff, bool_decide_eq_true. tauto. Qed.

Lemma closed_key asOf reason f e : episodeKey (closeBurnEpisode asOf reason f e) = episodeKey e.
Proof. unfold closeBurnEpisode. by destruct (_ && _). Qed.
Lemma closed_open asOf reason f e : isOpenBurn (closeBurnEpisode asOf reason f e) = isOpenBurn e && negb (f e).
Proof.
  unfold closeBurnEpisode. destruct (isOpenBurn e) eqn:E; cbn [andb]; [|by rewrite E].
  destruct (f e); cbn [negb]; [done|by rewrite E].
Qed.

Lemma openAt_close k asOf reason f eps :
  openAt k (map (closeBurnEpisode asOf reason f) eps) = List.filter (fun e => negb (f e)) (openAt k eps).
Proof.
  unfold openAt. rewrite filter_filter_b. induction eps as [|e eps IH]; cbn; [done|].
  rewrite closed_open, closed_key, IH. destruct (isOpenBurn e) eqn:E, (f e) eqn:F; cbn [andb negb]; try done.
  - by rewrite andb_false_r.
  - rewrite andb_true_r. unfold closeBurnEpisode. rewrite E, F. done.
Qed.

Lemma elem_of_closed asOf reason f eps e :
  e ∈ map (closeBurnEpisode asOf reason f) eps -> isOpenBurn e = true -> e ∈ eps /\ f e = false.
Proof.
  intros (e0 & -> & He)%list_elem_of_fmap Ho. rewrite closed_open in Ho. apply andb_true_iff in Ho as [Ho Hf].
  apply negb_true_iff in Hf. unfold closeBurnEpisode. by rewrite Hf, andb_false_r.
Qed.

(** ** Lifecycle closes *)
Lemma levelOf_ext latches latches' k : latches !! k = latches' !! k -> levelOf latches k = levelOf latches' k.
Proof. unfold levelOf. by intros ->. Qed.

Lemma foldl_alter_latch {A} (f : A -> BurnLatchRow -> BurnLatchRow) (key : A -> burnLatchKey) (l : list A) (m : gmap burnLatchKey BurnLatchRow) (k : burnLatchKey) :
  foldl (fun m x => alter (f x) (key x) m) m l !! k
  = foldl (fun o x => f x <$> o) (m !! k) (List.filter (fun x => bool_decide (key x = k)) l).
Proof.
  revert m. induction l as [|x l IH]; intros m; cbn; [done|]. rewrite IH. case_bool_decide as Hk.
  - subst k. cbn. by rewrite lookup_alter_eq.
  - by rewrite lookup_alter_ne by done.
Qed.

Lemma endings_at k serviceID f eps :
  List.filter (fun e => bool_decide (episodeKey e = k))
    (List.filter (fun e => isOpenBurn e && closesEpisode serviceID f e) eps)
  = List.filter (closesEpisode serviceID f) (openAt k eps).
Proof.
  unfold openAt. rewrite !filter_filter_b. apply filter_ext_elem. intros e _.
  by destruct (isOpenBurn e), (closesEpisode serviceID f e), (bool_decide _).
Qed.

Lemma logAt_closes k serviceID project slug reason l :
  logAt k (map (lifecycleClose serviceID project slug reason) l)
  = map (lifecycleClose serviceID project slug reason) (List.filter (fun e => bool_decide (episodeKey e = k)) l).
Proof.
  unfold logAt. induction l as [|e l IH]; cbn [map List.filter]; [done|].
  change (alertKey (lifecycleClose serviceID project slug reason e)) with (episodeKey e).
  case_bool_decide; cbn [map]; by rewrite IH.
Qed.

(** What a lifecycle close does to one rule. *)
Lemma close_key_ok db asOf serviceID f reason k :
  key_ok (bd_latches db) (bd_episodes db) (bd_outbox db) k ->
  let db' := closeBurnEpisodesTx db asOf serviceID f reason in
  key_ok (bd_latches db') (bd_episodes db') (bd_outbox db') k.
Proof.
  intros Hk. cbn. unfold key_ok, levelOf in *.
  rewrite foldl_alter_latch, openAt_close, logAt_app, logAt_closes, endings_at.
  set (g := closesEpisode serviceID f). set (row := bd_latches db !! k) in *.
  set (open := openAt k (bd_episodes db)) in *.
  assert (forall e, e ∈ open -> open = [e] /\ (exists b, row = Some b /\ bl_firing b = true /\ bl_emitted_seq b = be_emittedSeq e)) as Hone.
  { intros e He. pose proof (rule_open _ _ _ _ e Hk He) as (Hf & Ho & Hs). split; [done|].
    destruct row as [b|]; [|done]. exists b. by cbn in *. }
  destruct open as [|e rest] eqn:Eo; [cbn; by rewrite app_nil_r|].
  destruct (Hone e (list_elem_of_here _ _)) as ([= ->] & b & Hb & Hf & Hs). rewrite Hb in *. cbn in Hk.
  cbn [List.filter]. destruct (g e) eqn:Eg; cbn [negb map app foldl fmap option_fmap option_map].
  - unfold clearedLatch. cbn. rewrite <- Hs. rewrite Hf in Hk. eapply rule_close; [exact Hk|done..| | |]; cbn; try done. by rewrite Hs.
  - rewrite app_nil_r. exact Hk.
Qed.

(** ** One decision *)
Section rules.
Context (FormatFloat : float64 -> string).
Implicit Types (db : BurnDB) (p : BurnPass).

Notation slotKey := (slotKey FormatFloat).
Notation burnRuleKeys := (burnRuleKeys FormatFloat).

Lemma DecideBurnRule_level long short threshold firing :
  let d := DecideBurnRule long short threshold firing in
  brd_Edge d = negb (Bool.eqb (brd_Firing d) firing) /\
  (brd_Verdict d = BurnHold -> brd_Firing d = firing) /\
  (brd_Verdict d = BurnFire <-> brd_Verdict d <> BurnHold /\ brd_Firing d = true).
Proof.
  unfold DecideBurnRule, burnHold. destruct (burnQuotable long), (burnQuotable short); cbn;
    rewrite ?Bool.eqb_reflx; try (split_and!; naive_solver).
  destruct (fge _ _ && fge _ _); cbn; split_and!; naive_solver.
Qed.

(** What may come of one rule: an onset needs a route and is a fire or one made again; a
    close needs a level that was firing; nothing else moves the level. *)
Definition sound_decision p (sl : ruleSlot) (prev : latchLevel) (d : BurnRuleDecision) (again : bool) : Prop :=
  if brd_Edge d then
    if brd_Firing d then
      (exists route, routeOf p (sl_cand sl) = Ok route /\ route <> []) /\
      (again = false /\ ll_firing prev = false /\ brd_Verdict d = BurnFire \/
       again = true /\ ll_firing prev = true /\ 0 < ll_seq prev /\ ll_undelivered prev = ll_seq prev)
    else again = false /\ ll_firing prev = true /\ brd_Verdict d = BurnClear
  else brd_Firing d = ll_firing prev.

Lemma decision_sound p sl prev d0 again d withheld :
  ruleDecision p sl prev = (d0, again) -> routedDecision p sl prev d0 = Ok (d, withheld) ->
  sound_decision p sl prev d again /\ brd_Verdict d = brd_Verdict d0 /\
  brd_Verdict d0 = brd_Verdict (DecideBurnRule (windowOf p (sl_long sl)) (windowOf p (sl_short sl)) (Threshold (sl_rule sl)) (ll_firing prev)).
Proof.
  unfold ruleDecision. set (D := DecideBurnRule _ _ _ _). pose proof (DecideBurnRule_level (windowOf p (sl_long sl))
    (windowOf p (sl_short sl)) (Threshold (sl_rule sl)) (ll_firing prev)) as (He & Hh & Hv). fold D in He, Hh, Hv.
  destruct (reannounceBurn prev D) eqn:Er; intros [= <- <-].
  - unfold reannounceBurn in Er. rewrite !andb_true_iff, Z.ltb_lt, Z.eqb_eq in Er. destruct Er as [[[_ Hf] Hs] Hu].
    unfold routedDecision, sound_decision. cbn. destruct (routeOf p (sl_cand sl)) as [[|x route]|]; cbn; [|..|done];
      intros [= <- <-]; cbn; [done|]. rewrite Hf. split; [|done]. split; [by eexists|]. by right.
  - unfold routedDecision, sound_decision. destruct (brd_Edge D) eqn:Ee, (brd_Firing D) eqn:Ef; cbn [andb].
    + destruct (routeOf p (sl_cand sl)) as [[|x route]|] eqn:Ert; cbn; [|..|done]; intros [= <- <-]; cbn; [done|].
      rewrite Ee, Ef. split; [|done]. split; [by eexists|]. left. destruct (ll_firing prev); [by cbn in He|].
      split_and!; [done..|]. apply Hv. split; [|done]. intros H. by apply Hh in H.
    + intros [= <- <-]. rewrite Ee, Ef. split; [|done]. destruct (ll_firing prev); [|by cbn in He]. split_and!; [done..|].
      destruct (brd_Verdict D) eqn:E; [|done|].
      * by destruct (proj1 Hv eq_refl) as [_ ?].
      * by specialize (Hh eq_refl).
    + intros [= <- <-]. rewrite Ee. split; [|done]. rewrite Ef. symmetry in He. apply negb_false_iff, eqb_prop in He. done.
    + intros [= <- <-]. rewrite Ee. split; [|done]. rewrite Ef. symmetry in He. apply negb_false_iff, eqb_prop in He. done.
Qed.

(** ** The invariant *)

(** An open announcement is about a declared rule of an enabled target of a service that owns
    paging. *)
Definition announcement_declared db (e : BurnEpisode) : Prop :=
  exists t s rules, bd_targets db !! be_target e = Some t /\ be_service e = Some (tr_service t) /\
    bd_services db !! tr_service t = Some s /\ bs_ownsPaging s = true /\ tr_enabled t = true /\
    tr_rules t = Ok rules /\ be_rule e ∈ burnRuleKeys rules.

Definition latch_ok (targets : gmap string BurnTargetRow) (k : burnLatchKey) (b : BurnLatchRow) : Prop :=
  bl_target b = k.1 /\ bl_rule b = k.2 /\ (exists t, targets !! k.1 = Some t /\ tr_enabled t = true) /\
  0 <= bl_delivered_seq b <= bl_emitted_seq b /\ 0 <= bl_undelivered_seq b <= bl_emitted_seq b.

Record burn_inv db : Prop := {
  bi_key : forall k, key_ok (bd_latches db) (bd_episodes db) (bd_outbox db) k;
  bi_latch : forall k b, bd_latches db !! k = Some b -> latch_ok (bd_targets db) k b;
  bi_open : forall e, e ∈ bd_episodes db -> isOpenBurn e = true -> announcement_declared db e;
  bi_target : forall id t, bd_targets db !! id = Some t -> is_Some (bd_services db !! tr_service t);
}.

Lemma elem_of_burnRuleKeys rules k : k ∈ burnRuleKeys rules <-> exists r, r ∈ rules /\ Key FormatFloat r = k.
Proof.
  unfold BurnEval.burnRuleKeys. assert (forall acc,
    k ∈ foldl (fun out r => if bool_decide (Key FormatFloat r ∈ out) then out else out ++ [Key FormatFloat r]) acc rules <->
    k ∈ acc \/ exists r, r ∈ rules /\ Key FormatFloat r = k) as H.
  { induction rules as [|r rules IH]; intros acc; cbn [foldl]; [set_solver|]. rewrite IH.
    setoid_rewrite elem_of_cons. case_bool_decide as Hd; [set_solver|]. rewrite elem_of_app, list_elem_of_singleton. set_solver. }
  rewrite H. set_solver.
Qed.

Lemma distinctRules_spec rules :
  let ds := distinctRules FormatFloat rules in
  NoDup (map (Key FormatFloat) ds) /\ (forall r, r ∈ ds -> r ∈ rules) /\
  (forall r, r ∈ rules -> Key FormatFloat r ∈ map (Key FormatFloat) ds).
Proof.
  unfold distinctRules. set (step := fun acc r => _).
  assert (forall acc, acc.2 = map (Key FormatFloat) acc.1 -> NoDup acc.2 ->
    let out := foldl step acc rules in
    out.2 = map (Key FormatFloat) out.1 /\ NoDup out.2 /\ (forall r, r ∈ out.1 -> r ∈ acc.1 \/ r ∈ rules) /\
    (forall r, r ∈ rules -> Key FormatFloat r ∈ out.2) /\ (forall k, k ∈ acc.2 -> k ∈ out.2)) as H.
  { induction rules as [|r rules IH]; intros [rs ks] He Hnd; cbn [foldl fst snd] in *; [split_and!; [done..|set_solver|set_solver|done]|].
    assert (step (rs, ks) r = if bool_decide (Key FormatFloat r ∈ ks) then (rs, ks) else (rs ++ [r], ks ++ [Key FormatFloat r]))
      as Hs by done.
    rewrite Hs. case_bool_decide as Hd.
    - destruct (IH (rs, ks) He Hnd) as (H1 & H2 & H3 & H4 & H5). split_and!; [done..| | |done].
      + intros x Hx. destruct (H3 x Hx); [by left|]. right. by right.
      + intros x [->|Hx]%elem_of_cons; [by apply H5|by apply H4].
    - destruct (IH (rs ++ [r], ks ++ [Key FormatFloat r])) as (H1 & H2 & H3 & H4 & H5); cbn [fst snd] in *.
      + by rewrite map_app, He.
      + apply list.NoDup_app. split_and!; [done| |apply NoDup_singleton]. intros x Hx ->%list_elem_of_singleton. done.
      + split_and!; [done..| | |].
        * intros x Hx. destruct (H3 x Hx) as [[?| ->%list_elem_of_singleton]%elem_of_app|]; [by left|right; by left|right; by right].
        * intros x [->|Hx]%elem_of_cons; [|by apply H4]. apply H5, elem_of_app. right. by left.
        * intros k Hk. apply H5, elem_of_app. by left. }
  destruct (H ([], []) eq_refl ltac:(constructor)) as (H1 & H2 & H3 & H4 & _). cbn in *. rewrite <- H1.
  split_and!; [done| |done]. intros r Hr. destruct (H3 r Hr) as [?%not_elem_of_nil|]; done.
Qed.

(** ** Dis-arming *)
Lemma disarmed_level asOf r e b :
  bl_firing (disarmed asOf r e b) = bl_firing b /\ bl_emitted_seq (disarmed asOf r e b) = bl_emitted_seq b /\
  bl_delivered_seq (disarmed asOf r e b) = bl_delivered_seq b /\
  bl_undelivered_seq (disarmed asOf r e b) = bl_undelivered_seq b /\
  bl_target (disarmed asOf r e b) = bl_target b /\ bl_rule (disarmed asOf r e b) = bl_rule b.
Proof. unfold disarmed. by destruct (_ <=? _). Qed.

(** Dis-arming a target moves no level: it changes rows of the target, and a row it adds is
    one that never announced. *)
Lemma disarm_spec latches c keys asOf r e (k : burnLatchKey) :
  disarmBurnTargetTx latches c keys asOf r e !! k = latches !! k \/
  (k.1 = bc_targetID c /\
   ((exists b, latches !! k = Some b /\ disarmBurnTargetTx latches c keys asOf r e !! k = Some (disarmed asOf r e b)) \/
    latches !! k = None /\ disarmBurnTargetTx latches c keys asOf r e !! k = Some (blindRow c asOf r e k.2))).
Proof.
  unfold disarmBurnTargetTx. destruct keys as [|key keys].
  - rewrite map_lookup_imap. destruct (latches !! k) as [b|] eqn:Eb; cbn; [|by left].
    case_bool_decide as Hk; [|by left]. right. split; [done|]. left. by exists b.
  - generalize (key :: keys). clear key keys. intros keys.
    assert (forall m, foldl (disarmRule c asOf r e) m keys !! k = m !! k \/
      (k.1 = bc_targetID c /\
       ((exists b, m !! k = Some b /\ foldl (disarmRule c asOf r e) m keys !! k = Some (disarmed asOf r e b)) \/
        m !! k = None /\ foldl (disarmRule c asOf r e) m keys !! k = Some (blindRow c asOf r e k.2))))
      as H; [|exact (H latches)].
    assert (forall b, disarmed asOf r e (disarmed asOf r e b) = disarmed asOf r e b) as Hdd.
    { intros b. unfold disarmed. destruct (bl_evaluated_at b <=? asOf) eqn:E; cbn; [|by rewrite E].
      by rewrite Z.leb_refl. }
    assert (forall key, disarmed asOf r e (blindRow c asOf r e key) = blindRow c asOf r e key) as Hdb.
    { intros key. unfold disarmed, blindRow. cbn. by rewrite Z.leb_refl. }
    induction keys as [|key keys IH]; intros m; cbn [foldl]; [by left|].
    set (m' := disarmRule c asOf r e m key). destruct (decide (k = (bc_targetID c, key))) as [Hk|Hne].
    + assert (m' !! k = Some (match m !! k with
                | Some b => disarmed asOf r e b | None => blindRow c asOf r e key end)) as Hm'
        by (rewrite Hk; apply lookup_insert_eq).
      assert (k.1 = bc_targetID c /\ k.2 = key) as [Hk1 Hk2] by by rewrite Hk.
      right. split; [done|]. destruct (IH m') as [->|[_ [(b & Hb & ->)|[Hn _]]]]; [| |by rewrite Hn in Hm'].
      * rewrite Hm'. destruct (m !! k) as [b|]; [left; by exists b|right; by rewrite Hk2].
      * rewrite Hm' in Hb. injection Hb as <-.
        destruct (m !! k) as [b|]; [left; exists b; by rewrite Hdd|right; by rewrite Hdb, Hk2].
    + assert (m' !! k = m !! k) as Hm' by by apply lookup_insert_ne. destruct (IH m') as [->|[H1 [(b & Hb & ->)|[Hn ->]]]].
      * by left.
      * right. split; [done|]. left. exists b. by rewrite <- Hm'.
      * right. split; [done|]. right. by rewrite <- Hm'.
Qed.

Lemma disarm_levelOf latches c keys asOf r e (k : burnLatchKey) :
  levelOf (disarmBurnTargetTx latches c keys asOf r e) k = levelOf latches k.
Proof.
  destruct (disarm_spec latches c keys asOf r e k) as [H|[_ [(b & Hb & H)|[Hn H]]]]; unfold levelOf; rewrite H; [done|..].
  - rewrite Hb. destruct (disarmed_level asOf r e b) as (-> & -> & _ & -> & _). done.
  - by rewrite Hn.
Qed.

Lemma disarm_latch_ok targets latches c keys asOf r e :
  (exists t, targets !! bc_targetID c = Some t /\ tr_enabled t = true) ->
  (forall k b, latches !! k = Some b -> latch_ok targets k b) ->
  forall k b, disarmBurnTargetTx latches c keys asOf r e !! k = Some b -> latch_ok targets k b.
Proof.
  intros Ht Hl k b Hb. destruct (disarm_spec latches c keys asOf r e k) as [H|[Hk [(b0 & Hb0 & H)|[Hn H]]]];
    rewrite H in Hb; [by apply Hl|..]; injection Hb as <-.
  - destruct (disarmed_level asOf r e b0) as (_ & E1 & E2 & E3 & E4 & E5).
    unfold latch_ok. rewrite E1, E2, E3, E4, E5. by apply Hl.
  - unfold latch_ok, blindRow. cbn. rewrite Hk. split_and!; try done; lia.
Qed.

(** ** The slice *)
Definition slot_ok db (sl : ruleSlot) : Prop :=
  let c := sl_cand sl in
  bd_targets db !! bc_targetID c = Some (bc_target c) /\ bd_services db !! bc_serviceID c = Some (bc_service c) /\
  bc_serviceID c = tr_service (bc_target c) /\ bs_ownsPaging (bc_service c) = true /\ tr_enabled (bc_target c) = true /\
  exists rules, tr_rules (bc_target c) = Ok rules /\ sl_rule sl ∈ rules.

Definition candidate_ok db p (c : burnCandidate) : Prop :=
  exists id t, bd_targets db !! id = Some t /\ candidateOf db p (id, t) = Some c.

Lemma candidate_fields db p id t c :
  candidateOf db p (id, t) = Some c ->
  bc_targetID c = id /\ bc_target c = t /\ bc_serviceID c = tr_service t /\
  bd_services db !! tr_service t = Some (bc_service c) /\ bs_ownsPaging (bc_service c) = true /\
  tr_enabled t = true /\ noRules t = false.
Proof.
  unfold candidateOf. destruct (bd_services db !! tr_service t) as [s|]; [|done].
  destruct (bs_ownsPaging s && tr_enabled t && negb (noRules t)) eqn:E; [|done].
  rewrite !andb_true_iff, negb_true_iff in E. intros [= <-]. cbn. tauto.
Qed.

Lemma slice_candidates db p :
  (forall c, c ∈ burnSlice db p -> candidate_ok db p c) /\ NoDup (map bc_targetID (burnSlice db p)).
Proof.
  unfold burnSlice. set (all := omap (candidateOf db p) (map_to_list (bd_targets db))).
  assert (forall c, c ∈ all -> candidate_ok db p c) as Hok.
  { intros c ((id & t) & Hin & Hc)%list_elem_of_omap. apply elem_of_map_to_list in Hin. by exists id, t. }
  assert (NoDup (map bc_targetID all)) as Hnd.
  { apply (NoDup_omap_key fst); [|apply NoDup_fst_map_to_list].
    intros [id t] c Hc. by apply candidate_fields in Hc as (-> & _). }
  pose proof (merge_sort_Permutation candidate_le all) as Hp. set (sorted := merge_sort _ all) in *. split.
  - intros c Hc. apply Hok. rewrite <- Hp. rewrite <- (List.firstn_skipn ServiceAlertSliceCap sorted). apply elem_of_app. by left.
  - rewrite <- Hp in Hnd. rewrite <- (List.firstn_skipn ServiceAlertSliceCap sorted), map_app in Hnd.
    by apply list.NoDup_app in Hnd as (? & _ & _).
Qed.

(** A slot is a rule of its candidate, with the candidate's own windows. *)
Definition slot_windows (sl : ruleSlot) : Prop :=
  exists era sealed, bc_era (sl_cand sl) = Some era /\ bc_sealed (sl_cand sl) = Some sealed /\
    sl_long sl = windowRequest (sl_cand sl) era sealed "long" (LongWindowSeconds (sl_rule sl)) /\
    sl_short sl = windowRequest (sl_cand sl) era sealed "short" (ShortWindowSeconds (sl_rule sl)).

Definition prepared p db (cs : list burnCandidate) : gmap burnLatchKey BurnLatchRow * list ruleSlot * ServiceBurnEvaluation :=
  foldl (prepareTarget FormatFloat p) (bd_latches db, [], noEvaluation) cs.

Lemma slotKey_slots c rules era sealed :
  map slotKey (slotsOf FormatFloat c rules era sealed)
  = map (fun k => (bc_targetID c, k)) (map (Key FormatFloat) (distinctRules FormatFloat rules)).
Proof. unfold slotsOf. rewrite !map_map. done. Qed.

Lemma prepared_snoc p db cs c latches slots out :
  prepared p db cs = (latches, slots, out) -> prepared p db (cs ++ [c]) = prepareTarget FormatFloat p (latches, slots, out) c.
Proof. unfold prepared. intros H. by rewrite foldl_app, H. Qed.

Lemma prepared_spec p db cs :
  (forall c, c ∈ cs -> candidate_ok db p c) -> NoDup (map bc_targetID cs) ->
  (forall k b, bd_latches db !! k = Some b -> latch_ok (bd_targets db) k b) ->
  forall latches slots out, prepared p db cs = (latches, slots, out) ->
  (forall k, levelOf latches k = levelOf (bd_latches db) k) /\
  (forall k b, latches !! k = Some b -> latch_ok (bd_targets db) k b) /\
  (forall sl, sl ∈ slots -> sl_cand sl ∈ cs /\ slot_ok db sl /\ slot_windows sl) /\
  NoDup (map slotKey slots).
Proof.
  intros Hok Hnd Hl. induction cs as [|c cs IH] using rev_ind.
  { intros latches slots out [= <- <- <-]. split_and!; [done|done| |constructor]. intros sl Hsl. by apply not_elem_of_nil in Hsl. }
  rewrite map_app in Hnd. apply list.NoDup_app in Hnd as (Hnd & Hni & _).
  assert (forall c0, c0 ∈ cs -> candidate_ok db p c0) as Hok' by (intros; apply Hok, elem_of_app; by left).
  destruct (prepared p db cs) as [[latches0 slots0] out0] eqn:E0.
  destruct (IH Hok' Hnd _ _ _ eq_refl) as (Hlv & Hrows & Hslots & Hkeys). clear IH.
  intros latches slots out. rewrite (prepared_snoc _ _ _ _ _ _ _ E0). unfold prepareTarget.
  destruct (Hok c ltac:(set_solver)) as (id & t & Ht & Hc). apply candidate_fields in Hc as (Hid & Htt & Hs & Hsv & Ho & He & Hnr).
  subst id t.
  assert (forall keys r e, let l := disarmBurnTargetTx latches0 c keys (bp_asOf p) r e in
    (forall k, levelOf l k = levelOf (bd_latches db) k) /\ (forall k b, l !! k = Some b -> latch_ok (bd_targets db) k b)) as Hdis.
  { intros keys r e. split; [intros k; by rewrite disarm_levelOf|]. apply disarm_latch_ok; [by eexists|done]. }
  assert (forall sl, sl ∈ slots0 -> sl_cand sl ∈ cs ++ [c] /\ slot_ok db sl /\ slot_windows sl) as Hslots'.
  { intros sl Hsl. destruct (Hslots sl Hsl) as (? & ? & ?). split_and!; [|done..]. apply elem_of_app. by left. }
  destruct (tr_rules (bc_target c)) as [rules|e] eqn:Er.
  2:{ intros [= <- <- <-]. destruct (Hdis [] ReasonNothingMeasured ("burn rules could not be decoded: " +:+ e)). done. }
  destruct (bc_era c) as [era|] eqn:Eera, (bc_sealed c) as [sealed|] eqn:Esl;
    try (intros [= <- <- <-]; match goal with |- context[disarmBurnTargetTx _ _ ?ks _ ?r ?e] => destruct (Hdis ks r e) end; done).
  intros [= <- <- <-]. split_and!; [done|done| |].
  - intros sl [Hsl|Hsl]%elem_of_app; [by apply Hslots'|]. apply list_elem_of_fmap in Hsl as (r & -> & Hr).
    destruct (distinctRules_spec rules) as (_ & Hin & _). unfold slot_ok, slot_windows. cbn. split_and!; try done.
    + set_solver.
    + rewrite Hs. done.
    + exists rules. split; [done|by apply Hin].
    + exists era, sealed. done.
  - rewrite map_app. apply list.NoDup_app. split_and!; [done| |].
    + intros k (sl & -> & Hsl)%list_elem_of_fmap (sl' & Hk & Hsl')%list_elem_of_fmap.
      apply list_elem_of_fmap in Hsl' as (r & -> & _). destruct (Hslots sl Hsl) as (Hin & _ & _).
      apply (Hni (bc_targetID (sl_cand sl))); [apply list_elem_of_fmap; by eexists|]. injection Hk as -> _. by left.
    + rewrite slotKey_slots. apply NoDup_fmap_2; [|by apply distinctRules_spec]. intros a b [= ->]. done.
Qed.

(** ** One rule *)
Lemma openAt_emit_other k eps e :
  k <> (bc_targetID (em_candidate e), em_ruleKey e) -> openAt k (emitBurn eps e).1 = openAt k eps.
Proof.
  intros Hk. set (mine := sameAnnouncement (bc_serviceID (em_candidate e)) (bc_targetID (em_candidate e), em_ruleKey e)).
  assert (forall asOf reason, openAt k (map (closeBurnEpisode asOf reason mine) eps) = openAt k eps) as H.
  { intros asOf reason. rewrite openAt_close. rewrite <- (filter_ext_elem (fun _ => true)).
    - induction (openAt k eps) as [|x l IH]; cbn; [done|]. by rewrite IH.
    - intros x (_ & _ & Hx)%elem_of_openAt. unfold mine, sameAnnouncement. rewrite (bool_decide_eq_false_2 (episodeKey x = _)) by congruence.
      by rewrite andb_false_r. }
  unfold emitBurn. fold mine. destruct (em_close e).
  - destruct (List.find _ eps); cbn [fst]; apply H.
  - cbn [fst]. rewrite openAt_app, H. unfold openAt at 2. cbn. unfold episodeKey. cbn.
    rewrite bool_decide_eq_false_2 by congruence. by rewrite app_nil_r.
Qed.

Lemma alertKey_emit eps e : alertKey (emitBurn eps e).2 = (bc_targetID (em_candidate e), em_ruleKey e).
Proof. unfold emitBurn. destruct (em_close e); [|done]. by destruct (List.find _ eps). Qed.

Definition openedBy (e : burnEmission) : BurnEpisode :=
  {| be_ID := em_newID e; be_service := Some (bc_serviceID (em_candidate e)); be_name := bs_name (bc_service (em_candidate e));
     be_target := bc_targetID (em_candidate e); be_window := tr_window (bc_target (em_candidate e)); be_rule := em_ruleKey e;
     be_startedAt := em_asOf e; be_recipients := em_route e; be_emittedSeq := em_seq e;
     be_closedAt := None; be_closeReason := None |}.

(** When what is open for the rule is the candidate's own, an onset supersedes it and a close
    ends it. *)
Lemma emit_onset_at eps e k :
  k = (bc_targetID (em_candidate e), em_ruleKey e) -> em_close e = false ->
  (forall x, x ∈ openAt k eps -> be_service x = Some (bc_serviceID (em_candidate e))) ->
  openAt k (emitBurn eps e).1 = [openedBy e] /\ (emitBurn eps e).2 = burnAlertOf e (em_newID e) (em_route e).
Proof.
  intros -> Hc Hmine. unfold emitBurn. rewrite Hc. cbn [fst snd]. split; [|done]. rewrite openAt_app, openAt_close.
  rewrite filter_none_b.
  - unfold openAt. cbn. unfold episodeKey. cbn. by rewrite bool_decide_eq_true_2.
  - intros x Hx. apply negb_false_iff. unfold sameAnnouncement. rewrite !andb_true_iff, !bool_decide_eq_true.
    split; [by apply Hmine|]. by apply elem_of_openAt in Hx as (_ & _ & ?).
Qed.

Lemma emit_close_at eps e k x :
  k = (bc_targetID (em_candidate e), em_ruleKey e) -> em_close e = true -> openAt k eps = [x] ->
  be_service x = Some (bc_serviceID (em_candidate e)) ->
  openAt k (emitBurn eps e).1 = [] /\ (emitBurn eps e).2 = burnAlertOf e (be_ID x) (be_recipients x).
Proof.
  intros -> Hc Ho Hs. set (k := (_, _)) in *.
  assert (x ∈ openAt k eps) as (_ & _ & Hk)%elem_of_openAt by (rewrite Ho; by left).
  assert (sameAnnouncement (bc_serviceID (em_candidate e)) k x = true) as Hm.
  { unfold sameAnnouncement. by rewrite !andb_true_iff, !bool_decide_eq_true. }
  assert (List.find (fun y => isOpenBurn y && sameAnnouncement (bc_serviceID (em_candidate e)) k y) eps = Some x) as Hf.
  { rewrite find_filter. assert (List.filter (fun y => isOpenBurn y && sameAnnouncement (bc_serviceID (em_candidate e)) k y) eps
      = List.filter (sameAnnouncement (bc_serviceID (em_candidate e)) k) (openAt k eps)) as ->.
    { unfold openAt. rewrite filter_filter_b. apply filter_ext_elem. intros y _. unfold sameAnnouncement.
      destruct (isOpenBurn y), (bool_decide (be_service y = _)), (bool_decide (episodeKey y = k)); done. }
    rewrite Ho. cbn. by rewrite Hm. }
  unfold emitBurn. fold k. rewrite Hc, Hf. cbn [fst snd]. split; [|done]. rewrite openAt_close, Ho. cbn. by rewrite Hm.
Qed.

Lemma elem_of_emit eps e x :
  x ∈ (emitBurn eps e).1 -> isOpenBurn x = true -> x ∈ eps \/ em_close e = false /\ x = openedBy e.
Proof.
  unfold emitBurn. destruct (em_close e).
  - destruct (List.find _ eps); cbn [fst]; intros Hx Ho; left; by apply elem_of_closed in Hx as [? _].
  - cbn [fst]. intros [Hx|Hx]%elem_of_app Ho; [left; by apply elem_of_closed in Hx as [? _]|].
    apply list_elem_of_singleton in Hx as ->. by right.
Qed.

Lemma emit_fields eps e :
  ba_Firing (emitBurn eps e).2 = negb (em_close e) /\ ba_Seq (emitBurn eps e).2 = em_seq e /\
  ba_figures (emitBurn eps e).2 = Some (em_figures e).
Proof. unfold emitBurn. destruct (em_close e) eqn:Ec; [destruct (List.find _ eps)|]; cbn; by rewrite Ec. Qed.

(** What a successful round of the second loop did. *)
Lemma evaluateRule_cases p levels db out sl db' out' :
  evaluateRule FormatFloat p levels (db, out) sl = Ok (db', out') ->
  let k := slotKey sl in let prev := levelOf levels k in
  exists d again w, sound_decision p sl prev d again /\
    (exists d0, ruleDecision p sl prev = (d0, again) /\ routedDecision p sl prev d0 = Ok (d, w)) /\
    out' = countRule out d w /\
    let seq := if brd_Edge d then ll_seq prev + 1 else ll_seq prev in
    bd_services db' = bd_services db /\ bd_targets db' = bd_targets db /\
    bd_latches db' = <[k := latchWritten FormatFloat p sl d seq (bd_latches db !! k)]> (bd_latches db) /\
    (forall b, bd_latches db !! k = Some b -> bl_evaluated_at b <= bp_asOf p) /\
    if brd_Edge d then
      exists route, (brd_Firing d = true -> routeOf p (sl_cand sl) = Ok route) /\
        let em := emitBurn (bd_episodes db) (emissionOf FormatFloat p sl d again seq route) in
        bd_episodes db' = em.1 /\ bd_outbox db' = bd_outbox db ++ [em.2]
    else bd_episodes db' = bd_episodes db /\ bd_outbox db' = bd_outbox db.
Proof.
  intros H k prev. unfold evaluateRule in H. fold k prev in H. destruct (ruleDecision p sl prev) as [d0 again] eqn:E0.
  destruct (routedDecision p sl prev d0) as [[d w]|] eqn:Er; [|done].
  destruct (decision_sound _ _ _ _ _ _ _ E0 Er) as (Hs & _ & _).
  exists d, again, w. split; [done|]. split; [by exists d0|].
  set (seq := if brd_Edge d then ll_seq prev + 1 else ll_seq prev) in *. cbv zeta.
  destruct (brd_Edge d) eqn:Ee.
  - destruct (if needsRoute FormatFloat (bd_episodes db) sl d then _ else _) as [route|] eqn:Ert; [|done].
    destruct (emitBurn _ _) as [eps a] eqn:Eem. cbn [rbind] in H.
    destruct (refuse_if _ _) as [[]|] eqn:Eref; [|done]. apply refuse_if_Ok in Eref. injection H as <- <-. cbn. split_and!; try done.
    + intros b Hb. rewrite Hb in Eref. lia.
    + exists route. split; [|by rewrite Eem]. intros Hf. unfold needsRoute in Ert. by rewrite Hf in Ert.
  - cbn [rbind] in H. destruct (refuse_if _ _) as [[]|] eqn:Eref; [|done]. apply refuse_if_Ok in Eref.
    injection H as <- <-. cbn. split_and!; try done. intros b Hb. rewrite Hb in Eref. lia.
Qed.

Lemma levelOf_insert_ne latches k k' b : k' <> k -> levelOf (<[k := b]> latches) k' = levelOf latches k'.
Proof. intros Hne. apply levelOf_ext. by apply lookup_insert_ne. Qed.

Lemma levelOf_written p sl d seq old latches :
  levelOf (<[slotKey sl := latchWritten FormatFloat p sl d seq old]> latches) (slotKey sl) =
  {| ll_firing := brd_Firing d; ll_seq := seq; ll_undelivered := match old with Some b => bl_undelivered_seq b | None => 0 end |}.
Proof. unfold levelOf. by rewrite lookup_insert_eq. Qed.

Lemma evaluateRule_inv p levels db out sl db' out' :
  burn_inv db -> slot_ok db sl -> levelOf levels (slotKey sl) = levelOf (bd_latches db) (slotKey sl) ->
  evaluateRule FormatFloat p levels (db, out) sl = Ok (db', out') ->
  burn_inv db' /\ bd_services db' = bd_services db /\ bd_targets db' = bd_targets db /\
  (forall k, k <> slotKey sl -> bd_latches db' !! k = bd_latches db !! k).
Proof.
  intros Hinv Hslot Hlv Hev. pose proof (evaluateRule_cases _ _ _ _ _ _ _ Hev) as (d & again & w & Hs & _ & _ & Hsv & Htg & Hla & _ & Hem).
  rewrite Hlv in Hs, Hla, Hem. set (k := slotKey sl) in *. set (prev := levelOf (bd_latches db) k) in *.
  set (seq := if brd_Edge d then ll_seq prev + 1 else ll_seq prev) in *.
  destruct Hslot as (Ht & Hsrv & Hsid & Hown & Hen & rules & Hr & Hrin).
  pose proof (bi_key db Hinv k) as Hk. unfold key_ok in Hk. fold prev in Hk.
  assert (0 <= ll_seq prev) as Hnn by (destruct Hk as (cur & Hl & _); by apply burn_log_nonneg in Hl).
  assert (forall x, x ∈ openAt k (bd_episodes db) -> be_service x = Some (bc_serviceID (sl_cand sl))) as Hmine.
  { intros x (Hx & Ho & Hkx)%elem_of_openAt. destruct (bi_open db Hinv x Hx Ho) as (t & s & rs & Hbt & Hbs & _).
    assert (be_target x = bc_targetID (sl_cand sl)) as E by by injection Hkx. rewrite E, Ht in Hbt. injection Hbt as <-.
    by rewrite Hbs, Hsid. }
  assert (forall k', k' <> k -> bd_latches db' !! k' = bd_latches db !! k') as Hother
    by (intros k' Hne; rewrite Hla; by apply lookup_insert_ne).
  split; [|done]. split.
  - intros k'. destruct (decide (k' = k)) as [->|Hne].
    + assert (levelOf (bd_latches db') k = {| ll_firing := brd_Firing d; ll_seq := seq;
        ll_undelivered := match bd_latches db !! k with Some b => bl_undelivered_seq b | None => 0 end |}) as Hlw
        by (rewrite Hla; apply levelOf_written).
      unfold key_ok. rewrite Hlw. cbn [ll_firing ll_seq].
      unfold sound_decision in Hs. unfold seq in *. destruct (brd_Edge d) eqn:Ee.
      * destruct Hem as (route & Hroute & Heps & Hout). rewrite Heps, Hout, logAt_app, logAt_one, alertKey_emit.
        rewrite bool_decide_eq_true_2 by done. set (em := emissionOf FormatFloat p sl d again (ll_seq prev + 1) route) in *.
        destruct (brd_Firing d) eqn:Ef.
        -- destruct Hs as [(route' & Hr' & Hne) _]. rewrite (Hroute eq_refl) in Hr'. injection Hr' as <-.
           destruct (emit_onset_at (bd_episodes db) em k) as [-> ->]; [done|unfold em; cbn; by rewrite Ef|done|].
           unfold em. eapply rule_onset; [exact Hk|cbn; rewrite ?Ef; done..].
        -- destruct Hs as (_ & Hf & _). rewrite Hf in Hk. destruct (rule_firing _ _ _ Hk) as (x & Hx & Hxs).
           destruct (emit_close_at (bd_episodes db) em k x) as [-> ->]; [done|unfold em; cbn; by rewrite Ef|done|apply Hmine; rewrite Hx; by left|].
           rewrite Hx in Hk. unfold em. eapply rule_close; [exact Hk|cbn; rewrite ?Ef; done..].
      * destruct Hem as [-> ->]. by rewrite Hs.
    + unfold key_ok. rewrite (levelOf_ext _ (bd_latches db) k') by by apply Hother.
      destruct (brd_Edge d).
      * destruct Hem as (route & _ & -> & ->). rewrite openAt_emit_other by done.
        rewrite logAt_app, logAt_one, alertKey_emit, bool_decide_eq_false_2, app_nil_r by (intros E; by apply Hne).
        apply (bi_key db Hinv).
      * destruct Hem as [-> ->]. apply (bi_key db Hinv).
  - rewrite Htg. intros k' b Hb. destruct (decide (k' = k)) as [->|Hne].
    + rewrite Hla, lookup_insert_eq in Hb. injection Hb as <-. unfold latch_ok, latchWritten. cbn.
      assert (ll_seq prev <= seq) as Hle by (unfold seq; destruct (brd_Edge d); lia).
      split_and!; try done; [by eexists|..]; unfold prev, levelOf in *;
        destruct (bd_latches db !! k) as [b|] eqn:Eb; cbn in *; try lia;
        destruct (bi_latch db Hinv k b Eb) as (_ & _ & _ & ? & ?); lia.
    + rewrite (Hother k' Hne) in Hb. by apply (bi_latch db Hinv).
  - intros x Hx Ho. unfold announcement_declared. rewrite Hsv, Htg.
    destruct (brd_Edge d); [|destruct Hem as [Heps _]; rewrite Heps in Hx; by apply (bi_open db Hinv)].
    destruct Hem as (route & _ & Heps & _). rewrite Heps in Hx.
    destruct (elem_of_emit _ _ _ Hx Ho) as [Hx'|[_ ->]]; [by apply (bi_open db Hinv)|]. cbn.
    exists (bc_target (sl_cand sl)), (bc_service (sl_cand sl)), rules. rewrite <- Hsid. split_and!; try done.
    apply elem_of_burnRuleKeys. by exists (sl_rule sl).
  - rewrite Htg, Hsv. apply (bi_target db Hinv).
Qed.

(** ** The pass *)

(** What the pass did for one rule: the decision, the row it wrote, and the announcement it
    made when the decision was an edge. *)
Definition rule_result p levels (sl : ruleSlot) (old new : option BurnLatchRow) (said : list BurnAlert) : Prop :=
  let prev := levelOf levels (slotKey sl) in
  exists d0 again d w, ruleDecision p sl prev = (d0, again) /\ routedDecision p sl prev d0 = Ok (d, w) /\
    let seq := if brd_Edge d then ll_seq prev + 1 else ll_seq prev in
    (forall b, old = Some b -> bl_evaluated_at b <= bp_asOf p) /\
    new = Some (latchWritten FormatFloat p sl d seq old) /\
    if brd_Edge d then exists a, said = [a] /\ ba_Firing a = brd_Firing d /\ ba_Seq a = seq /\ ba_figures a = Some (figuresOf p sl)
    else said = [].

Record pass_effect p levels (slots : list ruleSlot) db db' : Prop := {
  pe_inv : burn_inv db';
  pe_services : bd_services db' = bd_services db;
  pe_targets : bd_targets db' = bd_targets db;
  pe_other : forall k, k ∉ map slotKey slots ->
    bd_latches db' !! k = bd_latches db !! k /\ logAt k (bd_outbox db') = logAt k (bd_outbox db);
  pe_rules : forall sl, sl ∈ slots -> exists said,
    rule_result p levels sl (bd_latches db !! slotKey sl) (bd_latches db' !! slotKey sl) said /\
    logAt (slotKey sl) (bd_outbox db') = logAt (slotKey sl) (bd_outbox db) ++ said;
  pe_outbox : exists l, bd_outbox db' = bd_outbox db ++ l;
}.

Lemma evaluateRule_result p levels db out sl db' out' :
  evaluateRule FormatFloat p levels (db, out) sl = Ok (db', out') ->
  exists said, rule_result p levels sl (bd_latches db !! slotKey sl) (bd_latches db' !! slotKey sl) said /\
    bd_outbox db' = bd_outbox db ++ said /\ forall a, a ∈ said -> alertKey a = slotKey sl.
Proof.
  intros Hev. pose proof (evaluateRule_cases _ _ _ _ _ _ _ Hev) as (d & again & w & _ & (d0 & H0 & H1) & _ & _ & _ & Hla & Hold & Hem).
  destruct (brd_Edge d) eqn:Ee.
  - destruct Hem as (route & _ & _ & Hout). eexists. split; [|split; [exact Hout|]].
    + exists d0, again, d, w. rewrite Ee, Hla, lookup_insert_eq. split; [done|]. split; [done|]. split; [exact Hold|].
      split; [done|]. eexists. split; [done|].
      destruct (emit_fields (bd_episodes db) (emissionOf FormatFloat p sl d again
        (ll_seq (levelOf levels (slotKey sl)) + 1) route)) as (-> & -> & ->). cbn. by rewrite negb_involutive.
    + intros a ->%list_elem_of_singleton. rewrite alertKey_emit. done.
  - destruct Hem as [_ Hout]. exists []. rewrite app_nil_r. split; [|split; [done|intros a Ha; by apply not_elem_of_nil in Ha]].
    exists d0, again, d, w. rewrite Ee, Hla, lookup_insert_eq. done.
Qed.

Lemma logAt_other k l : (forall a, a ∈ l -> alertKey a <> k) -> logAt k l = [].
Proof. intros H. apply filter_none_b. intros a Ha. by apply bool_decide_eq_false, H. Qed.
Lemma logAt_own k l : (forall a, a ∈ l -> alertKey a = k) -> logAt k l = l.
Proof.
  intros H. unfold logAt. induction l as [|a l IH]; cbn; [done|].
  rewrite bool_decide_eq_true_2 by (apply H; by left). rewrite IH; [done|]. intros b Hb. apply H. by right.
Qed.

Lemma fold_rules p levels slots db out db' out' :
  foldResult (evaluateRule FormatFloat p levels) slots (db, out) = Ok (db', out') ->
  NoDup (map slotKey slots) -> burn_inv db ->
  (forall sl, sl ∈ slots -> slot_ok db sl /\ levelOf levels (slotKey sl) = levelOf (bd_latches db) (slotKey sl)) ->
  pass_effect p levels slots db db'.
Proof.
  revert db out. induction slots as [|sl slots IH]; intros db out Hrun Hnd Hinv Hslots.
  { injection Hrun as <- <-. split; [done..|intros sl Hsl; by apply not_elem_of_nil in Hsl|exists []; by rewrite app_nil_r]. }
  cbn [foldResult map] in Hrun, Hnd. apply list.NoDup_cons in Hnd as [Hni Hnd].
  destruct (evaluateRule FormatFloat p levels (db, out) sl) as [[db1 out1]|] eqn:E1; [|done]. cbn [rbind] in Hrun.
  destruct (Hslots sl (list_elem_of_here _ _)) as [Hok Hlv].
  destruct (evaluateRule_inv _ _ _ _ _ _ _ Hinv Hok Hlv E1) as (Hinv1 & Hs1 & Ht1 & Ho1).
  destruct (evaluateRule_result _ _ _ _ _ _ _ E1) as (said & Hres & Hout1 & Hsaid).
  assert (forall sl', sl' ∈ slots -> slotKey sl' <> slotKey sl) as Hne.
  { intros sl' Hsl' E. apply Hni. rewrite <- E. apply list_elem_of_fmap. by exists sl'. }
  destruct (IH db1 out1 Hrun Hnd Hinv1) as [H1 H2 H3 H4 H5 [l Hl]].
  { intros sl' Hsl'. destruct (Hslots sl' (list_elem_of_further _ _ _ Hsl')) as [Hok' Hlv']. split.
    - unfold slot_ok in *. by rewrite Hs1, Ht1.
    - rewrite Hlv'. apply levelOf_ext. symmetry. apply Ho1. by apply Hne. }
  split; [done|congruence|congruence|..].
  - intros k Hk. apply not_elem_of_cons in Hk as [Hk1 Hk2]. destruct (H4 k Hk2) as [-> ->]. split; [by apply Ho1|].
    rewrite Hout1, logAt_app, (logAt_other k said), app_nil_r; [done|]. intros a Ha E. apply Hk1. rewrite <- E. by apply Hsaid.
  - intros sl' [->|Hsl']%elem_of_cons.
    + exists said. destruct (H4 (slotKey sl) Hni) as [-> ->]. split; [done|]. by rewrite Hout1, logAt_app, (logAt_own _ said).
    + destruct (H5 sl' Hsl') as (said' & Hr & Hlg). exists said'. rewrite <- (Ho1 (slotKey sl')) by by apply Hne. split; [done|].
      rewrite Hlg, Hout1, logAt_app, (logAt_other _ said), app_nil_r; [done|].
      intros a Ha E. apply (Hne sl' Hsl'). rewrite <- E. by apply Hsaid.
  - exists (said ++ l). by rewrite Hl, Hout1, app_assoc.
Qed.

Lemma inv_same_levels db latches :
  burn_inv db -> (forall k, levelOf latches k = levelOf (bd_latches db) k) ->
  (forall k b, latches !! k = Some b -> latch_ok (bd_targets db) k b) -> burn_inv (withLatches db latches).
Proof.
  intros [Hk Hl Ho Ht] Hlv Hrows. split; [|done..]. intros k. unfold key_ok. cbn. rewrite Hlv. apply Hk.
Qed.

(** A pass that commits: the dis-armed rows, then every slot. *)
Lemma evaluate_effect p db db' out :
  burn_inv db -> EvaluateServiceBurnAlerts FormatFloat db p = Ok (db', out) ->
  exists latches slots, (exists o, prepared p db (burnSlice db p) = (latches, slots, o)) /\
    burn_inv (withLatches db latches) /\ (forall k, levelOf latches k = levelOf (bd_latches db) k) /\
    (forall sl, sl ∈ slots -> sl_cand sl ∈ burnSlice db p /\ slot_ok db sl /\ slot_windows sl) /\
    pass_effect p (bd_latches db) slots (withLatches db latches) db'.
Proof.
  intros Hinv. unfold EvaluateServiceBurnAlerts. fold (prepared p db (burnSlice db p)).
  destruct (prepared p db (burnSlice db p)) as [[latches slots] o] eqn:Ep. intros Hrun.
  destruct (slice_candidates db p) as [Hc Hnd].
  destruct (prepared_spec p db _ Hc Hnd (bi_latch db Hinv) _ _ _ Ep) as (Hlv & Hrows & Hslots & Hkeys).
  assert (burn_inv (withLatches db latches)) as Hinv' by by apply inv_same_levels.
  exists latches, slots. split_and!; try done; [by exists o|].
  eapply fold_rules; [exact Hrun|done..|]. intros sl Hsl. split; [|cbn; symmetry; apply Hlv].
  by destruct (Hslots sl Hsl) as (_ & ? & _).
Qed.

Lemma inv_pass p db db' out :
  EvaluateServiceBurnAlerts FormatFloat db p = Ok (db', out) -> burn_inv db -> burn_inv db'.
Proof. intros Hev Hinv. by destruct (evaluate_effect _ _ _ _ Hinv Hev) as (? & ? & _ & _ & _ & _ & [H _ _ _ _ _]). Qed.

(** ** The writers *)
Lemma cleared_at db asOf serviceID f reason k :
  burn_inv db ->
  let db' := closeBurnEpisodesTx db asOf serviceID f reason in
  bd_latches db' !! k = bd_latches db !! k \/
  exists e b, openAt k (bd_episodes db) = [e] /\ closesEpisode serviceID f e = true /\ bd_latches db !! k = Some b /\
    be_emittedSeq e = bl_emitted_seq b /\ bd_latches db' !! k = Some (clearedLatch asOf (bl_emitted_seq b + 1) b).
Proof.
  intros Hinv. cbn. rewrite foldl_alter_latch, endings_at. pose proof (bi_key db Hinv k) as Hk. unfold key_ok in Hk.
  destruct (openAt k (bd_episodes db)) as [|e rest] eqn:Eo; [by left|].
  destruct (rule_open _ _ _ _ e Hk (list_elem_of_here _ _)) as (Hf & [= ->] & Hs).
  cbn [List.filter]. destruct (closesEpisode serviceID f e) eqn:Ec; [|by left]. right.
  unfold levelOf in Hf, Hs. destruct (bd_latches db !! k) as [b|]; [|done]. cbn in Hf, Hs. exists e, b. cbn. by rewrite Hs.
Qed.

Lemma inv_close_episodes db asOf serviceID f reason :
  burn_inv db -> burn_inv (closeBurnEpisodesTx db asOf serviceID f reason).
Proof.
  intros Hinv. split.
  - intros k. apply close_key_ok, Hinv.
  - intros k b Hb. destruct (cleared_at db asOf serviceID f reason k Hinv) as [H|(e & b0 & _ & _ & Hb0 & _ & H)];
      rewrite H in Hb; [by apply (bi_latch db Hinv)|]. injection Hb as <-.
    destruct (bi_latch db Hinv k b0 Hb0) as (? & ? & ? & ? & ?). unfold latch_ok. cbn. split_and!; try done; lia.
  - intros e He Ho. apply elem_of_closed in He as [He _]; [|done]. apply (bi_open db Hinv e He Ho).
  - apply (bi_target db Hinv).
Qed.

Lemma closed_left db asOf serviceID f reason e :
  e ∈ bd_episodes (closeBurnEpisodesTx db asOf serviceID f reason) -> isOpenBurn e = true ->
  e ∈ bd_episodes db /\ closesEpisode serviceID f e = false.
Proof. intros He Ho. by apply elem_of_closed in He. Qed.

(** What an update of rows does to the view of a rule. *)
Lemma key_ok_ext latches latches' eps outbox k :
  latches !! k = latches' !! k -> key_ok latches eps outbox k -> key_ok latches' eps outbox k.
Proof. unfold key_ok. intros H. by rewrite (levelOf_ext _ _ _ H). Qed.

Lemma key_ok_forget latches latches' eps outbox k :
  latches' !! k = None -> openAt k eps = [] -> key_ok latches eps outbox k -> key_ok latches' eps outbox k.
Proof.
  unfold key_ok. intros Hn Ho Hk. rewrite Ho in *. unfold levelOf at 1 2. rewrite Hn. cbn.
  destruct (ll_firing (levelOf latches k)) eqn:Ef; [by destruct (rule_firing _ _ _ Hk) as (? & ? & _)|]. by eapply rule_forget.
Qed.

Lemma Permutation_rule_keys rules rules' :
  map (Key FormatFloat) rules ≡ₚ map (Key FormatFloat) rules' -> forall k, k ∈ burnRuleKeys rules <-> k ∈ burnRuleKeys rules'.
Proof.
  intros Hp k. rewrite !elem_of_burnRuleKeys. assert (forall l, (exists r, r ∈ l /\ Key FormatFloat r = k) <-> k ∈ map (Key FormatFloat) l) as H.
  { intros l. rewrite list_elem_of_fmap. naive_solver. }
  by rewrite !H, Hp.
Qed.

Lemma canonicalRules_keys rules k : k ∈ burnRuleKeys (canonicalRules FormatFloat rules) <-> k ∈ burnRuleKeys rules.
Proof.
  apply Permutation_rule_keys. unfold canonicalRules. rewrite merge_sort_Permutation, map_map. apply Permutation_refl'.
  apply map_ext. intros r. done.
Qed.

Lemma targetOf_spec db serviceID window id t :
  targetOf db serviceID window = Some (id, t) -> bd_targets db !! id = Some t /\ tr_service t = serviceID.
Proof.
  unfold targetOf. intros [Hin Hb]%List.find_some. cbn in Hb. rewrite andb_true_iff, !bool_decide_eq_true in Hb.
  split; [|tauto]. by apply elem_of_map_to_list, list_elem_of_In.
Qed.

Lemma prune_lookup latches targetID keep (k : burnLatchKey) :
  pruneLatches latches targetID keep !! k =
  if bool_decide (k.1 = targetID) && match keep with Some keys => negb (bool_decide (k.2 ∈ keys)) | None => true end
  then None else latches !! k.
Proof.
  unfold pruneLatches. destruct (latches !! k) as [b|] eqn:Eb.
  - destruct (_ && _) eqn:E.
    + apply map_lookup_filter_None. right. intros b' Hb' H. cbn in H. rewrite E in H. done.
    + apply map_lookup_filter_Some. split; [done|]. cbn. by rewrite E.
  - transitivity (@None BurnLatchRow); [apply map_lookup_filter_None; by left|by destruct (_ && _)].
Qed.

(** A write of a target's declaration: what is left open under it must still be declared, and
    the latches it prunes must have nothing open. *)
Lemma inv_declare db targetID before after keep :
  burn_inv db -> bd_targets db !! targetID = Some before -> tr_service after = tr_service before ->
  (forall e, e ∈ bd_episodes db -> isOpenBurn e = true -> be_target e = targetID ->
     tr_enabled after = true /\ (exists rules, tr_rules after = Ok rules /\ be_rule e ∈ burnRuleKeys rules) /\
     match keep with Some keys => be_rule e ∈ keys | None => False end) ->
  (tr_enabled after = false -> keep = None) ->
  burn_inv (withTarget (withLatches db (pruneLatches (bd_latches db) targetID keep)) targetID after).
Proof.
  intros Hinv Hb Hsrv Hopen Hkeep. split.
  - intros k. cbn. destruct (bool_decide (k.1 = targetID)
      && match keep with Some keys => negb (bool_decide (k.2 ∈ keys)) | None => true end) eqn:E.
    + apply (key_ok_forget (bd_latches db)); [by rewrite prune_lookup, E| |apply Hinv].
      destruct (openAt k (bd_episodes db)) as [|e l] eqn:Eo; [done|].
      assert (e ∈ openAt k (bd_episodes db)) as (He & Ho & Hk)%elem_of_openAt by (rewrite Eo; by left).
      apply andb_true_iff in E as [E1 E2]. apply bool_decide_eq_true in E1. rewrite <- Hk in E1, E2.
      destruct (Hopen e He Ho E1) as (_ & _ & Hin). destruct keep as [keys|]; [|done].
      cbn in E2. by rewrite bool_decide_eq_true_2 in E2.
    + apply (key_ok_ext (bd_latches db)); [by rewrite prune_lookup, E|]. apply Hinv.
  - intros k b. cbn. rewrite prune_lookup. destruct (_ && _) eqn:E; [done|]. intros Hlb.
    destruct (bi_latch db Hinv k b Hlb) as (H1 & H2 & (t & Ht & Hen) & H4). split_and!; try tauto.
    destruct (decide (k.1 = targetID)) as [Hk|Hne].
    + exists after. rewrite Hk, lookup_insert_eq. split; [done|]. destruct (tr_enabled after) eqn:Ea; [done|].
      rewrite (Hkeep eq_refl) in E. by rewrite bool_decide_eq_true_2 in E.
    + exists t. by rewrite lookup_insert_ne.
  - intros e He Ho. destruct (bi_open db Hinv e He Ho) as (t & s & rules & Ht & Hs & Hsv & Hown & Hen & Hr & Hin).
    unfold announcement_declared. cbn. destruct (decide (be_target e = targetID)) as [Hk|Hne].
    + destruct (Hopen e He Ho Hk) as (Hen' & (rules' & Hr' & Hin') & _). rewrite Hk in Ht. rewrite Hb in Ht. injection Ht as <-.
      exists after, s, rules'. rewrite Hk, lookup_insert_eq, Hsrv. done.
    + exists t, s, rules. by rewrite lookup_insert_ne.
  - intros id t. cbn. destruct (decide (id = targetID)) as [->|Hne].
    + rewrite lookup_insert_eq. intros [= <-]. rewrite Hsrv. by apply (bi_target db Hinv targetID).
    + rewrite lookup_insert_ne by done. apply (bi_target db Hinv).
Qed.

Lemma inv_alerting db asOf project service window enabled rules db' :
  SetServiceBurnAlerting FormatFloat db asOf project service window enabled rules = Ok db' -> burn_inv db -> burn_inv db'.
Proof.
  unfold SetServiceBurnAlerting. destruct (ValidateServiceBurnRules FormatFloat rules); [|done].
  destruct (bd_services db !! service) as [s|]; [|done]. destruct (refuse_if _ _); [|done]. cbn [rbind].
  destruct (refuse_if _ _); [|done]. cbn [rbind]. destruct (targetOf db service window) as [[id before]|] eqn:Et; [|done].
  apply targetOf_spec in Et as [Ht Hsrv]. destruct (_ && match tr_rules before with Ok _ => _ | Err _ => _ end); [by intros [= ->]|].
  set (db1 := if tr_enabled before && negb enabled then _ else _). intros Hok Hinv.
  assert (burn_inv db1 /\ bd_targets db1 = bd_targets db /\
    forall e, e ∈ bd_episodes db1 -> isOpenBurn e = true -> be_target e = id -> enabled = true /\ be_rule e ∈ burnRuleKeys rules)
    as (Hinv1 & Ht1 & Hopen1).
  { assert (forall e, e ∈ bd_episodes db -> isOpenBurn e = true -> be_target e = id ->
      be_service e = Some service /\ tr_enabled before = true) as Hmine.
    { intros e He Ho Hid. destruct (bi_open db Hinv e He Ho) as (t & s' & rs & Hbt & Hbs & _ & _ & Hen & _).
      rewrite Hid, Ht in Hbt. injection Hbt as <-. by rewrite Hbs, Hsrv. }
    unfold db1. destruct (tr_enabled before) eqn:Eb, enabled; cbn [andb negb]; (split; [by try apply inv_close_episodes|split; [done|]]).
    - intros e He Ho Hid. split; [done|]. apply closed_left in He as [He Hc]; [|done].
      destruct (Hmine e He Ho Hid) as [Hs _]. unfold closesEpisode in Hc. cbn in Hc.
      rewrite !bool_decide_eq_true_2 in Hc by done. cbn in Hc. by apply negb_false_iff, bool_decide_eq_true in Hc.
    - intros e He Ho Hid. apply closed_left in He as [He Hc]; [|done]. destruct (Hmine e He Ho Hid) as [Hs _].
      unfold closesEpisode in Hc. cbn in Hc. by rewrite !bool_decide_eq_true_2 in Hc by done.
    - intros e He Ho Hid. apply closed_left in He as [He Hc]; [|done]. by destruct (Hmine e He Ho Hid).
    - intros e He Ho Hid. by destruct (Hmine e He Ho Hid). }
  injection Hok as <-.
  apply (inv_declare db1 id before _ (if enabled then Some (burnRuleKeys rules) else None)); [done|by rewrite Ht1|done|..].
  - intros e He Ho Hid. destruct (Hopen1 e He Ho Hid) as [-> Hin]. cbn. split_and!; [done| |done].
    eexists. split; [done|]. by apply canonicalRules_keys.
  - cbn. by intros ->.
Qed.

Lemma inv_new_target db id t :
  burn_inv db -> bd_targets db !! id = None -> is_Some (bd_services db !! tr_service t) ->
  burn_inv (withTarget db id t).
Proof.
  intros Hinv Hn Hs. assert (forall id' t', bd_targets db !! id' = Some t' -> bd_targets (withTarget db id t) !! id' = Some t') as Hext.
  { intros id' t' Ht'. cbn. rewrite lookup_insert_ne; [done|]. intros <-. congruence. }
  split.
  - apply Hinv.
  - intros k b Hb. destruct (bi_latch db Hinv k b Hb) as (? & ? & (t' & Ht' & ?) & ?). split_and!; try done; try tauto.
    exists t'. by split; [apply Hext|].
  - intros e He Ho. destruct (bi_open db Hinv e He Ho) as (t' & s & rules & Ht' & H). exists t', s, rules.
    split; [by apply Hext|done].
  - intros id' t'. cbn. destruct (decide (id' = id)) as [->|Hne]; [rewrite lookup_insert_eq; by intros [= <-]|].
    rewrite lookup_insert_ne by done. apply (bi_target db Hinv).
Qed.

Lemma inv_objective db newID project service window objective db' :
  bd_targets db !! newID = None ->
  UpsertServiceSLATarget db newID project service window objective = Ok db' -> burn_inv db -> burn_inv db'.
Proof.
  intros Hnew. unfold UpsertServiceSLATarget. destruct (refuse_if _ _); [|done]. cbn [rbind].
  destruct (bd_services db !! service) as [s|] eqn:Es; [|done]. destruct (refuse_if _ _); [|done]. cbn [rbind].
  intros [= <-] Hinv. destruct (targetOf db service window) as [[id t]|] eqn:Et; [|apply inv_new_target; [done|done|by eexists]].
  apply targetOf_spec in Et as [Ht _]. split.
  - apply Hinv.
  - intros k b Hb. destruct (bi_latch db Hinv k b Hb) as (? & ? & (t' & Ht' & He') & ?). split_and!; try done; try tauto. cbn.
    destruct (decide (k.1 = id)) as [Hk|Hne]; [|exists t'; by rewrite lookup_insert_ne].
    rewrite Hk, lookup_insert_eq. eexists. split; [done|]. cbn. rewrite Hk, Ht in Ht'. by injection Ht' as ->.
  - intros e He Ho. destruct (bi_open db Hinv e He Ho) as (t' & s' & rules & Ht' & Hs & Hsv & Hown & Hen & Hr & Hin).
    unfold announcement_declared. cbn. destruct (decide (be_target e = id)) as [Hk|Hne].
    + rewrite Hk, Ht in Ht'. injection Ht' as <-. eexists _, s', rules. rewrite Hk, lookup_insert_eq. by split_and!.
    + exists t', s', rules. by rewrite lookup_insert_ne.
  - intros id' t'. cbn. destruct (decide (id' = id)) as [->|Hne]; [|rewrite lookup_insert_ne by done; apply (bi_target db Hinv)].
    rewrite lookup_insert_eq. intros [= <-]. cbn. by apply (bi_target db Hinv id).
Qed.

(** A service's row may change when whoever stays open under it is still owned. *)
Lemma inv_service db id s :
  burn_inv db ->
  (forall e, e ∈ bd_episodes db -> isOpenBurn e = true -> be_service e = Some id -> bs_ownsPaging s = true) ->
  burn_inv (withService db id s).
Proof.
  intros Hinv Hown. split; [apply Hinv|apply (bi_latch db Hinv)|..].
  - intros e He Ho. destruct (bi_open db Hinv e He Ho) as (t & s' & rules & Ht & Hs & Hsv & Ho' & Hen & Hr & Hin).
    unfold announcement_declared. cbn. destruct (decide (tr_service t = id)) as [Hk|Hne].
    + exists t, s, rules. rewrite Hk, lookup_insert_eq. split_and!; try done; [by rewrite <- Hk|]. apply (Hown e He Ho). by rewrite <- Hk.
    + exists t, s', rules. by rewrite lookup_insert_ne.
  - intros id' t Ht. cbn. destruct (decide (tr_service t = id)) as [->|Hne]; [by rewrite lookup_insert_eq; eexists|].
    rewrite lookup_insert_ne by done. by apply (bi_target db Hinv id').
Qed.

Lemma inv_ownership db asOf service owns changed : burn_inv db -> burn_inv (writeOwnership db asOf service owns changed).
Proof.
  intros Hinv. unfold writeOwnership. destruct (bd_services db !! service) as [s|] eqn:Es; [|done].
  destruct (bs_ownsPaging s && negb owns) eqn:E; (apply inv_service; [try apply inv_close_episodes; done|]); cbn.
  - intros e He Ho Hs. apply elem_of_closed in He as [_ Hc]; [|done]. unfold closesEpisode in Hc. cbn in Hc.
    by rewrite bool_decide_eq_true_2 in Hc.
  - intros e He Ho Hs. destruct (bi_open db Hinv e He Ho) as (t & s' & rules & _ & Hs' & Hsv & Ho' & _).
    rewrite Hs in Hs'. injection Hs' as Hst. rewrite <- Hst, Es in Hsv. injection Hsv as ->. rewrite Ho' in E. by apply negb_false_iff in E.
Qed.

Lemma inv_delete db asOf service : burn_inv db -> burn_inv (DeleteService db asOf service).
Proof.
  intros Hinv. unfold DeleteService.
  set (db1 := closeBurnEpisodesTx db asOf service {| ef_targetID := None; ef_keepRuleKeys := None |} CloseServiceDeleted).
  assert (burn_inv db1) as Hinv1 by by apply inv_close_episodes.
  assert (forall e, e ∈ bd_episodes db1 -> isOpenBurn e = true -> be_service e <> Some service) as Hleft.
  { intros e He Ho Hs. apply closed_left in He as [_ Hc]; [|done]. unfold closesEpisode in Hc. cbn in Hc.
    by rewrite bool_decide_eq_true_2 in Hc. }
  clearbody db1. set (orphan := fun e => if bool_decide (be_service e = Some service) then _ else e).
  assert (forall e, isOpenBurn (orphan e) = isOpenBurn e /\ episodeKey (orphan e) = episodeKey e) as Horph
    by (intros e; unfold orphan; by case_bool_decide).
  assert (forall k, openAt k (map orphan (bd_episodes db1)) = openAt k (bd_episodes db1)) as Hopen.
  { intros k. unfold openAt. induction (bd_episodes db1) as [|e l IH]; cbn; [done|]. destruct (Horph e) as [-> ->].
    rewrite IH by (intros e' He'; apply Hleft; by right). destruct (isOpenBurn e && _) eqn:E; [|done]. f_equal.
    unfold orphan. rewrite bool_decide_eq_false_2; [done|]. apply andb_true_iff in E as [Ho _]. apply Hleft; [by left|done]. }
  assert (forall e, e ∈ map orphan (bd_episodes db1) -> isOpenBurn e = true -> e ∈ bd_episodes db1) as Hback.
  { intros e (e0 & -> & He0)%list_elem_of_fmap Ho. rewrite (proj1 (Horph e0)) in Ho. unfold orphan.
    by rewrite bool_decide_eq_false_2 by by apply Hleft. }
  split.
  - intros k. cbn. unfold key_ok. rewrite Hopen. fold (key_ok (bd_latches db1) (bd_episodes db1) (bd_outbox db1) k).
    destruct (bd_targets db1 !! k.1) as [t|] eqn:Et; [destruct (decide (tr_service t = service)) as [Hs|Hs]|].
    + apply (key_ok_forget (bd_latches db1)); [..|apply Hinv1].
      * apply map_lookup_filter_None. right. intros b _. cbn. rewrite Et. by rewrite bool_decide_eq_true_2.
      * destruct (openAt k (bd_episodes db1)) as [|e l] eqn:Eo; [done|].
        assert (e ∈ openAt k (bd_episodes db1)) as (He & Ho & Hk)%elem_of_openAt by (rewrite Eo; by left). exfalso.
        destruct (bi_open db1 Hinv1 e He Ho) as (t' & s & rules & Ht' & Hs' & _). rewrite <- Hk in Et. cbn in Et. rewrite Et in Ht'.
        injection Ht' as <-. apply (Hleft e He Ho). congruence.
    + apply (key_ok_ext (bd_latches db1)); [|apply Hinv1]. symmetry. destruct (bd_latches db1 !! k) as [b|] eqn:Eb.
      * apply map_lookup_filter_Some. split; [done|]. cbn. rewrite Et. by rewrite bool_decide_eq_false_2.
      * apply map_lookup_filter_None. by left.
    + apply (key_ok_ext (bd_latches db1)); [|apply Hinv1]. symmetry. destruct (bd_latches db1 !! k) as [b|] eqn:Eb.
      * apply map_lookup_filter_Some. split; [done|]. cbn. by rewrite Et.
      * apply map_lookup_filter_None. by left.
  - intros k b (Hb & Hm)%map_lookup_filter_Some. cbn in Hm. destruct (bi_latch db1 Hinv1 k b Hb) as (? & ? & (t & Ht & He) & ?).
    split_and!; try done; try tauto. exists t. split; [|done]. cbn. apply map_lookup_filter_Some. split; [done|]. cbn. by rewrite Ht in Hm.
  - intros e He Ho. apply Hback in He; [|done]. destruct (bi_open db1 Hinv1 e He Ho) as (t & s & rules & Ht & Hs & Hsv & H).
    assert (tr_service t <> service) as Hne by (intros E; apply (Hleft e He Ho); congruence).
    exists t, s, rules. cbn. split; [apply map_lookup_filter_Some; split; [done|]; cbn; by rewrite bool_decide_eq_false_2|].
    split; [done|]. by rewrite lookup_delete_ne.
  - intros id t. cbn. intros (Ht & Hm)%map_lookup_filter_Some. cbn in Hm. apply negb_true_iff, bool_decide_eq_false in Hm.
    rewrite lookup_delete_ne by done. by apply (bi_target db1 Hinv1 id).
Qed.

Lemma levelOf_alter (f : BurnLatchRow -> BurnLatchRow) (k k' : burnLatchKey) latches :
  (forall b, bl_firing (f b) = bl_firing b /\ bl_emitted_seq (f b) = bl_emitted_seq b) ->
  ll_firing (levelOf (alter f k latches) k') = ll_firing (levelOf latches k') /\
  ll_seq (levelOf (alter f k latches) k') = ll_seq (levelOf latches k').
Proof.
  intros Hf. unfold levelOf. destruct (decide (k = k')) as [->|Hne]; [|by rewrite lookup_alter_ne].
  rewrite lookup_alter_eq. destruct (latches !! k') as [b|]; [apply Hf|done].
Qed.

Lemma inv_mark db (k : burnLatchKey) (f : BurnLatchRow -> BurnLatchRow) :
  burn_inv db ->
  (forall b, bl_firing (f b) = bl_firing b /\ bl_emitted_seq (f b) = bl_emitted_seq b /\ bl_target (f b) = bl_target b /\
     bl_rule (f b) = bl_rule b /\
     (0 <= bl_delivered_seq b <= bl_emitted_seq b -> 0 <= bl_delivered_seq (f b) <= bl_emitted_seq b) /\
     (0 <= bl_undelivered_seq b <= bl_emitted_seq b -> 0 <= bl_undelivered_seq (f b) <= bl_emitted_seq b)) ->
  burn_inv (withLatches db (alter f k (bd_latches db))).
Proof.
  intros Hinv Hf. split; [..|apply Hinv|apply Hinv].
  - intros k'. unfold key_ok. cbn. destruct (levelOf_alter f k k' (bd_latches db)) as [-> ->]; [|apply (bi_key db Hinv k')].
    intros b. by destruct (Hf b) as (? & ? & _).
  - intros k' b'. cbn. destruct (decide (k' = k)) as [->|Hne]; [|rewrite lookup_alter_ne by done; apply (bi_latch db Hinv)].
    rewrite lookup_alter_eq. intros (b & Hb & ->)%fmap_Some. destruct (bi_latch db Hinv k b Hb) as (H1 & H2 & H3 & H4 & H5).
    destruct (Hf b) as (_ & E2 & E3 & E4 & E5 & E6). unfold latch_ok. rewrite E2, E3, E4. split_and!; try done; try tauto;
      destruct (E5 H4), (E6 H5); lia.
Qed.

Lemma burn_step_inv db db' : burn_step FormatFloat db db' -> burn_inv db -> burn_inv db'.
Proof.
  intros Hstep Hinv. destruct Hstep as [db p db' out H|db asOf project service window enabled rules db' H|
    db newID project service window objective db' Hn _ H|db id s Hn|db asOf service owns changed|db asOf service|db a _|db a _].
  - by eapply inv_pass.
  - by eapply inv_alerting.
  - by eapply inv_objective.
  - apply inv_service; [done|]. intros e He Ho Hs. destruct (bi_open db Hinv e He Ho) as (t & s' & rules & _ & Hs' & Hsv & _).
    congruence.
  - by apply inv_ownership.
  - by apply inv_delete.
  - unfold MarkBurnDelivered. destruct (ba_Firing a); [|done]. apply inv_mark; [done|]. intros b. unfold deliveredLatch.
    destruct (_ && _) eqn:E; cbn; split_and!; try done; lia.
  - unfold MarkBurnUndeliverable. destruct (ba_Firing a); [|done]. apply inv_mark; [done|]. intros b. unfold condemnedLatch.
    destruct (_ && _ && _) eqn:E; cbn; split_and!; try done; lia.
Qed.

Lemma burn_reachable_inv db : burn_reachable FormatFloat db -> burn_inv db.
Proof.
  apply (invariant_rule (burn_system FormatFloat)); [|apply burn_step_inv].
  intros db0 (Ht & Hl & He & Ho). split.
  - intros k. unfold key_ok, levelOf. rewrite Hl, He, Ho, lookup_empty. exists None. split; [constructor|done].
  - intros k b. by rewrite Hl, lookup_empty.
  - intros e. rewrite He. intros H%not_elem_of_nil. done.
  - intros id t. by rewrite Ht, lookup_empty.
Qed.
End rules.

(** ** What a pass says, and what it decides *)
Section pass.
Context (FormatFloat : float64 -> string).
Implicit Types (db : BurnDB) (p : BurnPass).
Notation slotKey := (slotKey FormatFloat).

Lemma DecideBurnRule_rates long short threshold firing :
  let d := DecideBurnRule long short threshold firing in
  match burnQuotable long, burnQuotable short with
  | Some x, Some y =>
    brd_Verdict d <> BurnHold /\ (brd_Verdict d = BurnFire <-> fge x threshold && fge y threshold = true)
  | _, _ => brd_Verdict d = BurnHold
  end.
Proof.
  unfold DecideBurnRule. destruct (burnQuotable long) as [x|], (burnQuotable short) as [y|]; cbn; try done.
  by destruct (fge x threshold && fge y threshold).
Qed.

(** The rule's burn rates at the pass's instant are both quotable, and both at the threshold
    or not. *)
Definition measured p (sl : ruleSlot) (above : bool) : Prop :=
  exists x y, burnQuotable (windowOf p (sl_long sl)) = Some x /\ burnQuotable (windowOf p (sl_short sl)) = Some y /\
    fge x (Threshold (sl_rule sl)) && fge y (Threshold (sl_rule sl)) = above.

Lemma verdict_measured p sl firing :
  let d := DecideBurnRule (windowOf p (sl_long sl)) (windowOf p (sl_short sl)) (Threshold (sl_rule sl)) firing in
  (brd_Verdict d = BurnFire -> measured p sl true) /\ (brd_Verdict d = BurnClear -> measured p sl false).
Proof.
  intros d. pose proof (DecideBurnRule_rates (windowOf p (sl_long sl)) (windowOf p (sl_short sl))
    (Threshold (sl_rule sl)) firing) as H. fold d in H. unfold measured.
  destruct (burnQuotable (windowOf p (sl_long sl))) as [x|], (burnQuotable (windowOf p (sl_short sl))) as [y|];
    [|by split; rewrite H..]. destruct H as [_ H]. split; intros E.
  - exists x, y. split_and!; [done..|by apply H].
  - exists x, y. split_and!; [done..|]. apply not_true_iff_false. rewrite <- H, E. done.
Qed.

Lemma burn_log_routed log cur n a : burn_log log cur n -> a ∈ log -> ba_Firing a = true -> ba_Recipients a <> [].
Proof.
  intros Hl. induction Hl as [|log cur n b _ IH _ _ Hr _|log o n b _ IH Hf _ _ _ _|log n _ IH].
  - intros H. by apply not_elem_of_nil in H.
  - intros [H| ->%list_elem_of_singleton]%elem_of_app Ha; [by apply IH|done].
  - intros [H| ->%list_elem_of_singleton]%elem_of_app Ha; [by apply IH|congruence].
  - exact IH.
Qed.

(** A latch nothing may be read from before the next pass. *)
Definition blinded (asOf : Time) (b : BurnLatchRow) : Prop :=
  asOf < bl_evaluated_at b \/
  bl_verdict b = BurnHold /\ bl_lease_until b = asOf /\ is_Some (bl_last_error b).

Lemma disarmed_blinded asOf reason e b : blinded asOf (disarmed asOf reason e b).
Proof.
  unfold disarmed, blinded. destruct (Z.leb_spec (bl_evaluated_at b) asOf); [right|by left]. cbn. split_and!; [done..|by eexists].
Qed.

Definition blindAt (asOf : Time) (latches : gmap burnLatchKey BurnLatchRow) (k : burnLatchKey) : Prop :=
  exists b, latches !! k = Some b /\ blinded asOf b.

Lemma disarmRule_blind c asOf reason e latches key k :
  k = (bc_targetID c, key) \/ blindAt asOf latches k -> blindAt asOf (disarmRule c asOf reason e latches key) k.
Proof.
  intros H. unfold disarmRule, blindAt. destruct (decide ((bc_targetID c, key) = k)) as [<-|Hne].
  - rewrite lookup_insert_eq. eexists. split; [done|].
    destruct (latches !! (bc_targetID c, key)) as [b|]; [apply disarmed_blinded|]. right. cbn. split_and!; [done..|by eexists].
  - rewrite lookup_insert_ne by done. destruct H as [H|H]; [congruence|exact H].
Qed.

Lemma disarm_blind c asOf reason e latches keys k :
  (exists key, key ∈ keys /\ k = (bc_targetID c, key)) \/ blindAt asOf latches k ->
  blindAt asOf (disarmBurnTargetTx latches c keys asOf reason e) k.
Proof.
  unfold disarmBurnTargetTx. destruct keys as [|key keys].
  - intros [(key & H & _)|(b & Hb & Hbl)]; [by apply not_elem_of_nil in H|]. unfold blindAt. rewrite map_lookup_imap, Hb. cbn.
    case_bool_decide; eexists; (split; [done|]); [apply disarmed_blinded|done].
  - generalize (key :: keys). clear key keys. intros keys. revert latches.
    induction keys as [|key keys IH]; intros latches H; cbn [foldl].
    + destruct H as [(key & H & _)|H]; [by apply not_elem_of_nil in H|exact H].
    + apply IH. destruct H as [(key' & [->|Hin]%elem_of_cons & ->)|H].
      * right. apply disarmRule_blind. by left.
      * left. by exists key'.
      * right. apply disarmRule_blind. by right.
Qed.

(** ** Every rule of the slice is judged, or its latch is blinded *)
Definition judged p (latches : gmap burnLatchKey BurnLatchRow) (slots : list ruleSlot) (c : burnCandidate)
    (rules : list BurnRule) (r : BurnRule) : Prop :=
  match bc_era c, bc_sealed c with
  | Some era, Some sealed => exists sl, sl ∈ slots /\ slotKey sl = (bc_targetID c, Key FormatFloat r) /\ sl_cand sl = c /\
                                sl_rule sl ∈ rules
  | _, _ => blindAt (bp_asOf p) latches (bc_targetID c, Key FormatFloat r)
  end.

Lemma prepareTarget_keeps p c0 rules r latches slots out c latches' slots' out' :
  prepareTarget FormatFloat p (latches, slots, out) c = (latches', slots', out') ->
  judged p latches slots c0 rules r -> judged p latches' slots' c0 rules r.
Proof.
  unfold prepareTarget, judged. intros Hp H.
  assert (forall sl, sl ∈ slots -> sl ∈ slots') as Hs.
  { destruct (tr_rules (bc_target c)), (bc_era c), (bc_sealed c); injection Hp as _ <- _; set_solver. }
  assert (forall k, blindAt (bp_asOf p) latches k -> blindAt (bp_asOf p) latches' k) as Hb.
  { intros k Hk. destruct (tr_rules (bc_target c)) as [rs|e]; [destruct (bc_era c), (bc_sealed c)|];
      injection Hp as <- _ _; try exact Hk; try (apply (disarm_blind c); by right).
    apply (disarm_blind c _ _ _ _ []). by right. }
  destruct (bc_era c0), (bc_sealed c0); try by apply Hb. destruct H as (sl & Hin & H). exists sl. split; [by apply Hs|done].
Qed.

Lemma prepareTarget_judges p c rules r latches slots out latches' slots' out' :
  tr_rules (bc_target c) = Ok rules -> r ∈ rules ->
  prepareTarget FormatFloat p (latches, slots, out) c = (latches', slots', out') ->
  judged p latches' slots' c rules r.
Proof.
  intros Ht Hr. unfold prepareTarget, judged. rewrite Ht.
  assert (exists key, key ∈ burnRuleKeys FormatFloat rules /\ (bc_targetID c, Key FormatFloat r) = (bc_targetID c, key)) as Hkey
    by (eexists; split; [apply elem_of_burnRuleKeys; by exists r|done]).
  destruct (bc_era c) as [era|], (bc_sealed c) as [sealed|]; intros [= <- <- <-]; try (apply disarm_blind; by left).
  destruct (distinctRules_spec FormatFloat rules) as (_ & Hsub & Hall).
  apply Hall, list_elem_of_fmap in Hr as (r' & Hk & Hr').
  eexists. split; [apply elem_of_app; right; unfold slotsOf; apply list_elem_of_fmap; exists r'; split; [reflexivity|done]|].
  unfold BurnEval.slotKey. cbn. rewrite Hk. split_and!; [done..|by apply Hsub].
Qed.

Lemma prepared_judges p db cs latches slots out c rules r :
  prepared FormatFloat p db cs = (latches, slots, out) -> c ∈ cs -> tr_rules (bc_target c) = Ok rules -> r ∈ rules ->
  judged p latches slots c rules r.
Proof.
  revert latches slots out. induction cs as [|c0 cs IH] using rev_ind; intros latches slots out Hp Hc Ht Hr.
  { by apply not_elem_of_nil in Hc. }
  destruct (prepared FormatFloat p db cs) as [[latches0 slots0] out0] eqn:E0.
  rewrite (prepared_snoc _ _ _ _ _ _ _ _ E0) in Hp. apply elem_of_app in Hc as [Hc| ->%list_elem_of_singleton].
  - eapply prepareTarget_keeps; [exact Hp|]. by eapply IH.
  - by eapply prepareTarget_judges.
Qed.

(** ** The claims *)

(** C12: refinement to the log of announcements: in every reachable state, whatever the order
    of passes, declaration edits, objective writes, ownership writes, deletions and delivery
    reports, the outbox of each rule reads as onset, end, onset, end, with consecutive
    numbers since the rule was last declared; the end carries the episode and the recipients
    of the onset it answers; the rule's level is firing exactly when the last onset is
    unanswered, and then exactly one episode of the rule is open, it is that onset's, and it
    is about a declared rule of an enabled target of a service that still owns paging. *)
Theorem burn_announcements_refine_the_log db (k : burnLatchKey) (Hreach : burn_reachable FormatFloat db) :
  exists cur, burn_log (logAt k (bd_outbox db)) cur (ll_seq (levelOf (bd_latches db) k)) /\
    match cur with
    | None => ll_firing (levelOf (bd_latches db) k) = false /\ openAt k (bd_episodes db) = []
    | Some o =>
      ll_firing (levelOf (bd_latches db) k) = true /\
      exists e, openAt k (bd_episodes db) = [e] /\ be_ID e = ba_EpisodeID o /\ be_recipients e = ba_Recipients o /\
        be_emittedSeq e = ll_seq (levelOf (bd_latches db) k) /\ announcement_declared FormatFloat db e
    end.
Proof.
  apply burn_reachable_inv in Hreach as Hinv. destruct (bi_key _ db Hinv k) as (cur & Hl & Hd). exists cur. split; [done|].
  destruct cur as [o|]; [|done]. destruct Hd as (Hf & e & He & Hid & Hr & Hs). split; [done|]. exists e. split_and!; try done.
  assert (e ∈ openAt k (bd_episodes db)) as (H1 & H2 & _)%elem_of_openAt by (rewrite He; by left). by apply (bi_open _ db Hinv).
Qed.


(** what a pass decides: after a committed pass, every rule of every target of its slice
    has a latch.  When the service has sealed something the latch carries the verdict of the
    rule's two windows at the pass's instant, no error, and a lease of three cadences; when it
    has not, the latch holds with an error and a lease already over, unless a newer pass wrote
    it, so the alert delegation reads nothing from it. *)
Theorem slice_is_judged db p db' out c rules r
  (Hreach : burn_reachable FormatFloat db)
  (Hpass : EvaluateServiceBurnAlerts FormatFloat db p = Ok (db', out))
  (Hc : c ∈ burnSlice db p) (Hrules : tr_rules (bc_target c) = Ok rules) (Hr : r ∈ rules) :
  exists b, bd_latches db' !! (bc_targetID c, Key FormatFloat r) = Some b /\
    match bc_era c, bc_sealed c with
    | Some era, Some sealed =>
      bl_evaluated_at b = bp_asOf p /\ bl_lease_until b = leaseOf p /\ bl_last_error b = None /\
      exists r', r' ∈ rules /\ Key FormatFloat r' = Key FormatFloat r /\
        bl_verdict b = brd_Verdict (DecideBurnRule
          (windowOf p (windowRequest c era sealed "long" (LongWindowSeconds r')))
          (windowOf p (windowRequest c era sealed "short" (ShortWindowSeconds r')))
          (Threshold r') (ll_firing (levelOf (bd_latches db) (bc_targetID c, Key FormatFloat r))))
    | _, _ => blinded (bp_asOf p) b
    end.
Proof.
  apply burn_reachable_inv in Hreach as Hinv.
  destruct (evaluate_effect _ _ _ _ _ Hinv Hpass) as (latches & slots & (o & Hp) & _ & Hlv & Hslots & [_ _ _ Hother Hres _]).
  pose proof (prepared_judges p db _ _ _ _ c rules r Hp Hc Hrules Hr) as Hj. unfold judged in Hj.
  assert (bc_era c = None \/ bc_sealed c = None -> (bc_targetID c, Key FormatFloat r) ∉ map slotKey slots) as Hns.
  { intros Hnone (sl & Hk & Hsl)%list_elem_of_fmap. destruct (Hslots sl Hsl) as (Hin & _ & (era & sealed & He & Hs & _)).
    destruct (slice_candidates db p) as [_ Hnd]. injection Hk as Hid _.
    rewrite <- (NoDup_map_inj bc_targetID _ Hnd _ _ Hc Hin Hid) in He, Hs. destruct Hnone; congruence. }
  destruct (bc_era c) as [era|] eqn:Eera, (bc_sealed c) as [sealed|] eqn:Esealed.
  2-4: destruct Hj as (b & Hb & Hbl); exists b; split; [|done]; destruct (Hother _ (Hns ltac:(tauto))) as [H _]; exact (eq_trans H Hb).
  destruct Hj as (sl & Hin & Hk & Hsc & Hsr). destruct (Hslots sl Hin) as (_ & _ & (era' & sealed' & He & Hs & Hlong & Hshort)).
  destruct (Hres sl Hin) as (said & (d0 & again & d & w & H0 & H1 & _ & Hnew & _) & _).
  destruct (decision_sound FormatFloat _ _ _ _ _ _ _ H0 H1) as (_ & Hv & Hv0). rewrite Hk in Hnew. eexists. split; [exact Hnew|].
  cbn. split_and!; [done..|]. exists (sl_rule sl). split; [done|]. split; [by injection Hk|].
  rewrite Hsc, Eera in He. rewrite Hsc, Esealed in Hs. injection He as <-. injection Hs as <-.
  by rewrite Hv, Hv0, Hlong, Hshort, Hsc, Hk.
Qed.
End pass.

(** ** A service burning its budget, for the witnesses *)
Definition burnService : BurnService :=
  {| bs_project := "p"; bs_name := "Checkout"; bs_slug := "checkout"; bs_ownsPaging := true; bs_generation := 1;
     bs_schedule := None; bs_fileManaged := false |}.

Definition burnEmpty : BurnDB :=
  {| bd_services := ∅; bd_targets := ∅; bd_latches := ∅; bd_episodes := []; bd_outbox := [] |}.

Definition burnDeclared : BurnDB :=
  Eval vm_compute in
  match UpsertServiceSLATarget (withService burnEmpty "s1" burnService) "t1" "p" "s1" "30d" (fofZ 99) with
  | Ok db => match SetServiceBurnAlerting demoFormat db 0 "p" "s1" "30d" true [demoRule] with Ok db' => db' | Err _ => db end
  | Err _ => burnEmpty
  end.

Definition burnPassAt (asOf : Time) (rows : ReportRows) : BurnPass :=
  {| bp_asOf := asOf; bp_cadence := Minute;
     bp_channels := [{| nc_ID := "c1"; nc_ProjectID := "p"; nc_Enabled := true |}];
     bp_schedules := ∅; bp_rows := fun _ => rows; bp_newID := fun _ => "ep1" |}.

Definition firstPass : BurnPass := burnPassAt (demoSealed + Minute) demoRows.

Definition burnFired : BurnDB :=
  Eval vm_compute in match EvaluateServiceBurnAlerts demoFormat burnDeclared firstPass with Ok (db, _) => db | Err _ => burnDeclared end.

Definition burnFiredCounts : ServiceBurnEvaluation :=
  Eval vm_compute in match EvaluateServiceBurnAlerts demoFormat burnDeclared firstPass with Ok (_, o) => o | Err _ => noEvaluation end.

Lemma firstPass_Ok : EvaluateServiceBurnAlerts demoFormat burnDeclared firstPass = Ok (burnFired, burnFiredCounts).
Proof. by vm_compute. Qed.

Lemma burnDeclared_reachable : burn_reachable demoFormat burnDeclared.
Proof.
  exists burnEmpty. split; [done|].
  eapply rtc_l; [by apply (bst_create _ burnEmpty "s1" burnService)|].
  eapply rtc_l.
  { apply (bst_objective _ _ "t1" "p" "s1" "30d" (fofZ 99)
      (default burnEmpty (match UpsertServiceSLATarget (withService burnEmpty "s1" burnService) "t1" "p" "s1" "30d" (fofZ 99) with
                          | Ok db => Some db | Err _ => None end))); [done| |by vm_compute].
    intros e He. by apply not_elem_of_nil in He. }
  eapply rtc_once. by apply (bst_alerting _ _ 0 "p" "s1" "30d" true [demoRule]).
Qed.

Lemma burnFired_reachable : burn_reachable demoFormat burnFired.
Proof.
  destruct burnDeclared_reachable as (db0 & H0 & Hr). exists db0. split; [done|].
  eapply rtc_r; [exact Hr|]. eapply bst_evaluate. exact firstPass_Ok.
Qed.

Example burn_announcements_refine_the_log_witness :
  exists o, burn_log (bd_outbox burnFired) (Some o) 1 /\
    exists e, openAt ("t1", "page/21600/1800/6") (bd_episodes burnFired) = [e] /\ be_recipients e = ["c1"].
Proof.
  destruct (burn_announcements_refine_the_log demoFormat burnFired ("t1", "page/21600/1800/6") burnFired_reachable)
    as ([o|] & Hl & H).
  - exists o. split; [exact Hl|]. destruct H as (_ & e & He & _). exists e. split; [exact He|]. by injection He as <-.
  - by destruct H as [H _].
Defined.


Example slice_is_judged_witness :
  exists b, bd_latches burnFired !! (("t1", "page/21600/1800/6") : burnLatchKey) = Some b /\
    bl_lease_until b = demoSealed + 4 * Minute.
Proof.
  destruct (burnSlice burnDeclared firstPass) as [|c l] eqn:E; [discriminate E|].
  destruct (slice_is_judged demoFormat burnDeclared firstPass burnFired burnFiredCounts c [demoRule] demoRule
    burnDeclared_reachable firstPass_Ok ltac:(rewrite E; left)) as (b & Hb & H).
  { by injection E as <- _. }
  { left. }
  injection E as <- _. exists b. split; [exact Hb|]. by destruct H as (_ & H & _).
Defined.

(** ** Corners *)

(** The announcement nobody heard is made again even while the windows cannot be quoted: the
    page goes out on a HOLD, with a burn rate of zero in its payload. *)
Definition secondPass : BurnPass :=
  burnPassAt (demoSealed + 2 * Minute)
    {| rr_materialization := Some demoMat; rr_owned := true; rr_sliMembers := 1; rr_target := fun _ => None;
       rr_buckets := []; rr_revision1 := None; rr_repairs := [] |}.

Example reannounced_on_hold :
  match EvaluateServiceBurnAlerts demoFormat (MarkBurnUndeliverable burnFired ("t1", "page/21600/1800/6") true 1) secondPass with
  | Ok (db, out) =>
    ev_Holds out = 1 /\ ev_Onsets out = 1 /\
    map (fun a => (ba_Seq a, bf_BurnRate <$> ba_figures a)) (drop 1 (bd_outbox db)) = [(2, Some (fofZ 0))]
  | Err _ => False
  end.
Proof. by vm_compute. Qed.

(** Disabling a target prunes its latches, so the numbers start again: the delivery of an
    onset that was queued before is credited to the onset after it. *)
Definition redeclared : BurnDB :=
  Eval vm_compute in
  match SetServiceBurnAlerting demoFormat burnFired 1 "p" "s1" "30d" false [demoRule] with
  | Ok off => match SetServiceBurnAlerting demoFormat off 2 "p" "s1" "30d" true [demoRule] with
              | Ok on => match EvaluateServiceBurnAlerts demoFormat on secondPass with
                         | Ok (db1, _) =>
                           match EvaluateServiceBurnAlerts demoFormat db1 (burnPassAt (demoSealed + 3 * Minute) demoRows) with
                           | Ok (db2, _) => db2 | Err _ => db1 end
                         | Err _ => on end
              | Err _ => off end
  | Err _ => burnFired
  end.

Example old_onset_credits_the_new_one :
  let k : burnLatchKey := ("t1", "page/21600/1800/6") in
  map (fun a => (ba_Seq a, ba_Firing a)) (bd_outbox redeclared) = [(1, true); (2, false); (1, true)] /\
  bl_delivered_seq <$> (bd_latches redeclared !! k) = Some 0 /\
  bl_delivered_seq <$> (bd_latches (MarkBurnDelivered redeclared k true 1) !! k) = Some 1.
Proof. by vm_compute. Qed.
