(* ===== verification/GoBase64.v ===== *)
(** * Base64 and decimals

    [base64.RawURLEncoding], [strconv.FormatInt] and [strconv.ParseInt] in base ten, and
    [strings.Cut], as the page cursor of [internal/store/change.go] uses them. *)

From stdpp Require Import pretty.
From S2P Require Import Prelude GoString.

(** ** [base64.RawURLEncoding] *)

(** The URL alphabet: A-Z, a-z, 0-9, [-], [_]. *)
Definition b64Char (v : Z) : Z :=
  if v <? 26 then 65 + v else if v <? 52 then 71 + v else if v <? 62 then v - 4 else if v =? 62 then 45 else 95.

Definition b64Value (c : Z) : option Z :=
  if inRange 65 90 c then Some (c - 65)
  else if inRange 97 122 c then Some (c - 71)
  else if inRange 48 57 c then Some (c + 4)
  else if c =? 45 then Some 62 else if c =? 95 then Some 63 else None.

(** Three bytes are four digits of six bits; a tail of one or two bytes is two or three. *)
Fixpoint b64Encode (l : bytes) : bytes :=
  match l with
  | [] => []
  | [a] => let v := a * 65536 in [b64Char (v / 262144); b64Char (v / 4096 mod 64)]
  | [a; b] => let v := a * 65536 + b * 256 in [b64Char (v / 262144); b64Char (v / 4096 mod 64); b64Char (v / 64 mod 64)]
  | a :: b :: c :: rest =>
    let v := a * 65536 + b * 256 + c in
    b64Char (v / 262144) :: b64Char (v / 4096 mod 64) :: b64Char (v / 64 mod 64) :: b64Char (v mod 64) :: b64Encode rest
  end.

(** The quanta of six-bit values; the bits a short tail leaves over are dropped unread, and a
    tail of one digit is an error. *)
Fixpoint b64Quanta (l : list Z) : option bytes :=
  match l with
  | [] => Some []
  | [_] => None
  | [a; b] => let v := a * 262144 + b * 4096 in Some [v / 65536]
  | [a; b; c] => let v := a * 262144 + b * 4096 + c * 64 in Some [v / 65536; v / 256 mod 256]
  | a :: b :: c :: d :: rest =>
    let v := a * 262144 + b * 4096 + c * 64 + d in
    match b64Quanta rest with Some r => Some (v / 65536 :: v / 256 mod 256 :: v mod 256 :: r) | None => None end
  end.

(** The decoder skips carriage returns and newlines. *)
Definition b64Decode (l : bytes) : option bytes :=
  match mapM b64Value (List.filter (fun c => negb ((c =? 13) || (c =? 10))) l) with
  | Some vs => b64Quanta vs
  | None => None
  end.

(** ** Decimals *)
Definition FormatInt (n : Z) : bytes := bytesOf (pretty n).

Definition digitValue (c : Z) : option Z := if inRange 48 57 c then Some (c - 48) else None.

Fixpoint decimal (acc : Z) (l : bytes) : option Z :=
  match l with
  | [] => Some acc
  | c :: rest => match digitValue c with Some d => decimal (10 * acc + d) rest | None => None end
  end.

(** [ParseInt(s, 10, 64)]: an optional sign, at least one digit, the [int64] range. *)
Definition ParseInt (l : bytes) : option Z :=
  let unsigned l := match l with [] => None | _ => decimal 0 l end in
  let n := match l with
           | c :: rest => if c =? 45 then match unsigned rest with Some v => Some (- v) | None => None end
                          else if c =? 43 then unsigned rest else unsigned l
           | [] => None
           end in
  match n with Some v => if (int64_min <=? v) && (v <=? int64_max) then Some v else None | None => None end.

(** ** [strings.Cut] at one byte *)
Fixpoint cut (sep : Z) (l : bytes) : option (bytes * bytes) :=
  match l with
  | [] => None
  | c :: rest => if c =? sep then Some ([], rest)
                 else match cut sep rest with Some (a, b) => Some (c :: a, b) | None => None end
  end.

(** ** Round trips *)
Lemma b64Value_Char v : 0 <= v < 64 -> b64Value (b64Char v) = Some v.
Proof.
  intros H. rewrite <- (Z2Nat.id v) by lia. assert (Z.to_nat v < 64)%nat as Hk by lia.
  revert Hk. generalize (Z.to_nat v) as k. intros k Hk. do 64 (destruct k as [|k]; [reflexivity|]). lia.
Qed.

Lemma b64Char_visible v : 0 <= v < 64 -> (b64Char v =? 13) || (b64Char v =? 10) = false.
Proof. intros H. unfold b64Char. break_goal; bool_facts; apply orb_false_iff; split; apply Z.eqb_neq; lia. Qed.

(** What the encoder writes, digit by digit. *)
Definition b64Digits (l : bytes) (vs : list Z) : Prop :=
  b64Encode l = map b64Char vs /\ Forall (fun v => 0 <= v < 64) vs /\ b64Quanta vs = Some l.

Lemma b64_digits l : Forall byte_ok l -> exists vs, b64Digits l vs.
Proof.
  unfold b64Digits. remember (length l) as n eqn:Hn. revert l Hn. induction n as [n IH] using lt_wf_ind. intros l Hn Hl.
  destruct l as [|a [|b [|c rest]]].
  - exists []. split_and!; [done|constructor|done].
  - apply List.Forall_cons_iff in Hl as [Ha _]. unfold byte_ok in Ha.
    exists [a * 65536 / 262144; a * 65536 / 4096 mod 64]. split; [done|]. split.
    + repeat constructor; Z.to_euclidean_division_equations; lia.
    + cbn. f_equal. f_equal. Z.to_euclidean_division_equations; lia.
  - apply List.Forall_cons_iff in Hl as [Ha Hl]. apply List.Forall_cons_iff in Hl as [Hb _]. unfold byte_ok in Ha, Hb.
    exists [(a * 65536 + b * 256) / 262144; (a * 65536 + b * 256) / 4096 mod 64; (a * 65536 + b * 256) / 64 mod 64].
    split; [done|]. split.
    + repeat constructor; Z.to_euclidean_division_equations; lia.
    + cbn. f_equal. f_equal; [|f_equal]; Z.to_euclidean_division_equations; lia.
  - apply List.Forall_cons_iff in Hl as [Ha Hl]. apply List.Forall_cons_iff in Hl as [Hb Hl].
    apply List.Forall_cons_iff in Hl as [Hc Hl]. unfold byte_ok in Ha, Hb, Hc.
    destruct (IH (length rest) ltac:(cbn in Hn; lia) rest eq_refl Hl) as (vs & He & Hf & Hq).
    exists ((a * 65536 + b * 256 + c) / 262144 :: (a * 65536 + b * 256 + c) / 4096 mod 64
            :: (a * 65536 + b * 256 + c) / 64 mod 64 :: (a * 65536 + b * 256 + c) mod 64 :: vs).
    split; [|split].
    + cbn [b64Encode map]. by rewrite He.
    + repeat (constructor; [Z.to_euclidean_division_equations; lia|]). exact Hf.
    + cbn [b64Quanta]. rewrite Hq. f_equal. f_equal; [|f_equal; [|f_equal]]; Z.to_euclidean_division_equations; lia.
Qed.

Lemma b64_roundtrip l : Forall byte_ok l -> b64Decode (b64Encode l) = Some l.
Proof.
  intros Hl. destruct (b64_digits l Hl) as (vs & He & Hf & Hq). unfold b64Decode. rewrite He.
  assert (List.filter (fun c => negb ((c =? 13) || (c =? 10))) (map b64Char vs) = map b64Char vs /\
          mapM b64Value (map b64Char vs) = Some vs) as [-> ->]; [|done].
  clear -Hf. induction Hf as [|v vs Hv _ [IH1 IH2]]; cbn; [done|].
  rewrite b64Char_visible, b64Value_Char by done. cbn. by rewrite IH1, IH2.
Qed.

(** ** Decimals *)
Lemma bytesOf_app s t : bytesOf (s +:+ t) = bytesOf s ++ bytesOf t.
Proof. induction s as [|a s IH]; [done|]. cbn. by rewrite <- IH. Qed.

Lemma bytesOf_ok s : Forall byte_ok (bytesOf s).
Proof.
  induction s as [|a s IH]; constructor; [|exact IH]. unfold byte_ok, byteOfAscii. pose proof (Ascii.N_ascii_bounded a). lia.
Qed.

Lemma stringOf_bytesOf s : stringOf (bytesOf s) = s.
Proof.
  induction s as [|a s IH]; [done|]. cbn. unfold asciiOfByte, byteOfAscii. by rewrite IH, N2Z.id, Ascii.ascii_N_embedding.
Qed.

Lemma bytesOf_inj s t : bytesOf s = bytesOf t -> s = t.
Proof. intros H. by rewrite <- (stringOf_bytesOf s), H, stringOf_bytesOf. Qed.

Lemma pretty_char_digit n : (n < 10)%N -> digitValue (byteOfAscii (pretty_N_char n)) = Some (Z.of_N n).
Proof.
  intros H. rewrite <- (N2Nat.id n). assert (N.to_nat n < 10)%nat as Hk by lia.
  revert Hk. generalize (N.to_nat n) as k. intros k Hk. do 10 (destruct k as [|k]; [reflexivity|]). lia.
Qed.

Lemma decimal_pretty n s : decimal 0 (bytesOf (pretty_N_go n s)) = decimal (Z.of_N n) (bytesOf s).
Proof.
  revert s. induction n as [n IH] using (well_founded_ind N.lt_wf_0). intros s.
  destruct (decide (n = 0%N)) as [->|Hn]; [by rewrite pretty_N_go_0|].
  rewrite pretty_N_go_step by lia. rewrite IH by (apply N.div_lt; lia). cbn [bytesOf decimal].
  rewrite pretty_char_digit by (apply N.mod_lt; lia). f_equal. pose proof (N.div_mod n 10 ltac:(lia)). lia.
Qed.

Lemma pretty_N_digits (n : N) : decimal 0 (bytesOf (pretty n)) = Some (Z.of_N n).
Proof.
  unfold pretty, pretty_N. case_decide as H; [by rewrite H|]. by rewrite decimal_pretty.
Qed.

Lemma decimal_digits acc l v : decimal acc l = Some v -> Forall (fun c => 48 <= c <= 57) l.
Proof.
  revert acc. induction l as [|c l IH]; intros acc H; constructor; cbn in H; unfold digitValue, inRange in H;
    destruct ((48 <=? c) && (c <=? 57)) eqn:E; try done; [|by eapply IH].
  apply andb_true_iff in E as [H1%Z.leb_le H2%Z.leb_le]. done.
Qed.

(** A decimal is a sign and digits. *)
Lemma FormatInt_shape n :
  exists l, l <> [] /\ decimal 0 l = Some (Z.abs n) /\ FormatInt n = (if n <? 0 then 45 :: l else l).
Proof.
  unfold FormatInt. destruct n as [|p|p].
  - exists [48]. by split_and!.
  - exists (bytesOf (pretty (N.pos p))). pose proof (pretty_N_digits (N.pos p)) as H. split_and!; [|exact H|done].
    intros E. rewrite E in H. done.
  - exists (bytesOf (pretty (N.pos p))). pose proof (pretty_N_digits (N.pos p)) as H. split_and!; [|exact H|done].
    intros E. rewrite E in H. done.
Qed.

Lemma ParseInt_FormatInt n : int64_min <= n <= int64_max -> ParseInt (FormatInt n) = Some n.
Proof.
  intros Hn. destruct (FormatInt_shape n) as (l & Hne & Hd & ->). pose proof (decimal_digits _ _ _ Hd) as Hf.
  assert ((int64_min <=? n) && (n <=? int64_max) = true) as Hr by (apply andb_true_iff; split; apply Z.leb_le; lia).
  unfold ParseInt. destruct (Z.ltb_spec n 0) as [Hs|Hs].
  - cbn [Z.eqb Pos.eqb]. destruct l as [|c l]; [done|]. rewrite Hd. replace (- Z.abs n) with n by lia. by rewrite Hr.
  - destruct l as [|c l]; [done|]. apply List.Forall_cons_iff in Hf as [Hc _].
    destruct (Z.eqb_spec c 45); [lia|]. destruct (Z.eqb_spec c 43); [lia|]. rewrite Hd. replace (Z.abs n) with n by lia. by rewrite Hr.
Qed.

Lemma FormatInt_no sep n : sep <> 45 -> ~ (48 <= sep <= 57) -> Forall (fun c => c <> sep) (FormatInt n).
Proof.
  intros H1 H2. destruct (FormatInt_shape n) as (l & _ & Hd & ->). apply decimal_digits in Hd.
  assert (Forall (fun c => c <> sep) l) by (eapply List.Forall_impl; [|exact Hd]; cbn; lia).
  destruct (n <? 0); [constructor; [lia|done]|done].
Qed.

Lemma cut_app sep a b : Forall (fun c => c <> sep) a -> cut sep (a ++ sep :: b) = Some (a, b).
Proof.
  induction 1 as [|c a Hc _ IH]; cbn; [by rewrite Z.eqb_refl|]. destruct (Z.eqb_spec c sep); [done|]. by rewrite IH.
Qed.
