(* ===== verification/ChangeText.v ===== *)
(** * The text of a change
    ([internal/domain/change.go])

    Kinds, phases and their order, the canonical text form with its validators, the note that
    names the changes before an incident, and the page cursor's encoding.  Text is bytes; a
    code point is what [range] yields, U+FFFD for a byte that starts no encoding.  Two
    foreign functions are parameters: the NFC test of golang.org/x/text, and [url.Parse] on a
    string that starts with [https://]. *)

From stdpp Require Import pretty.
From S2P Require Import Prelude GoString.

(** ** Code points *)

(** The first code point of a byte string, its width, and whether its bytes are an encoding. *)
Definition decodeRune (l : bytes) : Z * nat * bool :=
  let b k := nth k l 0 in
  let low k := Z.land (b k) 63 in
  match runeWidth l with
  | 2%nat => (Z.lor (Z.shiftl (Z.land (b 0%nat) 31) 6) (low 1%nat), 2%nat, true)
  | 3%nat => (Z.lor (Z.lor (Z.shiftl (Z.land (b 0%nat) 15) 12) (Z.shiftl (low 1%nat) 6)) (low 2%nat), 3%nat, true)
  | 4%nat => (Z.lor (Z.lor (Z.lor (Z.shiftl (Z.land (b 0%nat) 7) 18) (Z.shiftl (low 1%nat) 12)) (Z.shiftl (low 2%nat) 6)) (low 3%nat),
              4%nat, true)
  | _ => if b 0%nat <? 128 then (b 0%nat, 1%nat, true) else (65533, 1%nat, false)
  end.

(** Each round drops at least one byte, so the length is enough fuel. *)
Fixpoint runes (fuel : nat) (l : bytes) : list (Z * bool) :=
  match fuel, l with
  | S fuel, _ :: _ => let '(r, w, ok) := decodeRune l in (r, ok) :: runes fuel (drop w l)
  | _, _ => []
  end.

Definition runesOf (s : string) : list (Z * bool) := let l := bytesOf s in runes (length l) l.

Definition ValidString (s : string) : bool := forallb snd (runesOf s).

(** [unicode.Cc] and [unicode.Cf]. *)
Definition isCc (r : Z) : bool := inRange 0 31 r || inRange 127 159 r.

Definition cfRanges : list (Z * Z) :=
  [(173, 173); (1536, 1541); (1564, 1564); (1757, 1757); (1807, 1807); (2192, 2193); (2274, 2274); (6158, 6158);
   (8203, 8207); (8234, 8238); (8288, 8292); (8294, 8303); (65279, 65279); (65529, 65531); (69821, 69821);
   (69837, 69837); (78896, 78911); (113824, 113827); (119155, 119162); (917505, 917505); (917536, 917631)].

Definition isCf (r : Z) : bool := existsb (fun p => inRange p.1 p.2 r) cfRanges.

(** A newline, a carriage return, a line or paragraph separator, a control or a format. *)
Definition refusedRune (r : Z) : bool :=
  (r =? 10) || (r =? 13) || (r =? 8232) || (r =? 8233) || isCc r || isCf r.

(** ** Vocabulary *)
Inductive ChangeKind := ChangeKindDeploy | ChangeKindRollback | ChangeKindFlag | ChangeKindOther (s : string).
Inductive ChangePhase :=
| ChangePhaseStarted | ChangePhaseSucceeded | ChangePhaseFailed | ChangePhaseCancelled | ChangePhaseOther (s : string).

#[export] Instance changeKind_eq : EqDecision ChangeKind.
Proof. solve_decision. Defined.
#[export] Instance changePhase_eq : EqDecision ChangePhase.
Proof. solve_decision. Defined.

Definition ChangeKind_text (k : ChangeKind) : string :=
  match k with
  | ChangeKindDeploy => "deploy" | ChangeKindRollback => "rollback" | ChangeKindFlag => "flag" | ChangeKindOther s => s
  end.

Definition ValidChangeKind (k : ChangeKind) : bool :=
  match k with ChangeKindDeploy | ChangeKindRollback | ChangeKindFlag => true | ChangeKindOther _ => false end.

Definition ValidChangePhase (p : ChangePhase) : bool :=
  match p with
  | ChangePhaseStarted | ChangePhaseSucceeded | ChangePhaseFailed | ChangePhaseCancelled => true
  | ChangePhaseOther _ => false
  end.

Definition IsTerminalPhase (p : ChangePhase) : bool :=
  match p with ChangePhaseSucceeded | ChangePhaseFailed | ChangePhaseCancelled => true | _ => false end.

Inductive ChangeLinkRole := ChangeLinkRoleOwnService | ChangeLinkRoleUpstream.
#[export] Instance changeLinkRole_eq : EqDecision ChangeLinkRole.
Proof. solve_decision. Defined.

Definition ChangesMarker : string := "🚀 Changes:".

Definition ChangeSourceMaxLen : Z := 64.
Definition ChangeExternalIDMaxLen : Z := 128.
Definition ChangeRefMaxLen : Z := 128.
Definition ChangeURLMaxLen : Z := 512.

(** The closed codes. *)
Inductive ChangeErrCode :=
| ChangeErrPhaseOrder | ChangeErrPhaseExists | ChangeErrKindMismatch | ChangeErrDecisionUnknown
| ChangeErrOccurredBeforeStart | ChangeErrOccurredOutOfBounds | ChangeErrSourceInvalid | ChangeErrExternalIDInvalid
| ChangeErrRefInvalid | ChangeErrURLInvalid | ChangeErrKindInvalid | ChangeErrPhaseInvalid | ChangeErrRangeInvalid
| ChangeErrRangeTooWide | ChangeErrLimitInvalid | ChangeErrCursorInvalid | ChangeErrHorizonInvalid
| ChangeErrNoTerminalPhase | ChangeErrActionUnknown | ChangeErrNoteMaxInvalid | ChangeErrRetentionBatchInvalid.

(** [ChangeError] without its message. *)
Record ChangeError := { che_Code : ChangeErrCode; che_Field : string }.

Definition NewChangeError (code : ChangeErrCode) (field : string) : ChangeError := {| che_Code := code; che_Field := field |}.

(** ** The order of phases *)

(** The loop: the phase itself ends it, the last terminal of the list is remembered. *)
Fixpoint scanPhases (existing : list ChangePhase) (next : ChangePhase) (terminal : option ChangePhase) :
    result ChangeError (option ChangePhase) :=
  match existing with
  | [] => Ok terminal
  | p :: rest =>
    if bool_decide (p = next) then Err (NewChangeError ChangeErrPhaseExists "phase")
    else scanPhases rest next (if IsTerminalPhase p then Some p else terminal)
  end.

Definition ChangePhaseOrder (existing : list ChangePhase) (next : ChangePhase) : result ChangeError unit :=
  let! _ := refuse_if (negb (ValidChangePhase next)) (NewChangeError ChangeErrPhaseInvalid "phase") in
  let! terminal := scanPhases existing next None in
  match terminal with
  | None => Ok tt
  | Some _ => Err (NewChangeError ChangeErrPhaseOrder "phase")
  end.

(** ** Canonical text *)
Section text.
Context (IsNormalNFC : string -> bool) (parsesAsHTTPSWithHost : string -> bool).

Definition textCode (field : string) : ChangeErrCode :=
  if bool_decide (field = "external_id") then ChangeErrExternalIDInvalid
  else if bool_decide (field = "ref") then ChangeErrRefInvalid else ChangeErrURLInvalid.

Definition ValidateChangeText (field value : string) (max : Z) : result ChangeError string :=
  let bad := NewChangeError (textCode field) field in
  let! _ := refuse_if (negb (ValidString value)) bad in
  let! _ := refuse_if (negb (IsNormalNFC value)) bad in
  let! _ := refuse_if (negb (bool_decide (TrimSpace value = value))) bad in
  let! _ := refuse_if (existsb (fun r => refusedRune r.1) (runesOf value)) bad in
  let! _ := refuse_if (max <? Z.of_nat (length (runesOf value))) bad in
  Ok value.

(** [^[a-z0-9][a-z0-9-]{0,63}$] on the whole string. *)
Definition slugByte (b : Z) : bool := inRange 97 122 b || inRange 48 57 b.
Definition isSlug (l : bytes) : bool :=
  match l with
  | [] => false
  | b :: rest => slugByte b && forallb (fun c => slugByte c || (c =? 45)) rest && (length rest <=? 63)%nat
  end.

Definition ValidateChangeSource (source : string) : result ChangeError unit :=
  refuse_if (negb (isSlug (bytesOf source))) (NewChangeError ChangeErrSourceInvalid "source").

Definition ValidateChangeExternalID (id : string) : result ChangeError string :=
  let! v := ValidateChangeText "external_id" id ChangeExternalIDMaxLen in
  let! _ := refuse_if (bool_decide (v = "")) (NewChangeError ChangeErrExternalIDInvalid "external_id") in
  Ok v.

Definition ValidateChangeRef (ref : string) : result ChangeError string := ValidateChangeText "ref" ref ChangeRefMaxLen.

Definition ValidateChangeURL (u : string) : result ChangeError string :=
  let! v := ValidateChangeText "url" u ChangeURLMaxLen in
  if bool_decide (v = "") then Ok v
  else
    let! _ := refuse_if (negb (String.prefix "https://" v)) (NewChangeError ChangeErrURLInvalid "url") in
    let! _ := refuse_if (negb (parsesAsHTTPSWithHost v)) (NewChangeError ChangeErrURLInvalid "url") in
    Ok v.
End text.

(** ** The note *)
Record ChangeNoteEntry := { cn_Kind : ChangeKind; cn_Ref : string; cn_Source : string; cn_LagSeconds : Z }.

(** [%02d] of a number in [0, 60). *)
Definition twoDigits (n : Z) : string := if n <? 10 then "0" +:+ pretty n else pretty n.

Definition formatLag (seconds : Z) : string :=
  if seconds <? 60 then pretty seconds +:+ "s"
  else if seconds <? 3600 then pretty (Z.quot seconds 60) +:+ "m"
  else
    let h := Z.quot seconds 3600 in
    let m := Z.quot (Z.rem seconds 3600) 60 in
    if m =? 0 then pretty h +:+ "h" else pretty h +:+ "h" +:+ twoDigits m +:+ "m".

Definition noteEntry (e : ChangeNoteEntry) : string :=
  ChangeKind_text (cn_Kind e) +:+ (if bool_decide (cn_Ref e = "") then "" else " " +:+ cn_Ref e)
  +:+ " by " +:+ cn_Source e +:+ ", −" +:+ formatLag (cn_LagSeconds e).

Fixpoint joinEntries (es : list string) : string :=
  match es with [] => "" | [e] => e | e :: rest => e +:+ "; " +:+ joinEntries rest end.

Definition RenderChangesNote (entries : list ChangeNoteEntry) (total max : Z) : string :=
  if (total <=? 0) || Nat.eqb (length entries) 0 then ""
  else
    let max := if max <? 1 then 1 else max in
    let named := firstn (Z.to_nat max) entries in
    let rest := total - Z.of_nat (length named) in
    ChangesMarker +:+ " " +:+ pretty total +:+ " preceded this incident — " +:+ joinEntries (map noteEntry named)
    +:+ (if 0 <? rest then "; … and " +:+ pretty rest +:+ " more" else "") +:+ ".".
