(* ===== verification/Changes.v ===== *)
(** * Changes
    ([internal/store/change.go]; the comparison of [internal/store/servicereport.go]; the
    tables of migration 00094)

    A change is the phases an external identity recorded for a service.  Here are its one
    writer, the timeline with its pages, the links to the incidents it preceded, the purge by
    whole groups, and the before/after comparison.  The per-identity advisory lock makes a
    recording one step; a purge is two, its selection and its deletion under the locks.
    Identifiers are canonical texts, so a text that is no uuid names nothing.  Text is compared
    by the database's collation, a parameter; uuids and Go strings are compared bytewise. *)

From stdpp Require Import pretty.
From S2P Require Import Prelude ServicePolicy GoFloat Sla Report GoString Gate GateStore Incidents GoBase64 ChangeText.

(** ** Rows *)

(** [domain.ChangePhaseRow]. *)
Record ChangePhaseRow := {
  cp_ID : string;
  cp_ProjectID : string;
  cp_ServiceID : string;
  cp_Source : string;
  cp_ExternalID : string;
  cp_Kind : ChangeKind;
  cp_Phase : ChangePhase;
  cp_Ref : string;
  cp_URL : string;
  cp_OccurredAt : Time;
  cp_DecisionID : option string;
  cp_ActorLabel : string;
  cp_ActorUserID : option string;
  cp_ViaToken : bool;
  cp_RecordedAt : Time;
}.

(** What a change reads of [service_gate_decisions]. *)
Record DecisionRow := {
  dr_id : string; dr_project : string; dr_service : string; dr_evaluatedAt : Time;
  dr_state : GateState; dr_action : option GateAction; dr_override : option string;
}.

(** [incident_changes]. *)
Record IncidentChangeRow := {
  lk_incident : string; lk_change : string; lk_project : string; lk_role : ChangeLinkRole;
  lk_occurredAt : Time; lk_lagSeconds : Z; lk_computedAt : Time;
}.

(** A [probable_root] row of [incident_service_impacts]. *)
Record ProbableRoot := { pr_incident : string; pr_project : string; pr_service : string }.

Record ChangeDB := {
  ch_services : list (string * string);
  ch_rows : list ChangePhaseRow;
  ch_decisions : list DecisionRow;
  ch_incidents : gmap string Incident;
  ch_updates : list IncidentUpdate;
  ch_roots : list ProbableRoot;
  ch_links : list IncidentChangeRow;
}.

(** The identity a group is keyed by within a service, and the whole key. *)
Definition groupOf (r : ChangePhaseRow) : string * string := (cp_Source r, cp_ExternalID r).
Definition identityOf (r : ChangePhaseRow) : string * string * string := (cp_ServiceID r, cp_Source r, cp_ExternalID r).

Definition ChangeListLimitMax : Z := 200.
Definition ChangeRangeMax : Duration := 92 * 24 * Hour.

Record RecordChangeInput := {
  ri_ProjectID : string;
  ri_ServiceID : string;
  ri_Source : string;
  ri_ExternalID : string;
  ri_Kind : ChangeKind;
  ri_Phase : ChangePhase;
  ri_OccurredAt : Time;
  ri_Ref : string;
  ri_URL : string;
  ri_DecisionID : option string;
  ri_Actor : GateActor;
  ri_MaxPast : Duration;
  ri_MaxFuture : Duration;
}.

(** ** Order of phases *)
Definition changePhaseRank (p : ChangePhase) : Z := if bool_decide (p = ChangePhaseStarted) then 0 else 1.

(** By instant, then rank, then id. *)
Definition phase_le (a b : ChangePhaseRow) : Prop :=
  if negb (Equal (cp_OccurredAt a) (cp_OccurredAt b)) then cp_OccurredAt a < cp_OccurredAt b
  else if negb (changePhaseRank (cp_Phase a) =? changePhaseRank (cp_Phase b))
       then changePhaseRank (cp_Phase a) < changePhaseRank (cp_Phase b)
       else String.le (cp_ID a) (cp_ID b).
#[export] Instance phase_le_dec a b : Decision (phase_le a b).
Proof. unfold phase_le. destruct (negb _); [|destruct (negb _)]; apply _. Defined.

Definition sortChangePhases (rows : list ChangePhaseRow) : list ChangePhaseRow := merge_sort phase_le rows.

Definition changeIdentityRowsTx (db : ChangeDB) (projectID serviceID source externalID : string) : list ChangePhaseRow :=
  sortChangePhases (List.filter (fun r => bool_decide (cp_ServiceID r = serviceID) && bool_decide (cp_ProjectID r = projectID)
                                     && bool_decide (cp_Source r = source) && bool_decide (cp_ExternalID r = externalID))
                                (ch_rows db)).

(** ** Recording *)
Inductive ChangeStoreError :=
| ChangeRefused (e : ChangeError) | ChangeNotFound | ErrActorLabel | ErrChangeBounds | ErrChangeID | ErrWindowNotPositive.

Definition refuseChange {A} (code : ChangeErrCode) (field : string) : result ChangeStoreError A :=
  Err (ChangeRefused (NewChangeError code field)).

Definition checked {A} (r : result ChangeError A) : result ChangeStoreError A :=
  match r with Ok a => Ok a | Err e => Err (ChangeRefused e) end.

(** [strings.ToLower] and [strings.EqualFold] of a text of hexadecimal digits and dashes. *)
Definition lowerByte (b : Z) : Z := if inRange 65 90 b then b + 32 else b.
Definition ToLower (s : string) : string := stringOf (map lowerByte (bytesOf s)).
Definition EqualFold (a b : string) : bool := bool_decide (ToLower a = ToLower b).

Definition gateDecisionIDMillis (id : string) : option Z := DecisionIDMillis (bytesOf id).

(** The UTC day of the id's instant. *)
Definition gateDecisionDay (id : string) : option (Time * Time) :=
  match gateDecisionIDMillis id with
  | None => None
  | Some ms => let from := Truncate (Add unixEpoch (ms * 1000000)) (24 * Hour) in Some (from, Add from (24 * Hour))
  end.

Definition gateDecisionBelongsTx (db : ChangeDB) (projectID serviceID decisionID : string) : bool :=
  match gateDecisionDay decisionID with
  | None => false
  | Some (from, to) =>
    existsb (fun d => (from <=? dr_evaluatedAt d) && (dr_evaluatedAt d <? to) && bool_decide (dr_id d = decisionID)
                      && bool_decide (dr_project d = projectID) && bool_decide (dr_service d = serviceID)) (ch_decisions db)
  end.

Definition serviceExistsOn (db : ChangeDB) (projectID serviceID : string) : bool :=
  bool_decide ((projectID, serviceID) ∈ ch_services db).

Definition withDecision (i : RecordChangeInput) (d : option string) : RecordChangeInput :=
  {| ri_ProjectID := ri_ProjectID i; ri_ServiceID := ri_ServiceID i; ri_Source := ri_Source i; ri_ExternalID := ri_ExternalID i;
     ri_Kind := ri_Kind i; ri_Phase := ri_Phase i; ri_OccurredAt := ri_OccurredAt i; ri_Ref := ri_Ref i; ri_URL := ri_URL i;
     ri_DecisionID := d; ri_Actor := ri_Actor i; ri_MaxPast := ri_MaxPast i; ri_MaxFuture := ri_MaxFuture i |}.

(** The client-owned fields in their order; [None] when the replay is identical. *)
Definition changeReplayDiffers (r : ChangePhaseRow) (i : RecordChangeInput) (occurred : Time) : option string :=
  if negb (bool_decide (cp_Kind r = ri_Kind i)) then Some "kind"
  else if negb (Equal (cp_OccurredAt r) occurred) then Some "occurred_at"
  else if negb (bool_decide (cp_Ref r = ri_Ref i)) then Some "ref"
  else if negb (bool_decide (cp_URL r = ri_URL i)) then Some "url"
  else match cp_DecisionID r, ri_DecisionID i with
       | None, None => None
       | Some a, Some b => if EqualFold a b then None else Some "decision_id"
       | _, _ => Some "decision_id"
       end.

Definition changeMicrosecond : Duration := 1000.

Definition withChangeRows (db : ChangeDB) (rows : list ChangePhaseRow) (links : list IncidentChangeRow) : ChangeDB :=
  {| ch_services := ch_services db; ch_rows := rows; ch_decisions := ch_decisions db; ch_incidents := ch_incidents db;
     ch_updates := ch_updates db; ch_roots := ch_roots db; ch_links := links |}.

Section change.
Context (IsNormalNFC : string -> bool) (parsesAsHTTPSWithHost : string -> bool).

(** [validateRecordChangeInput]; it lower-cases the decision id in place. *)
Definition validateRecordChangeInput (i : RecordChangeInput) : result ChangeStoreError RecordChangeInput :=
  let! _ := checked (ValidateChangeSource (ri_Source i)) in
  let! _ := checked (ValidateChangeExternalID IsNormalNFC (ri_ExternalID i)) in
  let! _ := if ValidChangeKind (ri_Kind i) then Ok tt else refuseChange ChangeErrKindInvalid "kind" in
  let! _ := if ValidChangePhase (ri_Phase i) then Ok tt else refuseChange ChangeErrPhaseInvalid "phase" in
  let! _ := checked (ValidateChangeRef IsNormalNFC (ri_Ref i)) in
  let! _ := checked (ValidateChangeURL IsNormalNFC parsesAsHTTPSWithHost (ri_URL i)) in
  let! _ := if IsZero (ri_OccurredAt i) then refuseChange ChangeErrOccurredOutOfBounds "occurred_at" else Ok tt in
  let! i' := match ri_DecisionID i with
             | None => Ok i
             | Some d => match gateDecisionIDMillis d with
                         | None => refuseChange ChangeErrDecisionUnknown "decision_id"
                         | Some _ => Ok (withDecision i (Some (ToLower d)))
                         end
             end in
  let! _ := refuse_if (bool_decide (ga_Label (ri_Actor i) = "")) ErrActorLabel in
  let! _ := refuse_if ((ri_MaxPast i <=? 0) || (ri_MaxFuture i <? 0)) ErrChangeBounds in
  Ok i'.

(** The row a recording inserts. *)
Definition phaseRow (i : RecordChangeInput) (id : string) (occurred now : Time) : ChangePhaseRow :=
  {| cp_ID := id; cp_ProjectID := ri_ProjectID i; cp_ServiceID := ri_ServiceID i; cp_Source := ri_Source i;
     cp_ExternalID := ri_ExternalID i; cp_Kind := ri_Kind i; cp_Phase := ri_Phase i; cp_Ref := ri_Ref i; cp_URL := ri_URL i;
     cp_OccurredAt := occurred; cp_DecisionID := ri_DecisionID i; cp_ActorLabel := ga_Label (ri_Actor i);
     cp_ActorUserID := userID (ri_Actor i); cp_ViaToken := ga_ViaToken (ri_Actor i); cp_RecordedAt := now |}.

(** What the phases already recorded allow: the order, the group's kind, a terminal not before
    its start. *)
Definition admitPhase (existing : list ChangePhaseRow) (i : RecordChangeInput) (occurred : Time) : result ChangeStoreError unit :=
  let! _ := match existing with
            | r :: _ => if bool_decide (cp_Kind r = ri_Kind i) then Ok tt else refuseChange ChangeErrKindMismatch "kind"
            | [] => Ok tt
            end in
  let! _ := checked (ChangePhaseOrder (map cp_Phase existing) (ri_Phase i)) in
  if IsTerminalPhase (ri_Phase i)
     && existsb (fun r => bool_decide (cp_Phase r = ChangePhaseStarted) && Before occurred (cp_OccurredAt r)) existing
  then refuseChange ChangeErrOccurredBeforeStart "occurred_at" else Ok tt.

(** [RecordChangePhase]: [now] is the database clock under the lock, [random] the bytes of the
    identifier.  The last component says whether the call was a replay. *)
Definition RecordChangePhase (db : ChangeDB) (input : RecordChangeInput) (now : Time) (random : bytes) :
    result ChangeStoreError (ChangeDB * ChangePhaseRow * bool) :=
  let! i := validateRecordChangeInput input in
  let occurred := Truncate (ri_OccurredAt i) changeMicrosecond in
  let! _ := refuse_if (negb (serviceExistsOn db (ri_ProjectID i) (ri_ServiceID i))) ChangeNotFound in
  let! _ := if Before occurred (Add now (- ri_MaxPast i)) || After occurred (Add now (ri_MaxFuture i))
            then refuseChange ChangeErrOccurredOutOfBounds "occurred_at" else Ok tt in
  let existing := changeIdentityRowsTx db (ri_ProjectID i) (ri_ServiceID i) (ri_Source i) (ri_ExternalID i) in
  match List.find (fun r => bool_decide (cp_Phase r = ri_Phase i)) existing with
  | Some r =>
    match changeReplayDiffers r i occurred with
    | Some field => refuseChange ChangeErrPhaseExists field
    | None => Ok (db, r, true)
    end
  | None =>
    let! _ := admitPhase existing i occurred in
    let! _ := match ri_DecisionID i with
              | None => Ok tt
              | Some d => if gateDecisionBelongsTx db (ri_ProjectID i) (ri_ServiceID i) d then Ok tt
                          else refuseChange ChangeErrDecisionUnknown "decision_id"
              end in
    match newGateDecisionID random now with
    | None => Err ErrChangeID
    | Some id =>
      let row := phaseRow i (stringOf id) occurred now in
      Ok (withChangeRows db (ch_rows db ++ [row]) (ch_links db), row, false)
    end
  end.
End change.

(** ** The timeline *)
Record ChangeCursor := { cc_LatestOccurredAt : Time; cc_Source : string; cc_ExternalID : string }.

Definition UnixMicro (t : Time) : Z := wrap64 ((t - unixEpoch) / 1000).
Definition fromUnixMicro (us : Z) : Time := unixEpoch + us * 1000.

Definition colon : Z := 58.

Definition Encode (c : ChangeCursor) : bytes :=
  b64Encode (FormatInt (UnixMicro (cc_LatestOccurredAt c)) ++ colon :: bytesOf (cc_Source c) ++ colon :: bytesOf (cc_ExternalID c)).

Definition DecodeChangeCursor (IsNormalNFC : string -> bool) (s : bytes) : result ChangeError ChangeCursor :=
  let invalid := NewChangeError ChangeErrCursorInvalid "cursor" in
  match b64Decode s with
  | None => Err invalid
  | Some raw =>
    match cut colon raw with
    | None | Some ([], _) => Err invalid
    | Some (us, rest) =>
      match cut colon rest with
      | None => Err invalid
      | Some (source, externalID) =>
        match ParseInt us with
        | None => Err invalid
        | Some micros =>
          match ValidateChangeSource (stringOf source), ValidateChangeExternalID IsNormalNFC (stringOf externalID) with
          | Ok _, Ok _ => Ok {| cc_LatestOccurredAt := fromUnixMicro micros; cc_Source := stringOf source;
                                cc_ExternalID := stringOf externalID |}
          | _, _ => Err invalid
          end
        end
      end
    end
  end.

(** A row of the grouped subquery. *)
Record groupKey := { gk_source : string; gk_externalID : string; gk_kind : ChangeKind; gk_latest : Time }.

Record ChangeDecisionLink := {
  cd_ID : string; cd_State : option GateState; cd_Action : option GateAction; cd_Overridden : bool; cd_AgedOut : bool;
}.
Record ChangeIncidentLink := {
  ci_IncidentID : string; ci_OpenedAt : Time; ci_Role : ChangeLinkRole; ci_LagSeconds : Z; ci_ChangeID : string;
}.
Record ChangeGroup := {
  cg_Source : string; cg_ExternalID : string; cg_Kind : ChangeKind; cg_LatestOccurredAt : Time;
  cg_Phases : list ChangePhaseRow; cg_Decision : option ChangeDecisionLink; cg_Incidents : list ChangeIncidentLink;
}.

Definition maxTime (t : Time) (l : list Time) : Time := foldl Z.max t l.

(** The newest phase that carries a decision names the group's; the ledger answers for it while
    the row exists. *)
Definition decisionOf (db : ChangeDB) (projectID : string) (phases : list ChangePhaseRow) : option ChangeDecisionLink :=
  match List.find (fun r => negb (bool_decide (cp_DecisionID r = None))) (rev phases) with
  | Some r =>
    let id := default "" (cp_DecisionID r) in
    match List.find (fun d => bool_decide (dr_id d = id) && bool_decide (dr_project d = projectID)) (ch_decisions db) with
    | Some d => Some {| cd_ID := id; cd_State := Some (dr_state d); cd_Action := dr_action d;
                        cd_Overridden := negb (bool_decide (dr_override d = None)); cd_AgedOut := false |}
    | None => Some {| cd_ID := id; cd_State := None; cd_Action := None; cd_Overridden := false; cd_AgedOut := true |}
    end
  | None => None
  end.

Definition opened_le (a b : ChangeIncidentLink) : Prop :=
  if Equal (ci_OpenedAt a) (ci_OpenedAt b) then String.le (ci_IncidentID a) (ci_IncidentID b) else ci_OpenedAt a < ci_OpenedAt b.
#[export] Instance opened_le_dec a b : Decision (opened_le a b).
Proof. unfold opened_le. destruct (Equal _ _); apply _. Defined.

(** [attachChangeIncidentsTx] for one group. *)
Definition incidentsOf (db : ChangeDB) (projectID : string) (phases : list ChangePhaseRow) : list ChangeIncidentLink :=
  merge_sort opened_le (omap (fun l =>
    match ch_incidents db !! lk_incident l with
    | Some i =>
      if bool_decide (lk_change l ∈ map cp_ID phases) && bool_decide (lk_project l = projectID) && bool_decide (in_ProjectID i = lk_project l)
      then Some {| ci_IncidentID := lk_incident l; ci_OpenedAt := in_StartedAt i; ci_Role := lk_role l;
                   ci_LagSeconds := lk_lagSeconds l; ci_ChangeID := lk_change l |}
      else None
    | None => None
    end) (ch_links db)).

Section timeline.
Context (text_le : string -> string -> Prop) `{!RelDecision text_le}.

Definition text_lt (a b : string) : Prop := text_le a b /\ ~ text_le b a.
#[export] Instance text_lt_dec a b : Decision (text_lt a b).
Proof. unfold text_lt. apply _. Defined.

(** [ORDER BY latest DESC, source, external_id]. *)
Definition group_le (a b : groupKey) : Prop :=
  if negb (Equal (gk_latest a) (gk_latest b)) then gk_latest b < gk_latest a
  else if negb (bool_decide (gk_source a = gk_source b)) then text_le (gk_source a) (gk_source b)
  else text_le (gk_externalID a) (gk_externalID b).
#[export] Instance group_le_dec a b : Decision (group_le a b).
Proof. unfold group_le. destruct (negb _); [|destruct (negb _)]; apply _. Defined.

(** [min(kind)]. *)
Definition minKind (k : ChangeKind) (ks : list ChangeKind) : ChangeKind :=
  foldl (fun m x => if bool_decide (text_le (ChangeKind_text m) (ChangeKind_text x)) then m else x) k ks.

Definition keyOf (rows : list ChangePhaseRow) (g : string * string) : option groupKey :=
  match List.filter (fun r => bool_decide (groupOf r = g)) rows with
  | [] => None
  | r :: rest => Some {| gk_source := g.1; gk_externalID := g.2; gk_kind := minKind (cp_Kind r) (map cp_Kind rest);
                         gk_latest := maxTime (cp_OccurredAt r) (map cp_OccurredAt rest) |}
  end.

(** Strictly after the cursor in the listing's order. *)
Definition below (c : ChangeCursor) (k : groupKey) : bool :=
  Before (gk_latest k) (cc_LatestOccurredAt c)
  || Equal (gk_latest k) (cc_LatestOccurredAt c)
     && (if bool_decide (gk_source k = cc_Source c) then bool_decide (text_lt (cc_ExternalID c) (gk_externalID k))
         else bool_decide (text_lt (cc_Source c) (gk_source k))).

(** The rows the grouped subquery reads. *)
Definition timelineRows (db : ChangeDB) (projectID serviceID : string) (source : option string) : list ChangePhaseRow :=
  List.filter (fun r => bool_decide (cp_ServiceID r = serviceID) && bool_decide (cp_ProjectID r = projectID)
                        && match source with Some s => bool_decide (cp_Source r = s) | None => true end) (ch_rows db).

(** [HAVING]: the latest phase in the range, and one phase of the asked kinds. *)
Definition havingRange (from to : Time) (k : groupKey) : bool := (from <=? gk_latest k) && (gk_latest k <? to).
Definition havingKind (rows : list ChangePhaseRow) (kinds : list ChangeKind) (k : groupKey) : bool :=
  match kinds with
  | [] => true
  | _ => existsb (fun r => bool_decide (groupOf r = (gk_source k, gk_externalID k)) && bool_decide (cp_Kind r ∈ kinds)) rows
  end.

(** The grouped subquery without the cursor and the limit. *)
Definition groupKeys (db : ChangeDB) (projectID serviceID : string) (from to : Time) (kinds : list ChangeKind)
    (source : option string) : list groupKey :=
  let rows := timelineRows db projectID serviceID source in
  merge_sort group_le
    (List.filter (fun k => havingRange from to k && havingKind rows kinds k)
       (omap (keyOf rows) (remove_dups (map groupOf rows)))).

Definition groupWith (db : ChangeDB) (projectID serviceID : string) (k : groupKey) : ChangeGroup :=
  let phases := sortChangePhases (List.filter (fun r => bool_decide (cp_ServiceID r = serviceID) && bool_decide (cp_ProjectID r = projectID)
                                                 && bool_decide (groupOf r = (gk_source k, gk_externalID k))) (ch_rows db)) in
  {| cg_Source := gk_source k; cg_ExternalID := gk_externalID k; cg_Kind := gk_kind k; cg_LatestOccurredAt := gk_latest k;
     cg_Phases := phases; cg_Decision := decisionOf db projectID phases; cg_Incidents := incidentsOf db projectID phases |}.

Definition pageCursor (k : groupKey) : ChangeCursor :=
  {| cc_LatestOccurredAt := gk_latest k; cc_Source := gk_source k; cc_ExternalID := gk_externalID k |}.

(** The keys of one page and the cursor of the next: one group more than the page is asked for. *)
Definition pageKeys (keys : list groupKey) (cursor : option ChangeCursor) (limit : nat) : list groupKey * option ChangeCursor :=
  let rest := match cursor with Some c => List.filter (below c) keys | None => keys end in
  let got := firstn (S limit) rest in
  if (limit <? length got)%nat then (firstn limit got, pageCursor <$> list.last (firstn limit got)) else (got, None).

Definition ListChangeGroups (db : ChangeDB) (projectID serviceID : string) (from to : Time) (kinds : list ChangeKind)
    (source : option string) (cursor : option ChangeCursor) (limit : Z) :
    result ChangeStoreError (list ChangeGroup * option ChangeCursor) :=
  let! _ := if After to from then Ok tt else refuseChange ChangeErrRangeInvalid "range" in
  let! _ := if ChangeRangeMax <? Sub to from then refuseChange ChangeErrRangeTooWide "range" else Ok tt in
  let! _ := if (limit <=? 0) || (ChangeListLimitMax <? limit) then refuseChange ChangeErrLimitInvalid "limit" else Ok tt in
  let! _ := if forallb ValidChangeKind kinds then Ok tt else refuseChange ChangeErrKindInvalid "kind" in
  let! _ := match source with Some s => checked (ValidateChangeSource s) | None => Ok tt end in
  let! _ := refuse_if (negb (serviceExistsOn db projectID serviceID)) ChangeNotFound in
  let '(keys, next) := pageKeys (groupKeys db projectID serviceID from to kinds source) cursor (Z.to_nat limit) in
  Ok (map (groupWith db projectID serviceID) keys, next).
End timeline.

(** ** The incident side *)
Record IncidentChangeLink := {
  il_Change : ChangePhaseRow; il_Role : ChangeLinkRole; il_OccurredAt : Time; il_LagSeconds : Z; il_ComputedAt : Time;
  il_Phases : list ChangePhaseRow;
}.

Record ChangeCorrelationLink := {
  kl_ChangeID : string; kl_ServiceID : string; kl_Source : string; kl_ExternalID : string; kl_Kind : ChangeKind;
  kl_Role : ChangeLinkRole; kl_OccurredAt : Time; kl_LagSeconds : Z;
}.

Record ChangeCorrelation := { co_Links : list ChangeCorrelationLink; co_NoteAdded : bool; co_Skipped : bool }.

Definition skippedCorrelation : ChangeCorrelation := {| co_Links := []; co_NoteAdded := false; co_Skipped := true |}.

(** The marker note of the incident. *)
Definition changesNoted (db : ChangeDB) (incidentID : string) : bool := existsb (marked ChangesMarker incidentID) (ch_updates db).

(** [roleOf]: the incident's own service, then the probable roots. *)
Definition correlationServices (db : ChangeDB) (incidentID : string) (i : Incident) : list string :=
  remove_dups (in_ServiceID i :: map pr_service
    (List.filter (fun p => bool_decide (pr_incident p = incidentID) && bool_decide (pr_project p = in_ProjectID i)) (ch_roots db))).

Definition roleOf (i : Incident) (serviceID : string) : ChangeLinkRole :=
  if bool_decide (serviceID = in_ServiceID i) then ChangeLinkRoleOwnService else ChangeLinkRoleUpstream.

(** [u]: the rows recorded by the open. *)
Definition openUniverse (db : ChangeDB) (incidentID : string) (i : Incident) : list ChangePhaseRow :=
  List.filter (fun r => bool_decide (cp_ProjectID r = in_ProjectID i)
                        && bool_decide (cp_ServiceID r ∈ correlationServices db incidentID i)
                        && (cp_RecordedAt r <=? in_StartedAt i)) (ch_rows db).

(** [DISTINCT ON ... ORDER BY id DESC]: of two phases at one instant the larger id. *)
Definition laterID (best : option ChangePhaseRow) (r : ChangePhaseRow) : option ChangePhaseRow :=
  match best with
  | Some b => if bool_decide (String.le (cp_ID r) (cp_ID b)) then Some b else Some r
  | None => Some r
  end.

(** The latest phase of a group of the universe, when it lies in the window. *)
Definition anchorOf (u : list ChangePhaseRow) (from to : Time) (k : string * string * string) : option ChangePhaseRow :=
  let rows := List.filter (fun r => bool_decide (identityOf r = k)) u in
  match rows with
  | [] => None
  | r :: rest =>
    let latest := maxTime (cp_OccurredAt r) (map cp_OccurredAt rest) in
    if (from <=? latest) && (latest <=? to)
    then foldl laterID None (List.filter (fun r => Equal (cp_OccurredAt r) latest) rows)
    else None
  end.

Definition anchorsOf (db : ChangeDB) (incidentID : string) (i : Incident) (window : Duration) : list ChangePhaseRow :=
  let u := openUniverse db incidentID i in
  omap (anchorOf u (Add (in_StartedAt i) (- window)) (in_StartedAt i)) (remove_dups (map identityOf u)).

Definition linkOf (i : Incident) (r : ChangePhaseRow) : ChangeCorrelationLink :=
  {| kl_ChangeID := cp_ID r; kl_ServiceID := cp_ServiceID r; kl_Source := cp_Source r; kl_ExternalID := cp_ExternalID r;
     kl_Kind := cp_Kind r; kl_Role := roleOf i (cp_ServiceID r); kl_OccurredAt := cp_OccurredAt r;
     kl_LagSeconds := Z.quot (Sub (in_StartedAt i) (cp_OccurredAt r)) Second |}.

(** The query's order, as far as the sort below leaves it. *)
Definition service_le (a b : ChangePhaseRow) : Prop := String.le (cp_ServiceID a) (cp_ServiceID b).
#[export] Instance service_le_dec a b : Decision (service_le a b).
Proof. unfold service_le. apply _. Defined.

(** Nearest the open first, then the identity, bytewise.  Changes of two services that share the
    lag and the identity tie; here they keep the order of the query. *)
Definition anchor_le (i : Incident) (a b : ChangePhaseRow) : Prop :=
  let x := linkOf i a in let y := linkOf i b in
  if negb (kl_LagSeconds x =? kl_LagSeconds y) then kl_LagSeconds x < kl_LagSeconds y
  else if negb (bool_decide (kl_Source x = kl_Source y)) then String.le (kl_Source x) (kl_Source y)
  else String.le (kl_ExternalID x) (kl_ExternalID y).
#[export] Instance anchor_le_dec i a b : Decision (anchor_le i a b).
Proof. unfold anchor_le. cbv zeta. destruct (negb _); [|destruct (negb _)]; apply _. Defined.

Definition noteEntryOf (i : Incident) (r : ChangePhaseRow) : ChangeNoteEntry :=
  {| cn_Kind := cp_Kind r; cn_Ref := cp_Ref r; cn_Source := cp_Source r; cn_LagSeconds := kl_LagSeconds (linkOf i r) |}.

Definition linkRow (incidentID : string) (i : Incident) (txNow : Time) (r : ChangePhaseRow) : IncidentChangeRow :=
  let l := linkOf i r in
  {| lk_incident := incidentID; lk_change := cp_ID r; lk_project := in_ProjectID i; lk_role := kl_Role l;
     lk_occurredAt := kl_OccurredAt l; lk_lagSeconds := kl_LagSeconds l; lk_computedAt := txNow |}.

Definition withNote (db : ChangeDB) (links : list IncidentChangeRow) (u : IncidentUpdate) : ChangeDB :=
  {| ch_services := ch_services db; ch_rows := ch_rows db; ch_decisions := ch_decisions db; ch_incidents := ch_incidents db;
     ch_updates := ch_updates db ++ [u]; ch_roots := ch_roots db; ch_links := ch_links db ++ links |}.

(** [LinkPrecedingChanges], from the incident's lock to the commit. *)
Definition LinkPrecedingChanges (db : ChangeDB) (incidentID : string) (window : Duration) (noteMax : Z) (txNow : Time)
    (upID : string) : result ChangeStoreError (ChangeDB * ChangeCorrelation) :=
  let! _ := refuse_if (window <=? 0) ErrWindowNotPositive in
  let! _ := if noteMax <? 1 then refuseChange ChangeErrNoteMaxInvalid "correlation_note_max" else Ok tt in
  match ch_incidents db !! incidentID with
  | None => Ok (db, skippedCorrelation)
  | Some i =>
    if bool_decide (in_ServiceID i = "") then Ok (db, skippedCorrelation)
    else if changesNoted db incidentID then Ok (db, skippedCorrelation)
    else
      match merge_sort (anchor_le i) (merge_sort service_le (anchorsOf db incidentID i window)) with
      | [] => Ok (db, {| co_Links := []; co_NoteAdded := false; co_Skipped := false |})
      | anchors =>
        let body := RenderChangesNote (map (noteEntryOf i) anchors) (Z.of_nat (length anchors)) noteMax in
        Ok (withNote db (map (linkRow incidentID i txNow) anchors)
              {| iu_ID := upID; iu_IncidentID := incidentID; iu_Status := in_Status i; iu_Body := body; iu_Author := "system";
                 iu_CreatedAt := txNow |},
            {| co_Links := map (linkOf i) anchors; co_NoteAdded := true; co_Skipped := false |})
      end
  end.

Section collated.
Context (text_le : string -> string -> Prop) `{!RelDecision text_le}.

Definition link_le (a b : IncidentChangeLink) : Prop :=
  let rank l := match il_Role l with ChangeLinkRoleOwnService => 0 | ChangeLinkRoleUpstream => 1 end in
  if negb (rank a =? rank b) then rank a < rank b
  else if negb (il_LagSeconds a =? il_LagSeconds b) then il_LagSeconds a < il_LagSeconds b
  else if negb (bool_decide (cp_Source (il_Change a) = cp_Source (il_Change b)))
       then text_le (cp_Source (il_Change a)) (cp_Source (il_Change b))
       else text_le (cp_ExternalID (il_Change a)) (cp_ExternalID (il_Change b)).
#[export] Instance link_le_dec a b : Decision (link_le a b).
Proof. unfold link_le. cbv zeta. repeat destruct (negb _); apply _. Defined.

Definition ListIncidentChanges (db : ChangeDB) (projectID incidentID : string) :
    result ChangeStoreError (list IncidentChangeLink) :=
  match ch_incidents db !! incidentID with
  | None => Err ChangeNotFound
  | Some i =>
    let! _ := refuse_if (negb (bool_decide (in_ProjectID i = projectID))) ChangeNotFound in
    Ok (merge_sort link_le (omap (fun l =>
      if bool_decide (lk_incident l = incidentID) && bool_decide (lk_project l = projectID) then
        match List.find (fun r => bool_decide (cp_ID r = lk_change l) && bool_decide (cp_ProjectID r = lk_project l)) (ch_rows db) with
        | Some r => Some {| il_Change := r; il_Role := lk_role l; il_OccurredAt := lk_occurredAt l; il_LagSeconds := lk_lagSeconds l;
                            il_ComputedAt := lk_computedAt l;
                            il_Phases := changeIdentityRowsTx db projectID (cp_ServiceID r) (cp_Source r) (cp_ExternalID r) |}
        | None => None
        end
      else None) (ch_links db)))
  end.

(** ** Retention *)
Definition latestOf (db : ChangeDB) (k : string * string * string) : option Time :=
  match List.filter (fun r => bool_decide (identityOf r = k)) (ch_rows db) with
  | [] => None
  | r :: rest => Some (maxTime (cp_OccurredAt r) (map cp_OccurredAt rest))
  end.

(** The first statement: the keys of groups wholly before the cutoff, oldest first. *)
Definition key_age_le (db : ChangeDB) (a b : string * string * string) : Prop :=
  let age k := default 0 (latestOf db k) in
  if negb (Equal (age a) (age b)) then age a < age b
  else if negb (bool_decide (a.1.1 = b.1.1)) then String.le a.1.1 b.1.1
  else if negb (bool_decide (a.1.2 = b.1.2)) then text_le a.1.2 b.1.2 else text_le a.2 b.2.
#[export] Instance key_age_le_dec db a b : Decision (key_age_le db a b).
Proof. unfold key_age_le. cbv zeta. repeat destruct (negb _); apply _. Defined.

Definition selectVictims (db : ChangeDB) (cutoff : Time) (groupsPerBatch : nat) : list (string * string * string) :=
  firstn groupsPerBatch (merge_sort (key_age_le db)
    (List.filter (fun k => match latestOf db k with Some t => t <? cutoff | None => false end)
                 (remove_dups (map identityOf (ch_rows db))))).

(** The last statement, under the locks: the keys still old go, every phase of them, and the
    links by cascade. *)
Definition stillOld (db : ChangeDB) (cutoff : Time) (k : string * string * string) : bool :=
  negb (existsb (fun r => bool_decide (identityOf r = k) && (cutoff <=? cp_OccurredAt r)) (ch_rows db)).

Definition deleteRows (db : ChangeDB) (gone : ChangePhaseRow -> bool) : ChangeDB :=
  withChangeRows db (List.filter (fun r => negb (gone r)) (ch_rows db))
    (List.filter (fun l => negb (existsb (fun r => gone r && bool_decide (cp_ID r = lk_change l)) (ch_rows db))) (ch_links db)).

Definition deleteVictims (db : ChangeDB) (cutoff : Time) (keys : list (string * string * string)) : ChangeDB * (Z * Z) :=
  let gone := fun r => bool_decide (identityOf r ∈ keys) && stillOld db cutoff (identityOf r) in
  let del := List.filter gone (ch_rows db) in
  (deleteRows db gone, (Z.of_nat (length (remove_dups (map identityOf del))), Z.of_nat (length del))).

(** [PurgeChangeGroups], when nobody writes between its two statements. *)
Definition PurgeChangeGroups (db : ChangeDB) (cutoff : Time) (groupsPerBatch : Z) :
    result ChangeStoreError (ChangeDB * (Z * Z)) :=
  let! _ := if groupsPerBatch <? 1 then refuseChange ChangeErrRetentionBatchInvalid "retention_groups_per_batch" else Ok tt in
  Ok (deleteVictims db cutoff (selectVictims db cutoff (Z.to_nat groupsPerBatch))).

End collated.

(** The cascade of a service's deletion. *)
Definition dropService (db : ChangeDB) (projectID serviceID : string) : ChangeDB :=
  let db1 := deleteRows db (fun r => bool_decide (cp_ServiceID r = serviceID) && bool_decide (cp_ProjectID r = projectID)) in
  {| ch_services := List.filter (fun s => negb (bool_decide (s = (projectID, serviceID)))) (ch_services db1);
     ch_rows := ch_rows db1; ch_decisions := ch_decisions db1; ch_incidents := ch_incidents db1; ch_updates := ch_updates db1;
     ch_roots := ch_roots db1; ch_links := ch_links db1 |}.
