(* ===== verification/ChangeCompare.v ===== *)
(** * Before and after a change
    ([ServiceReliabilitySeries], [ServiceReliabilityCompare] of
    [internal/store/servicereport.go]; the comparison's vocabulary of
    [internal/domain/change.go])

    The rollup of the bucket rows into steps, which the series shows and the comparison sums,
    and the two sides of a change: each a figure over a stretch of the sealed record, or
    withheld for one reason. *)

From S2P Require Import Prelude ServicePolicy GoFloat Sla Report GoString Gate GateStore Incidents GoBase64 ChangeText Changes.

(** ** The rollup *)

(** [domain.ReliabilitySeriesPoint], with the start of its first bucket for the order. *)
Record ReliabilitySeriesPoint := {
  sp_Start : Time; sp_EpochID : string; sp_RevisionID : string; sp_Provisional : bool; sp_Buckets : Z;
  sp_Durations : ReliabilityDurations; sp_first : Time;
}.

Definition stepRows (rows : ReportRows) (from to : Time) : list BucketRow :=
  List.filter (fun b => (from <=? bk_start b) && (bk_start b <? to)) (rr_buckets rows).

Definition samePoint (step : Duration) (b : BucketRow) (p : ReliabilitySeriesPoint) : bool :=
  Equal (sp_Start p) (Truncate (bk_start b) step) && bool_decide (sp_EpochID p = bk_epochID b)
  && bool_decide (sp_RevisionID p = bk_revisionID b) && Bool.eqb (sp_Provisional p) (negb (bk_sealed b)).

Definition pointFrom (step : Duration) (b : BucketRow) : ReliabilitySeriesPoint :=
  {| sp_Start := Truncate (bk_start b) step; sp_EpochID := bk_epochID b; sp_RevisionID := bk_revisionID b;
     sp_Provisional := negb (bk_sealed b); sp_Buckets := 1; sp_Durations := bk_d b; sp_first := bk_start b |}.

Definition addToPoint (b : BucketRow) (p : ReliabilitySeriesPoint) : ReliabilitySeriesPoint :=
  {| sp_Start := sp_Start p; sp_EpochID := sp_EpochID p; sp_RevisionID := sp_RevisionID p; sp_Provisional := sp_Provisional p;
     sp_Buckets := sp_Buckets p + 1; sp_Durations := sqlSum (sp_Durations p) (bk_d b); sp_first := Z.min (sp_first p) (bk_start b) |}.

(** [GROUP BY step_start, epoch_id, revision_id, provisional]. *)
Fixpoint pointRow (step : Duration) (points : list ReliabilitySeriesPoint) (b : BucketRow) : list ReliabilitySeriesPoint :=
  match points with
  | [] => [pointFrom step b]
  | p :: rest => if samePoint step b p then addToPoint b p :: rest else p :: pointRow step rest b
  end.

Definition point_le (a b : ReliabilitySeriesPoint) : Prop :=
  if negb (Equal (sp_Start a) (sp_Start b)) then sp_Start a < sp_Start b
  else if negb (Equal (sp_first a) (sp_first b)) then sp_first a < sp_first b
  else sp_Provisional a = false \/ sp_Provisional b = true.
#[export] Instance point_le_dec a b : Decision (point_le a b).
Proof. unfold point_le. destruct (negb _); [|destruct (negb _)]; apply _. Defined.

Definition reliabilityStepRollupTx (rows : ReportRows) (from to : Time) (step : Duration) : list ReliabilitySeriesPoint :=
  merge_sort point_le (foldl (pointRow step) [] (stepRows rows from to)).

Inductive SeriesError := ErrUnsupportedStep | ErrSeriesNotFound.

Definition serviceReliabilitySeriesTx (rows : ReportRows) (from to : Time) (step : Duration) :
    result SeriesError (list ReliabilitySeriesPoint) :=
  let! _ := refuse_if (negb ((step =? Hour) || (step =? 24 * Hour))) ErrUnsupportedStep in
  let! _ := refuse_if (negb (rr_owned rows)) ErrSeriesNotFound in
  Ok (reliabilityStepRollupTx rows from to step).

(** ** A side *)
Inductive CompareWithholding :=
| CompareWithheldDefinitionChanged | CompareWithheldUndecidable (detail : ReportReason) | CompareWithheldNoFacts
| CompareWithheldPending.

Record ChangeCompareFigure := {
  cf_Availability : float64; cf_GoodSeconds : float64; cf_BadSeconds : float64; cf_UnknownSeconds : float64;
  cf_ExcludedSeconds : float64; cf_Buckets : Z; cf_Durations : ReliabilityDurations;
}.

(** Exactly one of a figure and a withholding. *)
Inductive ChangeCompareSide :=
| CompareFigure (from to : Time) (f : ChangeCompareFigure)
| CompareWithheld (from to : Time) (reason : CompareWithholding) (sealedThrough : option Time).

Definition ChangeCompareHorizons : list Duration := [15 * Minute; Hour; 6 * Hour; 24 * Hour].
Definition ChangeCompareDefaultHorizon : Duration := Hour.
Definition ValidChangeCompareHorizon (h : Duration) : bool := existsb (Z.eqb h) ChangeCompareHorizons.

Definition microSeconds (us : Z) : float64 := fdiv (fofZ us) (fofZ 1000000).

(** What the loop over the cells accumulates. *)
Record sideSums := { ss_d : ReliabilityDurations; ss_buckets : Z; ss_epochs : gset string; ss_revisions : gset string }.

Definition sideStep (s : sideSums) (p : ReliabilitySeriesPoint) : sideSums :=
  if sp_Provisional p then s
  else {| ss_d := addDurations (ss_d s) (sp_Durations p); ss_buckets := add64 (ss_buckets s) (sp_Buckets p);
          ss_epochs := {[sp_EpochID p]} ∪ ss_epochs s; ss_revisions := {[sp_RevisionID p]} ∪ ss_revisions s |}.

Definition noSums : sideSums := {| ss_d := noDurations; ss_buckets := 0; ss_epochs := ∅; ss_revisions := ∅ |}.

Definition sumSide (points : list ReliabilitySeriesPoint) : sideSums := foldl sideStep noSums points.

Definition compareSideTx (rows : ReportRows) (from to era : Time) (sealed : option Time) : ChangeCompareSide :=
  let withhold reason := CompareWithheld from to reason sealed in
  match sealed with
  | None => withhold CompareWithheldNoFacts
  | Some s =>
    if After to s then withhold CompareWithheldPending
    else
      let sums := sumSide (reliabilityStepRollupTx rows from to Hour) in
      let d := ss_d sums in
      if ss_buckets sums =? 0 then withhold CompareWithheldNoFacts
      else if (1 <? size (ss_epochs sums))%nat || (1 <? size (ss_revisions sums))%nat then withhold CompareWithheldDefinitionChanged
      else
        let expected := Z.quot (Sub to from) CanonicalBucket in
        let verdict := decideServiceWindow d (ss_buckets sums) expected 1 from era in
        match v_Availability verdict with
        | None => withhold (CompareWithheldUndecidable (v_Reason verdict))
        | Some a => CompareFigure from to
            {| cf_Availability := a; cf_GoodSeconds := microSeconds (GoodUs d); cf_BadSeconds := microSeconds (BadUs d);
               cf_UnknownSeconds := microSeconds (UnknownUs d); cf_ExcludedSeconds := microSeconds (ExcludedUs d);
               cf_Buckets := ss_buckets sums; cf_Durations := d |}
        end
  end.

(** The service without a materialization row has era zero and no watermark. *)
Definition serviceReliabilityCompareTx (rows : ReportRows) (t : Time) (h : Duration) :
    ChangeCompareSide * ChangeCompareSide * option Time :=
  let era := match rr_materialization rows with Some m => mat_era m | None => 0 end in
  let sealed := match rr_materialization rows with Some m => mat_sealed m | None => None end in
  (compareSideTx rows (Add t (- h)) t era sealed, compareSideTx rows t (Add t h) era sealed, sealed).

(** ** The comparison *)
Record ChangeComparison := {
  cx_Source : string; cx_ExternalID : string; cx_Change : ChangePhaseRow; cx_T : Time; cx_Horizon : Duration;
  cx_Before : ChangeCompareSide; cx_After : ChangeCompareSide; cx_Delta : option float64; cx_SealedThrough : option Time;
  cx_AsOf : Time;
}.

Definition TerminalPhase (phases : list ChangePhaseRow) : option ChangePhaseRow :=
  List.find (fun r => IsTerminalPhase (cp_Phase r)) phases.

Definition deltaOf (before after : ChangeCompareSide) : option float64 :=
  match before, after with
  | CompareFigure _ _ b, CompareFigure _ _ a => Some (fsub (cf_Availability a) (cf_Availability b))
  | _, _ => None
  end.

Definition ServiceReliabilityCompare (IsNormalNFC : string -> bool) (db : ChangeDB) (rows : ReportRows)
    (projectID serviceID source externalID : string) (horizon : Duration) (asOf : Time) :
    result ChangeStoreError ChangeComparison :=
  let! _ := if ValidChangeCompareHorizon horizon then Ok tt else refuseChange ChangeErrHorizonInvalid "horizon" in
  let! _ := checked (ValidateChangeSource source) in
  let! _ := checked (ValidateChangeExternalID IsNormalNFC externalID) in
  let! _ := refuse_if (negb (serviceExistsOn db projectID serviceID)) ChangeNotFound in
  let phases := changeIdentityRowsTx db projectID serviceID source externalID in
  match phases with
  | [] => Err ChangeNotFound
  | _ =>
    match TerminalPhase phases with
    | None => refuseChange ChangeErrNoTerminalPhase "phase"
    | Some terminal =>
      let t := FloorToBucket (cp_OccurredAt terminal) in
      let '(before, after, sealed) := serviceReliabilityCompareTx rows t horizon in
      Ok {| cx_Source := source; cx_ExternalID := externalID; cx_Change := terminal; cx_T := t; cx_Horizon := horizon;
            cx_Before := before; cx_After := after; cx_Delta := deltaOf before after; cx_SealedThrough := sealed; cx_AsOf := asOf |}
    end
  end.
