(* ===== verification/ChangeFacts.v ===== *)
(** * What the record of changes promises

    The shape of a group, recording twice, the links to incidents, pages and their cursor, and
    retention by whole groups: over any interleaving of recordings, correlations, purges in
    their two halves, and whatever else writes the tables beside them. *)

From S2P Require Import Prelude ServicePolicy GoFloat Sla Report GoString Gate GateStore Incidents GoBase64 ChangeText Changes.

Lemma NoDup_map_filter {A B} (f : A -> B) (P : A -> bool) l : NoDup (map f l) -> NoDup (map f (List.filter P l)).
Proof.
  induction l as [|x l IH]; [done|]. intros [Hni Hnd]%list.NoDup_cons. cbn. destruct (P x); [|by apply IH].
  apply list.NoDup_cons. split; [|by apply IH]. intros (y & E & [Hy _]%elem_of_filter_b)%list_elem_of_fmap.
  apply Hni, list_elem_of_fmap. by exists y.
Qed.

(** ** Text *)
Lemma isSlug_no_colon l : isSlug l = true -> Forall (fun c => c <> colon) l.
Proof.
  assert (forall c, slugByte c || (c =? 45) = true -> c <> colon) as Hb.
  { intros c H ->. discriminate H. }
  destruct l as [|b rest]; [done|]. unfold isSlug. rewrite !andb_true_iff. intros [[H1 H2] _]. constructor.
  - apply Hb. by rewrite H1.
  - apply List.Forall_forall. intros c Hc. apply Hb. rewrite forallb_forall in H2. by apply H2.
Qed.

Lemma ValidateChangeExternalID_Ok nfc id v : ValidateChangeExternalID nfc id = Ok v -> v = id /\ id <> "".
Proof.
  unfold ValidateChangeExternalID, ValidateChangeText, refuse_if.
  repeat (match goal with |- context [if ?b then _ else _] => destruct b eqn:? end; [done|]; cbn [rbind]).
  intros [= <-]. split; [done|]. by apply bool_decide_eq_false in Heqb4.
Qed.

Lemma ValidateChangeSource_Ok s : ValidateChangeSource s = Ok tt -> isSlug (bytesOf s) = true.
Proof. unfold ValidateChangeSource, refuse_if. destruct (isSlug _); by cbn. Qed.

(** ** Cursors *)

(** C40: round trip of the page cursor: for a group whose latest instant is a whole microsecond
    of the [int64] range, whose source is a slug and whose external id the domain accepts (which
    is what recording admits), decoding the encoded cursor gives it back. *)
Theorem cursor_roundtrip nfc c v
  (Haligned : (1000 | cc_LatestOccurredAt c - unixEpoch))
  (Hrange : int64_min <= (cc_LatestOccurredAt c - unixEpoch) / 1000 <= int64_max)
  (Hsource : ValidateChangeSource (cc_Source c) = Ok tt)
  (Hext : ValidateChangeExternalID nfc (cc_ExternalID c) = Ok v) :
  DecodeChangeCursor nfc (Encode c) = Ok c.
Proof.
  unfold DecodeChangeCursor, Encode. set (us := UnixMicro (cc_LatestOccurredAt c)).
  assert (us = (cc_LatestOccurredAt c - unixEpoch) / 1000) as Hus by (apply wrap64_id; done).
  assert (Forall (fun b => b <> colon) (FormatInt us)) as Hno by (apply FormatInt_no; unfold colon; lia).
  pose proof (isSlug_no_colon _ (ValidateChangeSource_Ok _ Hsource)) as Hs.
  rewrite b64_roundtrip.
  2: { assert (byte_ok colon) by (unfold byte_ok, colon; lia).
       apply List.Forall_app. split; [apply bytesOf_ok|]. constructor; [done|].
       apply List.Forall_app. split; [apply bytesOf_ok|]. constructor; [done|apply bytesOf_ok]. }
  rewrite (cut_app colon (FormatInt us)) by done.
  destruct (FormatInt us) as [|x l] eqn:Ef; [by destruct (FormatInt_shape us) as (l & Hl & _ & E); rewrite Ef in E; destruct (us <? 0), l|].
  rewrite (cut_app colon (bytesOf (cc_Source c))) by done. rewrite <- Ef, ParseInt_FormatInt by (rewrite Hus; done).
  rewrite !stringOf_bytesOf, Hsource, Hext. f_equal. destruct c as [t s e]. cbn in *. f_equal. unfold fromUnixMicro. rewrite Hus.
  destruct Haligned as [q Hq]. rewrite Hq, Z.div_mul by lia. lia.
Qed.

(** ** Pages *)
Section pages.
Context (text_le : string -> string -> Prop) `{!RelDecision text_le, !TotalOrder text_le}.
Notation group_le := (group_le text_le).
Notation below := (below text_le).

Definition sameKey (a b : groupKey) : Prop :=
  gk_latest a = gk_latest b /\ gk_source a = gk_source b /\ gk_externalID a = gk_externalID b.

Lemma group_le_cases a b :
  group_le a b <-> gk_latest b < gk_latest a \/
    gk_latest a = gk_latest b /\
      (gk_source a <> gk_source b /\ text_le (gk_source a) (gk_source b) \/
       gk_source a = gk_source b /\ text_le (gk_externalID a) (gk_externalID b)).
Proof.
  unfold Changes.group_le, Equal. destruct (Z.eqb_spec (gk_latest a) (gk_latest b)) as [->|]; cbn [negb]; [|lia].
  case_bool_decide; cbn [negb]; split; intros H'; repeat (destruct H' as [H'|H']); try tauto; try lia.
Qed.

#[global] Instance group_le_total : Total group_le.
Proof.
  intros a b. rewrite !group_le_cases. destruct (Z.lt_total (gk_latest a) (gk_latest b)) as [?|[?|?]]; [by right; left| |by left; left].
  destruct (decide (gk_source a = gk_source b)).
  - destruct (total text_le (gk_externalID a) (gk_externalID b)); [left|right]; right; naive_solver.
  - destruct (total text_le (gk_source a) (gk_source b)); [left|right]; right; naive_solver.
Qed.

#[global] Instance group_le_trans : Transitive group_le.
Proof.
  intros a b c. rewrite !group_le_cases. intros [H1|[E1 H1]] [H2|[E2 H2]]; try (left; lia). right. split; [lia|].
  destruct H1 as [[N1 L1]|[S1 L1]], H2 as [[N2 L2]|[S2 L2]].
  - left. split; [|by etrans]. intros E. rewrite <- E in L2. apply N1. by apply (anti_symm text_le).
  - left. rewrite <- S2. done.
  - left. rewrite S1. done.
  - right. split; [congruence|by etrans].
Qed.

Lemma group_le_antisym a b : group_le a b -> group_le b a -> sameKey a b.
Proof.
  rewrite !group_le_cases. intros [H1|[E1 H1]] [H2|[E2 H2]]; try lia. split; [done|].
  destruct H1 as [[N1 L1]|[S1 L1]], H2 as [[N2 L2]|[S2 L2]]; try congruence.
  - destruct N1. by apply (anti_symm text_le).
  - split; [done|]. by apply (anti_symm text_le).
Qed.

(** Below the cursor of a group is strictly after the group. *)
Lemma below_cursor a b : below (pageCursor a) b = true <-> ~ group_le b a.
Proof.
  assert (forall x y, text_lt text_le x y <-> ~ text_le y x) as Hlt.
  { intros x y. unfold text_lt. destruct (total text_le x y); tauto. }
  rewrite group_le_cases. unfold Changes.below, pageCursor, Before, Equal. cbn. rewrite orb_true_iff, andb_true_iff, Z.ltb_lt, Z.eqb_eq.
  case_bool_decide as Hs; rewrite bool_decide_eq_true, Hlt.
  - rewrite Hs. split; [intros [H|[H H']] [K|[K [[N L]|[_ L]]]]; try lia; try done|].
    intros H. destruct (Z.lt_total (gk_latest b) (gk_latest a)) as [?|[?|?]]; [by left| |naive_solver]. right. naive_solver.
  - split; [intros [H|[H H']] [K|[K [[N L]|[E L]]]]; try lia; try done|].
    intros H. destruct (Z.lt_total (gk_latest b) (gk_latest a)) as [?|[?|?]]; [by left| |naive_solver]. right. naive_solver.
Qed.

(** A list of groups as the listing orders them. *)
Definition ordered_keys (keys : list groupKey) : Prop :=
  StronglySorted group_le keys /\ NoDup (map (fun k => (gk_source k, gk_externalID k)) keys).

Lemma below_suffix l1 k l2 : ordered_keys (l1 ++ k :: l2) -> List.filter (below (pageCursor k)) (l1 ++ k :: l2) = l2.
Proof.
  intros [Hs Hnd]. destruct (StronglySorted_app_inv _ _ _ Hs) as [[_ Hk]%StronglySorted_inv Hle].
  rewrite map_app, list.NoDup_app in Hnd. destruct Hnd as (_ & Hni & [Hn2 _]%list.NoDup_cons). cbn in Hni.
  rewrite List.filter_app. cbn [List.filter].
  assert (forall x, group_le x k -> below (pageCursor k) x = false) as Hnot.
  { intros x Hx. apply not_true_iff_false. rewrite below_cursor. tauto. }
  rewrite filter_none_b by (intros x Hx; apply Hnot, Hle; [done|left]). cbn [app].
  rewrite Hnot by (destruct (total group_le k k); done).
  clear -Hk Hn2 TotalOrder0. induction l2 as [|y l2 IH]; [done|]. apply List.Forall_cons_iff in Hk as [Hy Hk]. cbn in Hn2.
  apply not_elem_of_cons in Hn2 as [Hne Hn2]. cbn [List.filter].
  rewrite (proj2 (below_cursor k y)); [by rewrite IH|]. intros H. destruct (group_le_antisym _ _ Hy H) as (_ & E1 & E2).
  apply Hne. by rewrite E1, E2.
Qed.

Lemma pageKeys_spec l1 l2 cursor limit :
  ordered_keys (l1 ++ l2) -> (1 <= limit)%nat ->
  match cursor with None => l1 = [] | Some c => exists l0 k, l1 = l0 ++ [k] /\ c = pageCursor k end ->
  (pageKeys text_le (l1 ++ l2) cursor limit = (l2, None) /\ (length l2 <= limit)%nat) \/
  (exists page k rest, l2 = (page ++ [k]) ++ rest /\ length page = (limit - 1)%nat /\
     pageKeys text_le (l1 ++ l2) cursor limit = (page ++ [k], Some (pageCursor k))).
Proof.
  intros Hok Hlim Hc. unfold pageKeys. set (rest := match cursor with Some c => _ | None => _ end).
  assert (rest = l2) as ->.
  { unfold rest. destruct cursor as [c|]; [|by rewrite Hc]. destruct Hc as (l0 & k & -> & ->).
    rewrite <- app_assoc in *. by apply below_suffix. }
  destruct (Nat.ltb_spec limit (length (firstn (S limit) l2))) as [Hl|Hl]; rewrite length_firstn in Hl.
  - right. assert (firstn limit (firstn (S limit) l2) = firstn limit l2) as -> by (rewrite List.firstn_firstn; f_equal; lia).
    destruct (exists_last (l := firstn limit l2)) as (page & k & E).
    { intros E. apply (f_equal length) in E. rewrite length_firstn in E. cbn in E. lia. }
    exists page, k, (skipn limit l2). split; [by rewrite <- E, List.firstn_skipn|]. split.
    + apply (f_equal length) in E. rewrite length_firstn, length_app in E. cbn in E. lia.
    + by rewrite E, list.last_snoc.
  - left. split; [|lia]. f_equal. apply firstn_all2. lia.
Qed.
End pages.

(** ** The timeline, page by page *)
Section timeline.
Context (text_le : string -> string -> Prop) `{!RelDecision text_le, !TotalOrder text_le}.

Lemma keyOf_spec rows g k :
  keyOf text_le rows g = Some k -> gk_source k = g.1 /\ gk_externalID k = g.2 /\ g ∈ map groupOf rows.
Proof.
  unfold keyOf. destruct (List.filter _ rows) as [|r rest] eqn:E; [done|]. intros [= <-]. split_and!; [done..|].
  assert (r ∈ List.filter (fun r => bool_decide (groupOf r = g)) rows) as [Hr Hg]%elem_of_filter_b by (rewrite E; left).
  apply bool_decide_eq_true in Hg as <-. apply list_elem_of_fmap. by exists r.
Qed.

Lemma elem_of_groupKeys db projectID serviceID from to kinds source k :
  let rows := timelineRows db projectID serviceID source in
  k ∈ groupKeys text_le db projectID serviceID from to kinds source <->
  keyOf text_le rows (gk_source k, gk_externalID k) = Some k /\ havingRange from to k = true /\ havingKind rows kinds k = true.
Proof.
  cbv zeta. unfold groupKeys. rewrite (merge_sort_Permutation (group_le text_le)), elem_of_filter_b, andb_true_iff, list_elem_of_omap.
  split.
  - intros [(g & Hg & Hk) H]. destruct (keyOf_spec _ _ _ Hk) as (E1 & E2 & _). rewrite E1, E2. by destruct g.
  - intros [Hk H]. split; [|done]. eexists. split; [|exact Hk]. apply elem_of_remove_dups. by apply keyOf_spec in Hk as (_ & _ & ?).
Qed.

Lemma groupKeys_ordered db projectID serviceID from to kinds source :
  ordered_keys text_le (groupKeys text_le db projectID serviceID from to kinds source).
Proof.
  unfold groupKeys. set (all := omap _ _). split.
  - apply (StronglySorted_merge_sort (group_le text_le)).
  - rewrite (merge_sort_Permutation (group_le text_le)).
    assert (NoDup (map (fun k => (gk_source k, gk_externalID k)) all)) as H.
    { apply (NoDup_omap_key id); [intros g k Hk; apply keyOf_spec in Hk as (-> & -> & _); by destruct g|].
      rewrite map_id. apply NoDup_remove_dups. }
    by apply NoDup_map_filter.
Qed.

Section reading.
Context (db : ChangeDB) (projectID serviceID : string) (from to : Time) (kinds : list ChangeKind) (source : option string) (limit : Z).

Notation page cursor := (ListChangeGroups text_le db projectID serviceID from to kinds source cursor limit).
Notation keys := (groupKeys text_le db projectID serviceID from to kinds source).

(** A client that follows the cursors. *)
Fixpoint readTimeline (fuel : nat) (cursor : option ChangeCursor) : result ChangeStoreError (list ChangeGroup) :=
  match page cursor with
  | Err e => Err e
  | Ok (groups, None) => Ok groups
  | Ok (groups, next) =>
    match fuel with
    | O => Ok groups
    | S fuel => match readTimeline fuel next with Ok rest => Ok (groups ++ rest) | Err e => Err e end
    end
  end.

(** The refusals do not look at the cursor. *)
Lemma page_Ok c0 p : page c0 = Ok p ->
  1 <= limit /\ forall c, page c = Ok (map (groupWith db projectID serviceID) (pageKeys text_le keys c (Z.to_nat limit)).1,
                                       (pageKeys text_le keys c (Z.to_nat limit)).2).
Proof.
  unfold ListChangeGroups. destruct (After to from); [|done]. cbn [rbind]. destruct (ChangeRangeMax <? Sub to from); [done|]. cbn [rbind].
  destruct ((limit <=? 0) || (ChangeListLimitMax <? limit)) eqn:E; [done|]. cbn [rbind].
  destruct (forallb ValidChangeKind kinds); [|done]. cbn [rbind].
  destruct (match source with Some s => _ | None => _ end) as [[]|]; [|done]. cbn [rbind].
  destruct (refuse_if _ _) as [[]|]; [|done]. cbn [rbind]. intros _. split; [bool_facts; lia|]. intros c.
  by destruct (pageKeys text_le keys c (Z.to_nat limit)).
Qed.

Lemma reading fuel p l1 l2 cursor :
  page None = Ok p -> keys = l1 ++ l2 -> (length l2 <= fuel)%nat ->
  match cursor with None => l1 = [] | Some c => exists l0 k, l1 = l0 ++ [k] /\ c = pageCursor k end ->
  readTimeline fuel cursor = Ok (map (groupWith db projectID serviceID) l2).
Proof.
  intros Hp. destruct (page_Ok _ _ Hp) as [Hlim Hpage]. pose proof (groupKeys_ordered db projectID serviceID from to kinds source) as Hok.
  revert l1 l2 cursor. induction fuel as [|fuel IH]; intros l1 l2 cursor Hk Hf Hc; cbn [readTimeline]; rewrite Hpage; rewrite Hk in Hok |- *;
    destruct (pageKeys_spec text_le l1 l2 cursor (Z.to_nat limit) Hok ltac:(lia) Hc) as [[-> _]|(pg & k & rest & E & Hlen & ->)]; try done.
  - rewrite E in Hf. rewrite !length_app in Hf. cbn in Hf. lia.
  - cbn [fst snd]. rewrite (IH (l1 ++ pg ++ [k]) rest (Some (pageCursor k))); [by rewrite E, (map_app _ (pg ++ [k]))| | |].
    + by rewrite Hk, E, <- !app_assoc.
    + rewrite E, !length_app in Hf. cbn in Hf. lia.
    + exists (l1 ++ pg), k. by rewrite app_assoc.
Qed.
End reading.

(** C23: equivalence of the paged listing with one listing: a client that follows the cursors
    from the first page, with any page size the listing accepts, reads every change group whose
    latest phase lies in the range (and that matches the filters) exactly once, newest first;
    no group is skipped or repeated at a page's edge. *)
Theorem timeline_is_read_once db projectID serviceID from to kinds source limit p
  (Hfirst : ListChangeGroups text_le db projectID serviceID from to kinds source None limit = Ok p) :
  let rows := timelineRows db projectID serviceID source in
  exists keys,
    readTimeline db projectID serviceID from to kinds source limit (length keys) None
      = Ok (map (groupWith db projectID serviceID) keys) /\
    StronglySorted (group_le text_le) keys /\ NoDup (map (fun k => (gk_source k, gk_externalID k)) keys) /\
    forall k, k ∈ keys <->
      keyOf text_le rows (gk_source k, gk_externalID k) = Some k /\ from <= gk_latest k < to /\ havingKind rows kinds k = true.
Proof.
  intros rows. exists (groupKeys text_le db projectID serviceID from to kinds source). split.
  { by apply (reading db projectID serviceID from to kinds source limit _ p []). }
  destruct (groupKeys_ordered db projectID serviceID from to kinds source) as [Hs Hnd]. split_and!; [done..|].
  intros k. rewrite elem_of_groupKeys. fold rows. unfold havingRange. rewrite andb_true_iff, Z.leb_le, Z.ltb_lt. tauto.
Qed.
End timeline.

(** ** Groups *)
Definition phasesOf (k : string * string * string) (rows : list ChangePhaseRow) : list ChangePhaseRow :=
  List.filter (fun r => bool_decide (identityOf r = k)) rows.

(** A change is its start, its end, or its start and then its end. *)
Inductive group_shape : list ChangePhaseRow -> Prop :=
| shape_none : group_shape []
| shape_started s : cp_Phase s = ChangePhaseStarted -> group_shape [s]
| shape_ended t : IsTerminalPhase (cp_Phase t) = true -> group_shape [t]
| shape_both s t :
    cp_Phase s = ChangePhaseStarted -> IsTerminalPhase (cp_Phase t) = true -> cp_Kind s = cp_Kind t ->
    cp_OccurredAt s <= cp_OccurredAt t -> group_shape [s; t].

Lemma phasesOf_app k l1 l2 : phasesOf k (l1 ++ l2) = phasesOf k l1 ++ phasesOf k l2.
Proof. apply List.filter_app. Qed.

Lemma elem_of_phasesOf k rows r : r ∈ phasesOf k rows <-> r ∈ rows /\ identityOf r = k.
Proof. unfold phasesOf. by rewrite elem_of_filter_b, bool_decide_eq_true. Qed.

(** Filtering by a test that keeps, or drops, all of a group. *)
Lemma phasesOf_keep k P rows :
  (forall r, r ∈ rows -> identityOf r = k -> P r = true) -> phasesOf k (List.filter P rows) = phasesOf k rows.
Proof.
  unfold phasesOf. induction rows as [|r l IH]; intros H; [done|]. cbn. rewrite <- IH by (intros x Hx; apply H; by right).
  destruct (P r) eqn:E; [done|]. rewrite bool_decide_eq_false_2; [done|]. intros Hk. rewrite (H r) in E by (done || left). done.
Qed.

Lemma phasesOf_drop k P rows :
  (forall r, r ∈ rows -> identityOf r = k -> P r = true) -> phasesOf k (List.filter (fun r => negb (P r)) rows) = [].
Proof.
  intros H. apply filter_none_b. intros r [Hr Hn]%elem_of_filter_b. apply bool_decide_eq_false. intros Hk. by rewrite H in Hn.
Qed.

Lemma sorted_shape l : group_shape l -> sortChangePhases l = l.
Proof.
  intros [|s _|t _|s t Hs Ht _ Ho]; [done..|]. unfold sortChangePhases, merge_sort. cbn.
  assert (phase_le s t) as Hle.
  { unfold phase_le, Equal. destruct (Z.eqb_spec (cp_OccurredAt s) (cp_OccurredAt t)); cbn; [|lia].
    unfold changePhaseRank. rewrite Hs. rewrite bool_decide_eq_true_2 by done. rewrite bool_decide_eq_false_2 by (intros E; by rewrite E in Ht).
    cbn. lia. }
  by rewrite decide_True.
Qed.

(** What may join a group. *)
Lemma shape_snoc l i occurred row :
  group_shape l -> admitPhase l i occurred = Ok tt -> ValidChangePhase (ri_Phase i) = true ->
  List.find (fun r => bool_decide (cp_Phase r = ri_Phase i)) l = None ->
  cp_Phase row = ri_Phase i -> cp_Kind row = ri_Kind i -> cp_OccurredAt row = occurred -> group_shape (l ++ [row]).
Proof.
  intros Hl Had Hv Hf Hp Hk Ho. unfold admitPhase, ChangePhaseOrder in Had. rewrite Hv in Had. cbn [negb refuse_if rbind] in Had.
  destruct Hl as [|s Hs|t Ht|s t Hs Ht Hkd Hle]; cbn [app map] in *.
  - destruct (ri_Phase i) eqn:E; try done; [by apply shape_started|apply shape_ended; by rewrite Hp..].
  - rewrite Hs in *. cbn in Hf. case_bool_decide as Hne; [done|]. case_bool_decide as Hke; [|done]. cbn in Had.
    rewrite Hs in Hne. assert (IsTerminalPhase (ri_Phase i) = true) as Ht by (destruct (ri_Phase i); done).
    rewrite bool_decide_eq_false_2 in Had by done. cbn in Had.
    rewrite Ht, orb_false_r, (bool_decide_eq_true_2 (cp_Phase s = _)) in Had by done. cbn in Had.
    unfold Before in Had. destruct (Z.ltb_spec occurred (cp_OccurredAt s)); [done|].
    apply shape_both; [done|by rewrite Hp|congruence|lia].
  - cbn in Hf. case_bool_decide as Hne; [done|]. case_bool_decide; [|done]. cbn in Had. rewrite bool_decide_eq_false_2 in Had by done.
    cbn in Had. rewrite Ht in Had. done.
  - cbn in Hf. case_bool_decide as Hne1; [done|]. case_bool_decide as Hne2; [done|]. case_bool_decide; [|done].
    cbn in Had. rewrite !bool_decide_eq_false_2 in Had by done. cbn in Had. rewrite Ht in Had. done.
Qed.

Lemma filter_id_b {A} (P : A -> bool) l : (forall x, x ∈ l -> P x = true) -> List.filter P l = l.
Proof.
  induction l as [|x l IH]; intros H; [done|]. cbn. rewrite H by left. rewrite IH; [done|]. intros y Hy. apply H. by right.
Qed.

(** ** Correlation *)
Lemma maxTime_spec t l : t <= maxTime t l /\ (forall x, x ∈ l -> x <= maxTime t l) /\ (maxTime t l = t \/ maxTime t l ∈ l).
Proof.
  unfold maxTime. revert t. induction l as [|y l IH]; intros t; cbn.
  { split_and!; [lia|intros x Hx; by apply not_elem_of_nil in Hx|by left]. }
  destruct (IH (Z.max t y)) as (H1 & H2 & H3). split_and!; [lia| |].
  - intros x [->|Hx]%elem_of_cons; [lia|by apply H2].
  - destruct H3 as [->|H3]; [|right; by right]. destruct (Z.max_spec t y) as [[_ ->]|[_ ->]]; [right; by left|by left].
Qed.

Lemma laterID_elem l b : foldl laterID b l = b \/ exists r, r ∈ l /\ foldl laterID b l = Some r.
Proof.
  revert b. induction l as [|x l IH]; intros b; cbn; [by left|]. destruct (IH (laterID b x)) as [->|(r & Hr & ->)].
  - unfold laterID. destruct b as [y|]; [case_bool_decide; [by left|]|]; right; exists x; (split; [left|done]).
  - right. exists r. split; [by right|done].
Qed.

Lemma laterID_Some l b : is_Some b \/ l <> [] -> is_Some (foldl laterID b l).
Proof.
  revert b. induction l as [|x l IH]; intros b H; cbn; [by destruct H|]. apply IH. left. unfold laterID.
  destruct b; [case_bool_decide|]; by eexists.
Qed.

(** The latest phase of a group. *)
Definition latest_in (u : list ChangePhaseRow) (r : ChangePhaseRow) : Prop :=
  r ∈ u /\ forall x, x ∈ u -> identityOf x = identityOf r -> cp_OccurredAt x <= cp_OccurredAt r.

Lemma anchorOf_spec u from to k :
  match anchorOf u from to k with
  | Some r => latest_in u r /\ identityOf r = k /\ from <= cp_OccurredAt r <= to
  | None => forall r, latest_in u r -> identityOf r = k -> ~ (from <= cp_OccurredAt r <= to)
  end.
Proof.
  unfold anchorOf. destruct (List.filter (fun r => bool_decide (identityOf r = k)) u) as [|r0 rest] eqn:E.
  { intros r [Hr _] Hk. assert (r ∈ phasesOf k u) as H by by apply elem_of_phasesOf. unfold phasesOf in H. rewrite E in H.
    by apply not_elem_of_nil in H. }
  assert (forall r, r ∈ r0 :: rest <-> r ∈ u /\ identityOf r = k) as Hin by (intros r; rewrite <- E; apply elem_of_phasesOf).
  set (latest := maxTime _ _). destruct (maxTime_spec (cp_OccurredAt r0) (map cp_OccurredAt rest)) as (H1 & H2 & H3). fold latest in H1, H2, H3.
  assert (forall x, x ∈ u -> identityOf x = k -> cp_OccurredAt x <= latest) as Hmax.
  { intros x Hx Hk. assert (x ∈ r0 :: rest) as [->|Hx']%elem_of_cons by (by apply Hin); [done|].
    apply H2, list_elem_of_fmap. by exists x. }
  assert (exists r, r ∈ r0 :: rest /\ cp_OccurredAt r = latest) as (rm & Hrm & Hl).
  { destruct H3 as [H3|(r & Hr & Hrest)%list_elem_of_fmap]; [exists r0; split; [left|done]|exists r; split; [by right|done]]. }
  destruct (Z.leb_spec from latest), (Z.leb_spec latest to); cbn [andb].
  2-4: intros r [Hr Hm] Hk Hw; apply Hin in Hrm as [Hu Hi]; specialize (Hm rm Hu ltac:(congruence)); specialize (Hmax r Hr Hk); lia.
  destruct (laterID_Some (List.filter (fun r => Equal (cp_OccurredAt r) latest) (r0 :: rest)) None) as [r Hr].
  { right. intros Hn. assert (rm ∈ List.filter (fun r => Equal (cp_OccurredAt r) latest) (r0 :: rest)) as H'.
    { apply elem_of_filter_b. split; [done|]. unfold Equal. by rewrite Hl, Z.eqb_refl. }
    rewrite Hn in H'. by apply not_elem_of_nil in H'. }
  rewrite Hr. destruct (laterID_elem (List.filter (fun r => Equal (cp_OccurredAt r) latest) (r0 :: rest)) None) as [E'|(r' & Hr' & E')];
    rewrite Hr in E'; [done|]. injection E' as <-. apply elem_of_filter_b in Hr' as [Hr' Ho]. apply Z.eqb_eq in Ho. apply Hin in Hr' as [Hu Hk].
  split; [split; [done|]|split; [done|lia]]. intros x Hx Hi. rewrite Ho. apply Hmax; [done|congruence].
Qed.

Lemma elem_of_anchors db id i w r :
  r ∈ anchorsOf db id i w ->
  latest_in (openUniverse db id i) r /\ Add (in_StartedAt i) (- w) <= cp_OccurredAt r <= in_StartedAt i.
Proof.
  intros (k & _ & Hk)%list_elem_of_omap. pose proof (anchorOf_spec (openUniverse db id i) (Add (in_StartedAt i) (- w)) (in_StartedAt i) k) as H.
  rewrite Hk in H. tauto.
Qed.

Lemma elem_of_openUniverse db id i r :
  r ∈ openUniverse db id i <-> r ∈ ch_rows db /\ cp_ProjectID r = in_ProjectID i /\
    cp_ServiceID r ∈ correlationServices db id i /\ cp_RecordedAt r <= in_StartedAt i.
Proof. unfold openUniverse. rewrite elem_of_filter_b, !andb_true_iff, !bool_decide_eq_true, Z.leb_le. tauto. Qed.

Lemma anchors_distinct db id i w : NoDup (map identityOf (anchorsOf db id i w)).
Proof.
  apply (NoDup_omap_key (fun k => k)); [|rewrite map_id; apply NoDup_remove_dups]. intros k r Hr.
  pose proof (anchorOf_spec (openUniverse db id i) (Add (in_StartedAt i) (- w)) (in_StartedAt i) k) as H. rewrite Hr in H. tauto.
Qed.

Lemma prefix_app a b : String.prefix a (a +:+ b) = true.
Proof. induction a as [|x a IH]; [by destruct b|]. change (String.prefix (String x a) (String x (a +:+ b)) = true). cbn. by destruct (Ascii.ascii_dec x x). Qed.

Lemma note_marked es total max : es <> [] -> 0 < total -> String.prefix ChangesMarker (RenderChangesNote es total max) = true.
Proof.
  intros He Ht. unfold RenderChangesNote. destruct (Z.leb_spec total 0); [lia|]. destruct es; [done|]. cbn [orb length Nat.eqb]. cbv zeta.
  apply prefix_app.
Qed.

(** A correlation that links anything, in one piece. *)
Lemma linked db id w noteMax txNow upID db' res :
  LinkPrecedingChanges db id w noteMax txNow upID = Ok (db', res) ->
  (db' = db /\ co_Links res = [] /\ (co_Skipped res = true \/ exists i, ch_incidents db !! id = Some i /\ anchorsOf db id i w = [])) \/
  exists i anchors u, ch_incidents db !! id = Some i /\ changesNoted db id = false /\
    Permutation anchors (anchorsOf db id i w) /\ anchors <> [] /\ marked ChangesMarker id u = true /\
    db' = withNote db (map (linkRow id i txNow) anchors) u /\ co_Links res = map (linkOf i) anchors.
Proof.
  unfold LinkPrecedingChanges. destruct (refuse_if _ _) as [[]|]; [|done]. cbn [rbind]. destruct (noteMax <? 1); [done|]. cbn [rbind].
  destruct (ch_incidents db !! id) as [i|] eqn:Ei; [|intros [= <- <-]; left; by split_and!; try left].
  case_bool_decide; [intros [= <- <-]; left; by split_and!; try left|].
  destruct (changesNoted db id) eqn:En; [intros [= <- <-]; left; by split_and!; try left|].
  assert (Permutation (merge_sort (anchor_le i) (merge_sort service_le (anchorsOf db id i w))) (anchorsOf db id i w)) as Hp
    by (etrans; apply merge_sort_Permutation).
  destruct (merge_sort (anchor_le i) (merge_sort service_le (anchorsOf db id i w))) as [|a l] eqn:Em.
  { intros [= <- <-]. left. split_and!; try done. right. exists i. split; [done|]. by apply Permutation_nil. }
  intros [= <- <-]. right. eexists i, (a :: l), _. split_and!; try done.
  unfold marked. cbn. rewrite !bool_decide_eq_true_2 by done. cbn. by apply note_marked.
Qed.

(** Once the incident has its note, a correlation is skipped. *)
Lemma noted_skips db id w noteMax txNow upID p db' :
  LinkPrecedingChanges db id w noteMax txNow upID = Ok p -> changesNoted db' id = true ->
  LinkPrecedingChanges db' id w noteMax txNow upID = Ok (db', skippedCorrelation).
Proof.
  unfold LinkPrecedingChanges. destruct (refuse_if _ _) as [[]|]; [|done]. cbn [rbind]. destruct (noteMax <? 1); [done|]. cbn [rbind].
  intros _ Hn. destruct (ch_incidents db' !! id) as [i|]; [|done]. case_bool_decide; [done|]. by rewrite Hn.
Qed.

Lemma changesNoted_more db links u id : changesNoted db id = true -> changesNoted (withNote db links u) id = true.
Proof. unfold changesNoted, withNote. cbn. intros H. by rewrite existsb_app, H. Qed.

(** ** The system *)

(** Beside the writers of changes: incidents come, go and gather updates, the ledger and the
    graph move, services are created.  An incident keeps its project, its service, its opening
    and its note; a deleted one takes its links with it. *)
Record change_moves (db db' : ChangeDB) : Prop := {
  mv_rows : ch_rows db' = ch_rows db;
  mv_links : ch_links db' = List.filter (fun l => match ch_incidents db' !! lk_incident l with Some _ => true | None => false end) (ch_links db);
  mv_services : forall p1 p2 s, (p1, s) ∈ ch_services db' -> (p2, s) ∈ ch_services db' -> p1 = p2;
  mv_home : forall r, r ∈ ch_rows db -> (cp_ProjectID r, cp_ServiceID r) ∈ ch_services db';
  mv_incidents : forall id i', ch_incidents db' !! id = Some i' ->
    ch_incidents db !! id = None \/
    exists i, ch_incidents db !! id = Some i /\ in_ProjectID i' = in_ProjectID i /\ in_ServiceID i' = in_ServiceID i /\
      in_StartedAt i' = in_StartedAt i /\ (changesNoted db id = true -> changesNoted db' id = true);
}.

Section system.
Context (nfc parses : string -> bool).

Inductive change_step : ChangeDB -> ChangeDB -> Prop :=
| cs_record db i now random db' r :
    RecordChangePhase nfc parses db i now random = Ok (db', r, false) -> cp_ID r ∉ map cp_ID (ch_rows db) -> change_step db db'
| cs_replay db i now random db' r :
    RecordChangePhase nfc parses db i now random = Ok (db', r, true) -> change_step db db'
| cs_link db id window noteMax txNow upID db' res :
    LinkPrecedingChanges db id window noteMax txNow upID = Ok (db', res) -> change_step db db'
| cs_purge db cutoff keys : change_step db (deleteVictims db cutoff keys).1
| cs_drop db projectID serviceID : change_step db (dropService db projectID serviceID)
| cs_other db db' : change_moves db db' -> change_step db db'.

Definition change_initial (db : ChangeDB) : Prop :=
  ch_rows db = [] /\ ch_links db = [] /\ forall p1 p2 s, (p1, s) ∈ ch_services db -> (p2, s) ∈ ch_services db -> p1 = p2.

Definition change_system : system ChangeDB := System change_initial change_step.

(** A link is to a phase recorded and dated by the open, of the incident's own service or of
    another, with the exact lag, and the incident says so in its note. *)
Definition link_ok (db : ChangeDB) (l : IncidentChangeRow) : Prop :=
  exists i r, ch_incidents db !! lk_incident l = Some i /\ r ∈ ch_rows db /\ cp_ID r = lk_change l /\
    cp_ProjectID r = in_ProjectID i /\ lk_project l = in_ProjectID i /\ cp_RecordedAt r <= in_StartedAt i /\
    cp_OccurredAt r <= in_StartedAt i /\ lk_occurredAt l = cp_OccurredAt r /\
    lk_lagSeconds l = Z.quot (Sub (in_StartedAt i) (cp_OccurredAt r)) Second /\
    (lk_role l = ChangeLinkRoleOwnService <-> cp_ServiceID r = in_ServiceID i) /\ changesNoted db (lk_incident l) = true.

Record change_inv (db : ChangeDB) : Prop := {
  ci_services : forall p1 p2 s, (p1, s) ∈ ch_services db -> (p2, s) ∈ ch_services db -> p1 = p2;
  ci_home : forall r, r ∈ ch_rows db -> (cp_ProjectID r, cp_ServiceID r) ∈ ch_services db;
  ci_groups : forall k, group_shape (phasesOf k (ch_rows db));
  ci_ids : NoDup (map cp_ID (ch_rows db));
  ci_links : forall l, l ∈ ch_links db -> link_ok db l;
  ci_once : forall l1 l2 r1 r2, l1 ∈ ch_links db -> l2 ∈ ch_links db -> lk_incident l1 = lk_incident l2 ->
    r1 ∈ ch_rows db -> r2 ∈ ch_rows db -> cp_ID r1 = lk_change l1 -> cp_ID r2 = lk_change l2 -> identityOf r1 = identityOf r2 -> r1 = r2;
}.

(** The rows an identity check reads are the group. *)
Lemma identity_rows db p s src ext :
  change_inv db -> (p, s) ∈ ch_services db -> changeIdentityRowsTx db p s src ext = phasesOf (s, src, ext) (ch_rows db).
Proof.
  intros Hinv Hp. unfold changeIdentityRowsTx.
  assert (List.filter (fun r => bool_decide (cp_ServiceID r = s) && bool_decide (cp_ProjectID r = p)
     && bool_decide (cp_Source r = src) && bool_decide (cp_ExternalID r = ext)) (ch_rows db) = phasesOf (s, src, ext) (ch_rows db)) as ->.
  { apply filter_ext_elem. intros r Hr. unfold identityOf.
    destruct (decide ((cp_ServiceID r, cp_Source r, cp_ExternalID r) = (s, src, ext))) as [E|E].
    - rewrite (bool_decide_eq_true_2 _ E). injection E as E1 E2 E3. rewrite !bool_decide_eq_true_2; try done.
      apply (ci_services db Hinv _ _ s); [|done]. rewrite <- E1. by apply (ci_home db Hinv).
    - rewrite (bool_decide_eq_false_2 _ E). repeat case_bool_decide; cbn; try done. congruence. }
  apply sorted_shape, (ci_groups db Hinv).
Qed.

(** ** Recording *)

(** What the validator lets through. *)
Lemma validated i i' :
  validateRecordChangeInput nfc parses i = Ok i' ->
  i' = withDecision i (ri_DecisionID i') /\ ValidChangePhase (ri_Phase i) = true /\ ValidChangeKind (ri_Kind i) = true /\
  ValidateChangeSource (ri_Source i) = Ok tt /\ is_Some (match ValidateChangeExternalID nfc (ri_ExternalID i) with Ok v => Some v | Err _ => None end) /\
  ri_DecisionID i' = ToLower <$> ri_DecisionID i /\ ga_Label (ri_Actor i) <> "".
Proof.
  unfold validateRecordChangeInput. destruct (ValidateChangeSource _) as [[]|]; [|done]. cbn [checked rbind].
  destruct (ValidateChangeExternalID _ _) as [v|]; [|done]. cbn [checked rbind].
  destruct (ValidChangeKind _); [|done]. cbn [rbind]. destruct (ValidChangePhase _); [|done]. cbn [rbind].
  destruct (ValidateChangeRef _ _); [|done]. cbn [checked rbind]. destruct (ValidateChangeURL _ _ _); [|done]. cbn [checked rbind].
  destruct (IsZero _); [done|]. cbn [rbind].
  destruct (match ri_DecisionID i with Some d => _ | None => _ end) as [i0|] eqn:Ed; [|done]. cbn [rbind].
  destruct (refuse_if (bool_decide (ga_Label (ri_Actor i) = "")) _) as [[]|] eqn:El; [|done]. cbn [rbind].
  destruct (refuse_if (_ || _) _) as [[]|]; [|done]. cbn [rbind]. intros [= <-].
  assert (ga_Label (ri_Actor i) <> "") as Hl.
  { intros E. unfold refuse_if in El. by rewrite bool_decide_eq_true_2 in El. }
  destruct (ri_DecisionID i) as [d|] eqn:Edd.
  - destruct (gateDecisionIDMillis d); [|done]. injection Ed as <-. cbn. by split_and!.
  - injection Ed as <-. split_and!; try done. by destruct i.
Qed.

(** A recording that is not a replay appends one row to its group. *)
Lemma recorded db input now random db' r :
  RecordChangePhase nfc parses db input now random = Ok (db', r, false) ->
  exists i existing, validateRecordChangeInput nfc parses input = Ok i /\
    existing = changeIdentityRowsTx db (ri_ProjectID i) (ri_ServiceID i) (ri_Source i) (ri_ExternalID i) /\
    (ri_ProjectID i, ri_ServiceID i) ∈ ch_services db /\
    List.find (fun x => bool_decide (cp_Phase x = ri_Phase i)) existing = None /\
    admitPhase existing i (Truncate (ri_OccurredAt i) changeMicrosecond) = Ok tt /\
    r = phaseRow i (cp_ID r) (Truncate (ri_OccurredAt i) changeMicrosecond) now /\
    db' = withChangeRows db (ch_rows db ++ [r]) (ch_links db).
Proof.
  unfold RecordChangePhase. destruct (validateRecordChangeInput _ _ _) as [i|]; [|done]. cbn [rbind].
  destruct (refuse_if _ _) as [[]|] eqn:Es; [|done]. cbn [rbind].
  match goal with |- context [if Before ?a ?b || ?c then _ else _] => destruct (Before a b || c) end; [done|]. cbn [rbind].
  set (existing := changeIdentityRowsTx _ _ _ _ _). destruct (List.find _ existing) as [x|] eqn:Ef; [by destruct (changeReplayDiffers _ _ _)|].
  destruct (admitPhase _ _ _) as [[]|] eqn:Ea; [|done]. cbn [rbind].
  destruct (match ri_DecisionID i with Some d => _ | None => _ end) as [[]|]; [|done]. cbn [rbind].
  destruct (newGateDecisionID _ _) as [id|]; [|done]. intros [= <- <-]. exists i, existing. split_and!; try done.
  unfold refuse_if in Es. destruct (serviceExistsOn _ _ _) eqn:E; [|done]. by apply bool_decide_eq_true in E.
Qed.

Lemma replayed db input now random db' r :
  RecordChangePhase nfc parses db input now random = Ok (db', r, true) -> db' = db.
Proof.
  unfold RecordChangePhase. destruct (validateRecordChangeInput _ _ _) as [i|]; [|done]. cbn [rbind].
  destruct (refuse_if _ _) as [[]|]; [|done]. cbn [rbind].
  match goal with |- context [if Before ?a ?b || ?c then _ else _] => destruct (Before a b || c) end; [done|]. cbn [rbind].
  destruct (List.find _ _) as [x|]; [destruct (changeReplayDiffers _ _ _); [done|congruence]|].
  destruct (admitPhase _ _ _) as [[]|]; [|done]. cbn [rbind].
  destruct (match ri_DecisionID i with Some d => _ | None => _ end) as [[]|]; [|done]. cbn [rbind].
  by destruct (newGateDecisionID _ _).
Qed.

Lemma link_ok_same db db' l :
  ch_incidents db' = ch_incidents db -> (forall r, r ∈ ch_rows db -> r ∈ ch_rows db') ->
  (changesNoted db (lk_incident l) = true -> changesNoted db' (lk_incident l) = true) -> link_ok db l -> link_ok db' l.
Proof.
  intros Hi Hr Hn (i & r & H1 & H2 & H3). exists i, r. rewrite Hi. split; [done|]. split; [by apply Hr|]. tauto.
Qed.

Lemma NoDup_snoc {A} (l : list A) x : NoDup l -> x ∉ l -> NoDup (l ++ [x]).
Proof.
  intros H1 H2. apply list.NoDup_app. split; [done|]. split; [|apply NoDup_singleton]. by intros y Hy ->%list_elem_of_singleton.
Qed.

Lemma inv_record db input now random db' r :
  RecordChangePhase nfc parses db input now random = Ok (db', r, false) -> cp_ID r ∉ map cp_ID (ch_rows db) ->
  change_inv db -> change_inv db'.
Proof.
  intros H Hfresh Hinv. destruct (recorded _ _ _ _ _ _ H) as (i & ex & Hval & -> & Hs & Hf & Ha & Hr & ->).
  rewrite (identity_rows db _ _ _ _ Hinv Hs) in Hf, Ha.
  destruct (validated _ _ Hval) as (Hi & Hvp & _). assert (ri_Phase i = ri_Phase input) as Hp by by rewrite Hi.
  assert (forall l x, l ∈ ch_links db -> x ∈ ch_rows db ++ [r] -> cp_ID x = lk_change l -> x ∈ ch_rows db) as Hold.
  { intros l x Hl [Hx| ->%list_elem_of_singleton]%elem_of_app Hid; [done|]. destruct (ci_links db Hinv l Hl) as (_ & y & _ & Hy & Hyid & _).
    destruct Hfresh. apply list_elem_of_fmap. exists y. split; [congruence|done]. }
  split; cbn.
  - apply Hinv.
  - intros x [Hx| ->%list_elem_of_singleton]%elem_of_app; [by apply Hinv|]. by rewrite Hr.
  - intros k. change (group_shape (phasesOf k (ch_rows db ++ [r]))). rewrite phasesOf_app. unfold phasesOf at 2. cbn. case_bool_decide as Hk; [|rewrite app_nil_r; apply Hinv].
    assert (k = (ri_ServiceID i, ri_Source i, ri_ExternalID i)) as -> by by rewrite <- Hk, Hr.
    apply (shape_snoc _ i (Truncate (ri_OccurredAt i) changeMicrosecond)); [apply Hinv|done|by rewrite Hp|done|by rewrite Hr..].
  - rewrite map_app. apply NoDup_snoc; [apply Hinv|done].
  - intros l Hl. apply (link_ok_same db); [done| |done|by apply (ci_links db Hinv)]. intros x Hx. cbn. apply elem_of_app. by left.
  - intros l1 l2 r1 r2 H1 H2 E Hr1 Hr2 E1 E2.
    exact (ci_once db Hinv l1 l2 r1 r2 H1 H2 E (Hold l1 r1 H1 Hr1 E1) (Hold l2 r2 H2 Hr2 E2) E1 E2).
Qed.

(** Deleting whole groups. *)
Lemma inv_delete_rows db gone :
  (forall r1 r2, r1 ∈ ch_rows db -> r2 ∈ ch_rows db -> identityOf r1 = identityOf r2 -> gone r1 = gone r2) ->
  change_inv db -> change_inv (deleteRows db gone).
Proof.
  intros Hg Hinv. unfold deleteRows. split; cbn.
  - apply Hinv.
  - intros r [Hr _]%elem_of_filter_b. by apply Hinv.
  - intros k. change (group_shape (phasesOf k (List.filter (fun r => negb (gone r)) (ch_rows db)))).
    destruct (List.find (fun r => bool_decide (identityOf r = k) && gone r) (ch_rows db)) as [r0|] eqn:E.
    + apply List.find_some in E as [Hr0 [Hk0 Hg0]%andb_true_iff]. apply list_elem_of_In in Hr0. apply bool_decide_eq_true in Hk0.
      rewrite phasesOf_drop; [constructor|]. intros r Hr Hk. rewrite (Hg r r0 Hr Hr0) by congruence. done.
    + rewrite phasesOf_keep; [apply Hinv|]. intros r Hr Hk. apply negb_true_iff. apply list_elem_of_In in Hr.
      pose proof (List.find_none _ _ E r Hr) as Hf. cbv beta in Hf. by rewrite bool_decide_eq_true_2 in Hf.
  - apply NoDup_map_filter, Hinv.
  - intros l [Hl Hkeep]%elem_of_filter_b. destruct (ci_links db Hinv l Hl) as (i & r & Hi & Hr & Hid & Hrest). exists i, r.
    split; [done|]. split; [|done]. cbn. apply elem_of_filter_b. split; [done|]. apply negb_true_iff, not_true_iff_false. intros Hgone.
    apply negb_true_iff, not_true_iff_false in Hkeep. apply Hkeep. apply existsb_elem. exists r. split; [done|].
    rewrite Hgone. by apply bool_decide_eq_true.
  - intros l1 l2 r1 r2 [H1 _]%elem_of_filter_b [H2 _]%elem_of_filter_b E [Hr1 _]%elem_of_filter_b [Hr2 _]%elem_of_filter_b.
    by apply (ci_once db Hinv).
Qed.

(** ** Correlation keeps the invariant *)
Lemma inv_link db id w noteMax txNow upID db' res :
  LinkPrecedingChanges db id w noteMax txNow upID = Ok (db', res) -> change_inv db -> change_inv db'.
Proof.
  intros H Hinv. apply linked in H as [[-> _]|(i & anchors & u & Hi & Hn & Hp & _ & Hu & -> & _)]; [done|].
  assert (forall l, l ∈ ch_links db -> lk_incident l <> id) as Hother.
  { intros l Hl <-. destruct (ci_links db Hinv l Hl) as (_ & _ & _ & _ & _ & _ & _ & _ & _ & _ & _ & _ & H). congruence. }
  assert (forall r, r ∈ anchors -> r ∈ ch_rows db) as Hrows.
  { intros r Hr. rewrite Hp in Hr. by apply elem_of_anchors in Hr as [[[? _]%elem_of_openUniverse _] _]. }
  assert (forall r1 a, r1 ∈ ch_rows db -> a ∈ anchors -> cp_ID r1 = cp_ID a -> r1 = a) as Hsame.
  { intros r1 a H1 Ha E. apply (NoDup_map_inj cp_ID (ch_rows db)); try done; [apply Hinv|by apply Hrows]. }
  split; cbn; try apply Hinv.
  - intros l [Hl|(a & -> & Ha)%list_elem_of_fmap]%elem_of_app.
    + apply (link_ok_same db); [done|done|by apply changesNoted_more|by apply (ci_links db Hinv)].
    + pose proof Ha as Ha'. rewrite Hp in Ha'. apply elem_of_anchors in Ha' as [[(Hr & Hpr & Hsv & Hrec)%elem_of_openUniverse _] Ho].
      exists i, a. cbn. split_and!; try done; try lia.
      * unfold roleOf. case_bool_decide; naive_solver.
      * unfold changesNoted. cbn. rewrite existsb_app. cbn. by rewrite Hu, orb_true_r.
  - intros l1 l2 r1 r2 [H1|(a1 & -> & H1)%list_elem_of_fmap]%elem_of_app [H2|(a2 & -> & H2)%list_elem_of_fmap]%elem_of_app E Hr1 Hr2 E1 E2 Hid; cbn in *.
    + by apply (ci_once db Hinv l1 l2).
    + by destruct (Hother l1 H1).
    + by destruct (Hother l2 H2).
    + rewrite (Hsame _ _ Hr1 H1 E1), (Hsame _ _ Hr2 H2 E2) in *. apply (NoDup_map_inj identityOf anchors); try done.
      rewrite Hp. apply anchors_distinct.
Qed.

(** ** The invariant *)
Lemma inv_purge db cutoff keys : change_inv db -> change_inv (deleteVictims db cutoff keys).1.
Proof. apply inv_delete_rows. by intros r1 r2 _ _ ->. Qed.

Lemma inv_drop db projectID serviceID : change_inv db -> change_inv (dropService db projectID serviceID).
Proof.
  intros Hinv. unfold dropService. set (gone := fun r => bool_decide (cp_ServiceID r = serviceID) && bool_decide (cp_ProjectID r = projectID)).
  assert (change_inv (deleteRows db gone)) as H1.
  { apply inv_delete_rows; [|done]. intros r1 r2 H1 H2 [= E _ _]. unfold gone.
    assert (cp_ProjectID r1 = cp_ProjectID r2) as ->; [|by rewrite E].
    apply (ci_services db Hinv _ _ (cp_ServiceID r1)); [by apply Hinv|rewrite E; by apply Hinv]. }
  split; try apply H1; cbn.
  - intros p1 p2 s [? _]%elem_of_filter_b [? _]%elem_of_filter_b. by apply (ci_services db Hinv p1 p2 s).
  - intros r [Hr Hn]%elem_of_filter_b. apply elem_of_filter_b. split; [by apply Hinv|].
    apply negb_true_iff, bool_decide_eq_false. intros [= E1 E2]. unfold gone in Hn. by rewrite !bool_decide_eq_true_2 in Hn.
Qed.

Lemma inv_other db db' : change_moves db db' -> change_inv db -> change_inv db'.
Proof.
  intros [Hr Hl Hs Hh Hm] Hinv. split; rewrite ?Hr, ?Hl.
  - done.
  - done.
  - apply Hinv.
  - apply Hinv.
  - intros l [H Hsome]%elem_of_filter_b. destruct (ch_incidents db' !! lk_incident l) as [i'|] eqn:Ei; [|done].
    destruct (ci_links db Hinv l H) as (i & r & Hi & Hrr & H1 & H2 & H3 & H4 & H5 & H6 & H7 & H8 & H9).
    destruct (Hm _ _ Ei) as [Hno|(j & Hj & E1 & E2 & E3 & Hn)]; [congruence|]. assert (j = i) as -> by congruence.
    exists i', r. rewrite Ei, Hr, E1, E2, E3. specialize (Hn H9). tauto.
  - intros l1 l2 r1 r2 [H1 _]%elem_of_filter_b [H2 _]%elem_of_filter_b. by apply (ci_once db Hinv).
Qed.

Lemma change_step_inv db db' : change_inv db -> change_step db db' -> change_inv db'.
Proof.
  intros Hinv Hs. revert Hinv. destruct Hs as [? ? ? ? ? ? H Hf|? ? ? ? ? ? H|? ? ? ? ? ? ? ? H| | |? ? H]; intros Hinv.
  - by apply (inv_record _ _ _ _ _ _ H).
  - by rewrite (replayed _ _ _ _ _ _ H).
  - by apply (inv_link _ _ _ _ _ _ _ _ H).
  - by apply inv_purge.
  - by apply inv_drop.
  - by apply (inv_other _ _ H).
Qed.

Lemma change_reachable_inv db : sys_reachable change_system db -> change_inv db.
Proof.
  apply invariant_rule; [|intros x y Hs Hx; by apply (change_step_inv x)].
  intros x (H1 & H2 & H3). split; rewrite ?H1, ?H2; try done.
  - intros r Hr. by apply not_elem_of_nil in Hr.
  - constructor.
  - constructor.
  - intros l Hl. by apply not_elem_of_nil in Hl.
  - intros l1 l2 r1 r2 Hl. by apply not_elem_of_nil in Hl.
Qed.
End system.

(** ** What the record promises *)
Section promises.
Context (nfc parses : string -> bool).

(** C17: type of the record: in every reachable state the phases of a service's change are
    nothing, its start, its end, or its start followed by one end of the same kind no earlier
    than the start, whatever recordings, correlations, purges and deletions interleaved; and
    that is the order the identity check reads them in. *)
Theorem change_is_one_story db projectID serviceID source externalID
  (Hreach : sys_reachable (change_system nfc parses) db) (Hs : (projectID, serviceID) ∈ ch_services db) :
  group_shape (changeIdentityRowsTx db projectID serviceID source externalID) /\
  changeIdentityRowsTx db projectID serviceID source externalID = phasesOf (serviceID, source, externalID) (ch_rows db).
Proof.
  pose proof (change_reachable_inv nfc parses db Hreach) as Hinv.
  rewrite (identity_rows db _ _ _ _ Hinv Hs). split; [apply Hinv|done].
Qed.

(** C18: safety of correlation: in every reachable state every link goes from an incident to a
    phase of the incident's project that had been recorded and had happened by the incident's
    opening, carries that phase's instant and its exact lag in whole seconds, says "own service"
    exactly for the incident's own service, and the incident carries its note; and no incident is
    linked twice to one change. *)
Theorem links_precede_the_incident db l (Hreach : sys_reachable (change_system nfc parses) db) (Hl : l ∈ ch_links db) :
  link_ok db l /\
  forall l2 r1 r2, l2 ∈ ch_links db -> lk_incident l2 = lk_incident l -> r1 ∈ ch_rows db -> r2 ∈ ch_rows db ->
    cp_ID r1 = lk_change l -> cp_ID r2 = lk_change l2 -> identityOf r1 = identityOf r2 -> lk_change l2 = lk_change l.
Proof.
  pose proof (change_reachable_inv nfc parses db Hreach) as Hinv. split; [by apply Hinv|].
  intros l2 r1 r2 H2 E H3 H4 E1 E2 Hid. rewrite <- E1, <- E2. f_equal. symmetry. by apply (ci_once db Hinv l l2).
Qed.

Lemma replay_refl r i occurred :
  cp_Kind r = ri_Kind i -> cp_OccurredAt r = occurred -> cp_Ref r = ri_Ref i -> cp_URL r = ri_URL i ->
  cp_DecisionID r = ri_DecisionID i -> changeReplayDiffers r i occurred = None.
Proof.
  intros E1 E2 E3 E4 E5. unfold changeReplayDiffers, Equal. rewrite E1, E2, E3, E4, E5, !bool_decide_eq_true_2, Z.eqb_refl by done. cbn.
  destruct (ri_DecisionID i); [|done]. unfold EqualFold. by rewrite bool_decide_eq_true_2.
Qed.

(** What any successful recording leaves. *)
Lemma recording_leaves db input now random db' r replay :
  RecordChangePhase nfc parses db input now random = Ok (db', r, replay) ->
  exists i, validateRecordChangeInput nfc parses input = Ok i /\ r ∈ ch_rows db' /\ cp_ProjectID r = ri_ProjectID i /\
    identityOf r = (ri_ServiceID i, ri_Source i, ri_ExternalID i) /\ cp_Phase r = ri_Phase i /\
    changeReplayDiffers r i (Truncate (ri_OccurredAt i) changeMicrosecond) = None.
Proof.
  destruct replay; intros H.
  - pose proof (replayed nfc parses _ _ _ _ _ _ H) as ->. revert H. unfold RecordChangePhase.
    destruct (validateRecordChangeInput _ _ _) as [i|]; [|done]. cbn [rbind].
    destruct (refuse_if _ _) as [[]|]; [|done]. cbn [rbind].
    match goal with |- context [if Before ?a ?b || ?c then _ else _] => destruct (Before a b || c) end; [done|]. cbn [rbind].
    destruct (List.find _ _) as [x|] eqn:Ef.
    + destruct (changeReplayDiffers _ _ _) eqn:Ed; [done|]. intros [= ->]. exists i. apply List.find_some in Ef as [Hin Hp].
      apply list_elem_of_In in Hin. unfold changeIdentityRowsTx, sortChangePhases in Hin.
      rewrite (merge_sort_Permutation phase_le), elem_of_filter_b, !andb_true_iff, !bool_decide_eq_true in Hin.
      apply bool_decide_eq_true in Hp. destruct Hin as [Hin [[[E1 E2] E3] E4]]. unfold identityOf. rewrite E1, E3, E4. by split_and!.
    + destruct (admitPhase _ _ _) as [[]|]; [|done]. cbn [rbind].
      destruct (match ri_DecisionID i with Some d => _ | None => _ end) as [[]|]; [|done]. cbn [rbind].
      by destruct (newGateDecisionID _ _).
  - destruct (recorded nfc parses _ _ _ _ _ _ H) as (i & ex & Hval & _ & _ & _ & _ & Hr & ->). exists i. split; [done|].
    split; [cbn; apply elem_of_app; right; apply list_elem_of_singleton; done|]. rewrite Hr. split_and!; try done. by apply replay_refl.
Qed.

Lemma find_phase l r :
  group_shape l -> r ∈ l -> List.find (fun x => bool_decide (cp_Phase x = cp_Phase r)) l = Some r.
Proof.
  intros [|s Hs|t Ht|s t Hs Ht _ _] Hr.
  - by apply not_elem_of_nil in Hr.
  - apply list_elem_of_singleton in Hr as ->. cbn. by rewrite bool_decide_eq_true_2.
  - apply list_elem_of_singleton in Hr as ->. cbn. by rewrite bool_decide_eq_true_2.
  - apply elem_of_cons in Hr as [->|Hr%list_elem_of_singleton]; cbn; [by rewrite bool_decide_eq_true_2|subst r].
    rewrite bool_decide_eq_false_2 by (intros E; by rewrite <- E, Hs in Ht). by rewrite bool_decide_eq_true_2.
Qed.

(** C19: equivalence of a repeated recording: once a phase has been recorded, the same request
    finds it in every later state that still holds it, whatever else was recorded, linked or
    purged in between; it answers with the row as it stands and writes nothing.  Only the age
    bound, measured by the clock of the second call, may refuse it. *)
Theorem recording_twice_is_once db input now random db1 r replay db2 now2 random2
  (Hfirst : RecordChangePhase nfc parses db input now random = Ok (db1, r, replay))
  (Hreach : sys_reachable (change_system nfc parses) db2) (Hkept : r ∈ ch_rows db2) :
  let occurred := Truncate (ri_OccurredAt input) changeMicrosecond in
  RecordChangePhase nfc parses db2 input now2 random2 =
    if Before occurred (Add now2 (- ri_MaxPast input)) || After occurred (Add now2 (ri_MaxFuture input))
    then refuseChange ChangeErrOccurredOutOfBounds "occurred_at" else Ok (db2, r, true).
Proof.
  intros occurred. pose proof (change_reachable_inv nfc parses db2 Hreach) as Hinv.
  destruct (recording_leaves _ _ _ _ _ _ _ Hfirst) as (i & Hval & _ & Hp & Hid & Hph & Hdiff).
  destruct (validated nfc parses _ _ Hval) as (Hi & _). unfold RecordChangePhase. rewrite Hval. cbn [rbind].
  assert ((ri_ProjectID i, ri_ServiceID i) ∈ ch_services db2) as Hs.
  { rewrite <- Hp. injection Hid as <- _ _. by apply Hinv. }
  unfold serviceExistsOn. rewrite bool_decide_eq_true_2 by done. cbn [negb refuse_if rbind].
  assert (Truncate (ri_OccurredAt i) changeMicrosecond = occurred) as -> by by rewrite Hi.
  replace (ri_MaxPast i) with (ri_MaxPast input) by by rewrite Hi. replace (ri_MaxFuture i) with (ri_MaxFuture input) by by rewrite Hi.
  match goal with |- context [if Before ?a ?b || ?c then _ else _] => destruct (Before a b || c) end; [done|]. cbn [rbind].
  rewrite (identity_rows db2 _ _ _ _ Hinv Hs). rewrite <- Hph.
  rewrite (find_phase _ r); [|apply Hinv|by apply elem_of_phasesOf].
  replace (changeReplayDiffers r i occurred) with (@None string); [done|]. rewrite <- Hdiff. by rewrite Hi.
Qed.

(** ** What a correlation links *)

(** functional behaviour of a correlation that is not skipped: the groups it links are
    exactly those of the incident's services whose latest phase, among the phases recorded by
    the opening, lies in the window before it; each is linked at that instant; and if anything
    was linked, running it again changes nothing. *)
Theorem preceding_changes_are_linked db id w noteMax txNow upID db' res i
  (H : LinkPrecedingChanges db id w noteMax txNow upID = Ok (db', res)) (Hi : ch_incidents db !! id = Some i)
  (Hran : co_Skipped res = false) :
  (forall r, latest_in (openUniverse db id i) r -> in_StartedAt i - w <= cp_OccurredAt r <= in_StartedAt i ->
     exists l, l ∈ co_Links res /\ (kl_ServiceID l, kl_Source l, kl_ExternalID l) = identityOf r /\ kl_OccurredAt l = cp_OccurredAt r) /\
  (forall l, l ∈ co_Links res -> exists r, l = linkOf i r /\ linkRow id i txNow r ∈ ch_links db' /\
     latest_in (openUniverse db id i) r /\ in_StartedAt i - w <= cp_OccurredAt r <= in_StartedAt i) /\
  NoDup (map (fun l => (kl_ServiceID l, kl_Source l, kl_ExternalID l)) (co_Links res)) /\
  (co_Links res <> [] -> LinkPrecedingChanges db' id w noteMax txNow upID = Ok (db', skippedCorrelation)).
Proof.
  assert (forall a l, Permutation a (anchorsOf db id i w) -> l ∈ map (linkOf i) a <-> exists r, l = linkOf i r /\ r ∈ anchorsOf db id i w) as Hin.
  { intros a l Hp. rewrite list_elem_of_fmap. by setoid_rewrite Hp. }
  assert (exists anchors, Permutation anchors (anchorsOf db id i w) /\ co_Links res = map (linkOf i) anchors /\
    (forall r, r ∈ anchors -> linkRow id i txNow r ∈ ch_links db') /\
    (anchors <> [] -> LinkPrecedingChanges db' id w noteMax txNow upID = Ok (db', skippedCorrelation))) as (anchors & Hp & Hl & Hrows & Hagain).
  { destruct (linked _ _ _ _ _ _ _ _ H) as [(-> & -> & [Hsk|(i' & Hi' & Ha)])|(i' & anchors & u & Hi' & _ & Hp & Hne & Hu & -> & ->)];
      [congruence| |]; assert (i' = i) as -> by congruence.
    - exists []. rewrite Ha. split_and!; try done. intros r Hr. by apply not_elem_of_nil in Hr.
    - exists anchors. split_and!; try done.
      + intros r Hr. cbn. apply elem_of_app. right. apply list_elem_of_fmap. by exists r.
      + intros _. apply (noted_skips _ _ _ _ _ _ _ _ H). unfold changesNoted. cbn. rewrite existsb_app. cbn. by rewrite Hu, orb_true_r. }
  rewrite Hl. specialize (fun l => Hin anchors l Hp) as Hin'. split_and!.
  - intros r Hr Hw. pose proof (anchorOf_spec (openUniverse db id i) (Add (in_StartedAt i) (- w)) (in_StartedAt i) (identityOf r)) as Ha.
    destruct (anchorOf _ _ _ _) as [a|] eqn:Ea; [|destruct (Ha r Hr eq_refl Hw)]. destruct Ha as ([Hau Ham] & Hid & Haw).
    assert (cp_OccurredAt a = cp_OccurredAt r) as Ho.
    { destruct Hr as [Hru Hrm]. specialize (Ham r Hru ltac:(done)). specialize (Hrm a Hau ltac:(done)). lia. }
    exists (linkOf i a). split; [|by split]. apply Hin'. exists a. split; [done|].
    apply list_elem_of_omap. exists (identityOf r). split; [|done]. apply elem_of_remove_dups, list_elem_of_fmap. exists r. by destruct Hr.
  - intros l (r & -> & Hr)%Hin'. exists r. split; [done|]. split; [apply Hrows; by rewrite Hp|].
    by apply elem_of_anchors in Hr.
  - rewrite map_map. change (NoDup (map identityOf anchors)). rewrite Hp. apply anchors_distinct.
  - intros Hne. apply Hagain. by destruct anchors.
Qed.
End promises.

(** ** Retention *)
Definition goneBy (db : ChangeDB) (cutoff : Time) (keys : list (string * string * string)) (r : ChangePhaseRow) : bool :=
  bool_decide (identityOf r ∈ keys) && stillOld db cutoff (identityOf r).

Lemma stillOld_spec db cutoff k : stillOld db cutoff k = true <-> forall r, r ∈ phasesOf k (ch_rows db) -> cp_OccurredAt r < cutoff.
Proof.
  unfold stillOld. rewrite negb_true_iff, <- not_true_iff_false, existsb_elem. split.
  - intros H r [Hr Hk]%elem_of_phasesOf. destruct (Z.lt_ge_cases (cp_OccurredAt r) cutoff); [done|]. destruct H. exists r. split; [done|].
    rewrite bool_decide_eq_true_2 by done. by apply Z.leb_le.
  - intros H (r & Hr & [Hk Hc]%andb_true_iff). apply bool_decide_eq_true in Hk. apply Z.leb_le in Hc.
    specialize (H r ltac:(by apply elem_of_phasesOf)). lia.
Qed.

Lemma deleted_rows db cutoff keys :
  ch_rows (deleteVictims db cutoff keys).1 = List.filter (fun r => negb (goneBy db cutoff keys r)) (ch_rows db).
Proof. reflexivity. Qed.

Lemma deleted_links db cutoff keys :
  ch_links (deleteVictims db cutoff keys).1
  = List.filter (fun l => negb (existsb (fun r => goneBy db cutoff keys r && bool_decide (cp_ID r = lk_change l)) (ch_rows db))) (ch_links db).
Proof. reflexivity. Qed.

(** safety of retention: the deletion keeps or removes a change as a whole, whatever was
    recorded after its keys were selected: a change that loses a phase was selected, loses all of
    them, and every one of them is older than the cutoff at the moment of the deletion; and a link
    goes exactly when the phase it points to goes. *)
Theorem purge_takes_whole_groups db cutoff keys :
  let db' := (deleteVictims db cutoff keys).1 in
  (forall k, phasesOf k (ch_rows db') = phasesOf k (ch_rows db) \/
     phasesOf k (ch_rows db') = [] /\ k ∈ keys /\ forall r, r ∈ phasesOf k (ch_rows db) -> cp_OccurredAt r < cutoff) /\
  (forall l, l ∈ ch_links db' <->
     l ∈ ch_links db /\ forall r, r ∈ ch_rows db -> cp_ID r = lk_change l -> r ∈ ch_rows db').
Proof.
  cbv zeta. rewrite deleted_rows, deleted_links. split.
  - intros k. destruct (decide (k ∈ keys /\ stillOld db cutoff k = true)) as [[Hk Ho]|Hkeep].
    + right. split_and!; [|done|by apply stillOld_spec]. apply phasesOf_drop. intros r _ <-. unfold goneBy.
      by rewrite bool_decide_eq_true_2, Ho.
    + left. apply phasesOf_keep. intros r _ <-. apply negb_true_iff, not_true_iff_false. intros Hg. destruct Hkeep.
      unfold goneBy in Hg. by rewrite andb_true_iff, bool_decide_eq_true in Hg.
  - intros l. rewrite elem_of_filter_b, negb_true_iff, <- not_true_iff_false, existsb_elem. split; intros [Hl H]; (split; [done|]).
    + intros r Hr E. apply elem_of_filter_b. split; [done|]. apply negb_true_iff, not_true_iff_false. intros Hg. apply H.
      exists r. split; [done|]. by rewrite Hg, bool_decide_eq_true_2.
    + intros (r & Hr & [Hg E]%andb_true_iff). apply bool_decide_eq_true in E. specialize (H r Hr E).
      apply elem_of_filter_b in H as [_ H]. by rewrite Hg in H.
Qed.

Lemma latestOf_spec db k t :
  latestOf db k = Some t -> phasesOf k (ch_rows db) <> [] /\
  (forall r, r ∈ phasesOf k (ch_rows db) -> cp_OccurredAt r <= t) /\ exists r, r ∈ phasesOf k (ch_rows db) /\ cp_OccurredAt r = t.
Proof.
  unfold latestOf. fold (phasesOf k (ch_rows db)). destruct (phasesOf k (ch_rows db)) as [|r0 rest]; [done|]. intros [= <-].
  destruct (maxTime_spec (cp_OccurredAt r0) (map cp_OccurredAt rest)) as (H1 & H2 & H3). split_and!; [done| |].
  - intros r [->|Hr]%elem_of_cons; [done|]. apply H2, list_elem_of_fmap. by exists r.
  - destruct H3 as [H3|(r & E & Hr)%list_elem_of_fmap]; [exists r0; split; [left|done]|exists r; split; [by right|done]].
Qed.

(** The keys a purge chooses from. *)
Definition oldKeys (db : ChangeDB) (cutoff : Time) : list (string * string * string) :=
  List.filter (fun k => match latestOf db k with Some t => t <? cutoff | None => false end) (remove_dups (map identityOf (ch_rows db))).

Lemma elem_of_oldKeys db cutoff k :
  k ∈ oldKeys db cutoff <-> phasesOf k (ch_rows db) <> [] /\ stillOld db cutoff k = true.
Proof.
  unfold oldKeys. rewrite elem_of_filter_b, elem_of_remove_dups, stillOld_spec, list_elem_of_fmap. split.
  - intros [(r & -> & Hr) H]. destruct (latestOf db (identityOf r)) as [t|] eqn:E; [|done]. apply Z.ltb_lt in H.
    destruct (latestOf_spec _ _ _ E) as (H1 & H2 & _). split; [done|]. intros x Hx. specialize (H2 x Hx). lia.
  - intros [Hne Hold]. destruct (phasesOf k (ch_rows db)) as [|r0 rest] eqn:E; [done|].
    assert (r0 ∈ phasesOf k (ch_rows db)) as [Hr0 Hk0]%elem_of_phasesOf by (rewrite E; left). split; [by exists r0|].
    destruct (latestOf db k) as [t|] eqn:El; [|unfold latestOf in El; fold (phasesOf k (ch_rows db)) in El; by rewrite E in El].
    destruct (latestOf_spec _ _ _ El) as (_ & _ & r & Hr & <-). apply Z.ltb_lt, Hold. by rewrite <- E.
Qed.

Section batches.
Context (text_le : string -> string -> Prop) `{!RelDecision text_le}.

(** A purge's deletion takes exactly the keys its selection chose. *)
Lemma selected db cutoff batch :
  let keys := selectVictims text_le db cutoff batch in
  (forall k, k ∈ keys -> k ∈ oldKeys db cutoff) /\ NoDup keys /\
  length keys = Nat.min batch (length (oldKeys db cutoff)) /\
  Permutation (remove_dups (map identityOf (List.filter (goneBy db cutoff keys) (ch_rows db)))) keys.
Proof.
  intros keys. set (sorted := merge_sort (key_age_le text_le db) (oldKeys db cutoff)).
  assert (Permutation sorted (oldKeys db cutoff)) as Hp by apply (merge_sort_Permutation (key_age_le text_le db)).
  assert (keys = firstn batch sorted) as Hk by reflexivity.
  assert (forall k, k ∈ keys -> k ∈ oldKeys db cutoff) as Hin.
  { intros k Hx. rewrite Hk in Hx. rewrite <- Hp. rewrite <- (List.firstn_skipn batch sorted). apply elem_of_app. by left. }
  assert (NoDup keys) as Hnd.
  { assert (NoDup sorted) as H.
    { rewrite Hp. unfold oldKeys. rewrite <- (map_id (List.filter _ _)). apply NoDup_map_filter. rewrite map_id. apply NoDup_remove_dups. }
    rewrite <- (List.firstn_skipn batch sorted) in H. apply list.NoDup_app in H as [H _]. by rewrite Hk. }
  split_and!; [done|done|by rewrite Hk, length_firstn, Hp|].
  apply NoDup_Permutation; [apply NoDup_remove_dups|done|]. intros k. rewrite elem_of_remove_dups, list_elem_of_fmap. split.
  - intros (r & -> & [_ Hg]%elem_of_filter_b). unfold goneBy in Hg. by apply andb_true_iff in Hg as [?%bool_decide_eq_true _].
  - intros Hx. destruct (proj1 (elem_of_oldKeys db cutoff k) (Hin k Hx)) as [Hne Ho].
    destruct (phasesOf k (ch_rows db)) as [|r rest] eqn:E; [done|].
    assert (r ∈ phasesOf k (ch_rows db)) as [Hr Hi]%elem_of_phasesOf by (rewrite E; left). exists r. split; [done|].
    apply elem_of_filter_b. split; [done|]. unfold goneBy. by rewrite Hi, bool_decide_eq_true_2, Ho.
Qed.

Lemma length_remove_dups_le (l : list (string * string * string)) : (length (remove_dups l) <= length l)%nat.
Proof. induction l as [|x l IH]; [done|]. cbn. case_decide; cbn; lia. Qed.

(** The old changes are the removed ones and those still to be removed. *)
Lemma old_split db cutoff keys :
  (forall k, k ∈ keys -> k ∈ oldKeys db cutoff) -> NoDup keys ->
  Permutation (oldKeys db cutoff) (keys ++ oldKeys (deleteVictims db cutoff keys).1 cutoff).
Proof.
  intros Hin Hnd.
  assert (forall x, NoDup (oldKeys x cutoff)) as Hno.
  { intros x. unfold oldKeys. rewrite <- (map_id (List.filter _ _)). apply NoDup_map_filter. rewrite map_id. apply NoDup_remove_dups. }
  assert (forall k, k ∈ keys -> phasesOf k (ch_rows (deleteVictims db cutoff keys).1) = []) as Hgone.
  { intros k Hk. rewrite deleted_rows. apply phasesOf_drop. intros r _ <-. unfold goneBy. rewrite bool_decide_eq_true_2 by done.
    by destruct (proj1 (elem_of_oldKeys db cutoff (identityOf r)) (Hin _ Hk)) as [_ ->]. }
  assert (forall k, k ∉ keys -> phasesOf k (ch_rows (deleteVictims db cutoff keys).1) = phasesOf k (ch_rows db)) as Hkept.
  { intros k Hk. rewrite deleted_rows. apply phasesOf_keep. intros r _ <-. unfold goneBy. by rewrite bool_decide_eq_false_2. }
  apply NoDup_Permutation; [apply Hno|apply list.NoDup_app; split_and!; [done| |apply Hno]|].
  - intros k Hk [Hne _]%elem_of_oldKeys. by rewrite Hgone in Hne.
  - intros k. rewrite elem_of_app, !elem_of_oldKeys, !stillOld_spec. destruct (decide (k ∈ keys)) as [Hk|Hk].
    + specialize (Hin k Hk). rewrite elem_of_oldKeys, stillOld_spec in Hin. tauto.
    + rewrite Hkept by done. tauto.
Qed.

(** termination of retention by batches: one purge removes [min batch old] whole changes,
    where [old] counts the changes whose every phase is before the cutoff, and reports that
    number; exactly that many remain to be removed, so a purge that reports fewer than its batch
    has left none, and repeating it [old / batch + 1] times reaches the end. *)
Theorem purge_batches_terminate db cutoff batch db' groups rows
  (H : PurgeChangeGroups text_le db cutoff batch = Ok (db', (groups, rows))) :
  groups = Z.min batch (Z.of_nat (length (oldKeys db cutoff))) /\
  Z.of_nat (length (oldKeys db' cutoff)) = Z.of_nat (length (oldKeys db cutoff)) - groups /\
  Z.of_nat (length (ch_rows db')) = Z.of_nat (length (ch_rows db)) - rows /\ groups <= rows.
Proof.
  unfold PurgeChangeGroups in H. destruct (Z.ltb_spec batch 1); [done|]. cbn [rbind] in H. set (keys := selectVictims text_le db cutoff (Z.to_nat batch)) in H.
  destruct (selected db cutoff (Z.to_nat batch)) as (Hin & Hnd & Hlen & Hp). fold keys in Hin, Hnd, Hlen, Hp.
  pose proof (old_split db cutoff keys Hin Hnd) as Hsplit.
  pose proof (List.filter_length (goneBy db cutoff keys) (ch_rows db)) as Hrows. rewrite <- deleted_rows in Hrows.
  pose proof (length_remove_dups_le (map identityOf (List.filter (goneBy db cutoff keys) (ch_rows db)))) as Hle.
  rewrite Hp, length_map in Hle. apply Permutation_length in Hsplit. rewrite length_app in Hsplit.
  assert (groups = Z.of_nat (length keys) /\ rows = Z.of_nat (length (List.filter (goneBy db cutoff keys) (ch_rows db))) /\
          db' = (deleteVictims db cutoff keys).1) as (-> & -> & ->).
  { rewrite <- (Permutation_length Hp). injection H as <- <- <-. done. }
  lia.
Qed.
End batches.

(** ** A run: a deploy starts and succeeds, an incident opens three minutes later and is
    correlated, and the record ages out *)
Module Sample.
Definition open_text : string -> bool := fun _ => true.

Definition t0 : Time := unixEpoch + 1700000000 * Second.
Definition empty : ChangeDB :=
  {| ch_services := [("p", "s")]; ch_rows := []; ch_decisions := []; ch_incidents := ∅; ch_updates := []; ch_roots := []; ch_links := [] |}.

Definition input (phase : ChangePhase) (at_ : Time) : RecordChangeInput :=
  {| ri_ProjectID := "p"; ri_ServiceID := "s"; ri_Source := "ci"; ri_ExternalID := "run-7"; ri_Kind := ChangeKindDeploy;
     ri_Phase := phase; ri_OccurredAt := at_; ri_Ref := "v1.2"; ri_URL := ""; ri_DecisionID := None;
     ri_Actor := {| ga_ActorUserID := ""; ga_ViaToken := true; ga_Label := "token:ci" |}; ri_MaxPast := Hour; ri_MaxFuture := Minute |}.

Definition seed (x : Z) : bytes := repeat x 16.

Definition recordedIn (db : ChangeDB) (i : RecordChangeInput) (now : Time) (random : bytes) : ChangeDB * option ChangePhaseRow :=
  match RecordChangePhase open_text open_text db i now random with Ok (db', r, _) => (db', Some r) | Err _ => (db, None) end.

Definition started : ChangeDB := (recordedIn empty (input ChangePhaseStarted t0) (t0 + Second) (seed 1)).1.
Definition succeeded : ChangeDB := (recordedIn started (input ChangePhaseSucceeded (t0 + Minute)) (t0 + 61 * Second) (seed 2)).1.

Definition incident : Incident :=
  {| in_ID := "i"; in_ProjectID := "p"; in_MonitorID := ""; in_ServiceID := "s"; in_ExternalKey := ""; in_Title := "s is down";
     in_Status := IncidentInvestigating; in_Impact := ImpactMajor; in_Source := SourceAuto; in_StartedAt := t0 + 4 * Minute;
     in_ResolvedAt := None; in_AcknowledgedAt := None; in_AcknowledgedBy := ""; in_AcknowledgedByName := "";
     in_EscalationStep := 0; in_LastEscalatedAt := None; in_CreatedAt := t0 + 4 * Minute; in_UpdatedAt := t0 + 4 * Minute |}.

Definition opened : ChangeDB :=
  {| ch_services := ch_services succeeded; ch_rows := ch_rows succeeded; ch_decisions := []; ch_incidents := {["i" := incident]};
     ch_updates := []; ch_roots := []; ch_links := [] |}.

Definition correlated : ChangeDB :=
  match LinkPrecedingChanges opened "i" Hour 5 (t0 + 5 * Minute) "u" with Ok (db, _) => db | Err _ => opened end.

Lemma reached_started : sys_reachable (change_system open_text open_text) started.
Proof.
  exists empty. split.
  - split_and!; [done|done|]. intros p1 p2 s [= -> ->]%list_elem_of_singleton [= ->]%list_elem_of_singleton. done.
  - eapply rtc_once, (cs_record open_text open_text empty (input ChangePhaseStarted t0) (t0 + Second) (seed 1)); [vm_compute; reflexivity|].
    vm_compute. apply not_elem_of_nil.
Qed.

Lemma reached_succeeded : sys_reachable (change_system open_text open_text) succeeded.
Proof.
  destruct reached_started as (s0 & H0 & Hs). exists s0. split; [done|]. eapply rtc_r; [exact Hs|].
  eapply (cs_record open_text open_text started (input ChangePhaseSucceeded (t0 + Minute)) (t0 + 61 * Second) (seed 2)); [vm_compute; reflexivity|].
  apply (bool_decide_unpack _). vm_compute. exact I.
Qed.

Lemma reached_correlated : sys_reachable (change_system open_text open_text) correlated.
Proof.
  destruct reached_succeeded as (s0 & H0 & Hs). exists s0. split; [done|]. eapply rtc_r; [eapply rtc_r; [exact Hs|]|].
  - apply (cs_other open_text open_text succeeded opened). split.
    + done.
    + vm_compute. reflexivity.
    + intros p1 p2 s H1 H2. apply list_elem_of_singleton in H1 as [= -> ->]. by apply list_elem_of_singleton in H2 as [= ->].
    + intros r Hr. assert (Forall (fun r => (cp_ProjectID r, cp_ServiceID r) = ("p", "s")) (ch_rows succeeded)) as Hall.
      { apply (bool_decide_unpack _). vm_compute. exact I. }
      rewrite List.Forall_forall in Hall. apply list_elem_of_In in Hr. rewrite (Hall r Hr). left.
    + intros id i' _. left. apply lookup_empty.
  - eapply (cs_link open_text open_text opened "i" Hour 5 (t0 + 5 * Minute) "u"). vm_compute. reflexivity.
Qed.
End Sample.

Lemma cursor_roundtrip_witness :
  let c := {| cc_LatestOccurredAt := Sample.t0; cc_Source := "ci"; cc_ExternalID := "run:7" |} in
  DecodeChangeCursor Sample.open_text (Encode c) = Ok c.
Proof.
  intros c. apply (cursor_roundtrip Sample.open_text c "run:7").
  - exists (1700000000 * 1000000). vm_compute. reflexivity.
  - vm_compute. split; discriminate.
  - vm_compute. reflexivity.
  - vm_compute. reflexivity.
Defined.

#[global] Instance string_le_order : TotalOrder String.le.
Proof.
  split; [apply _|]. intros x y. destruct (decide (x = y)) as [->|Hne]; [by right; left|]. unfold strict.
  destruct (total String.le x y) as [H|H]; [left|right; right]; (split; [done|]; intros H'; apply Hne; by apply (anti_symm String.le)).
Qed.

Lemma timeline_is_read_once_witness :
  exists keys, readTimeline String.le Sample.succeeded "p" "s" Sample.t0 (Sample.t0 + Hour) [] None 1 (length keys) None
               = Ok (map (groupWith Sample.succeeded "p" "s") keys).
Proof.
  destruct (timeline_is_read_once String.le Sample.succeeded "p" "s" Sample.t0 (Sample.t0 + Hour) [] None 1 _ eq_refl) as (keys & H & _).
  by exists keys.
Defined.

Lemma change_is_one_story_witness : group_shape (changeIdentityRowsTx Sample.succeeded "p" "s" "ci" "run-7").
Proof.
  apply (change_is_one_story Sample.open_text Sample.open_text Sample.succeeded "p" "s" "ci" "run-7" Sample.reached_succeeded).
  vm_compute. left.
Defined.

Example links_are_made : map lk_lagSeconds (ch_links Sample.correlated) = [180].
Proof. vm_compute. reflexivity. Qed.

Lemma links_precede_the_incident_witness : exists l, l ∈ ch_links Sample.correlated /\ link_ok Sample.correlated l.
Proof.
  assert (exists l, List.head (ch_links Sample.correlated) = Some l) as [l Hl] by (vm_compute; by eexists).
  exists l. assert (l ∈ ch_links Sample.correlated) as Hin by (destruct (ch_links Sample.correlated); [done|injection Hl as ->; left]).
  split; [exact Hin|]. apply (links_precede_the_incident Sample.open_text Sample.open_text Sample.correlated l Sample.reached_correlated Hin).
Defined.

Lemma recording_twice_is_once_witness :
  exists r, RecordChangePhase Sample.open_text Sample.open_text Sample.succeeded (Sample.input ChangePhaseStarted Sample.t0)
              (Sample.t0 + 2 * Minute) (Sample.seed 3) = Ok (Sample.succeeded, r, true).
Proof.
  destruct (RecordChangePhase Sample.open_text Sample.open_text Sample.empty (Sample.input ChangePhaseStarted Sample.t0)
              (Sample.t0 + Second) (Sample.seed 1)) as [[[db1 r] replay]|e] eqn:E; [|by vm_compute in E].
  exists r. assert (r ∈ ch_rows Sample.succeeded) as Hin.
  { vm_compute in E. injection E as _ <- _. vm_compute. left. }
  rewrite (recording_twice_is_once Sample.open_text Sample.open_text _ _ _ _ _ r _ _ (Sample.t0 + 2 * Minute) (Sample.seed 3) E
             Sample.reached_succeeded Hin). vm_compute. reflexivity.
Defined.

Lemma preceding_changes_are_linked_witness :
  LinkPrecedingChanges Sample.correlated "i" Hour 5 (Sample.t0 + 5 * Minute) "u" = Ok (Sample.correlated, skippedCorrelation).
Proof.
  destruct (LinkPrecedingChanges Sample.opened "i" Hour 5 (Sample.t0 + 5 * Minute) "u") as [[db' res]|e] eqn:E; [|by vm_compute in E].
  assert (db' = Sample.correlated) as -> by (unfold Sample.correlated; by rewrite E).
  apply (preceding_changes_are_linked Sample.opened "i" Hour 5 (Sample.t0 + 5 * Minute) "u" Sample.correlated res Sample.incident E).
  - vm_compute. reflexivity.
  - vm_compute in E. injection E as <-. reflexivity.
  - vm_compute in E. injection E as <-. discriminate.
Defined.

Lemma purge_batches_terminate_witness :
  exists db' groups rows, PurgeChangeGroups String.le Sample.correlated (Sample.t0 + Hour) 10 = Ok (db', (groups, rows)) /\ groups <= rows.
Proof.
  destruct (PurgeChangeGroups String.le Sample.correlated (Sample.t0 + Hour) 10) as [[db' [groups rows]]|e] eqn:E; [|by vm_compute in E].
  exists db', groups, rows. split; [reflexivity|].
  apply (purge_batches_terminate String.le Sample.correlated (Sample.t0 + Hour) 10 db' groups rows E).
Defined.
