(* ===== verification/CompareFacts.v ===== *)
(** * What the comparison around a change promises

    A side of the comparison, computed from the hourly cells of the series, says what the sealed
    bucket rows of its range say. *)

From S2P Require Import Prelude ServicePolicy GoFloat Sla Report GoString Gate GateStore Incidents GoBase64 ChangeText Changes ChangeCompare.

(** ** Totals as a monoid *)
Definition wrapDurations (d : ReliabilityDurations) : ReliabilityDurations :=
  {| GoodUs := wrap64 (GoodUs d); BadUs := wrap64 (BadUs d); UnknownUs := wrap64 (UnknownUs d); ExcludedUs := wrap64 (ExcludedUs d);
     HealthyUs := wrap64 (HealthyUs d); DegradedUs := wrap64 (DegradedUs d); DownUs := wrap64 (DownUs d);
     HealthUnknownUs := wrap64 (HealthUnknownUs d) |}.

Definition sidePlus (a b : sideSums) : sideSums :=
  {| ss_d := sqlSum (ss_d a) (ss_d b); ss_buckets := ss_buckets a + ss_buckets b;
     ss_epochs := ss_epochs a ∪ ss_epochs b; ss_revisions := ss_revisions a ∪ ss_revisions b |}.

Definition wrapSums (s : sideSums) : sideSums :=
  {| ss_d := wrapDurations (ss_d s); ss_buckets := wrap64 (ss_buckets s); ss_epochs := ss_epochs s; ss_revisions := ss_revisions s |}.

Lemma sqlSum_comm a b : sqlSum a b = sqlSum b a.
Proof. unfold sqlSum. f_equal; lia. Qed.
Lemma sqlSum_assoc a b c : sqlSum a (sqlSum b c) = sqlSum (sqlSum a b) c.
Proof. unfold sqlSum. cbn. f_equal; lia. Qed.

Lemma sidePlus_comm a b : sidePlus a b = sidePlus b a.
Proof. unfold sidePlus. f_equal; [apply sqlSum_comm|lia|set_solver|set_solver]. Qed.
Lemma sidePlus_assoc a b c : sidePlus a (sidePlus b c) = sidePlus (sidePlus a b) c.
Proof. unfold sidePlus. cbn. f_equal; [apply sqlSum_assoc|lia|set_solver|set_solver]. Qed.
Lemma sidePlus_zero a : sidePlus a noSums = a.
Proof.
  destruct a as [[] b e r]. unfold sidePlus, noSums, sqlSum. cbn. rewrite !Z.add_0_r. f_equal; set_solver.
Qed.

Lemma addDurations_wrap a b : addDurations (wrapDurations a) b = wrapDurations (sqlSum a b).
Proof. unfold addDurations, wrapDurations, sqlSum. cbn. by rewrite !add64_wrap_l. Qed.

(** What a bucket row, and a cell of the rollup, count for on a side. *)
Definition rowSums (b : BucketRow) : sideSums :=
  if bk_sealed b then {| ss_d := bk_d b; ss_buckets := 1; ss_epochs := {[bk_epochID b]}; ss_revisions := {[bk_revisionID b]} |}
  else noSums.

Definition pointSums (p : ReliabilitySeriesPoint) : sideSums :=
  if sp_Provisional p then noSums
  else {| ss_d := sp_Durations p; ss_buckets := sp_Buckets p; ss_epochs := {[sp_EpochID p]}; ss_revisions := {[sp_RevisionID p]} |}.

Definition total {A} (f : A -> sideSums) (l : list A) : sideSums := foldr (fun x acc => sidePlus (f x) acc) noSums l.

Lemma total_Permutation {A} (f : A -> sideSums) l1 l2 : Permutation l1 l2 -> total f l1 = total f l2.
Proof.
  induction 1 as [|x l1 l2 _ IH|x y l|l1 l2 l3 _ IH1 _ IH2]; cbn; [done|by f_equal| |congruence].
  by rewrite !sidePlus_assoc, (sidePlus_comm (f x)).
Qed.

Lemma total_pointRow step points b : total pointSums (pointRow step points b) = sidePlus (rowSums b) (total pointSums points).
Proof.
  assert (forall x y z, sidePlus x (sidePlus y z) = sidePlus y (sidePlus x z)) as Hswap.
  { intros x y z. by rewrite !sidePlus_assoc, (sidePlus_comm x). }
  induction points as [|p rest IH]; cbn [pointRow total foldr].
  - f_equal. unfold pointSums, rowSums, pointFrom. cbn. by destruct (bk_sealed b).
  - destruct (samePoint step b p) eqn:E; cbn [total foldr]; [|change (foldr _ noSums ?l) with (total pointSums l); by rewrite IH, Hswap].
    rewrite sidePlus_assoc. f_equal. unfold samePoint in E. rewrite !andb_true_iff, !bool_decide_eq_true, Bool.eqb_true_iff in E.
    destruct E as [[[_ E1] E2] E3]. unfold pointSums, rowSums, addToPoint. cbn. rewrite E3. destruct (bk_sealed b); cbn; [|by rewrite sidePlus_zero].
    unfold sidePlus. cbn. rewrite E1, E2. f_equal; [apply sqlSum_comm|lia|set_solver|set_solver].
Qed.

(** The rollup neither loses nor mixes a row. *)
Lemma total_rollup rows from to step :
  total pointSums (reliabilityStepRollupTx rows from to step) = total rowSums (stepRows rows from to).
Proof.
  unfold reliabilityStepRollupTx. rewrite (total_Permutation _ _ _ (merge_sort_Permutation point_le _)).
  assert (forall l pts, total pointSums (foldl (pointRow step) pts l) = sidePlus (total rowSums l) (total pointSums pts)) as H.
  { induction l as [|b l IH]; intros pts; cbn [foldl].
    - cbn. by rewrite sidePlus_comm, sidePlus_zero.
    - rewrite IH, total_pointRow. cbn [total foldr]. by rewrite !sidePlus_assoc, (sidePlus_comm (rowSums b)). }
  by rewrite H, sidePlus_zero.
Qed.

Lemma sumSide_total points : sumSide points = wrapSums (total pointSums points).
Proof.
  unfold sumSide. assert (forall s, foldl sideStep (wrapSums s) points = wrapSums (sidePlus s (total pointSums points))) as H.
  { induction points as [|p l IH]; intros s; cbn [foldl total foldr]; [by rewrite sidePlus_zero|].
    rewrite sidePlus_assoc, <- IH. f_equal. unfold sideStep, pointSums. destruct (sp_Provisional p); [by rewrite sidePlus_zero|].
    unfold wrapSums. cbn. rewrite addDurations_wrap, add64_wrap_l. f_equal; set_solver. }
  specialize (H noSums). by rewrite (sidePlus_comm noSums), sidePlus_zero in H.
Qed.

(** ** The specification of a side *)
Definition sealedRows (rows : ReportRows) (from to : Time) : list BucketRow := List.filter bk_sealed (stepRows rows from to).

Definition totalDurations (bs : list BucketRow) : ReliabilityDurations :=
  foldr (fun b acc => sqlSum (bk_d b) acc) noDurations bs.

Definition oneDefinition (bs : list BucketRow) : Prop :=
  forall b1 b2, b1 ∈ bs -> b2 ∈ bs -> bk_epochID b1 = bk_epochID b2 /\ bk_revisionID b1 = bk_revisionID b2.

(** A side from the bucket rows themselves: the first question that has no answer withholds. *)
Inductive side_says (rows : ReportRows) (from to era : Time) : option Time -> ChangeCompareSide -> Prop :=
| says_nothing_sealed : side_says rows from to era None (CompareWithheld from to CompareWithheldNoFacts None)
| says_pending s : s < to -> side_says rows from to era (Some s) (CompareWithheld from to CompareWithheldPending (Some s))
| says_no_facts s : to <= s -> sealedRows rows from to = [] ->
    side_says rows from to era (Some s) (CompareWithheld from to CompareWithheldNoFacts (Some s))
| says_changed s b1 b2 : to <= s -> b1 ∈ sealedRows rows from to -> b2 ∈ sealedRows rows from to ->
    bk_epochID b1 <> bk_epochID b2 \/ bk_revisionID b1 <> bk_revisionID b2 ->
    side_says rows from to era (Some s) (CompareWithheld from to CompareWithheldDefinitionChanged (Some s))
| says_verdict s bs d v : to <= s -> bs = sealedRows rows from to -> bs <> [] -> oneDefinition bs -> d = totalDurations bs ->
    v = decideServiceWindow (wrapDurations d) (Z.of_nat (length bs)) (Z.quot (Sub to from) CanonicalBucket) 1 from era ->
    side_says rows from to era (Some s)
      match v_Availability v with
      | None => CompareWithheld from to (CompareWithheldUndecidable (v_Reason v)) (Some s)
      | Some a => CompareFigure from to
          {| cf_Availability := a; cf_GoodSeconds := microSeconds (wrap64 (GoodUs d)); cf_BadSeconds := microSeconds (wrap64 (BadUs d));
             cf_UnknownSeconds := microSeconds (wrap64 (UnknownUs d)); cf_ExcludedSeconds := microSeconds (wrap64 (ExcludedUs d));
             cf_Buckets := Z.of_nat (length bs); cf_Durations := wrapDurations d |}
      end.

Lemma total_rows l :
  let s := List.filter bk_sealed l in
  total rowSums l = {| ss_d := totalDurations s; ss_buckets := Z.of_nat (length s); ss_epochs := list_to_set (map bk_epochID s);
                       ss_revisions := list_to_set (map bk_revisionID s) |}.
Proof.
  induction l as [|b l IH]; [done|]. cbn [total foldr List.filter]. change (foldr _ noSums l) with (total rowSums l). rewrite IH.
  unfold rowSums at 1. destruct (bk_sealed b); [|by rewrite sidePlus_comm, sidePlus_zero].
  unfold sidePlus. cbn [ss_d ss_buckets ss_epochs ss_revisions length map list_to_set totalDurations foldr].
  f_equal. lia.
Qed.

(** More than one value of a field. *)
Lemma several_values (f : BucketRow -> string) bs :
  (1 <? size (list_to_set (map f bs) : gset string))%nat = true <-> exists b1 b2, b1 ∈ bs /\ b2 ∈ bs /\ f b1 <> f b2.
Proof.
  rewrite Nat.ltb_lt. split.
  - intros H. destruct bs as [|b0 rest]; [cbn in H; rewrite size_empty in H; lia|].
    destruct (List.find (fun b => negb (bool_decide (f b = f b0))) (b0 :: rest)) as [b|] eqn:E.
    + apply List.find_some in E as [Hb Hne]. apply list_elem_of_In in Hb. apply negb_true_iff, bool_decide_eq_false in Hne.
      exists b, b0. split_and!; [done|left|done].
    + exfalso. assert (list_to_set (map f (b0 :: rest)) ⊆ ({[f b0]} : gset string)) as Hsub.
      { intros x Hx. apply elem_of_list_to_set, list_elem_of_fmap in Hx as (b & -> & Hb). apply list_elem_of_In in Hb.
        pose proof (List.find_none _ _ E b Hb) as Hn. cbv beta in Hn. apply negb_false_iff, bool_decide_eq_true in Hn. set_solver. }
      apply subseteq_size in Hsub. rewrite size_singleton in Hsub. lia.
  - intros (b1 & b2 & H1 & H2 & Hne). assert ({[f b1; f b2]} ⊆ (list_to_set (map f bs) : gset string)) as Hsub.
    { intros x [->%elem_of_singleton| ->%elem_of_singleton]%elem_of_union; apply elem_of_list_to_set, list_elem_of_fmap; by eexists. }
    apply subseteq_size in Hsub. rewrite size_union, !size_singleton in Hsub by set_solver. lia.
Qed.

(** C24: refinement of the comparison to the record: a side computed from the hourly cells of the
    series says exactly what the sealed bucket rows of its range say.  Nothing is stated of time
    beyond the watermark, of no facts, or across two definitions; otherwise the service window's
    own verdict decides over the exact sums of those rows, and provisional rows never enter. *)
Theorem comparison_refines_the_record rows from to era sealed
  (Hcount : Z.of_nat (length (sealedRows rows from to)) <= int64_max) :
  side_says rows from to era sealed (compareSideTx rows from to era sealed).
Proof.
  unfold compareSideTx. destruct sealed as [s|]; [|constructor]. unfold After. destruct (Z.ltb_spec s to) as [Hs|Hs]; [by constructor|].
  cbv zeta. rewrite sumSide_total, total_rollup, total_rows. fold (sealedRows rows from to). set (bs := sealedRows rows from to) in *.
  cbn [wrapSums ss_d ss_buckets ss_epochs ss_revisions]. rewrite wrap64_id by (unfold int64_min; lia).
  destruct (Z.eqb_spec (Z.of_nat (length bs)) 0) as [Hz|Hz]; [apply says_no_facts; [done|apply nil_length_inv; unfold bs in *; lia]|].
  pose proof (several_values bk_epochID bs) as He. pose proof (several_values bk_revisionID bs) as Hr.
  destruct (1 <? size (list_to_set (map bk_epochID bs)))%nat.
  { destruct (proj1 He eq_refl) as (b1 & b2 & H1 & H2 & Hne). apply (says_changed rows from to era s b1 b2); try done. by left. }
  destruct (1 <? size (list_to_set (map bk_revisionID bs)))%nat.
  { destruct (proj1 Hr eq_refl) as (b1 & b2 & H1 & H2 & Hne). apply (says_changed rows from to era s b1 b2); try done. by right. }
  cbn [orb]. apply (says_verdict rows from to era s bs (totalDurations bs) _ Hs); try done.
  - intros E. by rewrite E in Hz.
  - intros b1 b2 H1 H2. split; destruct (decide (bk_epochID b1 = bk_epochID b2)), (decide (bk_revisionID b1 = bk_revisionID b2)); try done;
      exfalso; first [assert (false = true) by (apply He; by exists b1, b2)|assert (false = true) by (apply Hr; by exists b1, b2)]; done.
Qed.

Module Sample.
Definition bucket (i : Z) : BucketRow :=
  {| bk_start := unixEpoch + i * CanonicalBucket; bk_sealed := true; bk_epochID := "e"; bk_epochSeq := 1; bk_revisionID := "r";
     bk_revision := 1;
     bk_d := {| GoodUs := 50000000; BadUs := 10000000; UnknownUs := 0; ExcludedUs := 0; HealthyUs := 50000000; DegradedUs := 0;
                DownUs := 10000000; HealthUnknownUs := 0 |} |}.

Definition rows : ReportRows :=
  {| rr_materialization := Some {| mat_era := unixEpoch; mat_sealed := Some (unixEpoch + Hour); mat_retractedAt := None; mat_retractedTo := None |};
     rr_owned := true; rr_sliMembers := 1; rr_target := fun _ => None; rr_buckets := map bucket (seqZ 0 20); rr_revision1 := None;
     rr_repairs := [] |}.
End Sample.

Lemma comparison_refines_the_record_witness :
  side_says Sample.rows unixEpoch (unixEpoch + 15 * Minute) unixEpoch (Some (unixEpoch + Hour))
    (compareSideTx Sample.rows unixEpoch (unixEpoch + 15 * Minute) unixEpoch (Some (unixEpoch + Hour))).
Proof. apply (comparison_refines_the_record Sample.rows). vm_compute. discriminate. Defined.

(** Fifteen sealed minutes, each five sixths good. *)
Example fifteen_minutes :
  match compareSideTx Sample.rows unixEpoch (unixEpoch + 15 * Minute) unixEpoch (Some (unixEpoch + Hour)) with
  | CompareFigure _ _ f => (cf_Buckets f, GoodUs (cf_Durations f), BadUs (cf_Durations f)) = (15, 750000000, 150000000)
  | CompareWithheld _ _ _ _ => False
  end.
Proof. vm_compute. reflexivity. Qed.
