(* ===== verification/ServiceGraph.v ===== *)
(** * The graph of services
    ([internal/store/servicegraph.go]; the create and the delete of
    [internal/store/services.go] that touch it; migration 00080)

    Which service depends on which: the edit of a service's direct dependencies under its own
    token, with the checks that keep every chain short, the creation of a service with its
    edges, and the deletion that a file-owned dependent prevents.  All of them hold the
    project's graph lock, so each is one step.  A recursive query is its levels: only a
    level's nodes matter to what is asked of it.  Identifiers are the canonical texts of
    uuids; texts are ordered bytewise, as the C collation orders them. *)

From S2P Require Import Prelude GoString Dependencies.

(** ** Rows *)

(** What the graph reads of [services], with the provider of [managed_services]. *)
Record GraphService := {
  gs_project : string; gs_slug : string; gs_name : string; gs_generation : Z; gs_provider : option string;
}.

Record EdgeRow := { er_child : string; er_parent : string; er_project : string; er_createdBy : string }.

Record GraphActor := { act_UserID : string; act_ViaToken : bool; act_Label : string }.

Record GraphAudit := { gt_project : string; gt_actor : option string; gt_viaToken : bool; gt_action : string; gt_target : string }.

(** [sg_policies] and [sg_schedules]: the routing rows an owner refers to, with their project. *)
Record GraphDB := {
  sg_services : gmap string GraphService;
  sg_edges : list EdgeRow;
  sg_audit : list GraphAudit;
  sg_policies : list (string * string);
  sg_schedules : list (string * string);
}.

Inductive GraphError :=
| ErrServiceGraphCycle | ErrServiceGraphForeign | ErrServiceGraphDepth | ErrServiceGraphLimit | ErrServiceGraphStale
| ErrServicePinnedByFile (provider slug : string) | ErrServiceManagedByFile | ErrServiceNotFound | ErrServiceConflict
| ErrServiceIncomplete | ErrServiceSlug | ErrOwnerNotInProject | ErrTooManyServices | ErrServiceRendered.
#[export] Instance graphError_eq : EqDecision GraphError.
Proof. solve_decision. Defined.

Definition ServiceGraphDepthCap : nat := 10.
Definition MaxServiceDependencies : nat := 20.

Definition withEdges (db : GraphDB) (services : gmap string GraphService) (edges : list EdgeRow) (audit : list GraphAudit) : GraphDB :=
  {| sg_services := services; sg_edges := edges; sg_audit := audit; sg_policies := sg_policies db; sg_schedules := sg_schedules db |}.

(** (child, parent), and turned around. *)
Definition edgesOf (db : GraphDB) : list (string * string) := map (fun e => (er_child e, er_parent e)) (sg_edges db).
Definition turned (edges : list (string * string)) : list (string * string) := map (fun e => (e.2, e.1)) edges.

(** ** Reading *)
Record ServiceEdge := { sv_ID : string; sv_Slug : string; sv_Name : string; sv_ManagedBy : string }.
Record ServiceGraphView := { gv_GraphGeneration : Z; gv_DependsOn : list ServiceEdge; gv_DependedOnBy : list ServiceEdge }.

Definition slug_le (a b : ServiceEdge) : Prop := String.le (sv_Slug a) (sv_Slug b).
#[export] Instance slug_le_dec a b : Decision (slug_le a b).
Proof. unfold slug_le. apply _. Defined.

Definition neighbour (db : GraphDB) (id : string) : option ServiceEdge :=
  (fun s => {| sv_ID := id; sv_Slug := gs_slug s; sv_Name := gs_name s; sv_ManagedBy := default "" (gs_provider s) |})
    <$> sg_services db !! id.

Definition neighboursOf (db : GraphDB) (ids : list string) : list ServiceEdge := merge_sort slug_le (omap (neighbour db) ids).

Definition GetServiceDependencies (db : GraphDB) (projectID serviceID : string) : result GraphError ServiceGraphView :=
  match sg_services db !! serviceID with
  | None => Err ErrServiceNotFound
  | Some s =>
    let! _ := refuse_if (negb (bool_decide (gs_project s = projectID))) ErrServiceNotFound in
    Ok {| gv_GraphGeneration := gs_generation s;
          gv_DependsOn := neighboursOf db (omap (fun e => if bool_decide (e.1 = serviceID) then Some e.2 else None) (edgesOf db));
          gv_DependedOnBy := neighboursOf db (omap (fun e => if bool_decide (e.2 = serviceID) then Some e.1 else None) (edgesOf db)) |}
  end.

(** ** The checks of an edit *)

(** The distinct ids of the current set. *)
Definition currentParents (db : GraphDB) (serviceID : string) : list string :=
  remove_dups (map er_parent (List.filter (fun e => bool_decide (er_child e = serviceID)) (sg_edges db))).

Definition sameSet (current next : list string) : bool :=
  Nat.eqb (length current) (length next) && forallb (fun id => bool_decide (id ∈ current)) next.

Definition countServices (db : GraphDB) (projectID serviceID : string) (parents : list string) : nat :=
  length (List.filter (fun kv => bool_decide (gs_project kv.2 = projectID) && bool_decide (kv.1 ∈ parents)
                                 && negb (bool_decide (kv.1 = serviceID))) (map_to_list (sg_services db))).

(** [max(depth)] of a walk from [ids] that produces rows up to depth [fuel]. *)
Fixpoint walkDepth (fuel : nat) (edges : list (string * string)) (ids : list string) : nat :=
  match fuel with
  | O => O
  | S fuel' => match parentsOf edges ids with [] => O | up => S (walkDepth fuel' edges up) end
  end.

Definition checkEdit (db : GraphDB) (projectID serviceID : string) (parents : list string) : result GraphError unit :=
  match parents with
  | [] => Ok tt
  | _ =>
    let! _ := refuse_if (negb (Nat.eqb (countServices db projectID serviceID parents) (length parents))) ErrServiceGraphForeign in
    let! _ := refuse_if (bool_decide (serviceID ∈ climb ServiceGraphDepthCap (edgesOf db) parents)) ErrServiceGraphCycle in
    let maxUp := walkDepth (S ServiceGraphDepthCap) (edgesOf db) parents in
    let maxDown := walkDepth (S ServiceGraphDepthCap) (turned (edgesOf db)) [serviceID] in
    refuse_if (ServiceGraphDepthCap <? maxUp + 1 + maxDown)%nat ErrServiceGraphDepth
  end.

(** ** The audit row *)
Definition diffIDs (current next : list string) : list string * list string :=
  (merge_sort String.le (List.filter (fun id => negb (bool_decide (id ∈ current))) next),
   merge_sort String.le (List.filter (fun id => negb (bool_decide (id ∈ next))) current)).

(** [slugsFor] and [mapSlugs]. *)
Definition mapSlugs (db : GraphDB) (ids : list string) : list string :=
  merge_sort String.le (map (fun id => match sg_services db !! id with Some s => gs_slug s | None => id end) ids).

Definition auditOf (db : GraphDB) (projectID serviceID : string) (actor : GraphActor) (current next : list string) : GraphAudit :=
  let '(added, removed) := diffIDs current next in
  {| gt_project := projectID;
     gt_actor := if bool_decide (act_UserID actor = "") then None else Some (act_UserID actor);
     gt_viaToken := act_ViaToken actor;
     gt_action := "service.dependencies.replaced";
     gt_target := "service=" +:+ serviceID +:+ " actor=" +:+ act_Label actor
                  +:+ " added=[" +:+ String.concat "," (mapSlugs db added) +:+ "]"
                  +:+ " removed=[" +:+ String.concat "," (mapSlugs db removed) +:+ "]" |}.

(** ** The one mutator *)
Definition bumpGeneration (s : GraphService) : GraphService :=
  {| gs_project := gs_project s; gs_slug := gs_slug s; gs_name := gs_name s; gs_generation := gs_generation s + 1;
     gs_provider := gs_provider s |}.

Definition newEdges (db : GraphDB) (serviceID : string) (parents : list string) (label : string) : list EdgeRow :=
  match sg_services db !! serviceID with
  | Some s => map (fun p => {| er_child := serviceID; er_parent := p; er_project := gs_project s; er_createdBy := label |}) parents
  | None => []
  end.

Definition applyServiceDependenciesTx (db : GraphDB) (projectID serviceID : string) (parents0 : list string) (actor : GraphActor) :
    result GraphError (GraphDB * bool) :=
  let parents := dedupe parents0 in
  let! _ := refuse_if (MaxServiceDependencies <? length parents)%nat ErrServiceGraphLimit in
  let current := currentParents db serviceID in
  if sameSet current parents then Ok (db, false)
  else
    let! _ := checkEdit db projectID serviceID parents in
    Ok (withEdges db (alter bumpGeneration serviceID (sg_services db))
          (List.filter (fun e => negb (bool_decide (er_child e = serviceID))) (sg_edges db) ++ newEdges db serviceID parents (act_Label actor))
          (sg_audit db ++ [auditOf db projectID serviceID actor current parents]), true).

(** ** Writers *)
Definition ReplaceServiceDependencies (db : GraphDB) (projectID serviceID : string) (parents : list string)
    (expectedGeneration : Z) (actor : GraphActor) : result GraphError (GraphDB * ServiceGraphView) :=
  match sg_services db !! serviceID with
  | None => Err ErrServiceNotFound
  | Some s =>
    let! _ := refuse_if (negb (bool_decide (gs_project s = projectID))) ErrServiceNotFound in
    let! _ := refuse_if (negb (gs_generation s =? expectedGeneration)) ErrServiceGraphStale in
    let! _ := refuse_if (negb (bool_decide (gs_provider s = None))) ErrServiceManagedByFile in
    let! p := applyServiceDependenciesTx db projectID serviceID parents actor in
    let! v := GetServiceDependencies p.1 projectID serviceID in
    Ok (p.1, v)
  end.

(** [monitorSlugRe]. *)
Definition slugTail (b : Z) : bool := inRange 97 122 b || inRange 48 57 b || (b =? 45).
Definition ValidServiceSlug (s : string) : bool :=
  match bytesOf s with
  | [] => false
  | b :: rest => inRange 97 122 b && forallb slugTail rest && (length rest <=? 62)%nat
  end.

Record NewService := {
  ns_ProjectID : string; ns_Slug : string; ns_Name : string; ns_EscalationPolicyID : string; ns_OncallScheduleID : string;
}.

Definition assertOwnerInProjectTx (db : GraphDB) (svc : NewService) : result GraphError unit :=
  let! _ := refuse_if (negb (bool_decide (ns_EscalationPolicyID svc = ""))
                       && negb (bool_decide ((ns_EscalationPolicyID svc, ns_ProjectID svc) ∈ sg_policies db))) ErrOwnerNotInProject in
  refuse_if (negb (bool_decide (ns_OncallScheduleID svc = ""))
             && negb (bool_decide ((ns_OncallScheduleID svc, ns_ProjectID svc) ∈ sg_schedules db))) ErrOwnerNotInProject.

Definition servicesIn (db : GraphDB) (projectID : string) : list (string * GraphService) :=
  List.filter (fun kv => bool_decide (gs_project kv.2 = projectID)) (map_to_list (sg_services db)).

Definition assertProjectServiceCapTx (db : GraphDB) (limit : Z) (projectID : string) (adding : Z) : result GraphError unit :=
  refuse_if (limit <? Z.of_nat (length (servicesIn db projectID)) + adding) ErrTooManyServices.

(** The core of a creation; [id] is the identifier the database generates. *)
Definition createServiceCoreTx (db : GraphDB) (limit : Z) (svc : NewService) (id : string) : result GraphError GraphDB :=
  let! _ := assertOwnerInProjectTx db svc in
  let! _ := assertProjectServiceCapTx db limit (ns_ProjectID svc) 1 in
  let! _ := refuse_if (existsb (fun kv => bool_decide (gs_slug kv.2 = ns_Slug svc)) (servicesIn db (ns_ProjectID svc))) ErrServiceConflict in
  Ok (withEdges db
        (<[id := {| gs_project := ns_ProjectID svc; gs_slug := ns_Slug svc; gs_name := ns_Name svc; gs_generation := 0; gs_provider := None |}]>
           (sg_services db)) (sg_edges db) (sg_audit db)).

Definition validNewService (svc : NewService) : result GraphError unit :=
  let! _ := refuse_if (bool_decide (ns_ProjectID svc = "") || bool_decide (ns_Name svc = "")) ErrServiceIncomplete in
  refuse_if (negb (ValidServiceSlug (ns_Slug svc))) ErrServiceSlug.

Definition CreateService (db : GraphDB) (limit : Z) (svc : NewService) (id : string) : result GraphError GraphDB :=
  let! _ := validNewService svc in createServiceCoreTx db limit svc id.

Definition CreateServiceWithDependencies (db : GraphDB) (limit : Z) (svc : NewService) (id : string) (parents : list string)
    (actor : GraphActor) : result GraphError GraphDB :=
  let! _ := validNewService svc in
  let! db1 := createServiceCoreTx db limit svc id in
  let! p := applyServiceDependenciesTx db1 (ns_ProjectID svc) id parents actor in
  Ok p.1.

(** ** Deleting *)

(** The file-owned dependents by slug. *)
Definition pinnedBy (db : GraphDB) (serviceID : string) : list (string * string) :=
  merge_sort (fun a b => String.le a.2 b.2)
    (omap (fun e => if bool_decide (er_parent e = serviceID) then
                      match sg_services db !! er_child e with
                      | Some c => (fun p => (p, gs_slug c)) <$> gs_provider c
                      | None => None
                      end
                    else None) (sg_edges db)).

Definition assertServiceNotPinnedByFileEdgesTx (db : GraphDB) (serviceID : string) : result GraphError unit :=
  match pinnedBy db serviceID with (provider, slug) :: _ => Err (ErrServicePinnedByFile provider slug) | [] => Ok tt end.

(** [DELETE FROM services], with the cascade over the edges at both ends. *)
Definition dropGraphService (db : GraphDB) (id : string) : GraphDB :=
  withEdges db (delete id (sg_services db))
    (List.filter (fun e => negb (bool_decide (er_child e = id)) && negb (bool_decide (er_parent e = id))) (sg_edges db)) (sg_audit db).

(** [DeleteService], as far as the graph: [rendered] says whether a status page renders the
    service. *)
Definition DeleteService (db : GraphDB) (rendered : bool) (projectID id : string) : result GraphError GraphDB :=
  match sg_services db !! id with
  | None => Err ErrServiceNotFound
  | Some s =>
    let! _ := refuse_if (negb (bool_decide (gs_project s = projectID))) ErrServiceNotFound in
    let! _ := refuse_if (negb (bool_decide (gs_provider s = None))) ErrServiceManagedByFile in
    let! _ := assertServiceNotPinnedByFileEdgesTx db id in
    let! _ := refuse_if rendered ErrServiceRendered in
    let gone := dropGraphService db id in
    Ok (withEdges gone (sg_services gone) (sg_edges gone)
          (sg_audit gone ++ [{| gt_project := projectID; gt_actor := None; gt_viaToken := false; gt_action := "service.deleted";
                                gt_target := "service=" +:+ id |}]))
  end.
