(* ===== verification/GraphFacts.v ===== *)
(** * What the graph of services keeps

    No chain is longer than the cap, whatever edits, creations and deletions ran; and the two
    checks of an edit, on walks that are cut off, refuse exactly the edits that would break
    that. *)

From S2P Require Import Prelude GoString Dependencies DependencyFacts ServiceGraph.

(** ** Walks of bounded length *)
Definition bounded (edges : list (string * string)) : Prop := forall n x y, nsteps (edge edges) n x y -> (n <= ServiceGraphDepthCap)%nat.

Lemma nsteps_pump edges n x k : nsteps (edge edges) n x x -> nsteps (edge edges) (k * n) x x.
Proof. intros H. induction k as [|k IH]; [constructor|]. cbn. by eapply nsteps_trans. Qed.

Lemma bounded_acyclic edges n x : bounded edges -> (1 <= n)%nat -> ~ nsteps (edge edges) n x x.
Proof. intros Hb Hn Hw. specialize (Hb _ _ _ (nsteps_pump _ _ _ 11 Hw)). unfold ServiceGraphDepthCap in Hb. lia. Qed.

Lemma bounded_sub edges edges' : (forall x y, edge edges' x y -> edge edges x y) -> bounded edges -> bounded edges'.
Proof. intros H Hb n x y Hw. apply (Hb n x y). by eapply (nsteps_congruence (fun z : string => z)) in Hw; [exact Hw|]. Qed.

Lemma walkDepth_spec fuel edges ids k :
  (k <= walkDepth fuel edges ids)%nat <-> k = 0%nat \/ (k <= fuel)%nat /\ exists x y, x ∈ ids /\ nsteps (edge edges) k x y.
Proof.
  revert ids k. induction fuel as [|fuel IH]; intros ids k; cbn [walkDepth].
  { split; [lia|]. intros [->|[? _]]; lia. }
  destruct k as [|k]; [split; [by left|lia]|]. destruct (parentsOf edges ids) as [|z up] eqn:E.
  - split; [lia|]. intros [?|(_ & x & y & Hx & Hw)]; [lia|]. inversion Hw as [|? ? z ? He _]; subst.
    assert (z ∈ parentsOf edges ids) as Hz by (apply elem_of_parentsOf; by exists x). rewrite E in Hz. by apply not_elem_of_nil in Hz.
  - rewrite <- E. split.
    + intros H. right. destruct (proj1 (IH (parentsOf edges ids) k) ltac:(lia)) as [->|(Hk & w & y & Hw & Hs)].
      * split; [lia|]. assert (z ∈ parentsOf edges ids) as (x & Hx & He)%elem_of_parentsOf by (rewrite E; left).
        exists x, z. split; [done|by apply nsteps_once].
      * split; [lia|]. apply elem_of_parentsOf in Hw as (x & Hx & He). exists x, y. split; [done|by eapply nsteps_l].
    + intros [?|(Hk & x & y & Hx & Hw)]; [lia|]. inversion Hw as [|? ? w ? He Hw']; subst.
      assert (k <= walkDepth fuel edges (parentsOf edges ids))%nat; [|lia]. apply IH. right. split; [lia|].
      exists w, y. split; [|done]. apply elem_of_parentsOf. by exists x.
Qed.

Lemma edge_turned edges x y : edge (turned edges) x y <-> edge edges y x.
Proof.
  unfold edge, turned. rewrite list_elem_of_fmap. split.
  - by intros ([a b] & [= -> ->] & H).
  - intros H. by exists (y, x).
Qed.

Lemma nsteps_turned edges n x y : nsteps (edge (turned edges)) n x y -> nsteps (edge edges) n y x.
Proof.
  induction 1 as [x|n x y z He _ IH]; [constructor|]. rewrite edge_turned in He. eapply nsteps_r; [exact IH|exact He].
Qed.

Lemma turned_twice edges : turned (turned edges) = edges.
Proof. unfold turned. rewrite map_map. cbn. etrans; [|apply map_id]. apply map_ext. by intros []. Qed.

Lemma nsteps_turn edges n x y : nsteps (edge edges) n y x -> nsteps (edge (turned edges)) n x y.
Proof. intros H. apply nsteps_turned. by rewrite turned_twice. Qed.

(** A graph as itself without the edges of [c], and those. *)
Lemma edge_split edges c x y : edge edges x y <-> edge (avoiding c edges) x y \/ x = c /\ y ∈ parentsOf edges [c].
Proof.
  rewrite edge_avoiding, elem_of_parentsOf. setoid_rewrite list_elem_of_singleton. destruct (decide (x = c)) as [->|]; naive_solver.
Qed.

(** A walk to [c] reaches it a first time without leaving it. *)
Lemma first_arrival edges n x c : nsteps (edge edges) n x c -> exists i, (i <= n)%nat /\ nsteps (edge (avoiding c edges)) i x c.
Proof. apply (first_visit edges edges c (parentsOf edges [c])), edge_split. Qed.

Lemma stays_or_leaves edges n x y c :
  nsteps (edge edges) n x y -> nsteps (edge (avoiding c edges)) n x y \/
  exists a b p, nsteps (edge edges) a x c /\ edge edges c p /\ nsteps (edge edges) b p y.
Proof.
  intros Hw. destruct (old_or_through edges edges c (parentsOf edges [c]) (edge_split edges c) n x y Hw) as [?|(a & b & p & _ & Ha & Hp & Hb)];
    [by left|right]. exists a, b, p. split; [done|]. split; [|done]. apply edge_split with c. by right.
Qed.

(** ** Rewiring one service *)
Section rewired.
Context (old new : list (string * string)) (c : string) (ps : list string).
Context (Hnew : forall x y, edge new x y <-> edge (avoiding c old) x y \/ x = c /\ y ∈ ps).
Context (Hold : bounded old) (Hself : c ∉ ps).

Definition reaches_child : Prop := exists p i, p ∈ ps /\ nsteps (edge old) i p c.

Lemma new_edge_old x y : edge (avoiding c old) x y -> edge new x y.
Proof. intros H. apply Hnew. by left. Qed.

Lemma avoiding_old n x y : nsteps (edge (avoiding c old)) n x y -> nsteps (edge old) n x y.
Proof. intros H. eapply (nsteps_congruence (fun z : string => z)) in H; [exact H|]. intros a b. cbn. by intros [? _]%edge_avoiding. Qed.

Lemma avoiding_new n x y : nsteps (edge (avoiding c old)) n x y -> nsteps (edge new) n x y.
Proof. intros H. eapply (nsteps_congruence (fun z : string => z)) in H; [exact H|]. intros a b. apply new_edge_old. Qed.

Lemma no_return p n : ~ reaches_child -> p ∈ ps -> ~ nsteps (edge new) n p c.
Proof.
  intros Hno Hp Hw. apply (first_visit old new c ps Hnew) in Hw as (i & _ & Hw). apply Hno. exists p, i. split; [done|by apply avoiding_old].
Qed.

(** A walk of the new graph uses at most one new edge. *)
Lemma new_walk n x y :
  ~ reaches_child -> nsteps (edge new) n x y ->
  nsteps (edge (avoiding c old)) n x y \/
  exists a b p, (a + S b = n)%nat /\ nsteps (edge (avoiding c old)) a x c /\ p ∈ ps /\ nsteps (edge (avoiding c old)) b p y.
Proof.
  intros Hno Hw. destruct (old_or_through old new c ps Hnew n x y Hw) as [?|(a & b & p & E & Ha & Hp & Hb)]; [by left|right].
  exists a, b, p. split; [done|]. split.
  { destruct (old_or_through old new c ps Hnew a x c Ha) as [?|(a' & b' & p' & _ & _ & Hp' & Hb')]; [done|].
    by apply (no_return p' b') in Hp'. }
  split; [done|]. destruct (old_or_through old new c ps Hnew b p y Hb) as [?|(a' & b' & p' & _ & Ha' & _ & _)]; [done|].
  by apply (no_return p a') in Hp.
Qed.

Lemma climb_finds_child : c ∈ climb ServiceGraphDepthCap old ps <-> reaches_child.
Proof.
  rewrite elem_of_climb. split.
  - intros (n & p & _ & Hp & Hw). by exists p, n.
  - intros (p & i & Hp & Hw). exists i, p. pose proof (Hold _ _ _ Hw). split; [|done]. split; [|done].
    destruct i; [|lia]. inversion Hw; subst. done.
Qed.

(** The two checks are exact. *)
Lemma checks_exact :
  bounded new <-> c ∉ climb ServiceGraphDepthCap old ps /\
    (ps = [] \/ (walkDepth (S ServiceGraphDepthCap) old ps + 1 + walkDepth (S ServiceGraphDepthCap) (turned old) [c] <= ServiceGraphDepthCap)%nat).
Proof.
  rewrite climb_finds_child. set (up := walkDepth _ old ps). set (down := walkDepth _ (turned old) [c]). split.
  - intros Hb. assert (~ reaches_child) as Hno.
    { intros (p & i & Hp & Hw). apply first_arrival in Hw as (j & _ & Hw). apply avoiding_new in Hw.
      apply (bounded_acyclic new (S j) c Hb); [lia|]. eapply nsteps_l; [apply Hnew; right; by split|done]. }
    split; [done|]. destruct (decide (ps = [])) as [|Hne]; [by left|right].
    assert (exists p0, p0 ∈ ps) as [p0 Hp0] by (destruct ps; [done|eexists; left]).
    assert (exists x, nsteps (edge (avoiding c old)) down x c) as [x Hx].
    { destruct (proj1 (walkDepth_spec (S ServiceGraphDepthCap) (turned old) [c] down) ltac:(done)) as [->|(_ & a & b & Ha & Hw)].
      - exists c. constructor.
      - apply list_elem_of_singleton in Ha as ->. apply nsteps_turned in Hw. exists b.
        destruct (stays_or_leaves old down b c c Hw) as [?|(a' & b' & q & _ & He & Hb')]; [done|].
        destruct (bounded_acyclic old (S b') c Hold); [lia|]. by eapply nsteps_l. }
    assert (exists p y, p ∈ ps /\ nsteps (edge (avoiding c old)) up p y) as (p & y & Hp & Hy).
    { destruct (proj1 (walkDepth_spec (S ServiceGraphDepthCap) old ps up) ltac:(done)) as [->|(_ & a & b & Ha & Hw)].
      - exists p0, p0. split; [done|constructor].
      - exists a, b. split; [done|].
        destruct (stays_or_leaves old up a b c Hw) as [?|(a' & b' & q & Ha' & _ & _)]; [done|]. destruct Hno. by exists a, a'. }
    assert (nsteps (edge new) (down + S up) x y) as Hlong.
    { eapply nsteps_trans; [by apply avoiding_new|]. eapply nsteps_l; [apply Hnew; right; by split|by apply avoiding_new]. }
    specialize (Hb _ _ _ Hlong). lia.
  - intros [Hno Hd] n x y Hw. apply new_walk in Hw as [Hw|(a & b & p & <- & Ha & Hp & Hb)]; [by apply avoiding_old, Hold in Hw| |done].
    destruct Hd as [->|Hd]; [by apply not_elem_of_nil in Hp|].
    apply avoiding_old in Ha, Hb. pose proof (Hold _ _ _ Ha). pose proof (Hold _ _ _ Hb).
    assert (a <= down)%nat; [|assert (b <= up)%nat; [|lia]].
    + apply walkDepth_spec. right. split; [lia|]. exists c, x. split; [left|by apply nsteps_turn].
    + apply walkDepth_spec. right. split; [lia|]. by exists p, y.
Qed.
End rewired.

(** ** The graph as a system *)

(** Beside the writers of edges: ownership and names change, services come without edges (the
    file track creates them so) and go with theirs, slugs and projects stay. *)
Record graph_moves (db db' : GraphDB) : Prop := {
  gm_edges : sg_edges db' = List.filter (fun e => bool_decide (is_Some (sg_services db' !! er_child e))
                                               && bool_decide (is_Some (sg_services db' !! er_parent e))) (sg_edges db);
  gm_kept : forall id s', sg_services db' !! id = Some s' ->
    id <> "" /\ ValidServiceSlug (gs_slug s') = true /\
    forall s, sg_services db !! id = Some s -> gs_project s' = gs_project s /\ gs_slug s' = gs_slug s /\ gs_generation s' = gs_generation s;
  gm_slugs : forall id1 id2 s1 s2, sg_services db' !! id1 = Some s1 -> sg_services db' !! id2 = Some s2 ->
    gs_project s1 = gs_project s2 -> gs_slug s1 = gs_slug s2 -> id1 = id2;
}.

Inductive graph_step : GraphDB -> GraphDB -> Prop :=
| gr_replace db projectID id parents gen actor db' v :
    ReplaceServiceDependencies db projectID id parents gen actor = Ok (db', v) -> graph_step db db'
| gr_create db limit svc id db' :
    id <> "" -> sg_services db !! id = None -> CreateService db limit svc id = Ok db' -> graph_step db db'
| gr_createWith db limit svc id parents actor db' :
    id <> "" -> sg_services db !! id = None -> CreateServiceWithDependencies db limit svc id parents actor = Ok db' -> graph_step db db'
| gr_delete db rendered projectID id db' : DeleteService db rendered projectID id = Ok db' -> graph_step db db'
| gr_other db db' : graph_moves db db' -> graph_step db db'.

Definition graph_initial (db : GraphDB) : Prop := sg_services db = ∅ /\ sg_edges db = [].
Definition graph_system : system GraphDB := System graph_initial graph_step.

Definition edge_ok (db : GraphDB) (e : EdgeRow) : Prop :=
  er_child e <> er_parent e /\
  exists c p, sg_services db !! er_child e = Some c /\ sg_services db !! er_parent e = Some p /\
    gs_project c = er_project e /\ gs_project p = er_project e.

Record graph_inv (db : GraphDB) : Prop := {
  gi_bounded : bounded (edgesOf db);
  gi_named : sg_services db !! "" = None;
  gi_ends : forall e, e ∈ sg_edges db -> edge_ok db e;
  gi_few : forall id, (length (currentParents db id) <= MaxServiceDependencies)%nat;
  gi_valid : forall id s, sg_services db !! id = Some s -> ValidServiceSlug (gs_slug s) = true;
  gi_slugs : forall id1 id2 s1 s2, sg_services db !! id1 = Some s1 -> sg_services db !! id2 = Some s2 ->
    gs_project s1 = gs_project s2 -> gs_slug s1 = gs_slug s2 -> id1 = id2;
}.

Lemma edge_edgesOf db x y : edge (edgesOf db) x y <-> exists e, e ∈ sg_edges db /\ er_child e = x /\ er_parent e = y.
Proof.
  unfold edge, edgesOf. rewrite list_elem_of_fmap. split.
  - intros (e & [= -> ->] & He). by exists e.
  - intros (e & He & <- & <-). by exists e.
Qed.

Lemma elem_of_currentParents db id y : y ∈ currentParents db id <-> edge (edgesOf db) id y.
Proof.
  unfold currentParents. rewrite elem_of_remove_dups, list_elem_of_fmap, edge_edgesOf. setoid_rewrite elem_of_filter_b.
  setoid_rewrite bool_decide_eq_true. naive_solver.
Qed.

Lemma length_subset {A} `{EqDecision A} (l k : list A) : NoDup l -> (forall x, x ∈ l -> x ∈ k) -> (length l <= length k)%nat.
Proof. intros Hnd Hs. apply submseteq_length, NoDup_submseteq; [done|]. intros x Hx. by apply Hs. Qed.

Lemma length_currentParents db id l : (forall y, edge (edgesOf db) id y -> y ∈ l) -> (length (currentParents db id) <= length l)%nat.
Proof. intros H. apply length_subset; [apply NoDup_remove_dups|]. intros x Hx. apply H. by apply elem_of_currentParents. Qed.

(** ** One edit *)
Lemma counted_services db project c ps :
  sg_services db !! "" = None -> countServices db project c (dedupe ps) = length (dedupe ps) ->
  forall p, p ∈ dedupe ps -> p <> c /\ exists s, sg_services db !! p = Some s /\ gs_project s = project.
Proof.
  unfold countServices. intros Hempty Hn. set (counted := List.filter _ _) in Hn.
  assert (forall q, q ∈ map fst counted -> q ∈ dedupe ps /\ q <> c /\ exists s, sg_services db !! q = Some s /\ gs_project s = project) as Hin.
  { intros q. unfold counted. rewrite list_elem_of_fmap.
    intros ([k m] & -> & Hk). apply elem_of_filter_b in Hk as [Hk Hb]. apply elem_of_map_to_list in Hk. cbn in *.
    rewrite !andb_true_iff, negb_true_iff, !bool_decide_eq_true, bool_decide_eq_false in Hb. destruct Hb as [[Hp Hps] Hc].
    split; [done|]. split; [done|]. by exists m. }
  assert (NoDup (map fst counted)) as Hnd.
  { eapply sublist_NoDup; [apply (NoDup_fst_map_to_list (sg_services db))|]. unfold counted. apply fmap_sublist, sublist_filter_b. }
  intros p Hp. apply Hin.
  assert (map fst counted ⊆+ dedupe ps) as Hsub by (apply NoDup_submseteq; [done|]; intros q Hq; by apply Hin).
  apply submseteq_length_Permutation in Hsub; [by rewrite Hsub|]. rewrite length_map. lia.
Qed.

(** What the edit leaves, when it changes anything. *)
Definition edited (db : GraphDB) (projectID id : string) (parents : list string) (actor : GraphActor) : GraphDB :=
  withEdges db (alter bumpGeneration id (sg_services db))
    (List.filter (fun e => negb (bool_decide (er_child e = id))) (sg_edges db) ++ newEdges db id (dedupe parents) (act_Label actor))
    (sg_audit db ++ [auditOf db projectID id actor (currentParents db id) (dedupe parents)]).

Lemma edge_edited db projectID id s parents actor x y :
  sg_services db !! id = Some s ->
  edge (edgesOf (edited db projectID id parents actor)) x y <-> edge (avoiding id (edgesOf db)) x y \/ x = id /\ y ∈ dedupe parents.
Proof.
  intros Hs. rewrite edge_avoiding, !edge_edgesOf. unfold edited, newEdges. cbn. rewrite Hs. setoid_rewrite elem_of_app.
  setoid_rewrite elem_of_filter_b. setoid_rewrite negb_true_iff. setoid_rewrite bool_decide_eq_false. setoid_rewrite list_elem_of_fmap. split.
  - intros (e & [[He Hn]|(p & -> & Hp)] & <- & <-); [left; split; [by exists e|done]|by right].
  - intros [[(e & He & <- & <-) Hn]|[-> Hp]]; [exists e; split; [by left|done]|].
    eexists. split; [right; exists y; split; [reflexivity|done]|done].
Qed.

Lemma applied db projectID id parents actor db' changed :
  applyServiceDependenciesTx db projectID id parents actor = Ok (db', changed) ->
  (length (dedupe parents) <= MaxServiceDependencies)%nat /\
  ((changed = false /\ db' = db /\ sameSet (currentParents db id) (dedupe parents) = true) \/
   (changed = true /\ sameSet (currentParents db id) (dedupe parents) = false /\ checkEdit db projectID id (dedupe parents) = Ok tt /\
    db' = edited db projectID id parents actor)).
Proof.
  unfold applyServiceDependenciesTx. cbv zeta. destruct (Nat.ltb_spec MaxServiceDependencies (length (dedupe parents))); [done|]. cbn [refuse_if rbind].
  intros H'. split; [done|]. destruct (sameSet _ _) eqn:E; [injection H' as <- <-; by left|].
  destruct (checkEdit _ _ _ _) as [[]|]; [|done]. cbn [rbind] in H'. injection H' as <- <-. by right.
Qed.

Lemma checkEdit_exact db projectID id s parents actor :
  graph_inv db -> sg_services db !! id = Some s ->
  countServices db projectID id (dedupe parents) = length (dedupe parents) ->
  checkEdit db projectID id (dedupe parents) = Ok tt <-> bounded (edgesOf (edited db projectID id parents actor)).
Proof.
  intros Hinv Hs Hcount. pose proof (counted_services db projectID id parents (gi_named db Hinv) Hcount) as Hps.
  rewrite (checks_exact (edgesOf db) _ id (dedupe parents)); [|intros; by apply edge_edited with s|apply Hinv|intros Hin; by destruct (Hps id Hin)].
  unfold checkEdit. destruct (dedupe parents) as [|p ps] eqn:E.
  { split; [|done]. intros _. split; [|by left]. rewrite elem_of_climb. intros (n & x & _ & Hx & _). by apply not_elem_of_nil in Hx. }
  rewrite Hcount, Nat.eqb_refl. cbn [negb refuse_if rbind]. case_bool_decide as Hc; cbn [refuse_if rbind].
  - split; [done|]. by intros [? _].
  - set (up := walkDepth _ _ (p :: ps)). set (down := walkDepth _ _ [id]). destruct (Nat.ltb_spec ServiceGraphDepthCap (up + 1 + down)); cbn [refuse_if].
    + split; [done|]. intros [_ [?|?]]; [done|lia].
    + split; [|done]. intros _. split; [done|]. right. lia.
Qed.

Lemma checkEdit_counts db projectID id parents :
  checkEdit db projectID id (dedupe parents) = Ok tt -> countServices db projectID id (dedupe parents) = length (dedupe parents).
Proof.
  unfold checkEdit. destruct (dedupe parents) as [|p ps] eqn:E.
  - intros _. unfold countServices. rewrite filter_none_b; [done|]. intros kv _. rewrite (bool_decide_eq_false_2 (_ ∈ [])) by apply not_elem_of_nil.
    by rewrite andb_false_r.
  - destruct (Nat.eqb_spec (countServices db projectID id (p :: ps)) (length (p :: ps))); [done|]. by cbn.
Qed.

(** An edit leaves a service's project, slug, name and owner alone. *)
Lemma edited_service db projectID id parents actor k s' :
  sg_services (edited db projectID id parents actor) !! k = Some s' ->
  exists s, sg_services db !! k = Some s /\ gs_project s' = gs_project s /\ gs_slug s' = gs_slug s.
Proof.
  unfold edited. cbn. destruct (decide (k = id)) as [->|Hne].
  - rewrite lookup_alter. intros H. destruct (sg_services db !! id) as [s|]; rewrite decide_True in H by done; [|done].
    injection H as <-. by exists s.
  - rewrite lookup_alter_ne by done. intros H. by exists s'.
Qed.

Lemma edited_keeps db projectID id parents actor k s :
  sg_services db !! k = Some s -> exists s', sg_services (edited db projectID id parents actor) !! k = Some s' /\ gs_project s' = gs_project s.
Proof.
  intros Hs. unfold edited. cbn. destruct (decide (k = id)) as [->|Hne].
  - rewrite lookup_alter, Hs, decide_True by done. by eexists.
  - rewrite lookup_alter_ne by done. by exists s.
Qed.

Lemma inv_edited db id s parents actor :
  graph_inv db -> sg_services db !! id = Some s -> (length (dedupe parents) <= MaxServiceDependencies)%nat ->
  checkEdit db (gs_project s) id (dedupe parents) = Ok tt -> graph_inv (edited db (gs_project s) id parents actor).
Proof.
  intros Hinv Hs Hfew Hok. pose proof (checkEdit_counts _ _ _ _ Hok) as Hcount.
  pose proof (counted_services db (gs_project s) id parents (gi_named db Hinv) Hcount) as Hps. split.
  - by apply (checkEdit_exact db (gs_project s) id s parents actor Hinv Hs Hcount).
  - destruct (sg_services (edited db (gs_project s) id parents actor) !! "") as [x|] eqn:E; [|done].
    apply edited_service in E as (y & Hy & _). by rewrite (gi_named db Hinv) in Hy.
  - intros e He. unfold edited, newEdges in He. cbn in He. rewrite Hs in He.
    assert (er_child e <> er_parent e /\ exists c p, sg_services db !! er_child e = Some c /\ sg_services db !! er_parent e = Some p /\
              gs_project c = er_project e /\ gs_project p = er_project e) as (Hne & c & p & Hc & Hp & E1 & E2).
    { apply elem_of_app in He as [[He _]%elem_of_filter_b|(q & -> & Hq)%list_elem_of_fmap]; [by apply Hinv|]. cbn.
      destruct (Hps q Hq) as (Hn & sq & Hsq & Hpr). split; [done|]. by exists s, sq. }
    split; [done|]. destruct (edited_keeps db (gs_project s) id parents actor _ c Hc) as (c' & Hc' & Ec).
    destruct (edited_keeps db (gs_project s) id parents actor _ p Hp) as (p' & Hp' & Ep). exists c', p'. split_and!; [done|done|congruence..].
  - intros k. destruct (decide (k = id)) as [->|Hne].
    + etrans; [|exact Hfew]. apply length_currentParents. intros y Hy. rewrite (edge_edited db _ id s) in Hy by done.
      destruct Hy as [[_ ?]%edge_avoiding|[_ ?]]; done.
    + etrans; [|exact (gi_few db Hinv k)]. apply length_currentParents. intros y Hy. rewrite (edge_edited db _ id s) in Hy by done.
      apply elem_of_currentParents. destruct Hy as [[? _]%edge_avoiding|[? _]]; done.
  - intros k x (y & Hy & _ & ->)%edited_service. by apply (gi_valid db Hinv k).
  - intros k1 k2 x1 x2 (y1 & H1 & E1 & F1)%edited_service (y2 & H2 & E2 & F2)%edited_service Ep Ef.
    apply (gi_slugs db Hinv k1 k2 y1 y2 H1 H2); congruence.
Qed.

Lemma inv_applied db id s parents actor db' changed :
  applyServiceDependenciesTx db (gs_project s) id parents actor = Ok (db', changed) -> sg_services db !! id = Some s ->
  graph_inv db -> graph_inv db'.
Proof. intros (Hfew & [(_ & -> & _)|(_ & _ & Hok & ->)])%applied Hs Hinv; [done|by apply inv_edited]. Qed.

Lemma created db limit svc id db' :
  createServiceCoreTx db limit svc id = Ok db' ->
  sg_edges db' = sg_edges db /\
  sg_services db' = <[id := {| gs_project := ns_ProjectID svc; gs_slug := ns_Slug svc; gs_name := ns_Name svc; gs_generation := 0; gs_provider := None |}]>
                      (sg_services db) /\
  forall k s, sg_services db !! k = Some s -> gs_project s = ns_ProjectID svc -> gs_slug s <> ns_Slug svc.
Proof.
  unfold createServiceCoreTx, refuse_if. destruct (assertOwnerInProjectTx _ _) as [[]|]; [|done]. cbn [rbind].
  destruct (assertProjectServiceCapTx _ _ _ _) as [[]|]; [|done]. cbn [rbind]. destruct (existsb _ _) eqn:E; [done|]. intros [= <-].
  split; [done|]. split; [done|]. intros k s Hk Hp Hs. apply not_true_iff_false in E. apply E. apply existsb_elem. exists (k, s).
  split; [|by rewrite bool_decide_eq_true_2]. unfold servicesIn. apply elem_of_filter_b. split; [by apply elem_of_map_to_list|].
  by rewrite bool_decide_eq_true_2.
Qed.

Lemma inv_created db limit svc id db' :
  id <> "" -> sg_services db !! id = None -> ValidServiceSlug (ns_Slug svc) = true -> createServiceCoreTx db limit svc id = Ok db' ->
  graph_inv db -> graph_inv db'.
Proof.
  intros Hid Hnone Hv (He & Hs & Hu)%created Hinv.
  assert (edgesOf db' = edgesOf db) as Hedges by (unfold edgesOf; by rewrite He).
  assert (forall k, currentParents db' k = currentParents db k) as Hcur by (intros k; unfold currentParents; by rewrite He).
  assert (forall k s, sg_services db' !! k = Some s -> (k = id /\ gs_project s = ns_ProjectID svc /\ gs_slug s = ns_Slug svc) \/
            k <> id /\ sg_services db !! k = Some s) as Hget.
  { intros k s. rewrite Hs. intros [[<- <-]|[? ?]]%lookup_insert_Some; [by left|by right]. }
  split.
  - rewrite Hedges. apply Hinv.
  - rewrite Hs, lookup_insert_ne by done. apply Hinv.
  - intros e Hin. rewrite He in Hin. destruct (gi_ends db Hinv e Hin) as (Hne & c & p & Hc & Hp & E1 & E2). split; [done|].
    exists c, p. rewrite Hs, !lookup_insert_ne by congruence. done.
  - intros k. rewrite Hcur. apply Hinv.
  - intros k s [(_ & _ & ->)|[_ H]]%Hget; [done|by apply (gi_valid db Hinv k)].
  - intros k1 k2 s1 s2 [(-> & P1 & S1)|[N1 H1]]%Hget [(-> & P2 & S2)|[N2 H2]]%Hget Ep Es; [done| | |].
    + destruct (Hu k2 s2 H2); congruence.
    + destruct (Hu k1 s1 H1); congruence.
    + by apply (gi_slugs db Hinv k1 k2 s1 s2).
Qed.

(** Fewer edges and services, none of them changed. *)
Lemma inv_fewer db db' :
  (forall e, e ∈ sg_edges db' -> e ∈ sg_edges db /\ is_Some (sg_services db' !! er_child e) /\ is_Some (sg_services db' !! er_parent e)) ->
  (forall k s', sg_services db' !! k = Some s' -> k <> "" /\ ValidServiceSlug (gs_slug s') = true /\
     forall s, sg_services db !! k = Some s -> gs_project s' = gs_project s) ->
  (forall k1 k2 s1 s2, sg_services db' !! k1 = Some s1 -> sg_services db' !! k2 = Some s2 ->
     gs_project s1 = gs_project s2 -> gs_slug s1 = gs_slug s2 -> k1 = k2) ->
  graph_inv db -> graph_inv db'.
Proof.
  intros He Hk Hu Hinv.
  assert (forall x y, edge (edgesOf db') x y -> edge (edgesOf db) x y) as Hsub.
  { intros x y (e & Hin & E)%edge_edgesOf. apply edge_edgesOf. exists e. split; [by apply He|done]. }
  split.
  - apply (bounded_sub (edgesOf db)); [done|apply Hinv].
  - destruct (sg_services db' !! "") as [s|] eqn:E; [|done]. by destruct (Hk _ _ E).
  - intros e Hin. destruct (He e Hin) as (Hin' & [c' Hc'] & [p' Hp']). destruct (gi_ends db Hinv e Hin') as (Hne & c & p & Hc & Hp & E1 & E2).
    split; [done|]. destruct (Hk _ _ Hc') as (_ & _ & Hpc), (Hk _ _ Hp') as (_ & _ & Hpp). exists c', p'.
    rewrite (Hpc c Hc), (Hpp p Hp). done.
  - intros k. etrans; [|exact (gi_few db Hinv k)]. apply length_currentParents. intros y Hy. by apply elem_of_currentParents, Hsub.
  - intros k s Hs. by apply (Hk k s).
  - exact Hu.
Qed.

Lemma inv_deleted db rendered projectID id db' : DeleteService db rendered projectID id = Ok db' -> graph_inv db -> graph_inv db'.
Proof.
  unfold DeleteService, refuse_if. intros H Hinv. destruct (sg_services db !! id) as [s|]; [|done].
  case_bool_decide; cbn [negb] in H; [|done]. cbn [rbind] in H.
  case_bool_decide; cbn [negb] in H; [|done]. cbn [rbind] in H. destruct (assertServiceNotPinnedByFileEdgesTx _ _) as [[]|]; [|done]. cbn [rbind] in H.
  destruct rendered; [done|]. injection H as <-. apply (inv_fewer db); [..|done]; cbn.
  - intros e [He Hn]%elem_of_filter_b. split; [done|]. apply andb_true_iff in Hn as [Hn1 Hn2].
    apply negb_true_iff, bool_decide_eq_false in Hn1, Hn2. destruct (gi_ends db Hinv e He) as (_ & c & p & Hc & Hp & _).
    rewrite !lookup_delete_ne by done. by rewrite Hc, Hp.
  - intros k s' [Hne Hk]%lookup_delete_Some. split; [|split; [by apply (gi_valid db Hinv k)|]].
    + intros ->. by rewrite (gi_named db Hinv) in Hk.
    + intros x Hx. by rewrite Hx in Hk; injection Hk as ->.
  - intros k1 k2 s1 s2 [_ Hk1]%lookup_delete_Some [_ Hk2]%lookup_delete_Some. by apply (gi_slugs db Hinv k1 k2).
Qed.

Lemma replaced db projectID id parents gen actor db' v :
  ReplaceServiceDependencies db projectID id parents gen actor = Ok (db', v) ->
  exists s changed, sg_services db !! id = Some s /\ gs_project s = projectID /\ gs_generation s = gen /\ gs_provider s = None /\
    applyServiceDependenciesTx db projectID id parents actor = Ok (db', changed) /\ GetServiceDependencies db' projectID id = Ok v.
Proof.
  unfold ReplaceServiceDependencies, refuse_if. destruct (sg_services db !! id) as [s|]; [|done].
  case_bool_decide; cbn [negb rbind]; [|done]. destruct (Z.eqb_spec (gs_generation s) gen); cbn [negb rbind]; [|done].
  case_bool_decide; cbn [negb rbind]; [|done]. destruct (applyServiceDependenciesTx _ _ _ _ _) as [[x changed]|]; [|done]. cbn [rbind fst].
  destruct (GetServiceDependencies _ _ _) eqn:Ev; [|done]. cbn [rbind]. intros [= <- <-]. by exists s, changed.
Qed.

Lemma validNew svc : validNewService svc = Ok tt -> ValidServiceSlug (ns_Slug svc) = true.
Proof. unfold validNewService, refuse_if. destruct (_ || _); [done|]. cbn [rbind]. by destruct (ValidServiceSlug _). Qed.

Lemma graph_step_inv db db' : graph_inv db -> graph_step db db' -> graph_inv db'.
Proof.
  intros Hinv Hs. revert Hinv. destruct Hs as [db p id ps g a db' v H|db l svc id db' Hid Hn H|db l svc id ps a db' Hid Hn H|db r p id db' H|db db' H];
    intros Hinv.
  - destruct (replaced _ _ _ _ _ _ _ _ H) as (s & ch & Hs & <- & _ & _ & Ha & _). by apply (inv_applied db id s ps a db' ch).
  - unfold CreateService in H. destruct (validNewService svc) as [[]|] eqn:Ev; [|done]. cbn [rbind] in H.
    by apply (inv_created db l svc id db' Hid Hn (validNew svc Ev) H).
  - unfold CreateServiceWithDependencies in H. destruct (validNewService svc) as [[]|] eqn:Ev; [|done]. cbn [rbind] in H.
    destruct (createServiceCoreTx db l svc id) as [db1|] eqn:Ec; [|done]. cbn [rbind] in H.
    destruct (applyServiceDependenciesTx _ _ _ _ _) as [[x ch]|] eqn:Ea; [|done]. cbn in H. injection H as <-.
    pose proof (created _ _ _ _ _ Ec) as (_ & Hs & _). eapply (inv_applied db1 id _ ps a x ch); cycle 1.
    + rewrite Hs. apply lookup_insert_eq.
    + by apply (inv_created db l svc id db1 Hid Hn (validNew svc Ev) Ec).
    + exact Ea.
  - by apply (inv_deleted db r p id).
  - destruct H as [He Hk Hu]. apply (inv_fewer db); [..|done].
    + intros e Hin. rewrite He in Hin. apply elem_of_filter_b in Hin as [Hin Hb]. apply andb_true_iff in Hb as [H1 H2].
      by apply bool_decide_eq_true in H1, H2.
    + intros k s' Hs'. destruct (Hk k s' Hs') as (H1 & H2 & H3). split_and!; [done|done|]. intros s Hs. by apply H3.
    + exact Hu.
Qed.

Lemma graph_reachable_inv db : sys_reachable graph_system db -> graph_inv db.
Proof.
  apply invariant_rule; [|intros x y Hs Hx; by apply (graph_step_inv x)]. intros x [H1 H2].
  split; unfold edgesOf, currentParents; rewrite ?H1, ?H2; cbn.
  - intros n a b Hw. destruct Hw as [|n a b c He]; [unfold ServiceGraphDepthCap; lia|]. by apply not_elem_of_nil in He.
  - apply lookup_empty.
  - intros e He. by apply not_elem_of_nil in He.
  - intros k. unfold MaxServiceDependencies. lia.
  - intros k s. by rewrite lookup_empty.
  - intros k1 k2 s1 s2. by rewrite lookup_empty.
Qed.

(** C28: invariant of the graph of services: in every reachable state no chain of dependencies is
    longer than the cap of ten edges, whoever wrote them and in whatever order; so the graph has
    no cycle, every edge joins two different services of its project, and no service has more
    than twenty direct dependencies.  Walks cut off at the cap therefore see everything. *)
Theorem service_chains_are_short db (Hreach : sys_reachable graph_system db) :
  (forall n x y, nsteps (edge (edgesOf db)) n x y -> (n <= ServiceGraphDepthCap)%nat) /\
  (forall n x, (1 <= n)%nat -> ~ nsteps (edge (edgesOf db)) n x x) /\
  (forall e, e ∈ sg_edges db -> edge_ok db e) /\
  (forall id, (length (currentParents db id) <= MaxServiceDependencies)%nat).
Proof.
  pose proof (graph_reachable_inv db Hreach) as Hinv. split_and!; [apply Hinv| |apply Hinv|apply Hinv].
  intros n x. apply bounded_acyclic, Hinv.
Qed.

(** C29: equivalence of the validator with the rule it enforces: over a reachable graph, an edit
    whose parents are other services of the project, at most twenty and not the set already
    there, is accepted exactly when the edited graph has no chain longer than the cap.  The
    capped walks neither miss a cycle nor refuse an edit that is within bounds. *)
Theorem graph_edit_is_exact db id s parents actor
  (Hreach : sys_reachable graph_system db) (Hs : sg_services db !! id = Some s)
  (Hparents : forall p, p ∈ dedupe parents -> p <> id /\ exists sp, sg_services db !! p = Some sp /\ gs_project sp = gs_project s)
  (Hfew : (length (dedupe parents) <= MaxServiceDependencies)%nat)
  (Hchange : sameSet (currentParents db id) (dedupe parents) = false) :
  applyServiceDependenciesTx db (gs_project s) id parents actor = Ok (edited db (gs_project s) id parents actor, true) <->
  forall n x y, nsteps (edge (edgesOf (edited db (gs_project s) id parents actor))) n x y -> (n <= ServiceGraphDepthCap)%nat.
Proof.
  pose proof (graph_reachable_inv db Hreach) as Hinv.
  assert (countServices db (gs_project s) id (dedupe parents) = length (dedupe parents)) as Hcount.
  { unfold countServices. set (counted := List.filter _ _).
    assert (Permutation (map fst counted) (dedupe parents)) as Hp; [|by rewrite <- (Permutation_length Hp), length_map].
    apply NoDup_Permutation; [|apply NoDup_dedupe|].
    - eapply sublist_NoDup; [apply (NoDup_fst_map_to_list (sg_services db))|]. unfold counted. apply fmap_sublist, sublist_filter_b.
    - intros q. unfold counted. rewrite list_elem_of_fmap. setoid_rewrite elem_of_filter_b.
      setoid_rewrite andb_true_iff. setoid_rewrite andb_true_iff. setoid_rewrite negb_true_iff.
      setoid_rewrite bool_decide_eq_true. setoid_rewrite bool_decide_eq_false. split; [by intros ([k m] & -> & _ & [_ ?] & _)|].
      intros Hq. destruct (Hparents q Hq) as (Hne & sp & Hsp & Hpr). exists (q, sp). split; [done|]. by rewrite elem_of_map_to_list. }
  rewrite <- (checkEdit_exact db (gs_project s) id s parents actor Hinv Hs Hcount : _ <-> bounded _).
  unfold applyServiceDependenciesTx. cbv zeta. destruct (Nat.ltb_spec MaxServiceDependencies (length (dedupe parents))); [lia|]. cbn [refuse_if rbind].
  rewrite Hchange. destruct (checkEdit _ _ _ _) as [[]|]; cbn [rbind]; [|by split]. split; [done|]. intros _. reflexivity.
Qed.

(** ** A run: three services, a chain of two edges *)
Module GraphSample.
Definition empty : GraphDB := {| sg_services := ∅; sg_edges := []; sg_audit := []; sg_policies := []; sg_schedules := [] |}.
Definition svc (slug : string) : NewService :=
  {| ns_ProjectID := "p"; ns_Slug := slug; ns_Name := slug; ns_EscalationPolicyID := ""; ns_OncallScheduleID := "" |}.
Definition me : GraphActor := {| act_UserID := "u"; act_ViaToken := false; act_Label := "me" |}.
Definition orElse (db : GraphDB) (r : result GraphError GraphDB) : GraphDB := match r with Ok x => x | Err _ => db end.

Definition one : GraphDB := orElse empty (CreateService empty 100 (svc "db") "a").
Definition two : GraphDB := orElse one (CreateServiceWithDependencies one 100 (svc "api") "b" ["a"] me).
Definition three : GraphDB := orElse two (CreateService two 100 (svc "web") "c").
Definition four : GraphDB := match ReplaceServiceDependencies three "p" "c" ["b"] 0 me with Ok (x, _) => x | Err _ => three end.

Lemma reached : sys_reachable graph_system four.
Proof.
  exists empty. split; [done|].
  eapply rtc_l; [apply (gr_create empty 100 (svc "db") "a" one); vm_compute; done|].
  eapply rtc_l; [apply (gr_createWith one 100 (svc "api") "b" ["a"] me two); vm_compute; done|].
  eapply rtc_l; [apply (gr_create two 100 (svc "web") "c" three); vm_compute; done|].
  eapply rtc_once, (gr_replace three "p" "c" ["b"] 0 me four). vm_compute. reflexivity.
Qed.

Lemma reached_three : sys_reachable graph_system three.
Proof.
  exists empty. split; [done|].
  eapply rtc_l; [apply (gr_create empty 100 (svc "db") "a" one); vm_compute; done|].
  eapply rtc_l; [apply (gr_createWith one 100 (svc "api") "b" ["a"] me two); vm_compute; done|].
  eapply rtc_once, (gr_create two 100 (svc "web") "c" three); vm_compute; done.
Qed.
End GraphSample.

(** A cycle is refused, and so is a write under an old token. *)
Example cycle_is_refused : ReplaceServiceDependencies GraphSample.four "p" "a" ["c"] 0 GraphSample.me = Err ErrServiceGraphCycle.
Proof. vm_compute. reflexivity. Qed.

Example stale_token_is_refused : ReplaceServiceDependencies GraphSample.four "p" "c" ["a"] 0 GraphSample.me = Err ErrServiceGraphStale.
Proof. vm_compute. reflexivity. Qed.

Lemma service_chains_are_short_witness :
  ~ nsteps (edge (edgesOf GraphSample.four)) 2 "c" "c" /\ (length (currentParents GraphSample.four "c") <= MaxServiceDependencies)%nat.
Proof.
  destruct (service_chains_are_short GraphSample.four GraphSample.reached) as (_ & Hc & _ & Hp). split; [apply Hc; lia|apply Hp].
Defined.

Lemma graph_edit_is_exact_witness :
  exists s, applyServiceDependenciesTx GraphSample.three (gs_project s) "c" ["b"] GraphSample.me
            = Ok (edited GraphSample.three (gs_project s) "c" ["b"] GraphSample.me, true) <->
    forall n x y, nsteps (edge (edgesOf (edited GraphSample.three (gs_project s) "c" ["b"] GraphSample.me))) n x y -> (n <= ServiceGraphDepthCap)%nat.
Proof.
  eexists. apply (graph_edit_is_exact GraphSample.three "c" _ ["b"] GraphSample.me GraphSample.reached_three).
  - vm_compute. reflexivity.
  - intros p Hp. assert (p = "b") as -> by (vm_compute in Hp; by apply list_elem_of_singleton in Hp).
    split; [discriminate|]. eexists. split; [vm_compute; reflexivity|]. vm_compute. reflexivity.
  - vm_compute. lia.
  - vm_compute. reflexivity.
Defined.
