(* ===== verification/ServiceImpact.v ===== *)
(** * The impact of an incident through the graph
    ([internal/store/serviceimpact.go], [internal/domain/serviceimpact.go])

    At an incident's opening the services upstream and downstream of it are searched for other
    open incidents, and both sides of each relation are recorded, with one canonical path.  The
    attempt reads under the project's membership and graph locks, then locks the incidents it
    involves and looks at their state again: [planCorrelation] is the first half,
    [commitCorrelation] the second, which may find an incident resolved in between. *)

From stdpp Require Import pretty.
From S2P Require Import Prelude GoString Gate GateStore Incidents Dependencies ServiceGraph.

(** ** Vocabulary *)
Inductive ImpactRole := ImpactProbableRoot | ImpactAffected.
#[export] Instance impactRole_eq : EqDecision ImpactRole.
Proof. solve_decision. Defined.
Definition ImpactRole_text (r : ImpactRole) : string :=
  match r with ImpactProbableRoot => "probable_root" | ImpactAffected => "affected" end.

Definition ImpactMarker : string := "🕸 Impact:".
Definition MaxCorrelationWitnessesPerService : nat := 5.
Definition impactNoteNameCap : nat := 8.

Record ServiceImpactLink := { sl_ServiceID : string; sl_Slug : string; sl_Name : string; sl_Role : ImpactRole; sl_Path : list string }.

(** ** The note *)
Definition near_le (a b : ServiceImpactLink) : Prop :=
  if negb (Nat.eqb (length (sl_Path a)) (length (sl_Path b))) then (length (sl_Path a) < length (sl_Path b))%nat
  else String.le (sl_Slug a) (sl_Slug b).
#[export] Instance near_le_dec a b : Decision (near_le a b).
Proof. unfold near_le. destruct (negb _); apply _. Defined.

Definition nameOfLink (via : bool) (l : ServiceImpactLink) : string :=
  if via && negb (Nat.eqb (length (sl_Path l)) 0) then sl_Slug l +:+ " (via " +:+ String.concat " → " (sl_Path l) +:+ ")" else sl_Slug l.

Definition notePart (ls : list ServiceImpactLink) (via : bool) : string :=
  let sorted := merge_sort near_le ls in
  let out := String.concat ", " (map (nameOfLink via) (firstn impactNoteNameCap sorted)) in
  if (impactNoteNameCap <? length ls)%nat then out +:+ ", +" +:+ pretty (Z.of_nat (length ls - impactNoteNameCap)) +:+ " more" else out.

Definition ofRole (r : ImpactRole) (links : list ServiceImpactLink) : list ServiceImpactLink :=
  List.filter (fun l => bool_decide (sl_Role l = r)) links.

Definition RenderImpactNote (links : list ServiceImpactLink) : string :=
  let roots := ofRole ImpactProbableRoot links in
  let affected := ofRole ImpactAffected links in
  match roots, affected with
  | [], [] => ""
  | _, _ =>
    let segs := (match roots with [] => [] | _ => ["probable root — " +:+ notePart roots true] end)
                ++ (match affected with [] => [] | _ => ["affected — " +:+ notePart affected false] end) in
    ImpactMarker +:+ " " +:+ String.concat "; " segs +:+ "."
  end.

(** ** Rows *)
Record ImpactRow := { iw_incident : string; iw_service : string; iw_project : string; iw_role : ImpactRole; iw_path : list string }.

(** [im_members]: the (monitor, service) pairs of [service_member_refs] with role 'context'. *)
Record ImpactDB := {
  im_graph : GraphDB;
  im_members : list (string * string);
  im_incidents : gmap string Incident;
  im_updates : list IncidentUpdate;
  im_impacts : list ImpactRow;
}.

(** ** Walking *)
Record projectGraph := { pg_edges : list (string * string); pg_slug : gmap string string; pg_name : gmap string string }.

Definition slugOf (g : projectGraph) (id : string) : string := default "" (pg_slug g !! id).
Definition nameOf (g : projectGraph) (id : string) : string := default "" (pg_name g !! id).

Definition loadProjectGraphTx (db : ImpactDB) (projectID : string) : projectGraph :=
  let mine := list_to_map (M := gmap string GraphService) (servicesIn (im_graph db) projectID) in
  {| pg_edges := map (fun e => (er_child e, er_parent e)) (List.filter (fun e => bool_decide (er_project e = projectID)) (sg_edges (im_graph db)));
     pg_slug := gs_slug <$> mine; pg_name := gs_name <$> mine |}.

(** The parents of a node, or its children, by slug. *)
Definition neighbours (g : projectGraph) (up : bool) (n : string) : list string :=
  merge_sort (fun a b => String.le (slugOf g a) (slugOf g b))
    (omap (fun e => if bool_decide ((if up then e.1 else e.2) = n) then Some (if up then e.2 else e.1) else None) (pg_edges g)).

(** [strings.Join(l, "\x00")], and [<] on Go strings. *)
Definition joinNul (l : list string) : string := String.concat (String Ascii.zero "") l.
Definition string_ltb (a b : string) : bool := negb (bool_decide (String.le b a)).
Definition joinLess (a b : list string) : bool := string_ltb (joinNul a) (joinNul b).

Definition candPath (g : projectGraph) (up : bool) (base : list string) (nb : string) : list string :=
  if up then slugOf g nb :: base else base ++ [slugOf g nb].

(** One neighbour of one node of the frontier. *)
Definition offerNeighbour (g : projectGraph) (up : bool) (start : string) (best : gmap string (list string)) (base : list string)
    (next : gmap string (list string)) (nb : string) : gmap string (list string) :=
  if bool_decide (nb = start) then next
  else match best !! nb with
       | Some _ => next
       | None =>
         let cand := candPath g up base nb in
         match next !! nb with
         | Some prev => if joinLess cand prev then <[nb := cand]> next else next
         | None => <[nb := cand]> next
         end
       end.

Definition expand (g : projectGraph) (up : bool) (start : string) (best next : gmap string (list string)) (n : string * list string) :
    gmap string (list string) := foldl (offerNeighbour g up start best n.2) next (neighbours g up n.1).

Definition frontierOrder (g : projectGraph) (frontier : gmap string (list string)) : list (string * list string) :=
  merge_sort (fun a b => String.le (slugOf g a.1) (slugOf g b.1)) (map_to_list frontier).

Fixpoint walkLoop (depth : nat) (g : projectGraph) (up : bool) (start : string) (best frontier : gmap string (list string)) :
    gmap string (list string) :=
  match depth with
  | O => best
  | S depth' =>
    if bool_decide (frontier = ∅) then best
    else let next := foldl (expand g up start best) ∅ (frontierOrder g frontier) in walkLoop depth' g up start (next ∪ best) next
  end.

Definition walk (g : projectGraph) (start : string) (up : bool) : gmap string (list string) :=
  walkLoop ServiceGraphDepthCap g up start ∅ {[start := [slugOf g start]]}.

(** ** Witnesses *)
Definition isOpenIncident (i : Incident) : bool := negb (bool_decide (in_Status i = IncidentResolved)).

(** The rows of the union: through membership, then by the anchor itself. *)
Definition witnessRows (db : ImpactDB) (projectID anchorID e : string) : list (string * Time) :=
  let candidates := List.filter (fun kv => bool_decide (in_ProjectID kv.2 = projectID) && isOpenIncident kv.2 && negb (bool_decide (kv.1 = anchorID)))
                      (map_to_list (im_incidents db)) in
  flat_map (fun kv => map (fun _ => (kv.1, in_StartedAt kv.2))
              (List.filter (fun r => negb (bool_decide (in_MonitorID kv.2 = "")) && bool_decide (r = (in_MonitorID kv.2, e))) (im_members db))) candidates
  ++ omap (fun kv => if negb (bool_decide (in_ServiceID kv.2 = "")) && bool_decide (in_ServiceID kv.2 = e) then Some (kv.1, in_StartedAt kv.2) else None) candidates.

Definition started_le (a b : string * Time) : Prop := if negb (a.2 =? b.2) then a.2 < b.2 else String.le a.1 b.1.
#[export] Instance started_le_dec a b : Decision (started_le a b).
Proof. unfold started_le. destruct (negb _); apply _. Defined.

Definition boundedWitnesses (db : ImpactDB) (projectID anchorID e : string) : list string :=
  merge_sort String.le (map fst (firstn MaxCorrelationWitnessesPerService (merge_sort started_le (witnessRows db projectID anchorID e)))).

Definition overflowAt (db : ImpactDB) (projectID anchorID e : string) : Z :=
  Z.max 0 (Z.of_nat (length (witnessRows db projectID anchorID e)) - Z.of_nat MaxCorrelationWitnessesPerService).

Definition servicesOfMonitorTx (db : ImpactDB) (monitorID : string) : list string :=
  merge_sort String.le (omap (fun r => if bool_decide (r.1 = monitorID) then Some r.2 else None) (im_members db)).

(** ** Candidates *)
Record Candidate := { ca_incident : string; ca_service : string; ca_role : ImpactRole; ca_path : list string; ca_witnesses : list string }.

Definition keyOfCandidate (c : Candidate) : string := ca_incident c +:+ "|" +:+ ca_service c +:+ "|" +:+ ImpactRole_text (ca_role c).

(** [better]: the canonical order. *)
Definition better (a b : list string) : bool :=
  if negb (Nat.eqb (length a) (length b)) then (length a <? length b)%nat else joinLess a b.

Definition mergeCandidate (prev c : Candidate) : Candidate :=
  {| ca_incident := ca_incident prev; ca_service := ca_service prev; ca_role := ca_role prev;
     ca_path := if better (ca_path c) (ca_path prev) then ca_path c else ca_path prev;
     ca_witnesses := ca_witnesses prev ++ ca_witnesses c |}.

Definition addCandidate (byKey : gmap string Candidate) (c : Candidate) : gmap string Candidate :=
  match byKey !! keyOfCandidate c with
  | Some prev => <[keyOfCandidate c := mergeCandidate prev c]> byKey
  | None => <[keyOfCandidate c := c]> byKey
  end.

(** What one endpoint of one own service contributes, upward and downward. *)
Definition upward (incidentID own e : string) (path : list string) (j : string) : list Candidate :=
  [{| ca_incident := incidentID; ca_service := e; ca_role := ImpactProbableRoot; ca_path := path; ca_witnesses := [j] |};
   {| ca_incident := j; ca_service := own; ca_role := ImpactAffected; ca_path := path; ca_witnesses := [incidentID] |}].
Definition downward (incidentID own e : string) (path : list string) (j : string) : list Candidate :=
  [{| ca_incident := incidentID; ca_service := e; ca_role := ImpactAffected; ca_path := path; ca_witnesses := [j] |};
   {| ca_incident := j; ca_service := own; ca_role := ImpactProbableRoot; ca_path := path; ca_witnesses := [j] |}].

Definition candidatesFrom (g : projectGraph) (witnesses : string -> list string) (incidentID own : string) : list Candidate :=
  flat_map (fun ep => flat_map (upward incidentID own ep.1 ep.2) (witnesses ep.1)) (map_to_list (walk g own true))
  ++ flat_map (fun ep => flat_map (downward incidentID own ep.1 ep.2) (witnesses ep.1)) (map_to_list (walk g own false)).

(** The anchor's own services. *)
Definition ownServices (db : ImpactDB) (i : Incident) : list string :=
  if negb (bool_decide (in_MonitorID i = "")) then servicesOfMonitorTx db (in_MonitorID i) else [in_ServiceID i].

Definition endpointsOf (g : projectGraph) (own : list string) : list string :=
  merge_sort String.le (remove_dups (flat_map (fun s => map fst (map_to_list (walk g s true)) ++ map fst (map_to_list (walk g s false))) own)).

(** The first half: the candidates by key and the witnesses left out; [None] when the attempt
    ends before it looks for witnesses. *)
Definition planCorrelation (db : ImpactDB) (incidentID : string) : option (string * gmap string Candidate * Z) :=
  match im_incidents db !! incidentID with
  | None => None
  | Some i =>
    if negb (isOpenIncident i) || (bool_decide (in_MonitorID i = "") && bool_decide (in_ServiceID i = "")) then None
    else
      let own := ownServices db i in
      let g := loadProjectGraphTx db (in_ProjectID i) in
      match own, pg_edges g, endpointsOf g own with
      | [], _, _ | _, [], _ | _, _, [] => None
      | _, _, endpoints =>
        let witnesses := boundedWitnesses db (in_ProjectID i) incidentID in
        Some (in_ProjectID i, foldl addCandidate ∅ (flat_map (candidatesFrom g witnesses incidentID) own),
              foldr Z.add 0 (map (overflowAt db (in_ProjectID i) incidentID) endpoints))
      end
  end.

(** ** The second half *)
Definition openStatus (db : ImpactDB) (id : string) : option IncidentStatus :=
  match im_incidents db !! id with Some i => if isOpenIncident i then Some (in_Status i) else None | None => None end.

Definition sameLink (c : Candidate) (r : ImpactRow) : bool :=
  bool_decide (iw_incident r = ca_incident c) && bool_decide (iw_service r = ca_service c) && bool_decide (iw_role r = ca_role c).

Definition rowOfCandidate (projectID : string) (c : Candidate) : ImpactRow :=
  {| iw_incident := ca_incident c; iw_service := ca_service c; iw_project := projectID; iw_role := ca_role c; iw_path := ca_path c |}.

(** The candidates whose incident and one witness are still open, and that no row holds yet. *)
Definition insertLink (db : ImpactDB) (projectID : string) (rows : list ImpactRow) (c : Candidate) : list ImpactRow :=
  if bool_decide (openStatus db (ca_incident c) = None) then rows
  else if negb (existsb (fun w => negb (bool_decide (openStatus db w = None))) (ca_witnesses c)) then rows
  else if existsb (sameLink c) (im_impacts db ++ rows) then rows
  else rows ++ [rowOfCandidate projectID c].

Definition linkOfRow (g : projectGraph) (r : ImpactRow) : ServiceImpactLink :=
  {| sl_ServiceID := iw_service r; sl_Slug := slugOf g (iw_service r); sl_Name := nameOf g (iw_service r); sl_Role := iw_role r;
     sl_Path := iw_path r |}.

Definition impactNote (db : ImpactDB) (g : projectGraph) (rows : list ImpactRow) (upID : string -> string) (now : Time) (inc : string) :
    option IncidentUpdate :=
  let body := RenderImpactNote (map (linkOfRow g) (List.filter (fun r => bool_decide (iw_incident r = inc)) rows)) in
  if bool_decide (body = "") then None
  else Some {| iu_ID := upID inc; iu_IncidentID := inc; iu_Status := default IncidentResolved (openStatus db inc); iu_Body := body;
               iu_Author := "system"; iu_CreatedAt := now |}.

(** The candidates in the order of their keys. *)
Definition inKeyOrder (byKey : gmap string Candidate) : list Candidate :=
  map snd (merge_sort (fun a b => String.le a.1 b.1) (map_to_list byKey)).

(** [now] and [upID] are what the database gives the notes; the graph is still the plan's, under
    its lock. *)
Definition commitCorrelation (db : ImpactDB) (incidentID : string) (plan : option (string * gmap string Candidate * Z))
    (upID : string -> string) (now : Time) : ImpactDB * (list ServiceImpactLink * Z) :=
  match plan with
  | None => (db, ([], 0))
  | Some (projectID, byKey, overflow) =>
    if bool_decide (byKey = ∅) then (db, ([], overflow))
    else if bool_decide (openStatus db incidentID = None) then (db, ([], 0))
    else
      let g := loadProjectGraphTx db projectID in
      let rows := foldl (insertLink db projectID) [] (inKeyOrder byKey) in
      let notes := omap (impactNote db g rows upID now) (remove_dups (map iw_incident rows)) in
      ({| im_graph := im_graph db; im_members := im_members db; im_incidents := im_incidents db; im_updates := im_updates db ++ notes;
          im_impacts := im_impacts db ++ rows |}, (map (linkOfRow g) rows, overflow))
  end.

(** [CorrelateIncident], when nothing resolves between its reads and its locks. *)
Definition CorrelateIncident (db : ImpactDB) (incidentID : string) (upID : string -> string) (now : Time) :
    ImpactDB * (list ServiceImpactLink * Z) := commitCorrelation db incidentID (planCorrelation db incidentID) upID now.

(** ** Reading *)
Definition impact_le (g : GraphDB) (a b : ImpactRow) : Prop :=
  let rank r := match iw_role r with ImpactProbableRoot => 0 | ImpactAffected => 1 end in
  let slug r := match sg_services g !! iw_service r with Some s => gs_slug s | None => "" end in
  if negb (rank a =? rank b) then rank a < rank b
  else if negb (Nat.eqb (length (iw_path a)) (length (iw_path b))) then (length (iw_path a) < length (iw_path b))%nat
  else String.le (slug a) (slug b).
#[export] Instance impact_le_dec g a b : Decision (impact_le g a b).
Proof. unfold impact_le. cbv zeta. repeat destruct (negb _); apply _. Defined.

Definition ListIncidentImpacts (db : ImpactDB) (projectID incidentID : string) : list ServiceImpactLink :=
  omap (fun r => match sg_services (im_graph db) !! iw_service r with
                 | Some s => if bool_decide (gs_project s = iw_project r)
                             then Some {| sl_ServiceID := iw_service r; sl_Slug := gs_slug s; sl_Name := gs_name s; sl_Role := iw_role r;
                                          sl_Path := iw_path r |}
                             else None
                 | None => None
                 end)
       (merge_sort (impact_le (im_graph db))
          (List.filter (fun r => bool_decide (iw_incident r = incidentID) && bool_decide (iw_project r = projectID)) (im_impacts db))).
