(* ===== verification/ImpactWalk.v ===== *)
(** * Walks through the graph of services

    The level-by-level walk of a correlation finds, for every service within the cap, its
    canonical path: among the shortest chains the one whose slugs, root first, come first.  The
    path up from a service to another is the path down from the other. *)

From S2P Require Import Prelude GoString Gate GateStore Incidents Dependencies DependencyFacts ServiceGraph GraphFacts ServiceImpact.

(** ** The order of paths *)
Fixpoint clean (s : string) : bool :=
  match s with "" => true | String c s => negb (bool_decide (c = Ascii.zero)) && clean s end.

Lemma string_ltb_lt a b : string_ltb a b = true <-> String.compare a b = Lt.
Proof.
  unfold string_ltb. rewrite negb_true_iff, bool_decide_eq_false, (String.compare_antisym a b). unfold String.le, String.leb.
  destruct (String.compare b a); cbn; intuition congruence.
Qed.

Lemma ascii_compare_refl c : Ascii.compare c c = Eq.
Proof. apply N.compare_refl. Qed.

Lemma string_compare_refl s : String.compare s s = Eq.
Proof. induction s as [|c s IH]; [done|]. cbn. by rewrite ascii_compare_refl. Qed.

Lemma zero_smallest c : c <> Ascii.zero -> Ascii.compare Ascii.zero c = Lt.
Proof.
  intros Hc. unfold Ascii.compare. apply N.compare_lt_iff. change (Ascii.N_of_ascii Ascii.zero) with 0%N.
  assert (Ascii.N_of_ascii c <> 0%N); [|lia]. intros E. apply Hc. rewrite <- (Ascii.ascii_N_embedding c), E. reflexivity.
Qed.

Lemma zero_smallest' c : c <> Ascii.zero -> Ascii.compare c Ascii.zero = Gt.
Proof. intros Hc. by rewrite Ascii.compare_antisym, zero_smallest. Qed.

Lemma compare_cut x y a b :
  clean x = true -> clean y = true ->
  String.compare (x +:+ String Ascii.zero a) (y +:+ String Ascii.zero b)
  = match String.compare x y with Eq => String.compare a b | c => c end.
Proof.
  revert y. induction x as [|c x IH]; intros [|d y] Hx Hy; cbn [String.append String.compare clean] in *; rewrite ?andb_true_iff, ?negb_true_iff, ?bool_decide_eq_false in *.
  - done.
  - change (match Ascii.compare Ascii.zero d with Eq => String.compare a (y +:+ String Ascii.zero b) | c => c end = Lt).
    by rewrite zero_smallest by tauto.
  - change (match Ascii.compare c Ascii.zero with Eq => String.compare (x +:+ String Ascii.zero a) b | c => c end = Gt).
    by rewrite zero_smallest' by tauto.
  - change (match Ascii.compare c d with Eq => String.compare (x +:+ String Ascii.zero a) (y +:+ String Ascii.zero b) | c => c end
            = match match Ascii.compare c d with Eq => String.compare x y | c => c end with Eq => String.compare a b | c => c end).
    destruct (Ascii.compare c d); [|done..]. apply IH; tauto.
Qed.

Fixpoint lexCompare (a b : list string) : comparison :=
  match a, b with
  | x :: a', y :: b' => match String.compare x y with Eq => lexCompare a' b' | c => c end
  | _, _ => Eq
  end.

Lemma join_compare a b :
  Forall (fun s => clean s = true) a -> Forall (fun s => clean s = true) b -> length a = length b ->
  String.compare (joinNul a) (joinNul b) = lexCompare a b.
Proof.
  revert b. induction a as [|x a IH]; intros [|y b] Ha Hb Hl; try done. injection Hl as Hl.
  apply List.Forall_cons_iff in Ha as [Hx Ha], Hb as [Hy Hb]. destruct a as [|x2 a], b as [|y2 b]; try done.
  - cbn. by destruct (String.compare x y).
  - specialize (IH (y2 :: b) Ha Hb Hl).
    change (joinNul (x :: x2 :: a)) with (x +:+ String Ascii.zero (joinNul (x2 :: a))).
    change (joinNul (y :: y2 :: b)) with (y +:+ String Ascii.zero (joinNul (y2 :: b))).
    rewrite compare_cut, IH by done. done.
Qed.

Lemma lexCompare_snoc a b s : length a = length b -> lexCompare (a ++ [s]) (b ++ [s]) = lexCompare a b.
Proof.
  revert b. induction a as [|x a IH]; intros [|y b] Hl; try done; cbn; [by rewrite string_compare_refl|].
  injection Hl as Hl. by rewrite IH.
Qed.

Lemma lexCompare_cons a b s : lexCompare (s :: a) (s :: b) = lexCompare a b.
Proof. cbn. by rewrite string_compare_refl. Qed.

Lemma lexCompare_eq a b : length a = length b -> lexCompare a b = Eq -> a = b.
Proof.
  revert b. induction a as [|x a IH]; intros [|y b] Hl; try done; cbn. injection Hl as Hl.
  destruct (String.compare x y) eqn:E; [|done..]. intros H. apply String.compare_eq_iff in E as ->. f_equal. by apply IH.
Qed.

Lemma joinLess_not a b c : joinLess b a = false -> joinLess c b = false -> joinLess c a = false.
Proof.
  unfold joinLess, string_ltb. rewrite !negb_false_iff, !bool_decide_eq_true. intros H1 H2. by etrans.
Qed.

Lemma joinLess_total a b : joinLess a b = false -> joinLess b a = false -> joinNul a = joinNul b.
Proof. unfold joinLess, string_ltb. rewrite !negb_false_iff, !bool_decide_eq_true. intros H1 H2. by apply (anti_symm String.le). Qed.

Lemma joinLess_asym a b : joinLess a b = true -> joinLess b a = false.
Proof.
  unfold joinLess, string_ltb. rewrite negb_true_iff, negb_false_iff, bool_decide_eq_true, bool_decide_eq_false.
  intros H. by destruct (total String.le (joinNul a) (joinNul b)).
Qed.

(** ** Walks and their paths *)
Section walk.
Context (g : projectGraph) (up : bool) (start : string).
Context (Hclean : forall id, clean (slugOf g id) = true).

Definition step : relation string := fun n nb => nb ∈ neighbours g up n.

Lemma step_edge n nb : step n nb <-> if up then edge (pg_edges g) n nb else edge (pg_edges g) nb n.
Proof.
  unfold step, neighbours, edge. rewrite (merge_sort_Permutation _), list_elem_of_omap. split.
  - intros ([x y] & He & H). cbn in H. case_bool_decide as E; [|done]. injection H as <-. destruct up; cbn in *; by subst.
  - intros H. exists (if up then (n, nb) else (nb, n)). destruct up; cbn; by rewrite bool_decide_eq_true_2.
Qed.

(** The slugs along a walk from the start. *)
Inductive walkPath : nat -> string -> list string -> Prop :=
| wp_start : walkPath 0 start [slugOf g start]
| wp_step k n nb p : walkPath k n p -> step n nb -> walkPath (S k) nb (candPath g up p nb).

Definition reach (k : nat) (e : string) : Prop := exists p, walkPath k e p.
Definition shortest (k : nat) (e : string) : Prop := reach k e /\ forall j, (j < k)%nat -> ~ reach j e.

(** Among the shortest walks the least path. *)
Definition canonical (k : nat) (e : string) (p : list string) : Prop :=
  shortest k e /\ walkPath k e p /\ forall q, walkPath k e q -> joinLess q p = false.

Lemma walkPath_shape k e p : walkPath k e p -> length p = S k /\ Forall (fun s => clean s = true) p.
Proof.
  induction 1 as [|k n nb p _ [Hl Hc] _]; [split; [done|by repeat constructor]|]. unfold candPath. destruct up; cbn.
  - split; [by rewrite Hl|by constructor].
  - split; [rewrite length_app, Hl; cbn; lia|]. apply List.Forall_app. split; [done|by repeat constructor].
Qed.

(** Extending two walks alike keeps their order. *)
Lemma candPath_less k n1 n2 nb p q :
  walkPath k n1 p -> walkPath k n2 q -> joinLess (candPath g up p nb) (candPath g up q nb) = joinLess p q.
Proof.
  intros Hp Hq. destruct (walkPath_shape _ _ _ Hp) as [Lp Cp], (walkPath_shape _ _ _ Hq) as [Lq Cq].
  assert (forall a b, Forall (fun s => clean s = true) a -> Forall (fun s => clean s = true) b -> length a = length b ->
            joinLess a b = match lexCompare a b with Lt => true | _ => false end) as Hj.
  { intros a b Ha Hb Hl. apply eq_true_iff_eq. unfold joinLess. rewrite string_ltb_lt, join_compare by done. by destruct (lexCompare a b). }
  rewrite (Hj p q) by (done || congruence). unfold candPath. destruct up.
  - rewrite Hj; [by rewrite lexCompare_cons|by constructor..|cbn; congruence].
  - rewrite Hj; [by rewrite lexCompare_snoc by congruence|apply List.Forall_app; split; [done|by repeat constructor]..|rewrite !length_app; cbn; lia].
Qed.

Lemma canonical_unique k1 k2 e p1 p2 : canonical k1 e p1 -> canonical k2 e p2 -> k1 = k2 /\ p1 = p2.
Proof.
  intros ([R1 S1] & W1 & M1) ([R2 S2] & W2 & M2).
  assert (k1 = k2) as <-.
  { destruct (Nat.lt_total k1 k2) as [H|[H|H]]; [by destruct (S2 _ H)|done|by destruct (S1 _ H)]. }
  split; [done|]. destruct (walkPath_shape _ _ _ W1) as [L1 C1], (walkPath_shape _ _ _ W2) as [L2 C2].
  apply lexCompare_eq; [congruence|]. rewrite <- join_compare by (done || congruence).
  rewrite (joinLess_total p1 p2) by auto. apply string_compare_refl.
Qed.

Lemma reach_start : reach 0 start.
Proof. eexists. constructor. Qed.

Lemma reach_step k n nb : reach k n -> step n nb -> reach (S k) nb.
Proof. intros [p Hp] Hs. eexists. by econstructor. Qed.

Lemma reach_inv k e : reach (S k) e -> exists n, reach k n /\ step n e.
Proof. intros [p Hp]. inversion Hp; subst. eexists. split; [by eexists|done]. Qed.

(** ** One round *)
Definition offers (frontier : list (string * list string)) : list (list string * string) :=
  flat_map (fun n => map (fun nb => (n.2, nb)) (neighbours g up n.1)) frontier.

Definition offer1 (best next : gmap string (list string)) (o : list string * string) : gmap string (list string) :=
  offerNeighbour g up start best o.1 next o.2.

Lemma fold_offers best next frontier : foldl (expand g up start best) next frontier = foldl (offer1 best) next (offers frontier).
Proof.
  revert next. induction frontier as [|n l IH]; intros next; [done|]. cbn [foldl offers flat_map]. rewrite foldl_app, IH.
  f_equal. unfold expand. clear IH. revert next. induction (neighbours g up n.1) as [|nb nbs IH]; intros next; [done|]. cbn. apply IH.
Qed.

(** What was offered to a node. *)
Definition offered (best : gmap string (list string)) (os : list (list string * string)) (nb : string) (c : list string) : Prop :=
  exists base, (base, nb) ∈ os /\ nb <> start /\ best !! nb = None /\ c = candPath g up base nb.

Lemma round_spec best os nb :
  match foldl (offer1 best) ∅ os !! nb with
  | Some p => offered best os nb p /\ forall c, offered best os nb c -> joinLess c p = false
  | None => forall c, ~ offered best os nb c
  end.
Proof.
  induction os as [|[base m] os IH] using rev_ind.
  { cbn. rewrite lookup_empty. intros c (b & H & _). by apply not_elem_of_nil in H. }
  rewrite foldl_app. cbn. set (next := foldl _ ∅ os) in *. unfold offer1, offerNeighbour. cbn.
  assert (forall c, offered best (os ++ [(base, m)]) nb c <->
            offered best os nb c \/ nb = m /\ nb <> start /\ best !! nb = None /\ c = candPath g up base nb) as Ho.
  { intros c. unfold offered. setoid_rewrite elem_of_app. setoid_rewrite list_elem_of_singleton. split.
    - intros (b & [H|[= -> ->]] & Hr); [left; by exists b|by right].
    - intros [(b & H & Hr)|(-> & Hr)]; [exists b; split; [by left|done]|exists base; split; [by right|done]]. }
  assert (nb <> m \/ nb = start \/ is_Some (best !! nb) ->
    match next !! nb with
    | Some p => offered best (os ++ [(base, m)]) nb p /\ forall c, offered best (os ++ [(base, m)]) nb c -> joinLess c p = false
    | None => forall c, ~ offered best (os ++ [(base, m)]) nb c
    end) as Hsame.
  { intros Hn. assert (forall c, offered best (os ++ [(base, m)]) nb c <-> offered best os nb c) as Heq.
    { intros c. rewrite Ho. split; [|by left]. intros [?|(-> & H1 & H2 & _)]; [done|]. destruct Hn as [?|[?|[? H3]]]; [done..|congruence]. }
    destruct (next !! nb) as [p|].
    - split; [apply Heq, IH|]. intros c Hc%Heq. by apply IH.
    - intros c Hc%Heq. by apply (IH c). }
  case_bool_decide as Hm; [apply Hsame; destruct (decide (nb = m)) as [->|]; [by right; left|by left]|].
  destruct (best !! m) as [q|] eqn:Eb.
  { apply Hsame. destruct (decide (nb = m)) as [->|]; [right; right; by exists q|by left]. }
  destruct (decide (nb = m)) as [->|Hnm].
  2: { destruct (next !! m); [destruct (joinLess _ _)|]; rewrite ?lookup_insert_ne by done; apply Hsame; by left. }
  set (cand := candPath g up base m) in *. destruct (next !! m) as [p|] eqn:En.
  - destruct IH as [IH1 IH2]. destruct (joinLess cand p) eqn:El.
    + rewrite lookup_insert_eq. split; [apply Ho; by right|]. intros c [Hc|(_ & _ & _ & ->)]%Ho.
      * apply (joinLess_not cand p c); [by apply joinLess_asym|by apply IH2].
      * destruct (joinLess cand cand) eqn:Ec; [|done]. by rewrite (joinLess_asym _ _ Ec) in Ec.
    + rewrite En. split; [apply Ho; by left|]. intros c [Hc|(_ & _ & _ & ->)]%Ho; [by apply IH2|done].
  - rewrite lookup_insert_eq. split; [apply Ho; by right|]. intros c [Hc|(_ & _ & _ & ->)]%Ho; [by destruct (IH c)|].
    destruct (joinLess cand cand) eqn:Ec; [|done]. by rewrite (joinLess_asym _ _ Ec) in Ec.
Qed.

(** ** The rounds *)
Record walk_inv (d : nat) (best frontier : gmap string (list string)) : Prop := {
  wi_best : forall e p, best !! e = Some p -> exists k, (1 <= k <= d)%nat /\ canonical k e p;
  wi_done : forall k e, (k <= d)%nat -> reach k e -> e = start \/ is_Some (best !! e);
  wi_frontier : forall e p, frontier !! e = Some p -> canonical d e p;
  wi_level : forall e, shortest d e -> is_Some (frontier !! e);
}.

Lemma elem_of_frontierOrder frontier n b : (n, b) ∈ frontierOrder g frontier <-> frontier !! n = Some b.
Proof. unfold frontierOrder. rewrite (merge_sort_Permutation _). apply elem_of_map_to_list. Qed.

Lemma elem_of_offers frontier base nb :
  (base, nb) ∈ offers (frontierOrder g frontier) <-> exists n, frontier !! n = Some base /\ step n nb.
Proof.
  unfold offers. rewrite list_elem_of_In, in_flat_map. setoid_rewrite <- list_elem_of_In. split.
  - intros ([n b] & Hn%elem_of_frontierOrder & H). apply list_elem_of_fmap in H as (m & [= -> ->] & Hm). exists n. split; [done|exact Hm].
  - intros (n & Hn & Hs). exists (n, base). split; [by apply elem_of_frontierOrder|]. apply list_elem_of_fmap. exists nb. split; [done|exact Hs].
Qed.

Lemma offered_iff best frontier nb c :
  offered best (offers (frontierOrder g frontier)) nb c <->
  exists n base, frontier !! n = Some base /\ step n nb /\ nb <> start /\ best !! nb = None /\ c = candPath g up base nb.
Proof. unfold offered. setoid_rewrite elem_of_offers. naive_solver. Qed.

Definition nextRound (best frontier : gmap string (list string)) : gmap string (list string) :=
  foldl (expand g up start best) ∅ (frontierOrder g frontier).

Lemma inv_round d best frontier : walk_inv d best frontier -> walk_inv (S d) (nextRound best frontier ∪ best) (nextRound best frontier).
Proof.
  intros [Hb Hd Hf Hl]. set (next := nextRound best frontier).
  assert (forall nb, match next !! nb with
    | Some p => offered best (offers (frontierOrder g frontier)) nb p /\
                forall c, offered best (offers (frontierOrder g frontier)) nb c -> joinLess c p = false
    | None => forall c, ~ offered best (offers (frontierOrder g frontier)) nb c end) as Hnext.
  { intros nb. unfold next, nextRound. rewrite fold_offers. apply round_spec. }
  assert (forall j e, (j <= d)%nat -> best !! e = None -> e <> start -> ~ reach j e) as Hfresh.
  { intros j e Hj He Hs Hr. destruct (Hd j e Hj Hr) as [?|[? ?]]; congruence. }
  assert (forall n e, reach d n -> step n e -> best !! e = None -> e <> start -> shortest d n) as Hprev.
  { intros n e Hn Hs He Hne. split; [done|]. intros j Hj Hr. by apply (Hfresh (S j) e); [lia|done|done|apply reach_step with n]. }
  assert (forall e p, next !! e = Some p -> canonical (S d) e p) as Hcan.
  { intros e p He. specialize (Hnext e). rewrite He in Hnext. destruct Hnext as [(n & base & Hn & Hs & Hne & Hbe & ->)%offered_iff Hmin].
    destruct (Hf n base Hn) as (_ & Hw & _). split; [|split].
    - split; [eexists; by econstructor|]. intros j Hj. apply Hfresh; [lia|done|done].
    - by econstructor.
    - intros q Hq. inversion Hq as [|k n' nb' q' Hq' Hs' Ek Enb Eq]; subst.
      destruct (Hl n') as [base' Hn']; [apply (Hprev n' e); [by eexists|done..]|].
      destruct (Hf n' base' Hn') as (_ & Hw' & Hm'). apply (joinLess_not _ (candPath g up base' e)).
      + apply Hmin, offered_iff. by exists n', base'.
      + rewrite (candPath_less d n' n'); [by apply Hm'|done..]. }
  assert (forall e, best !! e = None -> shortest (S d) e -> is_Some (next !! e)) as Hlev.
  { intros e He [Hr Hno]. assert (e <> start) as Hne by (intros ->; apply (Hno 0%nat); [lia|apply reach_start]).
    destruct (reach_inv _ _ Hr) as (n & Hn & Hs). destruct (Hl n (Hprev n e Hn Hs He Hne)) as [base Hbase].
    specialize (Hnext e). destruct (next !! e) as [p|]; [by exists p|]. exfalso. apply (Hnext (candPath g up base e)), offered_iff. by exists n, base. }
  assert (forall e, shortest (S d) e -> best !! e = None) as Hnone.
  { intros e [_ Hno]. destruct (best !! e) as [p|] eqn:E; [|done]. destruct (Hb e p E) as (k & Hk & [[Hr _] _]). destruct (Hno k); [lia|done]. }
  split.
  - intros e p [H|[_ H]]%lookup_union_Some_raw.
    + exists (S d). split; [lia|by apply Hcan].
    + destruct (Hb e p H) as (k & Hk & Hc). exists k. split; [lia|done].
  - intros k e Hk Hr. destruct (decide (e = start)) as [|Hne]; [by left|right]. rewrite lookup_union_is_Some.
    destruct (best !! e) as [p|] eqn:E; [right; by exists p|left]. apply Hlev; [done|].
    destruct (decide (k = S d)) as [->|]; [|by destruct (Hfresh k e ltac:(lia) E Hne)].
    split; [done|]. intros j Hj. apply Hfresh; [lia|done|done].
  - exact Hcan.
  - intros e He. by apply Hlev; [apply Hnone|].
Qed.

(** Stopping at an empty frontier changes nothing. *)
Lemma empty_round best : nextRound best ∅ = ∅.
Proof. unfold nextRound, frontierOrder. by rewrite map_to_list_empty. Qed.

Lemma walkLoop_inv depth d best frontier :
  walk_inv d best frontier -> exists frontier', walk_inv (d + depth) (walkLoop depth g up start best frontier) frontier'.
Proof.
  revert d best frontier. induction depth as [|depth IH]; intros d best frontier Hinv; cbn [walkLoop].
  { exists frontier. by rewrite Nat.add_0_r. }
  case_bool_decide as Hempty.
  - exists ∅. subst frontier. clear IH. assert (forall n, walk_inv (d + n) best ∅) as H; [|apply H].
    induction n as [|n IH]; [by rewrite Nat.add_0_r|]. apply inv_round in IH. rewrite empty_round, (left_id_L ∅ (∪)) in IH.
    by rewrite Nat.add_succ_r.
  - cbv zeta. change (foldl (expand g up start best) ∅ (frontierOrder g frontier)) with (nextRound best frontier).
    rewrite Nat.add_succ_r, <- Nat.add_succ_l. by apply IH, inv_round.
Qed.

Lemma inv_init : walk_inv 0 ∅ {[start := [slugOf g start]]}.
Proof.
  split.
  - intros e p. by rewrite lookup_empty.
  - intros k e Hk [p Hp]. left. destruct k; [by inversion Hp|lia].
  - intros e p [<- <-]%lookup_singleton_Some. split; [split; [apply reach_start|lia]|]. split; [constructor|].
    intros q Hq. inversion Hq; subst. destruct (joinLess [slugOf g start] [slugOf g start]) eqn:E; [|done].
    by rewrite (joinLess_asym _ _ E) in E.
  - intros e [[p Hp] _]. inversion Hp; subst. rewrite lookup_singleton_eq. by eexists.
Qed.

(** What the walk answers. *)
Lemma walk_spec :
  (forall e p, walk g start up !! e = Some p -> e <> start /\ exists k, (1 <= k <= ServiceGraphDepthCap)%nat /\ canonical k e p) /\
  (forall k e, (k <= ServiceGraphDepthCap)%nat -> reach k e -> e <> start -> is_Some (walk g start up !! e)).
Proof.
  destruct (walkLoop_inv ServiceGraphDepthCap 0 ∅ {[start := [slugOf g start]]} inv_init) as [f [Hb Hd _ _]]. fold (walk g start up) in Hb, Hd. split.
  - intros e p He. destruct (Hb e p He) as (k & Hk & Hc). split; [|by exists k]. intros ->. destruct Hc as [[_ Hno] _].
    apply (Hno 0%nat); [lia|apply reach_start].
  - intros k e Hk Hr Hne. by destruct (Hd k e Hk Hr).
Qed.
End walk.

(** ** Chains, from the root to the leaf *)
Section chains.
Context (g : projectGraph) (Hclean : forall id, clean (slugOf g id) = true).

(** [r'] is a dependency of [r], which is [k] edges above the leaf. *)
Inductive chainPath : nat -> string -> string -> list string -> Prop :=
| cp_self x : chainPath 0 x x [slugOf g x]
| cp_root k r r' l p : chainPath k r l p -> edge (pg_edges g) r r' -> chainPath (S k) r' l (slugOf g r' :: p).

Definition canonicalChain (k : nat) (r l : string) (p : list string) : Prop :=
  chainPath k r l p /\ (forall j q, (j < k)%nat -> ~ chainPath j r l q) /\ forall q, chainPath k r l q -> joinLess q p = false.

Lemma walkPath_up s k e p : walkPath g true s k e p <-> chainPath k e s p.
Proof.
  split.
  - induction 1 as [|k n nb p _ IH Hs]; [constructor|]. apply step_edge in Hs. by econstructor.
  - induction 1 as [x|k r r' l p _ IH Hs]; [constructor|]. change (walkPath g true l (S k) r' (candPath g true p r')).
    econstructor; [exact IH|]. by apply step_edge.
Qed.

Lemma chain_snoc k r l l' p : chainPath k r l p -> edge (pg_edges g) l' l -> chainPath (S k) r l' (p ++ [slugOf g l']).
Proof.
  induction 1 as [x|k r r' l p _ IH He]; intros Hl; cbn; [|by econstructor; [apply IH|]].
  eapply cp_root; [constructor|done].
Qed.

Lemma chain_unsnoc k r l' q :
  chainPath (S k) r l' q -> exists l p, chainPath k r l p /\ edge (pg_edges g) l' l /\ q = p ++ [slugOf g l'].
Proof.
  revert r q. induction k as [|k IH]; intros r q H; inversion H as [|k0 r0 r1 l p H0 He]; subst.
  - inversion H0; subst. exists r, [slugOf g r]. split; [constructor|]. done.
  - destruct (IH _ _ H0) as (l & p1 & Hc & Hl & ->). exists l, (slugOf g r :: p1). split; [by econstructor|]. done.
Qed.

Lemma walkPath_down s k e p : walkPath g false s k e p <-> chainPath k s e p.
Proof.
  split.
  - induction 1 as [|k n nb p _ IH Hs]; [constructor|]. apply step_edge in Hs. by apply chain_snoc with n.
  - revert e p. induction k as [|k IH]; intros e p H; [inversion H; subst; constructor|].
    apply chain_unsnoc in H as (l & p1 & Hc & Hl & ->). change (walkPath g false s (S k) e (candPath g false p1 e)).
    apply wp_step with l; [by apply IH|]. by apply step_edge.
Qed.

Definition ends (up : bool) (start e : string) : string * string := if up then (e, start) else (start, e).

Lemma walkPath_chain up s k e p : walkPath g up s k e p <-> chainPath k (ends up s e).1 (ends up s e).2 p.
Proof. destruct up; [apply walkPath_up|apply walkPath_down]. Qed.

Lemma canonical_chain up s k e p : canonical g up s k e p <-> canonicalChain k (ends up s e).1 (ends up s e).2 p.
Proof.
  unfold canonical, canonicalChain, shortest, reach. setoid_rewrite walkPath_chain. split.
  - intros ([_ Hs] & Hw & Hm). split; [done|]. split; [|done]. intros j q Hj Hq. apply (Hs j Hj). by exists q.
  - intros (Hw & Hs & Hm). split; [split; [by exists p|]|done]. intros j Hj [q Hq]. by apply (Hs j q).
Qed.

Lemma walk_canonical up s e p :
  walk g s up !! e = Some p <->
  e <> s /\ exists k, (k <= ServiceGraphDepthCap)%nat /\ canonicalChain k (ends up s e).1 (ends up s e).2 p.
Proof.
  destruct (walk_spec g up s Hclean) as [H1 H2]. split.
  - intros H. destruct (H1 e p H) as (Hne & k & Hk & Hc). split; [done|]. exists k. split; [lia|]. by apply canonical_chain.
  - intros (Hne & k & Hk & Hc%canonical_chain). destruct (H2 k e Hk) as [q Hq]; [by exists p; apply Hc|done|].
    destruct (H1 e q Hq) as (_ & k' & _ & Hc'). by destruct (canonical_unique g up s Hclean k' k e q p Hc' Hc) as [_ ->].
Qed.

(** Up from a service to its dependency is down from the dependency to the service. *)
Lemma walk_symmetric s r : walk g s true !! r = walk g r false !! s.
Proof.
  apply option_eq. intros p. rewrite (walk_canonical true), (walk_canonical false). cbn. naive_solver.
Qed.

Lemma chain_nsteps k r l p : chainPath k r l p -> nsteps (edge (pg_edges g)) k l r.
Proof. induction 1 as [x|k r r' l p _ IH He]; [constructor|]. by eapply nsteps_r. Qed.

Lemma nsteps_chain k r l : nsteps (edge (pg_edges g)) k l r -> exists p, chainPath k r l p.
Proof.
  revert r. induction k as [|k IH]; intros r H.
  - inversion H; subst. eexists. constructor.
  - apply nsteps_inv_r in H as (y & Hy & He). destruct (IH y Hy) as [p Hp]. eexists. by econstructor.
Qed.

Lemma chain_length k r l p : chainPath k r l p -> length p = S k.
Proof. induction 1 as [|? ? ? ? ? _ IH]; cbn; congruence. Qed.
End chains.

(** ** Over the stored graph *)
Lemma slugTail_clean s : forallb slugTail (bytesOf s) = true -> clean s = true.
Proof.
  induction s as [|c s IH]; [done|]. cbn [bytesOf forallb clean]. rewrite !andb_true_iff, negb_true_iff, bool_decide_eq_false.
  intros [Hc Hs]. split; [|by apply IH]. intros ->. by vm_compute in Hc.
Qed.

Lemma slug_clean s : ValidServiceSlug s = true -> clean s = true.
Proof.
  unfold ValidServiceSlug. intros H. apply slugTail_clean. destruct (bytesOf s) as [|b rest]; [done|].
  rewrite !andb_true_iff in H. destruct H as [[Hb Hr] _]. cbn [forallb]. rewrite Hr, andb_true_r. unfold slugTail. by rewrite Hb.
Qed.

Lemma loaded_slug db projectID id x :
  pg_slug (loadProjectGraphTx db projectID) !! id = Some x -> exists s, sg_services (im_graph db) !! id = Some s /\ gs_slug s = x.
Proof.
  cbn. rewrite lookup_fmap, fmap_Some. intros (s & H & ->). exists s. split; [|done]. apply elem_of_list_to_map_2 in H.
  unfold servicesIn in H. apply elem_of_filter_b in H as [H _]. by apply elem_of_map_to_list in H.
Qed.

Lemma loaded_clean db projectID : graph_inv (im_graph db) -> forall id, clean (slugOf (loadProjectGraphTx db projectID) id) = true.
Proof.
  intros Hinv id. unfold slugOf. destruct (pg_slug (loadProjectGraphTx db projectID) !! id) as [x|] eqn:E; [|done]. cbn [default].
  apply loaded_slug in E as (s & Hs & <-). apply slug_clean. by apply (gi_valid _ Hinv id).
Qed.

Lemma loaded_edge db projectID x y : edge (pg_edges (loadProjectGraphTx db projectID)) x y -> edge (edgesOf (im_graph db)) x y.
Proof.
  unfold edge. cbn. unfold edgesOf. rewrite !list_elem_of_fmap. setoid_rewrite elem_of_filter_b. intros (e & E & He & _). by exists e.
Qed.

Lemma loaded_bounded db projectID n x y :
  graph_inv (im_graph db) -> nsteps (edge (pg_edges (loadProjectGraphTx db projectID))) n x y -> (n <= ServiceGraphDepthCap)%nat.
Proof. intros Hinv. apply (bounded_sub (edgesOf (im_graph db))); [intros a b; apply loaded_edge|apply Hinv]. Qed.

(** C27: refinement of the walk to paths of the graph: over a reachable graph the walk that is cut
    off at ten levels finds a service exactly when a chain of dependencies leads to it; the path
    it reports is the canonical one (a shortest chain and, of those, the least in the order of
    the slugs from the root down); and walking up from a service or down from its dependency
    reports the same path, so the two ends of a relation record the same array. *)
Theorem walk_finds_every_dependency db projectID s r
  (Hreach : sys_reachable graph_system (im_graph db)) (Hne : r <> s) :
  let g := loadProjectGraphTx db projectID in
  (is_Some (walk g s true !! r) <-> exists k, nsteps (edge (pg_edges g)) k s r) /\
  (forall p, walk g s true !! r = Some p ->
     exists k, (1 <= k <= ServiceGraphDepthCap)%nat /\ length p = S k /\ canonicalChain g k r s p) /\
  walk g r false !! s = walk g s true !! r.
Proof.
  intros g. pose proof (graph_reachable_inv _ Hreach) as Hinv. pose proof (loaded_clean db projectID Hinv) as Hclean. fold g in Hclean.
  split; [|split].
  - split.
    + intros [p (_ & k & _ & Hc & _)%(walk_canonical g Hclean true)]. exists k. by apply chain_nsteps in Hc.
    + intros [k Hk]. pose proof (loaded_bounded db projectID k s r Hinv Hk) as Hb. apply nsteps_chain in Hk as [p Hp].
      destruct (walk_spec g true s Hclean) as [_ H2]. apply (H2 k r Hb); [|done]. exists p. by apply walkPath_up.
  - intros p (_ & k & Hk & Hc)%(walk_canonical g Hclean true). exists k. destruct Hc as (Hp & Hr). split; [|split; [by apply chain_length in Hp|by split]].
    split; [|done]. destruct k; [inversion Hp; subst; done|lia].
  - symmetry. by apply walk_symmetric.
Qed.

Module WalkSample.
Definition db : ImpactDB :=
  {| im_graph := GraphSample.four; im_members := []; im_incidents := ∅; im_updates := []; im_impacts := [] |}.
End WalkSample.

Lemma walk_finds_every_dependency_witness :
  walk (loadProjectGraphTx WalkSample.db "p") "a" false !! "c" = walk (loadProjectGraphTx WalkSample.db "p") "c" true !! "a" /\
  walk (loadProjectGraphTx WalkSample.db "p") "c" true !! "a" = Some ["db"; "api"; "web"].
Proof.
  split; [|vm_compute; reflexivity].
  apply (walk_finds_every_dependency WalkSample.db "p" "c" "a" GraphSample.reached). discriminate.
Defined.
