(* ===== verification/ImpactFacts.v ===== *)
(** * What a correlation records

    The candidates of an attempt by their keys, the links it inserts, that two incidents find
    the same relation whichever is correlated first, and that a redelivery adds nothing. *)

From S2P Require Import Prelude GoString Gate GateStore Incidents Dependencies DependencyFacts ServiceGraph GraphFacts ServiceImpact ImpactWalk.

(** ** The canonical order *)
Lemma better_not a b c : better b a = false -> better c b = false -> better c a = false.
Proof.
  unfold better. destruct (Nat.eqb_spec (length b) (length a)), (Nat.eqb_spec (length c) (length b)), (Nat.eqb_spec (length c) (length a));
    cbn [negb]; rewrite ?Nat.ltb_ge; try lia; try apply joinLess_not; intros; lia.
Qed.

Lemma better_asym a b : better a b = true -> better b a = false.
Proof.
  unfold better. rewrite (Nat.eqb_sym (length b)). destruct (Nat.eqb_spec (length a) (length b)); cbn [negb]; [apply joinLess_asym|].
  rewrite Nat.ltb_lt, Nat.ltb_ge. lia.
Qed.

Lemma better_irrefl a : better a a = false.
Proof. destruct (better a a) eqn:E; [|done]. by rewrite (better_asym _ _ E) in E. Qed.

Lemma better_total a b :
  Forall (fun s => clean s = true) a -> Forall (fun s => clean s = true) b -> better a b = false -> better b a = false -> a = b.
Proof.
  intros Ca Cb. unfold better. rewrite (Nat.eqb_sym (length b)). destruct (Nat.eqb_spec (length a) (length b)) as [El|]; cbn [negb].
  - intros H1 H2. apply lexCompare_eq; [done|]. rewrite <- join_compare by done. rewrite (joinLess_total a b H1 H2). apply string_compare_refl.
  - rewrite !Nat.ltb_ge. lia.
Qed.

(** ** Keys *)
Definition bar : Ascii.ascii := Ascii.Ascii false false true true true true true false.
Fixpoint nobar (s : string) : bool := match s with "" => true | String c s => negb (bool_decide (c = bar)) && nobar s end.

Lemma bar_inj a a' x x' : nobar a = true -> nobar a' = true -> a +:+ "|" +:+ x = a' +:+ "|" +:+ x' -> a = a' /\ x = x'.
Proof.
  revert a'. induction a as [|c a IH]; intros [|c' a'] Ha Ha' E; cbn [nobar] in *;
    rewrite ?andb_true_iff, ?negb_true_iff, ?bool_decide_eq_false in *.
  - change (String bar x = String bar x') in E. by injection E.
  - change (String bar x = String c' (a' +:+ "|" +:+ x')) in E. injection E as <- _. by destruct Ha'.
  - change (String c (a +:+ "|" +:+ x) = String bar x') in E. injection E as -> _. by destruct Ha.
  - change (String c (a +:+ "|" +:+ x) = String c' (a' +:+ "|" +:+ x')) in E. injection E as <- E.
    destruct (IH a') as [-> ->]; tauto.
Qed.

Definition key (inc svc : string) (r : ImpactRole) : string := inc +:+ "|" +:+ svc +:+ "|" +:+ ImpactRole_text r.

Lemma key_inj i s r i' s' r' :
  nobar i = true -> nobar i' = true -> nobar s = true -> nobar s' = true -> key i s r = key i' s' r' -> i = i' /\ s = s' /\ r = r'.
Proof.
  intros Hi Hi' Hs Hs' E. unfold key in E. apply bar_inj in E as [-> E]; [|done..]. apply bar_inj in E as [-> E]; [|done..].
  split; [done|]. split; [done|]. by destruct r, r'.
Qed.

(** ** Candidates by key *)
Lemma keyOf_merge p c : keyOfCandidate (mergeCandidate p c) = keyOfCandidate p.
Proof. reflexivity. Qed.

Definition sameKeyIn (cs : list Candidate) (k : string) (c : Candidate) : Prop := c ∈ cs /\ keyOfCandidate c = k.

Lemma byKey_spec cs k :
  match foldl addCandidate ∅ cs !! k with
  | Some c =>
    (exists c0, sameKeyIn cs k c0 /\ ca_incident c = ca_incident c0 /\ ca_service c = ca_service c0 /\ ca_role c = ca_role c0) /\
    (exists c1, sameKeyIn cs k c1 /\ ca_path c = ca_path c1) /\
    (forall c2, sameKeyIn cs k c2 -> better (ca_path c2) (ca_path c) = false) /\
    (forall w, w ∈ ca_witnesses c <-> exists c2, sameKeyIn cs k c2 /\ w ∈ ca_witnesses c2)
  | None => forall c, ~ sameKeyIn cs k c
  end.
Proof.
  induction cs as [|x cs IH] using rev_ind.
  { cbn. rewrite lookup_empty. intros c [H _]. by apply not_elem_of_nil in H. }
  rewrite foldl_app. cbn. set (m := foldl addCandidate ∅ cs) in *. unfold addCandidate.
  assert (forall c, sameKeyIn (cs ++ [x]) k c <-> sameKeyIn cs k c \/ c = x /\ keyOfCandidate x = k) as Ho.
  { intros c. unfold sameKeyIn. rewrite elem_of_app, list_elem_of_singleton. naive_solver. }
  destruct (decide (keyOfCandidate x = k)) as [<-|Hne].
  2: { assert (forall c, sameKeyIn (cs ++ [x]) k c <-> sameKeyIn cs k c) as Heq by (intros c; rewrite Ho; tauto).
       assert ((match m !! keyOfCandidate x with Some prev => <[keyOfCandidate x := mergeCandidate prev x]> m
                | None => <[keyOfCandidate x := x]> m end) !! k = m !! k) as ->.
       { destruct (m !! keyOfCandidate x); by rewrite lookup_insert_ne. }
       destruct (m !! k); setoid_rewrite Heq; done. }
  destruct (m !! keyOfCandidate x) as [p|] eqn:E; rewrite E in IH || idtac; rewrite lookup_insert_eq.
  - destruct IH as ((c0 & H0 & E1 & E2 & E3) & (c1 & H1 & E4) & Hmin & Hw). split; [exists c0; split; [apply Ho; by left|done]|]. split; [|split].
    + cbn. destruct (better (ca_path x) (ca_path p)); [exists x; split; [apply Ho; by right|done]|exists c1; split; [apply Ho; by left|done]].
    + cbn. intros c2 [H2|[-> _]]%Ho; destruct (better (ca_path x) (ca_path p)) eqn:Eb; [|by apply Hmin|apply better_irrefl|done].
      apply (better_not _ (ca_path p)); [by apply better_asym|by apply Hmin].
    + cbn. intros w. rewrite elem_of_app, Hw. setoid_rewrite Ho. split; [intros [(c2 & ? & ?)|?]; [exists c2; tauto|exists x; tauto]|].
      intros (c2 & [?|[-> _]] & ?); [left; by exists c2|by right].
  - split; [exists x; split; [apply Ho; by right|done]|]. split; [exists x; split; [apply Ho; by right|done]|]. split.
    + intros c2 [H2|[-> _]]%Ho; [by destruct (IH c2)|apply better_irrefl].
    + intros w. setoid_rewrite Ho. split; [intros; exists x; tauto|]. intros (c2 & [?|[-> _]] & ?); [by destruct (IH c2)|done].
Qed.

(** ** Incidents and services *)

(** The incident is of the service: through membership, or by its own anchor. *)
Definition ofService (db : ImpactDB) (inc e : string) : Prop :=
  exists i, im_incidents db !! inc = Some i /\ ((in_MonitorID i <> "" /\ (in_MonitorID i, e) ∈ im_members db) \/ (in_ServiceID i <> "" /\ in_ServiceID i = e)).

Lemma elem_of_witnessRows db P A e j t :
  (j, t) ∈ witnessRows db P A e <->
  exists i, im_incidents db !! j = Some i /\ in_ProjectID i = P /\ isOpenIncident i = true /\ j <> A /\ t = in_StartedAt i /\
    ((in_MonitorID i <> "" /\ (in_MonitorID i, e) ∈ im_members db) \/ (in_ServiceID i <> "" /\ in_ServiceID i = e)).
Proof.
  unfold witnessRows. set (cands := List.filter _ (map_to_list (im_incidents db))).
  assert (forall k i, (k, i) ∈ cands <-> im_incidents db !! k = Some i /\ in_ProjectID i = P /\ isOpenIncident i = true /\ k <> A) as Hc.
  { intros k i. unfold cands. rewrite elem_of_filter_b, elem_of_map_to_list. cbn.
    rewrite !andb_true_iff, negb_true_iff, bool_decide_eq_true, bool_decide_eq_false. tauto. }
  rewrite elem_of_app, list_elem_of_In, in_flat_map, list_elem_of_omap. setoid_rewrite <- list_elem_of_In. split.
  - intros [([k i] & Hk & H)|([k i] & Hk & H)]; apply Hc in Hk as (Hi & HP & Ho & HA); cbn in H.
    + apply list_elem_of_fmap in H as (m & [= -> ->] & Hm). apply elem_of_filter_b in Hm as [Hm Hb].
      rewrite andb_true_iff, negb_true_iff, bool_decide_eq_true, bool_decide_eq_false in Hb. destruct Hb as [Hb ->].
      exists i. split_and!; try done. by left.
    + case_bool_decide as E0; [done|]. case_bool_decide as E; [|done]. injection H as -> <-. exists i. split_and!; try done. by right.
  - intros (i & Hi & HP & Ho & HA & -> & [[Hm Hin]|[E0 E]]).
    + left. exists (j, i). split; [by apply Hc|]. apply list_elem_of_fmap. exists (in_MonitorID i, e). split; [done|].
      apply elem_of_filter_b. split; [done|]. cbn. by rewrite bool_decide_eq_false_2, bool_decide_eq_true_2.
    + right. exists (j, i). split; [by apply Hc|]. cbn. by rewrite bool_decide_eq_false_2, bool_decide_eq_true_2.
Qed.

(** A witness is another open incident of the project, anchored at the endpoint. *)
Lemma witness_sound db P A e j :
  j ∈ boundedWitnesses db P A e ->
  j <> A /\ ofService db j e /\ exists i, im_incidents db !! j = Some i /\ in_ProjectID i = P /\ isOpenIncident i = true.
Proof.
  unfold boundedWitnesses. rewrite (merge_sort_Permutation _), list_elem_of_fmap. intros ([k t] & -> & Hk).
  assert ((k, t) ∈ witnessRows db P A e) as H.
  { rewrite <- (merge_sort_Permutation started_le). set (l := merge_sort started_le _) in *.
    rewrite <- (List.firstn_skipn MaxCorrelationWitnessesPerService l). apply elem_of_app. by left. }
  apply elem_of_witnessRows in H as (i & Hi & HP & Ho & HA & _ & Hanch). cbn. split; [done|]. split; [by exists i|by exists i].
Qed.

(** Without overflow they are all of them. *)
Lemma witness_complete db P A e j i :
  overflowAt db P A e = 0 -> j <> A -> im_incidents db !! j = Some i -> in_ProjectID i = P -> isOpenIncident i = true ->
  ofService db j e -> j ∈ boundedWitnesses db P A e.
Proof.
  unfold overflowAt. intros Hz HA Hi HP Ho (i' & Hi' & Hanch). assert (i' = i) as -> by congruence.
  unfold boundedWitnesses. rewrite (merge_sort_Permutation _), firstn_all2.
  - apply list_elem_of_fmap. exists (j, in_StartedAt i). split; [done|]. rewrite (merge_sort_Permutation started_le).
    apply elem_of_witnessRows. by exists i.
  - rewrite (Permutation_length (merge_sort_Permutation started_le _)). lia.
Qed.

(** At most one anchor per incident (the CHECK of migration 00084). *)
Definition one_anchor (db : ImpactDB) : Prop :=
  forall j i, im_incidents db !! j = Some i -> in_MonitorID i = "" \/ in_ServiceID i = "".

Lemma elem_of_own db A i e :
  im_incidents db !! A = Some i -> in_MonitorID i <> "" \/ in_ServiceID i <> "" -> e ∈ ownServices db i -> ofService db A e.
Proof.
  intros Hi Hv. unfold ownServices. case_bool_decide as Hm; cbn [negb].
  - intros ->%list_elem_of_singleton. exists i. split; [done|]. right. by destruct Hv.
  - unfold servicesOfMonitorTx. rewrite (merge_sort_Permutation _), list_elem_of_omap. intros ([m x] & Hin & H). cbn in H.
    case_bool_decide as E; [|done]. injection H as ->. exists i. split; [done|]. left. split; [done|]. by rewrite <- E.
Qed.

Lemma own_complete db A i e :
  one_anchor db -> im_incidents db !! A = Some i -> ofService db A e -> e ∈ ownServices db i.
Proof.
  intros Hone Hi (i' & Hi' & Ha). assert (i' = i) as -> by congruence. unfold ownServices. case_bool_decide as Hm; cbn [negb].
  - destruct Ha as [[? _]|[_ Ha]]; [done|]. by apply list_elem_of_singleton.
  - destruct Ha as [[_ Hin]|[Ha _]]; [|destruct (Hone A i Hi); congruence].
    unfold servicesOfMonitorTx. rewrite (merge_sort_Permutation _), list_elem_of_omap. exists (in_MonitorID i, e). split; [done|].
    cbn. by rewrite bool_decide_eq_true_2.
Qed.

(** ** The candidates of an attempt *)
Section plan.
Context (g : projectGraph) (Hclean : forall id, clean (slugOf g id) = true).
Context (wit : string -> list string) (A : string) (own : list string).

(** The service [r] is above [s], with this canonical path. *)
Definition above (s r : string) (p : list string) : Prop := walk g s true !! r = Some p.

Definition raw : list Candidate := flat_map (candidatesFrom g wit A) own.

Inductive proposes : Candidate -> Prop :=
| pr_root s e j p : s ∈ own -> j ∈ wit e -> above s e p -> proposes {| ca_incident := A; ca_service := e; ca_role := ImpactProbableRoot; ca_path := p; ca_witnesses := [j] |}
| pr_affected' s e j p : s ∈ own -> j ∈ wit e -> above s e p -> proposes {| ca_incident := j; ca_service := s; ca_role := ImpactAffected; ca_path := p; ca_witnesses := [A] |}
| pr_affected s e j p : s ∈ own -> j ∈ wit e -> above e s p -> proposes {| ca_incident := A; ca_service := e; ca_role := ImpactAffected; ca_path := p; ca_witnesses := [j] |}
| pr_root' s e j p : s ∈ own -> j ∈ wit e -> above e s p -> proposes {| ca_incident := j; ca_service := s; ca_role := ImpactProbableRoot; ca_path := p; ca_witnesses := [j] |}.

Lemma elem_of_raw c : c ∈ raw <-> proposes c.
Proof.
  unfold raw. rewrite list_elem_of_In, in_flat_map. setoid_rewrite <- list_elem_of_In. unfold candidatesFrom.
  setoid_rewrite elem_of_app. setoid_rewrite list_elem_of_In. setoid_rewrite in_flat_map. setoid_rewrite in_flat_map. setoid_rewrite <- list_elem_of_In.
  split.
  - intros (s & Hs & [([e p] & He & j & Hj & Hc)|([e p] & He & j & Hj & Hc)]); apply elem_of_map_to_list in He; cbn [fst snd] in *; unfold upward, downward in Hc.
    + apply elem_of_cons in Hc as [->|Hc%list_elem_of_singleton]; [by apply pr_root with s|subst c; by apply pr_affected' with e].
    + rewrite <- (walk_symmetric g Hclean) in He.
      apply elem_of_cons in Hc as [->|Hc%list_elem_of_singleton]; [by apply pr_affected with s|subst c; by apply pr_root' with e].
  - intros [s e j p Hs Hj H|s e j p Hs Hj H|s e j p Hs Hj H|s e j p Hs Hj H]; exists s; (split; [done|]); unfold above in H.
    + left. exists (e, p). split; [by apply elem_of_map_to_list|]. exists j. split; [done|]. left.
    + left. exists (e, p). split; [by apply elem_of_map_to_list|]. exists j. split; [done|]. right. by apply list_elem_of_singleton.
    + right. rewrite (walk_symmetric g Hclean) in H. exists (e, p). split; [by apply elem_of_map_to_list|]. exists j. split; [done|]. left.
    + right. rewrite (walk_symmetric g Hclean) in H. exists (e, p). split; [by apply elem_of_map_to_list|]. exists j. split; [done|]. right. by apply list_elem_of_singleton.
Qed.

Lemma elem_of_endpoints s e :
  s ∈ own -> (exists p, above s e p) \/ (exists p, above e s p) -> e ∈ endpointsOf g own.
Proof.
  intros Hs H. unfold endpointsOf. rewrite (merge_sort_Permutation _), elem_of_remove_dups, list_elem_of_In, in_flat_map.
  setoid_rewrite <- list_elem_of_In. exists s. split; [done|]. rewrite elem_of_app, !list_elem_of_fmap.
  destruct H as [[p H]|[p H]]; [left; exists (e, p)|right; exists (e, p)]; (split; [done|]); apply elem_of_map_to_list; [done|].
  unfold above in H. by rewrite (walk_symmetric g Hclean) in H.
Qed.

Lemma above_clean s e p : above s e p -> Forall (fun x => clean x = true) p.
Proof.
  intros (_ & k & _ & Hc & _)%(walk_canonical g Hclean true). cbn in Hc. apply walkPath_up in Hc.
  by apply (walkPath_shape g true s Hclean) in Hc as [_ Hc].
Qed.
End plan.

(** ** The plan *)

(** What the attempt would record, and what it left out; nothing when it ends early. *)
Definition planned (db : ImpactDB) (A : string) : gmap string Candidate :=
  match planCorrelation db A with Some (_, byKey, _) => byKey | None => ∅ end.
Definition omitted (db : ImpactDB) (A : string) : Z := match planCorrelation db A with Some (_, _, n) => n | None => 0 end.

Lemma sum_zero (f : string -> Z) l e : (forall x, 0 <= f x) -> foldr Z.add 0 (map f l) = 0 -> e ∈ l -> f e = 0.
Proof.
  intros Hf. assert (forall m, 0 <= foldr Z.add 0 (map f m)) as Hs.
  { induction m as [|x m IH]; cbn; [lia|]. pose proof (Hf x). lia. }
  induction l as [|x l IH]; cbn; [by intros _ ?%not_elem_of_nil|]. intros Hz [->|Hin]%elem_of_cons; pose proof (Hf x) as Hx; pose proof (Hs l) as Hl.
  - lia.
  - apply IH; [lia|done].
Qed.

Lemma overflow_nonneg db P A e : 0 <= overflowAt db P A e.
Proof. unfold overflowAt. lia. Qed.

Section attempt.
Context (db : ImpactDB) (Hinv : graph_inv (im_graph db)) (A : string) (i : Incident).
Context (Hi : im_incidents db !! A = Some i) (Hopen : isOpenIncident i = true) (Hanchor : in_MonitorID i <> "" \/ in_ServiceID i <> "").

Let P := in_ProjectID i.
Let g := loadProjectGraphTx db P.
Let own := ownServices db i.
Let Hclean := loaded_clean db P Hinv.

Lemma above_edge s r p : above g s r p -> pg_edges g <> [].
Proof.
  intros (Hne & k & _ & Hc & _)%(walk_canonical g Hclean true) E. cbn in Hc, Hne. inversion Hc as [x|? r1 ? ? ? _ He]; subst; [done|].
  unfold edge in He. rewrite E in He. by apply not_elem_of_nil in He.
Qed.

Lemma early : (bool_decide (in_MonitorID i = "") && bool_decide (in_ServiceID i = "")) = false.
Proof. apply andb_false_iff. rewrite !bool_decide_eq_false. tauto. Qed.

Lemma plan_looks s e :
  s ∈ own -> (exists p, above g s e p) \/ (exists p, above g e s p) ->
  planCorrelation db A = Some (P, foldl addCandidate ∅ (raw g (boundedWitnesses db P A) A own),
                               foldr Z.add 0 (map (overflowAt db P A) (endpointsOf g own))).
Proof.
  intros Hs He. unfold planCorrelation. rewrite Hi, Hopen, early. cbn [negb orb]. fold P. fold g. fold own. fold (raw g (boundedWitnesses db P A) A own).
  pose proof (elem_of_endpoints g Hclean own s e Hs He) as Hin.
  assert (pg_edges g <> []) as Hg by (destruct He as [[p H]|[p H]]; by apply above_edge in H).
  destruct own; [by apply not_elem_of_nil in Hs|]. destruct (pg_edges g); [done|].
  destruct (endpointsOf g _); [by apply not_elem_of_nil in Hin|done].
Qed.

Lemma planned_raw : planned db A = foldl addCandidate ∅ (raw g (boundedWitnesses db P A) A own).
Proof.
  destruct (raw g (boundedWitnesses db P A) A own) as [|c cs] eqn:E.
  - unfold planned, planCorrelation. rewrite Hi, Hopen, early. cbn [negb orb]. fold P. fold g. fold own. fold (raw g (boundedWitnesses db P A) A own).
    rewrite E. destruct own; [done|]. destruct (pg_edges g); [done|]. by destruct (endpointsOf g _).
  - assert (c ∈ raw g (boundedWitnesses db P A) A own) as Hc by (rewrite E; left). rewrite <- E. apply (elem_of_raw g Hclean) in Hc.
    unfold planned. destruct Hc as [s e j p Hs _ H|s e j p Hs _ H|s e j p Hs _ H|s e j p Hs _ H]; rewrite (plan_looks s e Hs); eauto.
Qed.

(** Nothing left out in all is nothing left out at any endpoint. *)
Lemma omitted_none s e :
  omitted db A = 0 -> s ∈ own -> (exists p, above g s e p) \/ (exists p, above g e s p) -> overflowAt db P A e = 0.
Proof.
  unfold omitted. intros Hz Hs He. rewrite (plan_looks s e Hs He) in Hz.
  apply (sum_zero (overflowAt db P A) (endpointsOf g own)); [apply overflow_nonneg|done|]. by apply (elem_of_endpoints g Hclean own s e).
Qed.
End attempt.
