(* ===== verification/ImpactLinks.v ===== *)
(** * The links of an attempt

    What an inserted link says of the graph and of the incidents, that two incidents record the
    same relation whichever is correlated last, and that a redelivery adds nothing. *)

From S2P Require Import Prelude GoString Gate GateStore Incidents Dependencies DependencyFacts ServiceGraph GraphFacts ServiceImpact ImpactWalk ImpactFacts.

(** No identifier holds the separator of the keys (they are UUIDs). *)
Definition nobar_ids (db : ImpactDB) : Prop :=
  (forall j, is_Some (im_incidents db !! j) -> nobar j = true) /\ (forall j e, ofService db j e -> nobar e = true).

Lemma nobar_anchored db j e : nobar_ids db -> ofService db j e -> nobar j = true /\ nobar e = true.
Proof. intros [Hj He] H. split; [|by eapply He]. apply Hj. destruct H as (i & -> & _). by eexists. Qed.

(** The row's service [e] stands to the incident's service [s] as the role says. *)
Definition related (g : projectGraph) (r : ImpactRole) (s e : string) (p : list string) : Prop :=
  match r with ImpactProbableRoot => above g s e p | ImpactAffected => above g e s p end.

Lemma related_either g r s e p : related g r s e p -> (exists p, above g s e p) \/ (exists p, above g e s p).
Proof. destruct r; cbn; eauto. Qed.

Lemma related_clean g r s e p : (forall id, clean (slugOf g id) = true) -> related g r s e p -> Forall (fun x => clean x = true) p.
Proof. intros Hc. destruct r; by apply above_clean. Qed.

Lemma related_chain g r s e p :
  (forall id, clean (slugOf g id) = true) -> related g r s e p ->
  s <> e /\ exists k, (1 <= k <= ServiceGraphDepthCap)%nat /\
    match r with ImpactProbableRoot => canonicalChain g k e s p | ImpactAffected => canonicalChain g k s e p end.
Proof.
  intros Hc. destruct r; intros (Hne & k & Hk & Hch)%(walk_canonical g Hc true); cbn in Hch; (split; [done|]); exists k; (split; [|done]);
    (destruct k; [destruct Hch as [Hp _]; by inversion Hp; subst|lia]).
Qed.

(** The candidate is this link. *)
Definition isLink (inc e : string) (r : ImpactRole) (p : list string) (c : Candidate) : Prop :=
  ca_incident c = inc /\ ca_service c = e /\ ca_role c = r /\ ca_path c = p.

Section proposals.
Context (g : projectGraph) (wit : string -> list string) (A : string) (own : list string).

(** Either the attempt's own link, over a witness of the endpoint, or the mirror of one. *)
Definition ownLink (c : Candidate) : Prop :=
  exists s j, ca_incident c = A /\ s ∈ own /\ ca_witnesses c = [j] /\ j ∈ wit (ca_service c) /\ related g (ca_role c) s (ca_service c) (ca_path c).
Definition mirrorLink (c : Candidate) : Prop :=
  exists s, ca_service c ∈ own /\ ca_incident c ∈ wit s /\ related g (ca_role c) s (ca_service c) (ca_path c).

Lemma proposes_shape c : proposes g wit A own c -> ownLink c \/ mirrorLink c.
Proof.
  intros [s e j p Hs Hj H|s e j p Hs Hj H|s e j p Hs Hj H|s e j p Hs Hj H].
  - left. by exists s, j.
  - right. by exists e.
  - left. by exists s, j.
  - right. by exists e.
Qed.

Lemma own_proposed s e j r p : s ∈ own -> j ∈ wit e -> related g r s e p -> exists c, proposes g wit A own c /\ isLink A e r p c.
Proof.
  intros Hs Hj. destruct r; intros H; eexists.
  - split; [by apply pr_root with (s := s) (j := j)|done].
  - split; [by apply pr_affected with (s := s) (j := j)|done].
Qed.

Lemma mirror_proposed s e j r p : e ∈ own -> j ∈ wit s -> related g r s e p -> exists c, proposes g wit A own c /\ isLink j e r p c.
Proof.
  intros Hs Hj. destruct r; intros H; eexists.
  - split; [by apply pr_root' with (s := e) (e := s)|done].
  - split; [by apply pr_affected' with (s := e) (e := s)|done].
Qed.
End proposals.

(** ** The least of a set of paths *)
Definition least (S : list string -> Prop) (o : option (list string)) : Prop :=
  match o with Some p => S p /\ forall q, S q -> better q p = false | None => forall q, ~ S q end.

Lemma least_unique S T a b :
  (forall p, S p <-> T p) -> (forall p, S p -> Forall (fun x => clean x = true) p) -> least S a -> least T b -> a = b.
Proof.
  intros Heq Hc Ha Hb. destruct a as [p|], b as [q|]; cbn in *.
  - destruct Ha as [Hp Hpm], Hb as [Hq Hqm]. f_equal. apply Heq in Hq as HqS. apply better_total; [by apply Hc..|by apply Hqm, Heq|by apply Hpm].
  - destruct Ha as [Hp%Heq _]. by destruct (Hb p).
  - destruct Hb as [Hq%Heq _]. by destruct (Ha q).
  - done.
Qed.

(** ** The candidates of a plan *)
Section attempt.
Context (db : ImpactDB) (Hinv : graph_inv (im_graph db)) (Hids : nobar_ids db) (A : string) (i : Incident).
Context (Hi : im_incidents db !! A = Some i) (Hopen : isOpenIncident i = true) (Hanchor : in_MonitorID i <> "" \/ in_ServiceID i <> "").

Let P := in_ProjectID i.
Let g := loadProjectGraphTx db P.
Let own := ownServices db i.
Let wit := boundedWitnesses db P A.
Let Hclean := loaded_clean db P Hinv.

Lemma own_anchored e : e ∈ own -> ofService db A e.
Proof. by apply elem_of_own. Qed.

Lemma proposes_nobar c : proposes g wit A own c -> nobar (ca_incident c) = true /\ nobar (ca_service c) = true.
Proof.
  intros [(s & j & -> & Hs & _ & Hj & _)|(s & He & Hj & _)]%proposes_shape.
  - apply own_anchored, (nobar_anchored db) in Hs as [? _]; [|done]. apply witness_sound in Hj as (_ & Hj & _).
    by apply (nobar_anchored db) in Hj as [_ ?].
  - apply own_anchored, (nobar_anchored db) in He as [_ ?]; [|done]. apply witness_sound in Hj as (_ & Hj & _).
    by apply (nobar_anchored db) in Hj as [? _].
Qed.

Lemma same_key c c' :
  proposes g wit A own c -> proposes g wit A own c' -> keyOfCandidate c = keyOfCandidate c' ->
  ca_incident c = ca_incident c' /\ ca_service c = ca_service c' /\ ca_role c = ca_role c'.
Proof. intros [? ?]%proposes_nobar [? ?]%proposes_nobar. by apply key_inj. Qed.

Lemma sameKey_raw k c : sameKeyIn (raw g wit A own) k c <-> proposes g wit A own c /\ keyOfCandidate c = k.
Proof. unfold sameKeyIn. by rewrite (elem_of_raw g Hclean). Qed.

(** The path a plan holds for a link is the least of the proposed ones. *)
Lemma planned_path inc e r :
  nobar inc = true -> nobar e = true ->
  least (fun p => exists c, proposes g wit A own c /\ isLink inc e r p c) (ca_path <$> planned db A !! key inc e r).
Proof.
  intros Hn He. rewrite (planned_raw db Hinv A i Hi Hopen Hanchor). fold P. fold g. fold own. fold wit.
  pose proof (byKey_spec (raw g wit A own) (key inc e r)) as H.
  assert (forall c, sameKeyIn (raw g wit A own) (key inc e r) c -> proposes g wit A own c /\ isLink inc e r (ca_path c) c) as Hlink.
  { intros c [Hc Hk]%sameKey_raw. split; [done|]. destruct (proposes_nobar c Hc). apply key_inj in Hk as (? & ? & ?); done. }
  destruct (_ !! key inc e r) as [c|]; cbn.
  - destruct H as (_ & (c1 & H1 & ->) & Hmin & _). split; [exists c1; by apply Hlink|].
    intros q (c2 & Hc2 & E1 & E2 & E3 & <-). apply Hmin, sameKey_raw. split; [done|]. unfold keyOfCandidate. by rewrite E1, E2, E3.
  - intros q (c & Hc & E1 & E2 & E3 & _). apply (H c), sameKey_raw. split; [done|]. unfold keyOfCandidate. by rewrite E1, E2, E3.
Qed.

(** What a candidate of the plan is, whichever proposals were merged into it. *)
Lemma planned_meaning k c :
  planned db A !! k = Some c ->
  exists s, ofService db (ca_incident c) s /\ related g (ca_role c) s (ca_service c) (ca_path c) /\
    ((ca_incident c = A /\ forall w, w ∈ ca_witnesses c -> w ∈ wit (ca_service c)) \/
     (ca_incident c ∈ wit s /\ ofService db A (ca_service c))).
Proof.
  rewrite (planned_raw db Hinv A i Hi Hopen Hanchor). fold P. fold g. fold own. fold wit. intros Hk.
  pose proof (byKey_spec (raw g wit A own) k) as H. rewrite Hk in H.
  destruct H as ((c0 & [H0 K0]%sameKey_raw & E1 & E2 & E3) & (c1 & [H1 K1]%sameKey_raw & Ep) & _ & Hw).
  destruct (same_key c0 c1 H0 H1) as (F1 & F2 & F3); [congruence|]. rewrite E1, E2, E3, Ep, F1, F2, F3.
  destruct (proposes_shape _ _ _ _ c1 H1) as [(s & j & EA & Hs & _ & Hj & Hr)|(s & He & Hj & Hr)]; exists s.
  - split; [rewrite EA; by apply own_anchored|]. split; [done|]. left. split; [done|].
    intros w (c2 & [H2 K2]%sameKey_raw & Hin)%Hw. destruct (same_key c2 c1 H2 H1) as (G1 & G2 & G3); [congruence|].
    destruct (proposes_shape _ _ _ _ c2 H2) as [(s2 & j2 & _ & _ & Ew & Hj2 & _)|(s2 & _ & Hj2 & _)].
    + rewrite Ew in Hin. apply list_elem_of_singleton in Hin as ->. by rewrite <- G2.
    + apply witness_sound in Hj2 as (Hne & _). by rewrite G1, EA in Hne.
  - split; [by apply witness_sound in Hj as (_ & ? & _)|]. split; [done|]. right. split; [done|]. by apply own_anchored.
Qed.
End attempt.

(** ** Inserting *)
Definition stillOpen (db : ImpactDB) (id : string) : Prop := openStatus db id <> None.

(** The candidate may be inserted: its incident and a witness are open. *)
Definition insertable (db : ImpactDB) (c : Candidate) : Prop :=
  stillOpen db (ca_incident c) /\ exists w, w ∈ ca_witnesses c /\ stillOpen db w.

Lemma witness_open db ws :
  existsb (fun w => negb (bool_decide (openStatus db w = None))) ws = true <-> exists w, w ∈ ws /\ stillOpen db w.
Proof.
  unfold stillOpen. rewrite existsb_elem. split; intros (w & Hw & H); exists w; (split; [done|]);
    [by rewrite negb_true_iff, bool_decide_eq_false in H|by rewrite negb_true_iff, bool_decide_eq_false].
Qed.

Lemma insertLink_spec db P rows c :
  (insertable db c /\ existsb (sameLink c) (im_impacts db ++ rows) = false /\ insertLink db P rows c = rows ++ [rowOfCandidate P c]) \/
  (insertable db c /\ existsb (sameLink c) (im_impacts db ++ rows) = true /\ insertLink db P rows c = rows) \/
  (~ insertable db c /\ insertLink db P rows c = rows).
Proof.
  unfold insertLink, insertable. rewrite <- witness_open. unfold stillOpen. case_bool_decide as Ho; [tauto|].
  destruct (existsb (fun w => _) (ca_witnesses c)); cbn [negb]; [|right; right; split; [by intros []|done]].
  destruct (existsb (sameLink c) _); tauto.
Qed.

Lemma inserted_row db P r cs rows :
  r ∈ foldl (insertLink db P) rows cs -> r ∈ rows \/ exists c, c ∈ cs /\ insertable db c /\ r = rowOfCandidate P c.
Proof.
  revert rows. induction cs as [|c cs IH]; intros rows; cbn; [by left|].
  intros [H|(c' & Hc & H)]%IH; [|right; exists c'; split; [by right|done]].
  destruct (insertLink_spec db P rows c) as [(He & _ & E)|[(_ & _ & E)|(_ & E)]]; rewrite E in H; [|by left..].
  apply elem_of_app in H as [H| ->%list_elem_of_singleton]; [by left|]. right. exists c. split; [left|done].
Qed.

Lemma sameLink_row c P : sameLink c (rowOfCandidate P c) = true.
Proof. unfold sameLink. cbn. by rewrite !bool_decide_eq_true_2. Qed.

(** After the pass every insertable candidate has its row. *)
Lemma inserted_all db P cs rows :
  let out := foldl (insertLink db P) rows cs in
  (exists more, out = rows ++ more) /\ forall c, c ∈ cs -> insertable db c -> existsb (sameLink c) (im_impacts db ++ out) = true.
Proof.
  revert rows. induction cs as [|c cs IH]; intros rows; cbn.
  { split; [exists []; by rewrite app_nil_r|]. by intros c ?%not_elem_of_nil. }
  destruct (IH (insertLink db P rows c)) as [[more Hm] Hall].
  assert (exists new, insertLink db P rows c = rows ++ new) as [new Hnew].
  { destruct (insertLink_spec db P rows c) as [(_ & _ & E)|[(_ & _ & E)|(_ & E)]]; rewrite E; [by eexists|exists []; by rewrite app_nil_r..]. }
  split; [exists (new ++ more); by rewrite Hm, Hnew, app_assoc|].
  intros c' Hc He. apply elem_of_cons in Hc as [->|Hc]; [|by apply Hall]. rewrite Hm, app_assoc, existsb_app. apply orb_true_iff. left.
  destruct (insertLink_spec db P rows c) as [(_ & _ & E)|[(_ & Hs & E)|(Hn & _)]]; [rewrite E|by rewrite E|done].
  rewrite app_assoc, existsb_app. apply orb_true_iff. right. cbn. by rewrite sameLink_row.
Qed.

Lemma insert_nothing db P cs rows :
  (forall c, c ∈ cs -> insertable db c -> existsb (sameLink c) (im_impacts db ++ rows) = true) -> foldl (insertLink db P) rows cs = rows.
Proof.
  induction cs as [|c cs IH]; intros H; cbn; [done|].
  assert (insertLink db P rows c = rows) as ->.
  { destruct (insertLink_spec db P rows c) as [(He & Hf & _)|[(_ & _ & E)|(_ & E)]]; [|done..]. rewrite (H c) in Hf; [done|left|done]. }
  apply IH. intros c' Hc. apply H. by right.
Qed.

Lemma elem_of_keyOrder m c : c ∈ inKeyOrder m <-> exists k, m !! k = Some c.
Proof.
  unfold inKeyOrder. rewrite list_elem_of_fmap. split.
  - intros ([k c'] & -> & H). rewrite (merge_sort_Permutation _) in H. apply elem_of_map_to_list in H. by exists k.
  - intros [k H]. exists (k, c). split; [done|]. rewrite (merge_sort_Permutation _). by apply elem_of_map_to_list.
Qed.

(** A row that was not there comes from a candidate of the plan, in an attempt whose incident is
    still open. *)
Lemma committed_row db A P m n u now r :
  r ∈ im_impacts (commitCorrelation db A (Some (P, m, n)) u now).1 -> r ∉ im_impacts db ->
  stillOpen db A /\ exists k c, m !! k = Some c /\ insertable db c /\ r = rowOfCandidate P c.
Proof.
  unfold commitCorrelation. case_bool_decide as E; [done|]. case_bool_decide as Ho; [done|]. cbn.
  intros Hin Hn. apply elem_of_app in Hin as [H|H]; [done|]. split; [done|].
  apply inserted_row in H as [H|(c & [k Hk]%elem_of_keyOrder & He & ->)]; [by apply not_elem_of_nil in H|]. by exists k, c.
Qed.

Lemma plan_project db A P m n :
  planCorrelation db A = Some (P, m, n) ->
  m = planned db A /\ exists i, im_incidents db !! A = Some i /\ isOpenIncident i = true /\ P = in_ProjectID i /\
    (in_MonitorID i <> "" \/ in_ServiceID i <> "").
Proof.
  intros H. split; [unfold planned; by rewrite H|]. revert H. unfold planCorrelation. destruct (im_incidents db !! A) as [i|]; [|done].
  destruct (isOpenIncident i) eqn:Ho; cbn [negb orb]; [|done].
  destruct (_ && _) eqn:E; [done|]. apply andb_false_iff in E. rewrite !bool_decide_eq_false in E.
  intros H. exists i. split_and!; [done..| |tauto]. destruct (ownServices db i); [done|]. destruct (pg_edges _); [done|].
  destruct (endpointsOf _ _); [done|]. by injection H.
Qed.

(** C25: safety of the recorded impact: a link that an attempt inserts is true of the graph and of
    the incidents.  Its incident and another one are open when the links are inserted (whatever
    was resolved since the witnesses were read), the other incident is of the service the link
    names, the incident itself is of a different service of the same project, and the recorded
    path is the canonical dependency chain between the two, at most ten levels long, from the
    dependency down: above the incident's service for a probable root, below it for an affected
    one. *)
Theorem impact_links_are_true db1 db2 A u now r
  (Hreach : sys_reachable graph_system (im_graph db1)) (Hids : nobar_ids db1)
  (Hnew : r ∈ im_impacts (commitCorrelation db2 A (planCorrelation db1 A) u now).1) (Hold : r ∉ im_impacts db2) :
  exists other s k,
    other <> iw_incident r /\ stillOpen db2 (iw_incident r) /\ stillOpen db2 other /\
    ofService db1 other (iw_service r) /\ ofService db1 (iw_incident r) s /\ s <> iw_service r /\
    (option_map in_ProjectID (im_incidents db1 !! other) = Some (iw_project r) /\
     option_map in_ProjectID (im_incidents db1 !! iw_incident r) = Some (iw_project r)) /\
    (1 <= k <= ServiceGraphDepthCap)%nat /\
    match iw_role r with
    | ImpactProbableRoot => canonicalChain (loadProjectGraphTx db1 (iw_project r)) k (iw_service r) s (iw_path r)
    | ImpactAffected => canonicalChain (loadProjectGraphTx db1 (iw_project r)) k s (iw_service r) (iw_path r)
    end.
Proof.
  pose proof (graph_reachable_inv _ Hreach) as Hinv.
  destruct (planCorrelation db1 A) as [[[P m] n]|] eqn:Hp; [|done].
  apply plan_project in Hp as (-> & i & Hi & Ho & -> & Ha).
  apply committed_row in Hnew as (HoA & k & c & Hk & [Hoc (w & Hw & How)] & ->); [|done]. cbn in *.
  destruct (planned_meaning db1 Hinv Hids A i Hi Ho Ha k c Hk) as (s & Hs & Hr & Hcase).
  destruct (related_chain _ _ _ _ _ (loaded_clean db1 (in_ProjectID i) Hinv) Hr) as (Hne & d & Hd & Hchain).
  destruct Hcase as [(HA & Hws)|(Hj & HAe)].
  - apply Hws in Hw as (Hwne & Hwa & iw & Hiw & HiwP & _)%witness_sound. exists w, s, d. rewrite HA in *. rewrite Hi, Hiw. cbn.
    rewrite HiwP. by split_and!; try apply Hd.
  - apply witness_sound in Hj as (Hjne & _ & ij & Hij & HijP & _). exists A, s, d. rewrite Hi, Hij. cbn. rewrite HijP. by split_and!; try apply Hd.
Qed.

(** ** The two ends of a relation *)
Definition linkPath (db : ImpactDB) (attempt : string) (inc e : string) (r : ImpactRole) : option (list string) :=
  ca_path <$> planned db attempt !! key inc e r.

(** An incident that an attempt can start from. *)
Definition correlates (db : ImpactDB) (P A : string) (i : Incident) : Prop :=
  im_incidents db !! A = Some i /\ in_ProjectID i = P /\ isOpenIncident i = true /\ (in_MonitorID i <> "" \/ in_ServiceID i <> "").

Section two_ends.
Context (db : ImpactDB) (Hinv : graph_inv (im_graph db)) (Hids : nobar_ids db) (Hone : one_anchor db) (P A B : string) (iA iB : Incident).
Context (HA : correlates db P A iA) (HB : correlates db P B iB) (Hne : A <> B) (HoA : omitted db A = 0) (HoB : omitted db B = 0).

Let g := loadProjectGraphTx db P.
Let chain (e : string) (r : ImpactRole) (p : list string) : Prop := exists s, ofService db A s /\ related g r s e p.

Lemma own_end e r p :
  ofService db B e ->
  (exists c, proposes g (boundedWitnesses db P A) A (ownServices db iA) c /\ isLink A e r p c) <-> chain e r p.
Proof.
  destruct HA as (Hi & HPA & Ho & Ha), HB as (HiB & HPB & HopB & _). intros He. split.
  - intros (c & [(s & j & _ & Hs & _ & _ & Hr)|(s & _ & Hj & _)]%proposes_shape & Ec & <- & <- & <-).
    + exists s. split; [by apply (elem_of_own db A iA)|done].
    + rewrite Ec in Hj. by apply witness_sound in Hj as [? _].
  - intros (s & Hs & Hr). apply (own_complete db A iA) in Hs; [|done..]. apply (own_proposed _ _ _ _ s e B); [done| |done].
    apply (witness_complete db P A e B iB); [|done..]. subst P.
    apply (omitted_none db Hinv A iA Hi Ho Ha s e HoA Hs). by apply related_either in Hr.
Qed.

Lemma mirror_end e r p :
  ofService db B e ->
  (exists c, proposes g (boundedWitnesses db P B) B (ownServices db iB) c /\ isLink A e r p c) <-> chain e r p.
Proof.
  destruct HA as (Hi & HPA & Ho & Ha), HB as (HiB & HPB & HopB & HaB). intros He. split.
  - intros (c & [(s & j & Ec' & _)|(s & _ & Hj & Hr)]%proposes_shape & Ec & <- & <- & <-).
    + by rewrite Ec' in Ec.
    + exists s. split; [|done]. rewrite Ec in Hj. by apply witness_sound in Hj as (_ & ? & _).
  - intros (s & Hs & Hr). apply (own_complete db B iB) in He; [|done..]. apply (mirror_proposed _ _ _ _ s e A); [done| |done].
    apply (witness_complete db P B s A iA); [|done..]. rewrite <- HPB.
    apply (omitted_none db Hinv B iB HiB HopB HaB e s HoB He). rewrite HPB. apply related_either in Hr. tauto.
Qed.

Lemma same_end e r : ofService db B e -> linkPath db A A e r = linkPath db B A e r.
Proof.
  intros He. unfold linkPath. destruct HA as (Hi & HPA & Ho & Ha), HB as (HiB & HPB & HopB & HaB).
  pose proof (nobar_anchored db B e Hids He) as [_ Hbe]. assert (nobar A = true) as HbA by (apply Hids; by eexists).
  pose proof (planned_path db Hinv Hids A iA Hi Ho Ha A e r HbA Hbe) as L1.
  pose proof (planned_path db Hinv Hids B iB HiB HopB HaB A e r HbA Hbe) as L2.
  rewrite HPA in L1. rewrite HPB in L2. refine (least_unique _ _ _ _ _ _ L1 L2).
  - intros p. fold g. by rewrite own_end, mirror_end.
  - intros p. fold g. rewrite own_end by done. intros (s & _ & Hr). by apply related_clean in Hr; [|apply loaded_clean].
Qed.
End two_ends.

(** C26: two incidents record the same relation whichever is correlated last: when neither attempt
    leaves a witness out, the link that the one incident gains toward a service of the other,
    and the one that the other gains toward a service of the first, are planned by both attempts
    or by neither, with the same path (the mirror of an attempt's links is what the attempt of
    the other incident would have found by itself). *)
Theorem impact_is_symmetric db P A B iA iB
  (Hreach : sys_reachable graph_system (im_graph db)) (Hids : nobar_ids db) (Hone : one_anchor db)
  (HA : correlates db P A iA) (HB : correlates db P B iB) (Hne : A <> B) (HoA : omitted db A = 0) (HoB : omitted db B = 0) :
  forall r e,
    (ofService db B e -> linkPath db A A e r = linkPath db B A e r) /\
    (ofService db A e -> linkPath db A B e r = linkPath db B B e r).
Proof.
  pose proof (graph_reachable_inv _ Hreach) as Hinv. intros r e. split; intros He.
  - by apply (same_end db Hinv Hids Hone P A B iA iB).
  - symmetry. by apply (same_end db Hinv Hids Hone P B A iB iA).
Qed.

(** a redelivered opening event adds nothing: correlating the incident again, in the state the
    first attempt left, changes nothing, reports no link, and counts the same witnesses as left
    out. *)
Theorem redelivery_links_nothing db A u1 t1 u2 t2 :
  let first := CorrelateIncident db A u1 t1 in
  CorrelateIncident first.1 A u2 t2 = (first.1, ([], first.2.2)).
Proof.
  unfold CorrelateIncident. cbv zeta.
  assert (planCorrelation (commitCorrelation db A (planCorrelation db A) u1 t1).1 A = planCorrelation db A) as ->.
  { unfold commitCorrelation. destruct (planCorrelation db A) as [[[P m] n]|] eqn:E; [|done]. by repeat case_bool_decide. }
  destruct (planCorrelation db A) as [[[P m] n]|]; [|done]. unfold commitCorrelation. case_bool_decide as Hm; [done|].
  destruct (decide (openStatus db A = None)) as [Ho|Ho].
  { rewrite !(bool_decide_eq_true_2 (openStatus db A = None)) by done. done. }
  rewrite !(bool_decide_eq_false_2 (openStatus db A = None)) by done. cbn. set (rows := foldl (insertLink db P) [] (inKeyOrder m)).
  set (notes := omap _ _).
  match goal with |- context [foldl (insertLink ?d P) [] _] => set (db' := d) end.
  assert (foldl (insertLink db' P) [] (inKeyOrder m) = []) as ->; [|cbn; by rewrite !app_nil_r].
  apply insert_nothing. intros c Hc He. rewrite app_nil_r. by apply (inserted_all db P (inKeyOrder m) []).
Qed.

(** ** A sample: web depends on api, which depends on db *)
Module ImpactSample.
Definition open (id monitor service : string) (at_ : Time) : Incident :=
  {| in_ID := id; in_ProjectID := "p"; in_MonitorID := monitor; in_ServiceID := service; in_ExternalKey := ""; in_Title := "down";
     in_Status := IncidentInvestigating; in_Impact := ImpactMajor; in_Source := SourceAuto; in_StartedAt := at_; in_ResolvedAt := None;
     in_AcknowledgedAt := None; in_AcknowledgedBy := ""; in_AcknowledgedByName := ""; in_EscalationStep := 0; in_LastEscalatedAt := None;
     in_CreatedAt := at_; in_UpdatedAt := at_ |}.
Definition web : Incident := open "i1" "" "c" 10.
Definition database : Incident := open "i2" "m1" "" 20.
Definition db : ImpactDB :=
  {| im_graph := GraphSample.four; im_members := [("m1", "a")]; im_incidents := <["i1" := web]> {["i2" := database]};
     im_updates := []; im_impacts := [] |}.

Lemma incidents j i : im_incidents db !! j = Some i -> (j = "i1" /\ i = web) \/ (j = "i2" /\ i = database).
Proof. cbn. rewrite lookup_insert_Some, lookup_singleton_Some. naive_solver. Qed.

Lemma ids : nobar_ids db.
Proof.
  split.
  - intros j [i [[-> _]|[-> _]]%incidents]; reflexivity.
  - intros j e (i & [[_ ->]|[_ ->]]%incidents & [[_ H]|[_ H]]); cbn in H; subst; try reflexivity; apply list_elem_of_singleton in H; by simplify_eq.
Qed.

Lemma anchors : one_anchor db.
Proof. intros j i [[_ ->]|[_ ->]]%incidents; [by left|by right]. Qed.
End ImpactSample.

Example impact_is_recorded :
  (CorrelateIncident ImpactSample.db "i1" (fun i => i) 30).2
  = ([{| sl_ServiceID := "a"; sl_Slug := "db"; sl_Name := "db"; sl_Role := ImpactProbableRoot; sl_Path := ["db"; "api"; "web"] |};
      {| sl_ServiceID := "c"; sl_Slug := "web"; sl_Name := "web"; sl_Role := ImpactAffected; sl_Path := ["db"; "api"; "web"] |}], 0)
  /\ map iu_Body (im_updates (CorrelateIncident ImpactSample.db "i1" (fun i => i) 30).1)
     = ["🕸 Impact: probable root — db (via db → api → web)."; "🕸 Impact: affected — web."].
Proof. vm_compute. split; reflexivity. Qed.

Lemma impact_links_are_true_witness :
  exists other s k, canonicalChain (loadProjectGraphTx ImpactSample.db "p") k "a" s ["db"; "api"; "web"] /\ stillOpen ImpactSample.db other /\
    s <> "a".
Proof.
  destruct (impact_links_are_true ImpactSample.db ImpactSample.db "i1" (fun i => i) 30
    {| iw_incident := "i1"; iw_service := "a"; iw_project := "p"; iw_role := ImpactProbableRoot; iw_path := ["db"; "api"; "web"] |}
    GraphSample.reached ImpactSample.ids) as (other & s & k & _ & _ & Ho & _ & _ & Hs & _ & _ & H).
  - vm_compute. left.
  - apply not_elem_of_nil.
  - exists other, s, k. split; [exact H|]. split; [exact Ho|exact Hs].
Defined.

Lemma impact_is_symmetric_witness :
  linkPath ImpactSample.db "i1" "i2" "c" ImpactAffected = linkPath ImpactSample.db "i2" "i2" "c" ImpactAffected /\
  linkPath ImpactSample.db "i2" "i2" "c" ImpactAffected = Some ["db"; "api"; "web"].
Proof.
  split; [|vm_compute; reflexivity].
  apply (impact_is_symmetric ImpactSample.db "p" "i1" "i2" ImpactSample.web ImpactSample.database GraphSample.reached ImpactSample.ids ImpactSample.anchors).
  - split_and!; [vm_compute; reflexivity..|right; discriminate].
  - split_and!; [vm_compute; reflexivity..|left; discriminate].
  - discriminate.
  - vm_compute. reflexivity.
  - vm_compute. reflexivity.
  - exists ImpactSample.web. split; [vm_compute; reflexivity|]. right. split; [discriminate|reflexivity].
Defined.
