(* ===== verification/CredSettings.v ===== *)
(** * Settings of credentialed monitors
    ([internal/domain/credsettings.go], the binding keys of [syntheticbindings.go],
    [canarycanonical.go] and [canaryexec.go])

    The declarative registry of per-type settings and its consumers: validation, normalization,
    the expected envelope fields, and the keys (with their values) that bind an execution. *)

From S2P Require Import Prelude GoString ServicePolicy.

(** ** Pieces of [strings] *)
Definition cutPrefix (p s : string) : option string := stringOf <$> stripPrefix (bytesOf p) (bytesOf s).
Definition cutSuffix (p s : string) : option string :=
  (fun l => stringOf (rev l)) <$> stripPrefix (rev (bytesOf p)) (rev (bytesOf s)).
Definition HasPrefix (s p : string) : bool := bool_decide (is_Some (cutPrefix p s)).
Definition HasSuffix (s p : string) : bool := bool_decide (is_Some (cutSuffix p s)).
Definition TrimPrefix (s p : string) : string := default s (cutPrefix p s).
Definition TrimSuffix (s p : string) : string := default s (cutSuffix p s).

Definition sortStrings (l : list string) : list string := merge_sort String.le l.

(** A lower-case letter and at most [n] bytes of [tail]. *)
Definition nameMatches (tail : Z -> bool) (n : nat) (s : string) : bool :=
  match bytesOf s with
  | [] => false
  | b :: rest => inRange 97 122 b && forallb tail rest && (length rest <=? n)%nat
  end.

(** ** The registry *)
Notation settings := (gmap string string).

Inductive CredentialSurface := SurfaceFile | SurfaceAPI | SurfaceAPIUpdate | SurfaceOther.

Inductive bindingClass := bindingUnclassified | bindingExecution | bindingSecretValue | bindingSecretRef.
#[export] Instance bindingClass_eq : EqDecision bindingClass.
Proof. solve_decision. Defined.

Inductive CredentialRequirement := CredentialInvalid | CredentialRequired | CredentialForbidden.
#[export] Instance credentialRequirement_eq : EqDecision CredentialRequirement.
Proof. solve_decision. Defined.

Inductive SettingsError :=
| ErrNoSchema | ErrVariantMissing | ErrVariantInvalid | ErrUnknownSetting | ErrSettingRequired (key : string)
| ErrSettingTooLong (key : string) | ErrSettingEnum (key : string) | ErrSettingBoolean (key : string) | ErrSkipVerifyWithoutTLS
| ErrBlankQuery | ErrInlinePassword | ErrRefRequired | ErrOneCredential | ErrRefShape | ErrUnknownSurface | ErrNotInSchema.
#[export] Instance settingsError_eq : EqDecision SettingsError.
Proof. solve_decision. Defined.

Definition secretRefTail (b : Z) : bool := inRange 97 122 b || inRange 48 57 b || (b =? 45).
Definition ValidSecretName (s : string) : bool := nameMatches secretRefTail 62 s.

Definition maxCredFieldLen : nat := 256.
Definition maxQueryLen : nat := 1024.
Definition maxPathLen : nat := 512.
Definition sslModes : list string := ["disable"; "require"; "verify-ca"; "verify-full"].

(** [cf_maxLen] 0 and [cf_enum] [None] are no limit. *)
Record credField := {
  cf_key : string; cf_binding : bindingClass; cf_required : bool; cf_maxLen : nat; cf_enum : option (list string);
  cf_boolean : bool; cf_def : string; cf_writeDefault : bool; cf_defIfBlank : bool;
}.

Record credVariant := {
  cv_fields : list credField; cv_requirement : CredentialRequirement; cv_crossChecks : list (settings -> result SettingsError unit);
}.

(** Variants by the value of the discriminator, [""] when there is none. *)
Record credSchema := { cs_discriminator : string; cs_discriminatorDefault : string; cs_variants : list (string * credVariant) }.

(** Field literals: the zero value but for what the source sets. *)
Definition execution (key : string) (required : bool) (maxLen : nat) : credField :=
  {| cf_key := key; cf_binding := bindingExecution; cf_required := required; cf_maxLen := maxLen; cf_enum := None; cf_boolean := false;
     cf_def := ""; cf_writeDefault := false; cf_defIfBlank := false |}.
Definition defaulted (key : string) (maxLen : nat) (def : string) : credField :=
  {| cf_key := key; cf_binding := bindingExecution; cf_required := false; cf_maxLen := maxLen; cf_enum := None; cf_boolean := false;
     cf_def := def; cf_writeDefault := true; cf_defIfBlank := true |}.
Definition authMode : credField :=
  {| cf_key := "auth_mode"; cf_binding := bindingExecution; cf_required := false; cf_maxLen := 0; cf_enum := None; cf_boolean := false;
     cf_def := "none"; cf_writeDefault := false; cf_defIfBlank := false |}.
Definition sslMode : credField :=
  {| cf_key := "sslmode"; cf_binding := bindingExecution; cf_required := false; cf_maxLen := 0; cf_enum := Some sslModes; cf_boolean := false;
     cf_def := "require"; cf_writeDefault := true; cf_defIfBlank := false |}.
Definition tlsFlag (key def : string) (write : bool) : credField :=
  {| cf_key := key; cf_binding := bindingExecution; cf_required := false; cf_maxLen := 0; cf_enum := None; cf_boolean := true;
     cf_def := def; cf_writeDefault := write; cf_defIfBlank := false |}.
Definition tlsFields : list credField := [tlsFlag "tls" "true" true; tlsFlag "tls_skip_verify" "false" false].
Definition slot (key : string) (b : bindingClass) : credField :=
  {| cf_key := key; cf_binding := b; cf_required := false; cf_maxLen := 0; cf_enum := None; cf_boolean := false;
     cf_def := ""; cf_writeDefault := false; cf_defIfBlank := false |}.
Definition passwordSlots : list credField := [slot "password" bindingSecretValue; slot "password_ref" bindingSecretRef].

Definition promqlQueryNotBlank (s : settings) : result SettingsError unit :=
  match s !! "query" with Some q => refuse_if (bool_decide (TrimSpace q = "")) ErrBlankQuery | None => Ok tt end.

Definition tlsPairCheck (s : settings) : result SettingsError unit :=
  refuse_if (bool_decide (s !! "tls_skip_verify" = Some "true") && bool_decide (s !! "tls" = Some "false")) ErrSkipVerifyWithoutTLS.

Definition variant (r : CredentialRequirement) (checks : list (settings -> result SettingsError unit)) (fields : list credField) : credVariant :=
  {| cv_fields := fields; cv_requirement := r; cv_crossChecks := checks |}.

Definition oneVariant (v : credVariant) : credSchema :=
  {| cs_discriminator := ""; cs_discriminatorDefault := ""; cs_variants := [("", v)] |}.

Definition credentialSchemas (typ : MonitorType) : option credSchema :=
  match typ with
  | MonitorPostgres =>
    Some (oneVariant (variant CredentialRequired []
      ([execution "username" true maxCredFieldLen; execution "database" true maxCredFieldLen; sslMode;
        defaulted "query" maxQueryLen "SELECT 1"] ++ passwordSlots)))
  | MonitorMySQL =>
    Some (oneVariant (variant CredentialRequired [tlsPairCheck]
      ([execution "username" true maxCredFieldLen; execution "database" true maxCredFieldLen] ++ tlsFields
       ++ [defaulted "query" maxQueryLen "SELECT 1"] ++ passwordSlots)))
  | MonitorRedis =>
    Some (oneVariant (variant CredentialRequired [tlsPairCheck]
      ([execution "username" false maxCredFieldLen] ++ tlsFields ++ passwordSlots)))
  | MonitorPromQL =>
    Some {| cs_discriminator := "auth_mode"; cs_discriminatorDefault := "none";
            cs_variants :=
              [("none", variant CredentialForbidden [promqlQueryNotBlank] [authMode; execution "query" true maxQueryLen]);
               ("basic", variant CredentialRequired [promqlQueryNotBlank]
                  ([authMode; execution "query" true maxQueryLen; execution "username" true maxCredFieldLen] ++ passwordSlots))] |}
  | MonitorRabbitMQ =>
    Some {| cs_discriminator := "mode"; cs_discriminatorDefault := "";
            cs_variants :=
              [("amqp", variant CredentialForbidden [] [execution "mode" true 0]);
               ("management", variant CredentialRequired [tlsPairCheck]
                  ([execution "mode" true 0; execution "username" true maxCredFieldLen; defaulted "path" maxPathLen "/api/overview"]
                   ++ tlsFields ++ passwordSlots))] |}
  | _ => None
  end.

Definition CredentialedType (typ : MonitorType) : bool := bool_decide (is_Some (credentialSchemas typ)).

(** The lookup of a Go map literal given as a list. *)
Definition variantOf (vs : list (string * credVariant)) (value : string) : option credVariant :=
  snd <$> List.find (fun kv => bool_decide (kv.1 = value)) vs.

Definition resolveVariant (typ : MonitorType) (s : settings) : result SettingsError credVariant :=
  match credentialSchemas typ with
  | None => Err ErrNoSchema
  | Some schema =>
    if bool_decide (cs_discriminator schema = "") then
      match variantOf (cs_variants schema) "" with Some v => Ok v | None => Err ErrVariantInvalid end
    else
      let! value := match s !! cs_discriminator schema with
                    | Some v => Ok v
                    | None => if bool_decide (cs_discriminatorDefault schema = "") then Err ErrVariantMissing
                              else Ok (cs_discriminatorDefault schema)
                    end in
      match variantOf (cs_variants schema) value with Some v => Ok v | None => Err ErrVariantInvalid end
  end.

Definition ResolveCredentialRequirement (typ : MonitorType) (s : settings) : CredentialRequirement :=
  match resolveVariant typ s with Ok v => cv_requirement v | Err _ => CredentialInvalid end.

(** ** Named bindings of scenarios and canaries *)
Definition bindingTail (b : Z) : bool := secretRefTail b || (b =? 95).
Definition bindingName (s : string) : bool := nameMatches bindingTail 39 s.

Definition scenarioSecretPrefix : string := "scenario_secret_".
Definition canarySecretPrefix : string := "canary_secret_".
Definition secretSuffix : string := "_ref".
Definition SyntheticScenarioKey : string := "scenario".
Definition CanaryWorkflowKey : string := "workflow".
Definition CanaryRunKey : string := "canary_run".

Definition ScenarioSecretRefKey (binding : string) : string := scenarioSecretPrefix +:+ binding +:+ secretSuffix.
Definition CanarySecretRefKey (binding : string) : string := canarySecretPrefix +:+ binding +:+ secretSuffix.

Definition bindingFromRefKey (prefix key : string) : option string :=
  if negb (HasPrefix key prefix) || negb (HasSuffix key secretSuffix) then None
  else let name := TrimSuffix (TrimPrefix key prefix) secretSuffix in if bindingName name then Some name else None.
Definition ScenarioBindingFromRefKey (key : string) : option string := bindingFromRefKey scenarioSecretPrefix key.
Definition CanaryBindingFromRefKey (key : string) : option string := bindingFromRefKey canarySecretPrefix key.

Definition refKeysOf (parse : string -> option string) (config : settings) : list string :=
  sortStrings (List.filter (fun k => bool_decide (is_Some (parse k))) (map fst (map_to_list config))).
Definition ScenarioSecretRefKeys (config : settings) : list string := refKeysOf ScenarioBindingFromRefKey config.
Definition CanarySecretRefKeys (config : settings) : list string := refKeysOf CanaryBindingFromRefKey config.

Definition ScenarioBindingField (binding : string) : string := scenarioSecretPrefix +:+ binding.
Definition CanaryBindingField (binding : string) : string := canarySecretPrefix +:+ binding.

Definition ScenarioBindingFromField (field : string) : option string :=
  if negb (HasPrefix field scenarioSecretPrefix) then None
  else let name := TrimPrefix field scenarioSecretPrefix in if bindingName name then Some name else None.

(** ** The envelope *)
Definition expectedFieldsOf (field : string -> string) (parse : string -> option string) (config : settings) : list string :=
  sortStrings (omap (fun key => if bool_decide (TrimSpace (default "" (config !! key)) = "") then None
                                else Some (field (default "" (parse key)))) (refKeysOf parse config)).

Definition scenarioExpectedFields (typ : MonitorType) (s : settings) : list string :=
  if bool_decide (typ = MonitorSynthetic) then expectedFieldsOf ScenarioBindingField ScenarioBindingFromRefKey s else [].
Definition canaryExpectedFields (typ : MonitorType) (s : settings) : list string :=
  if bool_decide (typ = MonitorAsyncCanary) then expectedFieldsOf CanaryBindingField CanaryBindingFromRefKey s else [].

Definition RequiresExecutionEnvelope (typ : MonitorType) (config : settings) : bool :=
  CredentialedType typ || negb (bool_decide (canaryExpectedFields typ config = [])).

Definition keysOfBinding (b : bindingClass) (v : credVariant) : list string :=
  map cf_key (List.filter (fun f => bool_decide (cf_binding f = b)) (cv_fields v)).

Definition credentialExpectedFields (typ : MonitorType) (s : settings) : result SettingsError (list string) :=
  let! v := resolveVariant typ s in
  if negb (bool_decide (cv_requirement v = CredentialRequired)) then Ok [] else Ok (sortStrings (keysOfBinding bindingSecretValue v)).

Definition ExpectedCredentialFields (typ : MonitorType) (s : settings) : result SettingsError (list string) :=
  let scenario := sortStrings (scenarioExpectedFields typ s ++ canaryExpectedFields typ s) in
  if negb (CredentialedType typ) then
    match scenario with
    | [] => let! _ := resolveVariant typ s in Ok []
    | _ => Ok scenario
    end
  else
    let! typed := credentialExpectedFields typ s in
    Ok (match scenario with [] => typed | _ => sortStrings (typed ++ scenario) end).

(** ** The keys that bind an execution *)
Definition scenarioExecutionKeys (typ : MonitorType) (s : settings) : list string :=
  if bool_decide (typ = MonitorSynthetic) then
    match ScenarioSecretRefKeys s with [] => [] | refs => sortStrings (SyntheticScenarioKey :: refs) end
  else [].
Definition canaryExecutionKeys (typ : MonitorType) (s : settings) : list string :=
  if bool_decide (typ = MonitorAsyncCanary) then
    match CanarySecretRefKeys s with [] => [] | refs => sortStrings (CanaryWorkflowKey :: CanaryRunKey :: refs) end
  else [].

Definition ExecutionBindingKeys (typ : MonitorType) (s : settings) : result SettingsError (list string) :=
  let scenarioKeys := scenarioExecutionKeys typ s ++ canaryExecutionKeys typ s in
  if negb (CredentialedType typ) then
    match scenarioKeys with
    | [] => let! _ := resolveVariant typ s in Ok []
    | _ => Ok scenarioKeys
    end
  else
    let! v := resolveVariant typ s in Ok (sortStrings (scenarioKeys ++ keysOfBinding bindingExecution v)).

Definition writtenKey (key : string) : bool :=
  bool_decide (key = SyntheticScenarioKey) || bool_decide (is_Some (ScenarioBindingFromRefKey key))
  || bool_decide (key = CanaryWorkflowKey) || bool_decide (key = CanaryRunKey) || bool_decide (is_Some (CanaryBindingFromRefKey key)).

Definition CanonicalSettingValue (typ : MonitorType) (s : settings) (key : string) : result SettingsError string :=
  if writtenKey key then Ok (default "" (s !! key))
  else
    let! v := resolveVariant typ s in
    match s !! key with
    | Some x => Ok x
    | None => match List.find (fun f => bool_decide (cf_key f = key)) (cv_fields v) with
              | Some f => Ok (cf_def f)
              | None => Err ErrNotInSchema
              end
    end.

(** ** Writing settings *)
Definition CredentialUpdateOmitsSlot (typ : MonitorType) (s : settings) : bool :=
  bool_decide (ResolveCredentialRequirement typ s = CredentialRequired)
  && bool_decide (s !! "password" = None) && bool_decide (s !! "password_ref" = None).

Definition normalizeField (out : settings) (f : credField) : settings :=
  if bool_decide (cf_def f = "") || negb (cf_writeDefault f) then out
  else match out !! cf_key f with
       | None => <[cf_key f := cf_def f]> out
       | Some current => if cf_defIfBlank f && bool_decide (TrimSpace current = "") then <[cf_key f := cf_def f]> out else out
       end.

Definition normalizeCredentialSettings (typ : MonitorType) (s : settings) : settings :=
  match resolveVariant typ s with Err _ => s | Ok v => foldl normalizeField s (cv_fields v) end.

Definition validateField (s : settings) (f : credField) : result SettingsError unit :=
  let! _ := refuse_if (cf_required f && bool_decide (default "" (s !! cf_key f) = "")) (ErrSettingRequired (cf_key f)) in
  match s !! cf_key f with
  | None => Ok tt
  | Some v =>
    let! _ := refuse_if ((0 <? cf_maxLen f)%nat && (cf_maxLen f <? length (bytesOf v))%nat) (ErrSettingTooLong (cf_key f)) in
    let! _ := refuse_if (match cf_enum f with Some e => negb (bool_decide (v ∈ e)) | None => false end) (ErrSettingEnum (cf_key f)) in
    refuse_if (cf_boolean f && negb (bool_decide (v = "true")) && negb (bool_decide (v = "false"))) (ErrSettingBoolean (cf_key f))
  end.

Definition credentialSlot (s : settings) (surface : CredentialSurface) : result SettingsError unit :=
  let hasValue := bool_decide (is_Some (s !! "password")) in
  let refShape := match s !! "password_ref" with Some ref => refuse_if (negb (ValidSecretName ref)) ErrRefShape | None => Ok tt end in
  let hasRef := bool_decide (is_Some (s !! "password_ref")) in
  match surface with
  | SurfaceFile => let! _ := refuse_if hasValue ErrInlinePassword in let! _ := refuse_if (negb hasRef) ErrRefRequired in refShape
  | SurfaceAPI => let! _ := refuse_if (Bool.eqb hasValue hasRef) ErrOneCredential in refShape
  | SurfaceAPIUpdate =>
    let! _ := refuse_if (hasValue && hasRef) ErrOneCredential in
    if negb hasValue && negb hasRef then Ok tt else refShape
  | SurfaceOther => Err ErrUnknownSurface
  end.

(** The first failure of a list of checks. *)
Definition allOk {A} (check : A -> result SettingsError unit) (l : list A) : result SettingsError unit :=
  foldr (fun x rest => let! _ := check x in rest) (Ok tt) l.

(** The error of an unknown key names it; which one, the iteration of the map leaves open. *)
Definition validateCredentialSettings (typ : MonitorType) (s : settings) (surface : CredentialSurface) : result SettingsError unit :=
  let! v := resolveVariant typ s in
  let! _ := refuse_if (negb (forallb (fun k => bool_decide (k ∈ map cf_key (cv_fields v))) (map fst (map_to_list s)))) ErrUnknownSetting in
  let! _ := allOk (validateField s) (cv_fields v) in
  let! _ := allOk (fun check => check s) (cv_crossChecks v) in
  if negb (bool_decide (cv_requirement v = CredentialRequired)) then Ok tt else credentialSlot s surface.

Definition PrepareCredentialSettings (typ : MonitorType) (input : settings) (surface : CredentialSurface) : result SettingsError settings :=
  let normalized := normalizeCredentialSettings typ input in
  let! _ := validateCredentialSettings typ normalized surface in Ok normalized.
