(* ===== verification/CredFacts.v ===== *)
(** * What a prepared configuration is

    Normalization is a fixed point that changes nothing an execution is bound to, a default may
    be left out, and the flat keys of named bindings parse back. *)

From S2P Require Import Prelude GoString GoBase64 ServicePolicy CredSettings.

(** ** The registry *)

(** What the lemmas need of a variant: distinct keys, none of a scenario or canary; a default
    passes its own field's checks; the discriminator is never materialized. *)
Record fieldOk (schema : credSchema) (f : credField) : Prop := {
  fo_named : writtenKey (cf_key f) = false;
  fo_default : cf_def f <> "" -> validateField {[cf_key f := cf_def f]} f = Ok tt;
  fo_visible : cf_def f <> "" -> TrimSpace (cf_def f) <> "";
  fo_discriminator : cf_key f = cs_discriminator schema ->
    cf_writeDefault f = false /\ (cf_def f <> "" -> cf_def f = cs_discriminatorDefault schema);
  fo_optional : cf_def f <> "" -> cf_required f = false /\ cf_key f <> "password" /\ cf_key f <> "password_ref";
}.

(** A check does not tell an absent key from a default that is not materialized. *)
Definition checkOk (fs : list credField) (check : settings -> result SettingsError unit) : Prop :=
  forall f s, f ∈ fs -> cf_def f <> "" -> cf_writeDefault f = false -> s !! cf_key f = None -> check (<[cf_key f := cf_def f]> s) = check s.

Record variantOk (schema : credSchema) (v : credVariant) : Prop := {
  vo_keys : NoDup (map cf_key (cv_fields v));
  vo_fields : Forall (fieldOk schema) (cv_fields v);
  vo_checks : Forall (checkOk (cv_fields v)) (cv_crossChecks v);
}.

Lemma tlsPair_ok fs : Forall (fun f => cf_def f <> "" -> cf_writeDefault f = false -> cf_key f <> "tls" /\ (cf_key f = "tls_skip_verify" -> cf_def f = "false")) fs ->
  checkOk fs tlsPairCheck.
Proof.
  intros Hfs f s Hf Hd Hw Hn. rewrite List.Forall_forall in Hfs. apply list_elem_of_In in Hf. destruct (Hfs f Hf Hd Hw) as [H1 H2].
  unfold tlsPairCheck. rewrite (lookup_insert_ne _ _ "tls") by done. destruct (decide (cf_key f = "tls_skip_verify")) as [E|E].
  - rewrite E in Hn |- *. rewrite lookup_insert_eq, Hn, (H2 E). done.
  - by rewrite lookup_insert_ne.
Qed.

Lemma blankQuery_ok fs : Forall (fun f => cf_def f <> "" -> cf_writeDefault f = false -> cf_key f <> "query") fs -> checkOk fs promqlQueryNotBlank.
Proof.
  intros Hfs f s Hf Hd Hw Hn. rewrite List.Forall_forall in Hfs. apply list_elem_of_In in Hf.
  unfold promqlQueryNotBlank. by rewrite lookup_insert_ne by (by apply Hfs).
Qed.

Lemma registry_ok typ schema value v :
  credentialSchemas typ = Some schema -> variantOf (cs_variants schema) value = Some v -> variantOk schema v.
Proof.
  intros Hs Hv. unfold variantOf in Hv. apply fmap_Some in Hv as ([x y] & [Hin _]%List.find_some & ->).
  destruct typ; try discriminate; injection Hs as <-; cbn in Hin; destruct_or! Hin; try done; injection Hin as <- <-; cbn.
  all: split; [by apply (bool_decide_unpack _); vm_compute| |].
  all: repeat first [apply List.Forall_nil|apply List.Forall_cons].
  all: try (split; try (vm_compute; done); intros; vm_compute in *; try done; by split).
  all: first [apply tlsPair_ok|apply blankQuery_ok]; repeat constructor; by vm_compute.
Qed.

Lemma resolved typ s v :
  resolveVariant typ s = Ok v -> exists schema value, credentialSchemas typ = Some schema /\ variantOf (cs_variants schema) value = Some v /\
    value = (if bool_decide (cs_discriminator schema = "") then "" else default (cs_discriminatorDefault schema) (s !! cs_discriminator schema)).
Proof.
  unfold resolveVariant. destruct (credentialSchemas typ) as [schema|]; [|done]. case_bool_decide as Ed; intros H; exists schema.
  - exists "". split; [done|]. rewrite bool_decide_eq_true_2 by done. by destruct (variantOf _ _); [injection H as ->|].
  - rewrite bool_decide_eq_false_2 by done. destruct (s !! cs_discriminator schema) as [x|]; cbn [rbind default] in *.
    + exists x. split; [done|]. by destruct (variantOf _ _); [injection H as ->|].
    + case_bool_decide; cbn [rbind] in H; [done|]. eexists. split; [done|]. split; [|done]. by destruct (variantOf _ _); [injection H as ->|].
Qed.

Lemma resolved_ok typ s v : resolveVariant typ s = Ok v -> exists schema, credentialSchemas typ = Some schema /\ variantOk schema v.
Proof. intros (schema & value & Hs & Hv & _)%resolved. exists schema. split; [done|]. by apply (registry_ok typ schema value). Qed.

(** Settings that agree on the discriminator resolve alike. *)
Lemma resolve_agree typ s s' :
  (forall schema, credentialSchemas typ = Some schema -> s' !! cs_discriminator schema = s !! cs_discriminator schema) ->
  resolveVariant typ s' = resolveVariant typ s.
Proof. intros H. unfold resolveVariant. destruct (credentialSchemas typ) as [schema|]; [|done]. by rewrite H. Qed.

(** ** Normalization *)
Definition fieldOf (v : credVariant) (k : string) : option credField := List.find (fun f => bool_decide (cf_key f = k)) (cv_fields v).

(** What normalization leaves at one key. *)
Definition normalValue (f : credField) (x : option string) : option string :=
  if bool_decide (cf_def f = "") || negb (cf_writeDefault f) then x
  else match x with
       | None => Some (cf_def f)
       | Some c => if cf_defIfBlank f && bool_decide (TrimSpace c = "") then Some (cf_def f) else Some c
       end.

Lemma normalizeField_same s f : normalizeField s f !! cf_key f = normalValue f (s !! cf_key f).
Proof.
  unfold normalizeField, normalValue. destruct (_ || _); [done|]. destruct (s !! cf_key f) as [c|] eqn:E; [|by rewrite lookup_insert_eq].
  destruct (_ && _); [by rewrite lookup_insert_eq|done].
Qed.

Lemma normalizeField_other s f k : cf_key f <> k -> normalizeField s f !! k = s !! k.
Proof. intros. unfold normalizeField. destruct (_ || _); [done|]. repeat case_match; try done; by rewrite lookup_insert_ne. Qed.

Lemma normalize_absent fs s k : k ∉ map cf_key fs -> foldl normalizeField s fs !! k = s !! k.
Proof.
  revert s. induction fs as [|f fs IH]; intros s Hk; cbn in *; [done|]. apply not_elem_of_cons in Hk as [Hk1 Hk2].
  rewrite IH by done. by apply normalizeField_other.
Qed.

Lemma find_key fs k f : List.find (fun f => bool_decide (cf_key f = k)) fs = Some f -> f ∈ fs /\ cf_key f = k.
Proof. intros [Hin Hk]%List.find_some. split; [by apply list_elem_of_In|]. by apply bool_decide_eq_true in Hk. Qed.

Lemma find_field fs f : NoDup (map cf_key fs) -> f ∈ fs -> List.find (fun g => bool_decide (cf_key g = cf_key f)) fs = Some f.
Proof.
  induction fs as [|g fs IH]; [by intros _ ?%not_elem_of_nil|]. cbn. intros [Hg Hn]%list.NoDup_cons [->|Hin]%elem_of_cons; [by rewrite bool_decide_eq_true_2|].
  rewrite bool_decide_eq_false_2; [by apply IH|]. intros E. apply Hg. rewrite E. apply list_elem_of_fmap. by exists f.
Qed.

Lemma no_field fs k : List.find (fun f => bool_decide (cf_key f = k)) fs = None -> k ∉ map cf_key fs.
Proof.
  intros H (f & -> & Hin)%list_elem_of_fmap. apply list_elem_of_In in Hin. apply (List.find_none _ _ H) in Hin. by apply bool_decide_eq_false in Hin.
Qed.

Lemma normalize_lookup fs s k :
  NoDup (map cf_key fs) ->
  foldl normalizeField s fs !! k
  = match List.find (fun f => bool_decide (cf_key f = k)) fs with Some f => normalValue f (s !! k) | None => s !! k end.
Proof.
  revert s. induction fs as [|f fs IH]; intros s; cbn; [done|]. intros [Hf Hn]%list.NoDup_cons. case_bool_decide as E.
  - subst k. rewrite normalize_absent by done. apply normalizeField_same.
  - rewrite IH by done. by rewrite normalizeField_other.
Qed.

Lemma normalValue_idem schema f x : fieldOk schema f -> normalValue f (normalValue f x) = normalValue f x.
Proof.
  intros Hf. unfold normalValue. case_bool_decide as Ed; [done|]. pose proof (fo_visible _ _ Hf Ed) as Hv. destruct (negb _); [done|]. cbn [orb].
  assert (forall y, (if cf_defIfBlank f && bool_decide (TrimSpace (cf_def f) = "") then Some (cf_def f) else Some y) = Some y) as Hn.
  { intros y. by rewrite bool_decide_eq_false_2, andb_false_r by done. }
  destruct x as [c|]; [|apply Hn]. destruct (cf_defIfBlank f && bool_decide (TrimSpace c = "")) eqn:E; [apply Hn|by rewrite E].
Qed.

Section resolved.
Context (typ : MonitorType) (s : settings) (v : credVariant) (Hv : resolveVariant typ s = Ok v).

Lemma normalized_key k :
  normalizeCredentialSettings typ s !! k = match fieldOf v k with Some f => normalValue f (s !! k) | None => s !! k end.
Proof.
  unfold normalizeCredentialSettings. rewrite Hv. destruct (resolved_ok _ _ _ Hv) as (schema & _ & Ho). by apply normalize_lookup, (vo_keys _ _ Ho).
Qed.

Lemma field_ok k f : fieldOf v k = Some f -> f ∈ cv_fields v /\ cf_key f = k /\ exists schema, credentialSchemas typ = Some schema /\ fieldOk schema f.
Proof.
  intros [Hin Hk]%find_key. destruct (resolved_ok _ _ _ Hv) as (schema & Hs & Ho). split_and!; [done|done|]. exists schema. split; [done|].
  pose proof (vo_fields _ _ Ho) as Hf. rewrite List.Forall_forall in Hf. by apply Hf, list_elem_of_In.
Qed.

Lemma normalize_resolve : resolveVariant typ (normalizeCredentialSettings typ s) = Ok v.
Proof.
  rewrite <- Hv. apply resolve_agree. intros schema Hs. rewrite normalized_key. destruct (fieldOf v _) as [f|] eqn:Ef; [|done].
  destruct (field_ok _ _ Ef) as (_ & Hk & schema' & Hs' & Hf). assert (schema' = schema) as -> by congruence.
  destruct (fo_discriminator _ _ Hf Hk) as [Hw _]. unfold normalValue. by rewrite Hw, orb_true_r.
Qed.
End resolved.

Lemma normalize_idem typ s : normalizeCredentialSettings typ (normalizeCredentialSettings typ s) = normalizeCredentialSettings typ s.
Proof.
  destruct (resolveVariant typ s) as [v|e] eqn:Hv; [|unfold normalizeCredentialSettings; by rewrite Hv, Hv].
  apply map_eq. intros k. rewrite (normalized_key typ _ v) by (by apply normalize_resolve). rewrite (normalized_key typ s v) by done.
  destruct (fieldOf v k) as [f|] eqn:Ef; [|done]. destruct (field_ok typ s v Hv _ _ Ef) as (_ & _ & schema & _ & Hf).
  by apply (normalValue_idem schema).
Qed.

(** The keys of a credentialed type are those of its variant. *)
Lemma credentialed_keys typ s v :
  resolveVariant typ s = Ok v -> ExecutionBindingKeys typ s = Ok (sortStrings (keysOfBinding bindingExecution v)).
Proof.
  intros Hv. destruct (resolved_ok _ _ _ Hv) as (schema & Hs & _). unfold ExecutionBindingKeys, CredentialedType. rewrite Hv.
  rewrite bool_decide_eq_true_2 by (rewrite Hs; by eexists). cbn [negb rbind].
  unfold scenarioExecutionKeys, canaryExecutionKeys. by destruct typ.
Qed.

Lemma binding_field typ s v k :
  resolveVariant typ s = Ok v -> k ∈ sortStrings (keysOfBinding bindingExecution v) ->
  exists f, fieldOf v k = Some f /\ cf_binding f = bindingExecution.
Proof.
  intros Hv. unfold sortStrings. rewrite (merge_sort_Permutation _). unfold keysOfBinding.
  intros (f & -> & Hf)%list_elem_of_fmap. apply elem_of_filter_b in Hf as [Hf Hb%bool_decide_eq_true].
  exists f. split; [|done]. destruct (resolved_ok _ _ _ Hv) as (schema & _ & Ho). by apply find_field; [apply (vo_keys _ _ Ho)|].
Qed.

Lemma canonical_field typ s v k f :
  resolveVariant typ s = Ok v -> fieldOf v k = Some f -> CanonicalSettingValue typ s k = Ok (default (cf_def f) (s !! k)).
Proof.
  intros Hv Hf. destruct (field_ok typ s v Hv _ _ Hf) as (_ & Hk & schema & _ & Ho). unfold CanonicalSettingValue.
  rewrite <- Hk at 1. rewrite (fo_named _ _ Ho), Hv. cbn [rbind]. destruct (s !! k); [done|]. unfold fieldOf in Hf. by rewrite Hf.
Qed.

Lemma prepared typ s surface out :
  PrepareCredentialSettings typ s surface = Ok out ->
  out = normalizeCredentialSettings typ s /\ validateCredentialSettings typ out surface = Ok tt /\ exists v, resolveVariant typ s = Ok v.
Proof.
  unfold PrepareCredentialSettings. destruct (validateCredentialSettings typ (normalizeCredentialSettings typ s) surface) as [[]|] eqn:E; [|done].
  intros [= <-]. split_and!; [done|done|]. destruct (resolveVariant typ s) as [v|e] eqn:Hv; [by exists v|].
  unfold normalizeCredentialSettings in E. rewrite Hv in E. unfold validateCredentialSettings in E. by rewrite Hv in E.
Qed.

(** a prepared configuration is canonical: preparing it again changes nothing, it binds an
    execution by the same keys as what was submitted, and every key has the value the execution
    would have seen before (an absent key its declared default), except a blank value that the
    schema replaces by its default. *)
Theorem prepared_settings_are_canonical typ s surface out
  (Hout : PrepareCredentialSettings typ s surface = Ok out) :
  PrepareCredentialSettings typ out surface = Ok out /\
  exists keys, ExecutionBindingKeys typ s = Ok keys /\ ExecutionBindingKeys typ out = Ok keys /\
    forall k, k ∈ keys ->
      exists x, CanonicalSettingValue typ out k = Ok x /\
        (CanonicalSettingValue typ s k = Ok x \/ exists blank, s !! k = Some blank /\ TrimSpace blank = "").
Proof.
  destruct (prepared _ _ _ _ Hout) as (-> & Hval & v & Hv). split.
  { unfold PrepareCredentialSettings. rewrite normalize_idem, Hval. done. }
  pose proof (normalize_resolve typ s v Hv) as Hv'. exists (sortStrings (keysOfBinding bindingExecution v)).
  split_and!; [by apply credentialed_keys..|]. intros k Hk. destruct (binding_field typ s v k Hv Hk) as (f & Hf & _).
  rewrite (canonical_field typ _ v k f Hv' Hf), (canonical_field typ s v k f Hv Hf), (normalized_key typ s v Hv), Hf.
  eexists. split; [done|]. unfold normalValue. destruct (_ || _); [by left|]. destruct (s !! k) as [c|]; [|by left].
  destruct (cf_defIfBlank f); [|by left]. case_bool_decide; [|by left]. right. by exists c.
Qed.

(** ** Leaving a default out *)
Lemma forallb_keys (P : string -> bool) (m : settings) :
  forallb P (map fst (map_to_list m)) = true <-> forall k, is_Some (m !! k) -> P k = true.
Proof.
  rewrite List.forallb_forall. setoid_rewrite <- list_elem_of_In. setoid_rewrite list_elem_of_fmap. split.
  - intros H k [x Hx]. apply H. exists (k, x). split; [done|]. by apply elem_of_map_to_list.
  - intros H k ([k' x] & -> & Hx). apply elem_of_map_to_list in Hx. apply H. by exists x.
Qed.

Section default_given.
Context (typ : MonitorType) (s : settings) (v : credVariant) (f : credField) (surface : CredentialSurface).
Context (Hv : resolveVariant typ s = Ok v) (Hf : f ∈ cv_fields v) (Hd : cf_def f <> "") (Hn : s !! cf_key f = None).

Let given : settings := <[cf_key f := cf_def f]> s.

Lemma given_field : fieldOf v (cf_key f) = Some f.
Proof. destruct (resolved_ok _ _ _ Hv) as (schema & _ & Ho). by apply find_field; [apply (vo_keys _ _ Ho)|]. Qed.

Lemma given_resolve : resolveVariant typ given = Ok v.
Proof.
  destruct (field_ok typ s v Hv _ _ given_field) as (_ & _ & schema & Hs & Ho).
  destruct (decide (cf_key f = cs_discriminator schema)) as [E|E].
  - destruct (fo_discriminator _ _ Ho E) as [_ H]. specialize (H Hd). unfold resolveVariant in *. rewrite Hs in *.
    case_bool_decide; [done|]. unfold given. rewrite <- E, lookup_insert_eq. rewrite <- E, Hn in Hv. case_bool_decide; [done|]. cbn [rbind] in *.
    by rewrite H.
  - rewrite <- Hv. apply resolve_agree. intros schema' Hs'. assert (schema' = schema) as -> by congruence. unfold given. by rewrite lookup_insert_ne.
Qed.

Lemma given_canonical k : CanonicalSettingValue typ given k = CanonicalSettingValue typ s k.
Proof.
  destruct (decide (k = cf_key f)) as [->|Hk].
  - rewrite (canonical_field typ given v _ f given_resolve given_field), (canonical_field typ s v _ f Hv given_field), Hn.
    unfold given. by rewrite lookup_insert_eq.
  - unfold CanonicalSettingValue. rewrite given_resolve, Hv. unfold given. by rewrite lookup_insert_ne.
Qed.

(** Both normalize alike, or stay one default apart. *)
Lemma given_normal :
  normalizeCredentialSettings typ given = normalizeCredentialSettings typ s \/
  (cf_writeDefault f = false /\ normalizeCredentialSettings typ s !! cf_key f = None /\
   normalizeCredentialSettings typ given = <[cf_key f := cf_def f]> (normalizeCredentialSettings typ s)).
Proof.
  destruct (field_ok typ s v Hv _ _ given_field) as (_ & _ & schema & _ & Ho). pose proof (fo_visible _ _ Ho Hd) as Hvis.
  assert (forall k, k <> cf_key f -> normalizeCredentialSettings typ given !! k = normalizeCredentialSettings typ s !! k) as Hother.
  { intros k Hk. rewrite (normalized_key typ _ v given_resolve), (normalized_key typ _ v Hv). unfold given. by rewrite lookup_insert_ne. }
  assert (forall o, normalizeCredentialSettings typ s !! cf_key f = o -> o = normalValue f None) as Hs.
  { intros o <-. by rewrite (normalized_key typ _ v Hv), given_field, Hn. }
  assert (normalizeCredentialSettings typ given !! cf_key f = Some (cf_def f)) as Hg.
  { rewrite (normalized_key typ _ v given_resolve), given_field. unfold given. rewrite lookup_insert_eq. unfold normalValue.
    destruct (_ || _); [done|]. by rewrite bool_decide_eq_false_2, andb_false_r. }
  destruct (cf_writeDefault f) eqn:Ew; [left|right].
  - apply map_eq. intros k. destruct (decide (k = cf_key f)) as [->|]; [|by apply Hother]. rewrite Hg. rewrite (Hs _ eq_refl).
    unfold normalValue. by rewrite Ew, bool_decide_eq_false_2.
  - split; [done|]. split; [rewrite (Hs _ eq_refl); unfold normalValue; by rewrite Ew, orb_true_r|].
    apply map_eq. intros k. destruct (decide (k = cf_key f)) as [->|]; [by rewrite lookup_insert_eq|].
    rewrite lookup_insert_ne by done. by apply Hother.
Qed.

Lemma allOk_agree {A} (c c' : A -> result SettingsError unit) l : (forall x, x ∈ l -> c x = c' x) -> allOk c l = allOk c' l.
Proof. unfold allOk. induction l as [|x l IH]; cbn; [done|]. intros H. rewrite (H x) by (by left). rewrite IH; [done|]. intros y Hy. apply H. by right. Qed.

(** Validation does not tell them apart. *)
Lemma given_valid out :
  cf_writeDefault f = false -> out !! cf_key f = None -> resolveVariant typ out = Ok v -> resolveVariant typ (<[cf_key f := cf_def f]> out) = Ok v ->
  validateCredentialSettings typ (<[cf_key f := cf_def f]> out) surface = validateCredentialSettings typ out surface.
Proof.
  intros Hw Ho Hr Hr'. destruct (resolved_ok _ _ _ Hv) as (schema & Hs & [Hkeys Hfields Hchecks]).
  destruct (field_ok typ s v Hv _ _ given_field) as (_ & _ & schema' & Hs' & Hok). assert (schema' = schema) as -> by congruence.
  destruct (fo_optional _ _ Hok Hd) as (Hreq & Hp1 & Hp2). unfold validateCredentialSettings. rewrite Hr, Hr'. cbn [rbind].
  assert (forallb (fun k => bool_decide (k ∈ map cf_key (cv_fields v))) (map fst (map_to_list (<[cf_key f := cf_def f]> out)))
          = forallb (fun k => bool_decide (k ∈ map cf_key (cv_fields v))) (map fst (map_to_list out))) as ->.
  { apply eq_true_iff_eq. rewrite !forallb_keys. split; intros H k Hk.
    - apply H. destruct (decide (cf_key f = k)) as [->|]; [rewrite lookup_insert_eq; by eexists|by rewrite lookup_insert_ne].
    - destruct (decide (cf_key f = k)) as [<-|Hne]; [|apply H; by rewrite lookup_insert_ne in Hk].
      apply bool_decide_eq_true_2, list_elem_of_fmap. by exists f. }
  destruct (refuse_if _ ErrUnknownSetting) as [|]; [cbn [rbind]|done].
  rewrite (allOk_agree (validateField (<[cf_key f := cf_def f]> out)) (validateField out)).
  2: { intros g Hg. destruct (decide (cf_key g = cf_key f)) as [E|E].
       - assert (g = f) as ->. { pose proof given_field as G. pose proof (find_field _ _ Hkeys Hg) as G'. unfold fieldOf in G. rewrite E in G'. congruence. }
         pose proof (fo_default _ _ Hok Hd) as Hdef. unfold validateField in *. rewrite lookup_insert_eq, Ho, Hreq. rewrite lookup_singleton_eq, Hreq in Hdef. exact Hdef.
       - unfold validateField. by rewrite lookup_insert_ne. }
  destruct (allOk _ (cv_fields v)) as [|]; [cbn [rbind]|done].
  rewrite (allOk_agree (fun check => check (<[cf_key f := cf_def f]> out)) (fun check => check out)).
  2: { intros check Hc. rewrite List.Forall_forall in Hchecks. by apply (Hchecks check); [apply list_elem_of_In|..]. }
  unfold credentialSlot. by rewrite !lookup_insert_ne.
Qed.

Lemma given_prepared :
  match PrepareCredentialSettings typ s surface, PrepareCredentialSettings typ given surface with
  | Ok out, Ok out' => forall k, CanonicalSettingValue typ out' k = CanonicalSettingValue typ out k
  | Err e, Err e' => e = e'
  | _, _ => False
  end.
Proof.
  unfold PrepareCredentialSettings. destruct given_normal as [->|(Hw & Hno & ->)]; [by destruct (validateCredentialSettings _ _ _)|].
  pose proof (normalize_resolve typ s v Hv) as Hr. set (out := normalizeCredentialSettings typ s) in *.
  assert (resolveVariant typ (<[cf_key f := cf_def f]> out) = Ok v) as Hr'.
  { destruct given_normal as [E|(_ & _ & E)].
    - exfalso. pose proof (f_equal (lookup (cf_key f)) E) as E'. fold out in E'. rewrite Hno in E'.
      rewrite (normalized_key typ _ v given_resolve), given_field in E'. unfold given in E'. rewrite lookup_insert_eq in E'. unfold normalValue in E'.
      by rewrite Hw, orb_true_r in E'.
    - unfold out. rewrite <- E. apply normalize_resolve, given_resolve. }
  rewrite given_valid by done. destruct (validateCredentialSettings typ out surface); [|done]. cbn [rbind].
  intros k. destruct (decide (k = cf_key f)) as [->|Hk].
  - rewrite (canonical_field typ _ v _ f Hr' given_field), (canonical_field typ _ v _ f Hr given_field), Hno. by rewrite lookup_insert_eq.
  - unfold CanonicalSettingValue. rewrite Hr, Hr'. by rewrite lookup_insert_ne.
Qed.
End default_given.

(** C20: a declared default may be left out: stating it for a key that is absent changes neither
    whether the configuration is accepted (nor the error), nor the keys that bind the execution,
    nor the value of any key, before or after preparation. *)
Theorem defaults_may_be_left_out typ s v f surface
  (Hv : resolveVariant typ s = Ok v) (Hf : f ∈ cv_fields v) (Hd : cf_def f <> "") (Hn : s !! cf_key f = None) :
  let given := <[cf_key f := cf_def f]> s in
  ExecutionBindingKeys typ given = ExecutionBindingKeys typ s /\
  (forall k, CanonicalSettingValue typ given k = CanonicalSettingValue typ s k) /\
  match PrepareCredentialSettings typ s surface, PrepareCredentialSettings typ given surface with
  | Ok out, Ok out' => forall k, CanonicalSettingValue typ out' k = CanonicalSettingValue typ out k
  | Err e, Err e' => e = e'
  | _, _ => False
  end.
Proof.
  intros given. split; [|split].
  - rewrite (credentialed_keys typ s v Hv). by apply credentialed_keys, (given_resolve typ s v f).
  - intros k. by apply (given_canonical typ s v f).
  - by apply (given_prepared typ s v f).
Qed.

(** ** Named bindings *)
Lemma stripPrefix_app p l : stripPrefix p (p ++ l) = Some l.
Proof. induction p as [|x p IH]; cbn; [done|]. by rewrite Z.eqb_refl. Qed.

Lemma cutPrefix_app p s : cutPrefix p (p +:+ s) = Some s.
Proof. unfold cutPrefix. rewrite bytesOf_app, stripPrefix_app. cbn. by rewrite stringOf_bytesOf. Qed.

Lemma cutSuffix_app p s : cutSuffix p (s +:+ p) = Some s.
Proof. unfold cutSuffix. rewrite bytesOf_app, rev_app_distr, stripPrefix_app. cbn. by rewrite rev_involutive, stringOf_bytesOf. Qed.

Lemma string_app_assoc (a b c : string) : a +:+ (b +:+ c) = (a +:+ b) +:+ c.
Proof. induction a as [|x a IH]; [done|]. change (String x (a +:+ (b +:+ c)) = String x ((a +:+ b) +:+ c)). by rewrite IH. Qed.

Lemma HasPrefix_app p s : HasPrefix (p +:+ s) p = true.
Proof. apply bool_decide_eq_true_2. rewrite cutPrefix_app. by eexists. Qed.

Lemma HasSuffix_app p s : HasSuffix (s +:+ p) p = true.
Proof. apply bool_decide_eq_true_2. rewrite cutSuffix_app. by eexists. Qed.

(** the flat key of a named binding parses back to the binding, for scenarios and canaries
    alike, and so no two bindings share a key. *)
Theorem ref_keys_parse_back b (Hb : bindingName b = true) :
  ScenarioBindingFromRefKey (ScenarioSecretRefKey b) = Some b /\ CanaryBindingFromRefKey (CanarySecretRefKey b) = Some b.
Proof.
  assert (forall p, bindingFromRefKey p (p +:+ b +:+ secretSuffix) = Some b) as H; [|split; apply H].
  intros p. unfold bindingFromRefKey. rewrite HasPrefix_app. rewrite string_app_assoc at 1. rewrite HasSuffix_app. cbn [negb orb].
  unfold TrimPrefix, TrimSuffix. rewrite cutPrefix_app. cbn [from_option id]. rewrite cutSuffix_app. cbn. by rewrite Hb.
Qed.

(** The field that carries the value of one binding is the flat key that names the secret of
    another, and the field of the binding [ref] is taken for a flat key. *)
Example a_field_may_be_a_ref_key :
  ScenarioBindingField "db_ref" = ScenarioSecretRefKey "db" /\ bindingName "db_ref" = true /\
  ScenarioBindingFromRefKey (ScenarioBindingField "ref") = Some "ref" /\ ScenarioBindingFromField (ScenarioBindingField "ref") = Some "ref".
Proof. vm_compute. done. Qed.

Module SettingsSample.
Definition mysql : settings := {["username" := "u"; "database" := "d"; "password_ref" := "db-pass"; "query" := " "]}.
Definition rabbit : settings := {["mode" := "management"; "username" := "u"; "password_ref" := "mq"]}.
Definition skip : credField := tlsFlag "tls_skip_verify" "false" false.
Definition management : credVariant :=
  variant CredentialRequired [tlsPairCheck]
    ([execution "mode" true 0; execution "username" true maxCredFieldLen; defaulted "path" maxPathLen "/api/overview"] ++ tlsFields ++ passwordSlots).
End SettingsSample.

Definition readBack (r : result SettingsError settings) : list (string * string) := match r with Ok m => map_to_list m | Err _ => [] end.

Example what_is_prepared :
  map snd (readBack (PrepareCredentialSettings MonitorMySQL SettingsSample.mysql SurfaceFile)) ≡ₚ ["u"; "d"; "db-pass"; "SELECT 1"; "true"]
  /\ PrepareCredentialSettings MonitorRabbitMQ (delete "mode" SettingsSample.rabbit) SurfaceFile = Err ErrVariantMissing
  /\ PrepareCredentialSettings MonitorRabbitMQ (<["mode" := "amqp"]> SettingsSample.rabbit) SurfaceFile = Err ErrUnknownSetting
  /\ PrepareCredentialSettings MonitorRabbitMQ (<["password" := "x"]> SettingsSample.rabbit) SurfaceAPI = Err ErrOneCredential
  /\ PrepareCredentialSettings MonitorHTTP ∅ SurfaceAPI = Err ErrNoSchema.
Proof. split; [apply (bool_decide_unpack _); vm_compute; exact I|]. vm_compute. repeat split; reflexivity. Qed.

Lemma prepared_settings_are_canonical_witness :
  is_ok (PrepareCredentialSettings MonitorMySQL SettingsSample.mysql SurfaceFile) = true /\
  PrepareCredentialSettings MonitorMySQL (okOr (PrepareCredentialSettings MonitorMySQL SettingsSample.mysql SurfaceFile) ∅) SurfaceFile
  = Ok (okOr (PrepareCredentialSettings MonitorMySQL SettingsSample.mysql SurfaceFile) ∅).
Proof.
  split; [vm_compute; reflexivity|].
  refine (proj1 (prepared_settings_are_canonical MonitorMySQL SettingsSample.mysql SurfaceFile _ _)). apply okOr_ok. vm_compute. reflexivity.
Defined.

Lemma defaults_may_be_left_out_witness :
  ExecutionBindingKeys MonitorRabbitMQ (<["tls_skip_verify" := "false"]> SettingsSample.rabbit)
  = ExecutionBindingKeys MonitorRabbitMQ SettingsSample.rabbit.
Proof.
  refine (proj1 (defaults_may_be_left_out MonitorRabbitMQ SettingsSample.rabbit SettingsSample.management SettingsSample.skip SurfaceFile _ _ _ _)).
  - vm_compute. reflexivity.
  - right. right. right. right. left.
  - discriminate.
  - vm_compute. reflexivity.
Defined.

Lemma ref_keys_parse_back_witness : ScenarioBindingFromRefKey "scenario_secret_db_ref" = Some "db".
Proof. apply (ref_keys_parse_back "db"). vm_compute. reflexivity. Defined.
