(* ===== verification/GoTime.v ===== *)
(** * Instants as texts
    ([Time.UTC().Format(time.RFC3339Nano)])

    The civil date of an instant, its text for the years 1 to 9999, and that the text determines
    the instant. *)

From S2P Require Import Prelude GoString.

(** ** Civil dates

    Days count from 0001-01-01; an era is 400 years from the first of March. *)
Definition yearOfEra (doe : Z) : Z := (doe - doe / 1460 + doe / 36524 - doe / 146096) / 365.
Definition dayOfYear (doe : Z) : Z := let yoe := yearOfEra doe in doe - (365 * yoe + yoe / 4 - yoe / 100).
Definition monthOfYear (doe : Z) : Z := (5 * dayOfYear doe + 2) / 153.
Definition dayOfMonth (doe : Z) : Z := dayOfYear doe - (153 * monthOfYear doe + 2) / 5 + 1.

(** Year, month and day. *)
Definition civil (days : Z) : Z * Z * Z :=
  let z := days + 306 in
  let doe := z mod 146097 in
  let mp := monthOfYear doe in
  let month := if mp <? 10 then mp + 3 else mp - 9 in
  (yearOfEra doe + 400 * (z / 146097) + (if month <=? 2 then 1 else 0), month, dayOfMonth doe).

(** ** The text *)
Fixpoint digits (w : nat) (n : Z) : bytes := match w with O => [] | S w => digits w (n / 10) ++ [48 + n mod 10] end.

Fixpoint dropZeros (l : bytes) : bytes := match l with x :: r => if x =? 48 then dropZeros r else l | [] => [] end.
Definition trimZeros (l : bytes) : bytes := rev (dropZeros (rev l)).

Definition fraction (nanos : Z) : bytes := if nanos =? 0 then [] else 46 :: trimZeros (digits 9 nanos).

Definition FormatRFC3339Nano (t : Time) : bytes :=
  let '(y, m, d) := civil (t / (86400 * Second)) in
  let s := t / Second mod 86400 in
  digits 4 y ++ [45] ++ digits 2 m ++ [45] ++ digits 2 d ++ [84]
  ++ digits 2 (s / 3600) ++ [58] ++ digits 2 (s / 60 mod 60) ++ [58] ++ digits 2 (s mod 60)
  ++ fraction (t mod Second) ++ [90].

(** The first instant of the year 10000. *)
Definition year10000 : Time := 3652059 * (86400 * Second).

Example the_text_of_an_instant :
  stringOf (FormatRFC3339Nano (unixEpoch + 1709209645 * Second + 120000000)) = "2024-02-29T12:27:25.12Z"
  /\ stringOf (FormatRFC3339Nano 0) = "0001-01-01T00:00:00Z" /\ stringOf (FormatRFC3339Nano (year10000 - 1)) = "9999-12-31T23:59:59.999999999Z".
Proof. vm_compute. done. Qed.

(** ** The text determines the instant *)
Lemma length_digits w n : length (digits w n) = w.
Proof. revert n. induction w as [|w IH]; intros n; cbn; [done|]. rewrite length_app, IH. cbn. lia. Qed.

Lemma digits_inj w a b : 0 <= a < 10 ^ Z.of_nat w -> 0 <= b < 10 ^ Z.of_nat w -> digits w a = digits w b -> a = b.
Proof.
  revert a b. induction w as [|w IH]; intros a b Ha Hb; [cbn in *; lia|]. cbn [digits]. intros [E1 E2]%app_inj_tail.
  assert (10 ^ Z.of_nat (S w) = 10 * 10 ^ Z.of_nat w) as Hp by (rewrite Nat2Z.inj_succ, Z.pow_succ_r; lia).
  assert (a / 10 = b / 10) by (apply IH; [split; [apply Z.div_pos|apply Z.div_lt_upper_bound]; lia..|done]).
  pose proof (Z.div_mod a 10). pose proof (Z.div_mod b 10). lia.
Qed.

(** Trimming is undone by padding to the width. *)
Lemma dropZeros_pad l : l = repeat 48 (length l - length (dropZeros l)) ++ dropZeros l.
Proof.
  induction l as [|x l IH]; cbn [dropZeros]; [done|]. destruct (Z.eqb_spec x 48) as [->|]; [|by rewrite Nat.sub_diag].
  assert (length (dropZeros l) <= length l)%nat by (clear; induction l as [|x l IH]; cbn; [done|]; destruct (x =? 48); cbn; lia).
  cbn [length]. rewrite Nat.sub_succ_l by done. cbn. by f_equal.
Qed.

Lemma trimZeros_inj l l' : length l = length l' -> trimZeros l = trimZeros l' -> l = l'.
Proof.
  unfold trimZeros. intros Hl H. apply (f_equal (@rev Z)) in H. rewrite !rev_involutive in H.
  rewrite <- (rev_involutive l), <- (rev_involutive l'). f_equal.
  rewrite (dropZeros_pad (rev l)), (dropZeros_pad (rev l')), !length_rev, Hl, H. done.
Qed.

Lemma fraction_inj a b : 0 <= a < Second -> 0 <= b < Second -> fraction a = fraction b -> a = b.
Proof.
  unfold fraction. intros Ha Hb. destruct (Z.eqb_spec a 0), (Z.eqb_spec b 0); try discriminate; [lia|].
  intros [= H]. apply (digits_inj 9); [unfold Second in *; cbn; lia..|]. apply trimZeros_inj; [by rewrite !length_digits|done].
Qed.

(** One era, day by day: the date's parts are in range and give the day back; before its last
    sixty days the last year is not over. *)
Definition dayOk (doe : Z) : bool :=
  let yoe := yearOfEra doe in
  let start := 365 * yoe + yoe / 4 - yoe / 100 in
  let doy := doe - start in
  let mp := (5 * doy + 2) / 153 in
  let before := (153 * mp + 2) / 5 in
  let d := doy - before + 1 in
  (0 <=? yoe) && (yoe <? 400) && (0 <=? mp) && (mp <? 12) && (1 <=? d) && (d <=? 31) && ((146037 <=? doe) || (yoe <? 399) || (mp <? 10)).

Fixpoint daysOk (n : nat) (doe : Z) : bool := match n with O => true | S n => dayOk doe && daysOk n (doe + 1) end.

Lemma daysOk_spec n doe x : daysOk n doe = true -> doe <= x < doe + Z.of_nat n -> dayOk x = true.
Proof.
  revert doe. induction n as [|n IH]; intros doe H Hx; [lia|]. cbn in H. apply andb_true_iff in H as [H1 H2].
  destruct (decide (x = doe)) as [->|]; [done|]. apply (IH (doe + 1)); [done|lia].
Qed.

Lemma era_ok doe : 0 <= doe < 146097 -> dayOk doe = true.
Proof. intros H. apply (daysOk_spec (Z.to_nat 146097) 0); [vm_compute; reflexivity|lia]. Qed.

Lemma civil_spec days : 0 <= days < 3652059 ->
  let '(y, m, d) := civil days in
  0 <= y <= 9999 /\ 1 <= m <= 12 /\ 1 <= d <= 31 /\
  days = (let y' := if m <=? 2 then y - 1 else y in let mp := if 3 <=? m then m - 3 else m + 9 in
          146097 * (y' / 400) + 365 * (y' mod 400) + y' mod 400 / 4 - y' mod 400 / 100 + (153 * mp + 2) / 5 + d - 307).
Proof.
  intros Hd. unfold civil. set (z := days + 306). pose proof (Z.mod_pos_bound z 146097 ltac:(lia)) as Hm. pose proof (Z.div_mod z 146097 ltac:(lia)) as Hz.
  set (doe := z mod 146097) in *. pose proof (era_ok doe Hm) as Hok. unfold dayOk in Hok. rewrite !andb_true_iff, !orb_true_iff in Hok.
  rewrite !Z.leb_le, !Z.ltb_lt in Hok. destruct Hok as [[[[[[H1 H2] H3] H4] H5] H6] H8].
  fold (dayOfYear doe) in *. fold (monthOfYear doe) in *. fold (dayOfMonth doe) in *.
  assert (365 * yearOfEra doe + yearOfEra doe / 4 - yearOfEra doe / 100 + (153 * monthOfYear doe + 2) / 5 + dayOfMonth doe - 1 = doe) as H7
    by (unfold dayOfMonth, dayOfYear; lia).
  set (yoe := yearOfEra doe) in *. set (mp := monthOfYear doe) in *. set (d := dayOfMonth doe) in *. set (era := z / 146097) in *.
  assert (0 <= era <= 24) as He by (unfold z in *; lia).
  assert (forall k, yoe + 400 * era + k - k = yoe + 400 * era) as Hk by (intros; lia).
  assert ((yoe + 400 * era) / 400 = era) as Hq by (rewrite Z.mul_comm, Z.div_add by lia; rewrite Z.div_small; lia).
  assert ((yoe + 400 * era) mod 400 = yoe) as Hr by (rewrite Z.mul_comm, Z.mod_add by lia; by rewrite Z.mod_small).
  destruct (Z.ltb_spec mp 10) as [Hmp|Hmp].
  - destruct (Z.leb_spec (mp + 3) 2); [lia|]. destruct (Z.leb_spec 3 (mp + 3)); [|lia]. cbn zeta. rewrite Z.add_0_r, Hq, Hr.
    replace (mp + 3 - 3) with mp by lia. split_and!; unfold z in *; lia.
  - destruct (Z.leb_spec (mp - 9) 2); [|lia]. destruct (Z.leb_spec 3 (mp - 9)); [lia|]. cbn zeta.
    replace (yoe + 400 * era + 1 - 1) with (yoe + 400 * era) by lia. rewrite Hq, Hr. replace (mp - 9 + 9) with mp by lia.
    split_and!; unfold z in *; lia.
Qed.

Lemma clock_split t : 0 <= t -> t = 86400 * Second * (t / (86400 * Second)) + Second * (t / Second mod 86400) + t mod Second.
Proof.
  intros Ht. unfold Second. pose proof (Z.div_mod t 1000000000 ltac:(lia)). pose proof (Z.div_mod (t / 1000000000) 86400 ltac:(lia)).
  rewrite Z.div_div in * by lia. change (1000000000 * 86400) with (86400 * 1000000000) in *. lia.
Qed.

Lemma seconds_split s : 0 <= s -> s = 3600 * (s / 3600) + 60 * (s / 60 mod 60) + s mod 60.
Proof. intros Hs. pose proof (Z.div_mod s 60 ltac:(lia)). pose proof (Z.div_mod (s / 60) 60 ltac:(lia)). rewrite Z.div_div in * by lia. change (60 * 60) with 3600 in *. lia. Qed.

Lemma FormatRFC3339Nano_inj t u :
  0 <= t < year10000 -> 0 <= u < year10000 -> FormatRFC3339Nano t = FormatRFC3339Nano u -> t = u.
Proof.
  intros Ht Hu H. unfold FormatRFC3339Nano in H.
  assert (forall x, 0 <= x < year10000 -> 0 <= x / (86400 * Second) < 3652059) as Hdays.
  { intros x Hx. unfold year10000 in Hx. split; [apply Z.div_pos; unfold Second; lia|apply Z.div_lt_upper_bound; unfold Second in *; lia]. }
  pose proof (civil_spec _ (Hdays t Ht)) as Ct. pose proof (civil_spec _ (Hdays u Hu)) as Cu.
  destruct (civil (t / _)) as [[y m] d], (civil (u / _)) as [[y' m'] d'].
  assert (forall x, 0 <= x / Second mod 86400 < 86400) as Hs by (intros; apply Z.mod_pos_bound; lia).
  pose proof (Hs t) as Hst. pose proof (Hs u) as Hsu. set (s := t / Second mod 86400) in *. set (s' := u / Second mod 86400) in *.
  assert (forall x, 0 <= x < 86400 -> 0 <= x / 3600 < 100 /\ 0 <= x / 60 mod 60 < 100 /\ 0 <= x mod 60 < 100) as Hp.
  { intros x Hx. pose proof (Z.mod_pos_bound (x / 60) 60 ltac:(lia)). pose proof (Z.mod_pos_bound x 60 ltac:(lia)).
    split_and!; try lia; [apply Z.div_pos; lia|apply Z.div_lt_upper_bound; lia]. }
  destruct (Hp s Hst) as (P1 & P2 & P3), (Hp s' Hsu) as (Q1 & Q2 & Q3).
  repeat (apply app_inj_1 in H as [? H]; [|by rewrite ?length_digits]). apply app_inj_tail in H as [Hf _].
  apply fraction_inj in Hf; [|apply Z.mod_pos_bound; unfold Second; lia..].
  assert (y = y') as -> by (apply (digits_inj 4); cbn; try done; lia). assert (m = m') as -> by (apply (digits_inj 2); cbn; try done; lia).
  assert (d = d') as -> by (apply (digits_inj 2); cbn; try done; lia).
  assert (s / 3600 = s' / 3600) by (apply (digits_inj 2); cbn; try done; lia).
  assert (s / 60 mod 60 = s' / 60 mod 60) by (apply (digits_inj 2); cbn; try done; lia).
  assert (s mod 60 = s' mod 60) by (apply (digits_inj 2); cbn; try done; lia).
  pose proof (seconds_split s ltac:(lia)). pose proof (seconds_split s' ltac:(lia)).
  rewrite (clock_split t), (clock_split u) by lia. fold s s'. lia.
Qed.
