(* ===== verification/EvalSemantics.v ===== *)
(** * What a service's epoch snapshots of a monitor
    ([internal/domain/execsemantics.go], the snapshot types of [internal/domain/service.go])

    The classification of the fields of a monitor, the projection to what the evaluator reads,
    its canonical encoding, and the hash of a snapshot.  SHA-256 is an argument. *)

From stdpp Require Import pretty.
From S2P Require Import Prelude GoString GoBase64 GoTime ServicePolicy MonitorRow CredSettings.

(** ** Monitors ([domain.Monitor]) *)
Record Monitor := {
  mn_ID : string; mn_ProjectID : string; mn_Name : string; mn_Description : string; mn_Slug : string;
  mn_Type : MonitorType; mn_Target : string; mn_Method : string;
  mn_IntervalSeconds : Z; mn_TimeoutSeconds : Z; mn_Retries : Z; mn_FailureThreshold : Z; mn_ConfirmIntervalSeconds : Z;
  mn_ConsecutiveFailures : Z; mn_ExecutionRevision : Z; mn_LastProbeErrorReason : string; mn_LastProbeErrorAt : option Time;
  mn_LastProbeErrorJobID : string; mn_StateSequence : Z; mn_RenotifySeconds : Z; mn_GraceSeconds : Z;
  mn_Conditions : list string; mn_Tags : list string; mn_Region : string; mn_Config : settings; mn_Enabled : bool;
  mn_AutoIncident : bool; mn_EscalationPolicyID : string; mn_DependsOn : list string; mn_Status : MonitorStatus; mn_PushToken : string;
  mn_SupersededByServiceID : string; mn_RetiredAt : option Time; mn_CreatedAt : Time; mn_UpdatedAt : Time;
}.

Inductive SemanticClass :=
| SemanticUnclassified | SemanticEvaluation | SemanticPresentation | SemanticDelivery | SemanticRuntime | SemanticIdentity
| SemanticSecretMaterial.
#[export] Instance semanticClass_eq : EqDecision SemanticClass.
Proof. solve_decision. Defined.

Definition monitorFieldClass : list (string * SemanticClass) :=
  [("ID", SemanticIdentity); ("ProjectID", SemanticIdentity); ("CreatedAt", SemanticIdentity); ("UpdatedAt", SemanticIdentity);
   ("Name", SemanticPresentation); ("Tags", SemanticPresentation); ("Description", SemanticPresentation); ("Slug", SemanticIdentity);
   ("Type", SemanticEvaluation); ("Target", SemanticEvaluation); ("Method", SemanticEvaluation);
   ("IntervalSeconds", SemanticEvaluation); ("TimeoutSeconds", SemanticEvaluation); ("Retries", SemanticEvaluation);
   ("GraceSeconds", SemanticEvaluation); ("Conditions", SemanticEvaluation); ("Region", SemanticEvaluation);
   ("Enabled", SemanticEvaluation); ("Config", SemanticEvaluation);
   ("FailureThreshold", SemanticDelivery); ("ConfirmIntervalSeconds", SemanticDelivery); ("RenotifySeconds", SemanticDelivery);
   ("AutoIncident", SemanticDelivery); ("EscalationPolicyID", SemanticDelivery); ("DependsOn", SemanticDelivery);
   ("Status", SemanticRuntime); ("ConsecutiveFailures", SemanticRuntime); ("ExecutionRevision", SemanticRuntime);
   ("StateSequence", SemanticRuntime); ("LastProbeErrorReason", SemanticRuntime); ("LastProbeErrorAt", SemanticRuntime);
   ("LastProbeErrorJobID", SemanticRuntime);
   ("SupersededByServiceID", SemanticPresentation); ("RetiredAt", SemanticPresentation);
   ("PushToken", SemanticSecretMaterial)].

Definition ClassifyMonitorField (name : string) : SemanticClass :=
  match List.find (fun kv => bool_decide (kv.1 = name)) monitorFieldClass with Some (_, c) => c | None => SemanticUnclassified end.

(** ** The projection *)
Record EvaluationSemantics := {
  es_Type : MonitorType; es_Target : string; es_Method : string; es_Region : string;
  es_IntervalSeconds : Z; es_TimeoutSeconds : Z; es_Retries : Z; es_GraceSeconds : Z; es_Enabled : bool;
  es_Conditions : list string; es_Config : settings; es_CredentialRefs : settings; es_CredentialGenerations : settings;
}.

Definition credentialRefSuffix : string := "_ref".

(** The canonical value of each key, or the first error. *)
Fixpoint canonicalConfig (typ : MonitorType) (config : settings) (keys : list string) : result SettingsError settings :=
  match keys with
  | [] => Ok ∅
  | k :: rest =>
    let! v := CanonicalSettingValue typ config k in
    let! m := canonicalConfig typ config rest in
    Ok (<[k := v]> m)
  end.

Definition refsOf (config : settings) : settings := filter (fun kv => HasSuffix kv.1 credentialRefSuffix = true) config.

Definition MonitorEvaluationSemantics (m : Monitor) (credentialGenerations : settings) : result SettingsError EvaluationSemantics :=
  let! configs :=
    if CredentialedType (mn_Type m) then
      let! keys := ExecutionBindingKeys (mn_Type m) (mn_Config m) in
      let! config := canonicalConfig (mn_Type m) (mn_Config m) keys in
      Ok (config, refsOf (mn_Config m))
    else Ok (mn_Config m, ∅) in
  Ok {| es_Type := mn_Type m; es_Target := mn_Target m; es_Method := mn_Method m; es_Region := mn_Region m;
        es_IntervalSeconds := mn_IntervalSeconds m; es_TimeoutSeconds := mn_TimeoutSeconds m; es_Retries := mn_Retries m;
        es_GraceSeconds := mn_GraceSeconds m; es_Enabled := mn_Enabled m; es_Conditions := mn_Conditions m;
        es_Config := configs.1; es_CredentialRefs := configs.2; es_CredentialGenerations := credentialGenerations |}.

(** ** The canonical encoding *)
Definition MonitorType_text (t : MonitorType) : string :=
  match t with
  | MonitorHTTP => "http" | MonitorTCP => "tcp" | MonitorICMP => "icmp" | MonitorDNS => "dns" | MonitorTLS => "tls" | MonitorGRPC => "grpc"
  | MonitorComposite => "composite" | MonitorPostgres => "postgres" | MonitorMySQL => "mysql" | MonitorRedis => "redis"
  | MonitorPromQL => "promql" | MonitorRabbitMQ => "rabbitmq" | MonitorWebSocket => "websocket" | MonitorSSH => "ssh"
  | MonitorSynthetic => "synthetic" | MonitorAsyncCanary => "async_canary" | MonitorPush => "push" | MonitorTypeOther s => s
  end.

(** [binary.PutUvarint]; the fuel is the number of the value's bits, and a round takes seven. *)
Fixpoint uvarintLoop (fuel : nat) (x : Z) : bytes :=
  match fuel with
  | O => [x]
  | S fuel => if x <? 128 then [x] else (x mod 128 + 128) :: uvarintLoop fuel (x / 128)
  end.
Definition uvarint (x : Z) : bytes := uvarintLoop (Z.to_nat (Z.log2 x)) x.
Definition lengthOf {A} (l : list A) : Z := Z.of_nat (length l).

(** The number of parts, then each with its length. *)
Definition frame (parts : list bytes) : bytes := uvarint (lengthOf parts) ++ flat_map (fun p => uvarint (lengthOf p) ++ p) parts.

Definition FormatBool (b : bool) : bytes := bytesOf (if b then "true" else "false").
Definition sortedEntries (m : settings) : list (string * string) := merge_sort (fun a b => String.le a.1 b.1) (map_to_list m).
Definition mapParts (m : settings) : list bytes :=
  FormatInt (lengthOf (sortedEntries m)) :: flat_map (fun kv => [bytesOf kv.1; bytesOf kv.2]) (sortedEntries m).

Definition canonicalParts (e : EvaluationSemantics) : list bytes :=
  [bytesOf "cerbix.evalsem.v1"; bytesOf (MonitorType_text (es_Type e)); bytesOf (es_Target e); bytesOf (es_Method e); bytesOf (es_Region e);
   FormatInt (es_IntervalSeconds e); FormatInt (es_TimeoutSeconds e); FormatInt (es_Retries e); FormatInt (es_GraceSeconds e);
   FormatBool (es_Enabled e); FormatInt (lengthOf (es_Conditions e))]
  ++ map bytesOf (es_Conditions e) ++ mapParts (es_Config e) ++ mapParts (es_CredentialRefs e) ++ mapParts (es_CredentialGenerations e).

Definition Canonical (e : EvaluationSemantics) : bytes := frame (canonicalParts e).

(** ** Snapshots *)
Record EpochMember := { em_MonitorID : string; em_Semantics : EvaluationSemantics; em_StaleAfter : Duration; em_ArmedAt : Time }.

Definition memberParts (m : EpochMember) : list bytes :=
  [bytesOf (em_MonitorID m); Canonical (em_Semantics m); FormatInt (em_StaleAfter m); FormatRFC3339Nano (em_ArmedAt m)].

Definition snapshotBytes (members : list EpochMember) : bytes :=
  frame ([bytesOf "cerbix.epochsnap.v1"; FormatInt (lengthOf members)] ++ flat_map memberParts members).

Section sha256.
Context (Sum256 : bytes -> bytes).
Definition Hash (e : EvaluationSemantics) : string := stringOf (hexEncode (Sum256 (Canonical e))).
Definition EpochSnapshotHash (members : list EpochMember) : string := stringOf (hexEncode (Sum256 (snapshotBytes members))).
End sha256.
