(* ===== verification/EvalFacts.v ===== *)
(** * The snapshot of a monitor says what the evaluator reads

    The projection reads the fields classified as evaluation and no secret, the canonical
    encoding determines it, and so an equal hash is an equal snapshot. *)

From stdpp Require Import pretty.
From S2P Require Import Prelude GoString GoBase64 GoTime ServicePolicy MonitorRow CredSettings CredFacts EvalSemantics.

(** ** Length-prefixed parts *)
Lemma uvarint_prefix f g x y r q :
  0 <= x < 128 ^ Z.of_nat (S f) -> 0 <= y < 128 ^ Z.of_nat (S g) ->
  uvarintLoop f x ++ r = uvarintLoop g y ++ q -> x = y /\ r = q.
Proof.
  assert (forall n, 128 ^ Z.of_nat (S n) = 128 * 128 ^ Z.of_nat n) as Hp by (intros; rewrite Nat2Z.inj_succ, Z.pow_succ_r; lia).
  revert g x y. induction f as [|f IH]; intros g x y Hx Hy; cbn [uvarintLoop].
  - rewrite Z.pow_1_r in Hx by done. destruct g as [|g]; cbn [uvarintLoop]; [by intros [= -> ->]|].
    destruct (Z.ltb_spec y 128); intros [= E1 E2]; [by subst|]. pose proof (Z.mod_pos_bound y 128). lia.
  - destruct g as [|g]; cbn [uvarintLoop].
    + destruct (Z.ltb_spec x 128); intros [= E1 E2]; [by subst|]. pose proof (Z.mod_pos_bound x 128). cbn in Hy. lia.
    + destruct (Z.ltb_spec x 128), (Z.ltb_spec y 128); intros [= E1 E2].
      * by subst.
      * pose proof (Z.mod_pos_bound y 128). lia.
      * pose proof (Z.mod_pos_bound x 128). lia.
      * rewrite Hp in Hx, Hy. apply IH in E2 as [E2 ->].
        -- split; [|done]. pose proof (Z.div_mod x 128). pose proof (Z.div_mod y 128). lia.
        -- split; [apply Z.div_pos; lia|apply Z.div_lt_upper_bound; lia].
        -- split; [apply Z.div_pos; lia|apply Z.div_lt_upper_bound; lia].
Qed.

Lemma uvarint_bound x : 0 <= x -> 0 <= x < 128 ^ Z.of_nat (S (Z.to_nat (Z.log2 x))).
Proof.
  intros Hx. split; [done|]. destruct (decide (x = 0)) as [->|]; [by vm_compute|]. destruct (Z.log2_spec x ltac:(lia)) as [_ H].
  rewrite Nat2Z.inj_succ, Z2Nat.id by apply Z.log2_nonneg. eapply Z.lt_le_trans; [exact H|]. apply Z.pow_le_mono_l. lia.
Qed.

Lemma uvarint_inj x y r q : 0 <= x -> 0 <= y -> uvarint x ++ r = uvarint y ++ q -> x = y /\ r = q.
Proof. intros Hx Hy. apply uvarint_prefix; by apply uvarint_bound. Qed.

(** The fuel is enough: more rounds change nothing, so [uvarint] is the loop of [PutUvarint]. *)
Lemma uvarintLoop_fuel f g x :
  0 <= x < 128 ^ Z.of_nat (S f) -> 0 <= x < 128 ^ Z.of_nat (S g) -> uvarintLoop f x = uvarintLoop g x.
Proof.
  assert (forall n y, 0 <= y < 128 ^ Z.of_nat (S (S n)) -> 0 <= y / 128 < 128 ^ Z.of_nat (S n)) as Hdiv.
  { intros n y [Hy H]. rewrite (Nat2Z.inj_succ (S n)), Z.pow_succ_r in H by lia. split; [apply Z.div_pos; lia|apply Z.div_lt_upper_bound; lia]. }
  revert g x. induction f as [|f IH]; intros [|g] x Hf Hg; cbn [uvarintLoop]; [done| | |].
  - rewrite Z.pow_1_r in Hf. destruct (Z.ltb_spec x 128); [done|lia].
  - rewrite Z.pow_1_r in Hg. destruct (Z.ltb_spec x 128); [done|lia].
  - destruct (x <? 128); [done|]. f_equal. apply IH; by apply Hdiv.
Qed.

Lemma uvarint_step x : 0 <= x -> uvarint x = if x <? 128 then [x] else (x mod 128 + 128) :: uvarint (x / 128).
Proof.
  intros Hx. pose proof (uvarint_bound x Hx) as Hb.
  assert (forall n, 128 ^ Z.of_nat (S n) <= 128 ^ Z.of_nat (S (S n))) as Hp by (intros; apply Z.pow_le_mono_r; lia).
  transitivity (uvarintLoop (S (Z.to_nat (Z.log2 x))) x).
  - apply uvarintLoop_fuel; [done|]. specialize (Hp (Z.to_nat (Z.log2 x))). lia.
  - cbn [uvarintLoop]. destruct (x <? 128); [done|]. f_equal. apply uvarintLoop_fuel.
    + pose proof (Z.div_pos x 128 Hx). pose proof (Z.div_le_upper_bound x 128 x). lia.
    + apply uvarint_bound. apply Z.div_pos; lia.
Qed.

Lemma chunks_inj (ps qs : list bytes) :
  length ps = length qs ->
  flat_map (fun p => uvarint (lengthOf p) ++ p) ps = flat_map (fun p => uvarint (lengthOf p) ++ p) qs -> ps = qs.
Proof.
  revert qs. induction ps as [|p ps IH]; intros [|q qs]; cbn; try done. intros [= Hl] E. rewrite <- !app_assoc in E.
  apply uvarint_inj in E as [Ep E]; [|unfold lengthOf; lia..]. apply app_inj_1 in E as [-> E]; [|unfold lengthOf in Ep; lia]. f_equal. by apply IH.
Qed.

Lemma frame_inj ps qs : frame ps = frame qs -> ps = qs.
Proof.
  unfold frame. intros [El E]%uvarint_inj; [|unfold lengthOf; lia..]. apply chunks_inj; [unfold lengthOf in El; lia|done].
Qed.

(** ** Texts *)
Lemma FormatInt_inj a b : FormatInt a = FormatInt b -> a = b.
Proof. unfold FormatInt. intros H%bytesOf_inj. by apply (inj pretty) in H. Qed.

Lemma bytesList_inj l l' : map bytesOf l = map bytesOf l' -> l = l'.
Proof. revert l'. induction l as [|x l IH]; intros [|y l']; try done. cbn. intros [= Hx Hl]. f_equal; [by apply bytesOf_inj|by apply IH]. Qed.

Lemma FormatBool_inj a b : FormatBool a = FormatBool b -> a = b.
Proof. by destruct a, b. Qed.

(** ** Maps *)
Lemma pairs_inj (l l' : list (string * string)) r r' :
  length l = length l' ->
  flat_map (fun kv => [bytesOf kv.1; bytesOf kv.2]) l ++ r = flat_map (fun kv => [bytesOf kv.1; bytesOf kv.2]) l' ++ r' -> l = l' /\ r = r'.
Proof.
  revert l'. induction l as [|[k v] l IH]; intros [|[k' v'] l']; cbn; try done. intros [= Hl] [= Hk Hv E].
  destruct (IH l' Hl E) as [-> ->]. apply bytesOf_inj in Hk as ->. by apply bytesOf_inj in Hv as ->.
Qed.

Lemma sortedEntries_inj m m' : sortedEntries m = sortedEntries m' -> m = m'.
Proof.
  intros E. apply map_to_list_inj. unfold sortedEntries in E.
  rewrite <- (merge_sort_Permutation (fun a b : string * string => String.le a.1 b.1) (map_to_list m)), E. by rewrite (merge_sort_Permutation _).
Qed.

Lemma mapParts_inj m m' r r' : mapParts m ++ r = mapParts m' ++ r' -> m = m' /\ r = r'.
Proof.
  unfold mapParts. cbn [app]. intros [= El E]. apply FormatInt_inj in El. unfold lengthOf in El.
  apply pairs_inj in E as [E ->]; [|lia]. by apply sortedEntries_inj in E.
Qed.

(** ** The projection *)

(** The same, a type by its text. *)
Record sameSemantics (e e' : EvaluationSemantics) : Prop := {
  sm_type : MonitorType_text (es_Type e) = MonitorType_text (es_Type e');
  sm_texts : es_Target e = es_Target e' /\ es_Method e = es_Method e' /\ es_Region e = es_Region e';
  sm_numbers : es_IntervalSeconds e = es_IntervalSeconds e' /\ es_TimeoutSeconds e = es_TimeoutSeconds e' /\
               es_Retries e = es_Retries e' /\ es_GraceSeconds e = es_GraceSeconds e';
  sm_enabled : es_Enabled e = es_Enabled e';
  sm_conditions : es_Conditions e = es_Conditions e';
  sm_maps : es_Config e = es_Config e' /\ es_CredentialRefs e = es_CredentialRefs e' /\ es_CredentialGenerations e = es_CredentialGenerations e';
}.

Lemma parts_iff e e' : canonicalParts e = canonicalParts e' <-> sameSemantics e e'.
Proof.
  split.
  - unfold canonicalParts. cbn [app]. intros [= E1 E2 E3 E4 E5 E6 E7 E8 E9 E10 E].
    apply FormatInt_inj in E10. unfold lengthOf in E10.
    apply app_inj_1 in E as [Ec E]; [|rewrite !length_map; lia]. apply mapParts_inj in E as [M1 E]. apply mapParts_inj in E as [M2 E].
    rewrite <- (app_nil_r (mapParts (es_CredentialGenerations e))), <- (app_nil_r (mapParts (es_CredentialGenerations e'))) in E.
    apply mapParts_inj in E as [M3 _]. split; try (by apply bytesOf_inj); try (by split_and!; apply bytesOf_inj); try done.
    + by split_and!; apply FormatInt_inj.
    + by apply FormatBool_inj.
    + by apply bytesList_inj.
  - intros [H1 (H2 & H3 & H4) (H5 & H6 & H7 & H8) H9 H10 (H11 & H12 & H13)]. unfold canonicalParts. congruence.
Qed.

Definition sameMember (m n : EpochMember) : Prop :=
  em_MonitorID m = em_MonitorID n /\ sameSemantics (em_Semantics m) (em_Semantics n) /\ em_StaleAfter m = em_StaleAfter n /\ em_ArmedAt m = em_ArmedAt n.

Definition datable (m : EpochMember) : Prop := 0 <= em_ArmedAt m < year10000.

Lemma memberParts_iff m n : datable m -> datable n -> memberParts m = memberParts n <-> sameMember m n.
Proof.
  intros Hm Hn. unfold memberParts, sameMember. split.
  - intros E. pose proof (f_equal (fun l => nth 3 l []) E) as E4. cbn [nth] in E4. injection E as E1 E2 E3 _.
    split_and!; [by apply bytesOf_inj|by apply parts_iff, frame_inj|by apply FormatInt_inj|by apply (FormatRFC3339Nano_inj _ _ Hm Hn)].
  - intros (-> & H & -> & ->). apply parts_iff in H. unfold Canonical. by rewrite H.
Qed.

Lemma memberParts_list ms ns :
  Forall datable ms -> Forall datable ns -> length ms = length ns -> flat_map memberParts ms = flat_map memberParts ns <-> Forall2 sameMember ms ns.
Proof.
  revert ns. induction ms as [|m ms IH]; intros [|n ns] Hm Hn Hl; [by split|done|done|].
  apply List.Forall_cons_iff in Hm as [Hm Hms], Hn as [Hn Hns]. injection Hl as Hl. cbn [flat_map]. split.
  - intros [E1 E2]%app_inj_1; [|done]. constructor; [by apply memberParts_iff|by apply IH].
  - intros [H1 H2]%list.Forall2_cons. f_equal; [by apply memberParts_iff|by apply IH].
Qed.

Lemma snapshotBytes_iff ms ns :
  Forall datable ms -> Forall datable ns -> snapshotBytes ms = snapshotBytes ns <-> Forall2 sameMember ms ns.
Proof.
  intros Hm Hn. unfold snapshotBytes. split.
  - intros E%frame_inj. cbn [app] in E. injection E as El E. apply FormatInt_inj in El. unfold lengthOf in El.
    apply memberParts_list in E; [done..|lia].
  - intros H. pose proof (Forall2_length H) as Hl. apply memberParts_list in H; [|done..]. unfold lengthOf. by rewrite Hl, H.
Qed.

(** ** Hashes *)
Lemma byteOf_asciiOf b : byte_ok b -> byteOfAscii (asciiOfByte b) = b.
Proof. unfold byte_ok, byteOfAscii, asciiOfByte. intros H. rewrite Ascii.N_ascii_embedding by lia. lia. Qed.

Lemma bytesOf_stringOf l : Forall byte_ok l -> bytesOf (stringOf l) = l.
Proof. induction 1 as [|b l Hb _ IH]; cbn; [done|]. by rewrite byteOf_asciiOf, IH. Qed.

Lemma hexEncode_ok l : Forall byte_ok l -> Forall byte_ok (hexEncode l).
Proof.
  assert (forall n, 0 <= n < 16 -> byte_ok (hexDigit n)) as Hd by (intros n Hn; unfold byte_ok, hexDigit; destruct (n <? 10); lia).
  induction 1 as [|b l Hb _ IH]; [constructor|]. cbn [hexEncode flat_map app]. unfold byte_ok in Hb.
  constructor; [apply Hd; split; [apply Z.div_pos; lia|apply Z.div_lt_upper_bound; lia]|].
  constructor; [apply Hd, Z.mod_pos_bound; lia|exact IH].
Qed.

Lemma hexText_inj a b : Forall byte_ok a -> Forall byte_ok b -> stringOf (hexEncode a) = stringOf (hexEncode b) -> a = b.
Proof.
  intros Ha Hb E. apply (f_equal bytesOf) in E. rewrite !bytesOf_stringOf in E by (by apply hexEncode_ok).
  apply (f_equal hexDecode) in E. rewrite !hexDecode_encode in E by done. by injection E.
Qed.

(** C21: the hash of a snapshot tells every change of what the evaluator reads: unless SHA-256
    itself collides on the two encodings, two snapshots have the same hash exactly when they
    list the same members in the same order, each with the same semantics, staleness deadline
    and armed instant. *)
Theorem snapshot_hash_tells_changes (Sum256 : bytes -> bytes) ms ns
  (Hbytes : forall l, Forall byte_ok (Sum256 l))
  (Hcoll : Sum256 (snapshotBytes ms) = Sum256 (snapshotBytes ns) -> snapshotBytes ms = snapshotBytes ns)
  (Hm : Forall datable ms) (Hn : Forall datable ns) :
  EpochSnapshotHash Sum256 ms = EpochSnapshotHash Sum256 ns <-> Forall2 sameMember ms ns.
Proof.
  unfold EpochSnapshotHash. rewrite <- snapshotBytes_iff by done. split; [|by intros ->].
  intros E. by apply Hcoll, hexText_inj.
Qed.

(** ** What the projection reads *)
Definition fieldEq (name : string) (m n : Monitor) : Prop :=
  match name with
  | "ID" => mn_ID m = mn_ID n | "ProjectID" => mn_ProjectID m = mn_ProjectID n | "Name" => mn_Name m = mn_Name n
  | "Description" => mn_Description m = mn_Description n | "Slug" => mn_Slug m = mn_Slug n
  | "Type" => mn_Type m = mn_Type n | "Target" => mn_Target m = mn_Target n | "Method" => mn_Method m = mn_Method n
  | "IntervalSeconds" => mn_IntervalSeconds m = mn_IntervalSeconds n | "TimeoutSeconds" => mn_TimeoutSeconds m = mn_TimeoutSeconds n
  | "Retries" => mn_Retries m = mn_Retries n | "GraceSeconds" => mn_GraceSeconds m = mn_GraceSeconds n
  | "Conditions" => mn_Conditions m = mn_Conditions n | "Region" => mn_Region m = mn_Region n | "Enabled" => mn_Enabled m = mn_Enabled n
  | "Config" => mn_Config m = mn_Config n
  | "FailureThreshold" => mn_FailureThreshold m = mn_FailureThreshold n
  | "ConfirmIntervalSeconds" => mn_ConfirmIntervalSeconds m = mn_ConfirmIntervalSeconds n
  | "RenotifySeconds" => mn_RenotifySeconds m = mn_RenotifySeconds n | "AutoIncident" => mn_AutoIncident m = mn_AutoIncident n
  | "EscalationPolicyID" => mn_EscalationPolicyID m = mn_EscalationPolicyID n | "DependsOn" => mn_DependsOn m = mn_DependsOn n
  | "Status" => mn_Status m = mn_Status n | "ConsecutiveFailures" => mn_ConsecutiveFailures m = mn_ConsecutiveFailures n
  | "ExecutionRevision" => mn_ExecutionRevision m = mn_ExecutionRevision n | "StateSequence" => mn_StateSequence m = mn_StateSequence n
  | "LastProbeErrorReason" => mn_LastProbeErrorReason m = mn_LastProbeErrorReason n
  | "LastProbeErrorAt" => mn_LastProbeErrorAt m = mn_LastProbeErrorAt n | "LastProbeErrorJobID" => mn_LastProbeErrorJobID m = mn_LastProbeErrorJobID n
  | "SupersededByServiceID" => mn_SupersededByServiceID m = mn_SupersededByServiceID n | "RetiredAt" => mn_RetiredAt m = mn_RetiredAt n
  | "PushToken" => mn_PushToken m = mn_PushToken n | "Tags" => mn_Tags m = mn_Tags n
  | "CreatedAt" => mn_CreatedAt m = mn_CreatedAt n | "UpdatedAt" => mn_UpdatedAt m = mn_UpdatedAt n
  | _ => True
  end.

(** Evaluation fields, but for the configuration, which a projection reads through the registry. *)
Definition agreeBesideConfig (m n : Monitor) : Prop :=
  forall name, ClassifyMonitorField name = SemanticEvaluation -> name <> "Config" -> fieldEq name m n.

Definition configPart (typ : MonitorType) (config : settings) : result SettingsError (settings * settings) :=
  if CredentialedType typ then
    let! keys := ExecutionBindingKeys typ config in
    let! c := canonicalConfig typ config keys in
    Ok (c, refsOf config)
  else Ok (config, ∅).

Lemma projection_parts m n g :
  agreeBesideConfig m n -> configPart (mn_Type m) (mn_Config m) = configPart (mn_Type n) (mn_Config n) ->
  MonitorEvaluationSemantics m g = MonitorEvaluationSemantics n g.
Proof.
  intros H Hc.
  assert (forall name, bool_decide (ClassifyMonitorField name = SemanticEvaluation) && negb (bool_decide (name = "Config")) = true -> fieldEq name m n) as H'.
  { intros name [Hn%bool_decide_eq_true Hne%negb_true_iff%bool_decide_eq_false]%andb_prop. by apply H. }
  unfold MonitorEvaluationSemantics. fold (configPart (mn_Type m) (mn_Config m)). fold (configPart (mn_Type n) (mn_Config n)). rewrite Hc.
  rewrite (H' "Type" eq_refl : mn_Type m = mn_Type n), (H' "Target" eq_refl : mn_Target m = mn_Target n),
    (H' "Method" eq_refl : mn_Method m = mn_Method n), (H' "Region" eq_refl : mn_Region m = mn_Region n),
    (H' "IntervalSeconds" eq_refl : mn_IntervalSeconds m = mn_IntervalSeconds n),
    (H' "TimeoutSeconds" eq_refl : mn_TimeoutSeconds m = mn_TimeoutSeconds n), (H' "Retries" eq_refl : mn_Retries m = mn_Retries n),
    (H' "GraceSeconds" eq_refl : mn_GraceSeconds m = mn_GraceSeconds n), (H' "Enabled" eq_refl : mn_Enabled m = mn_Enabled n),
    (H' "Conditions" eq_refl : mn_Conditions m = mn_Conditions n).
  done.
Qed.

Lemma projection_told m n g e :
  MonitorEvaluationSemantics m g = Ok e -> MonitorEvaluationSemantics n g = Ok e -> agreeBesideConfig m n.
Proof.
  intros Hm Hn name. unfold MonitorEvaluationSemantics in *.
  destruct (if CredentialedType (mn_Type m) then _ else _) as [c|]; [|done]. destruct (if CredentialedType (mn_Type n) then _ else _) as [c'|]; [|done].
  cbn [rbind] in *. injection Hm as <-. injection Hn as E1 E2 E3 E4 E5 E6 E7 E8 E9 E10 _ _. unfold ClassifyMonitorField.
  destruct (List.find _ monitorFieldClass) as [[k c0]|] eqn:Ef; [|done]. intros -> Hne. apply List.find_some in Ef as [Hin Hk%bool_decide_eq_true].
  cbn in Hk. subst k. cbn in Hin. destruct_or! Hin; try done; injection Hin as <-; try done; by symmetry.
Qed.

(** ** Secrets *)
Lemma canonicalConfig_agree typ c c' keys :
  (forall k, k ∈ keys -> CanonicalSettingValue typ c k = CanonicalSettingValue typ c' k) -> canonicalConfig typ c keys = canonicalConfig typ c' keys.
Proof.
  induction keys as [|k keys IH]; [done|]. intros H. cbn [canonicalConfig]. rewrite (H k) by left. rewrite IH; [done|].
  intros k' Hk. apply H. by right.
Qed.

Lemma canonicalConfig_keys typ c keys out k : canonicalConfig typ c keys = Ok out -> k ∉ keys -> out !! k = None.
Proof.
  revert out. induction keys as [|k' keys IH]; intros out; cbn [canonicalConfig]; [by intros [= <-]|].
  destruct (CanonicalSettingValue typ c k') as [x|]; [|done]. cbn [rbind]. destruct (canonicalConfig typ c keys) as [m|]; [|done].
  intros [= <-] [Hk Hks]%not_elem_of_cons. rewrite lookup_insert_ne by done. by apply IH.
Qed.

(** No variant binds an execution by the key of a secret value, or tells variants apart by it. *)
Lemma registry_secret typ schema value v :
  credentialSchemas typ = Some schema -> variantOf (cs_variants schema) value = Some v ->
  cs_discriminator schema <> "password" /\ "password" ∉ keysOfBinding bindingExecution v.
Proof.
  intros Hs Hv. unfold variantOf in Hv. apply fmap_Some in Hv as ([x y] & [Hin _]%List.find_some & ->).
  destruct typ; try discriminate; injection Hs as <-; cbn in Hin; destruct_or! Hin; try done; injection Hin as <- <-; cbn.
  all: split; [done|by apply (bool_decide_unpack _); vm_compute].
Qed.

Section secret.
Context (typ : MonitorType) (c c' : settings) (Hcred : CredentialedType typ = true).
Context (Hagree : forall k, k <> "password" -> c !! k = c' !! k).

Lemma secret_resolve : resolveVariant typ c = resolveVariant typ c'.
Proof.
  apply resolve_agree. intros schema Hs. apply Hagree. intros E. destruct typ; try done; injection Hs as <-; done.
Qed.

Lemma secret_key keys : ExecutionBindingKeys typ c = Ok keys -> "password" ∉ keys.
Proof.
  destruct (resolveVariant typ c) as [v|e] eqn:Hv.
  - rewrite (credentialed_keys _ _ _ Hv). intros [= <-]. unfold sortStrings. rewrite (merge_sort_Permutation _).
    destruct (resolved _ _ _ Hv) as (schema & value & Hs & Hvar & _). by apply (registry_secret typ schema value v Hs Hvar).
  - unfold ExecutionBindingKeys. by rewrite Hcred, Hv.
Qed.

Lemma secret_config : configPart typ c = configPart typ c'.
Proof.
  unfold configPart. rewrite Hcred. pose proof secret_resolve as Hr.
  assert (ExecutionBindingKeys typ c = ExecutionBindingKeys typ c') as Hk.
  { unfold ExecutionBindingKeys. rewrite Hcred, Hr. cbn [negb]. destruct typ; done. }
  rewrite <- Hk. destruct (ExecutionBindingKeys typ c) as [keys|] eqn:E; [|done]. cbn [rbind].
  rewrite (canonicalConfig_agree typ c c' keys).
  2: { intros k Hin. unfold CanonicalSettingValue. rewrite Hr, (Hagree k); [done|]. intros ->. by apply (secret_key keys). }
  assert (refsOf c = refsOf c') as ->; [|done]. unfold refsOf. apply map_eq. intros k. apply option_eq. intros x.
  rewrite !map_lookup_filter_Some. destruct (decide (k = "password")) as [->|Hne]; [|by rewrite Hagree]. split; intros [_ H]; discriminate H.
Qed.
End secret.

(** C22: a snapshot reads the evaluation fields and no secret: for a credentialed monitor, a
    monitor that agrees on the fields classified as evaluation, in the configuration on every
    key but the slot of the secret's value, has the same semantics, errors included, whatever else
    differs (so a renamed monitor, a changed alert threshold or a value stored in the slot makes
    no epoch); the semantics have no entry for that slot; and monitors with the same semantics
    agree on every other evaluation field. *)
Theorem semantics_read_no_secret m n g
  (Hcred : CredentialedType (mn_Type m) = true) (Hsame : agreeBesideConfig m n)
  (Hconfig : forall k, k <> "password" -> mn_Config m !! k = mn_Config n !! k) :
  MonitorEvaluationSemantics m g = MonitorEvaluationSemantics n g /\
  (forall e, MonitorEvaluationSemantics m g = Ok e ->
     es_Config e !! "password" = None /\ es_CredentialRefs e !! "password" = None /\
     forall n', MonitorEvaluationSemantics n' g = Ok e -> agreeBesideConfig m n').
Proof.
  split.
  - apply projection_parts; [done|]. rewrite <- (Hsame "Type" eq_refl ltac:(done) : mn_Type m = mn_Type n). by apply secret_config.
  - intros e He. split_and!; [| |by intros n' Hn'; apply (projection_told m n' g e)].
    all: unfold MonitorEvaluationSemantics in He; rewrite Hcred in He.
    all: destruct (ExecutionBindingKeys _ _) as [keys|] eqn:Ek; [|done]; cbn [rbind] in He.
    all: destruct (canonicalConfig _ _ keys) as [out|] eqn:Ec; [|done]; cbn [rbind] in He; injection He as <-; cbn [es_Config es_CredentialRefs].
    + apply (canonicalConfig_keys _ _ _ _ _ Ec), (secret_key _ _ Hcred _ Ek).
    + unfold refsOf. apply map_lookup_filter_None. right. intros x _ H. discriminate H.
Qed.

(** ** Witnesses *)
Definition probe (type : MonitorType) (name target : string) (config : settings) : Monitor := {|
  mn_ID := "m1"; mn_ProjectID := "p"; mn_Name := name; mn_Description := ""; mn_Slug := "m1"; mn_Type := type; mn_Target := target;
  mn_Method := "GET"; mn_IntervalSeconds := 60; mn_TimeoutSeconds := 10; mn_Retries := 1; mn_FailureThreshold := 1;
  mn_ConfirmIntervalSeconds := 0; mn_ConsecutiveFailures := 0; mn_ExecutionRevision := 1; mn_LastProbeErrorReason := "";
  mn_LastProbeErrorAt := None; mn_LastProbeErrorJobID := ""; mn_StateSequence := 0; mn_RenotifySeconds := 0; mn_GraceSeconds := 0;
  mn_Conditions := ["status == 200"]; mn_Tags := []; mn_Region := "eu"; mn_Config := config; mn_Enabled := true; mn_AutoIncident := false;
  mn_EscalationPolicyID := ""; mn_DependsOn := []; mn_Status := StatusUp; mn_PushToken := ""; mn_SupersededByServiceID := "";
  mn_RetiredAt := None; mn_CreatedAt := 0; mn_UpdatedAt := 0 |}.

Definition database (password : string) : settings :=
  <["password" := password]> (<["username" := "ro"]> (<["database" := "app"]> (<["password_ref" := "db"]> ∅))).

Definition memberOf (m : Monitor) : list EpochMember :=
  match MonitorEvaluationSemantics m ∅ with
  | Ok e => [{| em_MonitorID := mn_ID m; em_Semantics := e; em_StaleAfter := 180 * Second; em_ArmedAt := 1700000000 * Second |}]
  | Err _ => []
  end.

Definition toySum (l : bytes) : bytes := map (fun b => b mod 256) l.

(** Moving one character from the target to the next part is another snapshot. *)
Lemma snapshot_hash_tells_changes_witness :
  EpochSnapshotHash toySum (memberOf (probe MonitorHTTP "web" "https://a" ∅))
  <> EpochSnapshotHash toySum (memberOf (probe MonitorHTTP "web" "https://b" ∅)).
Proof.
  intros H. apply (snapshot_hash_tells_changes toySum) in H.
  - apply Forall2_cons_1 in H as [(_ & [_ (Ht & _) _ _ _ _] & _) _]. discriminate Ht.
  - intros l. apply List.Forall_forall. intros b (x & <- & _)%List.in_map_iff. unfold byte_ok. apply Z.mod_pos_bound. lia.
  - intros E. exfalso. vm_compute in E. discriminate E.
  - repeat constructor; by vm_compute.
  - repeat constructor; by vm_compute.
Defined.

Lemma semantics_read_no_secret_witness :
  MonitorEvaluationSemantics (probe MonitorPostgres "db" "db:5432" (database "one")) ∅
  = MonitorEvaluationSemantics (probe MonitorPostgres "renamed" "db:5432" (database "two")) ∅.
Proof.
  apply semantics_read_no_secret; [by vm_compute| |].
  - intros name. unfold ClassifyMonitorField. destruct (List.find _ monitorFieldClass) as [[k c0]|] eqn:Ef; [|done].
    intros -> Hne. apply List.find_some in Ef as [Hin Hk%bool_decide_eq_true]. cbn in Hk. subst k. cbn in Hin.
    destruct_or! Hin; try done; by injection Hin as <-.
  - intros k Hk. cbn. unfold database. by rewrite !(lookup_insert_ne _ "password" k) by done.
Defined.

(** The semantics exist: the case above is not of two errors. *)
Example semantics_exist : exists e, MonitorEvaluationSemantics (probe MonitorPostgres "db" "db:5432" (database "one")) ∅ = Ok e /\ es_CredentialRefs e !! "password_ref" = Some "db" /\ es_Config e !! "sslmode" = Some "require".
Proof. vm_compute. eexists. by split_and!. Qed.
